(* ===== verification/_CoqProject ===== *)
-Q . S2P
Prelude.v
SysUtil.v
Murmur.v
TimerWheel.v
TimerWheelProofs.v
TimerWheelTick.v
HashTable.v
HashTableProofs.v
Counter.v
CounterProofs.v
CounterSeq.v
Memory.v
MemoryProofs.v
PhString.v
PhStringUtf8.v
PhStringProofs.v
StringKeys.v
Buffer.v
BufQueue.v
BufQueueProofs.v
BufConsume.v
BufRecord.v
BufStream.v
Stream.v
StreamProofs.v
StringStream.v
StringStreamProofs.v
Variant.v
VariantProofs.v
VariantOps.v
VariantGrow.v
JsonLoad.v
JsonDump.v
JsonLexProofs.v
VariantBuild.v
JsonTokens.v
JsonScan.v
JsonParse.v
JsonPrint.v
JsonDumpProofs.v
JsonRoundTrip.v
VarPath.v
Config.v
VarPack.v
VarPackProofs.v
VarUnpack.v
Printf.v
PrintfProofs.v
PPrintf.v
PPrintfProofs.v
Hook.v
HookProofs.v
ConfigQuery.v
Pool.v
PoolProofs.v
Queue.v
QueueProofs.v
Nbio.v
NbioProofs.v
AffineQueue.v
Connect.v
FdStream.v
Sock.v
SockProofs.v
TempFile.v
SockAddr.v
Listener.v
