(* ===== verification/Prelude.v ===== *)
(** * libphenom: a verification development

    libphenom (src/corelib, src/include/phenom) is an eventing framework in C.
    This library models its core data structures and the services built on
    them, and proves what makes them correct.

    ** Parts and files

    - Prelude: results, machine integers ([wrapU], [wrapS]), the state monad
      [M S] with its outcomes ([Ret]; [Panic] for ph_panic, abort and failed
      assertions; [Fault] for an access outside the live object it is meant
      for), lists as memory ([slice], [splice]), sums, tactics.
    - SysUtil: MIN, MAX, ph_power_2 (sysutil.h), reference counts (refcnt.h).
    - Murmur: hash/murmur.c, with MurmurHash3 as a reference definition.
    - TimerWheel, TimerWheelProofs, TimerWheelTick: timerwheel.c and the
      catch-up loop of nbio/common.c.  State: the wheel's next run, four
      buckets of 256 lists, and the timers.
    - HashTable, HashTableProofs: hash/table.c.  State: the slots with their
      status, the counts, and whatever the key and value callbacks act on.
      StringKeys instantiates it with the string keys at the end of table.c.
    - Counter, CounterProofs, CounterSeq: counter.c and counter.h.  Scopes,
      blocks and the per-thread tables are finite maps; concurrency kit's
      ck_hs is the class [ck_hs] with its laws.  CounterSeq is the sequence
      lock as a step relation over single accesses.
    - Memory, MemoryProofs: memory.c over the counters.  The heap maps blocks
      to their bytes and headers; malloc succeeds as an oracle says.
    - PhString, PhStringUtf8, PhStringProofs: string.c and string.h over
      Memory.  A string's buffer is in a heap block or in memory of the
      caller.
    - Buffer, BufQueue, BufQueueProofs, BufConsume, BufRecord: buf.c.
      Buffers are windows on shared blocks; a queue is a list of entries.
    - Stream, StreamProofs: streams/make.c, read.c, write.c, copy.c over a
      table of functions.  StringStream, StringStreamProofs: streams/string.c.
    - Variant, VariantProofs, VariantOps, VariantGrow: variant/variant.c and
      variant.h.  Variants live in a finite map with their reference counts;
      an object has a hash table of HashTable.  The allocator and the strings
      are the class [var_env].
    - JsonLoad, JsonDump: variant/json-load.c and json-dump.c over Stream and
      Variant.  JsonLexProofs (characters), JsonTokens (strings), JsonScan
      (tokens), JsonParse (the grammar and the parser), JsonPrint (the text of
      a value), JsonDumpProofs (the writer), JsonRoundTrip (the theorems).
    - VariantBuild: the steps of building a value, and that releasing a
      temporary one leaves no trace; used by the JSON reader and pack.c.
    - VarPath: variant/path.c.  Config: config.c over VarPath and JsonLoad;
      the state adds the global configuration.
    - VarPack: variant/pack.c, both directions; the argument list is a list of
      typed arguments.  VarPackProofs and VarUnpack: the grammars of formats
      and the theorems.
    - Printf: vprintf.c; the argument list is a list of typed arguments, the
      labels of the function are values of [exit_t].  PrintfProofs: the texts
      that formats describe ([formats]) and that they are printed, for every
      print function that satisfies the class [printer].  PPrintf,
      PPrintfProofs: pprintf.c and the printf functions of string.c and
      streams/write.c, as instances of that class.
    - Hook, HookProofs: hook.c and hook.h.  Changes are atomic, invocations
      take one step per item, deferred calls of the epoch run when the
      sections they wait for have ended.
    - ConfigQuery: ph_config_queryf_int, over Config and PPrintf.
    - Pool, PoolProofs: the thread pools of job.c.  The functions over one
      pool with the time asleep as an argument, and a step relation that
      interleaves producers and workers; concurrency kit's ck_ring is a class
      with its laws.
    - Queue, QueueProofs: queue.h, on a memory of words; an entry and a head
      have the same layout, which the macros rely on.
    - Nbio, NbioProofs: nbio/common.c, nbio/epoll.c, pingfd.c and the jobs of
      job.c.  State: jobs, their timers, emitters with a wheel of TimerWheel
      and a kernel queue, the running thread with its deferred items, pools
      of Pool.  epoll is the class [epoll_api] with its laws.
    - AffineQueue: the functions queued to an emitter, as a step relation over
      critical sections and accesses to the pipe.
    - Connect: the asynchronous connect of net/socket.c, as a log of what is
      done for all answers of the system.
    - BufStream: buffer queues as byte queues when memory may run out; the class
      [bufq_api] with its laws is what sockets rely on, and the queues of
      BufQueue are an instance, each with a heap of its own.
    - FdStream: streams/fd.c, openssl/ssl_stream.c and the two BIOs; the system calls
      on a descriptor ([sys_io]) and OpenSSL ([openssl_api]) are interfaces.
    - Sock, SockProofs: the rest of net/socket.c.  State: a sock with its
      queues, its stream and its SSL object, the scheduler of Nbio, and the
      state of its user, whose callback is a parameter.
    - TempFile: streams/temp.c; random numbers and [open] are parameters.
    - SockAddr: net/sockaddr.c, on the bytes of the address structures.
    - Listener: net/listener.c, over Nbio and Sock.

    ** How they interact

    The allocator counts in the counters; strings allocate from the
    allocator; the hash table is used with strings as keys; buffer queues
    write to and read from streams; a string is an implementation of a
    stream; objects are hash tables; the JSON reader builds variants from a
    stream and the writer writes them to one; paths walk variants; the
    configuration is a document of the JSON reader queried with paths.  Where
    a component is a client of another, its theorems are proved against an
    interface: [ck_hs] for the counters, [ck_ring] for thread pools, [key_laws] for the
    hash table (discharged for strings by [string_key_laws]), [sink] and
    [source] for streams (discharged by [string_sink] and [string_source]),
    [var_env_ok] for the allocator and strings the variants use.

    ** What the theorems show

    - Timer wheel: a well-formedness invariant kept by every operation; a
      tick dispatches exactly the timers that are due; a timer fires on its
      tick; the catch-up loop terminates.
    - Hash table: the table refines a dictionary under insertion, deletion,
      lookup and growth; iterations visit every entry once, the ordered one
      in order.
    - Counters: additions and totals, the registry of scopes, and that a
      reader of the sequence lock sees a state between two updates.
    - Memory: the counters always equal the live bytes and blocks; contents
      of allocation and reallocation; out of memory.
    - Strings: contents under append, comparison as lexicographic order,
      release; UTF-8 coding round trips and exactness of the validity check.
    - Buffer queues: a queue of bytes under append, consume and peek, with
      buffers that were handed out unaffected; records end in the delimiter.
    - Streams: bytes pass in order through the buffer in both directions;
      copying; string streams read back what was written.
    - Variants: the counts are exact and the graph has no cycle, kept by
      release, by changes of arrays and objects and by the JSON reader; release
      frees exactly what is unreachable.
    - JSON: the reader accepts the grammar, the writer writes it, and reading
      what was written gives the value back.
    - Paths and configuration: a path selects in a variant what it selects in
      the value; queries of a loaded file return what its document says and
      keep the reference counts.
    - Pack and unpack: a format of the grammar builds its value; unpacking
      stores the parts a format names; what was packed is unpacked again.
    - Printing: the text a format describes is what is printed, and its length
      is returned; a buffer is never overrun and always terminated, allocated
      memory grows to hold the text, descriptors, strings and streams get it.
    - Hooks: handlers are kept in order, removal takes one, and in every
      interleaving invocations walk over memory that is alive.
    - Thread pools: in every interleaving jobs are neither lost nor run twice,
      rings are bounded and first in, first out, and no thread looks at a ring
      without a buffer; a worker finds queued jobs and drains the rings.
    - Queues: the macros refine operations on lists and leave other memory
      alone.
    - Scheduler: scheduling a job registers its events and starts its timer;
      deferring it changes only when; jobs are dispatched once, not after
      they were freed; functions queued to an emitter are run once, in
      order, and the wakeup of the emitter is not lost.
    - Connecting: one call of the user's function, no memory leaked, and
      descriptors closed once (with one exception).
    - Sockets: a dispatch loses and reorders no byte in either direction, calls
      the user, and leaves the descriptor registered for what is to be done.
      Its fuel is more than the bytes to send: every write takes one.
    - Temporary files: the name is the template with letters for its X.
    - Addresses and listeners: addresses are well formed and local ones are
      printed as their path; an accepted descriptor is handed over or closed,
      and the listener is waited for again.

    ** Conventions, bounds and fuel

    A w-bit integer is a [Z] with its wrap-around written out.  Recursion that
    is not structural takes fuel; the theorems give an amount that is enough
    (the distance in ticks for the catch-up loop, the number of bytes for
    loops over data, the number of objects for chains of slices) and prove
    that the result is returned.  Sizes are bounded by [2 ^ 62] or less where
    the code adds 64-bit sizes without a check.  In the models of stores an
    allocation succeeds or fails as the next element of an oracle; theorems
    that say [plenty] assume that it does not fail.  Locks are not modelled
    except for the error-checking mutex of streams and the sequence lock:
    operations are atomic, but for the interleavings of Hook and Pool.

    ** Not modelled

    Floating point digits (dtoa.c, third-party: a parameter of Printf) and the
    registration of formatters; start-up, end and the kqueue and event port
    variants of the event loop; OpenSSL's own start-up and locks, and the
    callback at the end of its handshakes; DNS, a job around a system call;
    threads, logging, tracing modules. *)

From Stdlib Require Import ZArith Lia.
From stdpp Require Import base numbers list gmap strings.

#[global] Open Scope Z_scope.

(** ** Result codes: [ph_result_t] of include/phenom/defs.h *)

Inductive ph_result_t : Set :=
  | PH_OK | PH_NOMEM | PH_BUSY | PH_ERR | PH_NOENT | PH_EXISTS | PH_DONE.

#[export] Instance ph_result_eq_dec : EqDecision ph_result_t.
Proof. solve_decision. Defined.

(** ** Machine integers

    A C integer is a [Z]; the wrap-around of an operation is written where
    the source performs it. *)

Definition wrapU (w x : Z) : Z := x mod 2 ^ w.
Definition wrapS (w x : Z) : Z := (x + 2 ^ (w - 1)) mod 2 ^ w - 2 ^ (w - 1).

Abbreviation u8 := (wrapU 8).
Abbreviation u32 := (wrapU 32).
Abbreviation u64 := (wrapU 64).
Abbreviation s32 := (wrapS 32).
Abbreviation s64 := (wrapS 64).

Abbreviation INT64_MAX := (2 ^ 63 - 1).
Abbreviation UINT64_MAX := (2 ^ 64 - 1).

Lemma wrapU_small w x : 0 <= x < 2 ^ w -> wrapU w x = x.
Proof. intros. by apply Z.mod_small. Qed.

Lemma wrapU_bound w x : 0 <= w -> 0 <= wrapU w x < 2 ^ w.
Proof. intros. apply Z.mod_pos_bound. lia. Qed.

Lemma wrapS_small w x : 0 < w -> - 2 ^ (w - 1) <= x < 2 ^ (w - 1) -> wrapS w x = x.
Proof.
  intros Hw Hx. unfold wrapS.
  assert (2 ^ w = 2 * 2 ^ (w - 1)) as ->.
  { rewrite <- Z.pow_succ_r by lia. f_equal. lia. }
  rewrite Z.mod_small; lia.
Qed.

Lemma wrapU_wrapU w x : 0 <= w -> wrapU w (wrapU w x) = wrapU w x.
Proof. intros. apply wrapU_small, wrapU_bound. done. Qed.

Lemma wrapU_add_l w x y : 0 <= w -> wrapU w (wrapU w x + y) = wrapU w (x + y).
Proof. intros. unfold wrapU. by rewrite Zplus_mod_idemp_l. Qed.

Create HintDb phenom discriminated.
#[export] Hint Resolve wrapU_small wrapU_bound : phenom.

(** Masking with [2^k - 1] is the remainder modulo [2^k]. *)
Lemma land_mask x k m : 0 <= k -> m = 2 ^ k - 1 -> Z.land x m = x mod 2 ^ k.
Proof. intros Hk ->. rewrite <- (Z.land_ones x k Hk), Z.ones_equiv, Z.sub_1_r. done. Qed.

(** ** Outcomes and the state monad of the stateful components

    A C function returns a value ([Ret]), calls [ph_panic]/[memory_panic]/
    [abort]/fails an [assert] ([Panic]), or performs an access that is
    outside the live object it is meant for ([Fault]). *)

Inductive outcome (A : Type) : Type :=
  | Ret (a : A)
  | Panic
  | Fault.
Arguments Ret {A} a.
Arguments Panic {A}.
Arguments Fault {A}.

Definition M (S A : Type) : Type := S -> outcome (A * S).

Definition ret {S A} (a : A) : M S A := fun s => Ret (a, s).
Definition bind {S A B} (c : M S A) (k : A -> M S B) : M S B :=
  fun s => match c s with
           | Ret (a, s') => k a s'
           | Panic => Panic
           | Fault => Fault
           end.
Definition get {S} : M S S := fun s => Ret (s, s).
Definition put {S} (s : S) : M S unit := fun _ => Ret (tt, s).
Definition modify {S} (f : S -> S) : M S unit := fun s => Ret (tt, f s).
Definition panic {S A} : M S A := fun _ => Panic.
Definition fault {S A} : M S A := fun _ => Fault.

(** Read a partial map; a missing object is an access to dead memory. *)
Definition of_option {S A} (o : option A) : M S A :=
  match o with Some a => ret a | None => fault end.

Declare Scope phenom_scope.
Delimit Scope phenom_scope with phenom.
Notation "x <-- c ;; k" := (bind c (fun x => k))
  (at level 100, c at next level, right associativity) : phenom_scope.
Notation "'let*' p := c 'in' k" := (bind c (fun x => match x with p => k end))
  (at level 100, p pattern, c at next level, right associativity) : phenom_scope.
Notation "c ;;; k" := (bind c (fun _ => k))
  (at level 100, right associativity) : phenom_scope.
#[global] Open Scope phenom_scope.

Lemma bind_ret {S A B} (c : M S A) (k : A -> M S B) s a s' :
  c s = Ret (a, s') -> bind c k s = k a s'.
Proof. unfold bind. by intros ->. Qed.

Lemma bind_Ret_inv {S A B} (c : M S A) (k : A -> M S B) s r :
  bind c k s = Ret r -> exists a s', c s = Ret (a, s') /\ k a s' = Ret r.
Proof. unfold bind. destruct (c s) as [[a s']| |]; [eauto | done | done]. Qed.

(** Run the first command of a sequence: by the equation [H], or by
    computation. *)
Ltac step_with H := erewrite bind_ret by exact H; cbv beta iota.
Ltac step := erewrite bind_ret by reflexivity; cbv beta iota.

(** ** Lists as memory: length, slices, in-place writes *)

Abbreviation zlen l := (Z.of_nat (length l)).

(** [l] with the cells from index [n] on overwritten by [l']. *)
Definition splice {A} (n : nat) (l' l : list A) : list A :=
  take n l ++ l' ++ drop (n + length l') l.

(** The [k] cells from index [n] on. *)
Definition slice {A} (n k : nat) (l : list A) : list A := take k (drop n l).

Section splice.
Context {A : Type}.
Implicit Types l : list A.

Lemma length_splice n l' l :
  (n + length l' <= length l)%nat -> length (splice n l' l) = length l.
Proof. intros. unfold splice. rewrite !length_app, length_take, length_drop. lia. Qed.

Lemma length_slice n k l : (n + k <= length l)%nat -> length (slice n k l) = k.
Proof. intros. unfold slice. rewrite length_take, length_drop. lia. Qed.

Lemma lookup_slice n k l i : (i < k)%nat -> slice n k l !! i = l !! (n + i)%nat.
Proof. intros. unfold slice. by rewrite lookup_take_lt, lookup_drop by done. Qed.

Lemma lookup_splice_old n l' l i :
  (n + length l' <= length l)%nat ->
  ~ (n <= i < n + length l')%nat -> splice n l' l !! i = l !! i.
Proof.
  intros Hle Hi. unfold splice. destruct (decide (i < n)%nat).
  - rewrite lookup_app_l by (rewrite length_take; lia). by rewrite lookup_take_lt.
  - rewrite lookup_app_r, length_take by (rewrite length_take; lia).
    rewrite lookup_app_r by lia. rewrite lookup_drop. f_equal. lia.
Qed.

Lemma lookup_splice_new n l' l i :
  (n + length l' <= length l)%nat ->
  (n <= i < n + length l')%nat -> splice n l' l !! i = l' !! (i - n)%nat.
Proof.
  intros Hle Hi. unfold splice.
  rewrite lookup_app_r, length_take by (rewrite length_take; lia).
  rewrite lookup_app_l by lia. f_equal. lia.
Qed.

(** Reading back what was written. *)
Lemma slice_splice_same n l' l :
  (n + length l' <= length l)%nat -> slice n (length l') (splice n l' l) = l'.
Proof.
  intros. unfold slice, splice.
  rewrite drop_app_length' by (rewrite length_take; lia).
  by rewrite take_app_length.
Qed.

(** A write outside the slice read leaves it unchanged. *)
Lemma slice_splice_disjoint n l' l m k :
  (n + length l' <= length l)%nat ->
  (m + k <= n \/ n + length l' <= m)%nat ->
  slice m k (splice n l' l) = slice m k l.
Proof.
  intros Hle Hd. apply list_eq. intros i.
  destruct (decide (i < k)%nat).
  - rewrite !lookup_slice by done. apply lookup_splice_old; lia.
  - rewrite !lookup_ge_None_2; [done|..]; unfold slice; rewrite length_take; lia.
Qed.

(** Writing right behind a slice extends it. *)
Lemma slice_splice_extend n k l' l :
  (n + k + length l' <= length l)%nat ->
  slice n (k + length l') (splice (n + k) l' l) = slice n k l ++ l'.
Proof.
  intros Hle. apply list_eq. intros i.
  destruct (decide (i < k)%nat).
  - rewrite lookup_app_l by (rewrite length_slice; lia).
    rewrite !lookup_slice by lia. apply lookup_splice_old; lia.
  - rewrite lookup_app_r, length_slice by (rewrite ?length_slice; lia).
    destruct (decide (i < k + length l')%nat).
    + rewrite lookup_slice by lia. rewrite lookup_splice_new by lia. f_equal. lia.
    + rewrite !lookup_ge_None_2; [done| lia |].
      unfold slice. rewrite length_take. lia.
Qed.

Lemma slice_all l : slice 0 (length l) l = l.
Proof. unfold slice. by rewrite drop_0, firstn_all. Qed.

Lemma slice_slice n k m j l :
  (m + j <= k)%nat -> slice m j (slice n k l) = slice (n + m) j l.
Proof.
  intros. unfold slice. rewrite skipn_firstn_comm, take_take, drop_drop. f_equal. lia.
Qed.

Lemma slice_app n j k l :
  slice n (j + k) l = slice n j l ++ slice (n + j) k l.
Proof.
  unfold slice. rewrite <- drop_drop.
  by rewrite <- (take_drop j (take (j + k) (drop n l))), take_take, Nat.min_l,
    skipn_firstn_comm, Nat.add_comm, Nat.add_sub by lia.
Qed.
End splice.

(** ** Sums *)

Definition zsum {A} (f : A -> Z) (l : list A) : Z := foldr (fun a n => f a + n) 0 l.

Lemma zsum_ext_at {A} (f g : A -> Z) l :
  (forall i a, l !! i = Some a -> f a = g a) -> zsum f l = zsum g l.
Proof.
  induction l as [|a l IH]; intros H; simpl; [done|].
  rewrite (H 0%nat a eq_refl). f_equal. apply IH. intros i. apply (H (S i)).
Qed.

(** Sums over two lists that differ at one index. *)
Lemma zsum_update {A} (f g : A -> Z) l l' i a a' :
  l !! i = Some a -> l' = <[i := a']> l ->
  (forall j b, l !! j = Some b -> j <> i -> f b = g b) ->
  zsum g l' = zsum f l + (g a' - f a).
Proof.
  intros Hi -> Hj. revert i Hi Hj. induction l as [|b l IH]; intros i Hi Hj; [done|].
  destruct i as [|i]; simpl in *.
  - simplify_eq. rewrite (zsum_ext_at f g l); [lia|].
    intros j b Hb. apply (Hj (S j)); [done|lia].
  - rewrite (IH i) by (first [done | intros j b' Hb Hne; apply (Hj (S j)); [done|lia]]).
    rewrite (Hj 0%nat b eq_refl) by lia. lia.
Qed.

Lemma zsum_app {A} (f : A -> Z) l l' : zsum f (l ++ l') = zsum f l + zsum f l'.
Proof. induction l; simpl; lia. Qed.

Lemma zsum_perm {A} (f : A -> Z) l l' : l ≡ₚ l' -> zsum f l = zsum f l'.
Proof. induction 1; simpl; lia. Qed.

Lemma zsum_nonneg {A} (f : A -> Z) l : (forall a, 0 <= f a) -> 0 <= zsum f l.
Proof. intros H. induction l as [|a l IH]; simpl; [lia|]. specialize (H a). lia. Qed.

Lemma zsum_0 {A} (f : A -> Z) l : (forall i a, l !! i = Some a -> f a = 0) -> zsum f l = 0.
Proof.
  intros H. rewrite (zsum_ext_at f (fun _ => 0)) by done. induction l; simpl; [done|].
  apply IHl. intros i. apply (H (S i)).
Qed.

Lemma wrapS_add_l w x y : 0 < w -> wrapS w (wrapS w x + y) = wrapS w (x + y).
Proof.
  intros. unfold wrapS. f_equal.
  replace ((x + 2 ^ (w - 1)) mod 2 ^ w - 2 ^ (w - 1) + y + 2 ^ (w - 1))
    with ((x + 2 ^ (w - 1)) mod 2 ^ w + y) by lia.
  rewrite Zplus_mod_idemp_l. f_equal. lia.
Qed.

Lemma wrapS_add_r w x y : 0 < w -> wrapS w (x + wrapS w y) = wrapS w (x + y).
Proof. intros. rewrite Z.add_comm, wrapS_add_l by done. f_equal. lia. Qed.

Lemma wrapS_bound w x : 0 < w -> - 2 ^ (w - 1) <= wrapS w x < 2 ^ (w - 1).
Proof.
  intros Hw. unfold wrapS.
  assert (2 ^ w = 2 * 2 ^ (w - 1)) as Hp.
  { rewrite <- Z.pow_succ_r by lia. f_equal. lia. }
  pose proof (Z.pow_pos_nonneg 2 (w - 1)).
  pose proof (Z.mod_pos_bound (x + 2 ^ (w - 1)) (2 ^ w)). lia.
Qed.

(** Equality modulo [2^w], as the signed wrap-around sees it. *)
Lemma wrapS_eq_iff w x y : 0 < w -> wrapS w x = wrapS w y <-> exists k, x = y + k * 2 ^ w.
Proof.
  intros Hw. unfold wrapS. assert (0 < 2 ^ w) by (apply Z.pow_pos_nonneg; lia). split.
  - intros H1. assert ((x + 2 ^ (w - 1)) mod 2 ^ w = (y + 2 ^ (w - 1)) mod 2 ^ w) as H2 by lia.
    exists ((x + 2 ^ (w - 1)) / 2 ^ w - (y + 2 ^ (w - 1)) / 2 ^ w).
    pose proof (Z.div_mod (x + 2 ^ (w - 1)) (2 ^ w) ltac:(lia)).
    pose proof (Z.div_mod (y + 2 ^ (w - 1)) (2 ^ w) ltac:(lia)). lia.
  - intros [k ->]. f_equal. replace (y + k * 2 ^ w + 2 ^ (w - 1)) with (y + 2 ^ (w - 1) + k * 2 ^ w) by lia.
    apply Z_mod_plus_full.
Qed.

(** ** Proof automation *)

(** Case split on the boolean tests of the source. *)
Ltac case_bool :=
  match goal with
  | |- context [if ?b then _ else _] => let E := fresh "E" in destruct b eqn:E
  | H : context [if ?b then _ else _] |- _ => let E := fresh "E" in destruct b eqn:E
  end.

(** Turn boolean comparisons on [Z] into propositions [lia] can use. *)
Ltac zbool :=
  repeat match goal with
  | H : (_ <? _) = true |- _ => apply Z.ltb_lt in H
  | H : (_ <? _) = false |- _ => apply Z.ltb_ge in H
  | H : (_ <=? _) = true |- _ => apply Z.leb_le in H
  | H : (_ <=? _) = false |- _ => apply Z.leb_gt in H
  | H : (_ =? _) = true |- _ => apply Z.eqb_eq in H
  | H : (_ =? _) = false |- _ => apply Z.eqb_neq in H
  | H : (_ && _) = true |- _ => apply andb_true_iff in H; destruct H
  | H : (_ || _) = false |- _ => apply orb_false_iff in H; destruct H
  | H : negb _ = true |- _ => apply negb_true_iff in H
  | H : negb _ = false |- _ => apply negb_false_iff in H
  end.

(** Invert a chain of monadic binds that returned. *)
Ltac binv H :=
  let a := fresh "a" in let s := fresh "s" in let E := fresh "E" in
  apply bind_Ret_inv in H as (a & s & E & H).
