(* ===== verification/SysUtil.v ===== *)
(** * Small utilities the components share

    [ph_power_2] of include/phenom/sysutil.h and the reference counter of
    include/phenom/refcnt.h. *)

From Stdlib Require Import ZArith Lia.
From stdpp Require Import base numbers list gmap.
From S2P Require Import Prelude.

Definition MIN (a b : Z) : Z := if a <? b then a else b.
Definition MAX (a b : Z) : Z := if a >? b then a else b.

Lemma MIN_min a b : MIN a b = Z.min a b.
Proof. unfold MIN. case_bool; zbool; lia. Qed.
Lemma MAX_max a b : MAX a b = Z.max a b.
Proof. unfold MAX. rewrite Z.gtb_ltb. case_bool; zbool; lia. Qed.

(** "round up to next power of 2" (sysutil.h) *)
Definition ph_power_2 (n : Z) : Z :=
  let n := Z.lor n (Z.shiftr n 16) in
  let n := Z.lor n (Z.shiftr n 8) in
  let n := Z.lor n (Z.shiftr n 4) in
  let n := Z.lor n (Z.shiftr n 2) in
  let n := Z.lor n (Z.shiftr n 1) in
  u32 (n + 1).

(** refcnt.h: [ph_refcnt_add], and [ph_refcnt_del], true when the last
    reference went away.  The counter is a C [int]. *)
Definition ph_refcnt_add (ref : Z) : Z := s32 (ref + 1).
Definition ph_refcnt_del (ref : Z) : bool * Z := (ref =? 1, s32 (ref - 1)).

(** ** [ph_power_2] *)

(** [x] has bit [i] set exactly when [n] has one of the bits [i + j], [j] a
    multiple of [s] below 32. *)
Definition smeared (n s x : Z) : Prop :=
  forall i, 0 <= i ->
    Z.testbit x i = true <-> exists a, 0 <= a * s < 32 /\ Z.testbit n (i + a * s) = true.

Lemma smeared_init n : smeared n 32 n.
Proof.
  intros i Hi. split.
  - intros H. exists 0. rewrite Z.mul_0_l, Z.add_0_r. split; [lia|done].
  - intros (a & Ha & H). assert (a = 0) as -> by lia.
    by rewrite Z.mul_0_l, Z.add_0_r in H.
Qed.

Lemma smeared_step n s x :
  0 < s -> (exists c, 32 = c * (2 * s)) ->
  smeared n (2 * s) x -> smeared n s (Z.lor x (Z.shiftr x s)).
Proof.
  intros Hs [c Hc] Hx i Hi.
  rewrite Z.lor_spec, Z.shiftr_spec, orb_true_iff by done.
  rewrite (Hx i), (Hx (i + s)) by lia. split.
  - intros [(a & Ha & H)|(a & Ha & H)].
    + exists (2 * a). replace (2 * a * s) with (a * (2 * s)) by ring. done.
    + exists (2 * a + 1). replace ((2 * a + 1) * s) with (s + a * (2 * s)) by ring.
      rewrite Z.add_assoc. split; [|done].
      assert (a < c) by nia. assert ((a + 1) * (2 * s) <= c * (2 * s)) by nia. lia.
  - intros (a & Ha & H).
    assert (0 <= a) by nia.
    pose proof (Z.div_pos a 2 ltac:(lia) ltac:(lia)).
    pose proof (Z.div_mod a 2 ltac:(lia)) as Hd.
    pose proof (Z.mod_pos_bound a 2 ltac:(lia)).
    assert (a mod 2 = 0 \/ a mod 2 = 1) as [E|E] by lia; rewrite E in Hd.
    + left. exists (a / 2). replace (a / 2 * (2 * s)) with (a * s); [done|].
      rewrite Hd at 1. ring.
    + right. exists (a / 2).
      assert (a * s = s + a / 2 * (2 * s)) as Has by (rewrite Hd at 1; ring).
      split; [nia|]. by rewrite <- Z.add_assoc, <- Has.
Qed.

Lemma ph_power_2_smeared n :
  0 <= n -> exists x, ph_power_2 n = u32 (x + 1) /\ 0 <= x /\ smeared n 1 x.
Proof.
  intros Hn. eexists. split; [reflexivity|]. split.
  { repeat first [rewrite Z.lor_nonneg | rewrite Z.shiftr_nonneg]. tauto. }
  apply (smeared_step n 1); [lia | by exists 16 |].
  apply (smeared_step n 2); [lia | by exists 8 |].
  apply (smeared_step n 4); [lia | by exists 4 |].
  apply (smeared_step n 8); [lia | by exists 2 |].
  apply (smeared_step n 16); [lia | by exists 1 |].
  apply smeared_init.
Qed.

Lemma smeared_ones n x :
  0 < n < 2 ^ 32 -> 0 <= x -> smeared n 1 x -> x = Z.ones (Z.log2 n + 1).
Proof.
  intros Hn Hx0 Hx. pose proof (Z.log2_nonneg n).
  assert (Z.log2 n < 32) by (apply Z.log2_lt_pow2; lia).
  apply Z.bits_inj'. intros i Hi.
  apply eq_bool_prop_intro. rewrite !Is_true_true, (Hx i Hi).
  destruct (decide (i <= Z.log2 n)).
  - rewrite Z.ones_spec_low by lia. split; [done|]. intros _.
    exists (Z.log2 n - i). split; [lia|].
    replace (i + (Z.log2 n - i) * 1) with (Z.log2 n) by lia.
    apply Z.bit_log2. lia.
  - rewrite Z.ones_spec_high by lia. split; [|done].
    intros (a & Ha & H1). rewrite Z.bits_above_log2 in H1; [done|lia|lia].
Qed.

(** For [n < 2^31] the result is the least power of two above [n]; in the
    upper half of the range the addition wraps and the result is 0. *)
Lemma ph_power_2_spec n :
  0 < n < 2 ^ 32 -> ph_power_2 n = u32 (2 ^ (Z.log2 n + 1)).
Proof.
  intros Hn. destruct (ph_power_2_smeared n) as (x & -> & Hx0 & Hx); [lia|].
  rewrite (smeared_ones n x) by done.
  rewrite Z.ones_equiv. f_equal. lia.
Qed.

Lemma ph_power_2_0 : ph_power_2 0 = 1.
Proof. reflexivity. Qed.

Lemma ph_power_2_above n :
  0 <= n < 2 ^ 31 ->
  n < ph_power_2 n <= 2 * Z.max 1 n /\ exists k, 0 <= k <= 31 /\ ph_power_2 n = 2 ^ k.
Proof.
  intros Hn. destruct (decide (n = 0)) as [->|].
  { rewrite ph_power_2_0. split; [lia|]. exists 0. lia. }
  rewrite ph_power_2_spec by lia.
  pose proof (Z.log2_spec n ltac:(lia)) as [Hlo Hhi].
  pose proof (Z.log2_nonneg n).
  assert (Z.log2 n < 31) by (apply Z.log2_lt_pow2; lia).
  assert (2 ^ (Z.log2 n + 1) <= 2 ^ 31) by (apply Z.pow_le_mono_r; lia).
  rewrite wrapU_small by (split; [apply Z.pow_nonneg; lia|lia]).
  split; [|exists (Z.log2 n + 1); lia].
  rewrite <- Z.add_1_r in Hhi. rewrite Z.pow_add_r in * by lia. lia.
Qed.

(** Upper half of the 32-bit range: the result wraps to 0. *)
Lemma ph_power_2_wraps n : 2 ^ 31 <= n < 2 ^ 32 -> ph_power_2 n = 0.
Proof.
  intros Hn. rewrite ph_power_2_spec by lia.
  assert (Z.log2 n = 31) as -> by (apply Z.log2_unique; lia).
  reflexivity.
Qed.
