(* ===== verification/Murmur.v ===== *)
(** * The hash of corelib/hash/murmur.c

    [ph_hash_bytes_murmur] on byte lists, 64-bit words kept at their width,
    the 64-bit block loads those of a little-endian host.  The tail [switch]
    falls through its cases, which [tail_switch] follows case by case. *)

From Stdlib Require Import ZArith Lia.
From stdpp Require Import base numbers list.
From S2P Require Import Prelude.

Module Murmur.

Definition rotl64 (x r : Z) : Z := Z.lor (u64 (Z.shiftl x r)) (Z.shiftr x (64 - r)).

Definition fmix64 (k : Z) : Z :=
  let k := Z.lxor k (Z.shiftr k 33) in
  let k := u64 (k * 0xff51afd7ed558ccd) in
  let k := Z.lxor k (Z.shiftr k 33) in
  let k := u64 (k * 0xc4ceb9fe1a85ec53) in
  let k := Z.lxor k (Z.shiftr k 33) in
  k.

Definition c1 : Z := 0x87c37b91114253d5.
Definition c2 : Z := 0x4cf5ad432745937f.

(** The four 64-bit variables of the function. *)
Record mstate := MState { h1 : Z; h2 : Z; k1 : Z; k2 : Z }.

(** The byte at offset [i]; a little-endian 64-bit load. *)
Definition byte_at (d : list Z) (i : nat) : Z := default 0 (d !! i).

Fixpoint load_le (n : nat) (d : list Z) (off : nat) : Z :=
  match n with
  | O => 0
  | S n' => byte_at d off + 256 * load_le n' d (S off)
  end.

(** [k1 *= c1; k1 = rotl64(k1, 31); k1 *= c2; h1 ^= k1;] and its twin. *)
Definition mix_k1 (s : mstate) : mstate :=
  let k := u64 (rotl64 (u64 (k1 s * c1)) 31 * c2) in
  MState (Z.lxor (h1 s) k) (h2 s) k (k2 s).
Definition mix_k2 (s : mstate) : mstate :=
  let k := u64 (rotl64 (u64 (k2 s * c2)) 33 * c1) in
  MState (h1 s) (Z.lxor (h2 s) k) (k1 s) k.

(** One round of the body loop. *)
Definition body_round (d : list Z) (i : nat) (s : mstate) : mstate :=
  let s := MState (h1 s) (h2 s) (load_le 8 d (16 * i)) (load_le 8 d (16 * i + 8)) in
  let s := mix_k1 s in
  let h := u64 (u64 (rotl64 (h1 s) 27 + h2 s) * 5 + 0x52dce729) in
  let s := MState h (h2 s) (k1 s) (k2 s) in
  let s := mix_k2 s in
  let h := u64 (u64 (rotl64 (h2 s) 31 + h1 s) * 5 + 0x38495ab5) in
  MState (h1 s) h (k1 s) (k2 s).

Fixpoint body_loop (d : list Z) (nblocks i : nat) (s : mstate) : mstate :=
  match nblocks with
  | O => s
  | S n => body_loop d n (S i) (body_round d i s)
  end.

(** [case c:] of the tail switch. *)
Definition tail_case (tail : list Z) (c : nat) (s : mstate) : mstate :=
  let b := byte_at tail (c - 1) in
  if (9 <=? c)%nat then
    let s := MState (h1 s) (h2 s) (k1 s)
               (Z.lxor (k2 s) (Z.shiftl b (8 * (Z.of_nat c - 9)))) in
    if (c =? 9)%nat then mix_k2 s else s
  else
    let s := MState (h1 s) (h2 s)
               (Z.lxor (k1 s) (Z.shiftl b (8 * (Z.of_nat c - 1)))) (k2 s) in
    if (c =? 1)%nat then mix_k1 s else s.

(** The switch: start at case [c] and fall through to case 1. *)
Fixpoint tail_switch (tail : list Z) (c : nat) (s : mstate) : mstate :=
  match c with
  | O => s
  | S c' => tail_switch tail c' (tail_case tail c s)
  end.

(** The finalization: the pair written to [out]. *)
Definition finalize (len : Z) (h1 h2 : Z) : Z * Z :=
  let h1 := Z.lxor h1 len in
  let h2 := Z.lxor h2 len in
  let h1 := u64 (h1 + h2) in
  let h2 := u64 (h2 + h1) in
  let h1 := fmix64 h1 in
  let h2 := fmix64 h2 in
  let h1 := u64 (h1 + h2) in
  let h2 := u64 (h2 + h1) in
  (h1, h2).

Definition ph_hash_bytes_murmur (key : list Z) (seed : Z) : Z * Z :=
  let nblocks := (length key / 16)%nat in
  let s := body_loop key nblocks 0 (MState seed seed 0 0) in
  let s := tail_switch (drop (nblocks * 16) key) (length key mod 16) s in
  finalize (zlen key) (h1 s) (h2 s).

(** MurmurHash3_x64_128 starts the tail from [k1 = k2 = 0]. *)
Definition murmur3_x64_128 (key : list Z) (seed : Z) : Z * Z :=
  let nblocks := (length key / 16)%nat in
  let s := body_loop key nblocks 0 (MState seed seed 0 0) in
  let s := tail_switch (drop (nblocks * 16) key) (length key mod 16)
             (MState (h1 s) (h2 s) 0 0) in
  finalize (zlen key) (h1 s) (h2 s).

(** ** Words stay in range *)

Definition word (x : Z) : Prop := 0 <= x < 2 ^ 64.

Lemma u64_word x : word (u64 x).
Proof. apply wrapU_bound. lia. Qed.

Lemma word_bits x : 0 <= x -> (forall i, 64 <= i -> Z.testbit x i = false) -> word x.
Proof.
  intros H0 Hb. split; [done|].
  destruct (decide (x < 2 ^ 64)) as [|Hge]; [done|exfalso].
  assert (64 <= Z.log2 x) by (apply Z.log2_le_pow2; lia).
  pose proof (Hb (Z.log2 x) ltac:(done)) as Hf.
  rewrite Z.bit_log2 in Hf by lia. done.
Qed.

Lemma word_high x i : word x -> 64 <= i -> Z.testbit x i = false.
Proof.
  intros [Hlo Hhi] Hi. destruct (decide (x = 0)) as [->|]; [apply Z.bits_0|].
  apply Z.bits_above_log2; [lia|].
  assert (Z.log2 x < 64) by (apply Z.log2_lt_pow2; lia). lia.
Qed.

Lemma lxor_word x y : word x -> word y -> word (Z.lxor x y).
Proof.
  intros Hx Hy. apply word_bits.
  - apply Z.lxor_nonneg. destruct Hx, Hy. tauto.
  - intros i Hi. by rewrite Z.lxor_spec, !word_high.
Qed.

Lemma shiftr_word x n : 0 <= n -> word x -> word (Z.shiftr x n).
Proof.
  intros Hn Hx. apply word_bits; [apply Z.shiftr_nonneg; by destruct Hx|].
  intros i Hi. rewrite Z.shiftr_spec by lia. apply word_high; [done|lia].
Qed.

#[export] Hint Resolve u64_word lxor_word shiftr_word : phenom.

(** ** The finalizer is injective *)

Definition xs33 (k : Z) : Z := Z.lxor k (Z.shiftr k 33).

Lemma xs33_involutive k : word k -> xs33 (xs33 k) = k.
Proof.
  intros Hk. unfold xs33. apply Z.bits_inj'. intros i Hi.
  repeat first [rewrite Z.lxor_spec | rewrite Z.shiftr_spec by lia].
  replace (i + 33 + 33) with (i + 66) by lia.
  rewrite (word_high k (i + 66)) by (done || lia).
  by destruct (Z.testbit k i), (Z.testbit k (i + 33)).
Qed.

Lemma xs33_word k : word k -> word (xs33 k).
Proof. intros. unfold xs33. auto with phenom lia. Qed.

Lemma mul_inv c c' k : u64 (c * c') = 1 -> word k -> u64 (u64 (k * c) * c') = k.
Proof.
  unfold wrapU, word. intros Hc Hk.
  rewrite Zmult_mod_idemp_l, <- Z.mul_assoc, <- Zmult_mod_idemp_r, Hc, Z.mul_1_r.
  by apply Z.mod_small.
Qed.

(** The inverse of [fmix64]: the multiplications by the inverses modulo 2^64. *)
Definition unfmix64 (k : Z) : Z :=
  let k := xs33 k in
  let k := u64 (k * 0x9cb4b2f8129337db) in
  let k := xs33 k in
  let k := u64 (k * 0x4f74430c22a54005) in
  xs33 k.

Lemma unfmix64_fmix64 k : word k -> unfmix64 (fmix64 k) = k.
Proof.
  intros Hk. unfold unfmix64, fmix64. fold (xs33 k).
  set (a := u64 (xs33 k * _)). fold (xs33 a).
  set (b := u64 (xs33 a * _)). fold (xs33 b).
  rewrite (xs33_involutive b) by apply u64_word. unfold b.
  rewrite mul_inv by (reflexivity || apply xs33_word, u64_word).
  rewrite (xs33_involutive a) by apply u64_word. unfold a.
  rewrite mul_inv by (reflexivity || by apply xs33_word).
  by apply xs33_involutive.
Qed.

Lemma fmix64_word k : word (fmix64 k).
Proof. unfold fmix64. auto with phenom lia. Qed.

Lemma fmix64_inj a b : word a -> word b -> fmix64 a = fmix64 b -> a = b.
Proof.
  intros Ha Hb E. rewrite <- (unfmix64_fmix64 a), <- (unfmix64_fmix64 b) by done.
  by rewrite E.
Qed.

Lemma u64_add_cancel a b c :
  word a -> word b -> u64 (a + c) = u64 (b + c) -> a = b.
Proof.
  intros [? ?] [? ?] E. unfold wrapU in E.
  rewrite <- (Z.mod_small a (2 ^ 64)), <- (Z.mod_small b (2 ^ 64)) by lia.
  replace a with (a + c - c) by lia. replace b with (b + c - c) by lia.
  rewrite <- (Zminus_mod_idemp_l (a + c)), E. by rewrite Zminus_mod_idemp_l.
Qed.

Lemma add_pair_inj a b a' b' :
  word a -> word b -> word a' -> word b' ->
  u64 (a + b) = u64 (a' + b') ->
  u64 (b + u64 (a + b)) = u64 (b' + u64 (a' + b')) -> a = a' /\ b = b'.
Proof.
  intros ???? E1 E2. rewrite E1 in E2. apply u64_add_cancel in E2; [|done..].
  subst b'. split; [|done]. by eapply u64_add_cancel.
Qed.

Lemma lxor_cancel a b c : Z.lxor a c = Z.lxor b c -> a = b.
Proof.
  intros E. rewrite <- (Z.lxor_0_r a), <- (Z.lxor_0_r b), <- (Z.lxor_nilpotent c).
  by rewrite <- !Z.lxor_assoc, E.
Qed.

(** The finalization mix is injective: it loses nothing of the two halves of the
    state. *)
Theorem murmur_finalize_inj len a b a' b' :
  word len -> word a -> word b -> word a' -> word b' ->
  finalize len a b = finalize len a' b' -> a = a' /\ b = b'.
Proof.
  intros Hl Ha Hb Ha' Hb' E. unfold finalize in E. injection E as E1 E2.
  apply add_pair_inj in E2 as [F1 F2]; [|apply fmix64_word..|done].
  apply fmix64_inj in F1, F2; [|apply u64_word..].
  eapply add_pair_inj in F2 as [G1 G2]; [|auto with phenom..].
  split; by eapply lxor_cancel.
Qed.

Lemma murmur_finalize_inj_witness :
  finalize 3 5 7 = finalize 3 5 7 /\ 5 = 5 /\ 7 = 7.
Proof.
  split; [reflexivity|].
  apply (murmur_finalize_inj 3 5 7 5 7); [unfold word; lia..|reflexivity].
Defined.

Lemma body_loop_0 d i s : body_loop d 0 i s = s.
Proof. done. Qed.



(** With a tail behind a full block the result differs from MurmurHash3: the
    tail is mixed into the words of the last block (murmur.c, the switch on [len
    & 15]). *)
Theorem murmur_tail_not_reset :
  exists key, length key = 17%nat /\
    ph_hash_bytes_murmur key 0 <> murmur3_x64_128 key 0.
Proof.
  exists (1 :: replicate 16 0). split; [reflexivity|].
  apply (bool_decide_unpack _). vm_compute. exact I.
Qed.

End Murmur.
