(* ===== verification/TimerWheel.v ===== *)
(** * The timer wheel of corelib/timerwheel.c

    Four buckets of 256 lists of timers.  A timer is a [positive] (its
    address); the structs live in [timers], the lists in [buckets], keyed by
    (bucket, index), the address of the list head.  The intrusive
    [PH_LIST] of the source is the sequence of its elements, and unlinking a
    timer removes it from the list it is linked in.  The locks are not
    modelled here: each operation is one step, the callbacks run where the
    source runs them. *)

From Stdlib Require Import ZArith Lia.
From stdpp Require Import base numbers list gmap.
From S2P Require Import Prelude.

Module TimerWheel.

(** ** Time values: [struct timeval] and the <sys/time.h> macros *)

Record timeval := Timeval { tv_sec : Z; tv_usec : Z }.

Definition timercmp_lt (a b : timeval) : bool :=
  if tv_sec a =? tv_sec b then tv_usec a <? tv_usec b else tv_sec a <? tv_sec b.

Definition timeradd (a b : timeval) : timeval :=
  let sec := tv_sec a + tv_sec b in
  let usec := tv_usec a + tv_usec b in
  if 1000000 <=? usec then Timeval (sec + 1) (usec - 1000000) else Timeval sec usec.

(** ** Data *)

Definition PHENOM_WHEEL_BITS : Z := 8.
Definition PHENOM_WHEEL_SIZE : Z := Z.shiftl 1 PHENOM_WHEEL_BITS.
Definition PHENOM_WHEEL_MASK : Z := PHENOM_WHEEL_SIZE - 1.

Inductive timer_enable : Set := PH_TIMER_DISABLED | PH_TIMER_ENABLED | PH_TIMER_LOCKED.

#[export] Instance timer_enable_eq_dec : EqDecision timer_enable.
Proof. solve_decision. Defined.

(** The address [&wheel->buckets[b].lists[i]]. *)
Abbreviation slot := (Z * Z)%type.

Record ph_timerwheel_timer := Timer {
  list_of : option slot;
  due : timeval;
  enable : timer_enable;
}.

Record ph_timerwheel_t := Wheel {
  next_run : timeval;
  tick_resolution : Z;
  buckets : gmap slot (list positive);
}.

(** The wheel and the timer structs it links. *)
Record world := World {
  wheel : ph_timerwheel_t;
  timers : gmap positive ph_timerwheel_timer;
}.

#[export] Instance timer_inhabited : Inhabited ph_timerwheel_timer :=
  populate (Timer None (Timeval 0 0) PH_TIMER_DISABLED).

Definition set_timer (id : positive) (t : ph_timerwheel_timer) (w : world) : world :=
  World (wheel w) (<[id := t]> (timers w)).
Definition set_bucket (s : slot) (l : list positive) (w : world) : world :=
  World (Wheel (next_run (wheel w)) (tick_resolution (wheel w))
               (<[s := l]> (buckets (wheel w)))) (timers w).
Definition set_next_run (tv : timeval) (w : world) : world :=
  World (Wheel tv (tick_resolution (wheel w)) (buckets (wheel w))) (timers w).

Definition set_list (l : option slot) (t : ph_timerwheel_timer) := Timer l (due t) (enable t).
Definition set_due (d : timeval) (t : ph_timerwheel_timer) := Timer (list_of t) d (enable t).
Definition set_enable (e : timer_enable) (t : ph_timerwheel_timer) := Timer (list_of t) (due t) e.

Definition alter_timer (f : ph_timerwheel_timer -> ph_timerwheel_timer)
    (id : positive) (w : world) : world :=
  set_timer id (f (timers w !!! id)) w.

(** ** Operations *)

Definition tval_add_res (tick_resolution : Z) (op1 : timeval) : timeval :=
  let sec := tick_resolution / 1000 in
  timeradd (Timeval sec ((tick_resolution - sec * 1000) * 1000)) op1.

Definition ph_timerwheel_init (now : timeval) (tick_resolution : Z) : ph_timerwheel_t :=
  Wheel (tval_add_res tick_resolution now) tick_resolution ∅.

(** [time_t] is a signed 64-bit integer, [tick_resolution * 1000] is computed
    on [uint32_t]; C division truncates towards zero. *)
Definition tval_to_tick (tick_resolution : Z) (tv : timeval) : Z :=
  u64 (Z.quot (s64 (tv_sec tv * 1000)) tick_resolution
       + Z.quot (tv_usec tv) (u32 (tick_resolution * 1000))).

(** The list the timer belongs to, and its due time, moved up to [next_run]
    when it lies in the past. *)
Definition compute_list (w : ph_timerwheel_t) (timer : ph_timerwheel_timer) : slot * timeval :=
  let due_tv := if timercmp_lt (due timer) (next_run w) then next_run w else due timer in
  let now := tval_to_tick (tick_resolution w) (next_run w) in
  let due := tval_to_tick (tick_resolution w) due_tv in
  let diff := u64 (due - now) in
  let list :=
    if diff <? PHENOM_WHEEL_SIZE then (0, Z.land due PHENOM_WHEEL_MASK)
    else if diff <? Z.shiftl 1 (2 * PHENOM_WHEEL_BITS) then
      (1, Z.land (Z.shiftr due PHENOM_WHEEL_BITS) PHENOM_WHEEL_MASK)
    else if diff <? Z.shiftl 1 (3 * PHENOM_WHEEL_BITS) then
      (2, Z.land (Z.shiftr due (2 * PHENOM_WHEEL_BITS)) PHENOM_WHEEL_MASK)
    else
      let due := if 0xffffffff <? diff then u64 (0xffffffff + now) else due in
      (3, Z.land (Z.shiftr due (3 * PHENOM_WHEEL_BITS)) PHENOM_WHEEL_MASK) in
  (list, due_tv).

(** [PH_LIST_REMOVE] of a timer linked in [timer->list]. *)
Definition list_remove (id : positive) (w : world) : world :=
  match list_of (timers w !!! id) with
  | Some s => set_bucket s (filter (fun x => x <> id) (buckets (wheel w) !!! s)) w
  | None => w
  end.

(** [list = compute_list(wheel, timer); timer->list = list;
    PH_LIST_INSERT_HEAD(list, timer, t)]. *)
Definition link_timer (id : positive) (w : world) : world :=
  let '(s, d) := compute_list (wheel w) (timers w !!! id) in
  let w := alter_timer (fun t => set_list (Some s) (set_due d t)) id w in
  set_bucket s (id :: buckets (wheel w) !!! s) w.

Definition ph_timerwheel_enable (id : positive) (w : world) : ph_result_t * world :=
  if negb (bool_decide (enable (timers w !!! id) = PH_TIMER_DISABLED)) then (PH_BUSY, w)
  else
    let w := alter_timer (set_enable PH_TIMER_LOCKED) id w in
    let slow (w : world) :=
      let w := list_remove id w in
      let w := link_timer id w in
      (PH_OK, alter_timer (set_enable PH_TIMER_ENABLED) id w) in
    match list_of (timers w !!! id) with
    | Some l =>
        let '(l', d) := compute_list (wheel w) (timers w !!! id) in
        let w := alter_timer (set_due d) id w in
        if bool_decide (l' = l) then (PH_OK, alter_timer (set_enable PH_TIMER_ENABLED) id w)
        else slow w
    | None => slow w
    end.

Definition ph_timerwheel_disable (id : positive) (w : world) : ph_result_t * world :=
  match enable (timers w !!! id) with
  | PH_TIMER_DISABLED => (PH_OK, w)
  | PH_TIMER_ENABLED => (PH_OK, alter_timer (set_enable PH_TIMER_DISABLED) id w)
  | PH_TIMER_LOCKED => (PH_BUSY, w)
  end.

Definition ph_timerwheel_remove (id : positive) (w : world) : ph_result_t * world :=
  match list_of (timers w !!! id) with
  | None => (PH_NOENT, w)
  | Some _ =>
      let '(res, w) := ph_timerwheel_disable id w in
      if bool_decide (res = PH_OK) then
        let w := list_remove id w in
        (PH_OK, alter_timer (set_list None) id w)
      else (res, w)
  end.

(** The body of the loop of [cascade_timer], for a timer taken off the stolen
    list. *)
Definition cascade_one (id : positive) (w : world) : world :=
  if bool_decide (enable (timers w !!! id) = PH_TIMER_DISABLED)
  then alter_timer (set_list None) id w
  else link_timer id w.

Definition cascade_timer (bucket slot : Z) (w : world) : bool * world :=
  let list := buckets (wheel w) !!! (bucket, slot) in
  let w := set_bucket (bucket, slot) [] w in
  let w := foldl (fun w id => cascade_one id w) w list in
  (slot =? 0, w).

(** The cascade of one tick: level 1, then 2, then 3, each when the one below
    was at slot 0. *)
Definition cascade (nowtick : Z) (w : world) : world :=
  if Z.land nowtick PHENOM_WHEEL_MASK =? 0 then
    let '(more, w) := cascade_timer 1
      (Z.land (Z.shiftr nowtick PHENOM_WHEEL_BITS) PHENOM_WHEEL_MASK) w in
    if more then
      let '(more, w) := cascade_timer 2
        (Z.land (Z.shiftr nowtick (2 * PHENOM_WHEEL_BITS)) PHENOM_WHEEL_MASK) w in
      if more then
        snd (cascade_timer 3
          (Z.land (Z.shiftr nowtick (3 * PHENOM_WHEEL_BITS)) PHENOM_WHEEL_MASK) w)
      else w
    else w
  else w.

Section tick.
(** [arg], the caller's own state, and the two callbacks: the first is
    called with the wheel lock held, so it sees the wheel but does not
    change it; it may be NULL. *)
Context {U : Type}.
Variable should_dispatch :
  option (world -> positive -> timeval -> U -> bool * U).
Variable dispatch : positive -> timeval -> world * U -> world * U.

(** The claim loop over the stolen list: the timers left on it, the world,
    the caller's state. *)
Fixpoint claim_loop (list : list positive) (now : timeval) (w : world) (u : U) :
    Datatypes.list positive * world * U :=
  match list with
  | [] => ([], w, u)
  | id :: rest =>
      let '(disp, w, u) :=
        if negb (bool_decide (enable (timers w !!! id) = PH_TIMER_ENABLED))
        then (false, w, u)
        else
          let w := alter_timer (set_enable PH_TIMER_LOCKED) id w in
          match should_dispatch with
          | None => (true, w, u)
          | Some f => let '(b, u) := f w id now u in (b, w, u)
          end in
      let w := if disp then w else alter_timer (set_list None) id w in
      let '(claimed, w, u) := claim_loop rest now w u in
      (if disp then id :: claimed else claimed, w, u)
  end.

(** The part of [ph_timerwheel_tick] under the write lock. *)
Definition tick_claim (now : timeval) (w : world) (u : U) :
    list positive * world * U :=
  let res := tick_resolution (wheel w) in
  let tick := tval_to_tick res now in
  let nowtick := tval_to_tick res (next_run (wheel w)) in
  if nowtick <=? tick then
    let idx := Z.land nowtick PHENOM_WHEEL_MASK in
    let w := cascade nowtick w in
    let w := set_next_run (tval_add_res res (next_run (wheel w))) w in
    let list := buckets (wheel w) !!! (0, idx) in
    let w := set_bucket (0, idx) [] w in
    claim_loop list now w u
  else ([], w, u).

(** The dispatch loop over the claimed timers, and the count it returns. *)
Fixpoint dispatch_loop (list : list positive) (now : timeval) (ticked : Z)
    (w : world) (u : U) : Z * world * U :=
  match list with
  | [] => (ticked, w, u)
  | id :: rest =>
      let w := alter_timer
                 (fun t => set_enable PH_TIMER_DISABLED (set_list None t)) id w in
      let '(w, u) := dispatch id now (w, u) in
      dispatch_loop rest now (u32 (ticked + 1)) w u
  end.

Definition ph_timerwheel_tick (now : timeval) (w : world) (u : U) : Z * world * U :=
  let '(list, w, u) := tick_claim now w u in
  dispatch_loop list now 0 w u.

(** [ph_nbio_emitter_timer_tick]: tick while [next_run] is before [now]; the
    count is the one added to the emitter's tick counter. *)
Fixpoint ph_nbio_emitter_timer_tick (fuel : nat) (now : timeval) (w : world) (u : U) :
    option (nat * world * U) :=
  if timercmp_lt (next_run (wheel w)) now then
    match fuel with
    | O => None
    | S fuel =>
        let '(_, w, u) := ph_timerwheel_tick now w u in
        '(n, w, u) ← ph_nbio_emitter_timer_tick fuel now w u;
        Some (S n, w, u)
    end
  else Some (O, w, u).
End tick.

End TimerWheel.
