(* ===== verification/TimerWheelProofs.v ===== *)
(** * Correctness of the timer wheel

    Ticks as a clock, where a timer is placed, the wheel's invariant, that a
    tick claims exactly the timers that are due, and that a timer fires at its
    due tick and not before. *)

From Stdlib Require Import ZArith Lia.
From stdpp Require Import base numbers list gmap.
From S2P Require Import Prelude TimerWheel.
Import TimerWheel.

Module TimerWheelProofs.

(** ** Ticks *)

(** The tick lengths for which the tick count is a clock: the divisors of a
    second, such as the 100 ms of [WHEEL_INTERVAL_MS]. *)
Definition valid_res (r : Z) : Prop := 0 < r /\ 1000 mod r = 0.

Definition tv_ok (tv : timeval) : Prop :=
  0 <= tv_sec tv < 2 ^ 50 /\ 0 <= tv_usec tv < 1000000.

Section ticks.
Context (r : Z) (Hr : valid_res r).

Lemma res_le : 1 <= r <= 1000.
Proof. destruct Hr as [Hp Hm]. split; [lia|]. apply Z.mod_divide in Hm; [|lia].
  by apply Z.divide_pos_le. Qed.

Lemma res_div : 1000 = (1000 / r) * r /\ 1 <= 1000 / r.
Proof.
  pose proof res_le. destruct Hr as [Hp Hm].
  pose proof (Z.div_mod 1000 r ltac:(lia)). split; [lia|].
  apply Z.div_le_lower_bound; lia.
Qed.

(** The tick of a time, without the wrap-arounds. *)
Lemma tick_eq tv : tv_ok tv ->
  tval_to_tick r tv = tv_sec tv * (1000 / r) + tv_usec tv / (1000 * r).
Proof.
  intros [Hs Hu]. pose proof res_le. pose proof res_div as [Hd ?].
  unfold tval_to_tick.
  rewrite wrapS_small by lia.
  rewrite (wrapU_small 32) by lia.
  rewrite !Z.quot_div_nonneg by lia.
  replace (tv_sec tv * 1000 / r) with (tv_sec tv * (1000 / r)).
  2:{ rewrite Hd at 2. by rewrite Z.mul_assoc, Z.div_mul by lia. }
  rewrite (Z.mul_comm r 1000).
  pose proof (Z.div_pos (tv_usec tv) (1000 * r) ltac:(lia) ltac:(lia)).
  assert (tv_usec tv / (1000 * r) <= 1000000).
  { apply Z.div_le_upper_bound; nia. }
  assert (1000 / r <= 1000) by (apply Z.div_le_upper_bound; nia).
  apply wrapU_small. nia.
Qed.

Lemma tick_bound tv : tv_ok tv -> 0 <= tval_to_tick r tv < 2 ^ 62.
Proof.
  intros Htv. rewrite tick_eq by done. destruct Htv as [Hs Hu].
  pose proof res_le. pose proof res_div as [Hd ?].
  pose proof (Z.div_pos (tv_usec tv) (1000 * r) ltac:(lia) ltac:(lia)).
  assert (tv_usec tv / (1000 * r) <= 1000000).
  { apply Z.div_le_upper_bound; nia. }
  assert (1000 / r <= 1000) by (apply Z.div_le_upper_bound; nia).
  nia.
Qed.

(** Microseconds since the epoch, the order [timercmp] decides. *)
Definition usecs (tv : timeval) : Z := tv_sec tv * 1000000 + tv_usec tv.

Lemma tick_usecs tv : tv_ok tv -> tval_to_tick r tv = usecs tv / (1000 * r).
Proof.
  intros Htv. rewrite tick_eq by done. unfold usecs.
  pose proof res_le. pose proof res_div as [Hd ?].
  replace (tv_sec tv * 1000000) with (tv_sec tv * (1000 / r) * (1000 * r)).
  2:{ transitivity (tv_sec tv * 1000 * ((1000 / r) * r)); [ring|]. rewrite <- Hd. ring. }
  by rewrite Z.div_add_l by lia.
Qed.

Lemma timercmp_lt_usecs a b : tv_ok a -> tv_ok b ->
  timercmp_lt a b = true <-> usecs a < usecs b.
Proof.
  intros [? ?] [? ?]. unfold timercmp_lt, usecs.
  case_bool; zbool; rewrite Z.ltb_lt; lia.
Qed.

Lemma tick_mono a b : tv_ok a -> tv_ok b -> usecs a <= usecs b ->
  tval_to_tick r a <= tval_to_tick r b.
Proof.
  intros Ha Hb Hle. rewrite !tick_usecs by done.
  pose proof res_le. apply Z.div_le_mono; lia.
Qed.

Lemma usecs_add_res tv : usecs (tval_add_res r tv) = usecs tv + 1000 * r.
Proof.
  unfold usecs, tval_add_res, timeradd. simpl. case_bool; simpl; lia.
Qed.

Lemma tv_ok_add_res tv : tv_ok tv -> tv_sec tv + 1 < 2 ^ 50 -> tv_ok (tval_add_res r tv).
Proof.
  intros [Hs Hu] Hb. pose proof res_le.
  assert (0 <= r / 1000 <= 1 /\ 0 <= r - r / 1000 * 1000 < 1000 /\
    (r / 1000 = 1 -> r = 1000)) as (? & ? & ?).
  { pose proof (Z.div_mod r 1000 ltac:(lia)).
    pose proof (Z.mod_pos_bound r 1000 ltac:(lia)). lia. }
  unfold tv_ok, tval_add_res, timeradd. simpl. case_bool; zbool; simpl; lia.
Qed.

(** [next_run] moves by exactly one tick. *)
Lemma tick_add_res tv : tv_ok tv -> tv_sec tv + 1 < 2 ^ 50 ->
  tval_to_tick r (tval_add_res r tv) = tval_to_tick r tv + 1.
Proof.
  intros Htv Hb. rewrite !tick_usecs by auto using tv_ok_add_res.
  rewrite usecs_add_res. pose proof res_le.
  replace (usecs tv + 1000 * r) with (usecs tv + 1 * (1000 * r)) by lia.
  by rewrite Z.div_add by lia.
Qed.
End ticks.

(** ** Placement *)

(** The slot a tick [n] empties. *)
Definition visited (n : Z) (s : slot) : Prop :=
  n mod 256 ^ s.1 = 0 /\ s.2 = (n / 256 ^ s.1) mod 256.

(** Slot [s] is right for a timer due at tick [d] when the next tick is [n]:
    it is emptied at tick [q * 256^b], which is one of the next [256^(b+1)]
    ticks and not after [d]; on the lowest level it is [d]. *)
Definition placed (n d : Z) (s : slot) : Prop :=
  exists q, s.2 = q mod 256 /\ n <= q * 256 ^ s.1 < n + 256 ^ (s.1 + 1) /\
            q * 256 ^ s.1 <= d /\ (s.1 = 0 -> q = d).

Definition slot_ok (s : slot) : Prop := 0 <= s.1 <= 3 /\ 0 <= s.2 < 256.

Lemma placed_due n d s : placed n d s -> n <= d.
Proof. intros (q & _ & Hq & Hd & _). lia. Qed.

Lemma placed_visited_0 n d s : placed n d s -> s.1 = 0 -> visited n s -> d = n.
Proof.
  intros (q & Hs & Hq & Hd & H0) E [_ Hv]. rewrite E in *.
  rewrite Z.pow_0_r, Z.mul_1_r, Z.div_1_r in *. specialize (H0 eq_refl). subst q.
  change (256 ^ (0 + 1)) with 256 in Hq. rewrite Hs in Hv.
  pose proof (Z.div_mod d 256 ltac:(lia)). pose proof (Z.div_mod n 256 ltac:(lia)).
  pose proof (Z.mod_pos_bound d 256 ltac:(lia)).
  pose proof (Z.mod_pos_bound n 256 ltac:(lia)). lia.
Qed.

(** A timer that tick [n] does not visit is rightly placed for [n + 1]. *)
Lemma placed_next n d s : slot_ok s -> placed n d s -> ~ visited n s -> placed (n + 1) d s.
Proof.
  intros [Hb Hi] (q & Hs & Hq & Hd & H0) Hv. exists q.
  split; [done|]. split; [|done].
  assert (0 < 256 ^ s.1) by (apply Z.pow_pos_nonneg; lia).
  assert (q * 256 ^ s.1 <> n); [|lia].
  intros E. apply Hv. unfold visited. rewrite <- E.
  by rewrite Z.mod_mul, Z.div_mul by lia.
Qed.

Lemma mask_mod x : Z.land x PHENOM_WHEEL_MASK = x mod 256.
Proof. apply (land_mask x 8); [lia|reflexivity]. Qed.

Lemma wheel_const :
  PHENOM_WHEEL_SIZE = 256 /\ Z.shiftl 1 (2 * PHENOM_WHEEL_BITS) = 256 ^ 2 /\
  Z.shiftl 1 (3 * PHENOM_WHEEL_BITS) = 256 ^ 3.
Proof. done. Qed.

(** A slot of level [b] for the tick [e] at least [256^b] ahead. *)
Lemma placed_level n d e b :
  1 <= b <= 3 -> e <= d -> 256 ^ b <= e - n < 256 ^ (b + 1) ->
  placed n d (b, (e / 256 ^ b) mod 256) /\ ~ visited n (b, (e / 256 ^ b) mod 256).
Proof.
  intros Hb Hed Hdiff. set (p := 256 ^ b) in *.
  assert (0 < p) by (apply Z.pow_pos_nonneg; lia).
  assert (Hp : 256 ^ (b + 1) = p * 256) by (rewrite Z.pow_add_r; [done|lia..]).
  pose proof (Z.div_mod e p ltac:(lia)). pose proof (Z.mod_pos_bound e p ltac:(lia)).
  split.
  - exists (e / p). simpl. fold p. rewrite Hp in *.
    split; [done|]. split; [nia|]. split; [nia|]. lia.
  - unfold visited. simpl. fold p. intros [Hn Hv].
    pose proof (Z.div_mod n p ltac:(lia)) as Hdn. rewrite Hn, Z.add_0_r in Hdn.
    set (a := e / p) in *. set (c := n / p) in *.
    assert (1 <= a - c < 256) by nia.
    pose proof (Z.div_mod a 256 ltac:(lia)). pose proof (Z.div_mod c 256 ltac:(lia)).
    pose proof (Z.mod_pos_bound a 256 ltac:(lia)).
    pose proof (Z.mod_pos_bound c 256 ltac:(lia)). lia.
Qed.

Lemma placed_level_0 n d : 0 <= d - n < 256 -> placed n d (0, d mod 256).
Proof. intros. exists d. simpl. rewrite Z.mul_1_r. change (256 ^ (0 + 1)) with 256. lia. Qed.

(** ** The list [compute_list] picks *)

Section compute.
Context (w : ph_timerwheel_t) (t : ph_timerwheel_timer).
Context (Hr : valid_res (tick_resolution w)) (Hn : tv_ok (next_run w)) (Hd : tv_ok (due t)).
Let r := tick_resolution w.
Let n := tval_to_tick r (next_run w).

Lemma compute_list_spec s d :
  compute_list w t = (s, d) ->
  tv_ok d /\ tval_to_tick r d = Z.max n (tval_to_tick r (due t)) /\ slot_ok s /\
  placed n (tval_to_tick r d) s /\ (s.1 <> 0 -> ~ visited n s).
Proof.
  unfold compute_list. fold r. fold n.
  set (d0 := if timercmp_lt _ _ then _ else _).
  assert (Hd0 : tv_ok d0) by (unfold d0; by case_bool).
  assert (Hmax : tval_to_tick r d0 = Z.max n (tval_to_tick r (due t))).
  { unfold d0, n. destruct (timercmp_lt (due t) (next_run w)) eqn:E.
    - apply timercmp_lt_usecs in E; [|done..].
      pose proof (tick_mono r Hr (due t) (next_run w) Hd Hn ltac:(lia)). lia.
    - apply not_true_iff_false in E. rewrite timercmp_lt_usecs in E by done.
      pose proof (tick_mono r Hr (next_run w) (due t) Hn Hd ltac:(lia)). lia. }
  pose proof (tick_bound r Hr d0 Hd0). pose proof (tick_bound r Hr (next_run w) Hn) as Hnb.
  fold n in Hnb. set (e := tval_to_tick r d0) in *.
  rewrite (wrapU_small 64 (e - n)) by lia.
  destruct wheel_const as (-> & -> & ->).
  rewrite !mask_mod, !Z.shiftr_div_pow2 by (unfold PHENOM_WHEEL_BITS; lia).
  intros [= <- <-]. split; [done|]. split; [done|]. fold e.
  change (2 ^ (3 * PHENOM_WHEEL_BITS)) with (256 ^ 3).
  change (2 ^ (2 * PHENOM_WHEEL_BITS)) with (256 ^ 2).
  change (2 ^ PHENOM_WHEEL_BITS) with (256 ^ 1).
  assert (Hok : forall b x, 0 <= b <= 3 -> slot_ok (b, x mod 256)).
  { intros b x Hb. split; [done|]. simpl. apply Z.mod_pos_bound. lia. }
  repeat (case_bool; zbool).
  - split; [by apply Hok|]. split; [apply placed_level_0; lia|done].
  - split; [by apply Hok|].
    destruct (placed_level n e e 1) as [? ?]; [lia|lia|simpl; lia|done].
  - split; [by apply Hok|].
    destruct (placed_level n e e 2) as [? ?]; [lia|lia|simpl; lia|done].
  - split; [by apply Hok|]. rewrite wrapU_small by lia.
    destruct (placed_level n e (0xffffffff + n) 3) as [? ?]; [lia|lia|simpl; lia|done].
  - split; [by apply Hok|].
    destruct (placed_level n e e 3) as [? ?]; [lia|lia|simpl; lia|done].
Qed.
End compute.

(** ** The invariant *)

Definition nowtick (w : world) : Z :=
  tval_to_tick (tick_resolution (wheel w)) (next_run (wheel w)).
Definition duetick (w : world) (id : positive) : Z :=
  tval_to_tick (tick_resolution (wheel w)) (due (timers w !!! id)).

(** [L] are the timers that are off their list, in the middle of an
    operation; between operations there are none. *)
Record wfL (L : list positive) (w : world) : Prop := {
  wf_res : valid_res (tick_resolution (wheel w));
  wf_next : tv_ok (next_run (wheel w));
  wf_due id : tv_ok (due (timers w !!! id));
  wf_nodup s : NoDup (buckets (wheel w) !!! s);
  wf_bucket s id : id ∈ buckets (wheel w) !!! s ->
    list_of (timers w !!! id) = Some s /\ id ∉ L;
  wf_list s id : list_of (timers w !!! id) = Some s -> id ∉ L ->
    id ∈ buckets (wheel w) !!! s /\ slot_ok s;
  wf_placed s id : list_of (timers w !!! id) = Some s ->
    enable (timers w !!! id) = PH_TIMER_ENABLED -> id ∉ L ->
    placed (nowtick w) (duetick w id) s;
  wf_enabled id : enable (timers w !!! id) = PH_TIMER_ENABLED -> id ∉ L ->
    list_of (timers w !!! id) <> None;
  wf_locked id : enable (timers w !!! id) = PH_TIMER_LOCKED -> id ∉ L ->
    list_of (timers w !!! id) = None;
}.

Abbreviation wf := (wfL []).

(** *** The primitive updates *)

Arguments alter_timer : simpl never.
Arguments set_bucket : simpl never.

Lemma timers_set_bucket s l w : timers (set_bucket s l w) = timers w.
Proof. done. Qed.
Lemma wheel_alter_timer f id w : wheel (alter_timer f id w) = wheel w.
Proof. done. Qed.

Lemma timers_alter f id w id' :
  timers (alter_timer f id w) !!! id' =
    if decide (id = id') then f (timers w !!! id) else timers w !!! id'.
Proof.
  unfold alter_timer, set_timer. simpl. case_decide as E.
  - subst. by rewrite lookup_total_insert_eq.
  - by rewrite lookup_total_insert_ne.
Qed.

Lemma bucket_set s l w s' :
  buckets (wheel (set_bucket s l w)) !!! s' =
    if decide (s = s') then l else buckets (wheel w) !!! s'.
Proof.
  unfold set_bucket. simpl. case_decide as E.
  - subst. by rewrite lookup_total_insert_eq.
  - by rewrite lookup_total_insert_ne.
Qed.

Lemma alter_timer_alter f g id w :
  alter_timer f id (alter_timer g id w) = alter_timer (fun t => f (g t)) id w.
Proof.
  unfold alter_timer, set_timer. simpl.
  by rewrite lookup_total_insert_eq, insert_insert_eq.
Qed.

(** A loose timer may be changed freely. *)
Lemma wfL_alter_loose f id L w :
  wfL L w -> id ∈ L -> tv_ok (due (f (timers w !!! id))) -> wfL L (alter_timer f id w).
Proof.
  intros Hw HL Hd. destruct Hw.
  assert (Hne : forall id', id' ∉ L -> id <> id') by (intros id' H ->; done).
  split; try done.
  - intros id'. rewrite timers_alter. by case_decide.
  - intros s id' Hin. destruct (wf_bucket0 s id' Hin) as [Hl HnL].
    by rewrite timers_alter, decide_False by auto.
  - intros s id'. rewrite timers_alter. intros Hl HnL.
    rewrite decide_False in Hl by auto. by apply wf_list0.
  - intros s id'. unfold nowtick, duetick in *. rewrite timers_alter. intros Hl He HnL.
    rewrite decide_False in * by auto. by apply wf_placed0.
  - intros id'. rewrite timers_alter. intros He HnL.
    rewrite decide_False in * by auto. by apply wf_enabled0.
  - intros id'. rewrite timers_alter. intros He HnL.
    rewrite decide_False in * by auto. by apply wf_locked0.
Qed.

(** Taking a whole list off the wheel. *)
Lemma wfL_steal s w :
  wf w -> wfL (buckets (wheel w) !!! s) (set_bucket s [] w).
Proof.
  intros Hw. destruct Hw. split; try done.
  - intros s'. rewrite bucket_set. case_decide; [constructor|done].
  - intros s' id. rewrite bucket_set. case_decide as E; [intros []%elem_of_nil|].
    intros Hin. destruct (wf_bucket0 _ _ Hin) as [Hl _]. split; [done|].
    intros Hin'. destruct (wf_bucket0 _ _ Hin') as [Hl' _]. simpl in *. congruence.
  - intros s' id Hl HL. simpl in Hl.
    destruct (wf_list0 _ _ Hl) as [Hin Hok]; [set_solver|]. rewrite bucket_set.
    case_decide; [subst; done|done].
  - intros s' id Hl He HL. simpl in *. apply (wf_placed0 _ _ Hl He). set_solver.
  - intros id He HL. simpl in *. apply wf_enabled0; [done|set_solver].
  - intros id He HL. simpl in *. apply wf_locked0; [done|set_solver].
Qed.

(** Linking a loose timer that is not mid-operation. *)
Lemma wfL_link id L w :
  wfL (id :: L) w -> id ∉ L -> enable (timers w !!! id) <> PH_TIMER_LOCKED ->
  wfL L (link_timer id w).
Proof.
  intros Hw HL He. unfold link_timer.
  destruct (compute_list (wheel w) (timers w !!! id)) as [s d] eqn:E.
  apply compute_list_spec in E as (Hd & Ht & Hok & Hp & _); [|apply Hw..].
  assert (Hnin : forall s', id ∉ buckets (wheel w) !!! s').
  { intros s' Hin. destruct (wf_bucket _ _ Hw _ _ Hin). set_solver. }
  destruct Hw.
  split; try done.
  - intros id'. rewrite timers_set_bucket, timers_alter. case_decide; [done|apply wf_due0].
  - intros s'. rewrite bucket_set, wheel_alter_timer. case_decide; [|done]. subst.
    constructor; [apply Hnin|apply wf_nodup0].
  - intros s' id'. rewrite bucket_set, wheel_alter_timer, timers_set_bucket, timers_alter.
    case_decide as E; simpl.
    + subst s'. intros [->|Hin]%elem_of_cons.
      * rewrite decide_True by done. done.
      * destruct (wf_bucket0 _ _ Hin). case_decide; [subst; set_solver|set_solver].
    + intros Hin. destruct (wf_bucket0 _ _ Hin).
      case_decide; [subst; set_solver|set_solver].
  - intros s' id'. rewrite bucket_set, wheel_alter_timer, timers_set_bucket, timers_alter. intros Hl HL'.
    case_decide as E; simpl in *.
    + subst id'. simplify_eq. rewrite decide_True by done. split; [set_solver|done].
    + destruct (wf_list0 _ _ Hl) as [? ?]; [set_solver|].
      case_decide; [subst; set_solver|done].
  - intros s' id'. unfold nowtick, duetick in *. rewrite timers_set_bucket, timers_alter. intros Hl He' HL'.
    case_decide as E; simpl in *.
    + subst id'. simplify_eq. done.
    + apply (wf_placed0 _ _ Hl He'). set_solver.
  - intros id'. rewrite timers_set_bucket, timers_alter. case_decide; simpl; [done|].
    intros He' HL'. apply wf_enabled0; [done|set_solver].
  - intros id'. rewrite timers_set_bucket, timers_alter. case_decide; simpl; [by intros|].
    intros He' HL'. apply wf_locked0; [done|set_solver].
Qed.

(** Forgetting a loose timer that is not linked. *)
Lemma wfL_drop id L w :
  wfL (id :: L) w -> list_of (timers w !!! id) = None ->
  enable (timers w !!! id) <> PH_TIMER_ENABLED -> wfL L w.
Proof.
  intros Hw Hl He. destruct Hw. split; try done.
  - intros s id' Hin. destruct (wf_bucket0 _ _ Hin). set_solver.
  - intros s id' Hl' HL. apply wf_list0; [done|].
    intros [->|]%elem_of_cons; [congruence|done].
  - intros s id' Hl' He' HL. apply wf_placed0; [done..|].
    intros [->|]%elem_of_cons; [congruence|done].
  - intros id' He' HL. destruct (decide (id' = id)); [congruence|].
    apply wf_enabled0; set_solver.
  - intros id' He' HL. destruct (decide (id' = id)); [congruence|].
    apply wf_locked0; set_solver.
Qed.

(** Only membership in [L] matters. *)
Lemma wfL_equiv L L' w : (forall x, x ∈ L <-> x ∈ L') -> wfL L w -> wfL L' w.
Proof.
  intros HL []. split; try done; intros *; rewrite <- ?HL; eauto.
Qed.

(** Unlinking one timer. *)
Lemma wfL_list_remove id L w : wfL L w -> id ∉ L -> wfL (id :: L) (list_remove id w).
Proof.
  intros Hw HL. assert (Hsub : forall x, x ∉ id :: L -> x ∉ L) by set_solver.
  unfold list_remove. destruct (list_of (timers w !!! id)) as [s|] eqn:El; destruct Hw.
  - split; try done.
    + intros s'. rewrite bucket_set. case_decide; [|done]. by apply NoDup_filter.
    + intros s' id'. rewrite bucket_set. case_decide as E.
      * subst s'. intros [Hne Hin]%list_elem_of_filter.
        destruct (wf_bucket0 _ _ Hin). split; [done|]. by apply not_elem_of_cons.
      * intros Hin. destruct (wf_bucket0 _ _ Hin) as [Hl HnL]. split; [done|].
        apply not_elem_of_cons. split; [|done]. intros ->. congruence.
    + intros s' id' Hl HL'. rewrite timers_set_bucket in Hl.
      destruct (wf_list0 _ _ Hl) as [Hin Hok]; [auto|]. rewrite bucket_set.
      case_decide; [|done]. subst. split; [|done].
      apply list_elem_of_filter. by apply not_elem_of_cons in HL' as [? _].
    + intros s' id' Hl He HL'. apply (wf_placed0 _ _ Hl He). auto.
    + intros id' He HL'. apply wf_enabled0; auto.
    + intros id' He HL'. apply wf_locked0; auto.
  - split; try done; eauto.
    intros s' id' Hin. destruct (wf_bucket0 _ _ Hin) as [Hl HnL]. split; [done|].
    apply not_elem_of_cons. split; [|done]. intros ->. congruence.
Qed.

(** Changing a linked timer without moving it. *)
Lemma wfL_alter_linked f id L w :
  wfL L w -> id ∉ L -> list_of (f (timers w !!! id)) = list_of (timers w !!! id) ->
  tv_ok (due (f (timers w !!! id))) ->
  enable (f (timers w !!! id)) <> PH_TIMER_LOCKED ->
  (enable (f (timers w !!! id)) = PH_TIMER_ENABLED ->
   exists s, list_of (timers w !!! id) = Some s /\
     placed (nowtick w) (tval_to_tick (tick_resolution (wheel w)) (due (f (timers w !!! id)))) s) ->
  wfL L (alter_timer f id w).
Proof.
  intros Hw HL Hl Hd Hk Hp. destruct Hw. split; try done.
  - intros id'. rewrite timers_alter. by case_decide.
  - intros s id' Hin. destruct (wf_bucket0 s id' Hin). rewrite timers_alter.
    case_decide; [subst; split; [congruence|done]|done].
  - intros s id'. rewrite timers_alter. intros Hl' HnL. apply wf_list0; [|done].
    case_decide; [subst; congruence|done].
  - intros s id'. unfold nowtick, duetick in *. rewrite timers_alter. intros Hl' He HnL.
    case_decide; [subst|by apply wf_placed0].
    destruct (Hp He) as (s' & Hs & Hp'). rewrite wheel_alter_timer.
    replace s with s' by congruence. done.
  - intros id'. rewrite timers_alter. intros He HnL. case_decide; [subst|by apply wf_enabled0].
    rewrite Hl. destruct (Hp He) as (s' & -> & _). done.
  - intros id'. rewrite timers_alter. intros He HnL. case_decide; [subst; done|by apply wf_locked0].
Qed.

Lemma not_in_singleton {A} (x y : A) : x <> y -> x ∉ [y].
Proof. by rewrite list_elem_of_singleton. Qed.

(** What an operation leaves alone: the clock, and the state and due tick of
    the timers other than those in [X]. *)
Record keeps (X : list positive) (w w' : world) : Prop := {
  keeps_next : next_run (wheel w') = next_run (wheel w);
  keeps_res : tick_resolution (wheel w') = tick_resolution (wheel w);
  keeps_enable id : id ∉ X -> enable (timers w' !!! id) = enable (timers w !!! id);
  keeps_due id : id ∉ X -> enable (timers w !!! id) = PH_TIMER_ENABLED ->
    duetick w' id = duetick w id;
}.

#[export] Instance keeps_refl X : Reflexive (keeps X).
Proof. by split. Qed.

#[export] Instance keeps_trans X : Transitive (keeps X).
Proof.
  intros w1 w2 w3 [A1 A2 A3 A4] [B1 B2 B3 B4]. split; [congruence..| |].
  - intros. rewrite B3, A3; done.
  - intros id HX He. rewrite B4, A4; [done..|]. by rewrite A3.
Qed.

Lemma keeps_nowtick X w w' : keeps X w w' -> nowtick w' = nowtick w.
Proof. intros [Hn Hr _ _]. unfold nowtick. by rewrite Hn, Hr. Qed.

Lemma keeps_alter f id w : keeps [id] w (alter_timer f id w).
Proof.
  split; [done..| |]; intros id' Hid%not_elem_of_cons; unfold duetick;
    rewrite timers_alter, decide_False by naive_solver; done.
Qed.

Lemma keeps_set_bucket X s l w : keeps X w (set_bucket s l w).
Proof. by split. Qed.

Lemma keeps_weaken X Y w w' : X ⊆ Y -> keeps X w w' -> keeps Y w w'.
Proof. intros HXY []. split; [done..| |]; set_solver. Qed.

Lemma keeps_nil X w w' : keeps [] w w' -> keeps X w w'.
Proof. apply keeps_weaken. intros x Hx. by apply elem_of_nil in Hx. Qed.

Lemma keeps_list_remove id w : keeps [] w (list_remove id w).
Proof. unfold list_remove. by destruct (list_of _). Qed.

Section link.
Context (id : positive) (w : world) (L : list positive) (Hw : wfL L w).

Lemma link_timer_self :
  enable (timers (link_timer id w) !!! id) = enable (timers w !!! id) /\
  duetick (link_timer id w) id = Z.max (nowtick w) (duetick w id).
Proof.
  unfold link_timer.
  destruct (compute_list (wheel w) (timers w !!! id)) as [s d] eqn:E.
  apply compute_list_spec in E as (Hd & Ht & _); [|apply Hw..].
  unfold duetick, nowtick in *.
  rewrite timers_set_bucket, timers_alter, decide_True by done. simpl. done.
Qed.

Lemma keeps_link : keeps [id] w (link_timer id w).
Proof.
  unfold link_timer. destruct (compute_list _ _) as [s d].
  etrans; [apply keeps_alter|apply keeps_set_bucket].
Qed.

(** A timer never goes into a slot of an upper level that the coming tick
    empties. *)
Lemma link_timer_visited s :
  s.1 <> 0 -> visited (nowtick w) s ->
  buckets (wheel (link_timer id w)) !!! s = buckets (wheel w) !!! s.
Proof.
  intros Hs Hv. unfold link_timer.
  destruct (compute_list (wheel w) (timers w !!! id)) as [s' d] eqn:E.
  apply compute_list_spec in E as (_ & _ & _ & _ & Hnv); [|apply Hw..].
  rewrite bucket_set, wheel_alter_timer. case_decide; [|done]. subst. by destruct Hnv.
Qed.
End link.

(** *** The cascade *)

Lemma cascade_one_spec id L w :
  wfL (id :: L) w -> id ∉ L -> enable (timers w !!! id) <> PH_TIMER_LOCKED ->
  (enable (timers w !!! id) = PH_TIMER_ENABLED -> nowtick w <= duetick w id) ->
  wfL L (cascade_one id w) /\ keeps [] w (cascade_one id w) /\
  (forall id', id' <> id -> timers (cascade_one id w) !!! id' = timers w !!! id') /\
  (forall s, s.1 <> 0 -> visited (nowtick w) s ->
     buckets (wheel (cascade_one id w)) !!! s = buckets (wheel w) !!! s).
Proof.
  intros Hw HL Hk Hd. unfold cascade_one. case_bool_decide as E.
  - assert (Hw' : wfL (id :: L) (alter_timer (set_list None) id w)).
    { apply wfL_alter_loose; [done|set_solver|apply Hw]. }
    split; [|split; [|split]].
    + apply (wfL_drop id); [done|..]; rewrite timers_alter, decide_True by done; simpl; congruence.
    + split; [done..| |]; intros id' _; unfold duetick; rewrite timers_alter;
        case_decide; by subst.
    + intros id' Hne. by rewrite timers_alter, decide_False by done.
    + done.
  - split; [by apply wfL_link|].
    destruct (link_timer_self id w _ Hw) as [He Hdue].
    pose proof (keeps_link id w) as Hkeep. split; [|split].
    + destruct Hkeep. split; [done..| |].
      * intros id' _. destruct (decide (id' = id)) as [->|]; [exact He|].
        by apply keeps_enable0, not_in_singleton.
      * intros id' _ He'. destruct (decide (id' = id)) as [->|].
        { rewrite Hdue. specialize (Hd He'). lia. }
        by apply keeps_due0; [apply not_in_singleton|].
    + intros id' Hne. unfold link_timer. destruct (compute_list _ _).
      by rewrite timers_set_bucket, timers_alter, decide_False by done.
    + intros s Hs Hv. by eapply link_timer_visited.
Qed.

Lemma cascade_fold l w :
  NoDup l -> wfL l w ->
  (forall id, id ∈ l -> enable (timers w !!! id) <> PH_TIMER_LOCKED) ->
  (forall id, id ∈ l -> enable (timers w !!! id) = PH_TIMER_ENABLED -> nowtick w <= duetick w id) ->
  let w' := foldl (fun w id => cascade_one id w) w l in
  wf w' /\ keeps [] w w' /\
  (forall s, s.1 <> 0 -> visited (nowtick w) s ->
     buckets (wheel w') !!! s = buckets (wheel w) !!! s).
Proof.
  revert w. induction l as [|id l IH]; intros w Hnd Hw Hk Hd; simpl; [done|].
  apply NoDup_cons in Hnd as [Hid Hnd].
  destruct (cascade_one_spec id l w) as (Hw1 & Hkeep & Hoth & Hvis);
    [done|done|apply Hk; set_solver|apply Hd; set_solver|].
  assert (Hn : nowtick (cascade_one id w) = nowtick w) by eauto using keeps_nowtick.
  destruct (IH (cascade_one id w)) as (Hw2 & Hkeep2 & Hvis2); [done|done|..].
  - intros id' Hin. rewrite Hoth by (intros ->; done). apply Hk. set_solver.
  - intros id' Hin. unfold duetick. rewrite (keeps_res _ _ _ Hkeep), Hoth by (intros ->; done).
    rewrite Hn. apply Hd. set_solver.
  - split; [done|]. split; [by etrans|]. intros s Hs Hv. rewrite Hn in Hvis2.
    rewrite Hvis2, Hvis; done.
Qed.

Lemma cascade_timer_spec b i w :
  wf w -> b <> 0 -> let '(_, w') := cascade_timer b i w in
  wf w' /\ keeps [] w w' /\
  (forall s, s.1 <> 0 -> visited (nowtick w) s -> s <> (b, i) ->
     buckets (wheel w') !!! s = buckets (wheel w) !!! s) /\
  (visited (nowtick w) (b, i) -> buckets (wheel w') !!! (b, i) = []).
Proof.
  intros Hw Hb. unfold cascade_timer. set (l := buckets (wheel w) !!! (b, i)).
  set (w0 := set_bucket (b, i) [] w).
  assert (Hl : forall id, id ∈ l -> list_of (timers w !!! id) = Some (b, i)).
  { intros id Hin. by apply (wf_bucket _ _ Hw). }
  destruct (cascade_fold l w0) as (Hw' & Hkeep & Hvis).
  - apply Hw.
  - by apply wfL_steal.
  - intros id Hin E. pose proof (wf_locked _ _ Hw id E ltac:(set_solver)) as HN.
    rewrite (Hl id Hin) in HN. done.
  - intros id Hin E. eapply placed_due. eapply (wf_placed _ _ Hw _ _ (Hl id Hin) E). set_solver.
  - split; [done|]. split; [etrans; [apply keeps_set_bucket|done]|]. split.
    + intros s Hs Hv Hne. rewrite Hvis by done. unfold w0. by rewrite bucket_set, decide_False.
    + intros Hv. rewrite Hvis; [|exact Hb|exact Hv]. unfold w0. by rewrite bucket_set, decide_True.
Qed.

(** Which upper levels a tick visits. *)
Lemma mod_pow_succ n b : 0 <= b ->
  n mod 256 ^ (b + 1) = n mod 256 ^ b + 256 ^ b * ((n / 256 ^ b) mod 256).
Proof.
  intros Hb. rewrite Z.pow_add_r, Z.pow_1_r by lia.
  apply Z.rem_mul_r; [|lia]. apply Z.pow_nonzero; lia.
Qed.

Lemma mod_pow_lower n b c : 0 <= c <= b -> n mod 256 ^ b = 0 -> n mod 256 ^ c = 0.
Proof.
  intros Hc Hb. apply Z.mod_divide; [apply Z.pow_nonzero; lia|].
  apply Z.mod_divide in Hb; [|apply Z.pow_nonzero; lia].
  etrans; [|exact Hb]. exists (256 ^ (b - c)). rewrite <- Z.pow_add_r by lia. f_equal. lia.
Qed.

Lemma level_stop n b : 0 <= b ->
  n mod 256 ^ b = 0 -> (n / 256 ^ b) mod 256 <> 0 -> n mod 256 ^ (b + 1) <> 0.
Proof.
  intros Hb H0 H1. rewrite mod_pow_succ, H0 by done.
  assert (0 < 256 ^ b) by (apply Z.pow_pos_nonneg; lia).
  pose proof (Z.mod_pos_bound (n / 256 ^ b) 256 ltac:(lia)). nia.
Qed.

Lemma level_zero n b : 0 <= b ->
  n mod 256 ^ b = 0 -> (n / 256 ^ b) mod 256 = 0 -> n mod 256 ^ (b + 1) = 0.
Proof. intros Hb H0 H1. rewrite mod_pow_succ, H0, H1 by done. lia. Qed.

Lemma visited_slot n b i : visited n (b, i) -> i = (n / 256 ^ b) mod 256.
Proof. by intros [_ ?]. Qed.

Lemma cascade_spec w :
  wf w -> let w' := cascade (nowtick w) w in
  wf w' /\ keeps [] w w' /\
  (forall s, slot_ok s -> s.1 <> 0 -> visited (nowtick w) s -> buckets (wheel w') !!! s = []).
Proof.
  intros Hw. unfold cascade. set (n := nowtick w).
  rewrite !mask_mod, !Z.shiftr_div_pow2 by (unfold PHENOM_WHEEL_BITS; lia).
  change (2 ^ (3 * PHENOM_WHEEL_BITS)) with (256 ^ 3).
  change (2 ^ (2 * PHENOM_WHEEL_BITS)) with (256 ^ 2).
  change (2 ^ PHENOM_WHEEL_BITS) with (256 ^ 1).
  pose proof (level_stop n 1 ltac:(lia)) as H1. pose proof (level_stop n 2 ltac:(lia)) as H2.
  change (256 ^ (1 + 1)) with (256 ^ 2) in H1. change (256 ^ (2 + 1)) with (256 ^ 3) in H2.
  pose proof (level_zero n 1 ltac:(lia)) as Z0.
  change (256 ^ (1 + 1)) with (256 ^ 2) in Z0.
  assert (Hlow : forall b, 1 <= b -> n mod 256 ^ b = 0 -> n mod 256 ^ 1 = 0).
  { intros b Hb. apply mod_pow_lower. lia. }
  case_bool; zbool.
  2:{ split; [done|]. split; [done|]. intros [b i] [[Hb Hb3] ?] Hb0 [Hv _]. cbn [fst] in Hb, Hb3, Hb0.
      specialize (Hlow b ltac:(lia) Hv). done. }
  pose proof (cascade_timer_spec 1 ((n / 256 ^ 1) mod 256) w Hw ltac:(done)) as C1.
  destruct (cascade_timer 1 _ w) as [more w1] eqn:E1.
  assert (more = ((n / 256 ^ 1) mod 256 =? 0)) as -> by (unfold cascade_timer in E1; congruence).
  destruct C1 as (Hw1 & K1 & V1 & Z1).
  assert (Hn1 : nowtick w1 = n) by by eapply keeps_nowtick.
  assert (F1 : forall i, visited n (1, i) -> buckets (wheel w1) !!! (1, i) = []).
  { intros i Hv. pose proof (visited_slot _ _ _ Hv) as ->. by apply Z1. }
  case_bool; zbool.
  2:{ split; [done|]. split; [done|]. intros [b i] [[Hb Hb3] ?] Hb0 Hv. cbn [fst] in Hb, Hb3, Hb0.
      destruct (decide (b = 1)) as [->|]; [by apply F1|]. exfalso.
      apply H1; [done..|]. apply (mod_pow_lower n b); [lia|apply Hv]. }
  pose proof (cascade_timer_spec 2 ((n / 256 ^ 2) mod 256) w1 Hw1 ltac:(done)) as C2.
  destruct (cascade_timer 2 _ w1) as [more w2] eqn:E2.
  assert (more = ((n / 256 ^ 2) mod 256 =? 0)) as -> by (unfold cascade_timer in E2; congruence).
  destruct C2 as (Hw2 & K2 & V2 & Z2). rewrite Hn1 in V2, Z2.
  assert (Hn2 : nowtick w2 = n) by (rewrite <- Hn1; by eapply keeps_nowtick).
  assert (F2 : forall b i, 1 <= b <= 2 -> visited n (b, i) -> buckets (wheel w2) !!! (b, i) = []).
  { intros b i Hb Hv. pose proof (visited_slot _ _ _ Hv) as ->.
    destruct (decide (b = 2)) as [->|]; [by apply Z2|]. assert (b = 1) as -> by lia.
    rewrite V2; [by apply F1|done|done|congruence]. }
  case_bool; zbool.
  2:{ split; [done|]. split; [by etrans|]. intros [b i] [[Hb Hb3] ?] Hb0 Hv. cbn [fst] in Hb, Hb3, Hb0.
      destruct (decide (b <= 2)) as [|]; [apply F2; [lia|done]|]. exfalso.
      apply H2; [by apply Z0|done|]. apply (mod_pow_lower n b); [lia|apply Hv]. }
  pose proof (cascade_timer_spec 3 ((n / 256 ^ 3) mod 256) w2 Hw2 ltac:(done)) as C3.
  destruct (cascade_timer 3 _ w2) as [more w3]. simpl.
  destruct C3 as (Hw3 & K3 & V3 & Z3). rewrite Hn2 in V3, Z3.
  split; [done|]. split; [by do 2 (etrans; [done|])|].
  intros [b i] [[Hb Hb3] ?] Hb0 Hv. cbn [fst] in Hb, Hb3, Hb0. pose proof (visited_slot _ _ _ Hv) as ->.
  destruct (decide (b = 3)) as [->|]; [by apply Z3|].
  rewrite V3; [apply F2; [lia|done]|done|done|congruence].
Qed.

(** ** The operations on single timers *)

(** The timers a tick has claimed and not dispatched yet are locked. *)
Definition locked (L : list positive) (w : world) : Prop :=
  forall id, id ∈ L -> enable (timers w !!! id) = PH_TIMER_LOCKED.

Lemma list_remove_alter f id w :
  list_of (f (timers w !!! id)) = list_of (timers w !!! id) ->
  list_remove id (alter_timer f id w) = alter_timer f id (list_remove id w).
Proof.
  intros Hf. unfold list_remove. rewrite timers_alter, decide_True, Hf by done.
  by destruct (list_of (timers w !!! id)).
Qed.

Lemma timers_list_remove id w : timers (list_remove id w) = timers w.
Proof. unfold list_remove. by destruct (list_of _). Qed.

Lemma link_timer_enable e id w :
  alter_timer (set_enable e) id (link_timer id w) =
  link_timer id (alter_timer (set_enable e) id w).
Proof.
  unfold link_timer. rewrite wheel_alter_timer, timers_alter, decide_True by done.
  change (compute_list (wheel w) (set_enable e (timers w !!! id)))
    with (compute_list (wheel w) (timers w !!! id)).
  destruct (compute_list _ _) as [s d].
  change (alter_timer (set_enable e) id (set_bucket s ?l ?w0))
    with (set_bucket s l (alter_timer (set_enable e) id w0)).
  by rewrite !alter_timer_alter.
Qed.

(** The slow path of [ph_timerwheel_enable]. *)
Lemma enable_slow_spec f id L w :
  wfL L w -> id ∉ L -> list_of (f (timers w !!! id)) = list_of (timers w !!! id) ->
  tv_ok (due (f (timers w !!! id))) ->
  let w' := alter_timer (set_enable PH_TIMER_ENABLED) id
              (link_timer id (list_remove id (alter_timer f id w))) in
  wfL L w' /\ keeps [id] w w' /\ enable (timers w' !!! id) = PH_TIMER_ENABLED /\
  duetick w' id = Z.max (nowtick w)
    (tval_to_tick (tick_resolution (wheel w)) (due (f (timers w !!! id)))).
Proof.
  intros Hw HL Hf Hd. cbv zeta. rewrite list_remove_alter by done.
  rewrite link_timer_enable, alter_timer_alter.
  pose proof (wfL_list_remove id L w Hw HL) as Hw1.
  pose proof (keeps_list_remove id w) as K1.
  pose proof (timers_list_remove id w) as T1.
  set (w1 := list_remove id w) in *. set (g := fun t => set_enable _ (f t)).
  assert (Hw2 : wfL (id :: L) (alter_timer g id w1)).
  { apply wfL_alter_loose; [done|set_solver|]. by rewrite T1. }
  assert (Ht : timers (alter_timer g id w1) !!! id = g (timers w !!! id)).
  { by rewrite timers_alter, decide_True, T1 by done. }
  destruct (link_timer_self id _ _ Hw2) as [He Hdue]. rewrite Ht in He.
  assert (K2 : keeps [id] w (alter_timer g id w1)).
  { etrans; [by apply keeps_nil|apply keeps_alter]. }
  split; [|split; [|split; [done|]]].
  - apply wfL_link; [done|done|]. by rewrite Ht.
  - etrans; [done|apply keeps_link].
  - rewrite Hdue. f_equal; [by eapply keeps_nowtick|]. unfold duetick.
    rewrite (keeps_res _ _ _ K2). by rewrite Ht.
Qed.

Lemma enable_spec id L w res w' :
  wfL L w -> id ∉ L -> ph_timerwheel_enable id w = (res, w') ->
  wfL L w' /\ keeps [id] w w' /\
  match enable (timers w !!! id) with
  | PH_TIMER_DISABLED =>
      res = PH_OK /\ enable (timers w' !!! id) = PH_TIMER_ENABLED /\
      duetick w' id = Z.max (nowtick w) (duetick w id)
  | _ => res = PH_BUSY /\ w' = w
  end.
Proof.
  intros Hw HL. unfold ph_timerwheel_enable.
  case_bool_decide as E; cbn [negb]; cbv zeta.
  2:{ intros [= <- <-]. split; [done|]. split; [done|]. by destruct (enable _). }
  rewrite E. rewrite timers_alter, decide_True by done.
  change (list_of (set_enable PH_TIMER_LOCKED (timers w !!! id)))
    with (list_of (timers w !!! id)).
  pose proof (enable_slow_spec (set_enable PH_TIMER_LOCKED) id L w Hw HL eq_refl
                (wf_due _ _ Hw id)) as Slow. cbv zeta in Slow.
  destruct (list_of (timers w !!! id)) as [l|] eqn:El.
  2:{ intros [= <- <-]. destruct Slow as (? & ? & ? & ?). done. }
  rewrite wheel_alter_timer.
  change (compute_list (wheel w) (set_enable PH_TIMER_LOCKED (timers w !!! id)))
    with (compute_list (wheel w) (timers w !!! id)).
  destruct (compute_list (wheel w) (timers w !!! id)) as [l' d] eqn:Ec.
  apply compute_list_spec in Ec as (Hd & Ht & Hok & Hp & _); [|apply Hw..].
  case_bool_decide as Ell; rewrite !alter_timer_alter; intros [= <- <-].
  - subst l'. split; [|split; [apply keeps_alter|]].
    + apply wfL_alter_linked; [done..| |]; [done|]. intros _. exists l. done.
    + unfold duetick. rewrite !timers_alter, !decide_True by done. done.
  - destruct (enable_slow_spec (fun t => set_due d (set_enable PH_TIMER_LOCKED t)) id L w)
      as (A & B & C & D); [done..|]. split; [done|]. split; [done|]. split; [done|].
    split; [done|]. rewrite D. simpl. rewrite Ht. unfold nowtick, duetick. lia.
Qed.

Lemma disable_wf id L w res w' :
  wfL L w -> locked L w -> ph_timerwheel_disable id w = (res, w') ->
  wfL L w' /\ keeps [id] w w' /\ list_of (timers w' !!! id) = list_of (timers w !!! id) /\
  (forall x, x <> id -> timers w' !!! x = timers w !!! x) /\
  (res = PH_OK -> id ∉ L /\ enable (timers w' !!! id) = PH_TIMER_DISABLED) /\
  (res <> PH_OK -> res = PH_BUSY /\ w' = w /\ enable (timers w !!! id) = PH_TIMER_LOCKED).
Proof.
  intros Hw HL. unfold ph_timerwheel_disable.
  assert (Hin : enable (timers w !!! id) <> PH_TIMER_LOCKED -> id ∉ L).
  { intros H Hi. by apply H, HL. }
  destruct (enable (timers w !!! id)) eqn:E; intros [= <- <-].
  - split_and!; try done. intros _. split; [by apply Hin|done].
  - assert (id ∉ L) by by apply Hin.
    split; [|split; [apply keeps_alter|]].
    + apply wfL_alter_linked; [done..|apply Hw|done|done].
    + rewrite timers_alter, decide_True by done. split_and!; try done.
      intros x Hx. by rewrite timers_alter, decide_False by done.
  - split_and!; done.
Qed.

Lemma remove_spec id L w res w' :
  wfL L w -> locked L w -> ph_timerwheel_remove id w = (res, w') ->
  wfL L w' /\ keeps [id] w w' /\
  match res with
  | PH_OK => list_of (timers w' !!! id) = None /\
      enable (timers w' !!! id) = PH_TIMER_DISABLED /\
      forall s, id ∉ buckets (wheel w') !!! s
  | PH_NOENT => w' = w /\ list_of (timers w !!! id) = None
  | PH_BUSY => w' = w /\ id ∈ L
  | _ => False
  end.
Proof.
  intros Hw HL. unfold ph_timerwheel_remove.
  destruct (list_of (timers w !!! id)) as [s|] eqn:El.
  2:{ intros [= <- <-]. done. }
  destruct (ph_timerwheel_disable id w) as [r w1] eqn:Ed.
  destruct (disable_wf _ _ _ _ _ Hw HL Ed) as (Hw1 & K1 & Hl1 & _ & Hok & Hbusy).
  case_bool_decide as Er; intros [= <- <-].
  - destruct (Hok Er) as [HnL He].
    pose proof (wfL_list_remove id L w1 Hw1 HnL) as Hw2.
    set (w2 := list_remove id w1) in *.
    assert (T2 : timers w2 = timers w1) by apply timers_list_remove.
    assert (Hw3 : wfL (id :: L) (alter_timer (set_list None) id w2)).
    { apply wfL_alter_loose; [done|set_solver|apply Hw2]. }
    assert (Ht : timers (alter_timer (set_list None) id w2) !!! id
                 = set_list None (timers w1 !!! id)).
    { by rewrite timers_alter, decide_True, T2 by done. }
    split; [|split].
    + apply (wfL_drop id); [done|by rewrite Ht|rewrite Ht; simpl; congruence].
    + etrans; [exact K1|]. etrans; [|apply keeps_alter].
      apply keeps_nil, keeps_list_remove.
    + rewrite Ht. split; [done|]. split; [done|]. intros s' Hin.
      destruct (wf_bucket _ _ Hw3 _ _ Hin). set_solver.
  - destruct (Hbusy Er) as (-> & -> & Hlk). split; [done|]. split; [done|]. split; [done|].
    destruct (decide (id ∈ L)) as [|Hn]; [done|].
    by rewrite (wf_locked _ _ Hw _ Hlk Hn) in El.
Qed.

(** ** Initialization *)

Lemma init_wf now r ts :
  valid_res r -> tv_ok now -> tv_sec now + 1 < 2 ^ 50 ->
  (forall id, list_of (ts !!! id) = None /\ enable (ts !!! id) = PH_TIMER_DISABLED /\
              tv_ok (due (ts !!! id))) ->
  wf (World (ph_timerwheel_init now r) ts).
Proof.
  intros Hr Hn Hb Hts. split; try done; cbn [wheel timers ph_timerwheel_init].
  - by apply tv_ok_add_res.
  - intros id. apply Hts.
  - intros s. change (buckets (ph_timerwheel_init now r)) with (∅ : gmap slot (list positive)). rewrite lookup_total_empty. constructor.
  - intros s id. change (buckets (ph_timerwheel_init now r)) with (∅ : gmap slot (list positive)). rewrite lookup_total_empty. intros []%elem_of_nil.
  - intros s id Hl. destruct (Hts id) as [Hnone _]. congruence.
  - intros s id Hl. destruct (Hts id) as [Hnone _]. congruence.
  - intros id He. destruct (Hts id) as (_ & Hd & _). congruence.
  - intros id He. destruct (Hts id) as (_ & Hd & _). congruence.
Qed.

End TimerWheelProofs.
