(* ===== verification/TimerWheelTick.v ===== *)
(** * A tick of the timer wheel

    What [ph_timerwheel_tick] claims and dispatches, that timers fire at their
    due tick, and that the emitter's tick loop terminates. *)

From Stdlib Require Import ZArith Lia.
From stdpp Require Import base numbers list gmap.
From S2P Require Import Prelude TimerWheel TimerWheelProofs.
Import TimerWheel TimerWheelProofs.

Module TimerWheelTick.

Arguments alter_timer : simpl never.
Arguments set_bucket : simpl never.

(** ** One tick *)

(** [next_run] moves on once the timers of the visited slots are off. *)
Lemma wfL_advance L w :
  wfL L w -> tv_sec (next_run (wheel w)) + 1 < 2 ^ 50 ->
  (forall s id, list_of (timers w !!! id) = Some s -> id ∉ L -> ~ visited (nowtick w) s) ->
  let w' := set_next_run (tval_add_res (tick_resolution (wheel w)) (next_run (wheel w))) w in
  wfL L w' /\ nowtick w' = nowtick w + 1.
Proof.
  intros Hw Hb Hv. cbv zeta.
  assert (Hn : nowtick (set_next_run (tval_add_res (tick_resolution (wheel w))
                 (next_run (wheel w))) w) = nowtick w + 1).
  { unfold nowtick. simpl. apply tick_add_res; [apply Hw..|done]. }
  split; [|done]. destruct Hw. split; try done.
  - simpl. by apply tv_ok_add_res.
  - intros s id Hl He HL. rewrite Hn. apply placed_next.
    + by apply (wf_list0 s id).
    + by apply wf_placed0.
    + by eapply Hv.
Qed.

Lemma wfL_advance_steal s w :
  wf w -> tv_sec (next_run (wheel w)) + 1 < 2 ^ 50 ->
  (forall s' id, list_of (timers w !!! id) = Some s' -> id ∉ buckets (wheel w) !!! s ->
     ~ visited (nowtick w) s') ->
  let w' := set_next_run (tval_add_res (tick_resolution (wheel w)) (next_run (wheel w)))
              (set_bucket s [] w) in
  wfL (buckets (wheel w) !!! s) w' /\ nowtick w' = nowtick w + 1 /\
  timers w' = timers w /\ tick_resolution (wheel w') = tick_resolution (wheel w) /\
  next_run (wheel w') = tval_add_res (tick_resolution (wheel w)) (next_run (wheel w)).
Proof.
  intros Hw Hb Hv.
  destruct (wfL_advance (buckets (wheel w) !!! s) (set_bucket s [] w)) as [H1 H2];
    [by apply wfL_steal|exact Hb|exact Hv|].
  split; [exact H1|]. split; [exact H2|]. done.
Qed.

(** A timer due at the tick at hand is in a slot the tick visits. *)
Lemma placed_now n s : placed n n s -> slot_ok s -> visited n s.
Proof.
  intros (q & Hs & Hq & Hd & _) [[Hb _] _]. assert (E : q * 256 ^ s.1 = n) by lia.
  assert (256 ^ s.1 <> 0) by (apply Z.pow_nonzero; lia).
  unfold visited. rewrite <- E. by rewrite Z.mod_mul, Z.div_mul by done.
Qed.

Lemma visited_0 n s : s.1 = 0 -> visited n s -> s = (0, n mod 256).
Proof.
  destruct s as [b i]. simpl. intros -> [_ Hi]. simpl in Hi. rewrite Hi. f_equal.
  by rewrite Z.div_1_r.
Qed.

(** The timers on the list of the tick at hand, after the cascade. *)
Lemma due_list w :
  wf w -> (forall s, slot_ok s -> s.1 <> 0 -> visited (nowtick w) s ->
             buckets (wheel w) !!! s = []) ->
  let l := buckets (wheel w) !!! (0, nowtick w mod 256) in
  (forall s id, list_of (timers w !!! id) = Some s -> id ∉ l -> ~ visited (nowtick w) s) /\
  (forall id, enable (timers w !!! id) = PH_TIMER_ENABLED ->
     id ∈ l <-> duetick w id = nowtick w).
Proof.
  intros Hw Hempty. cbv zeta.
  assert (Hvis : forall s id, list_of (timers w !!! id) = Some s -> visited (nowtick w) s ->
            id ∈ buckets (wheel w) !!! (0, nowtick w mod 256)).
  { intros s id Hl Hv. destruct (wf_list _ _ Hw _ _ Hl) as [Hin Hok]; [set_solver|].
    destruct (decide (s.1 = 0)) as [H0|H0].
    - by rewrite <- (visited_0 _ s).
    - by rewrite Hempty in Hin; [apply elem_of_nil in Hin|..]. }
  split; [intros s id Hl Hn Hv; by apply Hn, (Hvis s)|].
  intros id He. split.
  - intros Hin. apply (wf_bucket _ _ Hw) in Hin as [Hl _].
    eapply (placed_visited_0 _ _ (0, nowtick w mod 256)); [|done|].
    + apply (wf_placed _ _ Hw); [done..|set_solver].
    + split; simpl; [apply Z.mod_1_r|by rewrite Z.div_1_r].
  - intros Hd. destruct (list_of (timers w !!! id)) as [s|] eqn:Hl.
    + apply (Hvis s); [done|].
      apply placed_now; [|by apply (wf_list _ _ Hw s id Hl); set_solver].
      rewrite <- Hd at 2. apply (wf_placed _ _ Hw); [done..|set_solver].
    + by apply (wf_enabled _ _ Hw) in He; [|set_solver].
Qed.

(** [should_dispatch] is NULL or always answers true. *)
Definition accepting {U}
    (sd : option (world -> positive -> timeval -> U -> bool * U)) : Prop :=
  forall f w id tv u, sd = Some f -> fst (f w id tv u) = true.

Section tick.
Context {U : Type} (sd : option (world -> positive -> timeval -> U -> bool * U)).

(** What the claim loop does to the first timer of the list. *)
Lemma claim_one id X now w u disp w1 u1 :
  wfL (id :: X) w -> id ∉ X -> enable (timers w !!! id) <> PH_TIMER_LOCKED ->
  (if negb (bool_decide (enable (timers w !!! id) = PH_TIMER_ENABLED)) then (false, w, u)
   else match sd with
        | None => (true, alter_timer (set_enable PH_TIMER_LOCKED) id w, u)
        | Some f => let '(b, u) := f (alter_timer (set_enable PH_TIMER_LOCKED) id w) id now u in
                    (b, alter_timer (set_enable PH_TIMER_LOCKED) id w, u)
        end) = (disp, w1, u1) ->
  let w2 := if disp then w1 else alter_timer (set_list None) id w1 in
  wfL (if disp then id :: X else X) w2 /\ wheel w2 = wheel w /\
  (forall x, x <> id -> timers w2 !!! x = timers w !!! x) /\
  (disp = true -> enable (timers w !!! id) = PH_TIMER_ENABLED /\
                  enable (timers w2 !!! id) = PH_TIMER_LOCKED) /\
  (disp = false -> list_of (timers w2 !!! id) = None /\
                   enable (timers w2 !!! id) <> PH_TIMER_ENABLED) /\
  (accepting sd -> enable (timers w !!! id) = PH_TIMER_ENABLED -> disp = true).
Proof.
  intros Hw HX Hk Heq. cbv zeta.
  assert (Hdrop : forall e,
    e <> PH_TIMER_ENABLED ->
    wfL X (alter_timer (fun t => set_list None (set_enable e t)) id w)).
  { intros e He. apply (wfL_drop id).
    - apply wfL_alter_loose; [done|set_solver|apply Hw].
    - by rewrite timers_alter, decide_True by done.
    - by rewrite timers_alter, decide_True by done. }
  assert (Hoth : forall f x, x <> id -> timers (alter_timer f id w) !!! x = timers w !!! x).
  { intros f x Hx. by rewrite timers_alter, decide_False by done. }
  assert (Hself : forall f, timers (alter_timer f id w) !!! id = f (timers w !!! id)).
  { intros f. by rewrite timers_alter, decide_True by done. }
  case_bool_decide as E; cbn [negb] in Heq.
  - assert (disp = true /\ w1 = alter_timer (set_enable PH_TIMER_LOCKED) id w
      \/ disp = false /\ w1 = alter_timer (set_enable PH_TIMER_LOCKED) id w /\ ~ accepting sd)
      as [[-> ->]|(-> & -> & Hna)].
    { destruct sd as [f|]; [|left; naive_solver].
      destruct (f _ id now u) as [b u'] eqn:Ef. simplify_eq. destruct disp; [by left|right].
      split_and!; [done..|]. intros Ha.
      specialize (Ha f (alter_timer (set_enable PH_TIMER_LOCKED) id w) id now u eq_refl).
      by rewrite Ef in Ha. }
    + split_and!; try done; [|by apply Hoth|by rewrite Hself].
      apply wfL_alter_loose; [done|set_solver|apply Hw].
    + rewrite alter_timer_alter. split_and!; try done; [by apply Hdrop|by apply Hoth|].
      by rewrite Hself.
  - injection Heq as <- <- <-. split_and!; try done; [|by apply Hoth|by rewrite Hself].
    specialize (Hdrop (enable (timers w !!! id)) E).
    replace (alter_timer (set_list None) id w)
      with (alter_timer (fun t => set_list None (set_enable (enable (timers w !!! id)) t)) id w);
      [done|]. unfold alter_timer. by destruct (timers w !!! id).
Qed.

Lemma claim_loop_spec l X now w u claimed w' u' :
  claim_loop sd l now w u = (claimed, w', u') ->
  NoDup l -> (forall x, x ∈ l -> x ∉ X) -> wfL (l ++ X) w ->
  (forall id, id ∈ l -> enable (timers w !!! id) <> PH_TIMER_LOCKED) ->
  wfL (claimed ++ X) w' /\ wheel w' = wheel w /\ NoDup claimed /\ claimed ⊆ l /\
  (forall id, id ∉ l -> timers w' !!! id = timers w !!! id) /\
  (forall id, id ∈ claimed -> enable (timers w !!! id) = PH_TIMER_ENABLED /\
                              enable (timers w' !!! id) = PH_TIMER_LOCKED) /\
  (accepting sd -> forall id, id ∈ l ->
     enable (timers w !!! id) = PH_TIMER_ENABLED -> id ∈ claimed).
Proof.
  revert X w u claimed. induction l as [|id l IH]; intros X w u claimed Hc Hnd HX Hw Hk;
    cbn [claim_loop] in Hc.
  { simplify_eq. split_and!; try done. by intros id []%elem_of_nil. }
  apply NoDup_cons in Hnd as [Hid Hnd].
  destruct (if negb (bool_decide (enable (timers w !!! id) = PH_TIMER_ENABLED)) then _ else _)
    as [[disp w1] u1] eqn:E1 in Hc.
  destruct (claim_one id (l ++ X) now w u disp w1 u1) as (Hw2 & Hwh & Hoth & Hd1 & Hd2 & Hacc);
    [done|..|exact E1|].
  { rewrite elem_of_app. intros [|Hin]; [done|]. apply (HX id); set_solver. }
  { apply Hk. set_solver. }
  set (w2 := if disp then w1 else alter_timer (set_list None) id w1) in *. cbv zeta in Hc.
  destruct (claim_loop sd l now w2 u1) as [[cl w3] u3] eqn:E2. simplify_eq.
  assert (Hxid : forall x, x ∈ l -> x <> id) by (intros x Hx ->; done).
  destruct (IH (if disp then id :: X else X) w2 u1 cl) as (A & B & C & D & F & G & H); [done|done|..].
  { intros x Hx. destruct disp; [|set_solver]. apply not_elem_of_cons.
    split; [by apply Hxid|set_solver]. }
  { eapply wfL_equiv; [|exact Hw2]. destruct disp; set_solver. }
  { intros x Hx. rewrite Hoth by auto. set_solver. }
  split_and!.
  - eapply wfL_equiv; [|exact A]. destruct disp; set_solver.
  - congruence.
  - destruct disp; [|done]. constructor; [|done]. intros Hin. by apply Hid, D.
  - destruct disp; set_solver.
  - intros x [Hx Hx']%not_elem_of_cons. rewrite F by done. by apply Hoth.
  - intros x Hx. destruct (decide (x = id)) as [->|Hne].
    + destruct disp; [|by destruct Hid; apply D]. destruct Hd1 as [He1 He2]; [done|].
      split; [done|]. rewrite F by done. done.
    + assert (Hx' : x ∈ cl) by (destruct disp; set_solver).
      destruct (G x Hx') as [Ge Gl]. rewrite Hoth in Ge by done. done.
  - intros Ha x [->|Hx]%elem_of_cons He.
    + rewrite (Hacc Ha He). set_solver.
    + assert (x ∈ cl); [|destruct disp; set_solver].
      apply (H Ha x Hx). by rewrite Hoth by auto.
Qed.

Lemma tick_claim_eq now w u :
  nowtick w <= tval_to_tick (tick_resolution (wheel w)) now ->
  tick_claim sd now w u =
    let w1 := cascade (nowtick w) w in
    claim_loop sd (buckets (wheel w1) !!! (0, nowtick w mod 256)) now
      (set_next_run (tval_add_res (tick_resolution (wheel w)) (next_run (wheel w1)))
        (set_bucket (0, nowtick w mod 256) [] w1)) u.
Proof.
  intros Hle. unfold tick_claim. fold (nowtick w).
  rewrite (proj2 (Z.leb_le _ _)) by done. rewrite mask_mod.
  generalize (cascade (nowtick w) w). intros w1. destruct w1. reflexivity.
Qed.

Lemma tick_claim_spec now w u claimed w' u' :
  wf w -> tv_sec (next_run (wheel w)) + 1 < 2 ^ 50 ->
  nowtick w <= tval_to_tick (tick_resolution (wheel w)) now ->
  tick_claim sd now w u = (claimed, w', u') ->
  NoDup claimed /\ wfL claimed w' /\ locked claimed w' /\
  nowtick w' = nowtick w + 1 /\
  tick_resolution (wheel w') = tick_resolution (wheel w) /\
  next_run (wheel w') = tval_add_res (tick_resolution (wheel w)) (next_run (wheel w)) /\
  (forall id, id ∈ claimed ->
     enable (timers w !!! id) = PH_TIMER_ENABLED /\ duetick w id = nowtick w) /\
  (accepting sd -> forall id, enable (timers w !!! id) = PH_TIMER_ENABLED ->
     duetick w id = nowtick w -> id ∈ claimed) /\
  (forall id, enable (timers w !!! id) = PH_TIMER_ENABLED -> duetick w id <> nowtick w ->
     enable (timers w' !!! id) = PH_TIMER_ENABLED /\ duetick w' id = duetick w id).
Proof.
  intros Hw Hb Hle. rewrite tick_claim_eq by done. cbv zeta.
  destruct (cascade_spec w Hw) as (Hw1 & K & Hempty).
  generalize dependent (cascade (nowtick w) w). intros w1 Hw1 K Hempty.
  pose proof (keeps_nowtick _ _ _ K) as Hn. rewrite <- Hn in Hempty.
  pose proof (keeps_res _ _ _ K) as Hres. pose proof (keeps_next _ _ _ K) as Hnext.
  destruct (due_list w1 Hw1 Hempty) as [Hv Hdue]. rewrite Hn in Hv, Hdue.
  rewrite <- Hres.
  destruct (wfL_advance_steal (0, nowtick w mod 256) w1 Hw1) as (Hw3 & Hn3 & T3 & R3 & N3).
  { by rewrite Hnext. }
  { intros s id Hl HnL. rewrite Hn. by apply (Hv s id). }
  generalize dependent (set_next_run (tval_add_res (tick_resolution (wheel w1))
    (next_run (wheel w1))) (set_bucket (0, nowtick w mod 256) [] w1)).
  intros w3 Hw3 Hn3 T3 R3 N3 Hc. rewrite Hn in Hn3.
  set (l := buckets (wheel w1) !!! (0, nowtick w mod 256)) in *.
  assert (Hen : forall id, enable (timers w3 !!! id) = enable (timers w !!! id)).
  { intros id. rewrite T3. apply (keeps_enable _ _ _ K). set_solver. }
  destruct (claim_loop_spec l [] now w3 u claimed w' u' Hc) as (A & B & C & D & F & G & H).
  { apply Hw1. }
  { set_solver. }
  { by rewrite app_nil_r. }
  { intros id Hin E. rewrite T3 in E.
    pose proof (wf_locked _ _ Hw1 id E ltac:(set_solver)) as HN.
    apply (wf_bucket _ _ Hw1) in Hin as [Hl _]. congruence. }
  assert (Hlink : forall id, enable (timers w !!! id) = PH_TIMER_ENABLED ->
            id ∈ l <-> duetick w id = nowtick w).
  { intros id He. rewrite <- (keeps_due _ _ _ K id) by (done || set_solver).
    apply Hdue. by rewrite (keeps_enable _ _ _ K) by set_solver. }
  rewrite app_nil_r in A. split_and!.
  - done.
  - done.
  - intros id Hin. by apply G.
  - unfold nowtick. by rewrite B.
  - by rewrite B, R3.
  - by rewrite B, N3, Hnext, Hres.
  - intros id Hin. destruct (G id Hin) as [He _]. rewrite Hen in He. split; [done|].
    apply Hlink; [done|]. by apply D.
  - intros Ha id He Hd. apply H; [done|by apply Hlink|by rewrite Hen].
  - intros id He Hd. assert (Hnl : id ∉ l) by (by rewrite Hlink).
    rewrite F, Hen by done. split; [done|].
    rewrite <- (keeps_due _ _ _ K id) by (done || set_solver).
    unfold duetick. by rewrite F, T3, B, R3 by done.
Qed.
End tick.

(** ** Dispatching *)

(** What the wheel needs of the dispatch callback: it may operate on timers,
    but not on those the tick still holds, and it does not move the clock.
    [ph_timerwheel_enable], [_disable] and [_remove] are such operations
    ([enable_spec], [disable_wf], [remove_spec]). *)
Class callback_ok {U} (dispatch : positive -> timeval -> world * U -> world * U) : Prop := {
  cb_wf L id now w u : wfL L w -> locked L w ->
    wfL L (dispatch id now (w, u)).1 /\ locked L (dispatch id now (w, u)).1;
  cb_clock id now w u :
    next_run (wheel (dispatch id now (w, u)).1) = next_run (wheel w) /\
    tick_resolution (wheel (dispatch id now (w, u)).1) = tick_resolution (wheel w);
}.

(** The callback leaves timer [t] alone unless it is the one dispatched. *)
Definition leaves {U} (t : positive)
    (dispatch : positive -> timeval -> world * U -> world * U) : Prop :=
  forall id now w u, id <> t -> timers (dispatch id now (w, u)).1 !!! t = timers w !!! t.

Section dispatch.
Context {U : Type} (sd : option (world -> positive -> timeval -> U -> bool * U)).
Context (dispatch : positive -> timeval -> world * U -> world * U) `{!callback_ok dispatch}.

Lemma dispatch_loop_spec l now k w u k' w' u' :
  NoDup l -> wfL l w -> locked l w ->
  dispatch_loop dispatch l now k w u = (k', w', u') ->
  wf w' /\ nowtick w' = nowtick w /\ next_run (wheel w') = next_run (wheel w) /\
  tick_resolution (wheel w') = tick_resolution (wheel w) /\
  u32 k' = u32 (k + zlen l) /\
  (forall t, leaves t dispatch -> t ∉ l -> timers w' !!! t = timers w !!! t).
Proof.
  revert k w u. induction l as [|id l IH]; intros k w u Hnd Hw Hlk; cbn [dispatch_loop].
  { intros [= <- <- <-]. rewrite Z.add_0_r. done. }
  apply NoDup_cons in Hnd as [Hid Hnd].
  set (w1 := alter_timer _ id w).
  assert (Hother : forall x, x <> id -> timers w1 !!! x = timers w !!! x).
  { intros x Hx. unfold w1. by rewrite timers_alter, decide_False by done. }
  assert (Hw1 : wfL l w1).
  { apply (wfL_drop id).
    - apply wfL_alter_loose; [done|set_solver|apply Hw].
    - unfold w1. by rewrite timers_alter, decide_True by done.
    - unfold w1. by rewrite timers_alter, decide_True by done. }
  assert (Hlk1 : locked l w1).
  { intros x Hx. rewrite Hother by (intros ->; done). apply Hlk. set_solver. }
  assert (Hwh : wheel w1 = wheel w) by done. clearbody w1.
  pose proof (cb_wf l id now w1 u Hw1 Hlk1) as [Hw2 Hlk2].
  pose proof (cb_clock id now w1 u) as [Hc1 Hc2].
  destruct (dispatch id now (w1, u)) as [w2 u2] eqn:Ed. simpl in *.
  intros Hl. destruct (IH _ _ _ Hnd Hw2 Hlk2 Hl) as (A & B & C & D & E & F).
  split_and!; [done|..].
  - unfold nowtick in *. by rewrite B, Hc1, Hc2, Hwh.
  - by rewrite C, Hc1, Hwh.
  - by rewrite D, Hc2, Hwh.
  - rewrite E, wrapU_add_l by lia. f_equal. lia.
  - intros t Ht [Hne Hnl]%not_elem_of_cons. rewrite F by done.
    pose proof (Ht id now w1 u ltac:(done)) as Hlv. rewrite Ed in Hlv. simpl in Hlv.
    by rewrite Hlv, Hother by done.
Qed.

(** C2. One tick of a well-formed wheel dispatches exactly the enabled timers whose
    due tick is the current one, each once, returns their number, keeps the
    wheel well formed and advances it by one tick. *)
Theorem tick_dispatches_due now w u ticked w' u' :
  wf w -> tv_sec (next_run (wheel w)) + 1 < 2 ^ 50 -> accepting sd ->
  nowtick w <= tval_to_tick (tick_resolution (wheel w)) now ->
  ph_timerwheel_tick sd dispatch now w u = (ticked, w', u') ->
  exists claimed w1 u1,
    NoDup claimed /\
    (forall id, id ∈ claimed <->
       enable (timers w !!! id) = PH_TIMER_ENABLED /\ duetick w id = nowtick w) /\
    dispatch_loop dispatch claimed now 0 w1 u1 = (ticked, w', u') /\
    u32 ticked = u32 (zlen claimed) /\ wf w' /\ nowtick w' = nowtick w + 1.
Proof.
  intros Hw Hb Ha Hle. unfold ph_timerwheel_tick.
  destruct (tick_claim sd now w u) as [[claimed w1] u1] eqn:Ec. intros Hd.
  destruct (tick_claim_spec sd now w u claimed w1 u1) as (A & B & C & D & _ & _ & E & F & G);
    [done..|].
  destruct (dispatch_loop_spec claimed now 0 w1 u1 ticked w' u') as (P & Q & _ & _ & R & _);
    [done..|].
  exists claimed, w1, u1. split_and!; [done| |done|done|done|congruence].
  intros id. split; [apply E|]. intros [? ?]. by apply F.
Qed.

(** A tick leaves a waiting timer waiting. *)
Lemma tick_waits t now w u ticked w' u' :
  wf w -> tv_sec (next_run (wheel w)) + 1 < 2 ^ 50 ->
  nowtick w <= tval_to_tick (tick_resolution (wheel w)) now ->
  ph_timerwheel_tick sd dispatch now w u = (ticked, w', u') ->
  wf w' /\ nowtick w' = nowtick w + 1 /\
  tick_resolution (wheel w') = tick_resolution (wheel w) /\
  next_run (wheel w') = tval_add_res (tick_resolution (wheel w)) (next_run (wheel w)) /\
  (leaves t dispatch -> enable (timers w !!! t) = PH_TIMER_ENABLED ->
   duetick w t <> nowtick w ->
   enable (timers w' !!! t) = PH_TIMER_ENABLED /\ duetick w' t = duetick w t).
Proof.
  intros Hw Hb Hle. unfold ph_timerwheel_tick.
  destruct (tick_claim sd now w u) as [[claimed w1] u1] eqn:Ec. intros Hd.
  destruct (tick_claim_spec sd now w u claimed w1 u1) as (A & B & C & D & R & N & E & F & G);
    [done..|].
  destruct (dispatch_loop_spec claimed now 0 w1 u1 ticked w' u') as (P & Q & N' & R' & _ & T);
    [done..|].
  split_and!; [done|congruence|congruence|congruence|].
  intros Hlv He Hne. assert (t ∉ claimed) by (intros Hin; by apply E in Hin as [_ ?]).
  destruct (G t He Hne) as [G1 G2]. unfold duetick in *. rewrite T, R' by done. done.
Qed.

(** A sequence of calls of [ph_timerwheel_tick]. *)
Fixpoint run_ticks (nows : list timeval) (w : world) (u : U) : world * U :=
  match nows with
  | [] => (w, u)
  | now :: nows =>
      let '(_, w, u) := ph_timerwheel_tick sd dispatch now w u in
      run_ticks nows w u
  end.


(** C39. The catch-up loop of an emitter terminates for every time: it performs
    exactly the ticks that bring the wheel up to the time given, keeping it well
    formed. *)
Theorem emitter_tick_terminates fuel now w u :
  wf w -> tv_ok now -> tv_sec now + 2 < 2 ^ 50 ->
  usecs now - usecs (next_run (wheel w)) <= Z.of_nat fuel * (1000 * tick_resolution (wheel w)) ->
  exists n w' u',
    ph_nbio_emitter_timer_tick sd dispatch fuel now w u = Some (n, w', u') /\
    wf w' /\ usecs now <= usecs (next_run (wheel w')) /\
    usecs (next_run (wheel w')) =
      usecs (next_run (wheel w)) + Z.of_nat n * (1000 * tick_resolution (wheel w)).
Proof.
  intros Hw Hnow Hb. revert w u Hw. induction fuel as [|fuel IH]; intros w u Hw Hfuel;
    cbn [ph_nbio_emitter_timer_tick]; pose proof (res_le _ (wf_res _ _ Hw));
    (destruct (timercmp_lt (next_run (wheel w)) now) eqn:Elt;
      [apply timercmp_lt_usecs in Elt; [|apply Hw|done]
      |apply not_true_iff_false in Elt; rewrite timercmp_lt_usecs in Elt; [|apply Hw|done]]).
  - lia.
  - exists 0%nat, w, u. split_and!; [done|done|lia|lia].
  - destruct (ph_timerwheel_tick sd dispatch now w u) as [[k w1] u1] eqn:Et.
    destruct (tick_waits 1 now w u k w1 u1) as (A & B & C & D & _); [done|..|done|].
    { unfold usecs in Elt. destruct (wf_next _ _ Hw) as [? ?], Hnow as [? ?]. lia. }
    { apply tick_mono; [apply Hw..|done|lia]. }
    destruct (IH w1 u1 A) as (n & w2 & u2 & E1 & E2 & E3 & E4).
    { rewrite C, D, usecs_add_res. lia. }
    exists (S n), w2, u2. rewrite E1. split_and!; [done..|].
    rewrite E4, C, D, usecs_add_res. lia.
  - exists 0%nat, w, u. split_and!; [done|done|lia|lia].
Qed.
End dispatch.

(** ** Claims on single timers *)

(** Enabling a disabled timer schedules it for its due tick, or the current one
    if that has passed, without touching other timers; any other timer is
    refused unchanged. *)
Theorem enable_schedules id L w res w' :
  wfL L w -> id ∉ L -> ph_timerwheel_enable id w = (res, w') ->
  wfL L w' /\ keeps [id] w w' /\
  match enable (timers w !!! id) with
  | PH_TIMER_DISABLED =>
      res = PH_OK /\ enable (timers w' !!! id) = PH_TIMER_ENABLED /\
      duetick w' id = Z.max (nowtick w) (duetick w id)
  | _ => res = PH_BUSY /\ w' = w
  end.
Proof. apply enable_spec. Qed.

(** Removing a timer takes it out of every list and disables it, or reports that
    it was not scheduled or is being dispatched, changing nothing. *)
Theorem remove_unlinks id L w res w' :
  wfL L w -> locked L w -> ph_timerwheel_remove id w = (res, w') ->
  wfL L w' /\ keeps [id] w w' /\
  match res with
  | PH_OK => list_of (timers w' !!! id) = None /\
      enable (timers w' !!! id) = PH_TIMER_DISABLED /\
      forall s, id ∉ buckets (wheel w') !!! s
  | PH_NOENT => w' = w /\ list_of (timers w !!! id) = None
  | PH_BUSY => w' = w /\ id ∈ L
  | _ => False
  end.
Proof. apply remove_spec. Qed.

(** ** A concrete wheel: 100 ms ticks, one timer due 70 s ahead *)

Definition demo_world : world :=
  World (ph_timerwheel_init (Timeval 1000 250000) 100)
        {[ 1%positive := Timer None (Timeval 1070 0) PH_TIMER_DISABLED ]}.

(** A callback that records what it was called for. *)
Definition log_dispatch (id : positive) (now : timeval) (wu : world * list positive) :
  world * list positive := (wu.1, id :: wu.2).

#[export] Instance log_callback_ok : callback_ok log_dispatch.
Proof. split; done. Qed.

Lemma demo_wf : wf demo_world.
Proof.
  apply init_wf; [done|unfold tv_ok; simpl; lia|simpl; lia|].
  intros id. destruct (decide (id = 1%positive)) as [->|Hne].
  - rewrite lookup_total_singleton_eq. split_and!; [done|done|unfold tv_ok; simpl; lia].
  - rewrite lookup_total_singleton_ne by done. split_and!; [done|done|unfold tv_ok; simpl; lia].
Qed.

Definition demo_armed : world := (ph_timerwheel_enable 1 demo_world).2.

Lemma demo_armed_wf : wf demo_armed.
Proof.
  unfold demo_armed. destruct (ph_timerwheel_enable 1 demo_world) as [res w'] eqn:E.
  by destruct (enable_spec _ _ _ _ _ demo_wf (not_elem_of_nil 1%positive) E).
Qed.

Lemma enable_schedules_witness :
  (ph_timerwheel_enable 1 demo_world).1 = PH_OK /\
  enable (timers demo_armed !!! 1%positive) = PH_TIMER_ENABLED /\
  duetick demo_armed 1 = 10700.
Proof.
  destruct (enable_schedules 1 [] demo_world (ph_timerwheel_enable 1 demo_world).1 demo_armed
              demo_wf ltac:(apply not_elem_of_nil) eq_refl) as (_ & _ & H1 & H2 & H3).
  split; [exact H1|]. split; [exact H2|]. rewrite H3. vm_compute. reflexivity.
Defined.

Lemma remove_unlinks_witness :
  (ph_timerwheel_remove 1 demo_armed).1 = PH_OK /\
  list_of (timers (ph_timerwheel_remove 1 demo_armed).2 !!! 1%positive) = None.
Proof.
  split; [vm_compute; reflexivity|].
  exact (proj1 (proj2 (proj2 (remove_unlinks 1 [] demo_armed PH_OK
    (ph_timerwheel_remove 1 demo_armed).2 demo_armed_wf
    (fun id Hid => False_ind _ (not_elem_of_nil id Hid)) eq_refl)))).
Defined.

Lemma tick_dispatches_due_witness :
  exists claimed w1 u1, NoDup claimed /\
    dispatch_loop log_dispatch claimed (Timeval 1001 0) 0 w1 u1 =
      ph_timerwheel_tick None log_dispatch (Timeval 1001 0) demo_armed [].
Proof.
  destruct (ph_timerwheel_tick None log_dispatch (Timeval 1001 0) demo_armed [])
    as [[k w'] u'] eqn:E.
  destruct (tick_dispatches_due None log_dispatch (Timeval 1001 0) demo_armed [] k w' u')
    as (c & w1 & u1 & H1 & _ & H2 & _).
  - exact demo_armed_wf.
  - vm_compute. reflexivity.
  - intros f w id tv u H. discriminate H.
  - apply Z.leb_le. vm_compute. reflexivity.
  - exact E.
  - exists c, w1, u1. split; [exact H1|exact H2].
Defined.


Lemma emitter_tick_terminates_witness :
  exists n w' u',
    ph_nbio_emitter_timer_tick None log_dispatch 1000 (Timeval 1080 0) demo_armed [] =
      Some (n, w', u') /\ wf w'.
Proof.
  destruct (emitter_tick_terminates None log_dispatch 1000 (Timeval 1080 0) demo_armed [])
    as (n & w' & u' & H1 & H2 & _).
  - exact demo_armed_wf.
  - split; vm_compute; split; congruence.
  - vm_compute. reflexivity.
  - apply Z.leb_le. vm_compute. reflexivity.
  - exists n, w', u'. split; [exact H1|exact H2].
Defined.

(** ** Two behaviours the header does not announce *)

(** A wheel whose tick is 999 ms; [next_run] is at tick 998 and the timer is
    due at tick 999. *)
Definition skip_world : world :=
  (ph_timerwheel_enable 1
    (World (Wheel (Timeval 998 1000) 999 ∅)
           {[ 1%positive := Timer None (Timeval 998 999500) PH_TIMER_DISABLED ]})).2.

(** A resolution that does not divide 1000 ms lets the tick number jump: the
    timer due at the skipped tick is not dispatched. *)
Theorem tick_can_be_skipped :
  nowtick skip_world = 998 /\ duetick skip_world 1 = 999 /\
  let '(w', log) := run_ticks None log_dispatch (replicate 2 (Timeval 2000 0)) skip_world [] in
  nowtick w' = 1001 /\ log = [] /\
  enable (timers w' !!! 1%positive) = PH_TIMER_ENABLED /\
  tval_to_tick 999 (tval_add_res 999 (next_run (wheel skip_world))) = 1000.
Proof. vm_compute. repeat split. Qed.

(** A timer that the callback refuses stays locked, and can be neither enabled,
    disabled nor removed, although the header says that it is deactivated. *)
Theorem refused_timer_stays_locked :
  let refuse := fun (_ : world) (_ : positive) (_ : timeval) (u : list positive) => (false, u) in
  let w := (ph_timerwheel_enable 1
    (World (ph_timerwheel_init (Timeval 1000 0) 100)
       {[ 1%positive := Timer None (Timeval 1000 100000) PH_TIMER_DISABLED ]})).2 in
  let '(ticked, w', _) := ph_timerwheel_tick (Some refuse) log_dispatch (Timeval 1001 0) w [] in
  ticked = 0 /\ enable (timers w' !!! 1%positive) = PH_TIMER_LOCKED /\
  (ph_timerwheel_enable 1 w').1 = PH_BUSY /\ (ph_timerwheel_disable 1 w').1 = PH_BUSY /\
  (ph_timerwheel_remove 1 w').1 = PH_NOENT.
Proof. vm_compute. repeat split. Qed.

End TimerWheelTick.
