(* ===== verification/HashTable.v ===== *)
(** * The hash table of corelib/hash/table.c

    Open addressing with linear probing over a power-of-two table.  A cell of
    the table holds a key and a value only while it is [TAKEN].  [K] and [V]
    are the [ksize]/[vsize] bytes stored per element; [W] is the rest of the
    program's state, which the callbacks of the key and value definitions and
    the allocator act on (reference counts, counters).  A pointer to an
    element is its index in the table. *)

From Stdlib Require Import ZArith Lia.
From stdpp Require Import base numbers list sorting.
From S2P Require Import Prelude SysUtil.

Module HashTable.

Section ht.
Context {K V W : Type}.

(** hashtable.h: the key and value definitions; [None] is a NULL callback.  A
    copy callback returns the copy, or [None] for false. *)
Record ph_ht_key_def := KeyDef {
  ksize : Z;
  hash_func : K -> Z;
  key_compare_func : option (K -> K -> Z);
  key_copy_func : option (K -> W -> option K * W);
  key_delete_func : option (K -> W -> W);
}.

Record ph_ht_val_def := ValDef {
  vsize : Z;
  val_copy_func : option (V -> W -> option V * W);
  val_delete_func : option (V -> W -> W);
}.

(** [struct ph_ht_elem]: the status, and the key and value when taken. *)
Inductive ph_ht_elem :=
  | ELEM_EMPTY
  | ELEM_TAKEN (key : K) (val : V)
  | ELEM_TOMBSTONE.

Record ph_ht_t := HT {
  nelems : Z;
  table_size : Z;
  elem_size : Z;
  mask : Z;
  kdef : ph_ht_key_def;
  vdef : ph_ht_val_def;
  table : list ph_ht_elem;
}.

Definition set_table (t : list ph_ht_elem) (n : Z) (ht : ph_ht_t) : ph_ht_t :=
  HT n (table_size ht) (elem_size ht) (mask ht) (kdef ht) (vdef ht) t.

(** [memcmp] on the stored bytes of two keys and the key of all-zero bytes;
    [ph_mem_alloc_size(mt_table, n)], whose block is zero-filled, and
    [ph_mem_free(mt_table, p)]. *)
Context (memcmp_key : K -> K -> Z) (zero_key : K).
Context (mem_alloc : Z -> W -> bool * W) (mem_free : W -> W).

Definition PH_HT_REPLACE : Z := 1.
Definition PH_HT_NO_REPLACE : Z := 0.
Definition PH_HT_CLAIM_KEY : Z := 2.
Definition PH_HT_COPY_KEY : Z := 0.
Definition PH_HT_CLAIM_VAL : Z := 4.
Definition PH_HT_COPY_VAL : Z := 0.
Definition PH_HT_CLAIM : Z := Z.lor PH_HT_CLAIM_KEY PH_HT_CLAIM_VAL.
Definition PH_HT_COPY : Z := Z.lor PH_HT_COPY_KEY PH_HT_COPY_VAL.

(** [flags & f] as a condition. *)
Definition flag (flags f : Z) : bool := negb (Z.land flags f =? 0).

(** sizeof(struct ph_ht_elem): the 32-bit status. *)
Definition sizeof_elem : Z := 4.

Definition ph_ht_init (size_hint : Z) (kd : ph_ht_key_def) (vd : ph_ht_val_def) (s : W) :
    ph_result_t * option ph_ht_t * W :=
  let size := ph_power_2 (u32 (size_hint * 2)) in
  let esize := u64 (sizeof_elem + ksize kd + vsize vd) in
  let '(ok, s) := mem_alloc (u64 (esize * size)) s in
  if ok then (PH_OK, Some (HT 0 size esize (u64 (size - 1)) kd vd
                                (replicate (Z.to_nat size) ELEM_EMPTY)), s)
  else (PH_NOMEM, None, s).

Definition key_compare (ht : ph_ht_t) (a b : K) : Z :=
  match key_compare_func (kdef ht) with
  | Some f => f a b
  | None => memcmp_key a b
  end.

Definition key_copy (ht : ph_ht_t) (src : K) (flags : Z) (s : W) : option K * W :=
  match key_copy_func (kdef ht) with
  | Some f => if Z.land flags PH_HT_CLAIM_KEY =? 0 then f src s else (Some src, s)
  | None => (Some src, s)
  end.

Definition val_copy (ht : ph_ht_t) (src : V) (flags : Z) (s : W) : option V * W :=
  match val_copy_func (vdef ht) with
  | Some f => if Z.land flags PH_HT_CLAIM_VAL =? 0 then f src s else (Some src, s)
  | None => (Some src, s)
  end.

Definition val_delete (ht : ph_ht_t) (v : V) (s : W) : W :=
  match val_delete_func (vdef ht) with Some f => f v s | None => s end.

Definition key_delete (ht : ph_ht_t) (k : K) (s : W) : W :=
  match key_delete_func (kdef ht) with Some f => f k s | None => s end.

(** [ph_ht_free_entries]: the loop over the elements. *)
Definition free_one (ht : ph_ht_t) (s : W) (e : ph_ht_elem) : W :=
  match e with
  | ELEM_EMPTY | ELEM_TOMBSTONE => s
  | ELEM_TAKEN k v => val_delete ht v (key_delete ht k s)
  end.

Definition ph_ht_free_entries (ht : ph_ht_t) (s : W) : ph_ht_t * W :=
  let s := foldl (free_one ht) s (table ht) in
  (set_table (map (fun _ => ELEM_EMPTY) (table ht)) 0 ht, s).

Definition ph_ht_destroy (ht : ph_ht_t) (s : W) : ph_ht_t * W :=
  let '(ht, s) := ph_ht_free_entries ht s in
  (set_table [] (nelems ht) ht, mem_free s).

(** The probe loop of [find_elem_slot]; [attempts] is what is left of the
    [table_size] it makes.  [None] is NULL. *)
Fixpoint find_elem_loop (ht : ph_ht_t) (key : K) (attempts : nat) (pos : Z)
    (tomb : option nat) : option nat :=
  match attempts with
  | O => None
  | S attempts =>
      let i := Z.to_nat (Z.land pos (mask ht)) in
      match table ht !! i with
      | None => None
      | Some ELEM_TOMBSTONE =>
          find_elem_loop ht key attempts (u32 (pos + 1))
            (match tomb with None => Some i | Some _ => tomb end)
      | Some ELEM_EMPTY => Some (default i tomb)
      | Some (ELEM_TAKEN k _) =>
          if key_compare ht key k =? 0 then Some i
          else find_elem_loop ht key attempts (u32 (pos + 1)) tomb
      end
  end.

Definition find_elem_slot (ht : ph_ht_t) (key : K) : option nat :=
  let pos := u32 (Z.land (hash_func (kdef ht) key) (mask ht)) in
  find_elem_loop ht key (Z.to_nat (table_size ht)) pos None.

(** [find_new_slot] loops until it meets an empty element; [fuel] bounds the
    probes, [None] means it went round the whole table. *)
Fixpoint find_new_loop (tbl : list ph_ht_elem) (mask : Z) (fuel : nat) (pos : Z) : option nat :=
  match fuel with
  | O => None
  | S fuel =>
      let i := Z.to_nat (Z.land pos mask) in
      match tbl !! i with
      | None => None
      | Some ELEM_EMPTY => Some i
      | Some _ => find_new_loop tbl mask fuel (u32 (pos + 1))
      end
  end.

Definition find_new_slot (ht : ph_ht_t) (tbl : list ph_ht_elem) (mask : Z) (key : K) : option nat :=
  find_new_loop tbl mask (length tbl) (u32 (Z.land (hash_func (kdef ht) key) mask)).

(** The copy loop of [rebuild_table], over what is left of the old table. *)
Fixpoint rebuild_loop (ht : ph_ht_t) (src tbl : list ph_ht_elem) (mask done : Z) :
    option (list ph_ht_elem) :=
  match src with
  | [] => Some tbl
  | e :: src =>
      if done <? nelems ht then
        match e with
        | ELEM_TAKEN k v =>
            match find_new_slot ht tbl mask k with
            | Some dest => rebuild_loop ht src (<[dest := e]> tbl) mask (u32 (done + 1))
            | None => None
            end
        | _ => rebuild_loop ht src tbl mask done
        end
      else Some tbl
  end.

(** [None] for a rebuild that does not terminate. *)
Definition rebuild_table (ht : ph_ht_t) (size : Z) (s : W) : option (bool * ph_ht_t * W) :=
  let mask := u32 (size - 1) in
  let '(ok, s) := mem_alloc (u64 (elem_size ht * size)) s in
  if ok then
    match rebuild_loop ht (table ht) (replicate (Z.to_nat size) ELEM_EMPTY) mask 0 with
    | Some tbl =>
        Some (true, HT (nelems ht) size (elem_size ht) mask (kdef ht) (vdef ht) tbl, mem_free s)
    | None => None
    end
  else Some (false, ht, s).

Definition ph_ht_grow (ht : ph_ht_t) (nelems : Z) (s : W) : option (bool * ph_ht_t * W) :=
  let size := ph_power_2 (u32 (nelems * 2)) in
  if size <=? table_size ht then Some (true, ht, s) else rebuild_table ht size s.

Definition elem_at (ht : ph_ht_t) (i : nat) : ph_ht_elem := default ELEM_EMPTY (table ht !! i).

Definition is_taken (e : ph_ht_elem) : bool :=
  match e with ELEM_TAKEN _ _ => true | _ => false end.

(** The part of [ph_ht_insert] after the slot is settled. *)
Definition insert_at (ht : ph_ht_t) (i : nat) (key : K) (value : V) (flags : Z) (s : W) :
    ph_result_t * ph_ht_t * W :=
  match elem_at ht i with
  | ELEM_TAKEN k v =>
      if Z.land flags PH_HT_REPLACE =? 0 then (PH_EXISTS, ht, s)
      else
        let s := val_delete ht v s in
        let '(copied, s) := val_copy ht value flags s in
        match copied with
        | None =>
            (PH_ERR, set_table (<[i := ELEM_TOMBSTONE]> (table ht)) (u32 (nelems ht - 1)) ht, s)
        | Some v' =>
            let s := if flag flags PH_HT_CLAIM_KEY then key_delete ht key s else s in
            (PH_OK, set_table (<[i := ELEM_TAKEN k v']> (table ht)) (nelems ht) ht, s)
        end
  | _ =>
      let '(kcopied, s) := key_copy ht key flags s in
      match kcopied with
      | None => (PH_ERR, ht, s)
      | Some k' =>
          let '(vcopied, s) := val_copy ht value flags s in
          match vcopied with
          | None =>
              (PH_ERR, ht, if flag flags PH_HT_COPY_KEY then key_delete ht k' s else s)
          | Some v' =>
              (PH_OK, set_table (<[i := ELEM_TAKEN k' v']> (table ht)) (u32 (nelems ht + 1)) ht, s)
          end
      end
  end.

(** [None] for a rebuild that does not terminate. *)
Definition ph_ht_insert (ht : ph_ht_t) (key : K) (value : V) (flags : Z) (s : W) :
    option (ph_result_t * ph_ht_t * W) :=
  let elem := find_elem_slot ht key in
  let full := match elem with
              | None => true
              | Some i => negb (is_taken (elem_at ht i)) &&
                          (Z.shiftr (table_size ht) 1 <? u32 (nelems ht + 1))
              end in
  if full then
    match rebuild_table ht (u32 (Z.shiftl (table_size ht) 1)) s with
    | None => None
    | Some (ok, ht, s) =>
        match (if ok then find_elem_slot ht key else elem) with
        | None => Some (PH_NOMEM, ht, s)
        | Some i => Some (insert_at ht i key value flags s)
        end
    end
  else
    match elem with
    | None => Some (PH_NOMEM, ht, s)
    | Some i => Some (insert_at ht i key value flags s)
    end.

Definition ph_ht_set ht key value s :=
  ph_ht_insert ht key value (Z.lor PH_HT_NO_REPLACE PH_HT_COPY) s.
Definition ph_ht_replace ht key value s :=
  ph_ht_insert ht key value (Z.lor PH_HT_REPLACE PH_HT_COPY) s.

Definition ph_ht_get (ht : ph_ht_t) (key : K) : option V :=
  match find_elem_slot ht key with
  | Some i => match elem_at ht i with ELEM_TAKEN _ v => Some v | _ => None end
  | None => None
  end.

Definition ph_ht_lookup (ht : ph_ht_t) (key : K) (copy : bool) (s : W) :
    ph_result_t * option V * W :=
  match find_elem_slot ht key with
  | Some i =>
      match elem_at ht i with
      | ELEM_TAKEN _ v =>
          let '(copied, s) := val_copy ht v (if copy then PH_HT_COPY_VAL else PH_HT_CLAIM_VAL) s in
          match copied with
          | Some v' => (PH_OK, Some v', s)
          | None => (PH_ERR, None, s)
          end
      | _ => (PH_NOENT, None, s)
      end
  | None => (PH_NOENT, None, s)
  end.

Definition ph_ht_del (ht : ph_ht_t) (key : K) (s : W) : ph_result_t * ph_ht_t * W :=
  match find_elem_slot ht key with
  | Some i =>
      match elem_at ht i with
      | ELEM_TAKEN k v =>
          let s := val_delete ht v (key_delete ht k s) in
          (PH_OK, set_table (<[i := ELEM_TOMBSTONE]> (table ht)) (u32 (nelems ht - 1)) ht, s)
      | _ => (PH_NOENT, ht, s)
      end
  | None => (PH_NOENT, ht, s)
  end.

Definition ph_ht_size (ht : ph_ht_t) : Z := nelems ht.

(** ** Iteration *)

Record ph_ht_iter_t := Iter { iter_slot : Z; iter_size : Z }.

(** The while loop of [ph_ht_iter_next] over the [n] elements from [slot] on:
    the next taken element and the slot after it. *)
Fixpoint iter_loop (ht : ph_ht_t) (n : nat) (slot : Z) : option (K * V) * Z :=
  match n with
  | O => (None, slot)
  | S n =>
      match elem_at ht (Z.to_nat slot) with
      | ELEM_TAKEN k v => (Some (k, v), u32 (slot + 1))
      | _ => iter_loop ht n (u32 (slot + 1))
      end
  end.

Definition ph_ht_iter_next (ht : ph_ht_t) (iter : ph_ht_iter_t) : option (K * V) * ph_ht_iter_t :=
  if negb (iter_size iter =? table_size ht) then (None, iter)
  else
    let '(r, slot) := iter_loop ht (Z.to_nat (table_size ht - iter_slot iter)) (iter_slot iter) in
    (r, Iter slot (iter_size iter)).

Definition ph_ht_iter_first (ht : ph_ht_t) : option (K * V) * ph_ht_iter_t :=
  ph_ht_iter_next ht (Iter 0 (u32 (table_size ht))).

(** The ordered iterator: the sorted array of keys, or NULL. *)
Record ph_ht_ordered_iter_t := OIter {
  oiter_slot : Z;
  oiter_size : Z;
  oiter_slots : option (list K);
}.

(** Collect the keys in their physical order, copying each; a copy callback
    that fails leaves the zeroes of the new block. *)
Fixpoint collect_keys (ht : ph_ht_t) (tbl : list ph_ht_elem) (s : W) : list K * W :=
  match tbl with
  | [] => ([], s)
  | ELEM_TAKEN k _ :: tbl =>
      let '(copied, s) := key_copy ht k PH_HT_COPY_KEY s in
      let '(ks, s) := collect_keys ht tbl s in
      (default zero_key copied :: ks, s)
  | _ :: tbl => collect_keys ht tbl s
  end.

(** [qsort] with [key_compare]: insertion into a sorted list, the order of
    keys that compare equal unspecified. *)
Fixpoint qsort_insert (cmp : K -> K -> Z) (k : K) (l : list K) : list K :=
  match l with
  | [] => [k]
  | x :: l => if cmp k x <=? 0 then k :: x :: l else x :: qsort_insert cmp k l
  end.
Definition qsort (cmp : K -> K -> Z) (l : list K) : list K :=
  foldr (qsort_insert cmp) [] l.

Definition ph_ht_ordered_iter_end (ht : ph_ht_t) (iter : ph_ht_ordered_iter_t) (s : W) :
    ph_ht_ordered_iter_t * W :=
  match oiter_slots iter with
  | None => (iter, s)
  | Some ks =>
      let s := foldl (fun s k => key_delete ht k s) s ks in
      (OIter (oiter_slot iter) (oiter_size iter) None, mem_free s)
  end.

(** [Panic] when the key definition has no comparison function, [Fault] when
    the keys do not fit the array. *)
Definition ph_ht_ordered_iter_first (ht : ph_ht_t) (s : W) :
    outcome (option (K * V) * ph_ht_ordered_iter_t * W) :=
  if nelems ht =? 0 then Ret (None, OIter 1 0 None, s)
  else
    match key_compare_func (kdef ht) with
    | None => Panic
    | Some cmp =>
        let '(ok, s) := mem_alloc (u32 (nelems ht * ksize (kdef ht))) s in
        if ok then
          let '(ks, s) := collect_keys ht (table ht) s in
          let ks := ks ++ replicate (Z.to_nat (nelems ht) - length ks) zero_key in
          let ks := qsort cmp ks in
          let iter := OIter 1 (nelems ht) (Some ks) in
          if nelems ht <? zlen ks then Fault
          else match ks with
          | [] => Fault
          | k :: _ =>
              match find_elem_slot ht k with
              | Some i =>
                  match elem_at ht i with
                  | ELEM_TAKEN k v => Ret (Some (k, v), iter, s)
                  | _ => let '(iter, s) := ph_ht_ordered_iter_end ht iter s in Ret (None, iter, s)
                  end
              | None => let '(iter, s) := ph_ht_ordered_iter_end ht iter s in Ret (None, iter, s)
              end
          end
        else Ret (None, OIter 1 (nelems ht) None, s)
    end.

Definition ph_ht_ordered_iter_next (ht : ph_ht_t) (iter : ph_ht_ordered_iter_t) :
    outcome (option (K * V) * ph_ht_ordered_iter_t) :=
  match oiter_slots iter with
  | None => Ret (None, iter)
  | Some ks =>
      if oiter_size iter <=? oiter_slot iter then Ret (None, iter)
      else
        match ks !! Z.to_nat (oiter_slot iter) with
        | None => Fault
        | Some k =>
            match find_elem_slot ht k with
            | Some i =>
                match elem_at ht i with
                | ELEM_TAKEN k v =>
                    Ret (Some (k, v), OIter (u32 (oiter_slot iter + 1)) (oiter_size iter) (oiter_slots iter))
                | _ => Ret (None, iter)
                end
            | None => Ret (None, iter)
            end
        end
  end.

End ht.

Arguments ph_ht_key_def : clear implicits.
Arguments ph_ht_val_def : clear implicits.
Arguments ph_ht_elem : clear implicits.
Arguments ph_ht_t : clear implicits.
Arguments ph_ht_ordered_iter_t : clear implicits.

End HashTable.
