(* ===== verification/HashTableProofs.v ===== *)
(** * The hash table implements a dictionary

    [key_laws] is what the table needs from a key definition; [wf] is the
    representation invariant (a power-of-two table, one element per key,
    every key reachable from its hash without crossing an empty cell, [nelems]
    counting the taken cells).  Every operation keeps [wf], and its effect on
    the table read as a dictionary ([dict]) is the expected one. *)

From Stdlib Require Import ZArith Lia.
From stdpp Require Import base numbers list sorting.
From S2P Require Import Prelude SysUtil HashTable.

Module HashTableProofs.
Export HashTable.

(** What a key definition promises to the table: its comparison is an
    equivalence that the 32-bit hash respects, and a copy of a key compares
    equal to the key. *)
Class key_laws {K W : Type} (memcmp_key : K -> K -> Z) (kd : ph_ht_key_def K W) := {
  cmp := fun a b => match key_compare_func kd with
                    | Some f => f a b
                    | None => memcmp_key a b
                    end;
  cmp_refl : forall a, cmp a a = 0;
  cmp_sym : forall a b, cmp a b = 0 -> cmp b a = 0;
  cmp_trans : forall a b c, cmp a b = 0 -> cmp b c = 0 -> cmp a c = 0;
  cmp_hash : forall a b, cmp a b = 0 -> hash_func kd a = hash_func kd b;
  hash_range : forall a, 0 <= hash_func kd a < 2 ^ 32;
  copy_cmp : forall f k s k' s',
    key_copy_func kd = Some f -> f k s = (Some k', s') -> cmp k k' = 0;
}.

Section proofs.
Context {K V W : Type} (memcmp_key : K -> K -> Z) (zero_key : K).
Context (mem_alloc : Z -> W -> bool * W) (mem_free : W -> W).
Context (kd : ph_ht_key_def K W) {L : key_laws memcmp_key kd}.

Implicit Types ht : ph_ht_t K V W.
Implicit Types tbl : list (ph_ht_elem K V).

Definition keq (a b : K) : bool := cmp a b =? 0.

#[local] Instance keq_equiv : Equivalence (fun a b : K => cmp a b = 0).
Proof.
  split; [exact cmp_refl | exact cmp_sym | exact cmp_trans].
Qed.

(** ** The contents of a table *)

Definition entry (e : ph_ht_elem K V) : option (K * V) :=
  match e with ELEM_TAKEN k v => Some (k, v) | _ => None end.
Definition entries tbl : list (K * V) := omap entry tbl.

Lemma elem_of_entries tbl k v :
  (k, v) ∈ entries tbl <-> exists i, tbl !! i = Some (ELEM_TAKEN k v).
Proof.
  unfold entries. rewrite list_elem_of_omap. split.
  - intros (e & He & Hkv). apply list_elem_of_lookup in He as [i Hi].
    destruct e; simplify_eq/=. eauto.
  - intros [i Hi]. exists (ELEM_TAKEN k v). split; [|done].
    by eapply list_elem_of_lookup_2.
Qed.

Lemma entries_length tbl : (length (entries tbl) <= length tbl)%nat.
Proof. induction tbl as [|[] tbl IH]; simpl in *; lia. Qed.

Lemma entries_full tbl :
  (forall i e, tbl !! i = Some e -> is_taken e = true) -> length (entries tbl) = length tbl.
Proof.
  induction tbl as [|e tbl IH]; intros H; [done|].
  pose proof (H 0%nat e eq_refl). destruct e; try done. simpl. f_equal.
  apply IH. intros i. apply (H (S i)).
Qed.

Lemma entries_app t1 t2 : entries (t1 ++ t2) = entries t1 ++ entries t2.
Proof. apply omap_app. Qed.

Lemma entries_insert_split tbl i e e0 :
  tbl !! i = Some e0 ->
  entries tbl = entries (take i tbl) ++ entries [e0] ++ entries (drop (S i) tbl) /\
  entries (<[i:=e]> tbl) = entries (take i tbl) ++ entries [e] ++ entries (drop (S i) tbl).
Proof.
  intros Hi. rewrite <- !entries_app. split.
  - f_equal. simpl. symmetry. by apply take_drop_middle.
  - f_equal. simpl. apply insert_take_drop. by eapply lookup_lt_Some.
Qed.

Lemma entries_insert_taken tbl i k v e0 :
  tbl !! i = Some e0 -> is_taken e0 = false ->
  entries (<[i:=ELEM_TAKEN k v]> tbl) ≡ₚ (k, v) :: entries tbl.
Proof.
  intros Hi He. destruct (entries_insert_split tbl i (ELEM_TAKEN k v) e0 Hi) as [-> ->].
  destruct e0; try done; simpl; by rewrite Permutation_middle.
Qed.

Lemma entries_insert_tomb tbl i k v :
  tbl !! i = Some (ELEM_TAKEN k v) ->
  entries tbl ≡ₚ (k, v) :: entries (<[i:=ELEM_TOMBSTONE]> tbl).
Proof.
  intros Hi. destruct (entries_insert_split tbl i ELEM_TOMBSTONE _ Hi) as [-> ->].
  simpl. by rewrite Permutation_middle.
Qed.

Lemma entries_empty n : entries (replicate n ELEM_EMPTY) = [].
Proof. induction n; [done|]. done. Qed.

(** The table as a dictionary: the value of the element whose key compares
    equal. *)
Definition dict_of (es : list (K * V)) (key : K) : option V :=
  snd <$> List.find (fun kv => keq key (fst kv)) es.
Definition dict ht (key : K) : option V := dict_of (entries (table ht)) key.

(** ** Probing *)

Definition probe (N h t : Z) : nat := Z.to_nat ((h + t) mod N).

Definition uniq tbl : Prop :=
  forall i j k v k' v', tbl !! i = Some (ELEM_TAKEN k v) -> tbl !! j = Some (ELEM_TAKEN k' v') ->
    cmp k k' = 0 -> i = j.

(** Cell [i] is met by the probes for hash [h], with no empty cell before. *)
Definition reaches (N : Z) tbl (h : Z) (i : nat) : Prop :=
  exists t, 0 <= t < N /\ probe N h t = i /\
    forall t', 0 <= t' < t -> tbl !! probe N h t' <> Some ELEM_EMPTY.

Record table_ok (N : Z) tbl : Prop := {
  ok_len : zlen tbl = N;
  ok_uniq : uniq tbl;
  ok_reach : forall i k v, tbl !! i = Some (ELEM_TAKEN k v) -> reaches N tbl (hash_func kd k) i;
}.

Record wf ht : Prop := {
  wf_kdef : kdef ht = kd;
  wf_size : exists k, 0 <= k <= 31 /\ table_size ht = 2 ^ k;
  wf_mask : mask ht = table_size ht - 1;
  wf_table : table_ok (table_size ht) (table ht);
  wf_nelems : nelems ht = zlen (entries (table ht));
}.

Lemma probe_lt N h t : 0 < N -> (probe N h t < Z.to_nat N)%nat.
Proof. intros. unfold probe. pose proof (Z.mod_pos_bound (h + t) N ltac:(lia)). lia. Qed.

Lemma probe_inj N h t t' :
  0 <= t < N -> 0 <= t' < N -> probe N h t = probe N h t' -> t = t'.
Proof.
  unfold probe. intros Ht Ht' H.
  pose proof (Z.mod_pos_bound (h + t) N ltac:(lia)). pose proof (Z.mod_pos_bound (h + t') N ltac:(lia)).
  apply Z2Nat.inj in H; [|lia..].
  assert ((t - t') mod N = 0) as Hd.
  { replace (t - t') with ((h + t) - (h + t')) by lia.
    rewrite Zminus_mod, H, Z.sub_diag. apply Z.mod_0_l. lia. }
  apply Z.mod_divide in Hd as [c Hc]; [|lia]. clear H H0 H1. assert (c = 0) as -> by nia. lia.
Qed.

Lemma probe_surj N h i : 0 < N -> (i < Z.to_nat N)%nat -> exists t, 0 <= t < N /\ probe N h t = i.
Proof.
  intros HN Hi. exists ((Z.of_nat i - h) mod N). split; [by apply Z.mod_pos_bound|].
  unfold probe. rewrite Zplus_mod_idemp_r. replace (h + (Z.of_nat i - h)) with (Z.of_nat i) by lia.
  rewrite Z.mod_small by lia. lia.
Qed.

(** The 32-bit position counter, masked, is the probe sequence. *)
Lemma pos_probe k h t :
  0 <= k <= 31 ->
  Z.to_nat (Z.land (u32 (u32 (Z.land h (2 ^ k - 1)) + t)) (2 ^ k - 1)) = probe (2 ^ k) h t.
Proof.
  intros Hk. unfold probe. f_equal.
  assert (0 < 2 ^ k) by (apply Z.pow_pos_nonneg; lia).
  assert (forall x, (x mod 2 ^ 32) mod 2 ^ k = x mod 2 ^ k) as Hmm.
  { intros x. rewrite <- Znumtheory.Zmod_div_mod; [done|lia|lia|].
    exists (2 ^ (32 - k)). rewrite <- Z.pow_add_r by lia. f_equal. lia. }
  rewrite !(land_mask _ k) by (done || lia). rewrite wrapU_add_l by lia.
  unfold wrapU. rewrite Hmm. apply Zplus_mod_idemp_l.
Qed.

Lemma pos_next x t : u32 (u32 (x + t) + 1) = u32 (x + (t + 1)).
Proof. rewrite wrapU_add_l by lia. f_equal. lia. Qed.

Lemma reaches_mono N tbl tbl' h i :
  (forall j, tbl' !! j = Some ELEM_EMPTY -> tbl !! j = Some ELEM_EMPTY) ->
  reaches N tbl h i -> reaches N tbl' h i.
Proof.
  intros Hm (t & Ht & Hp & Hne). exists t. split; [done|]. split; [done|].
  intros t' Ht' He. apply (Hne t' Ht'). by apply Hm.
Qed.

(** ** Looking up a key *)

Definition no_match tbl (key : K) : Prop :=
  forall i k v, tbl !! i = Some (ELEM_TAKEN k v) -> cmp key k <> 0.

Definition free_slot (N : Z) tbl (key : K) (i : nat) : Prop :=
  exists e, tbl !! i = Some e /\ is_taken e = false /\ reaches N tbl (hash_func kd key) i.

(** An element that matches the key is among the probes before the first
    empty cell. *)
Lemma no_match_upto N tbl key t :
  0 <= t <= N -> table_ok N tbl ->
  (forall t' k v, 0 <= t' < t -> tbl !! probe N (hash_func kd key) t' = Some (ELEM_TAKEN k v) ->
    cmp key k <> 0) ->
  t = N \/ tbl !! probe N (hash_func kd key) t = Some ELEM_EMPTY ->
  no_match tbl key.
Proof.
  intros Ht [_ _ Hr] Hno Hend i k v Hi Hc.
  destruct (Hr i k v Hi) as (t1 & Ht1 & Hp & Hne).
  rewrite <- (cmp_hash _ _ Hc) in Hp, Hne.
  destruct (decide (t1 < t)).
  - apply (Hno t1 k v); [lia| by rewrite Hp | done].
  - destruct Hend as [->|He]; [lia|].
    destruct (decide (t1 = t)) as [->|]; [congruence|].
    apply (Hne t); [lia|done].
Qed.

Definition found ht (key : K) (r : option nat) : Prop :=
  match r with
  | Some i =>
      (exists k v, table ht !! i = Some (ELEM_TAKEN k v) /\ cmp key k = 0) \/
      (no_match (table ht) key /\ free_slot (table_size ht) (table ht) key i)
  | None => no_match (table ht) key /\
      forall i, table ht !! i <> Some ELEM_EMPTY
  end.

Lemma table_lookup_some N tbl h t :
  0 < N -> zlen tbl = N -> exists e, tbl !! probe N h t = Some e.
Proof.
  intros HN Hl. apply lookup_lt_is_Some. pose proof (probe_lt N h t HN). lia.
Qed.

Lemma find_elem_loop_found ht key k :
  wf ht -> 0 <= k <= 31 -> table_size ht = 2 ^ k ->
  forall n t tomb,
    0 <= t -> Z.of_nat n + t = table_size ht ->
    (forall t' k v, 0 <= t' < t ->
      table ht !! probe (table_size ht) (hash_func kd key) t' = Some (ELEM_TAKEN k v) ->
      cmp key k <> 0) ->
    (forall t', 0 <= t' < t ->
      table ht !! probe (table_size ht) (hash_func kd key) t' <> Some ELEM_EMPTY) ->
    (forall i, tomb = Some i -> free_slot (table_size ht) (table ht) key i) ->
    found ht key
      (find_elem_loop memcmp_key ht key n
         (u32 (u32 (Z.land (hash_func kd key) (2 ^ k - 1)) + t)) tomb).
Proof.
  intros Hwf Hk Hsz. pose proof (wf_table _ Hwf) as Hok.
  assert (0 < 2 ^ k) by (apply Z.pow_pos_nonneg; lia).
  induction n as [|n IH]; intros t tomb Ht0 Hn Hno Hne Htomb.
  - simpl. split.
    + apply (no_match_upto (table_size ht) _ key t); [lia|done|done|left; lia].
    + intros i Hi. pose proof (lookup_lt_Some _ _ _ Hi). pose proof (ok_len _ _ Hok).
      destruct (probe_surj (table_size ht) (hash_func kd key) i) as (t1 & Ht1 & Hp); [lia|lia|].
      apply (Hne t1); [lia|]. by rewrite Hp.
  - cbn [find_elem_loop].
    rewrite (wf_mask _ Hwf), Hsz, pos_probe, pos_next, <- Hsz by lia.
    destruct (table_lookup_some (table_size ht) (table ht) (hash_func kd key) t)
      as [e He]; [lia|apply Hok|]. rewrite He.
    assert (Hstep : forall tomb', (forall k v, e = ELEM_TAKEN k v -> cmp key k <> 0) ->
      e <> ELEM_EMPTY ->
      (forall i, tomb' = Some i -> free_slot (table_size ht) (table ht) key i) ->
      found ht key (find_elem_loop memcmp_key ht key n
         (u32 (u32 (Z.land (hash_func kd key) (2 ^ k - 1)) + (t + 1))) tomb')).
    { intros tomb' Hek Hee Htomb'. apply IH; [lia|lia| | |done].
      - intros t' k' v' Ht' Hl. destruct (decide (t' = t)) as [->|].
        + rewrite He in Hl. injection Hl as ->. by eapply Hek.
        + apply (Hno t' k' v'); [lia|done].
      - intros t' Ht' Hl. destruct (decide (t' = t)) as [->|]; [congruence|].
        apply (Hne t'); [lia|done]. }
    assert (is_taken e = false ->
      free_slot (table_size ht) (table ht) key (probe (table_size ht) (hash_func kd key) t)) as Hfree.
    { intros Hf. exists e. split; [done|]. split; [done|]. exists t.
      split; [lia|]. split; [done|]. exact Hne. }
    rewrite Hsz in *. destruct e as [|k' v'|].
    + assert (no_match (table ht) key).
      { apply (no_match_upto (2 ^ k) _ key t); [lia|done|done|by right]. }
      right. split; [done|]. rewrite Hsz. destruct tomb as [i|]; simpl; auto.
    + unfold key_compare. rewrite (wf_kdef _ Hwf). fold (cmp key k'). case_bool; zbool.
      * left. exists k', v'. done.
      * apply Hstep; [congruence|done|done].
    + apply Hstep; [done|done|]. destruct tomb as [i|]; [done|].
      intros i [= <-]. by apply Hfree.
Qed.

Lemma wf_pos ht : wf ht -> 0 < table_size ht.
Proof. intros Hwf. destruct (wf_size _ Hwf) as (k & Hk & ->). apply Z.pow_pos_nonneg; lia. Qed.

Lemma find_elem_slot_found ht key :
  wf ht -> found ht key (find_elem_slot memcmp_key ht key).
Proof.
  intros Hwf. destruct (wf_size _ Hwf) as (k & Hk & Hsz).
  pose proof (wf_pos _ Hwf). unfold find_elem_slot.
  rewrite (wf_kdef _ Hwf), (wf_mask _ Hwf).
  replace (table_size ht - 1) with (2 ^ k - 1) by lia.
  replace (u32 (Z.land (hash_func kd key) (2 ^ k - 1)))
    with (u32 (u32 (Z.land (hash_func kd key) (2 ^ k - 1)) + 0)).
  2:{ by rewrite Z.add_0_r, wrapU_wrapU by lia. }
  apply find_elem_loop_found; [done|done|done|lia|lia| | |done]; intros; lia.
Qed.

(** ** Dictionaries *)

Lemma keq_true a b : keq a b = true <-> cmp a b = 0.
Proof. unfold keq. apply Z.eqb_eq. Qed.

Lemma dict_of_Some_in es key v :
  dict_of es key = Some v -> exists k, (k, v) ∈ es /\ cmp key k = 0.
Proof.
  unfold dict_of. intros H. apply fmap_Some in H as ([k v'] & Hf & ->).
  apply List.find_some in Hf as [Hin Hk]. exists k. split; [by apply list_elem_of_In|].
  by apply keq_true.
Qed.

Lemma dict_of_None es key :
  dict_of es key = None <-> forall k v, (k, v) ∈ es -> cmp key k <> 0.
Proof.
  unfold dict_of. rewrite fmap_None. split.
  - intros H k v Hin Hc. apply list_elem_of_In in Hin.
    pose proof (List.find_none _ _ H _ Hin) as Hf. simpl in Hf.
    apply keq_true in Hc. congruence.
  - intros H. destruct (List.find _ es) as [[k v]|] eqn:E; [|done].
    apply List.find_some in E as [Hin Hk]. apply list_elem_of_In in Hin.
    apply keq_true in Hk. by destruct (H k v Hin).
Qed.

Lemma no_match_dict ht key : no_match (table ht) key <-> dict ht key = None.
Proof.
  unfold dict. rewrite dict_of_None. unfold no_match. split.
  - intros H k v Hin. apply elem_of_entries in Hin as [i Hi]. eauto.
  - intros H i k v Hi. apply (H k v). apply elem_of_entries. eauto.
Qed.

Lemma dict_taken ht key i k v :
  uniq (table ht) -> table ht !! i = Some (ELEM_TAKEN k v) -> cmp key k = 0 ->
  dict ht key = Some v.
Proof.
  intros Hu Hi Hc. destruct (dict ht key) as [v'|] eqn:E.
  - apply dict_of_Some_in in E as (k' & Hin & Hc').
    apply elem_of_entries in Hin as [j Hj].
    assert (i = j) as -> by (eapply Hu; [exact Hi|exact Hj|];
      apply (cmp_trans _ key); [by apply cmp_sym|done]).
    congruence.
  - apply no_match_dict in E. by destruct (E i k v Hi).
Qed.

(** ** Updates of one cell *)

Lemma reaches_insert N tbl h i j e :
  e <> ELEM_EMPTY -> reaches N tbl h j -> reaches N (<[i:=e]> tbl) h j.
Proof.
  intros He. apply reaches_mono. intros j' Hj'.
  apply list_lookup_insert_Some in Hj' as [(_ & Heq & _)|[_ Hj']]; [by destruct He|done].
Qed.

Lemma table_ok_take N tbl i k v :
  table_ok N tbl -> no_match tbl k -> free_slot N tbl k i ->
  table_ok N (<[i := ELEM_TAKEN k v]> tbl).
Proof.
  intros [Hl Hu Hr] Hno (e & Hi & He & Hre). split.
  - by rewrite length_insert.
  - intros a b ka va kb vb Ha Hb Hc.
    apply list_lookup_insert_Some in Ha as [(<- & [= <- <-] & _)|[Hia Ha]];
      apply list_lookup_insert_Some in Hb as [(<- & [= <- <-] & _)|[Hib Hb]].
    + done.
    + by destruct (Hno b kb vb Hb).
    + destruct (Hno a ka va Ha). by apply cmp_sym.
    + by eapply Hu.
  - intros j kj vj Hj. apply reaches_insert; [done|].
    apply list_lookup_insert_Some in Hj as [(<- & [= <- <-] & _)|[Hij Hj]]; [done|].
    by eapply Hr.
Qed.

Lemma table_ok_tomb N tbl i :
  table_ok N tbl -> table_ok N (<[i := ELEM_TOMBSTONE]> tbl).
Proof.
  intros [Hl Hu Hr]. split.
  - by rewrite length_insert.
  - intros a b ka va kb vb Ha Hb Hc.
    apply list_lookup_insert_Some in Ha as [(_ & [=] & _)|[_ Ha]].
    apply list_lookup_insert_Some in Hb as [(_ & [=] & _)|[_ Hb]]. by eapply Hu.
  - intros j kj vj Hj. apply reaches_insert; [done|].
    apply list_lookup_insert_Some in Hj as [(_ & [=] & _)|[_ Hj]]. by eapply Hr.
Qed.

Lemma table_ok_empty N n : Z.of_nat n = N -> table_ok N (replicate n ELEM_EMPTY).
Proof.
  intros Hn. split.
  - by rewrite length_replicate.
  - intros i j k v k' v' Hi. by apply lookup_replicate in Hi as [? _].
  - intros i k v Hi. by apply lookup_replicate in Hi as [? _].
Qed.

(** Removing an element, seen from the dictionary. *)
Lemma no_match_tomb tbl i k v :
  uniq tbl -> tbl !! i = Some (ELEM_TAKEN k v) -> no_match (<[i := ELEM_TOMBSTONE]> tbl) k.
Proof.
  intros Hu Hi j k' v' Hj Hc.
  apply list_lookup_insert_Some in Hj as [(_ & [=] & _)|[Hij Hj]].
  apply Hij. by eapply Hu.
Qed.

(** Two tables with the same entries give the same dictionary, as long as
    the keys are distinct. *)
Lemma dict_perm ht ht' key :
  uniq (table ht) -> uniq (table ht') -> entries (table ht') ≡ₚ entries (table ht) ->
  dict ht' key = dict ht key.
Proof.
  intros Hu Hu' Hp. destruct (dict ht key) as [v|] eqn:E.
  - apply dict_of_Some_in in E as (k & Hin & Hc). rewrite <- Hp in Hin.
    apply elem_of_entries in Hin as [i Hi]. by eapply dict_taken.
  - unfold dict in *. rewrite dict_of_None in *. intros k v Hin. apply (E k v).
    by rewrite <- Hp.
Qed.

(** Adding an entry to a table. *)
Lemma dict_add ht ht' k v key :
  uniq (table ht) -> uniq (table ht') -> entries (table ht') ≡ₚ (k, v) :: entries (table ht) ->
  dict ht' key = if keq key k then Some v else dict ht key.
Proof.
  intros Hu Hu' Hp. destruct (keq key k) eqn:Ek.
  - apply keq_true in Ek. assert ((k, v) ∈ entries (table ht')) as Hin by (rewrite Hp; left).
    apply elem_of_entries in Hin as [i Hi]. by eapply dict_taken.
  - destruct (dict ht key) as [v'|] eqn:E.
    + apply dict_of_Some_in in E as (k' & Hin & Hc).
      assert ((k', v') ∈ entries (table ht')) as Hin' by (rewrite Hp; by right).
      apply elem_of_entries in Hin' as [i Hi]. by eapply dict_taken.
    + unfold dict in *. rewrite dict_of_None in *. intros k' v' Hin Hc.
      rewrite Hp in Hin. apply elem_of_cons in Hin as [[= -> ->]|Hin].
      * apply keq_true in Hc. congruence.
      * by apply (E k' v').
Qed.

Lemma keq_cong a b c : cmp a b = 0 -> keq c a = keq c b.
Proof.
  intros H. apply eq_true_iff_eq. rewrite !keq_true.
  split; intros Hc; (eapply cmp_trans; [exact Hc|]); [done|by apply cmp_sym].
Qed.

(** ** [ph_ht_get] *)

Lemma elem_at_lookup ht i e : table ht !! i = Some e -> elem_at ht i = e.
Proof. unfold elem_at. by intros ->. Qed.

(** The element [find_elem_slot] points at holds the dictionary's value. *)
Lemma find_elem_dict ht key :
  wf ht ->
  match find_elem_slot memcmp_key ht key with
  | Some i => match elem_at ht i with
              | ELEM_TAKEN k v => dict ht key = Some v /\ cmp key k = 0 /\
                                  table ht !! i = Some (ELEM_TAKEN k v)
              | _ => dict ht key = None /\ free_slot (table_size ht) (table ht) key i
              end
  | None => dict ht key = None /\ forall i, table ht !! i <> Some ELEM_EMPTY
  end.
Proof.
  intros Hwf. pose proof (find_elem_slot_found ht key Hwf) as H.
  destruct (find_elem_slot _ _ _) as [i|]; [|by destruct H as [?%no_match_dict ?]].
  destruct H as [(k & v & Hi & Hc)|(Hno & e & Hi & He & Hr)].
  - rewrite (elem_at_lookup _ _ _ Hi). split; [|done].
    eapply dict_taken; [apply Hwf|done|done].
  - rewrite (elem_at_lookup _ _ _ Hi). apply no_match_dict in Hno.
    destruct e; [|done|]; (split; [done|]; eexists; eauto).
Qed.

Lemma get_dict ht key : wf ht -> ph_ht_get memcmp_key ht key = dict ht key.
Proof.
  intros Hwf. pose proof (find_elem_dict ht key Hwf) as H. unfold ph_ht_get.
  destruct (find_elem_slot _ _ _) as [i|]; [|by destruct H as [-> _]].
  destruct (elem_at ht i); by destruct H as [-> _].
Qed.

(** Probing for a key in a well-formed table finds exactly the value the
    abstract dictionary gives it, tombstones included. *)
Theorem ht_get_dict ht key : wf ht -> ph_ht_get memcmp_key ht key = dict ht key.
Proof. apply get_dict. Qed.

(** ** Rebuilding *)

Lemma find_new_loop_spec k tbl h t0 :
  0 <= k <= 31 -> zlen tbl = 2 ^ k -> 0 <= t0 < 2 ^ k ->
  tbl !! probe (2 ^ k) h t0 = Some ELEM_EMPTY ->
  forall n t, 0 <= t -> Z.of_nat n + t = 2 ^ k ->
    (forall t', 0 <= t' < t -> tbl !! probe (2 ^ k) h t' <> Some ELEM_EMPTY) ->
    exists i, find_new_loop tbl (2 ^ k - 1) n (u32 (u32 (Z.land h (2 ^ k - 1)) + t)) = Some i /\
      tbl !! i = Some ELEM_EMPTY /\ reaches (2 ^ k) tbl h i.
Proof.
  intros Hk Hl Ht0 He0. induction n as [|n IH]; intros t Ht Hn Hne.
  { destruct (Hne t0); [lia|done]. }
  cbn [find_new_loop]. rewrite pos_probe, pos_next by lia.
  destruct (table_lookup_some (2 ^ k) tbl h t) as [e He]; [lia|done|]. rewrite He.
  assert (e = ELEM_EMPTY \/ e <> ELEM_EMPTY) as [->|Hee] by (destruct e; auto).
  - exists (probe (2 ^ k) h t). split; [done|]. split; [done|]. exists t. split; [lia|done].
  - assert (exists i,
      find_new_loop tbl (2 ^ k - 1) n (u32 (u32 (Z.land h (2 ^ k - 1)) + (t + 1))) = Some i /\
      tbl !! i = Some ELEM_EMPTY /\ reaches (2 ^ k) tbl h i) as Hex.
    { apply IH; [lia|lia|]. intros t' Ht'. destruct (decide (t' = t)) as [->|]; [congruence|].
      apply Hne. lia. }
    by destruct e.
Qed.

Definition no_tomb tbl : Prop := forall i, tbl !! i <> Some ELEM_TOMBSTONE.

Lemma find_new_slot_spec ht k tbl key :
  kdef ht = kd -> 0 <= k <= 31 -> zlen tbl = 2 ^ k -> no_tomb tbl ->
  (length (entries tbl) < length tbl)%nat ->
  exists i, find_new_slot ht tbl (2 ^ k - 1) key = Some i /\
    tbl !! i = Some ELEM_EMPTY /\ reaches (2 ^ k) tbl (hash_func kd key) i.
Proof.
  intros Hkd Hk Hl Hnt Hroom. unfold find_new_slot. rewrite Hkd.
  assert (0 < 2 ^ k) by (apply Z.pow_pos_nonneg; lia).
  assert (exists i, tbl !! i = Some ELEM_EMPTY) as [i Hi].
  { destruct (decide (Forall (fun e => is_taken e = true) tbl)) as [Hf|Hf].
    - rewrite entries_full in Hroom; [lia|]. by rewrite Forall_lookup in Hf.
    - apply not_Forall_Exists, Exists_exists in Hf as (e & Hin & He); [|apply _].
      apply list_elem_of_lookup in Hin as [i Hi]. exists i.
      destruct e; [done| by destruct He | by destruct (Hnt i)]. }
  pose proof (lookup_lt_Some _ _ _ Hi).
  destruct (probe_surj (2 ^ k) (hash_func kd key) i) as (t0 & Ht0 & Hp); [lia|lia|].
  rewrite <- Hp in Hi.
  destruct (find_new_loop_spec k tbl (hash_func kd key) t0 Hk Hl Ht0 Hi (length tbl) 0)
    as (j & Hj & ?); [lia|lia|intros; lia|].
  exists j. split; [|done]. rewrite Z.add_0_r, wrapU_wrapU in Hj by lia. done.
Qed.

(** The copy loop, from element [j] of the old table on: [tbl] holds exactly
    the entries of the first [j] elements. *)
Lemma rebuild_loop_spec ht k :
  wf ht -> 0 <= k <= 31 -> table_size ht < 2 ^ k ->
  forall src j tbl,
    src = drop j (table ht) -> table_ok (2 ^ k) tbl -> no_tomb tbl ->
    entries tbl ≡ₚ entries (take j (table ht)) ->
    exists tbl', rebuild_loop ht src tbl (2 ^ k - 1) (zlen (entries tbl)) = Some tbl' /\
      table_ok (2 ^ k) tbl' /\ no_tomb tbl' /\ entries tbl' ≡ₚ entries (table ht).
Proof.
  intros Hwf Hk Hsz. pose proof (wf_pos _ Hwf). pose proof (wf_table _ Hwf) as Hok.
  pose proof (wf_nelems _ Hwf) as Hn. pose proof (entries_length (table ht)) as Hel.
  pose proof (ok_len _ _ Hok) as Hlen.
  assert (2 ^ k <= 2 ^ 31) by (apply Z.pow_le_mono_r; lia).
  induction src as [|e src IH]; intros j tbl Hsrc Htbl Hnt Hperm.
  - exists tbl. split; [done|]. split; [done|]. split; [done|]. rewrite Hperm.
    rewrite take_ge; [done|]. apply (f_equal length) in Hsrc. rewrite length_drop in Hsrc.
    simpl in Hsrc. lia.
  - assert (table ht !! j = Some e) as Hj.
    { rewrite <- (Nat.add_0_r j), <- lookup_drop, <- Hsrc. done. }
    assert (src = drop (S j) (table ht)) as Hsrc'.
    { apply drop_S in Hj. rewrite <- Hsrc in Hj. by injection Hj. }
    assert (entries (take (S j) (table ht)) = entries (take j (table ht)) ++ entries [e]) as Htake.
    { rewrite <- entries_app. f_equal. by apply take_S_r. }
    assert (entries (table ht) = entries (take j (table ht)) ++ entries (e :: src)) as Hall.
    { rewrite Hsrc, <- entries_app, take_drop. done. }
    cbn [rebuild_loop]. case_bool; zbool.
    + destruct e as [|k' v'|].
      1,3: apply (IH (S j)); [done..|]; by rewrite Htake, app_nil_r.
      assert (length (entries tbl) < length tbl)%nat as Hroom.
      { pose proof (ok_len _ _ Htbl). lia. }
      destruct (find_new_slot_spec ht k tbl k' (wf_kdef _ Hwf) Hk (ok_len _ _ Htbl) Hnt Hroom)
        as (i & -> & Hi & Hre).
      assert (entries (<[i := ELEM_TAKEN k' v']> tbl) ≡ₚ (k', v') :: entries tbl) as Hins.
      { by eapply entries_insert_taken. }
      replace (u32 (zlen (entries tbl) + 1))
        with (zlen (entries (<[i := ELEM_TAKEN k' v']> tbl))).
      2:{ rewrite Hins. simpl. rewrite wrapU_small; lia. }
      apply (IH (S j)); [done| | |].
      * apply table_ok_take; [done| |by eexists].
        intros a ka va Ha Hc.
        assert ((ka, va) ∈ entries (take j (table ht))) as Hin.
        { rewrite <- Hperm. apply elem_of_entries. eauto. }
        apply elem_of_entries in Hin as [b Hb].
        apply lookup_take_Some in Hb as [Hb Hlt].
        assert (b = j); [|lia]. eapply (ok_uniq _ _ Hok); [exact Hb|exact Hj|by apply cmp_sym].
      * intros a Ha. apply list_lookup_insert_Some in Ha as [(_ & [=] & _)|[_ Ha]].
        by apply (Hnt a).
      * rewrite Hins, Htake, Hperm. simpl. by rewrite Permutation_app_comm.
    + exists tbl. split; [done|]. split; [done|]. split; [done|].
      rewrite Hn, Hperm, Hall in E. rewrite length_app in E.
      assert (entries (e :: src) = []) as Hnil by (apply nil_length_inv; lia).
      by rewrite Hall, Hnil, app_nil_r, Hperm.
Qed.

(** What a rebuild leaves unchanged. *)
Definition same_entries ht ht' : Prop :=
  entries (table ht') ≡ₚ entries (table ht) /\ nelems ht' = nelems ht /\ vdef ht' = vdef ht.

Lemma rebuild_table_spec ht k s :
  wf ht -> 0 <= k <= 31 -> table_size ht < 2 ^ k ->
  exists ok ht' s', rebuild_table mem_alloc mem_free ht (2 ^ k) s = Some (ok, ht', s') /\
    wf ht' /\ same_entries ht ht' /\ ok = fst (mem_alloc (u64 (elem_size ht * 2 ^ k)) s) /\
    if ok then table_size ht' = 2 ^ k /\ no_tomb (table ht') else ht' = ht.
Proof.
  intros Hwf Hk Hsz. unfold rebuild_table.
  assert (0 < 2 ^ k) by (apply Z.pow_pos_nonneg; lia).
  assert (2 ^ k <= 2 ^ 31) by (apply Z.pow_le_mono_r; lia).
  destruct (mem_alloc _ s) as [ok s'] eqn:Ea.
  destruct ok; [|by exists false, ht, s'].
  rewrite (wrapU_small 32) by lia.
  destruct (rebuild_loop_spec ht k Hwf Hk Hsz (table ht) 0
              (replicate (Z.to_nat (2 ^ k)) ELEM_EMPTY)) as (tbl' & Hl & Hok & Hnt & Hp).
  { done. }
  { apply table_ok_empty. lia. }
  { intros i Hi. by apply lookup_replicate in Hi as [? _]. }
  { by rewrite entries_empty. }
  rewrite entries_empty in Hl. cbn [length] in Hl. change (Z.of_nat 0) with 0 in Hl. rewrite Hl.
  do 3 eexists. split; [done|]. split_and!; [|by split_and!|done|done|done].
  split; simpl; [apply Hwf|by exists k|done|done|]. rewrite Hp. apply Hwf.
Qed.

Lemma same_entries_dict ht ht' key :
  wf ht -> wf ht' -> same_entries ht ht' -> dict ht' key = dict ht key.
Proof. intros Hwf Hwf' [Hp _]. apply dict_perm; [apply Hwf|apply Hwf'|done]. Qed.

(** Growing a table terminates, keeps every entry and the size, and on success
    leaves room for the number of elements asked for. *)
Theorem ht_grow_keeps ht n s :
  wf ht -> 0 <= n < 2 ^ 30 ->
  exists ok ht' s', ph_ht_grow mem_alloc mem_free ht n s = Some (ok, ht', s') /\ wf ht' /\
    ph_ht_size ht' = ph_ht_size ht /\
    (forall key, ph_ht_get memcmp_key ht' key = ph_ht_get memcmp_key ht key) /\
    (ok = true -> 2 * n < table_size ht').
Proof.
  intros Hwf Hn. unfold ph_ht_grow. rewrite (wrapU_small 32) by lia.
  destruct (ph_power_2_above (n * 2)) as [Hab (k & Hk & Hpk)]; [lia|].
  case_bool; zbool.
  { exists true, ht, s. split_and!; try done. intros _. lia. }
  rewrite Hpk in *.
  destruct (rebuild_table_spec ht k s) as (ok & ht' & s' & Hr & Hwf' & Hse & _ & Hsz); [done..|].
  exists ok, ht', s'. split_and!; [done|done|by destruct Hse as (_ & ? & _)| |].
  - intros key. rewrite !get_dict by done. by apply same_entries_dict.
  - intros ->. destruct Hsz. lia.
Qed.

(** ** Insertion *)

(** [v] is what [val_copy] stores for [value] under [flags]. *)
Definition stored ht (value : V) (flags : Z) (v : V) : Prop :=
  exists s1 s2, val_copy ht value flags s1 = (Some v, s2).

(** What each result of [ph_ht_insert] means for the dictionary. *)
Definition insert_post ht (key : K) (value : V) (flags : Z) (r : ph_result_t) ht' : Prop :=
  match r with
  | PH_OK => exists v, stored ht value flags v /\
      (forall key', dict ht' key' = if keq key' key then Some v else dict ht key') /\
      ph_ht_size ht' = ph_ht_size ht + (if dict ht key then 0 else 1) /\
      (dict ht key <> None -> Z.land flags PH_HT_REPLACE <> 0)
  | PH_EXISTS => dict ht key <> None /\ Z.land flags PH_HT_REPLACE = 0 /\ ht' = ht
  | PH_NOMEM => dict ht key = None /\ ht' = ht /\ forall i, table ht !! i <> Some ELEM_EMPTY
  | PH_ERR =>
      (forall key', dict ht' key' = if keq key' key then None else dict ht key') /\
      ph_ht_size ht' = ph_ht_size ht - (if dict ht key then 1 else 0)
  | _ => False
  end.

Lemma wf_set_table ht tbl n :
  wf ht -> table_ok (table_size ht) tbl -> n = zlen (entries tbl) -> wf (set_table tbl n ht).
Proof. intros [] ? ?. by split. Qed.

Lemma wf_nelems_bound ht : wf ht -> 0 <= nelems ht <= table_size ht /\ table_size ht <= 2 ^ 31.
Proof.
  intros Hwf. rewrite (wf_nelems _ Hwf). pose proof (entries_length (table ht)).
  pose proof (ok_len _ _ (wf_table _ Hwf)). split; [lia|].
  destruct (wf_size _ Hwf) as (k & Hk & ->). apply Z.pow_le_mono_r; lia.
Qed.

(** Turning a taken element into a tombstone. *)
Lemma tomb_spec ht i k v :
  wf ht -> table ht !! i = Some (ELEM_TAKEN k v) ->
  let ht' := set_table (<[i := ELEM_TOMBSTONE]> (table ht)) (u32 (nelems ht - 1)) ht in
  wf ht' /\ nelems ht' = nelems ht - 1 /\
  forall key, dict ht' key = if keq key k then None else dict ht key.
Proof.
  intros Hwf Hi ht'. pose proof (wf_nelems_bound _ Hwf).
  pose proof (entries_insert_tomb _ _ _ _ Hi) as Hp.
  pose proof (wf_nelems _ Hwf) as Hn. rewrite Hp in Hn. simpl in Hn.
  assert (u32 (nelems ht - 1) = nelems ht - 1) as Hw by (apply wrapU_small; lia).
  assert (wf ht') as Hwf'.
  { apply wf_set_table; [done|apply table_ok_tomb, Hwf|]. rewrite Hw. lia. }
  split; [done|]. split; [done|]. intros key.
  pose proof (dict_add ht' ht k v key) as Hadd.
  specialize (Hadd (ok_uniq _ _ (wf_table _ Hwf')) (ok_uniq _ _ (wf_table _ Hwf)) Hp).
  destruct (keq key k) eqn:Ek; [|done].
  apply no_match_dict. intros j k' v' Hj Hc.
  apply (no_match_tomb _ _ _ _ (ok_uniq _ _ (wf_table _ Hwf)) Hi j k' v' Hj).
  apply (cmp_trans _ key); [apply cmp_sym; by apply keq_true|done].
Qed.

(** Removing an absent key changes nothing. *)
Lemma dict_absent ht key key' :
  dict ht key = None -> dict ht key' = if keq key' key then None else dict ht key'.
Proof.
  intros Hd. destruct (keq key' key) eqn:E; [|done].
  apply no_match_dict; apply no_match_dict in Hd.
  intros j kj vj Hj Hcj; apply (Hd j kj vj Hj).
  apply (cmp_trans _ key'); [apply cmp_sym; by apply keq_true|done].
Qed.

Definition slot_for ht (key : K) (i : nat) : Prop :=
  match elem_at ht i with
  | ELEM_TAKEN k v => dict ht key = Some v /\ cmp key k = 0 /\
                      table ht !! i = Some (ELEM_TAKEN k v)
  | _ => dict ht key = None /\ free_slot (table_size ht) (table ht) key i
  end.

Lemma key_copy_cmp ht k flags s k' s' :
  wf ht -> key_copy ht k flags s = (Some k', s') -> cmp k k' = 0.
Proof.
  intros Hwf. unfold key_copy. rewrite (wf_kdef _ Hwf).
  destruct (key_copy_func kd) as [f|] eqn:Ef; [case_bool|]; intros H; simplify_eq;
    first [apply cmp_refl | by eapply copy_cmp].
Qed.

(** A new element in a free cell. *)
Lemma take_free_spec ht key k' v i :
  wf ht -> dict ht key = None -> free_slot (table_size ht) (table ht) key i -> cmp key k' = 0 ->
  let ht' := set_table (<[i := ELEM_TAKEN k' v]> (table ht)) (u32 (nelems ht + 1)) ht in
  wf ht' /\ nelems ht' = nelems ht + 1 /\
  forall key', dict ht' key' = if keq key' key then Some v else dict ht key'.
Proof.
  intros Hwf Hd Hfree Hc ht'. pose proof (wf_nelems_bound _ Hwf).
  apply no_match_dict in Hd.
  assert (no_match (table ht) k') as Hno.
  { intros j kj vj Hj Hcj. apply (Hd j kj vj Hj). by apply (cmp_trans _ k'). }
  destruct Hfree as (e & Hi & He & Hre). rewrite (cmp_hash _ _ Hc) in Hre.
  pose proof (entries_insert_taken _ _ k' v _ Hi He) as Hp.
  assert (u32 (nelems ht + 1) = nelems ht + 1) as Hw by (apply wrapU_small; lia).
  assert (wf ht') as Hwf'.
  { apply wf_set_table; [done| |].
    - apply table_ok_take; [apply Hwf|done|by exists e].
    - rewrite Hp, Hw, (wf_nelems _ Hwf). simpl. lia. }
  split; [done|]. split; [done|]. intros key'.
  rewrite (keq_cong _ _ _ Hc). apply (dict_add ht ht' k' v key'); [apply Hwf|apply Hwf'|done].
Qed.

(** A new value in a taken element. *)
Lemma retake_spec ht k v v' i :
  wf ht -> table ht !! i = Some (ELEM_TAKEN k v) ->
  let ht' := set_table (<[i := ELEM_TAKEN k v']> (table ht)) (nelems ht) ht in
  wf ht' /\ forall key, dict ht' key = if keq key k then Some v' else dict ht key.
Proof.
  intros Hwf Hi ht'.
  destruct (tomb_spec ht i k v Hwf Hi) as (Hwf1 & Hn1 & Hd1).
  set (ht1 := set_table (<[i := ELEM_TOMBSTONE]> (table ht)) (u32 (nelems ht - 1)) ht) in *.
  pose proof (lookup_lt_Some _ _ _ Hi).
  assert (table ht1 !! i = Some ELEM_TOMBSTONE) as Hi1 by (by apply list_lookup_insert_eq).
  destruct (take_free_spec ht1 k k v' i Hwf1) as (Hwf2 & Hn2 & Hd2).
  { rewrite Hd1. by rewrite (proj2 (keq_true k k) (cmp_refl k)). }
  { exists ELEM_TOMBSTONE. split; [done|]. split; [done|].
    apply reaches_insert; [done|]. by eapply ok_reach; [apply Hwf|]. }
  { apply cmp_refl. }
  assert (ht' = set_table (<[i := ELEM_TAKEN k v']> (table ht1)) (u32 (nelems ht1 + 1)) ht1) as ->.
  { unfold ht', set_table. simpl in *. rewrite list_insert_insert_eq, Hn2. f_equal. lia. }
  split; [done|]. intros key. rewrite Hd2, Hd1. by destruct (keq key k).
Qed.

Lemma insert_at_post ht key value flags i s :
  wf ht -> slot_for ht key i ->
  exists r ht' s', insert_at ht i key value flags s = (r, ht', s') /\ wf ht' /\
    r <> PH_NOMEM /\ insert_post ht key value flags r ht'.
Proof.
  intros Hwf Hslot. unfold slot_for in Hslot. unfold insert_at.
  destruct (elem_at ht i) as [|k v|] eqn:Ei.
  2:{ destruct Hslot as (Hd & Hc & Hi).
      case_bool; zbool.
      { exists PH_EXISTS, ht, s. split; [done|]. split; [done|]. split; [done|].
        simpl. by rewrite Hd. }
      destruct (val_copy _ _ _ _) as [[v'|] s1] eqn:Ev.
      - destruct (retake_spec ht k v v' i Hwf Hi) as [Hwf' Hd'].
        do 3 eexists. split; [done|]. split; [done|]. split; [done|].
        exists v'. rewrite Hd. split_and!; [by do 2 eexists| |unfold ph_ht_size; simpl; lia|done].
        intros key'. by rewrite Hd', (keq_cong _ _ _ Hc).
      - destruct (tomb_spec ht i k v Hwf Hi) as (Hwf' & Hn' & Hd').
        do 3 eexists. split; [done|]. split; [done|]. split; [done|].
        simpl. rewrite Hd. split; [|done].
        intros key'. by rewrite Hd', (keq_cong _ _ _ Hc). }
  all: destruct Hslot as (Hd & Hfree);
    destruct (key_copy _ _ _ _) as [[k'|] s1] eqn:Ek;
    [destruct (val_copy _ _ _ _) as [[v'|] s2] eqn:Ev|].
  all: try (do 3 eexists; split; [done|]; split; [done|]; split; [done|];
    simpl; unfold ph_ht_size; rewrite Hd; split; [|lia]; intros key';
    by apply dict_absent).
  all: destruct (take_free_spec ht key k' v' i Hwf Hd Hfree (key_copy_cmp _ _ _ _ _ _ Hwf Ek))
         as (Hwf' & Hn' & Hd'); do 3 eexists; split; [done|]; split; [done|]; split; [done|];
       exists v'; rewrite Hd; split_and!; [by do 2 eexists|done|done|done].
Qed.

(** An insertion in [ht1] after a rebuild of [ht], seen from [ht]. *)
Lemma insert_post_same ht ht1 key value flags r ht' :
  wf ht -> wf ht1 -> same_entries ht ht1 -> dict ht key = None -> r <> PH_NOMEM ->
  insert_post ht1 key value flags r ht' -> insert_post ht key value flags r ht'.
Proof.
  intros Hwf Hwf1 Hse Hd Hr. pose proof (fun k => same_entries_dict ht ht1 k Hwf Hwf1 Hse) as Hdd.
  destruct Hse as (_ & Hn & Hv). destruct r; simpl; rewrite ?Hdd; try done.
  - unfold stored, val_copy, ph_ht_size. rewrite Hv, Hn.
    intros (v & Hst & Hd' & Hrest). exists v. split; [done|]. split; [|done].
    intros key'. by rewrite Hd', Hdd.
  - unfold ph_ht_size. rewrite Hn. intros [Hd' Hs]. split; [|done].
    intros key'. by rewrite Hd', Hdd.
  - by intros [? _].
Qed.

(** The state after the allocations of a rebuild. *)
Definition after_alloc (s s1 : W) : Prop :=
  s1 = s \/ exists n, s1 = snd (mem_alloc n s) \/ s1 = mem_free (snd (mem_alloc n s)).

Lemma rebuild_state ht size s ok ht' s' :
  rebuild_table mem_alloc mem_free ht size s = Some (ok, ht', s') -> after_alloc s s'.
Proof.
  unfold rebuild_table, after_alloc. intros H. right. exists (u64 (elem_size ht * size)).
  destruct (mem_alloc _ s) as [[|] s1]; [destruct (rebuild_loop _ _ _ _ _); [|done]|];
    injection H as <- <- <-; auto.
Qed.

Lemma rebuild_failed ht size s ht' s' :
  rebuild_table mem_alloc mem_free ht size s = Some (false, ht', s') -> exists n, (mem_alloc n s).1 = false.
Proof.
  unfold rebuild_table. intros H. exists (u64 (elem_size ht * size)).
  destruct (mem_alloc _ s) as [[|] s1]; [destruct (rebuild_loop _ _ _ _ _); [|done]|]; by simplify_eq.
Qed.

(** A rebuilt table has a free cell for the key. *)
Lemma rebuilt_slot ht ht1 k key :
  wf ht -> wf ht1 -> same_entries ht ht1 -> table_size ht = 2 ^ k -> 0 <= k ->
  table_size ht1 = 2 ^ (k + 1) -> no_tomb (table ht1) ->
  exists i, find_elem_slot memcmp_key ht1 key = Some i /\ slot_for ht1 key i.
Proof.
  intros Hwf Hwf1 Hse Hpk Hk Hs1 Hnt. pose proof (wf_nelems_bound _ Hwf) as Hnb.
  pose proof (find_elem_dict ht1 key Hwf1) as Hf1. destruct (find_elem_slot memcmp_key ht1 key) as [i|]; [by exists i|].
  destruct Hf1 as [_ Hne]. exfalso.
  assert (length (entries (table ht1)) = length (table ht1)) as Hfull.
  { apply entries_full. intros i e Hi. destruct e; [by destruct (Hne i)|done|by destruct (Hnt i)]. }
  pose proof (ok_len _ _ (wf_table _ Hwf1)). destruct Hse as (_ & Hn & _).
  rewrite (wf_nelems _ Hwf1) in Hn. rewrite Hs1, Z.pow_add_r, <- Hpk in * by lia.
  pose proof (wf_pos _ Hwf). lia.
Qed.

(** The first part of [ph_ht_insert]: the table, perhaps rebuilt, and the slot
    for the key. *)
Lemma insert_slot ht key value flags s :
  wf ht -> table_size ht < 2 ^ 31 ->
  exists ht1 s1 slot,
    ph_ht_insert memcmp_key mem_alloc mem_free ht key value flags s =
      Some (match slot with None => (PH_NOMEM, ht1, s1) | Some i => insert_at ht1 i key value flags s1 end) /\
    wf ht1 /\ same_entries ht ht1 /\ after_alloc s s1 /\ (ht1 = ht \/ dict ht key = None) /\
    (no_tomb (table ht) -> no_tomb (table ht1) /\ table_size ht1 <= Z.max (table_size ht) (4 * nelems ht + 4)) /\
    match slot with
    | None => ht1 = ht /\ dict ht key = None /\ (forall i, table ht !! i <> Some ELEM_EMPTY) /\
              exists n, (mem_alloc n s).1 = false
    | Some i => slot_for ht1 key i
    end.
Proof.
  intros Hwf Hsz. pose proof (wf_nelems_bound _ Hwf) as Hnb. pose proof (find_elem_dict ht key Hwf) as Hf.
  assert (same_entries ht ht) as Hrefl by done.
  unfold ph_ht_insert. destruct (match find_elem_slot _ _ _ with None => true | _ => _ end) eqn:Efull.
  2:{ destruct (find_elem_slot _ _ _) as [i|]; [|done].
      exists ht, s, (Some i). split_and!; auto; [by left|]. intros Ht. split; [done|lia]. }
  assert (dict ht key = None) as Hd.
  { destruct (find_elem_slot _ _ _) as [i|]; [|by destruct Hf].
    destruct (elem_at ht i); [by destruct Hf|done|by destruct Hf]. }
  destruct (wf_size _ Hwf) as (k & Hk & Hpk).
  assert (k < 31) by (apply (Z.pow_lt_mono_r_iff 2); lia).
  assert (u32 (Z.shiftl (table_size ht) 1) = 2 ^ (k + 1)) as Hsh.
  { rewrite Z.shiftl_mul_pow2, Hpk, <- Z.pow_add_r by lia. apply wrapU_small.
    split; [apply Z.pow_nonneg; lia|apply Z.pow_lt_mono_r; lia]. }
  rewrite Hsh.
  destruct (rebuild_table_spec ht (k + 1) s Hwf) as (ok & ht1 & s1 & Hre & Hwf1 & Hse & _ & Hok);
    [lia|rewrite Hpk; apply Z.pow_lt_mono_r; lia|].
  pose proof (rebuild_state _ _ _ _ _ _ Hre) as Hst. rewrite Hre. destruct ok.
  - destruct Hok as [Hs1 Hnt]. destruct (rebuilt_slot ht ht1 k key) as (i & -> & Hi); [done..|lia|done|done|].
    exists ht1, s1, (Some i). split_and!; auto. intros Ht. split; [done|].
    rewrite Hs1, Z.pow_add_r, <- Hpk by lia. change (2 ^ 1) with 2.
    assert (table_size ht <= 2 * nelems ht + 1); [|lia].
    destruct (find_elem_slot _ ht _) as [j|].
    + apply andb_true_iff in Efull as [_ Efull]. zbool. rewrite (wrapU_small 32) in Efull by lia.
      rewrite Z.shiftr_div_pow2 in Efull by lia. change (2 ^ 1) with 2 in Efull.
      pose proof (Z.div_mod (table_size ht) 2 ltac:(lia)). pose proof (Z.mod_pos_bound (table_size ht) 2 ltac:(lia)). lia.
    + destruct Hf as [_ Hne]. rewrite (wf_nelems _ Hwf). pose proof (ok_len _ _ (wf_table _ Hwf)) as Hl.
      rewrite entries_full; [lia|]. intros j e Hj. destruct e; [by destruct (Hne j)|done|by destruct (Ht j)].
  - subst ht1. pose proof (rebuild_failed _ _ _ _ _ Hre). exists ht, s1, (find_elem_slot memcmp_key ht key).
    destruct (find_elem_slot _ _ _) as [i|]; split_and!; auto; try (intros Ht; split; [done|lia]); by destruct Hf.
Qed.

Lemma insert_ok ht key value flags s :
  wf ht -> table_size ht < 2 ^ 31 ->
  exists r ht' s', ph_ht_insert memcmp_key mem_alloc mem_free ht key value flags s = Some (r, ht', s') /\
    wf ht' /\ insert_post ht key value flags r ht'.
Proof.
  intros Hwf Hsz. destruct (insert_slot ht key value flags s Hwf Hsz)
    as (ht1 & s1 & slot & -> & Hwf1 & Hse & _ & Hsame & _ & Hslot).
  destruct slot as [i|].
  - destruct (insert_at_post ht1 key value flags i s1 Hwf1 Hslot) as (r & ht' & s' & -> & Hwf' & Hr & Hp).
    do 3 eexists. split; [done|]. split; [done|].
    destruct Hsame as [->|Hd]; [done|]. by apply (insert_post_same ht ht1).
  - destruct Hslot as (-> & Hd & Hne & _). by exists PH_NOMEM, ht, s1.
Qed.

(** C30. Inserting into a well-formed table terminates, keeps it well formed and
    implements insertion into a dictionary on every branch: refusal of an
    existing key without the replace flag, replacement, a failed copy, growth,
    and running out of memory. *)
Theorem ht_insert_spec ht key value flags s :
  wf ht -> table_size ht < 2 ^ 31 ->
  exists r ht' s', ph_ht_insert memcmp_key mem_alloc mem_free ht key value flags s = Some (r, ht', s') /\
    wf ht' /\ insert_post ht key value flags r ht'.
Proof. apply insert_ok. Qed.

(** Deleting a key removes it and only it from the dictionary, reports whether
    it was there, counts it, and keeps the table well formed. *)
Theorem ht_del_spec ht key s :
  wf ht ->
  let '(r, ht', s') := ph_ht_del memcmp_key ht key s in
  wf ht' /\ r = (if dict ht key then PH_OK else PH_NOENT) /\
  ph_ht_size ht' = ph_ht_size ht - (if dict ht key then 1 else 0) /\
  forall key', dict ht' key' = if keq key' key then None else dict ht key'.
Proof.
  intros Hwf. pose proof (find_elem_dict ht key Hwf) as Hf. unfold ph_ht_del.
  assert (dict ht key = None -> wf ht /\ PH_NOENT = PH_NOENT /\
    ph_ht_size ht = ph_ht_size ht - 0 /\
    forall key', dict ht key' = if keq key' key then None else dict ht key') as Habsent.
  { intros Hd. split_and!; [done|done|unfold ph_ht_size; lia|]. intros key'.
    by apply dict_absent. }
  destruct (find_elem_slot _ _ _) as [i|]; [|destruct Hf as [Hd _]; rewrite Hd; auto].
  destruct (elem_at ht i) as [|k v|]; [destruct Hf as [Hd _]; rewrite Hd; auto| |destruct Hf as [Hd _]; rewrite Hd; auto].
  destruct Hf as (-> & Hc & Hi). destruct (tomb_spec ht i k v Hwf Hi) as (Hwf' & Hn & Hd).
  split_and!; [done|done|done|]. intros key'. by rewrite Hd, (keq_cong _ _ _ Hc).
Qed.

(** ** Creation and mass removal *)

Lemma wf_empty_dict ht : entries (table ht) = [] -> forall key, dict ht key = None.
Proof. unfold dict. by intros ->. Qed.

(** A new table is empty and well formed with room for the size hint, or the
    allocation failed. *)
Theorem ht_init_spec n vd s :
  0 <= n < 2 ^ 30 ->
  match ph_ht_init mem_alloc n kd vd s with
  | (PH_OK, Some ht, _) =>
      wf ht /\ vdef ht = vd /\ 2 * n < table_size ht <= 4 * Z.max 1 n /\ ph_ht_size ht = 0 /\
      forall key, dict ht key = None
  | (PH_NOMEM, None, _) =>
      fst (mem_alloc (u64 (u64 (sizeof_elem + ksize kd + vsize vd) * ph_power_2 (2 * n))) s) = false
  | _ => False
  end.
Proof.
  intros Hn. unfold ph_ht_init. rewrite (wrapU_small 32), (Z.mul_comm n 2) by lia.
  destruct (ph_power_2_above (2 * n)) as [Hab (k & Hk & Hpk)]; [lia|].
  destruct (mem_alloc _ s) as [[] s'] eqn:Ea; [|done]. rewrite Hpk in *.
  assert (0 < 2 ^ k <= 2 ^ 31) by (split; [apply Z.pow_pos_nonneg|apply Z.pow_le_mono_r]; lia).
  split_and!; [|done|simpl; lia|simpl; lia|done|apply wf_empty_dict, entries_empty].
  split; simpl; [done|by exists k| |apply table_ok_empty; lia|by rewrite entries_empty].
  apply wrapU_small. lia.
Qed.

Lemma free_one_foldl ht tbl s :
  foldl (free_one ht) s tbl =
  foldl (fun s kv => val_delete ht (snd kv) (key_delete ht (fst kv) s)) s (entries tbl).
Proof. revert s. induction tbl as [|[] tbl IH]; intros s; simpl; auto. Qed.

(** Freeing the entries empties the table and calls the key and value
    destructors once for every entry. *)
Theorem ht_free_entries_spec ht s :
  wf ht ->
  let '(ht', s') := ph_ht_free_entries ht s in
  wf ht' /\ ph_ht_size ht' = 0 /\ (forall key, dict ht' key = None) /\
  s' = foldl (fun s kv => val_delete ht (snd kv) (key_delete ht (fst kv) s)) s
         (entries (table ht)).
Proof.
  intros Hwf. unfold ph_ht_free_entries.
  assert (map (fun _ : ph_ht_elem K V => ELEM_EMPTY) (table ht) =
          replicate (length (table ht)) (@ELEM_EMPTY K V)) as ->.
  { induction (table ht); [done|]. simpl. by f_equal. }
  split_and!; [|done|apply wf_empty_dict, entries_empty|apply free_one_foldl].
  apply wf_set_table; [done|apply table_ok_empty, Hwf|by rewrite entries_empty].
Qed.

(** ** Iteration *)

(** All that [p] and the calls of [ph_ht_iter_next] after it yield, up to the
    first false return or [n] further calls. *)
Fixpoint iter_drain ht (n : nat) (p : option (K * V) * ph_ht_iter_t) : list (K * V) :=
  match p with
  | (None, _) => []
  | (Some kv, it) =>
      kv :: match n with O => [] | S n => iter_drain ht n (ph_ht_iter_next ht it) end
  end.

Lemma iter_loop_spec ht :
  table_size ht <= 2 ^ 31 -> zlen (table ht) = table_size ht ->
  forall n slot, 0 <= slot -> Z.of_nat n + slot = table_size ht ->
    match iter_loop ht n slot with
    | (None, _) => entries (drop (Z.to_nat slot) (table ht)) = []
    | (Some kv, slot') => slot < slot' <= table_size ht /\
        entries (drop (Z.to_nat slot) (table ht)) =
        kv :: entries (drop (Z.to_nat slot') (table ht))
    end.
Proof.
  intros Hb Hl. induction n as [|n IH]; intros slot Hs Hn; cbn [iter_loop].
  { rewrite drop_ge by lia. done. }
  rewrite (wrapU_small 32) by lia. unfold elem_at.
  destruct (lookup_lt_is_Some_2 (table ht) (Z.to_nat slot)) as [e He]; [lia|].
  rewrite He, (drop_S _ _ _ He). simpl default.
  replace (S (Z.to_nat slot)) with (Z.to_nat (slot + 1)) by lia.
  specialize (IH (slot + 1) ltac:(lia) ltac:(lia)).
  destruct e as [|k v|]; [|split; [lia|done]|];
    (destruct (iter_loop ht n (slot + 1)) as [[kv|] slot']; [|done];
     destruct IH as [? IH]; split; [lia|exact IH]).
Qed.

Lemma iter_drain_next ht n slot :
  wf ht -> 0 <= slot <= table_size ht ->
  (length (entries (drop (Z.to_nat slot) (table ht))) <= S n)%nat ->
  iter_drain ht n (ph_ht_iter_next ht (Iter slot (table_size ht))) =
  entries (drop (Z.to_nat slot) (table ht)).
Proof.
  intros Hwf. pose proof (wf_nelems_bound _ Hwf) as Hb.
  revert slot. induction n as [|n IH]; intros slot Hs Hlen.
  all: unfold ph_ht_iter_next; cbn [iter_size iter_slot]; rewrite Z.eqb_refl; cbn [negb].
  all: pose proof (iter_loop_spec ht ltac:(lia) (ok_len _ _ (wf_table _ Hwf))
         (Z.to_nat (table_size ht - slot)) slot ltac:(lia) ltac:(lia)) as Hl;
       destruct (iter_loop _ _ _) as [[kv|] slot']; [|by rewrite Hl];
       destruct Hl as [Hs' Hl]; rewrite Hl in *; cbn [length] in Hlen; cbn [iter_drain]; f_equal.
  - symmetry. apply nil_length_inv. lia.
  - apply IH; lia.
Qed.

Lemma iter_first_drain ht n :
  wf ht -> ph_ht_size ht <= Z.of_nat n ->
  iter_drain ht n (ph_ht_iter_first ht) = entries (table ht).
Proof.
  intros Hwf Hn. unfold ph_ht_iter_first. pose proof (wf_nelems_bound _ Hwf).
  unfold ph_ht_size in Hn. rewrite (wf_nelems _ Hwf) in Hn.
  rewrite (wrapU_small 32) by lia. rewrite iter_drain_next; [done|done|lia|].
  rewrite drop_0. lia.
Qed.

(** The plain iteration visits every entry exactly once, in the order of the
    slots. *)
Theorem ht_iter_all ht n :
  wf ht -> ph_ht_size ht <= Z.of_nat n ->
  iter_drain ht n (ph_ht_iter_first ht) = entries (table ht).
Proof. apply iter_first_drain. Qed.

(** ** Ordered iteration *)

Fixpoint oiter_drain ht (n : nat) (it : ph_ht_ordered_iter_t K) : outcome (list (K * V)) :=
  match n with
  | O => Ret []
  | S n =>
      match ph_ht_ordered_iter_next memcmp_key ht it with
      | Ret (None, _) => Ret []
      | Ret (Some kv, it) =>
          match oiter_drain ht n it with Ret l => Ret (kv :: l) | Panic => Panic | Fault => Fault end
      | Panic => Panic
      | Fault => Fault
      end
  end.

Section ordered.
Context (f : K -> K -> Z) (Hf : key_compare_func kd = Some f).
Context (f_total : forall a b, f a b <= 0 \/ f b a <= 0).
Context (f_trans : forall a b c, f a b <= 0 -> f b c <= 0 -> f a c <= 0).

Lemma cmp_f a b : cmp a b = f a b.
Proof. unfold cmp. by rewrite Hf. Qed.

Lemma qsort_insert_perm k l : qsort_insert f k l ≡ₚ k :: l.
Proof.
  induction l as [|x l IH]; simpl; [done|]. case_bool; [done|].
  rewrite IH. apply Permutation_swap.
Qed.

Lemma qsort_perm l : qsort f l ≡ₚ l.
Proof. induction l as [|k l IH]; simpl; [done|]. by rewrite qsort_insert_perm, IH. Qed.

Lemma qsort_sorted l : StronglySorted (fun a b => f a b <= 0) (qsort f l).
Proof.
  induction l as [|k l IH]; simpl; [constructor|]. revert IH. generalize (qsort f l) as l'.
  induction l' as [|x l' IH']; intros H; simpl; [repeat constructor|].
  apply StronglySorted_inv in H as [Hs Hall]. case_bool; zbool.
  - constructor; [by constructor|]. constructor; [done|].
    eapply Forall_impl; [exact Hall|]. simpl. intros y Hy. by apply (f_trans _ x).
  - constructor; [by apply IH'|]. rewrite qsort_insert_perm. constructor; [|done].
    destruct (f_total k x); [lia|done].
Qed.

(** [e] is the element for the copied key [k']. *)
Definition copy_of (k' : K) (e : K * V) : Prop := cmp k' (fst e) = 0.

Lemma collect_keys_copies ht tbl s :
  wf ht -> (forall k s, fst (key_copy ht k PH_HT_COPY_KEY s) <> None) ->
  Forall2 copy_of (fst (collect_keys zero_key ht tbl s)) (entries tbl).
Proof.
  intros Hwf Hcopy. revert s. induction tbl as [|[|k v|] tbl IH]; intros s;
    cbn [collect_keys]; [constructor|apply IH| |apply IH].
  destruct (key_copy ht k PH_HT_COPY_KEY s) as [[k'|] s1] eqn:Ek.
  - specialize (IH s1). destruct (collect_keys zero_key ht tbl s1) as [ks s2]. simpl in *.
    constructor; [|done]. apply cmp_sym. by eapply key_copy_cmp.
  - destruct (Hcopy k s). by rewrite Ek.
Qed.

Lemma sorted_copies ks es :
  Forall2 copy_of ks es -> StronglySorted (fun a b => f a b <= 0) ks ->
  StronglySorted (fun a b => f (fst a) (fst b) <= 0) es.
Proof.
  induction 1 as [|k e ks es Hke Hall IH]; intros Hs; [constructor|].
  apply StronglySorted_inv in Hs as [Hs Hk]. constructor; [by apply IH|].
  apply Forall_lookup. pose proof (proj1 (Forall_lookup _ _) Hk) as Hk2. intros i e' He'.
  destruct (Forall2_lookup_r _ _ _ _ _ Hall He') as (k' & Hk' & Hke').
  specialize (Hk2 i k' Hk'). unfold copy_of in Hke, Hke'. apply cmp_sym in Hke.
  rewrite cmp_f in Hke, Hke'. cbv beta in Hk2.
  apply (f_trans _ k); [lia|]. apply (f_trans _ k'); lia.
Qed.

Lemma find_copy ht k e :
  wf ht -> copy_of k e -> e ∈ entries (table ht) ->
  exists i, find_elem_slot memcmp_key ht k = Some i /\ elem_at ht i = ELEM_TAKEN (fst e) (snd e).
Proof.
  intros Hwf Hc Hin. destruct e as [ke v]. apply elem_of_entries in Hin as [i Hi]. simpl.
  unfold copy_of in Hc. simpl in Hc.
  pose proof (find_elem_slot_found ht k Hwf) as H.
  destruct (find_elem_slot _ _ _) as [j|] eqn:Ej.
  - exists j. split; [done|]. destruct H as [(k' & v' & Hj & Hc')|[Hno _]].
    + assert (i = j) as ->; [|by apply elem_at_lookup].
      eapply (ok_uniq _ _ (wf_table _ Hwf)); [exact Hi|exact Hj|].
      apply (cmp_trans _ k); [by apply cmp_sym|done].
    + by destruct (Hno i ke v Hi).
  - destruct H as [Hno _]. by destruct (Hno i ke v Hi).
Qed.

(** A step of the iterator: the copies [ks] stand for the entries
    [es0 ++ e :: es], of which [es0] have been visited. *)
Lemma oiter_next_some ht ks es0 e es :
  wf ht -> (length ks < Z.to_nat (2 ^ 32))%nat -> Forall2 copy_of ks (es0 ++ e :: es) -> e ∈ entries (table ht) ->
  ph_ht_ordered_iter_next memcmp_key ht (OIter (zlen es0) (zlen ks) (Some ks)) =
    Ret (Some e, OIter (zlen (es0 ++ [e])) (zlen ks) (Some ks)).
Proof.
  intros Hwf Hlen Hall Hin. pose proof (Forall2_length _ _ _ Hall) as Hl. rewrite length_app in Hl. simpl in Hl.
  unfold ph_ht_ordered_iter_next. cbn [oiter_slots oiter_size oiter_slot].
  rewrite (proj2 (Z.leb_gt _ _)) by lia. rewrite Nat2Z.id.
  assert ((es0 ++ e :: es) !! length es0 = Some e) as Hmid by (by apply list_lookup_middle).
  destruct (Forall2_lookup_r _ _ _ _ _ Hall Hmid) as (k & Hk & Hke). rewrite Hk.
  destruct (find_copy ht k e Hwf Hke Hin) as (i & -> & ->). rewrite (wrapU_small 32) by lia.
  replace (zlen es0 + 1) with (zlen (es0 ++ [e])) by (rewrite length_app; simpl; lia). by destruct e.
Qed.

Lemma oiter_next_none ht ks es :
  Forall2 copy_of ks es ->
  ph_ht_ordered_iter_next memcmp_key ht (OIter (zlen es) (zlen ks) (Some ks)) = Ret (None, OIter (zlen es) (zlen ks) (Some ks)).
Proof.
  intros Hall. pose proof (Forall2_length _ _ _ Hall) as Hl. unfold ph_ht_ordered_iter_next.
  cbn [oiter_slots oiter_size oiter_slot]. by rewrite (proj2 (Z.leb_le _ _)) by lia.
Qed.

Lemma oiter_drain_spec ht ks :
  wf ht -> (length ks < Z.to_nat (2 ^ 32))%nat ->
  forall es es0, Forall2 copy_of ks (es0 ++ es) -> (forall e, e ∈ es -> e ∈ entries (table ht)) ->
    oiter_drain ht (length es) (OIter (zlen es0) (zlen ks) (Some ks)) = Ret es.
Proof.
  intros Hwf Hlen. induction es as [|e es IH]; intros es0 Hall Hin; [done|].
  cbn [oiter_drain length]. rewrite (oiter_next_some ht ks es0 e es Hwf Hlen Hall) by (apply Hin; by left).
  rewrite (IH (es0 ++ [e])); [done|by rewrite <- app_assoc|]. intros e' He'. apply Hin. by right.
Qed.

(** The start of the iteration: the sorted copies [ks] of the keys and the
    entries [e :: es] they stand for. *)
Lemma ordered_first_ok ht s :
  wf ht -> 0 < ph_ht_size ht ->
  (forall k s, fst (key_copy ht k PH_HT_COPY_KEY s) <> None) ->
  fst (mem_alloc (u32 (nelems ht * ksize kd)) s) = true ->
  exists e es ks ks0 s',
    collect_keys zero_key ht (table ht) (snd (mem_alloc (u32 (nelems ht * ksize kd)) s)) = (ks0, s') /\
    ph_ht_ordered_iter_first memcmp_key zero_key mem_alloc mem_free ht s =
      Ret (Some e, OIter (zlen [e]) (zlen ks) (Some ks), s') /\
    ks ≡ₚ ks0 /\ (length ks < Z.to_nat (2 ^ 32))%nat /\ zlen ks = nelems ht /\
    Forall2 copy_of ks ([e] ++ es) /\ e :: es ≡ₚ entries (table ht) /\
    StronglySorted (fun a b => f (fst a) (fst b) <= 0) (e :: es).
Proof.
  intros Hwf Hn Hcopy Hal. unfold ph_ht_size in *. unfold ph_ht_ordered_iter_first.
  pose proof (wf_nelems_bound _ Hwf) as Hb. rewrite (proj2 (Z.eqb_neq _ _)) by lia.
  rewrite (wf_kdef _ Hwf), Hf. destruct (mem_alloc _ s) as [ok s1]. simpl in Hal. subst ok. cbn [snd].
  pose proof (collect_keys_copies ht (table ht) s1 Hwf Hcopy) as Hall.
  destruct (collect_keys _ _ _ _) as [ks s2]. simpl in Hall.
  pose proof (Forall2_length _ _ _ Hall) as Hlen. pose proof (wf_nelems _ Hwf) as Hne.
  replace (Z.to_nat (nelems ht) - length ks)%nat with 0%nat by lia.
  simpl replicate. rewrite app_nil_r.
  destruct (Permutation_Forall2 (symmetry (qsort_perm ks)) Hall) as (es & Hp & Hall').
  pose proof (sorted_copies _ _ Hall' (qsort_sorted ks)) as Hsort. pose proof (qsort_perm ks) as Hkp.
  pose proof (Forall2_length _ _ _ Hall') as Hlen'. pose proof (Permutation_length Hp) as Hlp.
  rewrite (proj2 (Z.ltb_ge _ _)) by lia.
  destruct (qsort f ks) as [|k0 ks'] eqn:Eq; [simpl in *; lia|].
  destruct es as [|e es]; [simpl in *; lia|].
  inversion Hall' as [|? ? ? ? Hk0 Hks']; subst.
  destruct (find_copy ht k0 e Hwf Hk0) as (i & -> & ->); [rewrite Hp; by left|].
  exists e, es, (k0 :: ks'), ks, s2. split_and!; try done.
  - destruct e. do 3 f_equal. cbn [length] in *. f_equal. lia.
  - simpl in *. lia.
  - simpl in *. lia.
Qed.

(** The ordered iteration visits every entry exactly once, in the order of the
    key comparison. *)
Theorem ht_ordered_iter_sorted ht s :
  wf ht -> 0 < ph_ht_size ht ->
  (forall k s, fst (key_copy ht k PH_HT_COPY_KEY s) <> None) ->
  fst (mem_alloc (u32 (nelems ht * ksize kd)) s) = true ->
  exists kv it s' rest,
    ph_ht_ordered_iter_first memcmp_key zero_key mem_alloc mem_free ht s = Ret (Some kv, it, s') /\
    oiter_drain ht (Z.to_nat (ph_ht_size ht) - 1) it = Ret rest /\
    kv :: rest ≡ₚ entries (table ht) /\
    StronglySorted (fun a b => f (fst a) (fst b) <= 0) (kv :: rest).
Proof.
  intros Hwf Hn Hcopy Hal.
  destruct (ordered_first_ok ht s Hwf Hn Hcopy Hal) as (e & es & ks & ks0 & s' & _ & E & _ & Hlen & Hne & Hall & Hp & Hs).
  do 3 eexists. exists es. split_and!; [exact E| |done|done]. unfold ph_ht_size. rewrite <- Hne.
  pose proof (Forall2_length _ _ _ Hall) as Hl. rewrite length_app in Hl. cbn in Hl.
  replace (Z.to_nat (zlen ks) - 1)%nat with (length es) by lia.
  apply oiter_drain_spec; [done|done|done|]. intros x Hx. rewrite <- Hp. by right.
Qed.

End ordered.

End proofs.

(** ** A concrete table

    Integer keys that hash to themselves and integer values; the state [W]
    counts the copies of keys that are alive.  Values above 100 cannot be
    copied. *)

Definition demo_memcmp (a b : Z) : Z := a - b.
Definition demo_kdef : ph_ht_key_def Z Z :=
  KeyDef 4 u32 (Some demo_memcmp) (Some (fun k s => (Some k, s + 1))) (Some (fun _ s => s - 1)).
Definition demo_vdef : ph_ht_val_def Z Z :=
  ValDef 4 (Some (fun v s => (if v <=? 100 then Some v else None, s))) None.
Definition demo_alloc (n : Z) (s : Z) : bool * Z := (true, s).
Definition demo_free (s : Z) : Z := s.

#[export] Instance demo_laws : key_laws demo_memcmp demo_kdef.
Proof.
  split; cbn [key_compare_func hash_func key_copy_func demo_kdef]; unfold demo_memcmp.
  - lia.
  - lia.
  - lia.
  - intros a b H. by replace a with b by lia.
  - intros a. by apply wrapU_bound.
  - intros f k s k' s' [= <-] [= -> _]. lia.
Qed.

Abbreviation demo_set t n ht := (@set_table Z Z Z t n ht).
Definition demo0 : ph_ht_t Z Z Z :=
  HT 0 4 12 3 demo_kdef demo_vdef (replicate 4 ELEM_EMPTY).
Definition demo1 := demo_set (<[1%nat := ELEM_TAKEN 5 50]> (table demo0)) (u32 (nelems demo0 + 1)) demo0.
Definition demo2 := demo_set (<[2%nat := ELEM_TAKEN 9 90]> (table demo1)) (u32 (nelems demo1 + 1)) demo1.

Lemma demo0_wf : wf demo_memcmp demo_kdef demo0.
Proof.
  split; [done|by exists 2|done| |done]. by apply (table_ok_empty demo_memcmp demo_kdef 4 4).
Qed.

Lemma demo1_wf : wf demo_memcmp demo_kdef demo1.
Proof.
  apply (take_free_spec demo_memcmp demo_kdef demo0 5 5 50 1); [apply demo0_wf|done| |done].
  exists ELEM_EMPTY. split; [done|]. split; [done|]. exists 0. split; [done|].
  split; [done|]. intros t' Ht'. lia.
Qed.

Lemma demo2_wf : wf demo_memcmp demo_kdef demo2.
Proof.
  apply (take_free_spec demo_memcmp demo_kdef demo1 9 9 90 2); [apply demo1_wf|done| |done].
  exists ELEM_EMPTY. split; [done|]. split; [done|]. exists 1. split; [done|].
  split; [done|]. intros t' Ht'. by replace t' with 0 by lia.
Qed.

Lemma ht_get_dict_witness :
  ph_ht_get demo_memcmp demo2 9 = Some 90 /\ dict demo_memcmp demo_kdef demo2 9 = Some 90.
Proof.
  pose proof (ht_get_dict demo_memcmp demo_kdef demo2 9 demo2_wf) as H.
  split; [reflexivity|]. rewrite <- H. reflexivity.
Defined.

Lemma ht_grow_keeps_witness :
  exists ok ht' s', ph_ht_grow demo_alloc demo_free demo2 16 2 = Some (ok, ht', s') /\
    wf demo_memcmp demo_kdef ht' /\ ph_ht_get demo_memcmp ht' 9 = Some 90.
Proof.
  destruct (ht_grow_keeps demo_memcmp demo_alloc demo_free demo_kdef demo2 16 2 demo2_wf)
    as (ok & ht' & s' & H & Hwf & _ & Hg & _); [lia|].
  exists ok, ht', s'. split; [exact H|]. split; [exact Hwf|]. rewrite Hg. reflexivity.
Defined.

Lemma ht_insert_spec_witness :
  exists r ht' s',
    ph_ht_insert demo_memcmp demo_alloc demo_free demo2 13 70 PH_HT_COPY 2 = Some (r, ht', s') /\
    wf demo_memcmp demo_kdef ht' /\
    insert_post demo_memcmp demo_kdef demo2 13 70 PH_HT_COPY r ht'.
Proof.
  apply (ht_insert_spec demo_memcmp demo_alloc demo_free demo_kdef demo2 13 70 PH_HT_COPY 2 demo2_wf).
  reflexivity.
Defined.

Lemma ht_del_spec_witness :
  let '(r, ht', s') := ph_ht_del demo_memcmp demo2 5 2 in
  wf demo_memcmp demo_kdef ht' /\ r = PH_OK /\
  dict demo_memcmp demo_kdef ht' 9 = Some 90 /\ dict demo_memcmp demo_kdef ht' 5 = None.
Proof.
  pose proof (ht_del_spec demo_memcmp demo_kdef demo2 5 2 demo2_wf) as H.
  destruct (ph_ht_del demo_memcmp demo2 5 2) as [[r ht'] s'].
  destruct H as (Hwf & Hr & _ & Hd). rewrite !Hd. split_and!; [exact Hwf|exact Hr|reflexivity..].
Defined.

Lemma ht_init_spec_witness :
  match ph_ht_init demo_alloc 2 demo_kdef demo_vdef 0 with
  | (PH_OK, Some ht, _) => table_size ht = 8 /\ wf demo_memcmp demo_kdef ht
  | _ => False
  end.
Proof.
  pose proof (ht_init_spec demo_memcmp demo_alloc demo_kdef 2 demo_vdef 0 ltac:(lia)) as H.
  destruct H as [Hwf _]. split; [reflexivity|exact Hwf].
Defined.

Lemma ht_free_entries_spec_witness :
  let '(ht', s') := ph_ht_free_entries demo2 2 in
  wf demo_memcmp demo_kdef ht' /\ ph_ht_size ht' = 0 /\ s' = 0.
Proof.
  pose proof (ht_free_entries_spec demo_memcmp demo_kdef demo2 2 demo2_wf) as H.
  destruct (ph_ht_free_entries demo2 2) as [ht' s'].
  destruct H as (Hwf & Hn & _ & Hs). split; [exact Hwf|]. split; [exact Hn|exact Hs].
Defined.

Lemma ht_iter_all_witness :
  iter_drain demo2 2 (ph_ht_iter_first demo2) = [(5, 50); (9, 90)].
Proof. exact (ht_iter_all demo_memcmp demo_kdef demo2 2 demo2_wf ltac:(vm_compute; discriminate)). Defined.

Lemma ht_ordered_iter_sorted_witness :
  exists kv it s' rest,
    ph_ht_ordered_iter_first demo_memcmp 0 demo_alloc demo_free demo2 2 = Ret (Some kv, it, s') /\
    oiter_drain demo_memcmp demo2 1 it = Ret rest /\ kv :: rest ≡ₚ [(5, 50); (9, 90)] /\
    StronglySorted (fun a b => demo_memcmp (fst a) (fst b) <= 0) (kv :: rest).
Proof.
  refine (ht_ordered_iter_sorted demo_memcmp 0 demo_alloc demo_free demo_kdef demo_memcmp
            eq_refl _ _ demo2 2 demo2_wf _ _ _).
  - unfold demo_memcmp. lia.
  - unfold demo_memcmp. lia.
  - reflexivity.
  - intros k s. discriminate.
  - reflexivity.
Defined.

(** A value copy that fails after the key was copied leaves the copied key
    behind, in both branches of the insertion. *)
Theorem ht_failed_insert_leaks_key :
  ph_ht_set demo_memcmp demo_alloc demo_free demo1 7 500 1 = Some (PH_ERR, demo1, 2) /\
  exists ht', ph_ht_replace demo_memcmp demo_alloc demo_free demo1 5 500 1 = Some (PH_ERR, ht', 1) /\
    entries (table ht') = [].
Proof. split; [reflexivity|]. eexists. split; reflexivity. Qed.

End HashTableProofs.
