(* ===== verification/Counter.v ===== *)
(** * The counters of corelib/counter.c and include/phenom/counter.h

    Scopes name groups of 64-bit counters; every thread keeps its own block of
    values per scope, and a reader sums the blocks of all threads.  Scopes and
    blocks are heap objects.  The Concurrency Kit hash sets that hold pointers
    to them are behind the interface [ck_hs].  The functions here are the
    sequential behaviour; the sequence lock of a block is in CounterSeq. *)

From Stdlib Require Import ZArith Lia Ascii.
From stdpp Require Import base numbers list gmap strings.
From S2P Require Import Prelude SysUtil.

Module Counter.

(** What the counters rely on in [ck_hs]: a set of objects addressed by a key,
    where [get] finds the object put last under the key. *)
Class ck_hs (K : Type) `{EqDecision K} := CkHs {
  hs : Type;
  hs_init : hs;
  hs_get : hs -> K -> option positive;
  hs_put : hs -> K -> positive -> hs;
  hs_remove : hs -> K -> hs;
  hs_get_init : forall k, hs_get hs_init k = None;
  hs_get_put : forall h k p k',
    hs_get (hs_put h k p) k' = if decide (k = k') then Some p else hs_get h k';
  hs_get_remove : forall h k k',
    hs_get (hs_remove h k) k' = if decide (k = k') then None else hs_get h k';
}.
Arguments hs K {_} {_}.

Record ph_counter_scope := Scope {
  refcnt : Z;
  scope_id : Z;
  num_slots : Z;
  next_slot : Z;
  scope_name : string;
  full_scope_name : string;
  slot_names : list (option string);
}.

Record ph_counter_block := Block {
  b_refcnt : Z;
  b_scope_id : Z;
  seqno : Z;
  slots : list Z;
}.

Section counter.
Context `{HSname : ck_hs string} `{HSid : ck_hs Z}.

(** The module's statics, the heap it owns, the threads' tables, and what the
    coming allocations will answer (an exhausted list answers yes). *)
Record counters := Counters {
  scopes : gmap positive ph_counter_scope;
  blocks : gmap positive ph_counter_block;
  fresh : positive;
  scope_map : hs string;
  next_scope_id : Z;
  threads : list (hs Z);
  oracle : list bool;
}.

Definition set_scopes f (c : counters) :=
  Counters (f (scopes c)) (blocks c) (fresh c) (scope_map c) (next_scope_id c) (threads c) (oracle c).
Definition set_blocks f (c : counters) :=
  Counters (scopes c) (f (blocks c)) (fresh c) (scope_map c) (next_scope_id c) (threads c) (oracle c).
Definition set_fresh p (c : counters) :=
  Counters (scopes c) (blocks c) p (scope_map c) (next_scope_id c) (threads c) (oracle c).
Definition set_scope_map f (c : counters) :=
  Counters (scopes c) (blocks c) (fresh c) (f (scope_map c)) (next_scope_id c) (threads c) (oracle c).
Definition set_next_scope_id n (c : counters) :=
  Counters (scopes c) (blocks c) (fresh c) (scope_map c) n (threads c) (oracle c).
Definition set_threads f (c : counters) :=
  Counters (scopes c) (blocks c) (fresh c) (scope_map c) (next_scope_id c) (f (threads c)) (oracle c).
Definition set_oracle o (c : counters) :=
  Counters (scopes c) (blocks c) (fresh c) (scope_map c) (next_scope_id c) (threads c) o.

(** Does the next allocation succeed? *)
Definition mem_ok : M counters bool := fun c =>
  Ret (hd true (oracle c), set_oracle (tl (oracle c)) c).

Definition new_ptr : M counters positive := fun c => Ret (fresh c, set_fresh (Pos.succ (fresh c)) c).

Definition load_scope (p : positive) : M counters ph_counter_scope := fun c =>
  match scopes c !! p with Some s => Ret (s, c) | None => Fault end.
Definition store_scope (p : positive) (s : ph_counter_scope) : M counters unit :=
  modify (set_scopes <[p := s]>).
Definition load_block (p : positive) : M counters ph_counter_block := fun c =>
  match blocks c !! p with Some b => Ret (b, c) | None => Fault end.
Definition store_block (p : positive) (b : ph_counter_block) : M counters unit :=
  modify (set_blocks <[p := b]>).

(** [counter_init]: the scope map, and the table of the main thread. *)
Definition counter_init (o : list bool) : counters :=
  Counters ∅ ∅ 1 hs_init 0 [hs_init] o.

(** [ph_counter_init_thread]: a new thread's table. *)
Definition ph_counter_init_thread : M counters unit :=
  ok <-- mem_ok ;;
  if ok then modify (set_threads (fun ts => ts ++ [hs_init])) else panic.

Definition char_in (lo hi c : ascii) : bool :=
  (nat_of_ascii lo <=? nat_of_ascii c)%nat && (nat_of_ascii c <=? nat_of_ascii hi)%nat.

Definition valid_char (c : ascii) : bool :=
  char_in "a" "z" c || char_in "A" "Z" c || char_in "0" "9" c ||
  bool_decide (c = "_"%char) || bool_decide (c = "-"%char).

Fixpoint all_valid (name : string) : bool :=
  match name with
  | EmptyString => true
  | String c name => if valid_char c then all_valid name else false
  end.

Definition is_valid_name (name : string) : bool :=
  match name with EmptyString => false | _ => all_valid name end.

Definition ph_counter_scope_get_num_slots (p : positive) : M counters Z :=
  s <-- load_scope p ;; ret (num_slots s).

Definition ph_counter_scope_get_name (p : positive) : M counters string :=
  s <-- load_scope p ;; ret (full_scope_name s).

(** The do loop that skips the scope id 0: [ck_pr_faa_32] at most twice. *)
Definition alloc_scope_id : M counters Z := fun c =>
  let id := next_scope_id c in
  if id =? 0 then Ret (1, set_next_scope_id 2 c)
  else Ret (id, set_next_scope_id (u32 (id + 1)) c).

(** The names freed when a scope goes away: [next_slot] entries of an array of
    [num_slots]. *)
Definition free_slot_names (s : ph_counter_scope) : M counters unit :=
  if next_slot s <=? num_slots s then ret tt else fault.

Definition ph_counter_scope_delref (p : positive) : M counters unit :=
  s <-- load_scope p ;;
  let '(last, r) := ph_refcnt_del (refcnt s) in
  let s := Scope r (scope_id s) (num_slots s) (next_slot s) (scope_name s) (full_scope_name s)
             (slot_names s) in
  store_scope p s ;;;
  if last then
    free_slot_names s ;;;
    modify (set_scope_map (fun m => hs_remove m (full_scope_name s))) ;;;
    modify (set_scopes (delete p))
  else ret tt.

Definition scope_addref (p : positive) : M counters unit :=
  s <-- load_scope p ;;
  store_scope p (Scope (ph_refcnt_add (refcnt s)) (scope_id s) (num_slots s) (next_slot s)
                   (scope_name s) (full_scope_name s) (slot_names s)).

Definition full_name (parent : option positive) (path : string) : M counters string :=
  match parent with
  | Some q => ps <-- load_scope q ;; ret ((full_scope_name ps) +:+ "." +:+ path)%string
  | None => ret path
  end.

Definition ph_counter_scope_define (parent : option positive) (path : string) (max_counters : Z) :
    M counters (option positive) :=
  if negb (is_valid_name path) then ret None
  else
    full <-- full_name parent path ;;
    ok <-- mem_ok ;;
    if negb ok then ret None
    else
      id <-- alloc_scope_id ;;
      p <-- new_ptr ;;
      c <-- get ;;
      match hs_get (scope_map c) full with
      | Some _ => ret None
      | None =>
          store_scope p (Scope 1 id max_counters 0 path full
                           (replicate (Z.to_nat max_counters) None)) ;;;
          put_ok <-- mem_ok ;;
          if (put_ok : bool) then
            modify (set_scope_map (fun m => hs_put m full p)) ;;;
            scope_addref p ;;;
            ret (Some p)
          else
            ph_counter_scope_delref p ;;;
            ret None
      end.

Definition ph_counter_scope_resolve (parent : option positive) (path : string) :
    M counters (option positive) :=
  full <-- full_name parent path ;;
  c <-- get ;;
  match hs_get (scope_map c) full with
  | Some p => scope_addref p ;;; ret (Some p)
  | None => ret None
  end.

Definition PH_COUNTER_INVALID : Z := 255.

Definition with_next_slot (n : Z) (names : list (option string)) (s : ph_counter_scope) :=
  Scope (refcnt s) (scope_id s) (num_slots s) n (scope_name s) (full_scope_name s) names.

Definition ph_counter_scope_register_counter (p : positive) (name : string) : M counters Z :=
  s <-- load_scope p ;;
  let slot := next_slot s in
  if num_slots s <=? slot then
    store_scope p (with_next_slot (u8 (slot + 1)) (slot_names s) s) ;;; ret PH_COUNTER_INVALID
  else
    store_scope p (with_next_slot (u8 (slot + 1)) (<[Z.to_nat slot := Some name]> (slot_names s)) s) ;;;
    ret slot.

Definition ph_counter_scope_register_counter_block (p : positive) (n first_slot : Z)
    (names : list string) : M counters bool :=
  s <-- load_scope p ;;
  if negb (next_slot s =? first_slot) then ret false
  else
    let next := u8 (next_slot s + n) in
    if num_slots s <? next then
      store_scope p (with_next_slot next (slot_names s) s) ;;; ret false
    else if (num_slots s <? first_slot + n) || (zlen names <? n) then fault
    else
      store_scope p (with_next_slot next
        (splice (Z.to_nat first_slot) (Some <$> take (Z.to_nat n) names) (slot_names s)) s) ;;;
      ret true.

(** [get_block_for_scope] in the thread [self]. *)
Definition get_block_for_scope (self : nat) (p : positive) : M counters (option positive) :=
  s <-- load_scope p ;;
  c <-- get ;;
  me <-- of_option (threads c !! self) ;;
  match hs_get me (scope_id s) with
  | Some b => ret (Some b)
  | None =>
      ok <-- mem_ok ;;
      if negb ok then ret None
      else
        put_ok <-- mem_ok ;;
        if negb put_ok then ret None
        else
          b <-- new_ptr ;;
          store_block b (Block 1 (scope_id s) 0 (replicate (Z.to_nat (num_slots s)) 0)) ;;;
          modify (set_threads <[self := hs_put me (scope_id s) b]>) ;;;
          ret (Some b)
  end.

(** [slots[offset] += value] *)
Definition slot_add (l : list Z) (offset value : Z) : option (list Z) :=
  match l !! Z.to_nat offset with
  | Some v => Some (<[Z.to_nat offset := s64 (v + value)]> l)
  | None => None
  end.

Definition ph_counter_block_add (b : positive) (offset value : Z) : M counters unit :=
  blk <-- load_block b ;;
  l <-- of_option (slot_add (slots blk) offset value) ;;
  store_block b (Block (b_refcnt blk) (b_scope_id blk) (u32 (seqno blk + 2)) l).

(** The loop of [ph_counter_block_bulk_add]. *)
Fixpoint bulk_loop (l : list Z) (updates : list (Z * Z)) : option (list Z) :=
  match updates with
  | [] => Some l
  | (o, v) :: updates =>
      match slot_add l o v with Some l => bulk_loop l updates | None => None end
  end.

(** The slot and value arrays as one list of pairs. *)
Definition ph_counter_block_bulk_add (b : positive) (updates : list (Z * Z)) : M counters unit :=
  blk <-- load_block b ;;
  let seq := u32 (seqno blk + 1) in
  l <-- of_option (bulk_loop (slots blk) updates) ;;
  store_block b (Block (b_refcnt blk) (b_scope_id blk) (u32 (seq + 1)) l).

Definition ph_counter_scope_add (self : nat) (p : positive) (offset value : Z) : M counters unit :=
  ob <-- get_block_for_scope self p ;;
  match ob with
  | None => ret tt
  | Some b => ph_counter_block_add b offset value
  end.

Definition ph_counter_block_open (self : nat) (p : positive) : M counters (option positive) :=
  ob <-- get_block_for_scope self p ;;
  match ob with
  | None => ret None
  | Some b =>
      blk <-- load_block b ;;
      store_block b (Block (ph_refcnt_add (b_refcnt blk)) (b_scope_id blk) (seqno blk) (slots blk)) ;;;
      ret (Some b)
  end.

Definition ph_counter_block_delref (b : positive) : M counters unit :=
  blk <-- load_block b ;;
  let '(last, r) := ph_refcnt_del (b_refcnt blk) in
  if last then modify (set_blocks (delete b))
  else store_block b (Block r (b_scope_id blk) (seqno blk) (slots blk)).

(** The blocks that the walk over all threads finds for a scope id. *)
Definition scope_blocks (c : counters) (id : Z) : list positive :=
  omap (fun t => hs_get t id) (threads c).

Fixpoint get_loop (c : counters) (bs : list positive) (offset res : Z) : option Z :=
  match bs with
  | [] => Some res
  | b :: bs =>
      match blocks c !! b with
      | Some blk =>
          match slots blk !! Z.to_nat offset with
          | Some v => get_loop c bs offset (s64 (res + v))
          | None => None
          end
      | None => None
      end
  end.

Definition ph_counter_scope_get (p : positive) (offset : Z) : M counters Z :=
  s <-- load_scope p ;;
  c <-- get ;;
  of_option (get_loop c (scope_blocks c (scope_id s)) offset 0).

Definition add_slots (a b : list Z) : list Z := zip_with (fun x y => s64 (x + y)) a b.

Fixpoint view_loop (c : counters) (bs : list positive) (n : nat) (acc : list Z) : option (list Z) :=
  match bs with
  | [] => Some acc
  | b :: bs =>
      match blocks c !! b with
      | Some blk =>
          if (length (slots blk) <? n)%nat then None
          else view_loop c bs n (add_slots acc (take n (slots blk)))
      | None => None
      end
  end.

(** The number of slots, their sums and their names. *)
Definition ph_counter_scope_get_view (p : positive) (n : Z) :
    M counters (Z * list Z * list (option string)) :=
  s <-- load_scope p ;;
  let n := if num_slots s <? n then num_slots s else n in
  let n := if next_slot s <? n then next_slot s else n in
  c <-- get ;;
  v <-- of_option (view_loop c (scope_blocks c (scope_id s)) (Z.to_nat n)
                     (replicate (Z.to_nat n) 0)) ;;
  ret (n, v, take (Z.to_nat n) (slot_names s)).

End counter.

(** The interface is inhabited: a finite map from keys to objects. *)
#[export] Program Instance gmap_ck_hs K `{Countable K} : ck_hs K :=
  CkHs K _ (gmap K positive) ∅ (fun h k => h !! k) (fun h k p => <[k := p]> h)
    (fun h k => delete k h) _ _ _.
Next Obligation. intros. apply lookup_empty. Qed.
Next Obligation.
  intros. simpl. case_decide; subst; [apply lookup_insert_eq|by apply lookup_insert_ne].
Qed.
Next Obligation.
  intros. simpl. case_decide; subst; [apply lookup_delete_eq|by apply lookup_delete_ne].
Qed.

End Counter.
