(* ===== verification/CounterProofs.v ===== *)
(** * Counters: registry and totals

    [wf] ties the registry, the scopes and the threads' blocks together;
    [slot_sum] is the exact sum of one counter over all threads, of which the
    read functions return the 64-bit value. *)

From Stdlib Require Import ZArith Lia.
From stdpp Require Import base numbers list gmap strings.
From S2P Require Import Prelude SysUtil Counter.

Module CounterProofs.
Export Counter.

Section proofs.
Context `{HSname : ck_hs string} `{HSid : ck_hs Z}.
#[local] Arguments mem_ok : simpl never.
Implicit Types c : counters.

(** The value thread table [t] contributes to counter [off] of scope [id]. *)
Definition contrib c (id : Z) (off : nat) (t : hs Z) : Z :=
  match hs_get t id with
  | Some b => match blocks c !! b with Some blk => default 0 (slots blk !! off) | None => 0 end
  | None => 0
  end.
Definition slot_sum c (id : Z) (off : nat) : Z := zsum (contrib c id off) (threads c).

(** Every allocation to come succeeds. *)
Definition plenty c : Prop := Forall (fun b => b = true) (oracle c).

Record scope_ok c (p : positive) (s : ph_counter_scope) : Prop := {
  so_fresh : (p < fresh c)%positive;
  so_id : 0 < scope_id s < next_scope_id c;
  so_slots : 0 <= num_slots s < 256;
  so_next : 0 <= next_slot s < 256;
  so_names : zlen (slot_names s) = num_slots s;
  so_map : hs_get (scope_map c) (full_scope_name s) = Some p;
}.

Record block_ok c (id : Z) (b : positive) (blk : ph_counter_block) : Prop := {
  bo_fresh : (b < fresh c)%positive;
  bo_id : 0 < id < next_scope_id c;
  bo_scope : b_scope_id blk = id;
  bo_ref : 1 <= b_refcnt blk < 2 ^ 31 - 1;
  bo_len : forall p s, scopes c !! p = Some s -> scope_id s = id -> zlen (slots blk) = num_slots s;
}.

Record wf c : Prop := {
  wf_scope : forall p s, scopes c !! p = Some s -> scope_ok c p s;
  wf_ids : forall p q s s', scopes c !! p = Some s -> scopes c !! q = Some s' ->
    scope_id s = scope_id s' -> p = q;
  wf_map : forall n p, hs_get (scope_map c) n = Some p ->
    exists s, scopes c !! p = Some s /\ full_scope_name s = n;
  wf_block : forall i t id b, threads c !! i = Some t -> hs_get t id = Some b ->
    exists blk, blocks c !! b = Some blk /\ block_ok c id b blk;
  wf_own : forall i j t t' id id' b, threads c !! i = Some t -> threads c !! j = Some t' ->
    hs_get t id = Some b -> hs_get t' id' = Some b -> i = j;
  wf_next : 0 <= next_scope_id c < 2 ^ 32;
}.

(** ** Finding or creating the block of a thread *)

Lemma mem_ok_plenty c : plenty c ->
  exists o, mem_ok c = Ret (true, set_oracle o c) /\ Forall (fun b => b = true) o.
Proof.
  unfold plenty, mem_ok. intros H. destruct (oracle c) as [|b o]; simpl.
  - exists []. done.
  - apply Forall_cons in H as [-> H]. exists o. done.
Qed.

Lemma load_scope_eq c p s : scopes c !! p = Some s -> load_scope p c = Ret (s, c).
Proof. unfold load_scope. by intros ->. Qed.

Lemma load_block_eq c b blk : blocks c !! b = Some blk -> load_block b c = Ret (blk, c).
Proof. unfold load_block. by intros ->. Qed.

(** What the lookup of a block may change: nothing a reader can see. *)
Record same_view c c' : Prop := {
  sv_scopes : scopes c' = scopes c;
  sv_map : scope_map c' = scope_map c;
  sv_len : length (threads c') = length (threads c);
  sv_sum : forall id off, slot_sum c' id off = slot_sum c id off;
  sv_next : next_scope_id c' = next_scope_id c;
}.

Lemma same_view_refl c : same_view c c.
Proof. by split. Qed.

(** [wf] does not depend on the oracle. *)
Lemma wf_set_oracle c o : wf c -> wf (set_oracle o c).
Proof.
  intros [Hs Hi Hm Hb Ho Hn]. split; try done.
  - intros p s Hp. destruct (Hs p s Hp). by split.
  - intros i t id b Ht Hg. destruct (Hb i t id b Ht Hg) as (blk & Hblk & []).
    exists blk. split; [done|]. by split.
Qed.

Definition add_block c (self : nat) me (id n : Z) : counters :=
  set_threads <[self := hs_put me id (fresh c)]>
    (set_blocks <[fresh c := Block 1 id 0 (replicate (Z.to_nat n) 0)]>
       (set_fresh (Pos.succ (fresh c)) c)).

Lemma add_block_blocks c self me id n b :
  (b < fresh c)%positive -> blocks (add_block c self me id n) !! b = blocks c !! b.
Proof. intros. simpl. rewrite lookup_insert_ne by lia. done. Qed.

Lemma default_replicate_0 n off : default 0 (replicate n 0 !! off) = 0.
Proof.
  destruct (replicate n 0 !! off) as [z|] eqn:E; [|done].
  by apply lookup_replicate in E as [-> _].
Qed.

Lemma add_block_sum c self me id n id' off :
  wf c -> threads c !! self = Some me -> hs_get me id = None ->
  slot_sum (add_block c self me id n) id' off = slot_sum c id' off.
Proof.
  intros Hwf Hme Hnone. unfold slot_sum.
  rewrite (zsum_update (contrib c id' off) _ (threads c) _ self me (hs_put me id (fresh c)));
    [|done|done|].
  - unfold contrib at 2 3. rewrite hs_get_put. case_decide as Hd.
    + subst id'. rewrite Hnone. simpl. rewrite lookup_insert_eq. cbn [slots].
      rewrite default_replicate_0. lia.
    + destruct (hs_get me id') as [b|] eqn:Eb; [|lia].
      destruct (wf_block _ Hwf _ _ _ _ Hme Eb) as (blk & Hb & []).
      rewrite add_block_blocks by done. lia.
  - intros j t Ht _. unfold contrib. destruct (hs_get t id') as [b|] eqn:Eb; [|done].
    destruct (wf_block _ Hwf _ _ _ _ Ht Eb) as (blk & Hb & []).
    by rewrite add_block_blocks.
Qed.

Lemma add_block_wf c self me p s :
  wf c -> threads c !! self = Some me -> scopes c !! p = Some s ->
  wf (add_block c self me (scope_id s) (num_slots s)).
Proof.
  intros Hwf Hme Hp. pose proof (wf_scope _ Hwf _ _ Hp) as Hso.
  pose proof (lookup_lt_Some _ _ _ Hme) as Hself. split; simpl.
  - intros p' s' Hp'. destruct (wf_scope _ Hwf _ _ Hp'). split; simpl; first [done|lia].
  - apply Hwf.
  - apply Hwf.
  - intros i t id b Ht Hg.
    assert ((exists t', threads c !! i = Some t' /\ hs_get t' id = Some b) \/
            (i = self /\ id = scope_id s /\ b = fresh c)) as [(t' & Ht' & Hg')|(-> & -> & ->)].
    { apply list_lookup_insert_Some in Ht as [(<- & <- & _)|[Hne Ht]]; [|eauto].
      rewrite hs_get_put in Hg. case_decide; simplify_eq; eauto. }
    + destruct (wf_block _ Hwf _ _ _ _ Ht' Hg') as (blk & Hb & []).
      exists blk. rewrite lookup_insert_ne by lia. split; [done|]. split; simpl; first [done|lia].
    + eexists. rewrite lookup_insert_eq. split; [done|].
      destruct Hso. split; simpl; [lia|done|done|lia|].
      intros p' s' Hp' Hid. assert (p' = p) as -> by (by eapply (wf_ids _ Hwf)).
      simplify_eq. rewrite length_replicate. lia.
  - assert (forall i t id b, <[self := hs_put me (scope_id s) (fresh c)]> (threads c) !! i = Some t ->
      hs_get t id = Some b ->
      (exists t', threads c !! i = Some t' /\ hs_get t' id = Some b /\ (b < fresh c)%positive) \/
      (i = self /\ b = fresh c)) as Hcase.
    { intros i t id b Ht Hg.
      assert (forall t', threads c !! i = Some t' -> hs_get t' id = Some b ->
        (b < fresh c)%positive) as Hlt.
      { intros t' Ht' Hg'. by destruct (wf_block _ Hwf _ _ _ _ Ht' Hg') as (blk & Hb & []). }
      apply list_lookup_insert_Some in Ht as [(<- & <- & _)|[Hne Ht]]; [|eauto 10].
      rewrite hs_get_put in Hg. case_decide; simplify_eq; eauto 10. }
    intros i j t t' id id' b Hi Hj Hg Hg'.
    destruct (Hcase _ _ _ _ Hi Hg) as [(ti & Hti & Hgi & ?)|(-> & ->)];
      destruct (Hcase _ _ _ _ Hj Hg') as [(tj & Htj & Hgj & ?)|(? & ?)]; subst; [|lia|lia|done].
    by eapply (wf_own _ Hwf).
  - apply Hwf.
Qed.

Lemma get_block_spec c self p s :
  wf c -> plenty c -> scopes c !! p = Some s -> (self < length (threads c))%nat ->
  exists b c' me, get_block_for_scope self p c = Ret (Some b, c') /\ wf c' /\ plenty c' /\
    same_view c c' /\ threads c' !! self = Some me /\ hs_get me (scope_id s) = Some b.
Proof.
  intros Hwf Hpl Hp Hself. unfold get_block_for_scope.
  step_with (load_scope_eq c p s Hp). step.
  destruct (lookup_lt_is_Some_2 _ _ Hself) as [me Hme]. rewrite Hme. step.
  destruct (hs_get me (scope_id s)) as [b|] eqn:Eb.
  { exists b, c, me. split_and!; try done. }
  destruct (mem_ok_plenty c Hpl) as (o1 & H1 & Ho1). step_with H1.
  destruct (mem_ok_plenty (set_oracle o1 c) Ho1) as (o2 & H2 & Ho2). cbn [negb]. step_with H2.
  cbn [negb]. repeat step.
  assert (wf (set_oracle o2 c)) as Hwf2 by (by apply wf_set_oracle).
  exists (fresh c), (add_block (set_oracle o2 c) self me (scope_id s) (num_slots s)),
    (hs_put me (scope_id s) (fresh c)).
  split; [reflexivity|]. split_and!.
  - by apply (add_block_wf _ _ _ p).
  - exact Ho2.
  - split; try done; simpl; [by rewrite length_insert|].
    intros id off. by apply (add_block_sum (set_oracle o2 c)).
  - by apply list_lookup_insert_eq.
  - rewrite hs_get_put. by rewrite decide_True.
Qed.

(** ** Writing a block *)

Definition write_block c (b : positive) (blk : ph_counter_block) : counters :=
  set_blocks <[b := blk]> c.

Lemma write_block_wf c b blk blk' :
  wf c -> blocks c !! b = Some blk -> b_scope_id blk' = b_scope_id blk ->
  1 <= b_refcnt blk' < 2 ^ 31 - 1 -> length (slots blk') = length (slots blk) -> wf (write_block c b blk').
Proof.
  intros Hwf Hb Hid Href Hlen. split; simpl; try apply Hwf.
  - intros p s Hp. destruct (wf_scope _ Hwf _ _ Hp). by split.
  - intros i t id b' Ht Hg. destruct (wf_block _ Hwf _ _ _ _ Ht Hg) as (blk1 & Hb1 & []).
    destruct (decide (b = b')) as [<-|Hne].
    + rewrite lookup_insert_eq. eexists. split; [done|]. simplify_eq.
      split; simpl; [done|done|done|done|]. intros p s Hp Hs. rewrite Hlen. by eapply bo_len0.
    + rewrite lookup_insert_ne by done. eexists. split; [done|]. by split.
Qed.

Lemma write_block_sum c self me id b blk blk' :
  wf c -> threads c !! self = Some me -> hs_get me id = Some b -> blocks c !! b = Some blk ->
  forall id' off, slot_sum (write_block c b blk') id' off =
    slot_sum c id' off +
    if decide (id' = id) then default 0 (slots blk' !! off) - default 0 (slots blk !! off) else 0.
Proof.
  intros Hwf Hme Hg Hb id' off. unfold slot_sum.
  rewrite (zsum_update (contrib c id' off) _ (threads c) _ self me me);
    [|done|simpl; by rewrite list_insert_id|].
  - f_equal. unfold contrib. case_decide as Hd.
    + subst id'. rewrite Hg, Hb. simpl. rewrite lookup_insert_eq. done.
    + destruct (hs_get me id') as [b'|] eqn:Eb'; [|lia].
      destruct (wf_block _ Hwf _ _ _ _ Hme Eb') as (blk1 & Hb1 & Hok1).
      destruct (wf_block _ Hwf _ _ _ _ Hme Hg) as (blk2 & Hb2 & Hok2).
      simpl. rewrite lookup_insert_ne; [lia|]. intros <-.
      destruct Hd. simplify_eq. rewrite <- (bo_scope _ _ _ _ Hok1). apply Hok2.
  - intros j t Ht Hj. unfold contrib. destruct (hs_get t id') as [b'|] eqn:Eb'; [|done].
    simpl. rewrite lookup_insert_ne; [done|]. intros <-. apply Hj. by eapply (wf_own _ Hwf).
Qed.

(** The effect of a list of updates on one slot. *)
Fixpoint delta (updates : list (Z * Z)) (off : nat) : Z :=
  match updates with
  | [] => 0
  | (o, v) :: updates => (if decide (Z.to_nat o = off) then v else 0) + delta updates off
  end.

Lemma bulk_loop_spec updates : forall l,
  (forall o v, (o, v) ∈ updates -> (Z.to_nat o < length l)%nat) ->
  exists l', bulk_loop l updates = Some l' /\ length l' = length l /\
    forall off, s64 (default 0 (l' !! off)) = s64 (default 0 (l !! off) + delta updates off).
Proof.
  induction updates as [|[o v] us IH]; intros l Hin; simpl.
  { exists l. split_and!; [done|done|]. intros off. by rewrite Z.add_0_r. }
  destruct (lookup_lt_is_Some_2 l (Z.to_nat o)) as [x Hx]; [by eapply Hin; left|].
  unfold slot_add. rewrite Hx.
  destruct (IH (<[Z.to_nat o := s64 (x + v)]> l)) as (l' & Hl' & Hlen & Hsum).
  { intros o' v' H'. rewrite length_insert. eapply Hin. right. exact H'. }
  exists l'. split; [done|]. rewrite length_insert in Hlen. split; [done|].
  intros off. rewrite Hsum. case_decide as Hd.
  - subst off. rewrite list_lookup_insert_eq by (by eapply lookup_lt_Some). rewrite Hx. simpl.
    rewrite wrapS_add_l by lia. f_equal. lia.
  - rewrite list_lookup_insert_ne by done. f_equal; lia.
Qed.

(** Outside the block, and for the counters of other scopes, nothing changes;
    inside, each slot moves by its updates. *)
Definition bumped c c' (id : Z) (updates : list (Z * Z)) : Prop :=
  forall id' off, s64 (slot_sum c' id' off) =
    s64 (slot_sum c id' off + if decide (id' = id) then delta updates off else 0).

Lemma s64_sub_cong a x y d : s64 x = s64 (y + d) -> s64 (a + (x - y)) = s64 (a + d).
Proof.
  intros H. replace (a + (x - y)) with (x + (a - y)) by lia.
  rewrite <- (wrapS_add_l 64) by lia. rewrite H, wrapS_add_l by lia. f_equal. lia.
Qed.

Lemma write_slots_spec c self me p s b blk updates seq :
  wf c -> scopes c !! p = Some s -> threads c !! self = Some me ->
  hs_get me (scope_id s) = Some b -> blocks c !! b = Some blk ->
  (forall o v, (o, v) ∈ updates -> 0 <= o < num_slots s) ->
  exists l, bulk_loop (slots blk) updates = Some l /\
    let c' := write_block c b (Block (b_refcnt blk) (b_scope_id blk) seq l) in
    wf c' /\ bumped c c' (scope_id s) updates.
Proof.
  intros Hwf Hp Hme Hg Hb Hin.
  destruct (wf_block _ Hwf _ _ _ _ Hme Hg) as (blk1 & Hb1 & Hok).
  assert (blk1 = blk) as -> by congruence.
  destruct (bulk_loop_spec updates (slots blk)) as (l & Hl & Hlen & Hsum).
  { intros o v H. apply Hin in H. pose proof (bo_len _ _ _ _ Hok _ _ Hp eq_refl). lia. }
  exists l. split; [done|]. split.
  - apply (write_block_wf _ _ blk); [done|done|done|apply Hok|done].
  - intros id' off. rewrite (write_block_sum c self me (scope_id s) b blk) by done.
    case_decide; [|done]. apply s64_sub_cong. simpl. apply Hsum.
Qed.

Lemma bumped_same_view c c1 c2 id us :
  same_view c c1 -> bumped c1 c2 id us -> bumped c c2 id us.
Proof. intros Hv Hb id' off. by rewrite Hb, (sv_sum _ _ Hv). Qed.

(** ** Reading *)

Lemma get_loop_spec c id off : wf c ->
  (forall t i b blk, threads c !! i = Some t -> hs_get t id = Some b -> blocks c !! b = Some blk ->
     (Z.to_nat off < length (slots blk))%nat) ->
  forall ts pre res, threads c = pre ++ ts ->
    get_loop c (omap (fun t => hs_get t id) ts) off (s64 res) =
    Some (s64 (res + zsum (contrib c id (Z.to_nat off)) ts)).
Proof.
  intros Hwf Hoff. induction ts as [|t ts IH]; intros pre res Hts; simpl.
  { by rewrite Z.add_0_r. }
  assert (threads c !! length pre = Some t) as Ht by (rewrite Hts; by apply list_lookup_middle).
  assert (threads c = (pre ++ [t]) ++ ts) as Hts' by (by rewrite <- app_assoc).
  unfold contrib at 1. destruct (hs_get t id) as [b|] eqn:Eb; simpl.
  - destruct (wf_block _ Hwf _ _ _ _ Ht Eb) as (blk & Hb & _). rewrite Hb.
    destruct (lookup_lt_is_Some_2 _ _ (Hoff _ _ _ _ Ht Eb Hb)) as [v Hv]. rewrite Hv. simpl.
    rewrite wrapS_add_l by lia. rewrite (IH _ _ Hts'). do 2 f_equal. lia.
  - rewrite (IH _ _ Hts'). do 2 f_equal.
Qed.

Lemma block_len c p s : wf c -> scopes c !! p = Some s ->
  forall t i b blk, threads c !! i = Some t -> hs_get t (scope_id s) = Some b ->
    blocks c !! b = Some blk -> zlen (slots blk) = num_slots s.
Proof.
  intros Hwf Hp t i b blk Ht Hg Hb. destruct (wf_block _ Hwf _ _ _ _ Ht Hg) as (blk' & Hb' & []).
  simplify_eq. by eapply bo_len0.
Qed.

Lemma scope_get_spec c p s off :
  wf c -> scopes c !! p = Some s -> 0 <= off < num_slots s ->
  ph_counter_scope_get p off c = Ret (s64 (slot_sum c (scope_id s) (Z.to_nat off)), c).
Proof.
  intros Hwf Hp Hoff. unfold ph_counter_scope_get. step_with (load_scope_eq c p s Hp). step.
  unfold scope_blocks.
  rewrite (get_loop_spec c (scope_id s) off Hwf) with (pre := []) (res := 0); [done| |done].
  intros t i b blk Ht Hg Hb. pose proof (block_len c p s Hwf Hp t i b blk Ht Hg Hb). lia.
Qed.

(** ** The counter operations *)

Lemma slot_add_bulk l o v : slot_add l o v = bulk_loop l [(o, v)].
Proof. simpl. by destruct (slot_add l o v). Qed.

(** Lookup of the block followed by a write of its slots. *)
Lemma locate_spec c self p s updates :
  wf c -> plenty c -> scopes c !! p = Some s -> (self < length (threads c))%nat ->
  (forall o v, (o, v) ∈ updates -> 0 <= o < num_slots s) ->
  exists b c1 blk l, get_block_for_scope self p c = Ret (Some b, c1) /\
    blocks c1 !! b = Some blk /\ 1 <= b_refcnt blk < 2 ^ 31 - 1 /\
    bulk_loop (slots blk) updates = Some l /\ plenty c1 /\ same_view c c1 /\
    forall seq, let c' := write_block c1 b (Block (b_refcnt blk) (b_scope_id blk) seq l) in
      wf c' /\ bumped c c' (scope_id s) updates.
Proof.
  intros Hwf Hpl Hp Hself Hin.
  destruct (get_block_spec c self p s Hwf Hpl Hp Hself)
    as (b & c1 & me & Hget & Hwf1 & Hpl1 & Hsv & Hme & Hg).
  destruct (wf_block _ Hwf1 _ _ _ _ Hme Hg) as (blk & Hb & Hok).
  assert (scopes c1 !! p = Some s) as Hp1 by (by rewrite (sv_scopes _ _ Hsv)).
  destruct (write_slots_spec c1 self me p s b blk updates 0 Hwf1 Hp1 Hme Hg Hb Hin) as (l & Hl & _).
  exists b, c1, blk, l. split_and!; [done|done|apply Hok|apply Hok|done|done|done|].
  intros seq. destruct (write_slots_spec c1 self me p s b blk updates seq Hwf1 Hp1 Hme Hg Hb Hin)
      as (l' & Hl' & Hw & Hbu). simplify_eq. split; [done|]. by apply (bumped_same_view c c1).
Qed.

Lemma scope_add_spec c self p s off v :
  wf c -> plenty c -> scopes c !! p = Some s -> (self < length (threads c))%nat ->
  0 <= off < num_slots s ->
  exists c', ph_counter_scope_add self p off v c = Ret (tt, c') /\ wf c' /\ plenty c' /\
    scopes c' = scopes c /\ scope_map c' = scope_map c /\
    length (threads c') = length (threads c) /\ next_scope_id c' = next_scope_id c /\
    bumped c c' (scope_id s) [(off, v)].
Proof.
  intros Hwf Hpl Hp Hself Hoff.
  destruct (locate_spec c self p s [(off, v)] Hwf Hpl Hp Hself)
    as (b & c1 & blk & l & Hget & Hb & Href & Hl & Hpl1 & Hsv & Hc').
  { intros o v' Hin. apply list_elem_of_singleton in Hin. by simplify_eq. }
  destruct (Hc' (u32 (seqno blk + 2))) as [Hwf' Hbump].
  eexists. unfold ph_counter_scope_add. step_with Hget. unfold ph_counter_block_add.
  step_with (load_block_eq c1 b blk Hb). rewrite slot_add_bulk, Hl. step. split; [reflexivity|].
  split_and!; [exact Hwf'|exact Hpl1|apply Hsv..|exact Hbump].
Qed.

(** [ph_counter_block_open], a bulk update, [ph_counter_block_delref]: the way
    the allocator accounts. *)
Lemma account_spec c self p s updates :
  wf c -> plenty c -> scopes c !! p = Some s -> (self < length (threads c))%nat ->
  (forall o v, (o, v) ∈ updates -> 0 <= o < num_slots s) ->
  exists b c1 c2 c', ph_counter_block_open self p c = Ret (Some b, c1) /\
    ph_counter_block_bulk_add b updates c1 = Ret (tt, c2) /\
    ph_counter_block_delref b c2 = Ret (tt, c') /\ wf c' /\ plenty c' /\
    scopes c' = scopes c /\ scope_map c' = scope_map c /\
    length (threads c') = length (threads c) /\ next_scope_id c' = next_scope_id c /\
    bumped c c' (scope_id s) updates.
Proof.
  intros Hwf Hpl Hp Hself Hin.
  destruct (locate_spec c self p s updates Hwf Hpl Hp Hself Hin)
    as (b & c1 & blk & l & Hget & Hb & Href & Hl & Hpl1 & Hsv & Hc').
  set (seq := u32 (u32 (seqno blk + 1) + 1)).
  destruct (Hc' seq) as [Hwf' Hbump].
  assert (s32 (b_refcnt blk + 1) = b_refcnt blk + 1) as Hr by (apply wrapS_small; lia).
  set (c1o := write_block c1 b (Block (b_refcnt blk + 1) (b_scope_id blk) (seqno blk) (slots blk))).
  set (c2 := write_block c1o b (Block (b_refcnt blk + 1) (b_scope_id blk) seq l)).
  exists b, c1o, c2, (write_block c2 b (Block (b_refcnt blk) (b_scope_id blk) seq l)).
  assert (write_block c2 b (Block (b_refcnt blk) (b_scope_id blk) seq l) =
          write_block c1 b (Block (b_refcnt blk) (b_scope_id blk) seq l)) as Hsame.
  { unfold c2, c1o, write_block, set_blocks. simpl. by rewrite !insert_insert_eq. }
  split_and!.
  - unfold ph_counter_block_open. step_with Hget. step_with (load_block_eq c1 b blk Hb).
    unfold ph_refcnt_add. rewrite Hr. reflexivity.
  - unfold ph_counter_block_bulk_add.
    step_with (load_block_eq c1o b _ (lookup_insert_eq (blocks c1) b _)).
    cbn [slots]. rewrite Hl. reflexivity.
  - unfold ph_counter_block_delref.
    step_with (load_block_eq c2 b _ (lookup_insert_eq (blocks c1o) b _)).
    cbn [b_refcnt ph_refcnt_del]. unfold ph_refcnt_del.
    rewrite (proj2 (Z.eqb_neq _ _)) by lia.
    replace (s32 (b_refcnt blk + 1 - 1)) with (b_refcnt blk); [reflexivity|].
    rewrite wrapS_small; lia.
  - by rewrite Hsame.
  - exact Hpl1.
  - apply Hsv.
  - apply Hsv.
  - apply Hsv.
  - apply Hsv.
  - by rewrite Hsame.
Qed.

(** Adding to a counter from any thread changes its total by the value, modulo
    64 bits, and no other counter of any scope. *)
Theorem counter_add_get c self p s off v :
  wf c -> plenty c -> scopes c !! p = Some s -> (self < length (threads c))%nat ->
  0 <= off < num_slots s ->
  exists c', ph_counter_scope_add self p off v c = Ret (tt, c') /\ wf c' /\
    forall q sq o, scopes c !! q = Some sq -> 0 <= o < num_slots sq ->
      exists x, ph_counter_scope_get q o c = Ret (x, c) /\
        ph_counter_scope_get q o c' =
          Ret (if decide (q = p /\ o = off) then s64 (x + v) else x, c').
Proof.
  intros Hwf Hpl Hp Hself Hoff.
  destruct (scope_add_spec c self p s off v Hwf Hpl Hp Hself Hoff)
    as (c' & Hadd & Hwf' & _ & Hsc & _ & _ & _ & Hbump).
  exists c'. split; [done|]. split; [done|]. intros q sq o Hq Ho. eexists.
  split; [by apply scope_get_spec|].
  rewrite (scope_get_spec c' q sq o) by (first [done | by rewrite Hsc]).
  do 2 f_equal. rewrite Hbump. cbn [delta]. case_decide as H1.
  - assert (q = p) as -> by (by eapply (wf_ids _ Hwf)).
    destruct (decide (o = off)) as [->|Hne].
    + rewrite !decide_True by done. rewrite wrapS_add_l by lia. f_equal. lia.
    + rewrite decide_False by lia. rewrite decide_False by (by intros [_ ?]). f_equal. lia.
  - rewrite Z.add_0_r. rewrite decide_False; [done|]. intros [-> _]. by simplify_eq.
Qed.

(** ** Views *)

Lemma view_loop_spec c id n : wf c ->
  (forall t i b blk, threads c !! i = Some t -> hs_get t id = Some b -> blocks c !! b = Some blk ->
     (n <= length (slots blk))%nat) ->
  forall ts pre acc, threads c = pre ++ ts -> length acc = n ->
    exists v, view_loop c (omap (fun t => hs_get t id) ts) n acc = Some v /\ length v = n /\
      forall o, (o < n)%nat -> s64 (default 0 (v !! o)) =
        s64 (default 0 (acc !! o) + zsum (contrib c id o) ts) /\
        (s64 (default 0 (acc !! o)) = default 0 (acc !! o) -> s64 (default 0 (v !! o)) = default 0 (v !! o)).
Proof.
  intros Hwf Hoff. induction ts as [|t ts IH]; intros pre acc Hts Hacc; simpl.
  { exists acc. split_and!; [done|done|]. intros o Ho. by rewrite Z.add_0_r. }
  assert (threads c !! length pre = Some t) as Ht by (rewrite Hts; by apply list_lookup_middle).
  assert (threads c = (pre ++ [t]) ++ ts) as Hts' by (by rewrite <- app_assoc).
  destruct (hs_get t id) as [b|] eqn:Eb; simpl.
  - destruct (wf_block _ Hwf _ _ _ _ Ht Eb) as (blk & Hb & _). rewrite Hb.
    pose proof (Hoff _ _ _ _ Ht Eb Hb) as Hlen.
    rewrite (proj2 (Nat.ltb_ge _ _)) by lia.
    destruct (IH _ (add_slots acc (take n (slots blk))) Hts') as (v & Hv & Hvl & Hvs).
    { unfold add_slots. rewrite length_zip_with, length_take. lia. }
    exists v. split_and!; [done|done|]. intros o Ho. destruct (Hvs o Ho) as [Hs Hr].
    destruct (lookup_lt_is_Some_2 acc o) as [a Ha]; [lia|].
    destruct (lookup_lt_is_Some_2 (slots blk) o) as [x Hx]; [lia|].
    assert (add_slots acc (take n (slots blk)) !! o = Some (s64 (a + x))) as Hz.
    { unfold add_slots. rewrite lookup_zip_with, Ha, lookup_take_lt by lia. by rewrite Hx. }
    rewrite Hz in Hs, Hr. simpl in Hs, Hr. split.
    + rewrite Hs, wrapS_add_l, Ha by lia. simpl. unfold contrib at 2. rewrite Eb, Hb, Hx. simpl.
      f_equal. lia.
    + intros _. apply Hr. apply wrapS_small; [lia|]. by apply wrapS_bound.
  - destruct (IH _ acc Hts' Hacc) as (v & Hv & Hvl & Hvs). exists v. split_and!; [done|done|].
    intros o Ho. destruct (Hvs o Ho) as [Hs Hr]. split; [|done]. rewrite Hs.
    unfold contrib at 2. rewrite Eb. f_equal.
Qed.

Lemma view_spec c p s n :
  wf c -> scopes c !! p = Some s -> 0 <= n ->
  exists v names, let m := Z.min n (Z.min (num_slots s) (next_slot s)) in
    ph_counter_scope_get_view p n c = Ret ((m, v, names), c) /\ zlen v = m /\ zlen names = m /\
    forall o, 0 <= o < m -> exists x, v !! Z.to_nat o = Some x /\
      ph_counter_scope_get p o c = Ret (x, c).
Proof.
  intros Hwf Hp Hn. pose proof (wf_scope _ Hwf _ _ Hp) as Hso.
  pose proof (so_slots _ _ _ Hso). pose proof (so_next _ _ _ Hso). pose proof (so_names _ _ _ Hso).
  set (m := Z.min n (Z.min (num_slots s) (next_slot s))).
  destruct (view_loop_spec c (scope_id s) (Z.to_nat m) Hwf) with (ts := threads c)
    (pre := @nil (hs Z)) (acc := replicate (Z.to_nat m) 0) as (v & Hv & Hvl & Hvs).
  { intros t i b blk Ht Hg Hb. pose proof (block_len c p s Hwf Hp t i b blk Ht Hg Hb). lia. }
  { done. }
  { by rewrite length_replicate. }
  exists v, (take (Z.to_nat m) (slot_names s)). split_and!.
  - unfold ph_counter_scope_get_view. step_with (load_scope_eq c p s Hp).
    replace (if next_slot s <? _ then next_slot s else _) with m.
    + step. unfold scope_blocks. rewrite Hv. reflexivity.
    + unfold m. repeat (case_bool; zbool); lia.
  - lia.
  - rewrite length_take. lia.
  - intros o Ho. destruct (lookup_lt_is_Some_2 v (Z.to_nat o)) as [x Hx]; [lia|].
    exists x. split; [done|]. rewrite (scope_get_spec c p s o) by (done || lia).
    destruct (Hvs (Z.to_nat o)) as [Hs Hr]; [lia|].
    rewrite Hx, default_replicate_0 in Hs, Hr. simpl in Hs, Hr. rewrite Hr in Hs by done.
    rewrite Hs. unfold slot_sum. done.
Qed.

(** The view of a scope has, for each registered slot, the value that reading
    the counter by itself gives. *)
Theorem counter_view_get c p s n :
  wf c -> scopes c !! p = Some s -> 0 <= n ->
  exists v names, let m := Z.min n (Z.min (num_slots s) (next_slot s)) in
    ph_counter_scope_get_view p n c = Ret ((m, v, names), c) /\ zlen v = m /\ zlen names = m /\
    forall o, 0 <= o < m -> exists x, v !! Z.to_nat o = Some x /\
      ph_counter_scope_get p o c = Ret (x, c).
Proof. apply view_spec. Qed.

(** ** The registry *)

(** Replacing a scope by one that keeps its identity. *)
Lemma store_scope_wf c p s s' :
  wf c -> scopes c !! p = Some s -> scope_id s' = scope_id s -> num_slots s' = num_slots s ->
  full_scope_name s' = full_scope_name s -> 0 <= next_slot s' < 256 ->
  zlen (slot_names s') = num_slots s' -> wf (set_scopes <[p := s']> c).
Proof.
  intros Hwf Hp Hid Hns Hfn Hnext Hlen.
  assert (forall q sq, <[p:=s']> (scopes c) !! q = Some sq ->
    exists sq0, scopes c !! q = Some sq0 /\ scope_id sq = scope_id sq0 /\
      num_slots sq = num_slots sq0 /\ full_scope_name sq = full_scope_name sq0) as Hback.
  { intros q sq Hq. apply lookup_insert_Some in Hq as [[<- <-]|[_ Hq]]; eauto 10. }
  split; simpl; try apply Hwf.
  - intros q sq Hq. destruct (Hback q sq Hq) as (sq0 & Hq0 & Hi0 & Hn0 & Hf0).
    destruct (wf_scope _ Hwf _ _ Hq0). split; simpl; rewrite ?Hi0, ?Hn0, ?Hf0; try done.
    + apply lookup_insert_Some in Hq as [[<- <-]|[_ Hq]]; [done|]. by simplify_eq.
    + apply lookup_insert_Some in Hq as [[<- <-]|[_ Hq]]; [lia|]. by simplify_eq.
  - intros q q' sq sq' Hq Hq' Heq.
    destruct (Hback q sq Hq) as (sq0 & Hq0 & Hi0 & _).
    destruct (Hback q' sq' Hq') as (sq0' & Hq0' & Hi0' & _).
    eapply (wf_ids _ Hwf); [done|done|congruence].
  - intros n q Hq. destruct (wf_map _ Hwf n q Hq) as (sq & Hsq & Hn).
    destruct (decide (p = q)) as [<-|Hne].
    + exists s'. rewrite lookup_insert_eq. split; [done|]. congruence.
    + exists sq. by rewrite lookup_insert_ne.
  - intros i t id b Ht Hg. destruct (wf_block _ Hwf _ _ _ _ Ht Hg) as (blk & Hb & []).
    exists blk. split; [done|]. split; simpl; try done.
    intros q sq Hq Heq. destruct (Hback q sq Hq) as (sq0 & Hq0 & Hi0 & Hn0 & _).
    rewrite Hn0. apply (bo_len0 q sq0); [done|congruence].
Qed.

(** A new scope under a new name. *)
Definition add_scope c (s : ph_counter_scope) : counters :=
  set_scopes <[fresh c := s]> (set_scope_map (fun m => hs_put m (full_scope_name s) (fresh c))
    (set_fresh (Pos.succ (fresh c)) c)).

Lemma add_scope_wf c s id :
  wf (set_next_scope_id id c) -> 0 < id < 2 ^ 32 - 1 -> scope_id s = id ->
  hs_get (scope_map c) (full_scope_name s) = None ->
  0 <= num_slots s < 256 -> 0 <= next_slot s < 256 -> zlen (slot_names s) = num_slots s ->
  wf (add_scope (set_next_scope_id (id + 1) c) s).
Proof.
  intros Hwf Hid Hs Hnone Hns Hnx Hl.
  assert (forall q sq, scopes c !! q = Some sq -> q <> fresh c) as Hnew.
  { intros q sq Hq ->. destruct (wf_scope _ Hwf _ _ Hq). simpl in *. lia. }
  split; simpl.
  - intros q sq Hq. apply lookup_insert_Some in Hq as [[<- <-]|[Hne Hq]].
    + split; simpl; try done; try lia. rewrite hs_get_put. by rewrite decide_True.
    + destruct (wf_scope _ Hwf _ _ Hq) as [Hf Hi ? ? ? Hm]. simpl in *. split; simpl; try done; try lia.
      rewrite hs_get_put. rewrite decide_False; [done|]. intros Heq. rewrite <- Heq in Hm. congruence.
  - intros q q' sq sq' Hq Hq' Heq.
    apply lookup_insert_Some in Hq as [[<- <-]|[Hne Hq]];
      apply lookup_insert_Some in Hq' as [[<- <-]|[Hne' Hq']]; [done|..].
    + destruct (wf_scope _ Hwf _ _ Hq') as [_ Hi _ _ _ _]. simpl in Hi. lia.
    + destruct (wf_scope _ Hwf _ _ Hq) as [_ Hi _ _ _ _]. simpl in Hi. lia.
    + by eapply (wf_ids _ Hwf).
  - intros n q Hq. rewrite hs_get_put in Hq. case_decide.
    + simplify_eq. exists s. by rewrite lookup_insert_eq.
    + destruct (wf_map _ Hwf n q Hq) as (sq & Hsq & Hn). exists sq. split; [|done].
      rewrite lookup_insert_ne; [done|]. symmetry. by eapply Hnew.
  - intros i t id' b Ht Hg. destruct (wf_block _ Hwf _ _ _ _ Ht Hg) as (blk & Hb & [Hf Hi ? ? Hlen]).
    simpl in *. exists blk. split; [done|]. split; simpl; try done; try lia.
    intros q sq Hq Heq. apply lookup_insert_Some in Hq as [[<- <-]|[Hne Hq]]; [lia|].
    by eapply Hlen.
  - apply Hwf.
  - lia.
Qed.

Definition addref (s : ph_counter_scope) : ph_counter_scope :=
  Scope (ph_refcnt_add (refcnt s)) (scope_id s) (num_slots s) (next_slot s)
    (scope_name s) (full_scope_name s) (slot_names s).

Lemma scope_addref_eq c p s :
  scopes c !! p = Some s -> scope_addref p c = Ret (tt, set_scopes <[p := addref s]> c).
Proof. intros Hs. unfold scope_addref. by step_with (load_scope_eq c p s Hs). Qed.

(** The parent exists, and [full] is the full name of [path] under it. *)
Definition names c (parent : option positive) (path full : string) : Prop :=
  match parent with
  | Some q => exists s, scopes c !! q = Some s /\
      full = ((full_scope_name s) +:+ "." +:+ path)%string
  | None => full = path
  end.

Lemma full_name_eq c parent path full :
  names c parent path full -> full_name parent path c = Ret (full, c).
Proof.
  unfold names, full_name. destruct parent as [q|]; [|by intros ->].
  intros (s & Hs & ->). by step_with (load_scope_eq c q s Hs).
Qed.

Lemma alloc_id_spec c : wf c -> next_scope_id c < 2 ^ 32 - 2 ->
  exists id, alloc_scope_id c = Ret (id, set_next_scope_id (id + 1) c) /\
    0 < id < 2 ^ 32 - 1 /\ wf (set_next_scope_id id c).
Proof.
  intros Hwf Hn. pose proof (wf_next _ Hwf) as Hnn. unfold alloc_scope_id. case_bool; zbool.
  - exists 1. split; [done|]. split; [lia|]. destruct Hwf. split; simpl; try done.
    + intros p s Hp. destruct (wf_scope0 p s Hp). lia.
    + intros i t id b Ht Hg. destruct (wf_block0 i t id b Ht Hg) as (blk & Hb & []). lia.
  - exists (next_scope_id c). rewrite (wrapU_small 32) by lia. split; [done|]. split; [lia|].
    by destruct c.
Qed.

(** A scope defined under a valid new name can be resolved by its full name and
    leaves other names alone; a name that is taken is refused. *)
Theorem counter_define_resolve c parent path full n :
  wf c -> plenty c -> next_scope_id c < 2 ^ 32 - 2 -> names c parent path full ->
  is_valid_name path = true -> 0 <= n < 256 ->
  match hs_get (scope_map c) full with
  | Some _ => exists c', ph_counter_scope_define parent path n c = Ret (None, c') /\
      scopes c' = scopes c /\ scope_map c' = scope_map c
  | None => exists p c' c'', ph_counter_scope_define parent path n c = Ret (Some p, c') /\ wf c' /\
      scopes c !! p = None /\
      ph_counter_scope_resolve None full c' = Ret (Some p, c'') /\
      ph_counter_scope_get_name p c' = Ret (full, c') /\
      (forall name, name <> full -> hs_get (scope_map c') name = hs_get (scope_map c) name)
  end.
Proof.
  intros Hwf Hpl Hid Hnames Hvalid Hn.
  destruct (mem_ok_plenty c Hpl) as (o1 & H1 & Ho1).
  destruct (alloc_id_spec (set_oracle o1 c) (wf_set_oracle c o1 Hwf) Hid) as (id & Ha & Hidr & Hwfid).
  unfold ph_counter_scope_define. rewrite Hvalid. cbn [negb].
  step_with (full_name_eq _ _ _ _ Hnames). step_with H1. cbn [negb]. step_with Ha. step. step.
  cbn [scope_map set_fresh set_next_scope_id set_oracle].
  destruct (hs_get (scope_map c) full) as [q|] eqn:Eq; [by eexists|].
  step.
  destruct (mem_ok_plenty (set_scopes <[fresh c := Scope 1 id n 0 path full
      (replicate (Z.to_nat n) None)]> (set_fresh (Pos.succ (fresh c))
        (set_next_scope_id (id + 1) (set_oracle o1 c)))) Ho1) as (o2 & H2 & Ho2).
  step_with H2. step.
  set (s2 := Scope 2 id n 0 path full (replicate (Z.to_nat n) None)).
  set (c1 := set_oracle o1 c) in *.
  assert (wf (add_scope (set_next_scope_id (id + 1) c1) s2)) as Hwf'.
  { apply add_scope_wf; simpl; try done; try lia. rewrite length_replicate. lia. }
  exists (fresh c), (set_oracle o2 (add_scope (set_next_scope_id (id + 1) c1) s2)).
  eexists. split_and!.
  - erewrite bind_ret by (apply scope_addref_eq, lookup_insert_eq).
    unfold ret, add_scope, s2, set_scopes. simpl. by rewrite insert_insert_eq.
  - by apply wf_set_oracle.
  - destruct (scopes c !! fresh c) as [s|] eqn:E; [|done].
    destruct (wf_scope _ Hwf _ _ E). lia.
  - unfold ph_counter_scope_resolve. step. step.
    assert (hs_get (scope_map (set_oracle o2 (add_scope (set_next_scope_id (id + 1) c1) s2))) full
      = Some (fresh c)) as ->.
    { simpl. rewrite hs_get_put. by rewrite decide_True. }
    erewrite bind_ret by (apply scope_addref_eq, lookup_insert_eq). reflexivity.
  - unfold ph_counter_scope_get_name.
    by step_with (load_scope_eq (set_oracle o2 (add_scope (set_next_scope_id (id + 1) c1) s2))
      (fresh c) s2 (lookup_insert_eq (scopes c) (fresh c) _)).
  - intros name Hne. simpl. rewrite hs_get_put. by rewrite decide_False.
Qed.

(** Dropping a reference to a scope only counts down until the last one, which
    removes the scope and its name. *)
Theorem counter_delref_spec c p s :
  wf c -> scopes c !! p = Some s -> 1 <= refcnt s < 2 ^ 31 -> next_slot s <= num_slots s ->
  exists c', ph_counter_scope_delref p c = Ret (tt, c') /\ wf c' /\
    scopes c' !! p = (if refcnt s =? 1 then None else
      Some (Scope (refcnt s - 1) (scope_id s) (num_slots s) (next_slot s) (scope_name s)
              (full_scope_name s) (slot_names s))) /\
    hs_get (scope_map c') (full_scope_name s) = (if refcnt s =? 1 then None else Some p) /\
    (forall q, q <> p -> scopes c' !! q = scopes c !! q).
Proof.
  intros Hwf Hp Href Hnx. pose proof (wf_scope _ Hwf _ _ Hp) as Hso.
  unfold ph_counter_scope_delref. step_with (load_scope_eq c p s Hp). unfold ph_refcnt_del.
  assert (s32 (refcnt s - 1) = refcnt s - 1) as Hr by (apply wrapS_small; lia). rewrite Hr. step.
  set (s' := Scope (refcnt s - 1) _ _ _ _ _ _).
  assert (wf (set_scopes <[p := s']> c)) as Hwf'.
  { apply (store_scope_wf c p s); try done; apply Hso. }
  destruct (refcnt s =? 1) eqn:E.
  2:{ eexists. split; [reflexivity|]. split; [done|]. simpl. split; [apply lookup_insert_eq|].
      split; [apply Hso|]. intros q Hq. by apply lookup_insert_ne. }
  unfold free_slot_names. simpl next_slot. simpl num_slots.
  rewrite (proj2 (Z.leb_le _ _)) by done. step. step.
  eexists. split; [reflexivity|]. simpl. split_and!.
  - split; simpl; try apply Hwf'.
    + intros q sq Hq. apply lookup_delete_Some in Hq as [Hne Hq].
      destruct (wf_scope _ Hwf' q sq Hq) as [? ? ? ? ? Hm]. split; try done.
      simpl in *. rewrite hs_get_remove. rewrite decide_False; [done|].
      intros Heq. rewrite <- Heq in Hm. rewrite (so_map _ _ _ Hso) in Hm. congruence.
    + intros q q' sq sq' Hq Hq'. apply lookup_delete_Some in Hq as [_ Hq].
      apply lookup_delete_Some in Hq' as [_ Hq']. by eapply (wf_ids _ Hwf').
    + intros n q Hq. rewrite hs_get_remove in Hq. case_decide as Hn; [done|].
      destruct (wf_map _ Hwf' n q Hq) as (sq & Hsq & Hf). exists sq. split; [|done].
      rewrite lookup_delete_ne; [done|]. intros <-. simpl in Hsq. rewrite lookup_insert_eq in Hsq.
      by simplify_eq.
    + intros i t id b Ht Hg. destruct (wf_block _ Hwf' _ _ _ _ Ht Hg) as (blk & Hb & []).
      exists blk. split; [done|]. split; try done. simpl in *.
      intros q sq Hq Heq. apply lookup_delete_Some in Hq as [_ Hq]. by eapply bo_len0.
  - apply lookup_delete_eq.
  - rewrite hs_get_remove. by rewrite decide_True.
  - intros q Hq. by rewrite lookup_delete_ne, lookup_insert_ne.
Qed.

Lemma counter_init_wf n o : 0 <= n < 2 ^ 32 -> wf (set_next_scope_id n (counter_init o)).
Proof.
  intros Hn. split; simpl; try done.
  - intros name p Hp. by rewrite hs_get_init in Hp.
  - intros i t id b Ht Hg. apply list_lookup_singleton_Some in Ht as [_ <-].
    by rewrite hs_get_init in Hg.
  - intros i j t t' id id' b Ht _ Hg. apply list_lookup_singleton_Some in Ht as [_ <-].
    by rewrite hs_get_init in Hg.
Qed.

(** Registering a counter takes the next slot and its name, or reports that the
    scope is full. *)
Theorem counter_register_spec c p s name :
  wf c -> scopes c !! p = Some s -> next_slot s <= num_slots s ->
  exists slot c', ph_counter_scope_register_counter p name c = Ret (slot, c') /\ wf c' /\
    if next_slot s <? num_slots s
    then slot = next_slot s /\ exists s', scopes c' !! p = Some s' /\
           next_slot s' = next_slot s + 1 /\
           slot_names s' = <[Z.to_nat slot := Some name]> (slot_names s)
    else slot = PH_COUNTER_INVALID.
Proof.
  intros Hwf Hp Hnx. pose proof (wf_scope _ Hwf _ _ Hp) as [_ _ Hns Hnext Hlen _].
  unfold ph_counter_scope_register_counter. step_with (load_scope_eq c p s Hp).
  assert (forall names, zlen names = num_slots s ->
    wf (set_scopes <[p := with_next_slot (u8 (next_slot s + 1)) names s]> c)) as Hw.
  { intros names Hl. apply (store_scope_wf c p s); try done. by apply wrapU_bound. }
  rewrite Z.leb_antisym. destruct (next_slot s <? num_slots s) eqn:E; cbn [negb]; zbool; step.
  - do 2 eexists. split; [reflexivity|]. split; [apply Hw; by rewrite length_insert|].
    split; [done|]. eexists. simpl. rewrite lookup_insert_eq. split; [done|]. simpl.
    split; [|done]. apply wrapU_small. lia.
  - do 2 eexists. split; [reflexivity|]. split; [by apply Hw|done].
Qed.

End proofs.

(** ** A concrete registry: one scope "a" with two counters *)

Definition demo_scope : ph_counter_scope := Scope 2 1 2 2 "a" "a" [Some "x"; Some "y"].
Definition demo : counters :=
  add_scope (set_next_scope_id 2 (counter_init [])) demo_scope.

Lemma demo_counter_wf : wf demo.
Proof.
  apply (add_scope_wf (counter_init []) demo_scope 1); try done. by apply counter_init_wf.
Qed.

Lemma counter_add_get_witness :
  exists c', ph_counter_scope_add 0 1 1 5 demo = Ret (tt, c') /\
    ph_counter_scope_get 1 1 c' = Ret (5, c').
Proof.
  destruct (counter_add_get demo 0 1 demo_scope 1 5 demo_counter_wf) as (c' & Hadd & _ & Hget).
  - constructor.
  - reflexivity.
  - simpl. lia.
  - simpl. lia.
  - exists c'. split; [exact Hadd|].
    destruct (Hget 1%positive demo_scope 1) as (x & Hx & Hg); [reflexivity|simpl; lia|].
    rewrite Hg. vm_compute in Hx. injection Hx as <-. reflexivity.
Defined.

Lemma counter_view_get_witness :
  exists v names, ph_counter_scope_get_view 1 10 demo = Ret ((2, v, names), demo) /\ zlen v = 2.
Proof.
  destruct (counter_view_get demo 1 demo_scope 10 demo_counter_wf) as (v & names & Hv & Hl & _);
    [reflexivity|lia|].
  exists v, names. split; [exact Hv|exact Hl].
Defined.

Lemma counter_define_resolve_witness :
  exists p c' c'', ph_counter_scope_define (Some 1%positive) "b" 3 demo = Ret (Some p, c') /\
    wf c' /\ ph_counter_scope_resolve None "a.b" c' = Ret (Some p, c'').
Proof.
  pose proof (counter_define_resolve demo (Some 1%positive) "b" "a.b" 3 demo_counter_wf) as H.
  assert (hs_get (scope_map demo) "a.b" = None) as E by reflexivity. rewrite E in H.
  destruct H as (p & c' & c'' & Hd & Hwf & _ & Hr & _).
  - constructor.
  - simpl. lia.
  - exists demo_scope. split; reflexivity.
  - reflexivity.
  - lia.
  - exists p, c', c''. split; [exact Hd|]. split; [exact Hwf|exact Hr].
Defined.

Lemma counter_delref_spec_witness :
  exists c', ph_counter_scope_delref 1 demo = Ret (tt, c') /\ wf c' /\
    hs_get (scope_map c') "a" = Some 1%positive.
Proof.
  destruct (counter_delref_spec demo 1 demo_scope demo_counter_wf) as (c' & Hd & Hwf & _ & Hm & _);
    [reflexivity|simpl; lia|simpl; lia|].
  exists c'. split; [exact Hd|]. split; [exact Hwf|exact Hm].
Defined.

Lemma counter_register_spec_witness :
  exists slot c', ph_counter_scope_register_counter 1 "z" demo = Ret (slot, c') /\
    slot = PH_COUNTER_INVALID.
Proof.
  destruct (counter_register_spec demo 1 demo_scope "z" demo_counter_wf) as (slot & c' & Hr & _ & Hs);
    [reflexivity|simpl; lia|].
  exists slot, c'. split; [exact Hr|exact Hs].
Defined.

(** After a registration that failed, releasing the scope frees names past the
    end of its array. *)
Theorem counter_failed_register_breaks_release :
  (op <-- ph_counter_scope_define None "a" 1 ;;
   match op with
   | None => ret None
   | Some p =>
       a <-- ph_counter_scope_register_counter p "x" ;;
       b <-- ph_counter_scope_register_counter p "y" ;;
       ph_counter_scope_delref p ;;;
       ret (Some (p, a, b))
   end) (counter_init []) =
  Ret (Some (1%positive, 0, PH_COUNTER_INVALID),
       add_scope (set_next_scope_id 2 (counter_init [])) (Scope 1 1 1 2 "a" "a" [Some "x"])) /\
  ph_counter_scope_delref 1
    (add_scope (set_next_scope_id 2 (counter_init [])) (Scope 1 1 1 2 "a" "a" [Some "x"])) = Fault.
Proof. split; vm_compute; reflexivity. Qed.

End CounterProofs.
