(* ===== verification/CounterSeq.v ===== *)
(** * The sequence lock of a counter block

    The owner of a block updates it while other threads copy it
    ([ph_counter_scope_get_view]).  Writer and reader are interleaved at the
    granularity of single memory accesses, in a sequentially consistent order.
    A step is labelled with what it adds to [seqno]. *)

From Stdlib Require Import ZArith Lia.
From stdpp Require Import base numbers list.
From S2P Require Import Prelude Counter.

Module CounterSeq.
Import Counter.

(** Where the owning thread is: between calls, inside the loop of
    [ph_counter_block_bulk_add] with the updates left, or inside
    [ph_counter_block_add] before [ph_counter_block_record_write]. *)
Inductive writer := WIdle | WBulk (left : list (Z * Z)) | WAddEnd.

(** Where the reader is in the retry loop: about to call [read_begin], in the
    [memcpy] with the slots copied so far, or past [read_retry]. *)
Inductive reader := RBegin | RCopy (vers : Z) (copied : list Z) | RDone (copied : list Z).

Record state := State { seqno : Z; slots : list Z; w : writer; r : reader }.

(** One iteration of [read_begin]: the version, once it is even. *)
Definition read_begin (s : state) : option Z :=
  if Z.land (seqno s) 1 =? 0 then Some (seqno s) else None.

Definition read_retry (s : state) (vers : Z) : bool := negb (seqno s =? vers).

Section seqlock.
(** The number of slots the reader asks for. *)
Context (num_slots : nat).

Inductive step : state -> Z -> state -> Prop :=
  | bulk_begin q l rd us :
      step (State q l WIdle rd) 1 (State (u32 (q + 1)) l (WBulk us) rd)
  | bulk_slot q l l' rd o v us :
      slot_add l o v = Some l' ->
      step (State q l (WBulk ((o, v) :: us)) rd) 0 (State q l' (WBulk us) rd)
  | bulk_end q l rd :
      step (State q l (WBulk []) rd) 1 (State (u32 (q + 1)) l WIdle rd)
  | add_slot q l l' rd o v :
      slot_add l o v = Some l' ->
      step (State q l WIdle rd) 0 (State q l' WAddEnd rd)
  | add_end q l rd :
      step (State q l WAddEnd rd) 2 (State (u32 (q + 2)) l WIdle rd)
  | r_begin q l wr v :
      read_begin (State q l wr RBegin) = Some v ->
      step (State q l wr RBegin) 0 (State q l wr (RCopy v []))
  | r_stall q l wr :
      read_begin (State q l wr RBegin) = None ->
      step (State q l wr RBegin) 0 (State q l wr RBegin)
  | r_copy q l wr v acc x :
      (length acc < num_slots)%nat -> l !! length acc = Some x ->
      step (State q l wr (RCopy v acc)) 0 (State q l wr (RCopy v (acc ++ [x])))
  | r_again q l wr v acc :
      length acc = num_slots -> read_retry (State q l wr (RCopy v acc)) v = true ->
      step (State q l wr (RCopy v acc)) 0 (State q l wr RBegin)
  | r_finish q l wr v acc :
      length acc = num_slots -> read_retry (State q l wr (RCopy v acc)) v = false ->
      step (State q l wr (RCopy v acc)) 0 (State q l wr (RDone acc)).

(** [run s0 tr k s]: from [s0] to [s] through the states [tr] (both ends
    included), [seqno] having been advanced by [k] in total. *)
Inductive run (s0 : state) : list state -> Z -> state -> Prop :=
  | run_nil : run s0 [s0] 0 s0
  | run_step tr k s n s' : run s0 tr k s -> step s n s' -> run s0 (tr ++ [s']) (k + n) s'.

(** No bulk update is in progress. *)
Definition quiescent (s : state) : Prop :=
  match w s with WBulk _ => False | _ => True end.

(** The parity of [seqno] tells whether a bulk update is in progress. *)
Definition parity (s : state) : Prop :=
  0 <= seqno s < 2 ^ 32 /\ (Z.land (seqno s) 1 = 0 <-> quiescent s).

Lemma land_1 x : Z.land x 1 = x mod 2.
Proof. by rewrite (land_mask x 1). Qed.

Lemma u32_parity x : u32 x mod 2 = x mod 2.
Proof.
  unfold wrapU. rewrite <- Znumtheory.Zmod_div_mod; [done|lia|lia|]. by exists (2 ^ 31).
Qed.

Lemma slot_add_length l o v l' : slot_add l o v = Some l' -> length l' = length l.
Proof.
  unfold slot_add. destruct (l !! Z.to_nat o); intros H; simplify_eq. apply length_insert.
Qed.

Lemma step_parity s n s' : step s n s' -> parity s -> parity s' /\ seqno s' = u32 (seqno s + n).
Proof.
  intros Hs [Hb Hp]. unfold parity, quiescent in *.
  destruct Hs; cbn [seqno w] in *; rewrite ?land_1 in *; rewrite ?u32_parity;
    try (split; [done|]; symmetry; rewrite Z.add_0_r; by apply wrapU_small).
  all: split; [|done]; split; [by apply wrapU_bound|].
  - destruct Hp as [_ Hp]. specialize (Hp I). rewrite Zplus_mod, Hp. done.
  - assert (q mod 2 <> 0) as Hne by (intros H0; by apply Hp).
    pose proof (Z.mod_pos_bound q 2 ltac:(lia)). rewrite Zplus_mod. replace (q mod 2) with 1 by lia. done.
  - destruct Hp as [_ Hp]. specialize (Hp I). rewrite Zplus_mod, Hp. done.
Qed.

Lemma step_length s n s' : step s n s' -> length (slots s') = length (slots s) /\ 0 <= n <= 2.
Proof.
  intros Hs. destruct Hs; cbn [slots]; split; try done; try lia; by eapply slot_add_length.
Qed.

(** A copy in progress that no write has invalidated agrees with a quiescent
    state [m] of the trace: on what is copied, and on what is left to copy. *)
Definition copying (tr : list state) (s : state) (acc : list Z) : Prop :=
  quiescent s /\ exists m, m ∈ tr /\ quiescent m /\ acc = take (length acc) (slots m) /\
    drop (length acc) (slots s) = drop (length acc) (slots m) /\
    (w s = WIdle -> slots s = slots m).

Definition inv (q0 : Z) (tr : list state) (k : Z) (s : state) : Prop :=
  match r s with
  | RBegin => True
  | RCopy vers acc => exists kb, 0 <= kb <= k /\ vers = u32 (q0 + kb) /\ (kb = k -> copying tr s acc)
  | RDone acc => exists m, m ∈ tr /\ quiescent m /\ acc = take num_slots (slots m)
  end.

Lemma copying_add tr q l l' acc rd rd' o v :
  slot_add l o v = Some l' -> copying tr (State q l WIdle rd) acc ->
  copying (tr ++ [State q l' WAddEnd rd']) (State q l' WAddEnd rd') acc.
Proof.
  intros Ha (_ & m & Hm & Hqm & Hacc & _ & Heq). specialize (Heq eq_refl). simpl in Heq. subst l.
  unfold slot_add in Ha. destruct (slots m !! Z.to_nat o) as [x|]; simplify_eq.
  split; [done|]. destruct (decide (Z.to_nat o < length acc)%nat).
  - exists m. split_and!; [apply elem_of_app; by left|done|done| |done].
    simpl. by rewrite drop_insert_lt.
  - eexists. split; [apply elem_of_app; right; by apply list_elem_of_singleton|].
    split_and!; [done| |done|done]. simpl. rewrite take_insert_ge by lia. done.
Qed.

Lemma copying_frame tr tr' s s' acc :
  tr ⊆ tr' -> slots s' = slots s -> w s' = w s -> copying tr s acc -> copying tr' s' acc.
Proof.
  intros Hsub Hsl Hw (Hq & m & Hm & Hrest). unfold copying, quiescent in *. rewrite Hsl, Hw.
  split; [done|]. exists m. split; [by apply Hsub|done].
Qed.

Lemma step_inv q0 tr k s n s' :
  seqno s = u32 (q0 + k) -> parity s -> 0 <= k -> k + n < 2 ^ 32 -> s ∈ tr ->
  step s n s' -> inv q0 tr k s -> inv q0 (tr ++ [s']) (k + n) s'.
Proof.
  intros Hseq Hpar Hk0 Hkb Hin Hs Hinv.
  assert (tr ⊆ tr ++ [s']) as Hsub by (intros x Hx; apply elem_of_app; by left).
  pose proof (proj2 (step_length _ _ _ Hs)) as Hn.
  assert (forall acc, r s = RDone acc -> r s' = RDone acc -> inv q0 (tr ++ [s']) (k + n) s') as Hdone.
  { unfold inv in *. intros acc E1 E2. rewrite E1 in Hinv. rewrite E2. destruct Hinv as (m & Hm & Hrest). exists m.
    split; [by apply Hsub|done]. }
  assert (forall v acc, r s = RCopy v acc -> r s' = RCopy v acc ->
    (n = 0 -> copying tr s acc -> copying (tr ++ [s']) s' acc) -> inv q0 (tr ++ [s']) (k + n) s') as Hcopy.
  { unfold inv in *. intros v acc E1 E2 Hc. rewrite E1 in Hinv. rewrite E2. destruct Hinv as (kb & Hkb' & Hv & Hco).
    exists kb. split; [lia|]. split; [done|]. intros ->. assert (n = 0) as -> by lia.
    apply Hc; [done|]. apply Hco. lia. }
  destruct Hs; cbn [seqno slots w r] in *;
    try (destruct rd as [|v' acc'|acc']; [done|eapply Hcopy; [done..|]|by eapply Hdone]);
    try (intros; lia).
  - intros _ [[] _].
  - intros _. by eapply copying_add.
  - (* r_begin *)
    unfold inv. cbn [r]. unfold read_begin in H. cbn [seqno] in H. case_bool; [|done]. injection H as <-. zbool.
    exists k. split; [lia|]. split; [done|]. intros _.
    assert (quiescent (State q l wr RBegin)) as Hq by (by apply Hpar).
    split; [done|]. eexists. split; [by apply Hsub|]. done.
  - done.
  - (* r_copy *)
    unfold inv in *. cbn [r] in *. destruct Hinv as (kb & Hkb' & Hv & Hco).
    exists kb. split; [lia|]. split; [done|]. intros ->.
    destruct Hco as (Hq & m & Hm & Hqm & Hacc & Hdrop & Hw); [lia|]. cbn [slots w] in *.
    assert (slots m !! length acc = Some x) as Hx.
    { rewrite <- (Nat.add_0_r (length acc)) in H0 |- *.
      rewrite <- lookup_drop in H0 |- *. by rewrite <- Hdrop. }
    split; [done|]. exists m. split_and!; [by apply Hsub|done| | |done].
    + rewrite length_app. simpl. rewrite Nat.add_1_r. by rewrite (take_S_r _ _ _ Hx), <- Hacc.
    + rewrite length_app. cbn [slots length]. rewrite <- !drop_drop. by rewrite Hdrop.
  - done.
  - (* r_finish *)
    unfold inv in *. cbn [r] in *. destruct Hinv as (kb & Hkb' & Hv & Hco).
    unfold read_retry in H0. cbn [seqno] in H0. zbool.
    assert (kb = k) as ->.
    { assert ((k - kb) mod 2 ^ 32 = 0) as Hm.
      { unfold wrapU in *. replace (k - kb) with ((q0 + k) - (q0 + kb)) by lia.
        rewrite Zminus_mod, <- Hseq, H0, Hv, Z.sub_diag. done. }
      rewrite Z.mod_small in Hm; lia. }
    destruct Hco as (Hq & m & Hm & Hqm & Hacc & _); [done|].
    exists m. split_and!; [by apply Hsub|done|]. by rewrite <- H.
Qed.

Lemma run_inv s0 tr k s :
  run s0 tr k s -> parity s0 ->
  r s0 = RBegin -> k < 2 ^ 32 ->
  parity s /\ 0 <= k /\ seqno s = u32 (seqno s0 + k) /\ s ∈ tr /\ inv (seqno s0) tr k s.
Proof.
  intros Hrun Hp0 Hr0. induction Hrun as [|tr k s n s' Hrun IH Hs]; intros Hk.
  - split; [done|]. split; [lia|]. split; [|split; [by apply list_elem_of_singleton|]].
    + rewrite Z.add_0_r. symmetry. apply wrapU_small, Hp0.
    + unfold inv. by rewrite Hr0.
  - pose proof (proj2 (step_length _ _ _ Hs)) as Hn.
    destruct IH as (Hp & Hk0 & Hseq & Hin & Hinv); [lia|].
    destruct (step_parity _ _ _ Hs Hp) as [Hp' Hseq'].
    split; [done|]. split; [lia|].
    split; [rewrite Hseq', Hseq, wrapU_add_l by lia; f_equal; lia|].
    split; [apply elem_of_app; right; by apply list_elem_of_singleton|].
    by eapply step_inv.
Qed.


End seqlock.

(** A read that overlaps an update of the second of two slots. *)
Definition demo_run : list state :=
  [State 0 [1; 2] WIdle RBegin; State 0 [1; 2] WIdle (RCopy 0 []);
   State 0 [1; 2] WIdle (RCopy 0 [1]); State 0 [1; 7] WAddEnd (RCopy 0 [1]);
   State 0 [1; 7] WAddEnd (RCopy 0 [1; 7]); State 0 [1; 7] WAddEnd (RDone [1; 7])].

Lemma demo_run_ok :
  run 2 (State 0 [1; 2] WIdle RBegin) demo_run 0 (State 0 [1; 7] WAddEnd (RDone [1; 7])).
Proof.
  refine (run_step _ _ (removelast demo_run) 0 _ 0 _ _ (r_finish 2 0 [1; 7] WAddEnd 0 [1; 7] eq_refl eq_refl)).
  refine (run_step _ _ (take 4 demo_run) 0 _ 0 _ _ (r_copy 2 0 [1; 7] WAddEnd 0 [1] 7 _ eq_refl)); [|simpl; lia].
  refine (run_step _ _ (take 3 demo_run) 0 _ 0 _ _ (add_slot 2 0 [1; 2] [1; 7] _ 1 5 eq_refl)).
  refine (run_step _ _ (take 2 demo_run) 0 _ 0 _ _ (r_copy 2 0 [1; 2] WIdle 0 [] 1 _ eq_refl)); [|simpl; lia].
  refine (run_step _ _ (take 1 demo_run) 0 _ 0 _ _ (r_begin 2 0 [1; 2] WIdle 0 eq_refl)).
  constructor.
Qed.


End CounterSeq.
