(* ===== verification/Memory.v ===== *)
(** * The accounting allocator of corelib/memory.c

    A memtype is an index in the table of registered types; its statistics
    live in a counter scope.  A heap block has the bytes handed to the caller
    and, for a variable-size memtype, the [sized_header] in the 16 bytes
    before them.  A pointer is a block and an offset from the start of what
    [malloc] returned, so the caller of [ph_mem_alloc_size] holds offset 16. *)

From Stdlib Require Import ZArith Lia.
From stdpp Require Import base numbers list gmap strings.
From S2P Require Import Prelude SysUtil Counter.

Module Memory.
Import Counter.

Definition PH_MEMTYPE_INVALID : Z := 0.
Definition PH_MEMTYPE_FIRST : Z := 2.
Definition PH_MEM_FLAGS_ZERO : Z := 1.
Definition PH_MEM_FLAGS_PANIC : Z := 2.

Record ph_memtype_def := MemtypeDef {
  facility : string;
  name : string;
  item_size : Z;
  flags : Z;
}.

Record mem_type := MemType {
  def : ph_memtype_def;
  scope : option positive;
  first_slot : Z;
}.

Definition HEADER_RESERVATION : Z := 16.
Record sized_header := Header { h_mt : Z; h_size : Z }.

Definition sized_counter_names : list string := ["bytes"; "oom"; "allocs"; "frees"].
Definition vsize_counter_names : list string := ["bytes"; "oom"; "allocs"; "frees"; "realloc"].

Definition SLOT_BYTES : Z := 0.
Definition SLOT_OOM : Z := 1.
Definition SLOT_ALLOCS : Z := 2.
Definition SLOT_FREES : Z := 3.
Definition SLOT_REALLOC : Z := 4.
Definition MEM_COUNTER_SLOTS : Z := 5.

(** A block of the C heap.  [owner] is the memtype it was allocated for; the
    program stores it only in the header. *)
Record hblock := HBlock {
  owner : Z;
  hdr : option sized_header;
  data : list Z;
}.

Definition ptr := option (positive * Z).

Record ph_mem_stats := MemStats {
  st_def : ph_memtype_def;
  bytes : Z;
  oom : Z;
  allocs : Z;
  frees : Z;
  reallocs : Z;
}.

Section memory.
Context `{HSname : ck_hs string} `{HSid : ck_hs Z}.
(** The bytes [malloc] happens to return. *)
Context (junk : positive -> nat -> Z).
(** The thread that calls. *)
Context (self : nat).

Record mem := Mem {
  ctr : counters;
  memory_scope : positive;
  memtypes_size : Z;
  memtypes : list (option mem_type);
  next_memtype : Z;
  heap : gmap positive hblock;
  hfresh : positive;
}.

Definition set_ctr c (m : mem) :=
  Mem c (memory_scope m) (memtypes_size m) (memtypes m) (next_memtype m) (heap m) (hfresh m).
Definition set_memtypes l (m : mem) :=
  Mem (ctr m) (memory_scope m) (memtypes_size m) l (next_memtype m) (heap m) (hfresh m).
Definition set_next_memtype n (m : mem) :=
  Mem (ctr m) (memory_scope m) (memtypes_size m) (memtypes m) n (heap m) (hfresh m).
Definition set_heap h (m : mem) :=
  Mem (ctr m) (memory_scope m) (memtypes_size m) (memtypes m) (next_memtype m) h (hfresh m).
Definition set_hfresh p (m : mem) :=
  Mem (ctr m) (memory_scope m) (memtypes_size m) (memtypes m) (next_memtype m) (heap m) p.

Definition lift {A} (f : M counters A) : M mem A := fun m =>
  match f (ctr m) with
  | Ret (a, c) => Ret (a, set_ctr c m)
  | Panic => Panic
  | Fault => Fault
  end.

Definition memory_init (c : counters) : outcome mem :=
  match (ok <-- mem_ok ;;
         if (ok : bool) then ph_counter_scope_define None "memory" 16 else panic) c with
  | Ret (Some p, c) => Ret (Mem c p 1024 (replicate 1024 None) PH_MEMTYPE_FIRST ∅ 1)
  | Ret (None, _) => Panic
  | Panic => Panic
  | Fault => Fault
  end.

Definition resolve_facility (fac : string) : M mem (option positive) :=
  m <-- get ;;
  o <-- lift (ph_counter_scope_resolve (Some (memory_scope m)) fac) ;;
  match o with
  | Some s => ret (Some s)
  | None => lift (ph_counter_scope_define (Some (memory_scope m)) fac 0)
  end.

Definition counter_names (d : ph_memtype_def) : list string * Z :=
  if item_size d =? 0 then (vsize_counter_names, MEM_COUNTER_SLOTS)
  else (sized_counter_names, MEM_COUNTER_SLOTS - 1).

(** [ck_pr_faa_int(&next_memtype, n)] and the check of the table's size. *)
Definition claim_memtypes (n : Z) : M mem Z :=
  m <-- get ;;
  let mt := next_memtype m in
  put (set_next_memtype (s32 (mt + n)) m) ;;;
  if memtypes_size m <=? u32 mt then panic else ret mt.

Definition store_memtype (mt : Z) (t : mem_type) : M mem unit :=
  m <-- get ;;
  if memtypes_size m <=? mt then fault
  else put (set_memtypes (<[Z.to_nat mt := Some t]> (memtypes m)) m).

Definition ph_memtype_register (d : ph_memtype_def) : M mem Z :=
  fac_scope <-- resolve_facility (facility d) ;;
  match fac_scope with
  | None => ret PH_MEMTYPE_INVALID
  | Some fac_scope =>
      sc <-- lift (ph_counter_scope_define (Some fac_scope) (name d) MEM_COUNTER_SLOTS) ;;
      lift (ph_counter_scope_delref fac_scope) ;;;
      match sc with
      | None => ret PH_MEMTYPE_INVALID
      | Some sc =>
          mt <-- claim_memtypes 1 ;;
          store_memtype mt (MemType d (Some sc) 0) ;;;
          let '(names, num_slots) := counter_names d in
          ok <-- lift (ph_counter_scope_register_counter_block sc num_slots 0 names) ;;
          if negb ok then panic else ret mt
      end
  end.

(** The loop of [ph_memtype_register_block] from type [mt] on; false when a
    scope could not be defined. *)
Fixpoint register_loop (fac_scope : positive) (defs : list ph_memtype_def) (mt : Z) : M mem bool :=
  match defs with
  | [] => ret true
  | d :: defs =>
      store_memtype mt (MemType d None 0) ;;;
      sc <-- lift (ph_counter_scope_define (Some fac_scope) (name d) MEM_COUNTER_SLOTS) ;;
      match sc with
      | None => ret false
      | Some sc =>
          n <-- lift (ph_counter_scope_get_num_slots sc) ;;
          store_memtype mt (MemType d (Some sc) n) ;;;
          let '(names, num_slots) := counter_names d in
          ok <-- lift (ph_counter_scope_register_counter_block sc num_slots 0 names) ;;
          if negb ok then panic else register_loop fac_scope defs (mt + 1)
      end
  end.

(** The first memtype of the block, and the array of all of them. *)
Definition ph_memtype_register_block (defs : list ph_memtype_def) : M mem (Z * list Z) :=
  match defs with
  | [] => fault
  | d0 :: _ =>
      if negb (forallb (fun d => bool_decide (facility d0 = facility d)) defs)
      then ret (PH_MEMTYPE_INVALID, [])
      else
        fac_scope <-- resolve_facility (facility d0) ;;
        match fac_scope with
        | None => ret (PH_MEMTYPE_INVALID, [])
        | Some fac_scope =>
            mt <-- claim_memtypes (zlen defs) ;;
            ok <-- register_loop fac_scope defs mt ;;
            if negb ok then ret (PH_MEMTYPE_INVALID, [])
            else
              lift (ph_counter_scope_delref fac_scope) ;;;
              ret (mt, (fun i => mt + Z.of_nat i) <$> seq 0 (length defs))
        end
  end.

Definition resolve_mt (mt : Z) : M mem mem_type :=
  m <-- get ;;
  if (mt <? PH_MEMTYPE_FIRST) || (next_memtype m <=? mt) then panic
  else of_option (mjoin (memtypes m !! Z.to_nat mt)).

(** [ph_counter_block_open], [bulk_add], [delref]; the block is not checked
    for NULL. *)
Definition account (t : mem_type) (updates : list (Z * Z)) : M mem unit :=
  sc <-- of_option (scope t) ;;
  ob <-- lift (ph_counter_block_open self sc) ;;
  b <-- of_option ob ;;
  lift (ph_counter_block_bulk_add b updates) ;;;
  lift (ph_counter_block_delref b).

(** The out-of-memory path: count it, and panic if the memtype says so. *)
Definition out_of_memory (t : mem_type) : M mem ptr :=
  sc <-- of_option (scope t) ;;
  lift (ph_counter_scope_add self sc (u8 (first_slot t + SLOT_OOM)) 1) ;;;
  if Z.land (flags (def t)) PH_MEM_FLAGS_PANIC =? 0 then ret None else panic.

(** [n] bytes as [malloc] returns them, or zeroed. *)
Definition fresh_bytes (t : mem_type) (b : positive) (n : Z) : list Z :=
  if Z.land (flags (def t)) PH_MEM_FLAGS_ZERO =? 0
  then junk b <$> seq 0 (Z.to_nat n) else replicate (Z.to_nat n) 0.

Definition new_block (blk : positive -> hblock) : M mem positive := fun m =>
  let b := hfresh m in
  Ret (b, set_hfresh (Pos.succ b) (set_heap (<[b := blk b]> (heap m)) m)).

Definition ph_mem_alloc (mt : Z) : M mem ptr :=
  t <-- resolve_mt mt ;;
  let n := item_size (def t) in
  if n =? 0 then panic
  else
    ok <-- lift mem_ok ;;
    if (ok : bool) then
      b <-- new_block (fun b => HBlock mt None (fresh_bytes t b n)) ;;
      account t [(SLOT_BYTES, s64 n); (SLOT_ALLOCS, 1)] ;;;
      ret (Some (b, 0))
    else out_of_memory t.

Definition ph_mem_alloc_size (mt size : Z) : M mem ptr :=
  t <-- resolve_mt mt ;;
  if negb (item_size (def t) =? 0) then panic
  else if INT64_MAX <? size then ret None
  else
    ok <-- lift mem_ok ;;
    if (ok : bool) then
      b <-- new_block (fun b => HBlock mt (Some (Header mt size)) (fresh_bytes t b size)) ;;
      account t [(SLOT_BYTES, s64 size); (SLOT_ALLOCS, 1)] ;;;
      ret (Some (b, HEADER_RESERVATION))
    else out_of_memory t.

(** [str] is the C string without its NUL. *)
Definition ph_mem_strdup (memtype : Z) (str : list Z) : M mem ptr :=
  let len := u32 (zlen str + 1) in
  d <-- ph_mem_alloc_size memtype len ;;
  match d with
  | None => ret None
  | Some (b, off) =>
      m <-- get ;;
      blk <-- of_option (heap m !! b) ;;
      put (set_heap (<[b := HBlock (owner blk) (hdr blk)
             (splice 0 (take (Z.to_nat len) (str ++ [0])) (data blk))]> (heap m)) m) ;;;
      ret (Some (b, off))
  end.

(** [free] of the pointer [malloc] returned. *)
Definition free (b : positive) : M mem unit :=
  m <-- get ;; put (set_heap (delete b (heap m)) m).

(** The header before a caller's pointer. *)
Definition load_header (p : positive * Z) : M mem sized_header :=
  m <-- get ;;
  blk <-- of_option (heap m !! p.1) ;;
  match hdr blk with
  | Some h => if p.2 =? HEADER_RESERVATION then ret h else fault
  | None => fault
  end.

Definition ph_mem_free (mt : Z) (p : ptr) : M mem unit :=
  match p with
  | None => ret tt
  | Some (b, off) =>
      t <-- resolve_mt mt ;;
      size <-- (if negb (item_size (def t) =? 0) then
                  m <-- get ;;
                  blk <-- of_option (heap m !! b) ;;
                  if off =? 0 then ret (item_size (def t)) else fault
                else
                  h <-- load_header (b, off) ;;
                  if negb (h_mt h =? mt) then panic else ret (h_size h)) ;;
      free b ;;;
      account t [(SLOT_BYTES, s64 (- size)); (SLOT_FREES, 1)]
  end.

(** libc [realloc]: a new block with the old bytes as far as they fit. *)
Definition moved_bytes (t : mem_type) (b : positive) (old : list Z) (size : Z) : list Z :=
  let n := Z.to_nat size in
  take n old ++
  (if Z.land (flags (def t)) PH_MEM_FLAGS_ZERO =? 0
   then (fun i => junk b (length old + i)%nat) <$> seq 0 (n - length old)
   else replicate (n - length old) 0).

Definition ph_mem_realloc (mt : Z) (p : ptr) (size : Z) : M mem ptr :=
  if size =? 0 then ph_mem_free mt p ;;; ret None
  else
    match p with
    | None => ph_mem_alloc_size mt size
    | Some (b, off) =>
        t <-- resolve_mt mt ;;
        if negb (item_size (def t) =? 0) then panic
        else
          h <-- load_header (b, off) ;;
          if negb (h_mt h =? mt) then panic
          else if h_size h =? size then ret (Some (b, 0))
          else
            ok <-- lift mem_ok ;;
            if (ok : bool) then
              if u64 (size + HEADER_RESERVATION) <? HEADER_RESERVATION then fault
              else
                m <-- get ;;
                blk <-- of_option (heap m !! b) ;;
                free b ;;;
                b' <-- new_block (fun b' =>
                         HBlock mt (Some (Header mt size)) (moved_bytes t b' (data blk) size)) ;;
                account t [(SLOT_BYTES, s64 (size - h_size h)); (SLOT_REALLOC, 1)] ;;;
                ret (Some (b', HEADER_RESERVATION))
            else out_of_memory t
    end.

Definition slot_of (v : list Z) (i : Z) : Z := default 0 (v !! Z.to_nat i).

Definition ph_mem_stat (mt : Z) : M mem (option ph_mem_stats) :=
  m <-- get ;;
  if (mt <? PH_MEMTYPE_FIRST) || (next_memtype m <=? mt) then ret None
  else
    t <-- of_option (mjoin (memtypes m !! Z.to_nat mt)) ;;
    sc <-- of_option (scope t) ;;
    let* (n, v, _) := lift (ph_counter_scope_get_view sc MEM_COUNTER_SLOTS) in
    ret (Some (MemStats (def t) (u64 (slot_of v SLOT_BYTES)) (u64 (slot_of v SLOT_OOM))
                 (u64 (slot_of v SLOT_ALLOCS)) (u64 (slot_of v SLOT_FREES))
                 (if n =? MEM_COUNTER_SLOTS then u64 (slot_of v SLOT_REALLOC) else 0))).

(** The loop of [ph_mem_stat_range] over [n] types from [i] on; an entry is
    [None] when [ph_mem_stat] left it unset. *)
Fixpoint stat_loop (n : nat) (i : Z) : M mem (list (option ph_mem_stats)) :=
  match n with
  | O => ret []
  | S n => s <-- ph_mem_stat i ;; l <-- stat_loop n (i + 1) ;; ret (s :: l)
  end.

Definition ph_mem_stat_range (start end_ : Z) : M mem (list (option ph_mem_stats)) :=
  m <-- get ;;
  stat_loop (Z.to_nat (Z.min (next_memtype m) end_ - start)) start.

(** The loop of [ph_mem_stat_facility] over the [n] types from [i] on. *)
Fixpoint stat_facility_loop (fac : string) (n : nat) (i : Z) (room : nat) :
    M mem (list (option ph_mem_stats)) :=
  match n, room with
  | O, _ | _, O => ret []
  | S n, S room' =>
      m <-- get ;;
      t <-- of_option (mjoin (memtypes m !! Z.to_nat i)) ;;
      if bool_decide (fac = facility (def t)) then
        s <-- ph_mem_stat i ;;
        l <-- stat_facility_loop fac n (i + 1) room' ;;
        ret (s :: l)
      else stat_facility_loop fac n (i + 1) room
  end.

Definition ph_mem_stat_facility (fac : string) (num_stats : nat) :
    M mem (list (option ph_mem_stats)) :=
  m <-- get ;;
  stat_facility_loop fac (Z.to_nat (next_memtype m - PH_MEMTYPE_FIRST)) PH_MEMTYPE_FIRST num_stats.

(** The loop of [ph_mem_type_by_name]. *)
Fixpoint by_name_loop (fac nm : string) (l : list (option mem_type)) (i : Z) : option Z :=
  match l with
  | [] => Some PH_MEMTYPE_INVALID
  | None :: _ => None
  | Some t :: l =>
      if bool_decide (fac = facility (def t)) && bool_decide (nm = name (def t)) then Some i
      else by_name_loop fac nm l (i + 1)
  end.

Definition ph_mem_type_by_name (fac nm : string) : M mem Z :=
  m <-- get ;;
  of_option (by_name_loop fac nm
    (slice (Z.to_nat PH_MEMTYPE_FIRST) (Z.to_nat (next_memtype m - PH_MEMTYPE_FIRST)) (memtypes m))
    PH_MEMTYPE_FIRST).

End memory.

End Memory.
