(* ===== verification/MemoryProofs.v ===== *)
(** * The allocator's accounting and contents

    [mem_wf] says that the statistics of every memtype agree with the blocks
    that are alive: the bytes counter is the sum of their sizes, allocations
    minus frees their number.  Every allocation, reallocation and release keeps
    it. *)

From Stdlib Require Import ZArith Lia.
From stdpp Require Import base numbers list gmap strings.
From S2P Require Import Prelude SysUtil Counter CounterProofs Memory.

Module MemoryProofs.
Import CounterProofs.
Export Memory.

Section sums.
Definition heap_sum (f : hblock -> Z) (h : gmap positive hblock) : Z :=
  zsum (fun kv => f kv.2) (map_to_list h).

Lemma heap_sum_insert f h b x :
  h !! b = None -> heap_sum f (<[b := x]> h) = f x + heap_sum f h.
Proof. intros Hn. unfold heap_sum. by rewrite (zsum_perm _ _ _ (map_to_list_insert _ _ _ Hn)). Qed.

Lemma heap_sum_delete f h b x :
  h !! b = Some x -> heap_sum f (delete b h) = heap_sum f h - f x.
Proof.
  intros Hs. rewrite <- (insert_delete_id h b x Hs) at 2.
  rewrite heap_sum_insert by apply lookup_delete_eq. lia.
Qed.
End sums.

Section proofs.
Context `{HSname : ck_hs string} `{HSid : ck_hs Z}.
Context (junk : positive -> nat -> Z) (self : nat).
Implicit Types m : mem.

Definition bytes_of (i : Z) (blk : hblock) : Z := if owner blk =? i then zlen (data blk) else 0.
Definition count_of (i : Z) (blk : hblock) : Z := if owner blk =? i then 1 else 0.
Definition live_bytes m (i : Z) : Z := heap_sum (bytes_of i) (heap m).
Definition live_count m (i : Z) : Z := heap_sum (count_of i) (heap m).

Definition type_at m (i : Z) (t : mem_type) : Prop :=
  PH_MEMTYPE_FIRST <= i < next_memtype m /\ memtypes m !! Z.to_nat i = Some (Some t).

Definition scope_at m (t : mem_type) (sc : positive) (s : ph_counter_scope) : Prop :=
  scope t = Some sc /\ scopes (ctr m) !! sc = Some s /\ num_slots s = MEM_COUNTER_SLOTS.

Definition block_shape (t : mem_type) (blk : hblock) : Prop :=
  if item_size (def t) =? 0
  then hdr blk = Some (Header (owner blk) (zlen (data blk)))
  else hdr blk = None /\ zlen (data blk) = item_size (def t).

Record mem_wf m : Prop := {
  mw_ctr : wf (ctr m);
  mw_self : (self < length (threads (ctr m)))%nat;
  mw_type : forall i, PH_MEMTYPE_FIRST <= i < next_memtype m -> exists t, type_at m i t;
  mw_scope : forall i t, type_at m i t ->
    (exists sc s, scope_at m t sc s) /\ 0 <= item_size (def t) <= INT64_MAX;
  mw_inj : forall i j t t' sc, type_at m i t -> type_at m j t' ->
    scope t = Some sc -> scope t' = Some sc -> i = j;
  mw_heap : forall b blk, heap m !! b = Some blk -> (b < hfresh m)%positive /\
    exists t, type_at m (owner blk) t /\ block_shape t blk;
  mw_acct : forall i t sc s, type_at m i t -> scope_at m t sc s ->
    s64 (slot_sum (ctr m) (scope_id s) (Z.to_nat SLOT_BYTES)) = s64 (live_bytes m i) /\
    s64 (slot_sum (ctr m) (scope_id s) (Z.to_nat SLOT_ALLOCS) -
         slot_sum (ctr m) (scope_id s) (Z.to_nat SLOT_FREES)) = s64 (live_count m i);
}.

Lemma resolve_mt_eq m i t : type_at m i t -> resolve_mt i m = Ret (t, m).
Proof.
  intros [Hr Ht]. unfold resolve_mt. step.
  rewrite (proj2 (Z.ltb_ge _ _)), (proj2 (Z.leb_gt _ _)) by lia. by rewrite Ht.
Qed.

Lemma lift_eq {A} (f : M counters A) m a c :
  f (ctr m) = Ret (a, c) -> lift f m = Ret (a, set_ctr c m).
Proof. unfold lift. by intros ->. Qed.

(** Counter states that differ only in values. *)
Record ctr_frame (c c' : counters) : Prop := {
  cf_wf : wf c';
  cf_plenty : plenty c';
  cf_scopes : scopes c' = scopes c;
  cf_threads : length (threads c') = length (threads c);
}.

Lemma account_eq m t sc s updates :
  wf (ctr m) -> (self < length (threads (ctr m)))%nat -> plenty (ctr m) -> scope_at m t sc s ->
  (forall o v, (o, v) ∈ updates -> 0 <= o < MEM_COUNTER_SLOTS) ->
  exists c', account self t updates m = Ret (tt, set_ctr c' m) /\ ctr_frame (ctr m) c' /\
    bumped (ctr m) c' (scope_id s) updates.
Proof.
  intros Hwf Hself Hpl (Hsc & Hs & Hn) Hin.
  destruct (account_spec (ctr m) self sc s updates Hwf Hpl Hs Hself)
    as (b & c1 & c2 & c' & H1 & H2 & H3 & Hwf' & Hpl' & Hsc' & _ & Hth & _ & Hb).
  { by rewrite Hn. }
  exists c'. split; [|by split]. unfold account. rewrite Hsc. step.
  step_with (lift_eq _ _ _ _ H1). step.
  step_with (lift_eq _ (set_ctr c1 m) _ _ H2). exact (lift_eq _ (set_ctr c2 (set_ctr c1 m)) _ _ H3).
Qed.

(** ** One accounted change of the heap *)

Definition rebuilt m (h : gmap positive hblock) (f : positive) (c : counters) : mem :=
  set_ctr c (set_hfresh f (set_heap h m)).

Lemma rebuilt_wf m h f c i t sc s updates :
  mem_wf m -> type_at m i t -> scope_at m t sc s ->
  ctr_frame (ctr m) c -> bumped (ctr m) c (scope_id s) updates ->
  (forall b blk, h !! b = Some blk -> (b < f)%positive /\
    exists t', type_at m (owner blk) t' /\ block_shape t' blk) ->
  (forall j, heap_sum (bytes_of j) h = live_bytes m j +
    if j =? i then delta updates (Z.to_nat SLOT_BYTES) else 0) ->
  (forall j, heap_sum (count_of j) h = live_count m j +
    if j =? i then delta updates (Z.to_nat SLOT_ALLOCS) - delta updates (Z.to_nat SLOT_FREES) else 0) ->
  mem_wf (rebuilt m h f c).
Proof.
  intros Hwf Ht Hsa [Hwfc Hpl Hsc Hth] Hb Hh Hbytes Hcount. destruct Hwf. split; try done.
  - simpl. lia.
  - intros j tj Hj. destruct (mw_scope0 j tj Hj) as [(sc' & s' & ? & ? & ?) ?]. split; [|done].
    exists sc', s'. split_and!; simpl; [done|congruence|done].
  - intros j tj scj sj Hj (Hscj & Hsj & Hnj). simpl in Hsj. rewrite Hsc in Hsj.
    destruct (mw_acct0 j tj scj sj Hj) as [Hab Hac]; [done|].
    unfold live_bytes, live_count. simpl. rewrite Hbytes, Hcount.
    pose proof (Hb (scope_id sj)) as Hbj.
    destruct Hsa as (Hsct & Hst & Hnt).
    assert ((j =? i) = bool_decide (scope_id sj = scope_id s)) as Hji.
    { apply eq_true_iff_eq. rewrite bool_decide_eq_true, Z.eqb_eq. split.
      - intros ->. destruct Ht as [_ Ht], Hj as [_ Hj]. simpl in Hj. by simplify_eq.
      - intros Heq. assert (scj = sc) as ->; [by eapply (wf_ids _ mw_ctr0)|].
        by eapply mw_inj0. }
    rewrite Hji. rewrite !wrapS_eq_iff in * by lia.
    pose proof (Hbj (Z.to_nat SLOT_BYTES)) as Hb0. pose proof (Hbj (Z.to_nat SLOT_ALLOCS)) as Hb2.
    pose proof (Hbj (Z.to_nat SLOT_FREES)) as Hb3. rewrite !wrapS_eq_iff in Hb0, Hb2, Hb3 by lia.
    destruct Hab as [k1 Hab], Hac as [k2 Hac], Hb0 as [k3 Hb0], Hb2 as [k4 Hb2], Hb3 as [k5 Hb3].
    rewrite Hb0, Hb2, Hb3. repeat case_decide; try done; rewrite ?bool_decide_true, ?bool_decide_false by done.
    + split; [exists (k1 + k3); lia|exists (k2 + k4 - k5); lia].
    + split; [exists (k1 + k3); lia|exists (k2 + k4 - k5); lia].
Qed.

Lemma mem_ok_lift m : plenty (ctr m) -> exists c, lift mem_ok m = Ret (true, set_ctr c m) /\
  plenty c /\ exists o, c = set_oracle o (ctr m).
Proof.
  intros Hpl. destruct (mem_ok_plenty (ctr m) Hpl) as (o & Ho & Hf).
  exists (set_oracle o (ctr m)). split; [by apply lift_eq|]. split; [done|]. by exists o.
Qed.

Lemma mem_wf_oracle m o : mem_wf m -> mem_wf (set_ctr (set_oracle o (ctr m)) m).
Proof. intros []. split; try done. by apply wf_set_oracle. Qed.

(** ** Allocation *)

Lemma fresh_bytes_length t b n : length (fresh_bytes junk t b n) = Z.to_nat n.
Proof.
  unfold fresh_bytes. case_bool; [by rewrite length_fmap, length_seq|by rewrite length_replicate].
Qed.

Lemma heap_insert_ok m b blk f :
  mem_wf m -> (forall b', (b' < hfresh m)%positive -> (b' < f)%positive) -> (b < f)%positive ->
  (exists t, type_at m (owner blk) t /\ block_shape t blk) ->
  forall b' blk', <[b := blk]> (heap m) !! b' = Some blk' -> (b' < f)%positive /\
    exists t', type_at m (owner blk') t' /\ block_shape t' blk'.
Proof.
  intros Hwf Hf Hb Hok b' blk' H. apply lookup_insert_Some in H as [[<- <-]|[_ H]]; [done|].
  destruct (mw_heap _ Hwf _ _ H) as [Hlt Ht]. eauto.
Qed.

Lemma hfresh_new m : mem_wf m -> heap m !! hfresh m = None.
Proof.
  intros Hwf. destruct (heap m !! hfresh m) as [blk|] eqn:E; [|done].
  destruct (mw_heap _ Hwf _ _ E). lia.
Qed.

(** Adding the block and accounting for it. *)
Lemma alloc_common m mt t n hd :
  mem_wf m -> plenty (ctr m) -> type_at m mt t -> 0 <= n <= INT64_MAX ->
  (forall b, block_shape t (HBlock mt hd (fresh_bytes junk t b n))) ->
  let b := hfresh m in
  let h := <[b := HBlock mt hd (fresh_bytes junk t b n)]> (heap m) in
  exists c, account self t [(SLOT_BYTES, s64 n); (SLOT_ALLOCS, 1)]
      (set_hfresh (Pos.succ b) (set_heap h m)) =
    Ret (tt, rebuilt m h (Pos.succ b) c) /\ mem_wf (rebuilt m h (Pos.succ b) c) /\ plenty c.
Proof.
  intros Hwf Hpl Ht Hn Hshape b h. destruct (mw_scope _ Hwf mt t Ht) as [(sc & s & Hsa) _].
  destruct (account_eq (set_hfresh (Pos.succ b) (set_heap h m)) t sc s
    [(SLOT_BYTES, s64 n); (SLOT_ALLOCS, 1)] (mw_ctr _ Hwf) (mw_self _ Hwf) Hpl Hsa)
    as (c & Hc & Hfr & Hbu).
  { intros o v Hin. unfold SLOT_BYTES, SLOT_ALLOCS, MEM_COUNTER_SLOTS in *.
    rewrite !elem_of_cons, elem_of_nil in Hin. destruct Hin as [|[|[]]]; simplify_eq; lia. }
  exists c. split; [exact Hc|]. split; [|apply Hfr].
  assert (s64 n = n) as Hs64 by (apply wrapS_small; lia).
  eapply (rebuilt_wf m h _ c mt t sc s); [done..| | |].
  - apply heap_insert_ok; [done|lia|lia|]. exists t. split; [done|apply Hshape].
  - intros j. unfold h. rewrite heap_sum_insert by (by apply hfresh_new).
    unfold bytes_of at 1. cbn [owner data]. rewrite fresh_bytes_length, Hs64, (Z.eqb_sym mt j).
    unfold live_bytes. destruct (j =? mt); simpl; lia.
  - intros j. unfold h. rewrite heap_sum_insert by (by apply hfresh_new).
    unfold count_of at 1. cbn [owner]. rewrite (Z.eqb_sym mt j).
    unfold live_count. destruct (j =? mt); simpl; lia.
Qed.

(** What a successful allocation of [n] bytes for [mt] leaves behind. *)
Definition allocated m m' (mt : Z) (b : positive) (blk : hblock) : Prop :=
  mem_wf m' /\ heap m !! b = None /\ heap m' = <[b := blk]> (heap m) /\
  live_bytes m' mt = live_bytes m mt + zlen (data blk) /\ live_count m' mt = live_count m mt + 1.

Lemma allocated_intro m m' mt b blk :
  mem_wf m' -> heap m !! b = None -> heap m' = <[b := blk]> (heap m) -> owner blk = mt ->
  allocated m m' mt b blk.
Proof.
  intros Hwf Hb Hh Ho. split_and!; [done..| |]; unfold live_bytes, live_count; rewrite Hh,
    heap_sum_insert by done; unfold bytes_of at 1 || unfold count_of at 1; rewrite Ho, Z.eqb_refl; lia.
Qed.

Lemma type_at_oracle m o i t : type_at m i t -> type_at (set_ctr (set_oracle o (ctr m)) m) i t.
Proof. done. Qed.

Lemma alloc_size_ok m mt t size :
  mem_wf m -> plenty (ctr m) -> type_at m mt t -> item_size (def t) = 0 -> 0 <= size <= INT64_MAX ->
  exists b m', ph_mem_alloc_size junk self mt size m = Ret (Some (b, HEADER_RESERVATION), m') /\
    allocated m m' mt b (HBlock mt (Some (Header mt size)) (fresh_bytes junk t b size)).
Proof.
  intros Hwf Hpl Ht Hi Hn. unfold ph_mem_alloc_size. step_with (resolve_mt_eq _ _ _ Ht).
  rewrite Hi. cbn [Z.eqb negb]. rewrite (proj2 (Z.ltb_ge _ _)) by lia.
  destruct (mem_ok_lift m Hpl) as (c & Hok & Hplc & o & ->). step_with Hok. step.
  destruct (alloc_common (set_ctr (set_oracle o (ctr m)) m) mt t size (Some (Header mt size)))
    as (c' & Hacc & Hwf' & _); [by apply mem_wf_oracle|done|done|done| |].
  { intros b. unfold block_shape. rewrite Hi. cbn [Z.eqb hdr owner data].
    rewrite fresh_bytes_length. do 2 f_equal. lia. }
  step_with Hacc. do 2 eexists. split; [reflexivity|].
  apply allocated_intro; [done|exact (hfresh_new m Hwf)|done|done].
Qed.

(** A variable-size allocation that succeeds returns fresh memory of the size
    asked for behind its header, zeroed if the memtype says so, and the counters
    account for it. *)
Theorem mem_alloc_size_spec m mt t size :
  mem_wf m -> plenty (ctr m) -> type_at m mt t -> item_size (def t) = 0 -> 0 <= size <= INT64_MAX ->
  exists b m', ph_mem_alloc_size junk self mt size m = Ret (Some (b, HEADER_RESERVATION), m') /\
    allocated m m' mt b (HBlock mt (Some (Header mt size)) (fresh_bytes junk t b size)).
Proof. apply alloc_size_ok. Qed.

Lemma alloc_ok m mt t :
  mem_wf m -> plenty (ctr m) -> type_at m mt t -> item_size (def t) <> 0 ->
  exists b m', ph_mem_alloc junk self mt m = Ret (Some (b, 0), m') /\
    allocated m m' mt b (HBlock mt None (fresh_bytes junk t b (item_size (def t)))).
Proof.
  intros Hwf Hpl Ht Hi. destruct (mw_scope _ Hwf mt t Ht) as [_ Hr].
  unfold ph_mem_alloc. step_with (resolve_mt_eq _ _ _ Ht).
  rewrite (proj2 (Z.eqb_neq _ _)) by done.
  destruct (mem_ok_lift m Hpl) as (c & Hok & Hplc & o & ->). step_with Hok. step.
  destruct (alloc_common (set_ctr (set_oracle o (ctr m)) m) mt t (item_size (def t)) None)
    as (c' & Hacc & Hwf' & _); [by apply mem_wf_oracle|done|done|done| |].
  { intros b. unfold block_shape. rewrite (proj2 (Z.eqb_neq _ _)) by done. split; [done|].
    cbn [data]. rewrite fresh_bytes_length. lia. }
  step_with Hacc. do 2 eexists. split; [reflexivity|].
  apply allocated_intro; [done|exact (hfresh_new m Hwf)|done|done].
Qed.

(** A fixed-size allocation that succeeds returns fresh memory of the item size,
    and the counters account for it. *)
Theorem mem_alloc_spec m mt t :
  mem_wf m -> plenty (ctr m) -> type_at m mt t -> item_size (def t) <> 0 ->
  exists b m', ph_mem_alloc junk self mt m = Ret (Some (b, 0), m') /\
    allocated m m' mt b (HBlock mt None (fresh_bytes junk t b (item_size (def t)))).
Proof. apply alloc_ok. Qed.

(** ** Release *)

(** The caller's pointer to a block of memtype [t]. *)
Definition user_ptr (t : mem_type) (b : positive) : ptr :=
  Some (b, if item_size (def t) =? 0 then HEADER_RESERVATION else 0).

Lemma load_header_eq m b blk h :
  heap m !! b = Some blk -> hdr blk = Some h -> load_header (b, HEADER_RESERVATION) m = Ret (h, m).
Proof. intros Hb Hh. unfold load_header. step. cbn [fst]. rewrite Hb. step. by rewrite Hh. Qed.

Lemma type_at_fun m i t t' : type_at m i t -> type_at m i t' -> t = t'.
Proof. intros [_ H] [_ H']. congruence. Qed.

Lemma block_at m mt t b blk :
  mem_wf m -> type_at m mt t -> heap m !! b = Some blk -> owner blk = mt -> block_shape t blk.
Proof.
  intros Hwf Ht Hb Ho. destruct (mw_heap _ Hwf _ _ Hb) as (_ & t' & Ht' & Hs).
  rewrite Ho in Ht'. by rewrite (type_at_fun _ _ _ _ Ht Ht').
Qed.

Lemma heap_delete_ok m b f :
  mem_wf m -> (forall b', (b' < hfresh m)%positive -> (b' < f)%positive) ->
  forall b' blk', delete b (heap m) !! b' = Some blk' -> (b' < f)%positive /\
    exists t', type_at m (owner blk') t' /\ block_shape t' blk'.
Proof.
  intros Hwf Hf b' blk' H. apply lookup_delete_Some in H as [_ H].
  destruct (mw_heap _ Hwf _ _ H). eauto.
Qed.

Lemma free_size_eq m mt t b blk :
  mem_wf m -> type_at m mt t -> heap m !! b = Some blk -> owner blk = mt ->
  (if negb (item_size (def t) =? 0) then
     m <-- get ;;
     blk <-- of_option (heap m !! b) ;;
     if (if item_size (def t) =? 0 then HEADER_RESERVATION else 0) =? 0
     then ret (item_size (def t)) else fault
   else
     h <-- load_header (b, if item_size (def t) =? 0 then HEADER_RESERVATION else 0) ;;
     if negb (h_mt h =? mt) then panic else ret (h_size h)) m = Ret (zlen (data blk), m).
Proof.
  intros Hwf Ht Hb Ho. pose proof (block_at _ _ _ _ _ Hwf Ht Hb Ho) as Hs. unfold block_shape in Hs.
  destruct (item_size (def t) =? 0) eqn:Ei; cbn [negb].
  - step_with (load_header_eq _ _ _ _ Hb Hs). cbn [h_mt h_size]. by rewrite Ho, Z.eqb_refl.
  - step. rewrite Hb. step. cbn [Z.eqb]. destruct Hs as [_ <-]. reflexivity.
Qed.

Lemma data_bound m b blk t :
  heap m !! b = Some blk -> type_at m (owner blk) t -> mem_wf m ->
  live_bytes m (owner blk) <= INT64_MAX -> 0 <= zlen (data blk) <= INT64_MAX.
Proof.
  intros Hb Ht Hwf Hl. split; [lia|]. unfold live_bytes in Hl.
  rewrite <- (insert_delete_id (heap m) b blk Hb) in Hl.
  rewrite heap_sum_insert in Hl by apply lookup_delete_eq.
  unfold bytes_of at 1 in Hl. rewrite Z.eqb_refl in Hl.
  assert (0 <= heap_sum (bytes_of (owner blk)) (delete b (heap m))); [|lia].
  apply zsum_nonneg. intros [b' blk']. unfold bytes_of. simpl. case_bool; lia.
Qed.

Lemma free_ok m mt t b blk :
  mem_wf m -> plenty (ctr m) -> type_at m mt t -> heap m !! b = Some blk -> owner blk = mt ->
  live_bytes m mt <= INT64_MAX ->
  exists m', ph_mem_free self mt (user_ptr t b) m = Ret (tt, m') /\ mem_wf m' /\
    heap m' = delete b (heap m) /\
    live_bytes m' mt = live_bytes m mt - zlen (data blk) /\ live_count m' mt = live_count m mt - 1 /\
    plenty (ctr m') /\ (forall i t', type_at m i t' -> type_at m' i t').
Proof.
  intros Hwf Hpl Ht Hb Ho Hmax. destruct (mw_scope _ Hwf mt t Ht) as [(sc & s & Hsa) _].
  assert (0 <= zlen (data blk) <= INT64_MAX) as Hlen.
  { eapply data_bound; [exact Hb|by rewrite Ho|done|by rewrite Ho]. }
  set (us := [(SLOT_BYTES, s64 (- zlen (data blk))); (SLOT_FREES, 1)]).
  destruct (account_eq (set_heap (delete b (heap m)) m) t sc s us (mw_ctr _ Hwf) (mw_self _ Hwf) Hpl Hsa)
    as (c & Hc & Hfr & Hbu).
  { intros o v Hin. unfold us, SLOT_BYTES, SLOT_FREES, MEM_COUNTER_SLOTS in *.
    rewrite !elem_of_cons, elem_of_nil in Hin. destruct Hin as [|[|[]]]; simplify_eq; lia. }
  assert (s64 (- zlen (data blk)) = - zlen (data blk)) as Hs64 by (apply wrapS_small; lia).
  exists (rebuilt m (delete b (heap m)) (hfresh m) c).
  unfold ph_mem_free, user_ptr. split_and!.
  - step_with (resolve_mt_eq _ _ _ Ht). step_with (free_size_eq _ _ _ _ _ Hwf Ht Hb Ho).
    unfold free. step. exact Hc.
  - eapply (rebuilt_wf m _ _ c mt t sc s); [done..| | |].
    + by apply heap_delete_ok.
    + intros j. rewrite (heap_sum_delete _ _ _ _ Hb). unfold bytes_of at 2, us.
      rewrite Ho, Hs64, (Z.eqb_sym mt j). unfold live_bytes. destruct (j =? mt); simpl; lia.
    + intros j. rewrite (heap_sum_delete _ _ _ _ Hb). unfold count_of at 2.
      rewrite Ho, (Z.eqb_sym mt j). unfold live_count. destruct (j =? mt); simpl; lia.
  - done.
  - unfold live_bytes. simpl. rewrite (heap_sum_delete _ _ _ _ Hb). unfold bytes_of at 2.
    rewrite Ho, Z.eqb_refl. lia.
  - unfold live_count. simpl. rewrite (heap_sum_delete _ _ _ _ Hb). unfold count_of at 2.
    rewrite Ho, Z.eqb_refl. lia.
  - apply Hfr.
  - done.
Qed.

(** Freeing a block of its own memtype releases that block and nothing else, and
    the counters account for it. *)
Theorem mem_free_spec m mt t b blk :
  mem_wf m -> plenty (ctr m) -> type_at m mt t -> heap m !! b = Some blk -> owner blk = mt ->
  live_bytes m mt <= INT64_MAX ->
  exists m', ph_mem_free self mt (user_ptr t b) m = Ret (tt, m') /\ mem_wf m' /\
    heap m' = delete b (heap m) /\
    live_bytes m' mt = live_bytes m mt - zlen (data blk) /\ live_count m' mt = live_count m mt - 1.
Proof.
  intros Hwf Hpl Ht Hb Ho Hmax.
  destruct (free_ok m mt t b blk Hwf Hpl Ht Hb Ho Hmax) as (m' & H & Hw & Hh & Hl & Hc & _).
  by exists m'.
Qed.

(** Freeing a block with another variable-size memtype panics when the block has
    a header and reads outside it otherwise. *)
Theorem mem_free_wrong_type m mt t b blk :
  mem_wf m -> type_at m mt t -> item_size (def t) = 0 ->
  heap m !! b = Some blk -> owner blk <> mt ->
  (hdr blk <> None -> ph_mem_free self mt (Some (b, HEADER_RESERVATION)) m = Panic) /\
  (hdr blk = None -> ph_mem_free self mt (Some (b, 0)) m = Fault).
Proof.
  intros Hwf Ht Hi Hb Ho. destruct (mw_heap _ Hwf _ _ Hb) as (_ & t' & Ht' & Hs).
  unfold block_shape in Hs. unfold ph_mem_free, load_header. split; intros Hh.
  all: step_with (resolve_mt_eq _ _ _ Ht); rewrite Hi; cbn [Z.eqb negb].
  - destruct (item_size (def t') =? 0); [|by destruct Hs].
    unfold bind at 1 2 3 4. simpl. rewrite Hb. simpl. rewrite Hs. simpl.
    by rewrite (proj2 (Z.eqb_neq _ _)).
  - unfold bind at 1 2 3 4. simpl. rewrite Hb. simpl. by rewrite Hh.
Qed.

(** ** Reallocation *)

Lemma moved_bytes_length t b old n : length (moved_bytes junk t b old n) = Z.to_nat n.
Proof.
  unfold moved_bytes. rewrite length_app, length_take.
  case_bool; rewrite ?length_fmap, ?length_seq, ?length_replicate; lia.
Qed.

(** The bytes both blocks have are preserved; with the zero flag the others
    are 0. *)
Lemma moved_bytes_lookup t b old n i :
  (i < Z.to_nat n)%nat ->
  ((i < length old)%nat -> moved_bytes junk t b old n !! i = old !! i) /\
  ((length old <= i)%nat -> Z.land (flags (def t)) PH_MEM_FLAGS_ZERO <> 0 ->
   moved_bytes junk t b old n !! i = Some 0).
Proof.
  intros Hi. unfold moved_bytes. split.
  - intros Hl. rewrite lookup_app_l by (rewrite length_take; lia). by apply lookup_take_lt.
  - intros Hl Hz. rewrite lookup_app_r by (rewrite length_take; lia).
    rewrite (proj2 (Z.eqb_neq _ _)) by done. apply lookup_replicate_2. rewrite length_take. lia.
Qed.

Lemma realloc_ok m mt t b blk size :
  mem_wf m -> plenty (ctr m) -> type_at m mt t -> item_size (def t) = 0 ->
  heap m !! b = Some blk -> owner blk = mt -> live_bytes m mt <= INT64_MAX ->
  0 < size <= INT64_MAX -> size <> zlen (data blk) ->
  exists b' m' bytes,
    ph_mem_realloc junk self mt (user_ptr t b) size m = Ret (Some (b', HEADER_RESERVATION), m') /\
    mem_wf m' /\
    heap m' = <[b' := HBlock mt (Some (Header mt size)) bytes]> (delete b (heap m)) /\
    zlen bytes = size /\
    (forall i, (i < Z.to_nat size)%nat ->
      ((i < length (data blk))%nat -> bytes !! i = data blk !! i) /\
      ((length (data blk) <= i)%nat -> Z.land (flags (def t)) PH_MEM_FLAGS_ZERO <> 0 ->
       bytes !! i = Some 0)) /\
    live_bytes m' mt = live_bytes m mt - zlen (data blk) + size /\
    live_count m' mt = live_count m mt.
Proof.
  intros Hwf Hpl Ht Hi Hb Ho Hmax Hsz Hne.
  destruct (mw_scope _ Hwf mt t Ht) as [(sc & s & Hsa) _].
  assert (0 <= zlen (data blk) <= INT64_MAX) as Hlen.
  { eapply data_bound; [exact Hb|by rewrite Ho|done|by rewrite Ho]. }
  destruct (mem_ok_lift m Hpl) as (c0 & Hok & Hplc & o & ->).
  set (m0 := set_ctr (set_oracle o (ctr m)) m) in *.
  set (b' := hfresh m). set (bytes := moved_bytes junk t b' (data blk) size).
  set (h := <[b' := HBlock mt (Some (Header mt size)) bytes]> (delete b (heap m))).
  set (us := [(SLOT_BYTES, s64 (size - zlen (data blk))); (SLOT_REALLOC, 1)]).
  destruct (account_eq (set_hfresh (Pos.succ b') (set_heap h m0)) t sc s us
    (wf_set_oracle _ o (mw_ctr _ Hwf)) (mw_self _ Hwf) Hplc Hsa) as (c & Hc & Hfr & Hbu).
  { intros x v Hin. unfold us, SLOT_BYTES, SLOT_REALLOC, MEM_COUNTER_SLOTS in *.
    rewrite !elem_of_cons, elem_of_nil in Hin. destruct Hin as [|[|[]]]; simplify_eq; lia. }
  assert (s64 (size - zlen (data blk)) = size - zlen (data blk)) as Hs64 by (apply wrapS_small; lia).
  assert (delete b (heap m) !! b' = None) as Hnew.
  { apply lookup_delete_None. right. by apply hfresh_new. }
  assert (zlen bytes = size) as Hbl by (unfold bytes; rewrite moved_bytes_length; lia).
  assert (forall j, heap_sum (bytes_of j) h = live_bytes m j +
    if j =? mt then delta us (Z.to_nat SLOT_BYTES) else 0) as Hbytes.
  { intros j. unfold h. rewrite heap_sum_insert, (heap_sum_delete _ _ _ _ Hb) by done.
    unfold bytes_of at 1 3. cbn [owner data]. rewrite Ho, Hbl, (Z.eqb_sym mt j).
    unfold us. rewrite Hs64. unfold live_bytes. destruct (j =? mt); simpl; lia. }
  assert (forall j, heap_sum (count_of j) h = live_count m j + 0) as Hcount.
  { intros j. unfold h. rewrite heap_sum_insert, (heap_sum_delete _ _ _ _ Hb) by done.
    unfold count_of at 1 3. cbn [owner]. rewrite Ho. unfold live_count. lia. }
  exists b', (rebuilt m0 h (Pos.succ b') c), bytes. split_and!; [..|done|done| | |].
  - unfold ph_mem_realloc, user_ptr. rewrite (proj2 (Z.eqb_neq _ _)) by lia.
    step_with (resolve_mt_eq _ _ _ Ht). rewrite Hi. cbn [Z.eqb negb].
    pose proof (block_at _ _ _ _ _ Hwf Ht Hb Ho) as Hs. unfold block_shape in Hs. rewrite Hi in Hs.
    cbn [Z.eqb] in Hs. step_with (load_header_eq _ _ _ _ Hb Hs). cbn [h_mt h_size].
    rewrite Ho, Z.eqb_refl. cbn [negb]. rewrite (proj2 (Z.eqb_neq (zlen (data blk)) size)) by lia.
    step_with Hok. unfold HEADER_RESERVATION. rewrite (wrapU_small 64) by lia.
    rewrite (proj2 (Z.ltb_ge _ _)) by lia. step.
    change (heap m0) with (heap m). rewrite Hb. step.
    unfold free. step. step. step_with Hc. reflexivity.
  - eapply (rebuilt_wf m0 h _ c mt t sc s); [by apply mem_wf_oracle|done..| |exact Hbytes|].
    + intros b1 blk1 H1. apply lookup_insert_Some in H1 as [[<- <-]|[_ H1]].
      * split; [lia|]. exists t. split; [done|]. unfold block_shape. rewrite Hi. cbn. by rewrite Hbl.
      * exact (heap_delete_ok m b (Pos.succ (hfresh m)) Hwf ltac:(intros; lia) b1 blk1 H1).
    + intros j. change (live_count m0 j) with (live_count m j). rewrite Hcount. unfold us. simpl. case_bool; lia.
  - intros i Hi'. by apply moved_bytes_lookup.
  - unfold live_bytes at 1. simpl. rewrite Hbytes, Z.eqb_refl. unfold us. simpl. lia.
  - unfold live_count at 1. simpl. rewrite Hcount. lia.
Qed.

(** Reallocating to another size moves the block: the common prefix of the bytes
    is kept, the new tail is zeroed if the memtype says so, the old block is
    released and the counters account for the difference. *)
Theorem mem_realloc_spec m mt t b blk size :
  mem_wf m -> plenty (ctr m) -> type_at m mt t -> item_size (def t) = 0 ->
  heap m !! b = Some blk -> owner blk = mt -> live_bytes m mt <= INT64_MAX ->
  0 < size <= INT64_MAX -> size <> zlen (data blk) ->
  exists b' m' bytes,
    ph_mem_realloc junk self mt (user_ptr t b) size m = Ret (Some (b', HEADER_RESERVATION), m') /\
    mem_wf m' /\
    heap m' = <[b' := HBlock mt (Some (Header mt size)) bytes]> (delete b (heap m)) /\
    zlen bytes = size /\
    (forall i, (i < Z.to_nat size)%nat ->
      ((i < length (data blk))%nat -> bytes !! i = data blk !! i) /\
      ((length (data blk) <= i)%nat -> Z.land (flags (def t)) PH_MEM_FLAGS_ZERO <> 0 ->
       bytes !! i = Some 0)) /\
    live_bytes m' mt = live_bytes m mt - zlen (data blk) + size /\
    live_count m' mt = live_count m mt.
Proof. apply realloc_ok. Qed.

(** Reallocating to the same size returns a pointer to the header, not to the
    memory; freeing it is an access outside the block. *)
Theorem mem_realloc_same_size m mt t b blk :
  mem_wf m -> type_at m mt t -> item_size (def t) = 0 ->
  heap m !! b = Some blk -> owner blk = mt -> data blk <> [] ->
  exists p, ph_mem_realloc junk self mt (user_ptr t b) (zlen (data blk)) m = Ret (p, m) /\
    p <> user_ptr t b /\ ph_mem_free self mt p m = Fault.
Proof.
  intros Hwf Ht Hi Hb Ho Hne.
  pose proof (block_at _ _ _ _ _ Hwf Ht Hb Ho) as Hs. unfold block_shape in Hs. rewrite Hi in Hs.
  cbn [Z.eqb] in Hs. exists (Some (b, 0)). unfold user_ptr. rewrite Hi. split_and!.
  - unfold ph_mem_realloc. rewrite (proj2 (Z.eqb_neq _ _)) by (destruct (data blk); simpl; [done|lia]).
    step_with (resolve_mt_eq _ _ _ Ht). rewrite Hi. cbn [Z.eqb negb].
    step_with (load_header_eq _ _ _ _ Hb Hs). cbn [h_mt h_size].
    rewrite Ho, !Z.eqb_refl. reflexivity.
  - done.
  - unfold ph_mem_free, load_header. step_with (resolve_mt_eq _ _ _ Ht). rewrite Hi. cbn [Z.eqb negb].
    unfold bind at 1 2 3 4. simpl. rewrite Hb. simpl. by rewrite Hs.
Qed.

(** ** Failure and statistics *)


(** The statistics of a memtype report exactly its live bytes, and allocations
    minus frees is the number of its live blocks. *)
Theorem mem_stat_spec m mt t sc s :
  mem_wf m -> type_at m mt t -> scope_at m t sc s -> SLOT_FREES < next_slot s ->
  live_bytes m mt <= INT64_MAX ->
  exists st, ph_mem_stat mt m = Ret (Some st, m) /\ st_def st = def t /\
    bytes st = live_bytes m mt /\ u64 (allocs st - frees st) = u64 (live_count m mt).
Proof.
  intros Hwf Ht Hsa Hnx Hmax. pose proof Hsa as (Hsc & Hs & Hn).
  destruct (mw_acct _ Hwf _ _ _ _ Ht Hsa) as [Hb Hc].
  destruct (view_spec (ctr m) sc s MEM_COUNTER_SLOTS (mw_ctr _ Hwf) Hs) as (v & names & Hv & Hl & _ & Hget);
    [done|]. set (n := Z.min _ _) in *.
  assert (3 < n) as Hn3 by (unfold n, MEM_COUNTER_SLOTS, SLOT_FREES in *; lia).
  assert (forall o, 0 <= o <= 3 -> slot_of v o = s64 (slot_sum (ctr m) (scope_id s) (Z.to_nat o))) as Hslot.
  { intros o Ho. destruct (Hget o) as (x & Hx & Hg); [lia|].
    rewrite (scope_get_spec (ctr m) sc s o) in Hg; [|apply Hwf|done|rewrite Hn; unfold MEM_COUNTER_SLOTS; lia].
    unfold slot_of. rewrite Hx. by simplify_eq. }
  destruct Ht as [Hr Ht]. unfold ph_mem_stat. step.
  rewrite (proj2 (Z.ltb_ge _ _)), (proj2 (Z.leb_gt _ _)) by lia. cbn [orb]. rewrite Ht. step.
  rewrite Hsc. step. step_with (lift_eq _ _ _ _ Hv).
  eexists. split; [by destruct m|]. cbn [st_def bytes allocs frees]. split; [done|].
  rewrite !Hslot by (unfold SLOT_BYTES, SLOT_ALLOCS, SLOT_FREES; lia). split.
  - rewrite Hb. assert (0 <= live_bytes m mt).
    { apply zsum_nonneg. intros [b blk]. unfold bytes_of. simpl. case_bool; lia. }
    rewrite wrapS_small by lia. apply wrapU_small. lia.
  - apply wrapS_eq_iff in Hc as [k Hc]; [|lia]. unfold wrapS, wrapU in *.
    rewrite <- Zminus_mod.
    assert (forall x, ((x + 2 ^ (64 - 1)) mod 2 ^ 64 - 2 ^ (64 - 1)) mod 2 ^ 64 = x mod 2 ^ 64) as Hx.
    { intros x. rewrite Zminus_mod_idemp_l. f_equal. lia. }
    rewrite Zminus_mod, !Hx, <- Zminus_mod, Hc. apply Z_mod_plus_full.
Qed.

End proofs.

(** ** A concrete allocator: memtype 2 of variable size, memtype 3 of 8 bytes *)

Definition demo_junk (b : positive) (i : nat) : Z := 170.
Definition vnames : list (option string) := Some <$> vsize_counter_names.
Definition demo_ctr : counters :=
  add_scope (set_next_scope_id 3
    (add_scope (set_next_scope_id 2 (counter_init [])) (Scope 1 1 5 5 "v" "v" vnames)))
    (Scope 1 2 5 4 "f" "f" vnames).
Definition demo_vtype : mem_type := MemType (MemtypeDef "demo" "v" 0 PH_MEM_FLAGS_ZERO) (Some 1%positive) 0.
Definition demo_ftype : mem_type := MemType (MemtypeDef "demo" "f" 8 0) (Some 2%positive) 0.
Definition demo_mem : mem :=
  Mem demo_ctr 1 1024 ([None; None; Some demo_vtype; Some demo_ftype] ++ replicate 1020 None) 4 ∅ 1.

Lemma demo_ctr_wf : wf demo_ctr.
Proof.
  apply (add_scope_wf (add_scope (set_next_scope_id 2 (counter_init [])) (Scope 1 1 5 5 "v" "v" vnames))
    (Scope 1 2 5 4 "f" "f" vnames) 2); try done.
  apply (add_scope_wf (counter_init []) (Scope 1 1 5 5 "v" "v" vnames) 1); try done. by apply counter_init_wf.
Qed.

Lemma demo_types i t : type_at demo_mem i t -> (i = 2 /\ t = demo_vtype) \/ (i = 3 /\ t = demo_ftype).
Proof.
  intros [Hr Ht]. unfold PH_MEMTYPE_FIRST in Hr. simpl next_memtype in Hr.
  assert (i = 2 \/ i = 3) as [-> | ->] by lia; simpl in Ht; simplify_eq; auto.
Qed.

Lemma demo_mem_wf : mem_wf 0 demo_mem.
Proof.
  split.
  - apply demo_ctr_wf.
  - simpl. lia.
  - intros i Hr. unfold PH_MEMTYPE_FIRST in Hr. simpl next_memtype in Hr.
    assert (i = 2 \/ i = 3) as [-> | ->] by lia; eexists; (split; [done|reflexivity]).
  - intros i t [[-> ->]|[-> ->]]%demo_types; (split; [|simpl; lia]);
      (do 2 eexists; split; [reflexivity|]; split; reflexivity).
  - intros i j t t' sc [[-> ->]|[-> ->]]%demo_types [[-> ->]|[-> ->]]%demo_types Hi Hj; simpl in *; congruence.
  - done.
  - intros i t sc s [[-> ->]|[-> ->]]%demo_types (Hsc & Hs & Hn); split; reflexivity.
Qed.

(** The same allocator with one block of three bytes of memtype 2. *)
Definition demo_blk : hblock := HBlock 2 (Some (Header 2 3)) [1; 2; 3].
Definition demo_mem1 : mem :=
  set_hfresh 2 (set_heap {[1%positive := demo_blk]} (set_ctr
    (set_threads (fun _ => [hs_put hs_init 1 3%positive])
      (set_blocks (fun _ => {[3%positive := Block 1 1 4 [3; 0; 1; 0; 0]]}) (set_fresh 4 demo_ctr)))
    demo_mem)).

Lemma demo_ctr1_wf : wf (ctr demo_mem1).
Proof.
  pose proof demo_ctr_wf as Hw.
  assert (forall p s, scopes demo_ctr !! p = Some s -> scope_id s = 1 -> num_slots s = 5) as H5.
  { intros p s Hp _. simpl in Hp.
    apply lookup_insert_Some in Hp as [[_ <-]|[_ Hp]]; [done|].
    apply lookup_insert_Some in Hp as [[_ <-]|[_ Hp]]; done. }
  split; try apply Hw.
  - intros p s Hp. destruct (wf_scope _ Hw p s Hp). split; try done. simpl in *. lia.
  - intros i t id b Ht Hg. simpl in Ht. apply list_lookup_singleton_Some in Ht as [-> <-].
    simpl in Hg. apply lookup_insert_Some in Hg as [[<- <-]|[_ Hg]]; [|done].
    eexists. split; [reflexivity|]. split; [done|done|done|simpl; lia|].
    intros p s Hp Hid. simpl. by rewrite (H5 p s).
  - intros i j t t' id id' b Ht Ht' _ _. simpl in Ht, Ht'.
    apply list_lookup_singleton_Some in Ht as [-> _]. apply list_lookup_singleton_Some in Ht' as [-> _]. done.
Qed.

Lemma demo_types1 i t : type_at demo_mem1 i t -> (i = 2 /\ t = demo_vtype) \/ (i = 3 /\ t = demo_ftype).
Proof. apply demo_types. Qed.

Lemma demo_mem1_wf : mem_wf 0 demo_mem1.
Proof.
  split.
  - apply demo_ctr1_wf.
  - simpl. lia.
  - apply demo_mem_wf.
  - apply demo_mem_wf.
  - apply demo_mem_wf.
  - intros b blk Hb. change (({[1%positive := demo_blk]} : gmap positive hblock) !! b = Some blk) in Hb.
    apply lookup_singleton_Some in Hb as [<- <-]. split; [done|].
    exists demo_vtype. split; [split; [done|reflexivity]|reflexivity].
  - intros i t sc s [[-> ->]|[-> ->]]%demo_types1 (Hsc & Hs & Hn); simpl in Hsc; simplify_eq;
      vm_compute in Hs; simplify_eq; split; reflexivity.
Qed.

Lemma mem_alloc_size_spec_witness :
  exists b m', ph_mem_alloc_size demo_junk 0 2 3 demo_mem = Ret (Some (b, 16), m') /\
    heap m' = {[b := HBlock 2 (Some (Header 2 3)) [0; 0; 0]]}.
Proof.
  destruct (mem_alloc_size_spec demo_junk 0 demo_mem 2 demo_vtype 3 demo_mem_wf) as (b & m' & H & Ha).
  - constructor.
  - split; [done|reflexivity].
  - reflexivity.
  - lia.
  - exists b, m'. split; [exact H|]. destruct Ha as (_ & _ & Hh & _). exact Hh.
Defined.

Lemma mem_alloc_spec_witness :
  exists b m', ph_mem_alloc demo_junk 0 3 demo_mem = Ret (Some (b, 0), m') /\ mem_wf 0 m' /\
    live_bytes m' 3 = 8.
Proof.
  destruct (mem_alloc_spec demo_junk 0 demo_mem 3 demo_ftype demo_mem_wf) as (b & m' & H & Ha).
  - constructor.
  - split; [done|reflexivity].
  - discriminate.
  - exists b, m'. split; [exact H|]. destruct Ha as (Hw & _ & _ & Hl & _). split; [exact Hw|exact Hl].
Defined.

Lemma demo_type2 : type_at demo_mem1 2 demo_vtype.
Proof. split; [done|reflexivity]. Qed.

Lemma mem_free_spec_witness :
  exists m', ph_mem_free 0 2 (Some (1%positive, 16)) demo_mem1 = Ret (tt, m') /\ mem_wf 0 m' /\
    live_bytes m' 2 = 0.
Proof.
  destruct (mem_free_spec 0 demo_mem1 2 demo_vtype 1 demo_blk demo_mem1_wf) as (m' & H & Hw & _ & Hl & _).
  - constructor.
  - exact demo_type2.
  - reflexivity.
  - reflexivity.
  - vm_compute. discriminate.
  - exists m'. split; [exact H|]. split; [exact Hw|exact Hl].
Defined.

Lemma mem_realloc_spec_witness :
  exists b' m' (bytes : list Z), ph_mem_realloc demo_junk 0 2 (Some (1%positive, 16)) 5 demo_mem1 =
      Ret (Some (b', 16), m') /\ mem_wf 0 m' /\ bytes !! 1%nat = Some 2 /\ live_bytes m' 2 = 5.
Proof.
  destruct (mem_realloc_spec demo_junk 0 demo_mem1 2 demo_vtype 1 demo_blk 5 demo_mem1_wf)
    as (b' & m' & bytes & H & Hw & _ & _ & Hb & Hl & _).
  - constructor.
  - exact demo_type2.
  - reflexivity.
  - reflexivity.
  - reflexivity.
  - vm_compute. discriminate.
  - lia.
  - discriminate.
  - exists b', m', bytes. split; [exact H|]. split; [exact Hw|].
    destruct (Hb 1%nat) as [Hb1 _]; [simpl; lia|]. split; [apply Hb1; simpl; lia|exact Hl].
Defined.

Lemma mem_realloc_same_size_witness :
  exists p, ph_mem_realloc demo_junk 0 2 (Some (1%positive, 16)) 3 demo_mem1 = Ret (p, demo_mem1) /\
    ph_mem_free 0 2 p demo_mem1 = Fault.
Proof.
  destruct (mem_realloc_same_size demo_junk 0 demo_mem1 2 demo_vtype 1 demo_blk demo_mem1_wf demo_type2)
    as (p & H & _ & Hf); [reflexivity..|discriminate|].
  exists p. split; [exact H|exact Hf].
Defined.

Lemma demo_oom_wf : mem_wf 0 (set_ctr (set_oracle [false] (ctr demo_mem1)) demo_mem1).
Proof. apply mem_wf_oracle, demo_mem1_wf. Qed.


Lemma mem_stat_spec_witness :
  exists st, ph_mem_stat 2 demo_mem1 = Ret (Some st, demo_mem1) /\ bytes st = 3.
Proof.
  destruct (mem_stat_spec 0 demo_mem1 2 demo_vtype 1 (Scope 1 1 5 5 "v" "v" vnames) demo_mem1_wf demo_type2)
    as (st & H & _ & Hb & _).
  - split; [reflexivity|]. split; reflexivity.
  - reflexivity.
  - vm_compute. discriminate.
  - exists st. split; [exact H|exact Hb].
Defined.

(** Memtype 3 made a second variable-size type. *)
Definition demo_vtype2 : mem_type := MemType (MemtypeDef "demo" "w" 0 0) (Some 2%positive) 0.
Definition demo_mem2 : mem := set_memtypes [None; None; Some demo_vtype; Some demo_vtype2] demo_mem1.

Lemma demo_types2 i t : type_at demo_mem2 i t -> (i = 2 /\ t = demo_vtype) \/ (i = 3 /\ t = demo_vtype2).
Proof.
  intros [Hr Ht]. unfold PH_MEMTYPE_FIRST in Hr. simpl next_memtype in Hr.
  assert (i = 2 \/ i = 3) as [-> | ->] by lia; simpl in Ht; simplify_eq; auto.
Qed.

Lemma demo_mem2_wf : mem_wf 0 demo_mem2.
Proof.
  split.
  - apply demo_ctr1_wf.
  - simpl. lia.
  - intros i Hr. unfold PH_MEMTYPE_FIRST in Hr. simpl next_memtype in Hr.
    assert (i = 2 \/ i = 3) as [-> | ->] by lia; eexists; (split; [done|reflexivity]).
  - intros i t [[-> ->]|[-> ->]]%demo_types2; (split; [|simpl; lia]);
      (do 2 eexists; split; [reflexivity|]; split; reflexivity).
  - intros i j t t' sc [[-> ->]|[-> ->]]%demo_types2 [[-> ->]|[-> ->]]%demo_types2 Hi Hj; simpl in *; congruence.
  - intros b blk Hb. change (({[1%positive := demo_blk]} : gmap positive hblock) !! b = Some blk) in Hb.
    apply lookup_singleton_Some in Hb as [<- <-]. split; [done|].
    exists demo_vtype. split; [split; [done|reflexivity]|reflexivity].
  - intros i t sc s [[-> ->]|[-> ->]]%demo_types2 (Hsc & Hs & Hn); simpl in Hsc; simplify_eq;
      vm_compute in Hs; simplify_eq; split; reflexivity.
Qed.

Lemma mem_free_wrong_type_witness :
  ph_mem_free 0 3 (Some (1%positive, 16)) demo_mem2 = Panic.
Proof.
  destruct (mem_free_wrong_type 0 demo_mem2 3 demo_vtype2 1 demo_blk demo_mem2_wf) as [H _].
  - split; [done|reflexivity].
  - reflexivity.
  - reflexivity.
  - discriminate.
  - apply H. discriminate.
Defined.

(** The allocator with a block of each memtype: block 1 of three bytes of
    memtype 2, block 2 of memtype 3. *)
Definition demo_blk2 : hblock := HBlock 3 None (replicate 8 0).
Definition demo_mem3 : mem :=
  set_hfresh 3 (set_heap (<[2%positive := demo_blk2]> {[1%positive := demo_blk]}) (set_ctr
    (set_threads (fun _ => [hs_put (hs_put hs_init 1 3%positive) 2 4%positive])
      (set_blocks (fun _ => <[4%positive := Block 1 2 2 [8; 0; 1; 0; 0]]>
                              {[3%positive := Block 1 1 4 [3; 0; 1; 0; 0]]}) (set_fresh 5 demo_ctr)))
    demo_mem)).

Lemma demo_ctr3_wf : wf (ctr demo_mem3).
Proof.
  pose proof demo_ctr_wf as Hw.
  assert (forall p s, scopes demo_ctr !! p = Some s -> num_slots s = 5) as H5.
  { intros p s Hp. simpl in Hp.
    apply lookup_insert_Some in Hp as [[_ <-]|[_ Hp]]; [done|].
    apply lookup_insert_Some in Hp as [[_ <-]|[_ Hp]]; done. }
  assert (forall i t id b, threads (ctr demo_mem3) !! i = Some t -> hs_get t id = Some b ->
    i = 0%nat /\ ((id = 2 /\ b = 4%positive) \/ (id = 1 /\ b = 3%positive))) as Hth.
  { intros i t id b Ht Hg. simpl in Ht. apply list_lookup_singleton_Some in Ht as [-> <-].
    split; [done|]. simpl in Hg. apply lookup_insert_Some in Hg as [[<- <-]|[_ Hg]]; [by left|].
    apply lookup_insert_Some in Hg as [[<- <-]|[_ Hg]]; [by right|done]. }
  split; try apply Hw.
  - intros p s Hp. destruct (wf_scope _ Hw p s Hp). split; try done. simpl in *. lia.
  - intros i t id b Ht Hg. destruct (Hth _ _ _ _ Ht Hg) as [_ [[-> ->]|[-> ->]]];
      (eexists; split; [reflexivity|]; split; [done|done|done|simpl; lia|];
       intros p s Hp _; simpl; by rewrite (H5 p s)).
  - intros i j t t' id id' b Ht Ht' Hg Hg'.
    destruct (Hth _ _ _ _ Ht Hg) as [-> _]. by destruct (Hth _ _ _ _ Ht' Hg') as [-> _].
Qed.

Lemma demo_mem3_wf : mem_wf 0 demo_mem3.
Proof.
  split; try apply demo_mem_wf.
  - apply demo_ctr3_wf.
  - intros b blk Hb.
    change ((<[2%positive := demo_blk2]> {[1%positive := demo_blk]} : gmap positive hblock) !! b = Some blk) in Hb.
    apply lookup_insert_Some in Hb as [[<- <-]|[_ Hb]].
    + split; [done|]. exists demo_ftype. split; [split; [done|reflexivity]|by split].
    + apply lookup_singleton_Some in Hb as [<- <-]. split; [done|].
      exists demo_vtype. split; [split; [done|reflexivity]|reflexivity].
  - intros i t sc s Ht (Hsc & Hs & Hn). change (type_at demo_mem i t) in Ht.
    apply demo_types in Ht as [[-> ->]|[-> ->]]; simpl in Hsc; simplify_eq;
      vm_compute in Hs; simplify_eq; split; reflexivity.
Qed.

(** Initialise, register with [reg], then allocate ten bytes of the new memtype
    when [malloc] fails. *)
Definition oom_after (reg : M mem Z) : outcome ptr :=
  match memory_init (counter_init []) with
  | Ret m0 =>
      match reg m0 with
      | Ret (mt, m1) =>
          match ph_mem_alloc_size demo_junk 0 mt 10 (set_ctr (set_oracle [false] (ctr m1)) m1) with
          | Ret (p, _) => Ret p
          | Panic => Panic
          | Fault => Fault
          end
      | _ => Panic
      end
  | _ => Panic
  end.

(** For a memtype registered as a block, counting a failed allocation writes
    past the counters of its scope. *)
Theorem mem_block_oom_overrun :
  oom_after (ph_memtype_register (MemtypeDef "f" "n" 0 0)) = Ret None /\
  oom_after (r <-- ph_memtype_register_block [MemtypeDef "f" "n" 0 0] ;; ret r.1) = Fault.
Proof. split; vm_compute; reflexivity. Qed.

End MemoryProofs.
