(* ===== verification/PhString.v ===== *)
(** * Strings: corelib/string.c and include/phenom/string.h

    String objects live in a store of their own; a string's bytes are in a
    heap block of Memory or in an unmanaged buffer (stack, static data).  A
    memtype of 0 means the buffer cannot grow, a negative one that it is
    replaced by a heap buffer when it has to grow. *)

From Stdlib Require Import ZArith Lia.
From stdpp Require Import base numbers list gmap strings.
From S2P Require Import Prelude SysUtil Counter Memory.

Module PhString.
Import Counter Memory.

(** ** Bytes *)

(** libc [memcmp]: the difference of the first bytes that differ. *)
Fixpoint memcmp (a b : list Z) : Z :=
  match a, b with
  | x :: a, y :: b => if x =? y then memcmp a b else x - y
  | _, _ => 0
  end.

Definition tolower (c : Z) : Z := if (65 <=? c) && (c <=? 90) then c + 32 else c.

(** The result of [ph_string_compare] on the contents. *)
Definition compare_bytes (a b : list Z) : Z :=
  let len := MIN (zlen a) (zlen b) in
  let res := memcmp (take (Z.to_nat len) a) (take (Z.to_nat len) b) in
  if negb (res =? 0) || (zlen a =? zlen b) then res
  else if zlen a >? zlen b then 1 else -1.

Fixpoint equal_caseless_bytes (a b : list Z) : bool :=
  match a, b with
  | x :: a, y :: b => if negb (tolower x =? tolower y) then false else equal_caseless_bytes a b
  | _, _ => true
  end.

(** One code point as the bytes [buf[0 .. buflen)], or [None] when it is out
    of range. *)
Definition utf8_encode (cp : Z) : option (list Z) :=
  if cp <? 0 then None
  else if cp <? 0x80 then Some [u8 cp]
  else if cp <? 0x800 then
    Some [u8 (0xc0 + Z.shiftr (Z.land cp 0x7c0) 6); u8 (0x80 + Z.land cp 0x03f)]
  else if cp <? 0x10000 then
    Some [u8 (0xE0 + Z.shiftr (Z.land cp 0xF000) 12); u8 (0x80 + Z.shiftr (Z.land cp 0x0FC0) 6);
          u8 (0x80 + Z.land cp 0x003F)]
  else if cp <=? 0x10FFFF then
    Some [u8 (0xF0 + Z.shiftr (Z.land cp 0x1C0000) 18); u8 (0x80 + Z.shiftr (Z.land cp 0x03F000) 12);
          u8 (0x80 + Z.shiftr (Z.land cp 0x000FC0) 6); u8 (0x80 + Z.land cp 0x00003F)]
  else None.

(** The length of the sequence a first byte starts, 0 if it starts none. *)
Definition ph_utf8_seq_len (first : Z) : Z :=
  if first <? 0x80 then 1
  else if first <=? 0xc1 then 0
  else if first <=? 0xdf then 2
  else if first <=? 0xef then 3
  else if first <=? 0xf4 then 4
  else 0.

Definition first_bits (first : Z) : Z :=
  if first <? 0x80 then first
  else if first <=? 0xdf then Z.land first 0x1f
  else if first <=? 0xef then Z.land first 0xf
  else Z.land first 0x7.

(** The loop over the continuation bytes. *)
Fixpoint continuation (bs : list Z) (cp : Z) : option Z :=
  match bs with
  | [] => Some cp
  | u :: bs =>
      if (u <? 0x80) || (0xbf <? u) then None
      else continuation bs (Z.shiftl cp 6 + Z.land u 0x3f)
  end.

(** [ph_string_iterate_utf8_as_utf16] on the contents [s]: the result, the
    code point and the new offset. *)
Definition iterate_utf8 (s : list Z) (p : Z) : ph_result_t * Z * Z :=
  if zlen s <=? p then (PH_DONE, 0, p)
  else
    let first := default 0 (s !! Z.to_nat p) in
    let len := ph_utf8_seq_len first in
    if len =? 0 then (PH_ERR, 0, p)
    else if zlen s <? u32 (p + len) then (PH_ERR, 0, p)
    else
      match continuation (slice (Z.to_nat p + 1) (Z.to_nat len - 1) s) (first_bits first) with
      | None => (PH_ERR, 0, p)
      | Some cp =>
          if 0x10ffff <? cp then (PH_ERR, 0, p)
          else if (0xd800 <=? cp) && (cp <=? 0xdfff) then (PH_ERR, 0, p)
          else if ((len =? 2) && (cp <? 0x80)) || ((len =? 3) && (cp <? 0x800)) ||
                  ((len =? 4) && (cp <? 0x10000)) then (PH_ERR, 0, p)
          else (PH_OK, cp, u32 (p + len))
      end.

(** The loop of [ph_string_is_valid_utf8]; an iteration that succeeds consumes
    at least a byte, so [fuel] is the number of bytes plus one. *)
Fixpoint valid_loop (s : list Z) (fuel : nat) (off : Z) : option bool :=
  match fuel with
  | O => None
  | S fuel =>
      match iterate_utf8 s off with
      | (PH_OK, _, off) => valid_loop s fuel off
      | (PH_DONE, _, _) => Some true
      | _ => Some false
      end
  end.

(** ** Objects *)

Inductive bptr := BHeap (b : positive) (off : Z) | BStatic (id : positive) (off : Z).

Definition bptr_add (p : bptr) (n : Z) : bptr :=
  match p with BHeap b off => BHeap b (off + n) | BStatic id off => BStatic id (off + n) end.

(** [home] is the heap block of a string object that was allocated. *)
Record ph_string := Str {
  ref : Z;
  mt : Z;
  len : Z;
  alloc : Z;
  buf : option bptr;
  slice_of : option positive;
  onstack : bool;
  home : option positive;
}.

Definition PH_STRING_STATIC : Z := PH_MEMTYPE_INVALID.
Definition PH_STRING_GROW_MT (mt : Z) : Z := - mt.

Section strings.
Context `{HSname : ck_hs string} `{HSid : ck_hs Z}.
Context (junk : positive -> nat -> Z) (self : nat).

Record world := World {
  smem : mem;
  strs : gmap positive ph_string;
  sfresh : positive;
  statics : gmap positive (list Z);
  mt_string : Z;
}.

Definition set_smem m (w : world) := World m (strs w) (sfresh w) (statics w) (mt_string w).
Definition set_strs f (w : world) := World (smem w) (f (strs w)) (sfresh w) (statics w) (mt_string w).
Definition set_sfresh p (w : world) := World (smem w) (strs w) p (statics w) (mt_string w).
Definition set_statics f (w : world) := World (smem w) (strs w) (sfresh w) (f (statics w)) (mt_string w).

Definition liftm {A} (f : M mem A) : M world A := fun w =>
  match f (smem w) with
  | Ret (a, m) => Ret (a, set_smem m w)
  | Panic => Panic
  | Fault => Fault
  end.

Definition load_str (p : positive) : M world ph_string := fun w =>
  match strs w !! p with Some s => Ret (s, w) | None => Fault end.
Definition store_str (p : positive) (s : ph_string) : M world unit := modify (set_strs <[p := s]>).

(** The offset of the caller's bytes in a heap block. *)
Definition base (blk : hblock) : Z :=
  match hdr blk with Some _ => HEADER_RESERVATION | None => 0 end.

(** The bytes of the object a pointer points into, and the index there. *)
Definition locate (w : world) (p : bptr) : option (list Z * Z) :=
  match p with
  | BHeap b off => match heap (smem w) !! b with
                   | Some blk => Some (data blk, off - base blk)
                   | None => None
                   end
  | BStatic id off => match statics w !! id with Some l => Some (l, off) | None => None end
  end.

Definition update (p : bptr) (l : list Z) (w : world) : world :=
  match p with
  | BHeap b _ => set_smem (set_heap (alter (fun blk => HBlock (owner blk) (hdr blk) l) b
                                      (heap (smem w))) (smem w)) w
  | BStatic id _ => set_statics <[id := l]> w
  end.

(** [memcpy] from and to memory; nothing is accessed for a length of 0. *)
Definition read_bytes (p : option bptr) (n : Z) : M world (list Z) := fun w =>
  if n =? 0 then Ret ([], w)
  else match p with
  | None => Fault
  | Some p =>
      match locate w p with
      | Some (l, i) =>
          if (i <? 0) || (zlen l <? i + n) then Fault
          else Ret (slice (Z.to_nat i) (Z.to_nat n) l, w)
      | None => Fault
      end
  end.

Definition write_bytes (p : option bptr) (bs : list Z) : M world unit := fun w =>
  if zlen bs =? 0 then Ret (tt, w)
  else match p with
  | None => Fault
  | Some p =>
      match locate w p with
      | Some (l, i) =>
          if (i <? 0) || (zlen l <? i + zlen bs) then Fault
          else Ret (tt, update p (splice (Z.to_nat i) bs l) w)
      | None => Fault
      end
  end.

Definition bptr_of (p : ptr) : option bptr :=
  match p with Some (b, off) => Some (BHeap b off) | None => None end.
Definition ptr_of (p : option bptr) : M world ptr :=
  match p with
  | Some (BHeap b off) => ret (Some (b, off))
  | Some (BStatic _ _) => fault
  | None => ret None
  end.

(** A new string object: on the heap when [home] is given. *)
Definition new_str (s : ph_string) : M world positive := fun w =>
  let p := sfresh w in
  Ret (p, set_sfresh (Pos.succ p) (set_strs <[p := s]> w)).

Definition ph_string_addref (p : positive) : M world unit :=
  s <-- load_str p ;;
  store_str p (Str (ph_refcnt_add (ref s)) (mt s) (len s) (alloc s) (buf s) (slice_of s)
                 (onstack s) (home s)).

(** The fields [ph_string_init_slice] sets, for an object at [home]. *)
Definition ph_string_init_slice (home : option positive) (slice : positive) (start n : Z) :
    M world positive :=
  sl <-- load_str slice ;;
  b <-- of_option (buf sl) ;;
  p <-- new_str (Str 1 PH_MEMTYPE_INVALID n n (Some (bptr_add b start)) (Some slice) true home) ;;
  ph_string_addref slice ;;;
  ret p.

Definition ph_string_make_slice (str : positive) (start n : Z) : M world (option positive) :=
  s <-- load_str str ;;
  if (start =? 0) && (n =? len s) then ph_string_addref str ;;; ret (Some str)
  else
    w <-- get ;;
    p <-- liftm (ph_mem_alloc junk self (mt_string w)) ;;
    match p with
    | None => ret None
    | Some (b, _) => q <-- ph_string_init_slice (Some b) str start n ;; ret (Some q)
    end.

Definition ph_string_init_claim (m : Z) (b : option bptr) (n size : Z) : M world positive :=
  new_str (Str 1 m n size b None true None).

Definition ph_string_make_claim (m : Z) (b : option bptr) (n size : Z) : M world (option positive) :=
  w <-- get ;;
  p <-- liftm (ph_mem_alloc junk self (mt_string w)) ;;
  match p with
  | None => ret None
  | Some (h, _) => q <-- new_str (Str 1 m n size b None false (Some h)) ;; ret (Some q)
  end.

Definition ph_string_make_empty (m size : Z) : M world (option positive) :=
  b <-- liftm (ph_mem_alloc_size junk self m size) ;;
  match b with
  | None => ret None
  | Some _ =>
      str <-- ph_string_make_claim m (bptr_of b) 0 size ;;
      match str with
      | None => liftm (ph_mem_free self m b) ;;; ret None
      | Some p => ret (Some p)
      end
  end.

(** [ph_string_delref]; [fuel] bounds the chain of slices that it releases. *)
Fixpoint delref_loop (fuel : nat) (str : positive) : M world unit :=
  match fuel with
  | O => fault
  | S fuel =>
      s <-- load_str str ;;
      let '(last, r) := ph_refcnt_del (ref s) in
      store_str str (Str r (mt s) (len s) (alloc s) (buf s) (slice_of s) (onstack s) (home s)) ;;;
      if negb last then ret tt
      else
        (if 0 <? mt s then
           p <-- ptr_of (buf s) ;;
           liftm (ph_mem_free self (mt s) p)
         else ret tt) ;;;
        (match slice_of s with Some q => delref_loop fuel q | None => ret tt end) ;;;
        let m := if 0 <? mt s then PH_MEMTYPE_INVALID else mt s in
        store_str str (Str r m (len s) (alloc s) None None (onstack s) (home s)) ;;;
        if negb (onstack s) then
          w <-- get ;;
          h <-- of_option (home s) ;;
          liftm (ph_mem_free self (mt_string w) (Some (h, 0))) ;;;
          modify (set_strs (delete str))
        else ret tt
  end.

Definition ph_string_delref (str : positive) : M world unit := fun w =>
  delref_loop (S (size (strs w))) str w.

(** Where the bytes to append come from: memory of the caller's own, or a
    pointer that is dereferenced at the [memcpy]. *)
Inductive source := Bytes (l : list Z) | From (p : option bptr) (n : Z).

Definition source_len (s : source) : Z := match s with Bytes l => u32 (zlen l) | From _ n => n end.
Definition source_read (s : source) (n : Z) : M world (list Z) :=
  match s with Bytes l => ret (take (Z.to_nat n) l) | From p _ => read_bytes p n end.

Definition with_buf (m n a : Z) (b : option bptr) (s : ph_string) : ph_string :=
  Str (ref s) m n a b (slice_of s) (onstack s) (home s).

(** The [memcpy] behind the contents and the new length. *)
Definition append_copy (str : positive) (src : source) (n : Z) : M world ph_result_t :=
  s <-- load_str str ;;
  bs <-- source_read src n ;;
  write_bytes (option_map (fun b => bptr_add b (len s)) (buf s)) bs ;;;
  store_str str (with_buf (mt s) (u32 (len s + n)) (alloc s) (buf s) s) ;;;
  ret PH_OK.

Definition ph_string_append_buf (str : positive) (src : source) : M world ph_result_t :=
  s <-- load_str str ;;
  let n := source_len src in
  if alloc s <? u32 (n + len s) then
    if mt s =? PH_STRING_STATIC then append_copy str src (u32 (alloc s - len s))
    else
      let nsize := ph_power_2 (u32 (len s + n)) in
      nbuf <-- (if mt s <? 0 then liftm (ph_mem_alloc_size junk self (- mt s) nsize)
                else p <-- ptr_of (buf s) ;; liftm (ph_mem_realloc junk self (mt s) p nsize)) ;;
      match nbuf with
      | None => ret PH_NOMEM
      | Some _ =>
          (if mt s <? 0 then
             old <-- read_bytes (buf s) (len s) ;;
             write_bytes (bptr_of nbuf) old
           else ret tt) ;;;
          store_str str (with_buf (Z.abs (mt s)) (len s) nsize (bptr_of nbuf) s) ;;;
          append_copy str src n
      end
  else append_copy str src n.

Definition ph_string_append_str (target str : positive) : M world ph_result_t :=
  s <-- load_str str ;;
  ph_string_append_buf target (From (buf s) (len s)).

Definition ph_string_append_cstr (str : positive) (cstr : list Z) : M world ph_result_t :=
  ph_string_append_buf str (Bytes cstr).

Definition ph_string_make_copy (m : Z) (bs : list Z) (size : Z) : M world (option positive) :=
  str <-- ph_string_make_empty m (MAX (u32 (zlen bs)) size) ;;
  match str with
  | None => ret None
  | Some p => ph_string_append_buf p (Bytes bs) ;;; ret (Some p)
  end.

Definition ph_string_make_cstr (m : Z) (cstr : list Z) : M world (option positive) :=
  ph_string_make_copy m cstr 0.

Definition ph_string_len (str : positive) : M world Z := s <-- load_str str ;; ret (len s).
Definition ph_string_reset (str : positive) : M world unit :=
  s <-- load_str str ;; store_str str (with_buf (mt s) 0 (alloc s) (buf s) s).

(** The contents of a string. *)
Definition contents (str : positive) : M world (list Z) :=
  s <-- load_str str ;; read_bytes (buf s) (len s).

Definition ph_string_equal (a b : positive) : M world bool :=
  if decide (a = b) then ret true
  else
    sa <-- load_str a ;; sb <-- load_str b ;;
    if negb (len sa =? len sb) then ret false
    else
      la <-- read_bytes (buf sa) (len sa) ;; lb <-- read_bytes (buf sb) (len sa) ;;
      ret (memcmp la lb =? 0).

Definition ph_string_equal_caseless (a b : positive) : M world bool :=
  if decide (a = b) then ret true
  else
    sa <-- load_str a ;; sb <-- load_str b ;;
    if negb (len sa =? len sb) then ret false
    else
      la <-- contents a ;; lb <-- contents b ;;
      ret (equal_caseless_bytes la lb).

(** [b] is the C string without its NUL, [None] for NULL. *)
Definition ph_string_equal_cstr (a : positive) (b : option (list Z)) : M world bool :=
  match b with
  | None => ret false
  | Some b =>
      s <-- load_str a ;;
      if negb (u32 (zlen b) =? len s) then ret false
      else la <-- read_bytes (buf s) (len s) ;; ret (memcmp la (take (Z.to_nat (len s)) b) =? 0)
  end.

Definition ph_string_compare (a b : positive) : M world Z :=
  if decide (a = b) then ret 0
  else
    sa <-- load_str a ;; sb <-- load_str b ;;
    let n := MIN (len sa) (len sb) in
    la <-- read_bytes (buf sa) n ;; lb <-- read_bytes (buf sb) n ;;
    let res := memcmp la lb in
    ret (if negb (res =? 0) || (len sa =? len sb) then res
         else if len sa >? len sb then 1 else -1).

(** The loop of [ph_string_append_utf16_as_utf8]: the result and the number of
    bytes appended. *)
Fixpoint ph_string_append_utf16_as_utf8 (str : positive) (cps : list Z) (appended : Z) :
    M world (ph_result_t * Z) :=
  match cps with
  | [] => ret (PH_OK, appended)
  | cp :: cps =>
      match utf8_encode cp with
      | None => ret (PH_ERR, appended)
      | Some bs =>
          res <-- ph_string_append_buf str (Bytes bs) ;;
          match res with
          | PH_OK => ph_string_append_utf16_as_utf8 str cps (u32 (appended + zlen bs))
          | e => ret (e, appended)
          end
      end
  end.

Definition ph_string_iterate_utf8_as_utf16 (str : positive) (p : Z) : M world (ph_result_t * Z * Z) :=
  l <-- contents str ;; ret (iterate_utf8 l p).

Definition ph_string_is_valid_utf8 (str : positive) : M world bool :=
  l <-- contents str ;; of_option (valid_loop l (S (length l)) 0).

(** [_ph_string_nul_terminated] *)
Definition nul_terminated (str : positive) : M world bool :=
  s <-- load_str str ;;
  if alloc s <=? len s then ret false
  else
    c <-- read_bytes (option_map (fun b => bptr_add b (len s)) (buf s)) 1 ;;
    if bool_decide (c = [0]) then ret true
    else if slice_of s then ret false
    else if len s <? alloc s then
      write_bytes (option_map (fun b => bptr_add b (len s)) (buf s)) [0] ;;; ret true
    else ret false.

End strings.
End PhString.
