(* ===== verification/PhStringUtf8.v ===== *)
(** * UTF-8 and string comparison, on the contents of strings

    Encoding and decoding are inverse to each other on the Unicode scalar
    values, the validity check accepts exactly the concatenations of encoded
    scalar values, and the comparison is a total order that agrees with
    equality. *)

From Stdlib Require Import ZArith Lia.
From stdpp Require Import base numbers list.
From S2P Require Import Prelude SysUtil PhString.

Module PhStringUtf8.
Import PhString.

#[local] Ltac Zify.zify_post_hook ::= Z.to_euclidean_division_equations.

Definition is_byte (x : Z) : Prop := 0 <= x < 256.
Definition scalar (cp : Z) : Prop := 0 <= cp <= 0x10ffff /\ ~ (0xd800 <= cp <= 0xdfff).

(** ** Bit fields as division *)

Lemma field x k j m : 0 <= k -> 0 <= j -> m = Z.shiftl (Z.ones j) k ->
  Z.shiftr (Z.land x m) k = (x / 2 ^ k) mod 2 ^ j.
Proof.
  intros Hk Hj ->. rewrite Z.shiftr_land, Z.shiftr_shiftl_l by lia.
  rewrite Z.sub_diag. change (Z.shiftl (Z.ones j) 0) with (Z.ones j).
  rewrite Z.land_ones, Z.shiftr_div_pow2 by lia. done.
Qed.

Lemma low x j m : 0 <= j -> m = Z.ones j -> Z.land x m = x mod 2 ^ j.
Proof. intros Hj ->. by apply Z.land_ones. Qed.

Lemma u8_mod x : u8 x = x mod 256.
Proof. done. Qed.

(** The encoder with its bit operations written as arithmetic. *)
Definition encode_arith (cp : Z) : option (list Z) :=
  if cp <? 0 then None
  else if cp <? 0x80 then Some [cp]
  else if cp <? 0x800 then Some [0xc0 + cp / 64; 0x80 + cp mod 64]
  else if cp <? 0x10000 then
    Some [0xE0 + cp / 4096; 0x80 + (cp / 64) mod 64; 0x80 + cp mod 64]
  else if cp <=? 0x10FFFF then
    Some [0xF0 + cp / 262144; 0x80 + (cp / 4096) mod 64; 0x80 + (cp / 64) mod 64; 0x80 + cp mod 64]
  else None.

Ltac bytes_eq := f_equal; repeat (apply (f_equal2 cons); [lia|]); reflexivity.

Lemma utf8_encode_arith cp : utf8_encode cp = encode_arith cp.
Proof.
  unfold utf8_encode, encode_arith.
  repeat (case_bool; [zbool|zbool]); try done.
  - rewrite u8_mod. bytes_eq.
  - rewrite (field cp 6 5), (low cp 6) by done. rewrite !u8_mod. bytes_eq.
  - rewrite (field cp 12 4), (field cp 6 6), (low cp 6) by done. rewrite !u8_mod. bytes_eq.
  - rewrite (field cp 18 3), (field cp 12 6), (field cp 6 6), (low cp 6) by done. rewrite !u8_mod.
    bytes_eq.
Qed.

Lemma continuation_step u bs cp :
  0x80 <= u <= 0xbf -> continuation (u :: bs) cp = continuation bs (cp * 64 + (u - 0x80)).
Proof.
  intros Hu. cbn [continuation]. rewrite (proj2 (Z.ltb_ge _ _)), (proj2 (Z.ltb_ge _ _)) by lia.
  cbn [orb]. rewrite Z.shiftl_mul_pow2, (low u 6) by done. f_equal. lia.
Qed.

(** The sequence that starts the string, without the offset arithmetic. *)
Definition decode (first : Z) (rest : list Z) : option Z :=
  match continuation rest (first_bits first) with
  | None => None
  | Some cp =>
      let len := ph_utf8_seq_len first in
      if 0x10ffff <? cp then None
      else if (0xd800 <=? cp) && (cp <=? 0xdfff) then None
      else if ((len =? 2) && (cp <? 0x80)) || ((len =? 3) && (cp <? 0x800)) ||
              ((len =? 4) && (cp <? 0x10000)) then None
      else Some cp
  end.

Lemma seq_len_cases first : is_byte first ->
  (ph_utf8_seq_len first = 1 /\ first < 0x80 /\ first_bits first = first) \/
  (ph_utf8_seq_len first = 2 /\ 0xc2 <= first <= 0xdf /\ first_bits first = first - 0xc0) \/
  (ph_utf8_seq_len first = 3 /\ 0xe0 <= first <= 0xef /\ first_bits first = first - 0xe0) \/
  (ph_utf8_seq_len first = 4 /\ 0xf0 <= first <= 0xf4 /\ first_bits first = first - 0xf0) \/
  ph_utf8_seq_len first = 0.
Proof.
  unfold is_byte, ph_utf8_seq_len, first_bits. intros H.
  rewrite (low first 5), (low first 4), (low first 3) by done.
  repeat (case_bool; [zbool|zbool]); try lia.
Qed.

Lemma decode_ok first rest cp :
  continuation rest (first_bits first) = Some cp -> scalar cp ->
  (ph_utf8_seq_len first = 2 -> 0x80 <= cp) -> (ph_utf8_seq_len first = 3 -> 0x800 <= cp) ->
  (ph_utf8_seq_len first = 4 -> 0x10000 <= cp) -> decode first rest = Some cp.
Proof.
  intros Hc [Hr Hs] H2 H3 H4. unfold decode. rewrite Hc. cbv zeta.
  repeat (case_bool; [lia|]). done.
Qed.

(** Encoding, then decoding. *)
Lemma decode_encode cp bs :
  scalar cp -> utf8_encode cp = Some bs ->
  exists first rest, bs = first :: rest /\ decode first rest = Some cp /\
    ph_utf8_seq_len first = zlen bs /\ Forall is_byte bs.
Proof.
  intros Hsc. pose proof Hsc as [Hr Hs]. rewrite utf8_encode_arith. unfold encode_arith, is_byte.
  repeat (case_bool; [zbool|zbool]); try done; try lia; intros [= <-].
  all: match goal with |- exists _ _, (?x :: ?l = _) /\ _ => exists x, l; split; [done|];
         destruct (seq_len_cases x) as [(Hl & ? & Hf)|[(Hl & ? & Hf)|[(Hl & ? & Hf)|[(Hl & ? & Hf)|Hl]]]];
         [unfold is_byte; lia|..]; try lia end.
  all: try (exfalso; revert Hl; unfold ph_utf8_seq_len; repeat case_bool; lia).
  all: (split; [apply decode_ok; [|done|lia|lia|lia]|split; [rewrite Hl; done|]]);
       [rewrite Hf, ?continuation_step by lia; cbn [continuation]; f_equal; lia|].
  all: repeat constructor; lia.
Qed.

(** Decoding, then encoding. *)
Lemma encode_decode first rest cp :
  Forall is_byte (first :: rest) -> ph_utf8_seq_len first = zlen (first :: rest) ->
  decode first rest = Some cp -> scalar cp /\ utf8_encode cp = Some (first :: rest).
Proof.
  intros Hb Hlen Hd. apply Forall_cons in Hb as [Hf Hb]. unfold decode in Hd.
  destruct (continuation rest (first_bits first)) as [cp'|] eqn:Ec; [|done].
  cbv zeta in Hd. repeat (case_bool; [done|]). injection Hd as ->.
  assert (forall u bs c, continuation (u :: bs) c = Some cp -> 0x80 <= u <= 0xbf /\
    continuation bs (c * 64 + (u - 0x80)) = Some cp) as Hstep.
  { intros u bs c Hc. assert (0x80 <= u <= 0xbf); [|by rewrite <- continuation_step].
    cbn [continuation] in Hc. case_bool; [done|lia]. }
  rewrite utf8_encode_arith. unfold is_byte in Hf.
  destruct (seq_len_cases first Hf) as [(Hl & ? & Hfb)|[(Hl & ? & Hfb)|[(Hl & ? & Hfb)|[(Hl & ? & Hfb)|Hl]]]];
    rewrite Hl in *; try rewrite Hfb in Ec.
  5: simpl in Hlen; lia.
  all: repeat (destruct rest as [|? rest]; [try (simpl in Hlen; lia)|try (simpl in Hlen; lia)]).
  all: repeat (apply Hstep in Ec as [? Ec]); cbn [continuation] in Ec; injection Ec as Ec.
  all: split; [unfold scalar; lia|]; unfold encode_arith;
       repeat (case_bool; [try lia|try lia]); bytes_eq.
Qed.

(** ** The iterator *)

(** At an offset inside the string, in terms of [decode]. *)
Lemma iterate_decode s p first rest post :
  0 <= p -> drop (Z.to_nat p) s = first :: rest ++ post -> zlen s < 2 ^ 32 - 4 ->
  ph_utf8_seq_len first = zlen (first :: rest) ->
  iterate_utf8 s p = match decode first rest with
                     | Some cp => (PH_OK, cp, p + zlen (first :: rest))
                     | None => (PH_ERR, 0, p)
                     end.
Proof.
  intros Hp Hd Hs Hl. assert (length (drop (Z.to_nat p) s) = length (first :: rest ++ post)) as Hlen
    by (by rewrite Hd). rewrite length_drop in Hlen. cbn [length] in Hlen. rewrite length_app in Hlen.
  assert (s !! Z.to_nat p = Some first) as Hf.
  { rewrite <- (Nat.add_0_r (Z.to_nat p)), <- lookup_drop, Hd. done. }
  assert (slice (Z.to_nat p + 1) (length rest) s = rest) as Hsl.
  { unfold slice. rewrite <- drop_drop, Hd. change (take (length rest) (rest ++ post) = rest).
    apply take_app_length. }
  unfold iterate_utf8, decode. rewrite (proj2 (Z.leb_gt _ _)) by lia. rewrite Hf. cbn [default].
  cbv zeta. unfold from_option, id.
  cbn [length] in Hl. rewrite (proj2 (Z.eqb_neq (ph_utf8_seq_len first) 0)) by lia.
  rewrite (wrapU_small 32) by lia. rewrite (proj2 (Z.ltb_ge _ _)) by lia.
  replace (Z.to_nat (ph_utf8_seq_len first) - 1)%nat with (length rest) by lia. rewrite Hsl.
  destruct (continuation rest (first_bits first)) as [cp|]; [|done].
  cbn [length]. rewrite <- Hl. repeat (case_bool; [done|]). done.
Qed.

(** C37. Decoding the UTF-8 encoding of a Unicode scalar value anywhere in a string
    gives the value back and the offset behind it. *)
Theorem utf8_roundtrip cp bs pre post :
  scalar cp -> utf8_encode cp = Some bs -> zlen (pre ++ bs ++ post) < 2 ^ 32 - 4 ->
  iterate_utf8 (pre ++ bs ++ post) (zlen pre) = (PH_OK, cp, zlen (pre ++ bs)).
Proof.
  intros Hs He Hl. destruct (decode_encode cp bs Hs He) as (first & rest & -> & Hd & Hlen & _).
  rewrite (iterate_decode _ _ first rest post), Hd; [..|done|done].
  - f_equal. rewrite !length_app. lia.
  - lia.
  - by rewrite Nat2Z.id, drop_app_length.
Qed.

Lemma seq_len_range first : 0 <= ph_utf8_seq_len first <= 4.
Proof. unfold ph_utf8_seq_len. repeat case_bool; lia. Qed.

(** A step of the iterator that succeeds. *)
Lemma iterate_ok s p cp p' :
  Forall is_byte s -> 0 <= p -> zlen s < 2 ^ 32 - 4 -> iterate_utf8 s p = (PH_OK, cp, p') ->
  scalar cp /\ p < p' <= zlen s /\
  utf8_encode cp = Some (slice (Z.to_nat p) (Z.to_nat (p' - p)) s).
Proof.
  intros Hb Hp Hs Hit. pose proof Hit as Hit0. unfold iterate_utf8 in Hit0.
  destruct (zlen s <=? p) eqn:E1; [done|]. zbool.
  destruct (lookup_lt_is_Some_2 s (Z.to_nat p)) as [first Hf]; [lia|].
  rewrite Hf in Hit0. cbv zeta in Hit0. unfold from_option, id in Hit0. cbn in Hit0.
  pose proof (seq_len_range first) as Hlr.
  destruct (ph_utf8_seq_len first =? 0) eqn:E2; [done|]. zbool.
  rewrite (wrapU_small 32) in Hit0 by lia.
  destruct (zlen s <? p + ph_utf8_seq_len first) eqn:E3; [done|]. zbool. clear Hit0.
  set (n := (Z.to_nat (ph_utf8_seq_len first) - 1)%nat).
  assert (Z.of_nat n + 1 = ph_utf8_seq_len first) as Hn by (unfold n; lia).
  set (rest := slice (Z.to_nat p + 1) n s).
  assert (length rest = n) as Hrl by (apply length_slice; lia).
  assert (drop (Z.to_nat p) s = first :: rest ++ drop (Z.to_nat p + 1 + n) s) as Hd.
  { rewrite (drop_S _ _ _ Hf). f_equal. unfold rest, slice. rewrite Nat.add_1_r.
    assert (drop (S (Z.to_nat p) + n) s = drop n (drop (S (Z.to_nat p)) s)) as ->
      by (by rewrite drop_drop). by rewrite take_drop. }
  assert (ph_utf8_seq_len first = zlen (first :: rest)) as Hl by (simpl; lia).
  rewrite (iterate_decode s p first rest _ Hp Hd Hs Hl) in Hit.
  destruct (decode first rest) as [c|] eqn:Ed; [|done]. injection Hit as -> <-.
  assert (Forall is_byte (first :: rest)) as Hbr.
  { apply Forall_drop with (n := Z.to_nat p) in Hb. rewrite Hd in Hb.
    rewrite app_comm_cons in Hb. by apply Forall_app in Hb as [Hb _]. }
  destruct (encode_decode first rest cp Hbr Hl Ed) as [Hsc He].
  split; [done|]. split; [simpl in *; lia|]. rewrite He. f_equal. unfold slice. rewrite Hd.
  replace (Z.to_nat (p + Z.of_nat (S (length rest)) - p)) with (length (first :: rest)) by (cbn [length]; lia).
  symmetry. apply (take_app_length (first :: rest)).
Qed.

(** A decoded code point is a scalar value whose encoding is the bytes consumed. *)
Theorem utf8_decode_sound s p cp p' :
  Forall is_byte s -> 0 <= p -> zlen s < 2 ^ 32 - 4 -> iterate_utf8 s p = (PH_OK, cp, p') ->
  scalar cp /\ p < p' <= zlen s /\
  utf8_encode cp = Some (slice (Z.to_nat p) (Z.to_nat (p' - p)) s).
Proof. apply iterate_ok. Qed.

(** ** Validity *)

(** [s] is the concatenation of the encodings of scalar values. *)
Inductive utf8 : list Z -> Prop :=
  | utf8_nil : utf8 []
  | utf8_cons cp bs s : scalar cp -> utf8_encode cp = Some bs -> utf8 s -> utf8 (bs ++ s).

Lemma iterate_done s p : iterate_utf8 s p = (PH_DONE, 0, p) <-> zlen s <= p.
Proof.
  unfold iterate_utf8. split.
  - destruct (zlen s <=? p) eqn:E; [by apply Z.leb_le in E|]. cbv zeta.
    repeat (case_bool; [done|]). destruct (continuation _ _); [|done].
    by repeat (case_bool; [done|]).
  - intros H. by rewrite (proj2 (Z.leb_le _ _)).
Qed.

Lemma iterate_result s p :
  match iterate_utf8 s p with
  | (PH_OK, _, _) | (PH_ERR, _, _) => p < zlen s
  | (PH_DONE, _, _) => zlen s <= p
  | _ => False
  end.
Proof.
  unfold iterate_utf8. destruct (zlen s <=? p) eqn:E; zbool; [done|]. cbv zeta.
  repeat (case_bool; [done|]). destruct (continuation _ _); [|done].
  repeat (case_bool; [done|]). done.
Qed.

Lemma utf8_next s p : utf8 (drop (Z.to_nat p) s) -> 0 <= p < zlen s -> zlen s < 2 ^ 32 - 4 ->
  exists cp p', iterate_utf8 s p = (PH_OK, cp, p') /\ utf8 (drop (Z.to_nat p') s) /\ p <= p'.
Proof.
  intros Hu Hp Hs. inversion Hu as [Hn|cp bs rest Hsc He Hrest Heq].
  { apply (f_equal length) in Hn. rewrite length_drop in Hn. simpl in Hn. lia. }
  symmetry in Heq. destruct (decode_encode cp bs Hsc He) as (first & r & -> & Hd & Hlen & _).
  exists cp, (p + zlen (first :: r)). split_and!; [|..|lia].
  - rewrite (iterate_decode s p first r rest), Hd; [done|lia|by rewrite Heq|done|done].
  - replace (Z.to_nat (p + zlen (first :: r))) with (Z.to_nat p + length (first :: r))%nat by lia.
    rewrite <- drop_drop, Heq, drop_app_length. done.
Qed.

Lemma valid_loop_spec s : Forall is_byte s -> zlen s < 2 ^ 32 - 4 -> forall fuel p,
  0 <= p <= zlen s -> zlen s - p < Z.of_nat fuel ->
  exists b, valid_loop s fuel p = Some b /\ (b = true <-> utf8 (drop (Z.to_nat p) s)).
Proof.
  intros Hb Hs. induction fuel as [|fuel IH]; intros p Hp Hf; [lia|]. cbn [valid_loop].
  pose proof (iterate_result s p) as Hr.
  destruct (iterate_utf8 s p) as [[r cp] p'] eqn:Ei. destruct r; try done.
  - destruct (iterate_ok s p cp p' Hb) as (Hsc & Hp' & He); [lia|done|done|].
    destruct (IH p') as (b & Hv & Hiff); [lia|lia|]. exists b. split; [done|]. rewrite Hiff.
    assert (drop (Z.to_nat p) s = slice (Z.to_nat p) (Z.to_nat (p' - p)) s ++ drop (Z.to_nat p') s) as Hd.
    { unfold slice. replace (Z.to_nat p') with (Z.to_nat p + Z.to_nat (p' - p))%nat by lia.
      by rewrite <- drop_drop, take_drop. }
    split.
    + intros Hu. rewrite Hd. by eapply utf8_cons.
    + intros Hu. destruct (utf8_next s p Hu) as (cp1 & p1 & Hi & Hu1 & _); [lia|done|]. congruence.
  - exists false. split; [done|]. split; [done|]. intros Hu.
    destruct (utf8_next s p Hu) as (cp1 & p1 & Hi & _); [lia|done|]. congruence.
  - exists true. split; [done|]. split; [|done]. intros _. rewrite drop_ge by lia. constructor.
Qed.

(** C38. The validity check terminates and accepts exactly the concatenations of
    encoded scalar values: no overlong forms, surrogates or truncated sequences. *)
Theorem utf8_valid_iff s :
  Forall is_byte s -> zlen s < 2 ^ 32 - 4 ->
  exists b, valid_loop s (S (length s)) 0 = Some b /\ (b = true <-> utf8 s).
Proof.
  intros Hb Hs. destruct (valid_loop_spec s Hb Hs (S (length s)) 0) as (b & Hv & Hiff); [lia|lia|].
  exists b. by rewrite drop_0 in Hiff.
Qed.

(** ** Comparison *)

Lemma memcmp_refl a : memcmp a a = 0.
Proof. induction a as [|x a IH]; simpl; [done|]. by rewrite Z.eqb_refl. Qed.

Lemma memcmp_opp a : forall b, memcmp b a = - memcmp a b.
Proof.
  induction a as [|x a IH]; intros [|y b]; simpl; try done. rewrite (Z.eqb_sym y x).
  case_bool; [apply IH|lia].
Qed.

(** Lexicographic order, the empty string first. *)
Fixpoint lex_le (a b : list Z) : Prop :=
  match a, b with
  | [], _ => True
  | _ :: _, [] => False
  | x :: a, y :: b => x < y \/ (x = y /\ lex_le a b)
  end.

Lemma compare_cons x a y b :
  compare_bytes (x :: a) (y :: b) = if x =? y then compare_bytes a b else x - y.
Proof.
  unfold compare_bytes. rewrite !MIN_min. cbn [length].
  replace (Z.to_nat (Z.min (Z.of_nat (S (length a))) (Z.of_nat (S (length b)))))
    with (S (Z.to_nat (Z.min (zlen a) (zlen b)))) by lia.
  cbn [firstn memcmp]. destruct (x =? y) eqn:E; zbool.
  - replace (Z.of_nat (S (length a)) =? Z.of_nat (S (length b))) with (zlen a =? zlen b)
      by (apply eq_true_iff_eq; rewrite !Z.eqb_eq; lia).
    replace (Z.of_nat (S (length a)) >? Z.of_nat (S (length b))) with (zlen a >? zlen b)
      by (apply eq_true_iff_eq; rewrite !Z.gtb_gt; lia).
    done.
  - rewrite (proj2 (Z.eqb_neq (x - y) 0)) by lia. done.
Qed.

Lemma compare_lex a : forall b, (compare_bytes a b <= 0 <-> lex_le a b) /\ (compare_bytes a b = 0 <-> a = b).
Proof.
  induction a as [|x a IH]; intros [|y b].
  - done.
  - unfold compare_bytes. rewrite MIN_min. simpl. split; split; intros; try done; lia.
  - unfold compare_bytes. rewrite MIN_min. simpl. split; split; intros; try done; lia.
  - rewrite compare_cons. destruct (IH b) as [IH1 IH2]. cbn [lex_le].
    destruct (x =? y) eqn:E; zbool.
    + subst y. rewrite IH1, IH2. split; [|split; [by intros ->|by intros [= ->]]].
      split; [auto|]. intros [?|[_ ?]]; [lia|done].
    + split; [|split; [lia|]; intros [= ? ?]; lia]. split; [left; lia|].
      intros [?|[? _]]; lia.
Qed.

Lemma compare_opp a b : Z.sgn (compare_bytes b a) = - Z.sgn (compare_bytes a b).
Proof.
  revert b. induction a as [|x a IH]; intros [|y b]; try done.
  rewrite !compare_cons, (Z.eqb_sym y x). case_bool; [apply IH|lia].
Qed.

Lemma lex_trans a : forall b c, lex_le a b -> lex_le b c -> lex_le a c.
Proof.
  induction a as [|x a IH]; intros [|y b] [|z c]; simpl; try done.
  intros [?|[-> ?]] [?|[-> ?]]; [left; lia|left; lia|left; lia|right]. eauto.
Qed.

Lemma lex_total a : forall b, lex_le a b \/ lex_le b a.
Proof.
  induction a as [|x a IH]; intros [|y b]; simpl; auto.
  destruct (Z.lt_trichotomy x y) as [|[->|]]; [auto| |auto]. destruct (IH b); auto.
Qed.

(** The comparison of string contents is the lexicographic order: zero exactly
    for equal contents, antisymmetric, transitive and total. *)
Theorem string_compare_order a b c :
  (compare_bytes a b = 0 <-> a = b) /\ (compare_bytes a b <= 0 <-> lex_le a b) /\
  Z.sgn (compare_bytes b a) = - Z.sgn (compare_bytes a b) /\
  (lex_le a b -> lex_le b c -> lex_le a c) /\ (lex_le a b \/ lex_le b a).
Proof.
  split_and!; try apply compare_lex; [apply compare_opp|apply lex_trans|apply lex_total].
Qed.

(** The euro sign between two letters. *)
Lemma utf8_roundtrip_witness :
  iterate_utf8 ([97] ++ [0xe2; 0x82; 0xac] ++ [98]) (zlen [97]) = (PH_OK, 0x20ac, 4).
Proof.
  apply (utf8_roundtrip 0x20ac [0xe2; 0x82; 0xac] [97] [98]);
    [split; [lia|lia]|reflexivity|reflexivity].
Defined.

Lemma euro_bytes : Forall is_byte [97; 0xe2; 0x82; 0xac].
Proof. unfold is_byte. repeat constructor; lia. Qed.

Lemma utf8_decode_sound_witness :
  scalar 0x20ac /\ 1 < 4 <= 4 /\ utf8_encode 0x20ac = Some [0xe2; 0x82; 0xac].
Proof.
  exact (utf8_decode_sound [97; 0xe2; 0x82; 0xac] 1 0x20ac 4 euro_bytes
    ltac:(lia) ltac:(reflexivity) ltac:(reflexivity)).
Defined.

Lemma utf8_valid_iff_witness :
  exists b, valid_loop [97; 0xe2; 0x82; 0xac] 5 0 = Some b /\ (b = true <-> utf8 [97; 0xe2; 0x82; 0xac]).
Proof. exact (utf8_valid_iff [97; 0xe2; 0x82; 0xac] euro_bytes ltac:(reflexivity)). Defined.

End PhStringUtf8.
