(* ===== verification/PhStringProofs.v ===== *)
(** * Strings: appending, releasing, slicing, and strings as hash table keys *)

From Stdlib Require Import ZArith Lia.
From stdpp Require Import base numbers list gmap strings.
From S2P Require Import Prelude SysUtil Counter CounterProofs Memory MemoryProofs.
From S2P Require Import PhString PhStringUtf8.

Module PhStringProofs.
Import CounterProofs MemoryProofs.
Export PhString PhStringUtf8.

Section proofs.
Context `{HSname : ck_hs string} `{HSid : ck_hs Z}.
Context (junk : positive -> nat -> Z) (self : nat).
Implicit Types w : world.

(** ** The bytes of a string *)

(** [l] is the object the buffer points into, at index [i], with room for
    [alloc] bytes. *)
Definition room w (s : ph_string) (p : bptr) (l : list Z) (i : Z) : Prop :=
  buf s = Some p /\ locate w p = Some (l, i) /\ 0 <= i /\ i + alloc s <= zlen l.

Definition str_contents (s : ph_string) (l : list Z) (i : Z) : list Z :=
  slice (Z.to_nat i) (Z.to_nat (len s)) l.

(** A string in use: its buffer has [alloc] bytes, and a string with a
    positive memtype owns a heap block of exactly that size. *)
Record str_wf w (s : ph_string) (p : bptr) (l : list Z) (i : Z) : Prop := {
  sw_len : 0 <= len s <= alloc s;
  sw_alloc : alloc s < 2 ^ 31;
  sw_room : room w s p l i;
  sw_own : 0 < mt s -> exists b blk, p = BHeap b HEADER_RESERVATION /\
    heap (smem w) !! b = Some blk /\ owner blk = mt s /\ zlen (data blk) = alloc s /\
    hdr blk <> None;
}.

Lemma load_str_eq w p s : strs w !! p = Some s -> load_str p w = Ret (s, w).
Proof. unfold load_str. by intros ->. Qed.

Lemma liftm_eq {A} (f : M mem A) w a m :
  f (smem w) = Ret (a, m) -> liftm f w = Ret (a, set_smem m w).
Proof. unfold liftm. by intros ->. Qed.

Lemma locate_add w p n l i : locate w p = Some (l, i) -> locate w (bptr_add p n) = Some (l, i + n).
Proof.
  destruct p as [b off|id off]; simpl.
  - destruct (heap (smem w) !! b) as [blk|]; [|done]. intros [= <- <-]. do 2 f_equal. lia.
  - destruct (statics w !! id); [|done]. by intros [= <- <-].
Qed.

Lemma locate_update w p l i l' :
  locate w p = Some (l, i) -> locate (update p l' w) p = Some (l', i).
Proof.
  destruct p as [b off|id off]; simpl.
  - destruct (heap (smem w) !! b) as [blk|] eqn:E; [|done]. intros [= <- <-].
    rewrite lookup_alter_eq, E. simpl. done.
  - rewrite lookup_insert_eq. destruct (statics w !! id); [|done]. by intros [= <- <-].
Qed.

(** Rewriting bytes of a block does not change what the allocator accounts. *)
Lemma mem_wf_data m b blk l :
  mem_wf self m -> heap m !! b = Some blk -> length l = length (data blk) ->
  mem_wf self (set_heap (alter (fun blk => HBlock (owner blk) (hdr blk) l) b (heap m)) m).
Proof.
  intros Hwf Hb Hl. pose proof (mw_heap _ _ Hwf _ _ Hb) as [Hlt (t & Ht & Hs)].
  assert (alter (fun blk => HBlock (owner blk) (hdr blk) l) b (heap m) =
          <[b := HBlock (owner blk) (hdr blk) l]> (delete b (heap m))) as Hal.
  { rewrite insert_delete_eq. apply map_eq. intros b'. destruct (decide (b = b')) as [<-|Hne].
    - rewrite lookup_alter_eq, Hb, lookup_insert_eq. done.
    - by rewrite lookup_alter_ne, lookup_insert_ne. }
  assert (forall f, f (HBlock (owner blk) (hdr blk) l) = f blk ->
    heap_sum f (alter (fun blk => HBlock (owner blk) (hdr blk) l) b (heap m)) = heap_sum f (heap m)) as Hsum.
  { intros f Hf. rewrite Hal, heap_sum_insert, (heap_sum_delete _ _ _ _ Hb) by apply lookup_delete_eq. lia. }
  destruct Hwf. split; try done.
  - intros b' blk' Hb'. simpl in Hb'. rewrite Hal in Hb'.
    apply lookup_insert_Some in Hb' as [[<- <-]|[_ Hb']].
    + split; [done|]. exists t. split; [done|]. unfold block_shape in *. simpl. by rewrite Hl.
    + apply lookup_delete_Some in Hb' as [_ Hb']. by apply mw_heap0.
  - intros i t' sc s Ht' Hsa. unfold live_bytes, live_count. simpl.
    rewrite !Hsum; [by apply (mw_acct0 i t' sc s)| |]; unfold bytes_of, count_of; simpl; by rewrite ?Hl.
Qed.

Lemma update_mem_wf w p l i l' :
  mem_wf self (smem w) -> locate w p = Some (l, i) -> length l' = length l ->
  mem_wf self (smem (update p l' w)).
Proof.
  destruct p as [b off|id off]; simpl; [|done].
  destruct (heap (smem w) !! b) as [blk|] eqn:E; [|done]. intros Hwf [= <- <-] Hl.
  by eapply mem_wf_data.
Qed.

Lemma write_bytes_eq w p l i bs :
  locate w p = Some (l, i) -> 0 <= i -> i + zlen bs <= zlen l ->
  exists w', write_bytes (Some p) bs w = Ret (tt, w') /\
    locate w' p = Some (splice (Z.to_nat i) bs l, i) /\ strs w' = strs w /\
    (mem_wf self (smem w) -> mem_wf self (smem w')) /\ ctr (smem w') = ctr (smem w) /\
    (w' = w \/ w' = update p (splice (Z.to_nat i) bs l) w).
Proof.
  intros Hl Hi Hr. unfold write_bytes. destruct (zlen bs =? 0) eqn:E; zbool.
  - exists w. assert (bs = []) as -> by (destruct bs; [done|simpl in E; lia]).
    assert (splice (Z.to_nat i) [] l = l) as ->.
    { unfold splice. cbn [length app]. by rewrite Nat.add_0_r, take_drop. }
    split_and!; auto.
  - rewrite Hl. rewrite (proj2 (Z.ltb_ge _ _)), (proj2 (Z.ltb_ge _ _)) by lia. cbn [orb].
    eexists. split; [reflexivity|]. split_and!.
    + by eapply locate_update.
    + by destruct p.
    + intros Hwf. eapply update_mem_wf; [done|done|]. apply length_splice. lia.
    + by destruct p.
    + by right.
Qed.

Lemma read_bytes_eq w p l i n :
  locate w p = Some (l, i) -> 0 <= i -> 0 <= n -> i + n <= zlen l ->
  read_bytes (Some p) n w = Ret (slice (Z.to_nat i) (Z.to_nat n) l, w).
Proof.
  intros Hl Hi Hn Hr. unfold read_bytes. destruct (n =? 0) eqn:E; zbool.
  - subst n. done.
  - rewrite Hl, (proj2 (Z.ltb_ge _ _)), (proj2 (Z.ltb_ge _ _)) by lia. done.
Qed.

(** ** Appending within the buffer *)

Lemma append_copy_eq w str s p l i bs n :
  strs w !! str = Some s -> room w s p l i -> 0 <= len s -> 0 <= n <= zlen bs ->
  len s + n <= alloc s -> alloc s < 2 ^ 31 ->
  exists w' l', append_copy str (Bytes bs) n w = Ret (PH_OK, w') /\
    strs w' = <[str := with_buf (mt s) (len s + n) (alloc s) (buf s) s]> (strs w) /\
    room w' (with_buf (mt s) (len s + n) (alloc s) (buf s) s) p l' i /\
    str_contents (with_buf (mt s) (len s + n) (alloc s) (buf s) s) l' i =
      str_contents s l i ++ take (Z.to_nat n) bs /\ length l' = length l /\
    (mem_wf self (smem w) -> mem_wf self (smem w')) /\
    (forall b, locate w (BHeap b 0) <> locate w' (BHeap b 0) -> exists off, p = BHeap b off) /\
    (forall b blk, heap (smem w) !! b = Some blk -> exists d, length d = length (data blk) /\
       heap (smem w') !! b = Some (HBlock (owner blk) (hdr blk) d)).
Proof.
  intros Hs (Hb & Hl & Hi & Hr) Hlen Hn Hfit Ha.
  assert (zlen (take (Z.to_nat n) bs) = n) as Htk by (rewrite length_take; lia).
  destruct (write_bytes_eq w (bptr_add p (len s)) l (i + len s) (take (Z.to_nat n) bs))
    as (w1 & Hw & Hl1 & Hs1 & Hwf1 & _ & Hcase).
  { by apply locate_add. } { lia. } { lia. }
  set (l' := splice (Z.to_nat (i + len s)) (take (Z.to_nat n) bs) l) in *.
  assert (length l' = length l) as Hll by (apply length_splice; lia).
  exists (set_strs <[str := with_buf (mt s) (len s + n) (alloc s) (buf s) s]> w1), l'.
  unfold append_copy. step_with (load_str_eq w str s Hs). step. rewrite Hb. cbn [option_map].
  step_with Hw. rewrite (wrapU_small 32) by lia. split_and!.
  - reflexivity.
  - simpl. by rewrite Hs1.
  - split; [done|]. split; [|simpl; lia].
    apply (locate_add _ _ (- len s)) in Hl1.
    assert (bptr_add (bptr_add p (len s)) (- len s) = p) as Hp.
    { destruct p; simpl; f_equal; lia. }
    rewrite Hp in Hl1. change (locate w1 p = Some (l', i)). rewrite Hl1. do 2 f_equal. lia.
  - unfold str_contents, l'. simpl.
    replace (Z.to_nat (len s + n)) with (Z.to_nat (len s) + length (take (Z.to_nat n) bs))%nat by lia.
    replace (Z.to_nat (i + len s)) with (Z.to_nat i + Z.to_nat (len s))%nat by lia.
    apply slice_splice_extend. lia.
  - done.
  - exact Hwf1.
  - intros b Hne. destruct Hcase as [-> | ->]; [done|].
    destruct p as [b' off|id off]; simpl in Hne; [|done]. exists off. f_equal.
    destruct (decide (b' = b)) as [->|Hb']; [done|]. by rewrite lookup_alter_ne in Hne.
  - intros b blk Hblk. destruct Hcase as [-> | ->].
    + exists (data blk). split; [done|]. by destruct blk.
    + destruct p as [b' off|id off]; simpl; [|exists (data blk); split; [done|by destruct blk]].
      destruct (decide (b' = b)) as [->|Hb'].
      * exists l'. rewrite lookup_alter_eq, Hblk. split; [|done].
        simpl in Hl. rewrite Hblk in Hl. injection Hl as <- _. done.
      * exists (data blk). rewrite lookup_alter_ne by done. split; [done|]. by destruct blk.
Qed.

(** An append that fits, as a string in use. *)
Lemma append_copy_wf w str s p l i bs n :
  mem_wf self (smem w) -> strs w !! str = Some s -> str_wf w s p l i ->
  0 <= n <= zlen bs -> len s + n <= alloc s ->
  exists w' s' l', append_copy str (Bytes bs) n w = Ret (PH_OK, w') /\
    strs w' = <[str := s']> (strs w) /\ str_wf w' s' p l' i /\ mem_wf self (smem w') /\
    mt s' = mt s /\ str_contents s' l' i = str_contents s l i ++ take (Z.to_nat n) bs.
Proof.
  intros Hm Hs Hw Hn Hfit. pose proof (sw_len _ _ _ _ _ Hw). pose proof (sw_alloc _ _ _ _ _ Hw).
  destruct (append_copy_eq w str s p l i bs n Hs (sw_room _ _ _ _ _ Hw))
    as (w' & l' & Happ & Hstr & Hroom & Hcont & Hlen & Hmw & _ & Hblk); [lia..|].
  eexists w', _, l'. split; [exact Happ|]. split; [exact Hstr|]. split_and!; [|by apply Hmw|done|exact Hcont].
  split; [simpl; lia|simpl; lia|exact Hroom|]. intros Hmt.
  destruct (sw_own _ _ _ _ _ Hw Hmt) as (b & blk & -> & Hb & Ho & Hd & Hh).
  destruct (Hblk b blk Hb) as (d & Hdl & Hb'). exists b. eexists. split; [done|]. split; [exact Hb'|].
  simpl. by rewrite Hdl.
Qed.

Lemma source_len_eq bs : zlen bs < 2 ^ 31 -> source_len (Bytes bs) = zlen bs.
Proof. intros. simpl. apply wrapU_small. lia. Qed.

(** A string that has just been given a bigger heap buffer with its old
    contents in front. *)
Lemma append_grown w str s b blk bs nsize l i :
  mem_wf self (smem w) -> strs w !! str = Some s -> mt s <> 0 ->
  0 <= len s -> len s + zlen bs <= nsize -> nsize < 2 ^ 31 + 1 -> nsize <= 2 ^ 31 - 1 ->
  heap (smem w) !! b = Some blk -> owner blk = Z.abs (mt s) -> zlen (data blk) = nsize ->
  hdr blk <> None -> take (Z.to_nat (len s)) (data blk) = str_contents s l i ->
  exists w' s' l', (store_str str (with_buf (Z.abs (mt s)) (len s) nsize (Some (BHeap b HEADER_RESERVATION)) s) ;;;
      append_copy str (Bytes bs) (zlen bs)) w = Ret (PH_OK, w') /\
    strs w' = <[str := s']> (strs w) /\ str_wf w' s' (BHeap b HEADER_RESERVATION) l' 0 /\
    mem_wf self (smem w') /\ mt s' = Z.abs (mt s) /\ str_contents s' l' 0 = str_contents s l i ++ bs.
Proof.
  intros Hm Hs Hmt Hlen Hfit _ Hns Hb Ho Hd Hh Hc. step.
  set (s1 := with_buf (Z.abs (mt s)) (len s) nsize (Some (BHeap b HEADER_RESERVATION)) s).
  set (w1 := set_strs <[str := s1]> w).
  assert (locate w1 (BHeap b HEADER_RESERVATION) = Some (data blk, 0)) as Hloc.
  { simpl. rewrite Hb. unfold base. by destruct (hdr blk). }
  assert (str_wf w1 s1 (BHeap b HEADER_RESERVATION) (data blk) 0) as Hw1.
  { split; [simpl; lia|simpl; lia|split; [done|]; split; [exact Hloc|simpl; lia]|].
    intros _. exists b, blk. done. }
  destruct (append_copy_wf w1 str s1 _ _ _ bs (zlen bs) Hm (lookup_insert_eq _ _ _) Hw1)
    as (w' & s' & l' & Happ & Hstr & Hw' & Hm' & Hmt' & Hcont); [lia|simpl; lia|].
  exists w', s', l'. split; [exact Happ|]. split_and!; [|done|done|done|].
  - rewrite Hstr. simpl. by rewrite insert_insert_eq.
  - rewrite Hcont. rewrite Nat2Z.id, firstn_all. f_equal. unfold str_contents at 1. simpl. exact Hc.
Qed.

(** What the memtype of a growable string must be. *)
Definition grow_type w (s : ph_string) : Prop :=
  exists t, type_at (smem w) (Z.abs (mt s)) t /\ item_size (def t) = 0 /\
    live_bytes (smem w) (Z.abs (mt s)) <= INT64_MAX.

(** The state in which the bigger buffer [b] is in place, before the string is
    pointed at it. *)
Definition grown w w2 (s : ph_string) (nsize : Z) (cs : list Z) (b : positive) : Prop :=
  mem_wf self (smem w2) /\ strs w2 = strs w /\
  exists blk, heap (smem w2) !! b = Some blk /\ owner blk = Z.abs (mt s) /\ hdr blk <> None /\
    zlen (data blk) = nsize /\ take (Z.to_nat (len s)) (data blk) = cs.

Lemma write_block_eq w b blk bs :
  mem_wf self (smem w) -> heap (smem w) !! b = Some blk -> hdr blk <> None ->
  zlen bs <= zlen (data blk) ->
  exists w2, write_bytes (Some (BHeap b HEADER_RESERVATION)) bs w = Ret (tt, w2) /\
    mem_wf self (smem w2) /\ strs w2 = strs w /\
    heap (smem w2) !! b = Some (HBlock (owner blk) (hdr blk) (splice 0 bs (data blk))).
Proof.
  intros Hm Hb Hh Hl. assert (locate w (BHeap b HEADER_RESERVATION) = Some (data blk, 0)) as Hloc.
  { unfold locate. rewrite Hb. unfold base. by destruct (hdr blk). }
  destruct (write_bytes_eq w _ _ _ bs Hloc) as (w2 & Hwr & Hloc2 & Hstr & Hm2 & _ & Hcase); [lia|lia|].
  exists w2. split_and!; [done|by apply Hm2|done|].
  destruct Hcase as [-> | ->].
  - rewrite Hb. rewrite Hloc in Hloc2. injection Hloc2 as Hd. change (Z.to_nat 0) with 0%nat in Hd. rewrite <- Hd. by destruct blk.
  - simpl. by rewrite lookup_alter_eq, Hb.
Qed.

(** Promotion of an unmanaged growable buffer. *)
Lemma grow_promote w s p l i nsize :
  mem_wf self (smem w) -> plenty (ctr (smem w)) -> str_wf w s p l i -> mt s < 0 ->
  grow_type w s -> alloc s < nsize < 2 ^ 31 ->
  exists b w1 w2,
    liftm (ph_mem_alloc_size junk self (- mt s) nsize) w = Ret (Some (b, HEADER_RESERVATION), w1) /\
    (old <-- read_bytes (buf s) (len s) ;;
     write_bytes (Some (BHeap b HEADER_RESERVATION)) old) w1 = Ret (tt, w2) /\
    grown w w2 s nsize (str_contents s l i) b.
Proof.
  intros Hm Hpl Hw Hneg (t & Ht & Hit & _) Hns. pose proof (sw_len _ _ _ _ _ Hw) as Hlen.
  pose proof (sw_room _ _ _ _ _ Hw) as (Hbuf & Hloc & Hi & Hr).
  replace (- mt s) with (Z.abs (mt s)) by lia.
  destruct (alloc_size_ok junk self (smem w) (Z.abs (mt s)) t nsize Hm Hpl Ht Hit)
    as (b & m' & Hal' & Hm' & Hnew & Hheap & _); [lia|].
  set (blk := HBlock _ _ _) in Hheap. set (w1 := set_smem m' w).
  assert (heap (smem w1) !! b = Some blk) as Hb1 by (simpl; rewrite Hheap; apply lookup_insert_eq).
  assert (locate w1 p = Some (l, i)) as Hloc1.
  { destruct p as [b0 off|id off]; simpl in *; [|done]. rewrite Hheap.
    destruct (decide (b0 = b)) as [->|Hne]; [by rewrite Hnew in Hloc|]. by rewrite lookup_insert_ne. }
  assert (zlen (data blk) = nsize) as Hbl by (simpl; rewrite fresh_bytes_length; lia).
  assert (zlen (str_contents s l i) = len s) as Hsl by (unfold str_contents; rewrite length_slice; lia).
  destruct (write_block_eq w1 b blk (str_contents s l i)) as (w2 & Hwr & Hm2 & Hstr2 & Hb2);
    [done|done|done|lia|].
  exists b, w1, w2. split; [by apply liftm_eq|]. split.
  { rewrite Hbuf. step_with (read_bytes_eq w1 p l i (len s) Hloc1 Hi ltac:(lia) ltac:(lia)). exact Hwr. }
  split; [done|]. split; [done|]. eexists. split; [exact Hb2|]. cbn [owner hdr data].
  split_and!; [done|done| |].
  - rewrite length_splice; lia.
  - unfold splice. rewrite take_0. cbn [app]. rewrite take_app_le by lia. by rewrite take_ge by lia.
Qed.

(** Reallocation of a heap buffer. *)
Lemma grow_realloc w s p l i nsize :
  mem_wf self (smem w) -> plenty (ctr (smem w)) -> str_wf w s p l i -> 0 < mt s ->
  grow_type w s -> alloc s < nsize < 2 ^ 31 ->
  exists b w1, (q <-- ptr_of (buf s) ;; liftm (ph_mem_realloc junk self (mt s) q nsize)) w =
      Ret (Some (b, HEADER_RESERVATION), w1) /\ grown w w1 s nsize (str_contents s l i) b.
Proof.
  intros Hm Hpl Hw Hpos (t & Ht & Hit & Hlive) Hns. pose proof (sw_len _ _ _ _ _ Hw) as Hlen.
  pose proof (sw_room _ _ _ _ _ Hw) as (Hbuf & Hloc & Hi & Hr).
  rewrite Z.abs_eq in Ht, Hlive by lia.
  destruct (sw_own _ _ _ _ _ Hw Hpos) as (b0 & blk & -> & Hb & Ho & Hd & Hh).
  destruct (realloc_ok junk self (smem w) (mt s) t b0 blk nsize Hm Hpl Ht Hit Hb Ho Hlive)
    as (b & m' & bytes & Hre & Hm' & Hheap & Hbl & Hbytes & _); [lia|lia|].
  unfold user_ptr in Hre. rewrite Hit in Hre. cbn [Z.eqb] in Hre.
  exists b, (set_smem m' w). rewrite Hbuf. split; [cbn [ptr_of]; step; by apply liftm_eq|].
  split; [done|]. split; [done|]. eexists. split; [simpl; rewrite Hheap; apply lookup_insert_eq|].
  cbn [owner hdr data]. split_and!; [lia|done|done|].
  simpl in Hloc. rewrite Hb in Hloc. injection Hloc as <- <-. unfold base.
  destruct (hdr blk); [|done]. unfold str_contents, slice. rewrite Z.sub_diag, drop_0.
  apply list_eq. intros j. destruct (decide (j < Z.to_nat (len s))%nat).
  - rewrite !lookup_take_lt by done. apply Hbytes; lia.
  - rewrite !lookup_take_ge by lia. done.
Qed.

(** Appending to a string puts the bytes behind its contents, growing or
    promoting the buffer when needed; a string that cannot grow takes what fits. *)
Theorem string_append_spec w str s p l i bs :
  mem_wf self (smem w) -> plenty (ctr (smem w)) -> strs w !! str = Some s -> str_wf w s p l i ->
  len s + zlen bs < 2 ^ 30 -> (mt s <> 0 -> grow_type w s) ->
  exists w' s' p' l' i', ph_string_append_buf junk self str (Bytes bs) w = Ret (PH_OK, w') /\
    strs w' = <[str := s']> (strs w) /\ str_wf w' s' p' l' i' /\ mem_wf self (smem w') /\
    mt s' = (if alloc s <? len s + zlen bs then Z.abs (mt s) else mt s) /\
    str_contents s' l' i' = str_contents s l i ++
      (if mt s =? PH_STRING_STATIC then take (Z.to_nat (alloc s - len s)) bs else bs).
Proof.
  intros Hm Hpl Hs Hw Hsz Hty. pose proof (sw_len _ _ _ _ _ Hw) as Hlen.
  pose proof (sw_alloc _ _ _ _ _ Hw) as Hal.
  unfold ph_string_append_buf. step_with (load_str_eq w str s Hs).
  rewrite source_len_eq, (Z.add_comm (zlen bs)), (wrapU_small 32) by lia.
  destruct (alloc s <? len s + zlen bs) eqn:Efit; zbool.
  2:{ destruct (append_copy_wf w str s p l i bs (zlen bs) Hm Hs Hw)
        as (w' & s' & l' & Happ & Hstr & Hw' & Hm' & Hmt' & Hcont); [lia|lia|].
      exists w', s', p, l', i. split_and!; [done..|]. rewrite Hcont, Nat2Z.id, firstn_all.
      case_bool; [|done]. by rewrite (take_ge bs) by lia. }
  destruct (mt s =? PH_STRING_STATIC) eqn:Est; zbool; unfold PH_STRING_STATIC, PH_MEMTYPE_INVALID in Est.
  { rewrite (wrapU_small 32) by lia.
    destruct (append_copy_wf w str s p l i bs (alloc s - len s) Hm Hs Hw)
      as (w' & s' & l' & Happ & Hstr & Hw' & Hm' & Hmt' & Hcont); [lia|lia|].
    exists w', s', p, l', i. split_and!; try done. by rewrite Hmt', Est. }
  destruct (ph_power_2_above (len s + zlen bs)) as [Hab _]; [lia|].
  set (nsize := ph_power_2 (len s + zlen bs)) in *.
  assert (exists b w1 w2, (if mt s <? 0 then liftm (ph_mem_alloc_size junk self (- mt s) nsize)
        else q <-- ptr_of (buf s) ;; liftm (ph_mem_realloc junk self (mt s) q nsize)) w =
      Ret (Some (b, HEADER_RESERVATION), w1) /\
    (if mt s <? 0 then old <-- read_bytes (buf s) (len s) ;;
       write_bytes (bptr_of (Some (b, HEADER_RESERVATION))) old else ret tt) w1 = Ret (tt, w2) /\
    grown w w2 s nsize (str_contents s l i) b) as (b & w1 & w2 & H1 & H2 & Hm2 & Hstr2 & blk & Hb & Ho & Hh & Hd & Hc).
  { destruct (mt s <? 0) eqn:Eneg; zbool.
    - apply (grow_promote w s p l i nsize); auto. lia.
    - destruct (grow_realloc w s p l i nsize) as (b & w1 & Hre & Hg); auto; [lia|lia|].
      exists b, w1, w1. done. }
  step_with H1. step_with H2. rewrite <- Hstr2 in Hs.
  destruct (append_grown w2 str s b blk bs nsize l i)
    as (w' & s' & l' & Happ & Hstr & Hw' & Hm' & Hmt' & Hcont); try done; try lia.
  exists w', s', (BHeap b HEADER_RESERVATION), l', 0. rewrite Hstr2 in Hstr.
  split_and!; try done.
Qed.

(** ** Comparing two string objects *)

Lemma take_contents s l i n :
  0 <= n <= len s -> 0 <= i -> i + len s <= zlen l ->
  take (Z.to_nat n) (str_contents s l i) = slice (Z.to_nat i) (Z.to_nat n) l.
Proof. intros Hn Hi Hl. unfold str_contents, slice. rewrite take_take. f_equal. lia. Qed.

(** Comparison and equality of two strings depend on their contents only and
    access nothing outside them. *)
Theorem string_compare_contents w a b sa sb pa pb la lb ia ib :
  a <> b -> strs w !! a = Some sa -> strs w !! b = Some sb ->
  str_wf w sa pa la ia -> str_wf w sb pb lb ib ->
  let ca := str_contents sa la ia in let cb := str_contents sb lb ib in
  ph_string_compare a b w = Ret (compare_bytes ca cb, w) /\
  ph_string_equal a b w = Ret (bool_decide (ca = cb), w).
Proof.
  intros Hab Ha Hb Hwa Hwb ca cb.
  pose proof (sw_len _ _ _ _ _ Hwa). pose proof (sw_len _ _ _ _ _ Hwb).
  pose proof (sw_room _ _ _ _ _ Hwa) as (Hba & Hla & Hia & Hra).
  pose proof (sw_room _ _ _ _ _ Hwb) as (Hbb & Hlb & Hib & Hrb).
  assert (zlen ca = len sa) as Hca by (unfold ca, str_contents; rewrite length_slice; lia).
  assert (zlen cb = len sb) as Hcb by (unfold cb, str_contents; rewrite length_slice; lia).
  pose proof (MIN_min (len sa) (len sb)) as Hmin.
  split.
  - unfold ph_string_compare. rewrite decide_False by done.
    step_with (load_str_eq w a sa Ha). step_with (load_str_eq w b sb Hb). rewrite Hba, Hbb.
    step_with (read_bytes_eq w pa la ia (MIN (len sa) (len sb)) Hla Hia ltac:(lia) ltac:(lia)).
    step_with (read_bytes_eq w pb lb ib (MIN (len sa) (len sb)) Hlb Hib ltac:(lia) ltac:(lia)).
    unfold ret. do 2 f_equal. unfold compare_bytes. rewrite Hca, Hcb.
    unfold ca, cb. by rewrite !take_contents by lia.
  - unfold ph_string_equal. rewrite decide_False by done.
    step_with (load_str_eq w a sa Ha). step_with (load_str_eq w b sb Hb).
    destruct (len sa =? len sb) eqn:E; zbool; cbn [negb].
    + rewrite Hba, Hbb.
      step_with (read_bytes_eq w pa la ia (len sa) Hla Hia ltac:(lia) ltac:(lia)).
      step_with (read_bytes_eq w pb lb ib (len sa) Hlb Hib ltac:(lia) ltac:(lia)).
      unfold ret. do 2 f_equal. change (slice (Z.to_nat ia) (Z.to_nat (len sa)) la) with ca.
      rewrite E. change (slice (Z.to_nat ib) (Z.to_nat (len sb)) lb) with cb.
      pose proof (proj2 (compare_lex ca cb)) as Hz. unfold compare_bytes in Hz.
      rewrite Hca, Hcb, E in Hz. rewrite MIN_min, Z.min_id in Hz.
      rewrite !take_ge in Hz by lia. rewrite Z.eqb_refl, orb_true_r in Hz.
      apply eq_true_iff_eq. rewrite Z.eqb_eq, bool_decide_eq_true. exact Hz.
    + unfold ret. do 2 f_equal. symmetry. apply bool_decide_eq_false. intros Heq. congruence.
Qed.

(** ** Releasing a string *)

(** Dropping a reference to a heap string only counts down until the last one,
    which releases the buffer and the object and nothing else. *)
Theorem string_delref_spec w str s b blk h hblk t ts :
  mem_wf self (smem w) -> plenty (ctr (smem w)) -> strs w !! str = Some s ->
  1 <= ref s < 2 ^ 31 -> 0 < mt s -> slice_of s = None -> onstack s = false ->
  buf s = Some (BHeap b HEADER_RESERVATION) -> heap (smem w) !! b = Some blk -> owner blk = mt s ->
  home s = Some h -> heap (smem w) !! h = Some hblk -> owner hblk = mt_string w -> h <> b ->
  type_at (smem w) (mt s) t -> item_size (def t) = 0 ->
  type_at (smem w) (mt_string w) ts -> item_size (def ts) <> 0 ->
  (forall i, live_bytes (smem w) i <= INT64_MAX) ->
  exists w', ph_string_delref self str w = Ret (tt, w') /\ mem_wf self (smem w') /\
    if ref s =? 1
    then strs w' = delete str (strs w) /\ heap (smem w') = delete h (delete b (heap (smem w)))
    else smem w' = smem w /\ strs w' !! str = Some (Str (ref s - 1) (mt s) (len s) (alloc s) (buf s)
           (slice_of s) (onstack s) (home s)).
Proof.
  intros Hm Hpl Hs Href Hmt Hsl Hon Hbuf Hb Ho Hhome Hh Hho Hne Ht Hit Hts Hits Hlive.
  unfold ph_string_delref. cbn [delref_loop]. step_with (load_str_eq w str s Hs).
  unfold ph_refcnt_del. assert (s32 (ref s - 1) = ref s - 1) as -> by (apply wrapS_small; lia).
  step. destruct (ref s =? 1) eqn:E; cbn [negb].
  2:{ eexists. split; [reflexivity|]. split; [exact Hm|]. split; [done|]. simpl.
      by rewrite lookup_insert_eq. }
  rewrite (proj2 (Z.ltb_lt _ _)) by done. rewrite Hbuf, Hsl, Hon, Hhome. cbn [ptr_of negb].
  destruct (free_ok self (smem w) (mt s) t b blk Hm Hpl Ht Hb Ho (Hlive _))
    as (m1 & Hf1 & Hm1 & Hh1 & Hl1 & _ & Hpl1 & Ht1).
  unfold user_ptr in Hf1. rewrite Hit in Hf1. cbn [Z.eqb] in Hf1.
  assert (heap m1 !! h = Some hblk) as Hh1'.
  { rewrite Hh1. rewrite lookup_delete_ne; [exact Hh|by apply not_eq_sym]. }
  assert (live_bytes m1 (mt_string w) <= INT64_MAX) as Hlive1.
  { unfold live_bytes. rewrite Hh1, (heap_sum_delete _ _ _ _ Hb).
    specialize (Hlive (mt_string w)). unfold live_bytes in Hlive. unfold bytes_of at 2.
    case_bool; lia. }
  destruct (free_ok self m1 (mt_string w) ts h hblk Hm1 Hpl1 (Ht1 _ _ Hts) Hh1' Hho Hlive1)
    as (m2 & Hf2 & Hm2 & Hh2 & _).
  unfold user_ptr in Hf2. rewrite (proj2 (Z.eqb_neq _ _)) in Hf2 by done.
  set (w1 := set_strs _ w).
  assert (liftm (ph_mem_free self (mt s) (Some (b, HEADER_RESERVATION))) w1 = Ret (tt, set_smem m1 w1)) as E1.
  { by apply liftm_eq. }
  erewrite (bind_ret (bind (ret (Some (b, HEADER_RESERVATION))) _) _ w1) by (step; exact E1).
  cbv beta iota. step. step. step. step.
  set (w2 := set_strs _ (set_smem m1 w1)).
  assert (liftm (ph_mem_free self (mt_string w) (Some (h, 0))) w2 = Ret (tt, set_smem m2 w2)) as E2.
  { by apply liftm_eq. }
  change (mt_string w2) with (mt_string w). step_with E2.
  eexists. split; [reflexivity|]. split; [exact Hm2|]. split.
  - simpl. rewrite !delete_insert_eq. done.
  - simpl. by rewrite Hh2, Hh1.
Qed.

End proofs.

(** ** A concrete string: "\001\002" in a three-byte heap buffer *)

Definition demo_str : ph_string := Str 1 2 2 3 (Some (BHeap 1 HEADER_RESERVATION)) None false (Some 2%positive).
Definition demo_stack : ph_string := Str 1 0 1 2 (Some (BStatic 1 0)) None true None.
Definition demo_world : world :=
  World demo_mem3 (<[2%positive := demo_stack]> {[1%positive := demo_str]}) 3 {[1%positive := [1; 5]]} 3.

Lemma demo_str_wf : str_wf demo_world demo_str (BHeap 1 HEADER_RESERVATION) [1; 2; 3] 0.
Proof.
  split; [simpl; lia|simpl; lia|split_and!; [done|reflexivity|done|done]|].
  intros _. exists 1%positive, demo_blk. split_and!; done.
Qed.

Lemma demo_stack_wf : str_wf demo_world demo_stack (BStatic 1 0) [1; 5] 0.
Proof.
  split; [simpl; lia|simpl; lia|split_and!; [done|reflexivity|done|done]|]. simpl. lia.
Qed.

Lemma demo_type3 i t : type_at demo_mem i t -> type_at (smem demo_world) i t.
Proof. done. Qed.

Lemma string_append_spec_witness :
  exists w' s' p' l' i', ph_string_append_buf demo_junk 0 1 (Bytes [7; 8]) demo_world = Ret (PH_OK, w') /\
    str_wf w' s' p' l' i' /\ mem_wf 0 (smem w') /\ str_contents s' l' i' = [1; 2; 7; 8].
Proof.
  destruct (string_append_spec demo_junk 0 demo_world 1 demo_str _ _ _ [7; 8] demo_mem3_wf
    ltac:(constructor) eq_refl demo_str_wf) as (w' & s' & p' & l' & i' & H & _ & Hw & Hm & _ & Hc).
  - reflexivity.
  - intros _. exists demo_vtype. split; [apply demo_type3; split; [done|reflexivity]|].
    split; [reflexivity|vm_compute; discriminate].
  - exists w', s', p', l', i'. split; [exact H|]. split; [exact Hw|]. split; [exact Hm|exact Hc].
Defined.

Lemma string_compare_contents_witness :
  ph_string_compare 1 2 demo_world = Ret (compare_bytes [1; 2] [1], demo_world) /\
  ph_string_equal 1 2 demo_world = Ret (false, demo_world).
Proof.
  exact (string_compare_contents demo_world 1 2 demo_str demo_stack _ _ _ _ _ _ ltac:(discriminate)
    eq_refl eq_refl demo_str_wf demo_stack_wf).
Defined.

Lemma demo_live i : live_bytes (smem demo_world) i <= INT64_MAX.
Proof.
  unfold live_bytes. change (heap (smem demo_world))
    with (<[2%positive := demo_blk2]> (<[1%positive := demo_blk]> (∅ : gmap positive hblock))).
  rewrite !heap_sum_insert by reflexivity. unfold bytes_of. change (heap_sum _ ∅) with 0.
  repeat case_bool; simpl; lia.
Qed.

Lemma string_delref_spec_witness :
  exists w', ph_string_delref 0 1 demo_world = Ret (tt, w') /\ mem_wf 0 (smem w') /\
    heap (smem w') = ∅.
Proof.
  destruct (string_delref_spec 0 demo_world 1 demo_str 1 demo_blk 2 demo_blk2 demo_vtype demo_ftype)
    as (w' & H & Hm & _ & Hh).
  - exact demo_mem3_wf.
  - constructor.
  - reflexivity.
  - simpl. lia.
  - reflexivity.
  - reflexivity.
  - reflexivity.
  - reflexivity.
  - reflexivity.
  - reflexivity.
  - reflexivity.
  - reflexivity.
  - reflexivity.
  - discriminate.
  - apply demo_type3. split; [done|reflexivity].
  - reflexivity.
  - apply demo_type3. split; [done|reflexivity].
  - discriminate.
  - exact demo_live.
  - exists w'. split; [exact H|]. split; [exact Hm|]. rewrite Hh. reflexivity.
Defined.

(** What is left in the heap after a run. *)
Definition heap_after {A} (c : M world A) (w : world) : outcome (A * list (positive * hblock)) :=
  match c w with
  | Ret (a, w) => Ret (a, map_to_list (heap (smem w)))
  | Panic => Panic
  | Fault => Fault
  end.

(** The object of a slice is never freed: its slice is marked as living on the
    stack. *)
Theorem string_slice_leaks :
  heap_after (q <-- ph_string_make_slice demo_junk 0 1 0 1 ;;
              match q with
              | Some q => ph_string_delref 0 q ;;; ph_string_delref 0 1 ;;; ret true
              | None => ret false
              end) demo_world
  = Ret (true, [(3%positive, HBlock 3 None (replicate 8 170))]).
Proof. vm_compute. reflexivity. Qed.

(** Appending a string to itself reads its old buffer after it was moved. *)
Theorem string_append_self :
  heap_after (ph_string_append_str demo_junk 0 1 1) demo_world = Fault /\
  exists hp, heap_after (ph_string_append_str demo_junk 0 1 2) demo_world = Ret (PH_OK, hp).
Proof. split; [vm_compute; reflexivity|]. eexists. vm_compute. reflexivity. Qed.

End PhStringProofs.
