(* ===== verification/StringKeys.v ===== *)
(** * Strings as keys and values of the hash table (end of hash/table.c)

    A stored key or value is a pointer to a string.  The contents of a string
    that is used as a key do not change, so they are a function of the pointer.
    The callbacks act on the state of the strings; a callback that goes wrong
    leaves no state. *)

From Stdlib Require Import ZArith Lia.
From stdpp Require Import base numbers list gmap strings.
From S2P Require Import Prelude SysUtil Murmur Counter Memory MemoryProofs.
From S2P Require Import PhString PhStringUtf8 PhStringProofs HashTable HashTableProofs.

Module StringKeys.
Import Murmur Counter Memory PhString PhStringUtf8 HashTableProofs.

Section keys.
Context `{HSname : Counter.ck_hs string} `{HSid : Counter.ck_hs Z}.
Context (self : nat).
(** The contents of the strings in use as keys. *)
Context (contents_of : positive -> list Z).

Abbreviation W := (outcome world).

Definition run (f : M world unit) (w : W) : W :=
  match w with
  | Ret w => match f w with Ret (_, w) => Ret w | Panic => Panic | Fault => Fault end
  | e => e
  end.

Definition string_hash (k : positive) : Z := u32 (fst (ph_hash_bytes_murmur (contents_of k) 0)).

Definition string_compare (a b : positive) : Z :=
  if decide (a = b) then 0 else compare_bytes (contents_of a) (contents_of b).

Definition string_copy (src : positive) (w : W) : option positive * W :=
  (Some src, run (ph_string_addref src) w).

Definition string_delete (k : positive) (w : W) : W := run (ph_string_delref self k) w.

Definition ph_ht_string_key_def : ph_ht_key_def positive W :=
  KeyDef 8 string_hash (Some string_compare) (Some string_copy) (Some string_delete).

Definition ph_ht_string_val_def : ph_ht_val_def positive W :=
  ValDef 8 (Some string_copy) (Some string_delete).

Definition ph_ht_ptr_val_def : ph_ht_val_def positive W := ValDef 8 None None.

Lemma string_compare_zero a b : string_compare a b = 0 <-> contents_of a = contents_of b.
Proof.
  unfold string_compare. case_decide as Hd; [by subst|]. apply compare_lex.
Qed.

(** String keys keep the promises the table needs, whatever [memcmp] says. *)
#[export] Instance string_key_laws memcmp_key : key_laws memcmp_key ph_ht_string_key_def.
Proof.
  split; cbn [key_compare_func ph_ht_string_key_def hash_func key_copy_func].
  - intros a. by apply string_compare_zero.
  - intros a b. rewrite !string_compare_zero. done.
  - intros a b c. rewrite !string_compare_zero. congruence.
  - intros a b. rewrite string_compare_zero. unfold string_hash. by intros ->.
  - intros a. by apply wrapU_bound.
  - intros f k w k' w' [= <-] [= <- _]. by apply string_compare_zero.
Qed.

Section table.
Context (memcmp_key : positive -> positive -> Z).
Context (mem_alloc : Z -> W -> bool * W) (mem_free : W -> W).

(** In a table with string keys, what was inserted under a string is found under
    every string with the same contents, and no other key is affected. *)
Theorem string_table_get (ht : ph_ht_t positive positive W) key value flags s r ht' s' :
  wf memcmp_key ph_ht_string_key_def ht -> table_size ht < 2 ^ 31 ->
  ph_ht_insert memcmp_key mem_alloc mem_free ht key value flags s = Some (r, ht', s') ->
  (r = PH_OK -> vdef ht = ph_ht_string_val_def ->
   forall k, contents_of k = contents_of key -> ph_ht_get memcmp_key ht' k = Some value) /\
  (r <> PH_ERR -> forall k, contents_of k <> contents_of key ->
   ph_ht_get memcmp_key ht' k = ph_ht_get memcmp_key ht k).
Proof.
  intros Hwf Hsz Hins.
  destruct (insert_ok memcmp_key mem_alloc mem_free ph_ht_string_key_def ht key value flags s Hwf Hsz)
    as (r1 & ht1 & s1 & Hins1 & Hwf1 & Hpost). rewrite Hins in Hins1. injection Hins1 as <- <- <-.
  assert (forall a b, keq memcmp_key ph_ht_string_key_def a b = bool_decide (contents_of a = contents_of b)) as Hkeq.
  { intros a b. apply eq_true_iff_eq. rewrite bool_decide_eq_true, <- string_compare_zero.
    apply Z.eqb_eq. }
  split.
  - intros -> Hv k Hk. rewrite (get_dict memcmp_key ph_ht_string_key_def) by done.
    destruct Hpost as (v & (s1 & s2 & Hst) & Hd & _). rewrite Hd, Hkeq, bool_decide_true by done.
    unfold val_copy in Hst. rewrite Hv in Hst. cbn [ph_ht_string_val_def val_copy_func] in Hst.
    unfold string_copy in Hst. case_bool; by injection Hst as ->.
  - intros Hr k Hk. rewrite !(get_dict memcmp_key ph_ht_string_key_def) by done.
    destruct r; simpl in Hpost; try done.
    + destruct Hpost as (v & _ & Hd & _). by rewrite Hd, Hkeq, bool_decide_false.
    + by destruct Hpost as (_ & -> & _).
    + by destruct Hpost as (_ & _ & ->).
Qed.
End table.
End keys.

(** A table of two cells over the strings of the demo world. *)
Definition demo_contents (p : positive) : list Z := if decide (p = 1%positive) then [1; 2] else [1].
Definition demo_table : ph_ht_t positive positive (outcome world) :=
  HT 0 2 20 1 (ph_ht_string_key_def 0 demo_contents) (ph_ht_string_val_def 0) (replicate 2 ELEM_EMPTY).
Definition no_memcmp (a b : positive) : Z := 0.
Definition grant (n : Z) (w : outcome world) : bool * outcome world := (true, w).

Lemma demo_table_wf : wf no_memcmp (ph_ht_string_key_def 0 demo_contents) demo_table.
Proof. split; [done|by exists 1|done| |done]. by apply table_ok_empty. Qed.

Definition demo_insert :=
  ph_ht_insert no_memcmp grant (fun w => w) demo_table 1%positive 2%positive PH_HT_COPY
    (Ret PhStringProofs.demo_world).

Lemma demo_insert_ok :
  match demo_insert with Some (PH_OK, _, _) => true | _ => false end = true.
Proof. vm_compute. reflexivity. Qed.

Lemma string_table_get_witness :
  exists ht' s', demo_insert = Some (PH_OK, ht', s') /\
    ph_ht_get no_memcmp ht' 1%positive = Some 2%positive.
Proof.
  pose proof demo_insert_ok as Hok. destruct demo_insert as [[[r ht'] s']|] eqn:E; [|discriminate Hok].
  assert (r = PH_OK) as Hr by (destruct r; try discriminate Hok; reflexivity).
  destruct (string_table_get 0 demo_contents no_memcmp grant (fun w => w) demo_table 1 2 PH_HT_COPY
    (Ret PhStringProofs.demo_world) r ht' s' demo_table_wf ltac:(reflexivity) E) as [Hget _].
  exists ht', s'. split; [rewrite Hr; reflexivity|]. apply Hget; [exact Hr|reflexivity|reflexivity].
Defined.

End StringKeys.
