(* ===== verification/Buffer.v ===== *)
(** * Buffers: the first half of corelib/buf.c

    A buffer is a window on a block of storage; slices of a buffer are windows
    on the same block.  Storage blocks come from the memtypes of buf.c, whose
    accounting is in Memory; here an allocation succeeds or not as the next
    element of [oracle] says.  A block holds what [junk] gives it until it is
    written. *)

From Stdlib Require Import ZArith Lia.
From stdpp Require Import base numbers list gmap.
From S2P Require Import Prelude SysUtil.

Module Buffer.

(** [buf] is the storage block and the offset of the window in it. *)
Record ph_buf := Buf {
  ref : Z;
  slice_of : option positive;
  store : positive;
  off : Z;
  size : Z;
}.

Record bworld := BWorld {
  stores : gmap positive (list Z);
  bufs : gmap positive ph_buf;
  fresh : positive;
  oracle : list bool;
}.

Section buffers.
Context (junk : positive -> nat -> Z).

Definition set_stores f (w : bworld) := BWorld (f (stores w)) (bufs w) (fresh w) (oracle w).
Definition set_bufs f (w : bworld) := BWorld (stores w) (f (bufs w)) (fresh w) (oracle w).
Definition set_fresh p (w : bworld) := BWorld (stores w) (bufs w) p (oracle w).
Definition set_oracle o (w : bworld) := BWorld (stores w) (bufs w) (fresh w) o.

Definition mem_ok : M bworld bool := fun w =>
  Ret (hd true (oracle w), set_oracle (tl (oracle w)) w).
Definition new_ptr : M bworld positive := fun w => Ret (fresh w, set_fresh (Pos.succ (fresh w)) w).

Definition load_buf (p : positive) : M bworld ph_buf := fun w =>
  match bufs w !! p with Some b => Ret (b, w) | None => Fault end.
Definition store_buf (p : positive) (b : ph_buf) : M bworld unit := modify (set_bufs <[p := b]>).

(** [memmove]/[memcmp] access to [n] bytes of a block. *)
Definition read_store (st : positive) (i n : Z) : M bworld (list Z) := fun w =>
  match stores w !! st with
  | Some l => if (i <? 0) || (zlen l <? i + n) then Fault
              else Ret (slice (Z.to_nat i) (Z.to_nat n) l, w)
  | None => Fault
  end.
Definition write_store (st : positive) (i : Z) (bs : list Z) : M bworld unit := fun w =>
  match stores w !! st with
  | Some l => if (i <? 0) || (zlen l <? i + zlen bs) then Fault
              else Ret (tt, set_stores <[st := splice (Z.to_nat i) bs l]> w)
  | None => Fault
  end.

(** The bucket for a size; 0 for the variable-size memtype. *)
Definition select_size (n : Z) : Z :=
  if n <? 8192 then 8192
  else if n <? 16 * 1024 then 16 * 1024
  else if n <? 32 * 1024 then 32 * 1024
  else if n <? 64 * 1024 then 64 * 1024
  else 0.

(** A block of [n] bytes, or [None]. *)
Definition alloc_store (n : Z) : M bworld (option positive) :=
  ok <-- mem_ok ;;
  if (ok : bool) then
    st <-- new_ptr ;;
    modify (set_stores <[st := junk st <$> seq 0 (Z.to_nat n)]>) ;;;
    ret (Some st)
  else ret None.

Definition ph_buf_new (n : Z) : M bworld (option positive) :=
  ok <-- mem_ok ;;
  if negb ok then ret None
  else
    let selected := select_size n in
    let sz := if n =? 0 then selected else n in
    st <-- alloc_store (if selected =? 0 then n else selected) ;;
    match st with
    | None => ret None
    | Some st =>
        p <-- new_ptr ;;
        store_buf p (Buf 1 None st 0 sz) ;;;
        ret (Some p)
    end.

Definition ph_buf_addref (p : positive) : M bworld unit :=
  b <-- load_buf p ;;
  store_buf p (Buf (ph_refcnt_add (ref b)) (slice_of b) (store b) (off b) (size b)).

(** [fuel] bounds the chain of slices that is released. *)
Fixpoint delref_loop (fuel : nat) (p : positive) : M bworld unit :=
  match fuel with
  | O => fault
  | S fuel =>
      b <-- load_buf p ;;
      let '(last, r) := ph_refcnt_del (ref b) in
      store_buf p (Buf r (slice_of b) (store b) (off b) (size b)) ;;;
      if negb last then ret tt
      else
        (match slice_of b with
         | Some q => delref_loop fuel q
         | None => modify (set_stores (delete (store b)))
         end) ;;;
        modify (set_bufs (delete p))
  end.

Definition ph_buf_delref (p : positive) : M bworld unit := fun w =>
  delref_loop (S (base.size (bufs w))) p w.

Definition ph_buf_slice (p : positive) (start len : Z) : M bworld (option positive) :=
  b <-- load_buf p ;;
  if (len =? 0) && (size b <=? start) then ret None
  else
    let len := if len =? 0 then size b - start else len in
    if size b <? u64 (start + len) then ret None
    else if (start =? 0) && (len =? size b) then ph_buf_addref p ;;; ret (Some p)
    else
      ok <-- mem_ok ;;
      if negb ok then ret None
      else
        q <-- new_ptr ;;
        ph_buf_addref p ;;;
        store_buf q (Buf 1 (Some p) (store b) (off b + start) len) ;;;
        ret (Some q).

Definition ph_buf_copy_mem (dest : positive) (mem : list Z) (dest_start : Z) : M bworld bool :=
  d <-- load_buf dest ;;
  if size d <? u64 (dest_start + zlen mem) then ret false
  else write_store (store d) (off d + dest_start) mem ;;; ret true.

Definition ph_buf_copy (src dest : positive) (start len dest_start : Z) : M bworld bool :=
  s <-- load_buf src ;;
  if size s <? u64 (start + len) then ret false
  else
    d <-- load_buf dest ;;
    if size d <? u64 (dest_start + len) then ret false
    else
      bs <-- read_store (store s) (off s + start) len ;;
      write_store (store d) (off d + dest_start) bs ;;;
      ret true.

Definition ph_buf_set (p : positive) (value start len : Z) : M bworld bool :=
  b <-- load_buf p ;;
  if size b <? u64 (start + len) then ret false
  else write_store (store b) (off b + start) (replicate (Z.to_nat len) (u8 value)) ;;; ret true.

Definition ph_buf_len (p : positive) : M bworld Z := b <-- load_buf p ;; ret (size b).

(** [ph_buf_mem], and the bytes a caller finds there. *)
Definition ph_buf_mem (p : positive) : M bworld (positive * Z) :=
  b <-- load_buf p ;; ret (store b, off b).
Definition buf_bytes (p : positive) : M bworld (list Z) :=
  b <-- load_buf p ;; read_store (store b) (off b) (size b).

Fixpoint total_size (bs : list positive) (n : Z) : M bworld Z :=
  match bs with
  | [] => ret n
  | p :: bs => l <-- ph_buf_len p ;; total_size bs (u64 (n + l))
  end.

(** The copy loop of [ph_buf_concat]; [first] is the start offset of the next
    buffer.  False when a copy fails. *)
Fixpoint concat_loop (dest : positive) (total : Z) (bs : list positive) (o first : Z) : M bworld bool :=
  match bs with
  | [] => ret true
  | p :: bs =>
      if o <? total then
        l <-- ph_buf_len p ;;
        let len := if total <? u64 (o + l) then total - o else l in
        ok <-- ph_buf_copy p dest first len o ;;
        if negb ok then ret false
        else concat_loop dest total bs (u64 (o + l)) 0
      else ret true
  end.

Definition ph_buf_concat (total : Z) (bs : list positive) (first_offset : Z) :
    M bworld (option positive) :=
  total <-- (if total =? 0 then n <-- total_size bs 0 ;; ret (u64 (n - first_offset)) else ret total) ;;
  d <-- ph_buf_new total ;;
  match d with
  | None => ret None
  | Some d =>
      ok <-- concat_loop d total bs 0 first_offset ;;
      if negb ok then ph_buf_delref d ;;; ret None else ret (Some d)
  end.

End buffers.
End Buffer.
