(* ===== verification/BufQueue.v ===== *)
(** * Buffer queues: the second half of corelib/buf.c

    A queue is a list of entries; each entry is a buffer with a read and a
    write position.  Entries have an identity because the queue remembers the
    entry at which the last record search stopped. *)

From Stdlib Require Import ZArith Lia.
From stdpp Require Import base numbers list gmap.
From S2P Require Import Prelude SysUtil Buffer.

Module BufQueue.
Import Buffer.

Record ph_bufq_ent := Ent { eid : positive; ebuf : positive; rpos : Z; wpos : Z }.

Record ph_bufq := Bufq {
  fifo : list ph_bufq_ent;
  max_size : Z;
  max_record_size : Z;
  last_overflow : bool;
  last_search_index : Z;
  last_search_position : option positive;
  last_delim : list Z;
  last_delim_len : Z;
}.

Section queue.
Context (junk : positive -> nat -> Z).

Definition set_fifo (l : list ph_bufq_ent) (q : ph_bufq) : ph_bufq :=
  Bufq l (max_size q) (max_record_size q) (last_overflow q) (last_search_index q)
    (last_search_position q) (last_delim q) (last_delim_len q).
Definition set_overflow (b : bool) (q : ph_bufq) : ph_bufq :=
  Bufq (fifo q) (max_size q) (max_record_size q) b (last_search_index q)
    (last_search_position q) (last_delim q) (last_delim_len q).

(** The new entry, at the tail of the queue. *)
Definition q_add_new_buf (q : ph_bufq) (bufsize : Z) : M bworld (option ph_bufq_ent * ph_bufq) :=
  ok <-- mem_ok ;;
  if negb ok then ret (None, q)
  else
    b <-- ph_buf_new junk bufsize ;;
    match b with
    | None => ret (None, q)
    | Some b =>
        e <-- new_ptr ;;
        ret (Some (Ent e b 0 0), set_fifo (fifo q ++ [Ent e b 0 0]) q)
    end.

Definition ph_bufq_new (max : Z) : M bworld (option ph_bufq) :=
  ok <-- mem_ok ;;
  if negb ok then ret None
  else
    let* (e, q) := q_add_new_buf (Bufq [] max 0 false 0 None [] 0) 0 in
    ret (match e with Some _ => Some q | None => None end).

Definition ph_bufq_set_max_record_size (n : Z) (q : ph_bufq) : ph_bufq :=
  Bufq (fifo q) (max_size q) n (last_overflow q) (last_search_index q)
    (last_search_position q) (last_delim q) (last_delim_len q).
Definition ph_bufq_get_max_record_size (q : ph_bufq) : Z := max_record_size q.

Definition with_wpos (n : Z) (e : ph_bufq_ent) : ph_bufq_ent := Ent (eid e) (ebuf e) (rpos e) n.
Definition with_rpos (n : Z) (e : ph_bufq_ent) : ph_bufq_ent := Ent (eid e) (ebuf e) n (wpos e).

Definition set_last (e : ph_bufq_ent) (q : ph_bufq) : ph_bufq :=
  set_fifo (removelast (fifo q) ++ [e]) q.

(** The room in the last entry, and the bytes that go there. *)
Definition top_off (q : ph_bufq) (buf : list Z) : M bworld (Z * ph_bufq) :=
  match last (fifo q) with
  | None => ret (0, q)
  | Some e =>
      n <-- ph_buf_len (ebuf e) ;;
      let avail := MIN (u64 (n - wpos e)) (zlen buf) in
      if avail =? 0 then ret (0, q)
      else
        ph_buf_copy_mem (ebuf e) (take (Z.to_nat avail) buf) (wpos e) ;;;
        ret (avail, set_last (with_wpos (u64 (wpos e + avail)) e) q)
  end.

(** The result, the number of bytes added, and the queue. *)
Definition ph_bufq_append (q : ph_bufq) (buf : list Z) : M bworld (ph_result_t * Z * ph_bufq) :=
  let* (consumed, q) := top_off q buf in
  let rest := drop (Z.to_nat consumed) buf in
  if zlen rest =? 0 then ret (PH_OK, consumed, q)
  else
    let* (e, q) := q_add_new_buf q (zlen rest) in
    match e with
    | None => ret (if consumed =? 0 then PH_NOMEM else PH_OK, consumed, q)
    | Some e =>
        ph_buf_copy_mem (ebuf e) rest 0 ;;;
        ret (PH_OK, consumed + zlen rest, set_last (with_wpos (zlen rest) e) q)
    end.

Definition bufq_len (q : ph_bufq) : Z :=
  foldl (fun avail e => u64 (avail + (wpos e - rpos e))) 0 (fifo q).
Definition ph_bufq_len (q : ph_bufq) : Z := bufq_len q.

(** The loop of [gc_bufq] over the front of the queue. *)
Fixpoint gc_loop (l : list ph_bufq_ent) : M bworld (list ph_bufq_ent) :=
  match l with
  | [] => ret []
  | e :: l' =>
      if negb (rpos e =? wpos e) then ret l
      else
        n <-- ph_buf_len (ebuf e) ;;
        if (match l' with [] => true | _ => false end) && (wpos e <? n) then ret l
        else ph_buf_delref (ebuf e) ;;; gc_loop l'
  end.

Definition gc_bufq (q : ph_bufq) : M bworld ph_bufq :=
  l <-- gc_loop (fifo q) ;; ret (set_fifo l q).

(** The copy loop of [slice_bufq]: the entries afterwards. *)
Fixpoint slice_loop (l : list ph_bufq_ent) (dest : positive) (len next : Z) (consume : bool) :
    M bworld (list ph_bufq_ent) :=
  match l with
  | [] => ret []
  | e :: l =>
      let copy_len := MIN (wpos e - rpos e) (len - next) in
      ph_buf_copy (ebuf e) dest (rpos e) copy_len next ;;;
      let e := if consume then with_rpos (rpos e + copy_len) e else e in
      if next + copy_len =? len then ret (e :: l)
      else l <-- slice_loop l dest len (next + copy_len) consume ;; ret (e :: l)
  end.

Definition slice_bufq (q : ph_bufq) (len : Z) (consume : bool) : M bworld (option positive * ph_bufq) :=
  if (len =? 0) || (bufq_len q <? len) then ret (None, q)
  else
    match fifo q with
    | [e] =>
        b <-- ph_buf_slice (ebuf e) (rpos e) len ;;
        match b with
        | None => ret (None, q)
        | Some b =>
            if consume then
              q <-- gc_bufq (set_fifo [with_rpos (rpos e + len) e] q) ;; ret (Some b, q)
            else ret (Some b, q)
        end
    | l =>
        b <-- ph_buf_new junk len ;;
        match b with
        | None => ret (None, q)
        | Some b =>
            l <-- slice_loop l b len 0 consume ;;
            if consume then q <-- gc_bufq (set_fifo l q) ;; ret (Some b, q)
            else ret (Some b, set_fifo l q)
        end
    end.

Definition ph_bufq_consume_bytes (q : ph_bufq) (len : Z) := slice_bufq q len true.
Definition ph_bufq_peek_bytes (q : ph_bufq) (len : Z) := slice_bufq q len false.

(** ** Record search *)

Definition bytes_eqb (a b : list Z) : bool := bool_decide (a = b).

(** The unread bytes of an entry. *)
Definition ent_bytes (e : ph_bufq_ent) : M bworld (list Z) :=
  b <-- load_buf (ebuf e) ;; read_store (store b) (off b + rpos e) (wpos e - rpos e).

(** The loop of [partial_match] from suffix length [slen] down, over the
    unread bytes [bs] of the entry. *)
Fixpoint partial_loop (bs delim : list Z) (slen : nat) : Z :=
  match slen with
  | O => 0
  | S s =>
      if (length bs <? slen)%nat then partial_loop bs delim s
      else if bytes_eqb (drop (length bs - slen) bs) (take slen delim)
           then zlen delim - Z.of_nat slen
           else partial_loop bs delim s
  end.
Definition partial_match (bs delim : list Z) : Z := partial_loop bs delim (length delim - 1).

(** [memmem]: the offset of the first occurrence. *)
Fixpoint memmem (bs delim : list Z) : option nat :=
  if bytes_eqb (take (length delim) bs) delim then Some 0%nat
  else match bs with
       | [] => None
       | _ :: bs => option_map S (memmem bs delim)
       end.

Definition clear_searchstate (q : ph_bufq) : ph_bufq :=
  Bufq (fifo q) (max_size q) (max_record_size q) false 0 None (last_delim q) 0.

Definition set_searchstate (q : ph_bufq) (searched : Z) (e : ph_bufq_ent) (delim : list Z) : ph_bufq :=
  if 16 <? zlen delim then clear_searchstate q
  else Bufq (fifo q) (max_size q) (max_record_size q) (last_overflow q) searched (Some (eid e))
         (splice 0 delim (last_delim q)) (zlen delim).

(** The entries from the remembered one on; [None] when it is gone. *)
Fixpoint from_eid (p : positive) (l : list ph_bufq_ent) : option (list ph_bufq_ent) :=
  match l with
  | [] => None
  | e :: l' => if decide (eid e = p) then Some l else from_eid p l'
  end.

(** Drop the entries before [e]: the queue and the bytes that went. *)
Fixpoint trim_loop (p : positive) (l : list ph_bufq_ent) (searched : Z) :
    M bworld (list ph_bufq_ent * Z) :=
  match l with
  | [] => fault
  | e :: l' =>
      if decide (eid e = p) then ret (l, searched)
      else ph_buf_delref (ebuf e) ;;; trim_loop p l' (u64 (searched - (wpos e - rpos e)))
  end.

(** The check for a delimiter that straddles an entry with unread bytes
    [bs] and the entry after it: the length of the record, 0 when it cannot be
    found, or [None] to go on. *)
Definition straddle (bs delim : list Z) (searched : Z) (next : ph_bufq_ent) : M bworld (option Z) :=
  let slen := partial_match bs delim in
  if slen =? 0 then ret None
  else if zlen bs <? slen then ret (Some 0)
  else
    nb <-- load_buf (ebuf next) ;;
    x <-- read_store (store nb) (off nb + rpos next) slen ;;
    ret (if bytes_eqb x (drop (Z.to_nat (zlen delim - slen)) delim)
         then Some (u64 (searched + zlen bs + slen)) else None).

(** The search loop over the entries [l]: the length of the record or 0,
    whether the record limit was exceeded, and the queue. *)
Fixpoint find_loop (q : ph_bufq) (l : list ph_bufq_ent) (delim : list Z) (searched : Z) (over : bool) :
    M bworld (Z * bool * ph_bufq) :=
  match l with
  | [] => ret (0, over, clear_searchstate q)
  | e :: l' =>
      bs <-- ent_bytes e ;;
      let len := zlen bs in
      match memmem bs delim with
      | Some i => ret (u64 (searched + (Z.of_nat i + zlen delim)), over, clear_searchstate q)
      | None =>
          match l' with
          | [] => ret (0, over, set_searchstate q searched e delim)
          | next :: _ =>
              found <-- straddle bs delim searched next ;;
              match found with
              | Some 0 => ret (0, over, q)
              | Some n => ret (n, over, clear_searchstate q)
              | None =>
                  if (0 <? max_record_size q) && (zlen delim <=? 16) &&
                     (last_overflow q || (max_record_size q <=? u64 (searched + len)))
                  then
                    let* (f, s) := trim_loop (eid e) (fifo q) searched in
                    find_loop (set_overflow true (set_fifo f q)) l' delim (u64 (s + len)) true
                  else find_loop q l' delim (u64 (searched + len)) over
              end
          end
      end
  end.

Definition find_record (q : ph_bufq) (delim : list Z) : M bworld (Z * bool * ph_bufq) :=
  if (zlen delim =? last_delim_len q) && (zlen delim <=? 16) &&
     bytes_eqb delim (take (length delim) (last_delim q))
  then
    match last_search_position q with
    | None => find_loop q [] delim (last_search_index q) false
    | Some p =>
        l <-- of_option (from_eid p (fifo q)) ;;
        find_loop q l delim (last_search_index q) false
    end
  else find_loop (clear_searchstate q) (fifo q) delim 0 false.

(** The record, the queue and whether [errno] is EOVERFLOW. *)
Definition ph_bufq_consume_record (q : ph_bufq) (delim : list Z) :
    M bworld (option positive * ph_bufq * bool) :=
  let* (len, over, q) := find_record q delim in
  if len =? 0 then ret (None, q, over)
  else let* (b, q) := ph_bufq_consume_bytes q len in ret (b, q, over).

Definition ph_bufq_peek_record (q : ph_bufq) (delim : list Z) :
    M bworld (option positive * ph_bufq * bool) :=
  let* (len, over, q) := find_record q delim in
  if len =? 0 then ret (None, q, over)
  else let* (b, q) := ph_bufq_peek_bytes q len in ret (b, q, over).

(** ** Queues and streams

    [writev] is [ph_stm_writev] of the stream, whose state is [C]: given the bytes of
    the vector it returns the result and the number of bytes written; [readv] is
    [ph_stm_read]: given the room it returns the bytes read, or [None] for false. *)

Definition on_bufs {C T} (c : M bworld T) : M (bworld * C) T := fun '(w, s) =>
  match c w with Ret (x, w) => Ret (x, (w, s)) | Panic => Panic | Fault => Fault end.
Definition on_stm {C T} (c : M C T) : M (bworld * C) T := fun '(w, s) =>
  match c s with Ret (x, s) => Ret (x, (w, s)) | Panic => Panic | Fault => Fault end.

Definition iov_of (l : list (list Z)) : list (list Z) :=
  take 16 (List.filter (fun bs => negb (zlen bs =? 0)) l).

Fixpoint mapM_ent (l : list ph_bufq_ent) : M bworld (list (list Z)) :=
  match l with
  | [] => ret []
  | e :: l => b <-- ent_bytes e ;; r <-- mapM_ent l ;; ret (b :: r)
  end.

(** Mark [n] bytes as consumed. *)
Fixpoint eat_loop (l : list ph_bufq_ent) (n : Z) : list ph_bufq_ent :=
  match l with
  | [] => []
  | e :: l =>
      let len := wpos e - rpos e in
      if len =? 0 then e :: eat_loop l n
      else
        let ate := MIN len n in
        let e := with_rpos (rpos e + ate) e in
        if n - ate =? 0 then e :: l else e :: eat_loop l (n - ate)
  end.

(** [nwrotep]: the caller wants the number; without it, a queue with nothing to write
    dereferences a null pointer. *)
Definition ph_bufq_stm_write {C} (nwrotep : bool) (writev : list (list Z) -> M C (bool * Z)) (q : ph_bufq) :
    M (bworld * C) (bool * Z * ph_bufq) :=
  l <-- on_bufs (mapM_ent (fifo q)) ;;
  let iov := iov_of l in
  match iov with
  | [] => if nwrotep then ret (true, 0, q) else fault
  | _ =>
      let* (res, nwrote) := on_stm (writev iov) in
      if (res : bool) && (0 <? nwrote) then
        q <-- on_bufs (gc_bufq (set_fifo (eat_loop (fifo q) nwrote) q)) ;;
        ret (res, nwrote, q)
      else ret (res, nwrote, q)
  end.

(** The last entry and its room; a new entry when there is none. *)
Definition read_room (q : ph_bufq) : M bworld (option ph_bufq_ent * Z * ph_bufq) :=
  avail <-- (match last (fifo q) with
             | Some e => n <-- ph_buf_len (ebuf e) ;; ret (u64 (n - wpos e))
             | None => ret 0
             end) ;;
  if avail =? 0 then
    let* (e, q) := q_add_new_buf q 0 in
    match e with
    | Some e => n <-- ph_buf_len (ebuf e) ;; ret (Some e, n, q)
    | None => ret (None, 0, q)
    end
  else ret (last (fifo q), avail, q).

Definition ph_bufq_stm_read {C} (readv : Z -> M C (option (list Z))) (q : ph_bufq) :
    M (bworld * C) (bool * Z * ph_bufq) :=
  let* (e, avail, q) := on_bufs (read_room q) in
  match e with
  | None => ret (false, 0, q)
  | Some e =>
      r <-- on_stm (readv avail) ;;
      match r with
      | None => ret (false, 0, q)
      | Some bs =>
          b <-- on_bufs (load_buf (ebuf e)) ;;
          on_bufs (write_store (store b) (off b + wpos e) bs) ;;;
          ret (true, zlen bs, set_last (with_wpos (wpos e + zlen bs) e) q)
      end
  end.

Fixpoint free_loop (l : list ph_bufq_ent) : M bworld unit :=
  match l with
  | [] => ret tt
  | e :: l => ph_buf_delref (ebuf e) ;;; free_loop l
  end.

Definition ph_bufq_free (q : ph_bufq) : M bworld unit := free_loop (fifo q).

End queue.
End BufQueue.
