(* ===== verification/BufQueueProofs.v ===== *)
(** * Buffer queues are byte queues

    The unread bytes of the entries, in order, are the contents of a queue
    ([qbytes]).  Appending adds at the end, consuming and peeking return a
    prefix, and a buffer that was handed out keeps its bytes while more data
    is appended. *)

From Stdlib Require Import ZArith Lia.
From stdpp Require Import base numbers list gmap.
From S2P Require Import Prelude SysUtil Buffer BufQueue.

Module BufQueueProofs.
Export Buffer BufQueue.

Section proofs.
Context (junk : positive -> nat -> Z).
Implicit Types w : bworld.

#[local] Arguments mem_ok : simpl never.
#[local] Arguments ph_buf_new : simpl never.
#[local] Arguments ph_buf_len : simpl never.
#[local] Arguments ph_buf_copy : simpl never.
#[local] Arguments ph_buf_delref : simpl never.

Definition plenty w : Prop := Forall (fun b => b = true) (oracle w).

Lemma buf_mem_plenty w : plenty w ->
  exists o, mem_ok w = Ret (true, set_oracle o w) /\ Forall (fun b => b = true) o.
Proof.
  unfold plenty, mem_ok. intros H. destruct (oracle w) as [|b o]; simpl; [by exists []|].
  apply Forall_cons in H as [-> H]. by exists o.
Qed.

Lemma load_buf_eq w p b : bufs w !! p = Some b -> load_buf p w = Ret (b, w).
Proof. unfold load_buf. by intros ->. Qed.

Lemma ph_buf_len_eq w p b : bufs w !! p = Some b -> ph_buf_len p w = Ret (size b, w).
Proof. intros H. unfold ph_buf_len. by step_with (load_buf_eq w p b H). Qed.

(** A live buffer [p] whose window lies in the block [l]. *)
Record buf_ok w (p : positive) (b : ph_buf) (l : list Z) : Prop := {
  bo_buf : bufs w !! p = Some b;
  bo_store : stores w !! store b = Some l;
  bo_off : 0 <= off b;
  bo_size : 0 <= size b < 2 ^ 62;
  bo_win : off b + size b <= zlen l;
}.

Definition window (b : ph_buf) (l : list Z) : list Z := slice (Z.to_nat (off b)) (Z.to_nat (size b)) l.

Lemma read_store_eq w st l i n :
  stores w !! st = Some l -> 0 <= i -> 0 <= n -> i + n <= zlen l ->
  read_store st i n w = Ret (slice (Z.to_nat i) (Z.to_nat n) l, w).
Proof.
  intros Hs Hi Hn Hl. unfold read_store.
  rewrite Hs, (proj2 (Z.ltb_ge _ _)), (proj2 (Z.ltb_ge _ _)) by lia. done.
Qed.

Lemma write_store_eq w st l i bs :
  stores w !! st = Some l -> 0 <= i -> i + zlen bs <= zlen l ->
  write_store st i bs w = Ret (tt, set_stores <[st := splice (Z.to_nat i) bs l]> w).
Proof.
  intros Hs Hi Hl. unfold write_store.
  rewrite Hs, (proj2 (Z.ltb_ge _ _)), (proj2 (Z.ltb_ge _ _)) by lia. done.
Qed.

Lemma buf_bytes_eq w p b l : buf_ok w p b l -> buf_bytes p w = Ret (window b l, w).
Proof.
  intros []. unfold buf_bytes. step_with (load_buf_eq w p b bo_buf0).
  rewrite (read_store_eq w _ l) by (done || lia). done.
Qed.

(** ** Creating and copying *)

(** Everything that is live was allocated before. *)
Record fresh_ok w : Prop := {
  fo_bufs : forall p, is_Some (bufs w !! p) -> (p < fresh w)%positive;
  fo_stores : forall s, is_Some (stores w !! s) -> (s < fresh w)%positive;
}.

Definition buf_size (n : Z) : Z := if n =? 0 then 8192 else n.

Lemma select_size_room n : 0 <= n ->
  buf_size n <= (if select_size n =? 0 then n else select_size n).
Proof.
  intros Hn. unfold buf_size, select_size. repeat case_bool; zbool; try lia.
Qed.

Lemma select_size_0 n : (if n =? 0 then select_size n else n) = buf_size n.
Proof. unfold buf_size, select_size. destruct (n =? 0) eqn:E; zbool; [by subst|done]. Qed.

Record added w w' (p st : positive) (b : ph_buf) (l : list Z) : Prop := {
  ad_bufs : bufs w' = <[p := b]> (bufs w);
  ad_stores : stores w' = <[st := l]> (stores w);
  ad_newp : (fresh w <= p < fresh w')%positive;
  ad_newst : (fresh w <= st < fresh w')%positive;
  ad_plenty : plenty w';
}.

Lemma buf_new_ok w n : plenty w -> 0 <= n < 2 ^ 62 ->
  exists p st l w', ph_buf_new junk n w = Ret (Some p, w') /\
    added w w' p st (Buf 1 None st 0 (buf_size n)) l /\ buf_size n <= zlen l.
Proof.
  intros Hpl Hn. unfold ph_buf_new.
  destruct (buf_mem_plenty w Hpl) as (o1 & H1 & Ho1). step_with H1. cbn [negb].
  unfold alloc_store.
  destruct (buf_mem_plenty (set_oracle o1 w) Ho1) as (o2 & H2 & Ho2).
  set (cap := if select_size n =? 0 then n else select_size n).
  erewrite bind_ret.
  2:{ step_with H2. step. step. reflexivity. }
  cbv beta iota. step. step. rewrite select_size_0.
  do 4 eexists. split; [reflexivity|]. split.
  - split; simpl; [reflexivity|reflexivity|lia|lia|exact Ho2].
  - rewrite length_fmap, length_seq. pose proof (select_size_room n ltac:(lia)). fold cap in H.
    unfold buf_size in *. destruct (n =? 0); lia.
Qed.

Lemma copy_mem_ok w p b l bs start :
  buf_ok w p b l -> 0 <= start -> start + zlen bs <= size b ->
  ph_buf_copy_mem p bs start w =
  Ret (true, set_stores <[store b := splice (Z.to_nat (off b + start)) bs l]> w).
Proof.
  intros [] Hs Hl. unfold ph_buf_copy_mem. step_with (load_buf_eq w p b bo_buf0).
  rewrite (wrapU_small 64), (proj2 (Z.ltb_ge _ _)) by lia.
  by step_with (write_store_eq w (store b) l (off b + start) bs bo_store0 ltac:(lia) ltac:(lia)).
Qed.

Lemma copy_ok w p b l q d m start len dst :
  buf_ok w p b l -> buf_ok w q d m -> 0 <= start -> 0 <= len -> 0 <= dst ->
  start + len <= size b -> dst + len <= size d ->
  ph_buf_copy p q start len dst w =
  Ret (true, set_stores <[store d := splice (Z.to_nat (off d + dst))
         (slice (Z.to_nat (off b + start)) (Z.to_nat len) l) m]> w).
Proof.
  intros Hb Hd Hs Hl Hds Hsl Hdl. destruct Hb, Hd. unfold ph_buf_copy.
  step_with (load_buf_eq w p b bo_buf0). rewrite (wrapU_small 64), (proj2 (Z.ltb_ge _ _)) by lia.
  step_with (load_buf_eq w q d bo_buf1). rewrite (wrapU_small 64), (proj2 (Z.ltb_ge _ _)) by lia.
  step_with (read_store_eq w (store b) l (off b + start) len bo_store0 ltac:(lia) ltac:(lia) ltac:(lia)).
  assert (zlen (slice (Z.to_nat (off b + start)) (Z.to_nat len) l) = len) as Hsl' by (rewrite length_slice; lia).
  by step_with (write_store_eq w (store d) m (off d + dst)
    (slice (Z.to_nat (off b + start)) (Z.to_nat len) l) bo_store1 ltac:(lia) ltac:(lia)).
Qed.

(** ** Queues *)

Record ent_ok w (e : ph_bufq_ent) (b : ph_buf) (l : list Z) : Prop := {
  eo_buf : buf_ok w (ebuf e) b l;
  eo_pos : 0 <= rpos e <= wpos e;
  eo_wpos : wpos e <= size b;
  eo_ref : 1 <= ref b < 2 ^ 31 - 1;
  eo_slice : slice_of b = None;
}.

(** The unread bytes of an entry. *)
Definition ebytes w (e : ph_bufq_ent) : list Z :=
  match bufs w !! ebuf e with
  | Some b => match stores w !! store b with
              | Some l => slice (Z.to_nat (off b + rpos e)) (Z.to_nat (wpos e - rpos e)) l
              | None => []
              end
  | None => []
  end.
Definition lbytes w (l : list ph_bufq_ent) : list Z := mjoin (ebytes w <$> l).
Definition qbytes w (q : ph_bufq) : list Z := lbytes w (fifo q).

Record list_ok w (l : list ph_bufq_ent) : Prop := {
  lo_ent : forall e, e ∈ l -> exists b m, ent_ok w e b m;
  lo_nodup : NoDup (ebuf <$> l);
  lo_stores : forall e e' b b', e ∈ l -> e' ∈ l -> bufs w !! ebuf e = Some b ->
    bufs w !! ebuf e' = Some b' -> store b = store b' -> ebuf e = ebuf e';
}.

Definition queue_wf w (q : ph_bufq) : Prop := list_ok w (fifo q) /\ fresh_ok w.

Lemma ebytes_eq w e b l : ent_ok w e b l ->
  ebytes w e = slice (Z.to_nat (off b + rpos e)) (Z.to_nat (wpos e - rpos e)) l /\
  zlen (ebytes w e) = wpos e - rpos e.
Proof.
  intros [[Hb Hs ? ? ?] ? ? ? ?]. unfold ebytes. rewrite Hb, Hs. split; [done|].
  rewrite length_slice; lia.
Qed.

(** An entry keeps its bytes when its buffer keeps its window and the bytes
    before the write position are not touched. *)
Lemma ent_ok_frame w w' e b l b' l' :
  ent_ok w e b l -> bufs w' !! ebuf e = Some b' -> store b' = store b -> off b' = off b ->
  size b' = size b -> slice_of b' = None -> 1 <= ref b' < 2 ^ 31 - 1 ->
  stores w' !! store b = Some l' -> length l' = length l ->
  slice (Z.to_nat (off b)) (Z.to_nat (wpos e)) l' = slice (Z.to_nat (off b)) (Z.to_nat (wpos e)) l ->
  ent_ok w' e b' l' /\ ebytes w' e = ebytes w e.
Proof.
  intros He Hb' Hst Hoff Hsz Hsl Href Hs' Hlen Hsame.
  assert (ent_ok w' e b' l') as He'.
  { destruct He as [[] ? ? ? ?]. split; try done; [|lia]. split; rewrite ?Hst, ?Hoff, ?Hsz; try done. lia. }
  split; [done|]. rewrite (proj1 (ebytes_eq _ _ _ _ He)), (proj1 (ebytes_eq _ _ _ _ He')), Hoff.
  destruct He as [[] ? ? ? ?].
  replace (Z.to_nat (off b + rpos e)) with (Z.to_nat (off b) + Z.to_nat (rpos e))%nat by lia.
  rewrite <- !(slice_slice _ (Z.to_nat (wpos e))) by lia. by rewrite Hsame.
Qed.

Lemma list_frame w w' l :
  list_ok w l ->
  (forall e b m, e ∈ l -> ent_ok w e b m -> exists b' m', ent_ok w' e b' m' /\
     store b' = store b /\ ebytes w' e = ebytes w e) ->
  list_ok w' l /\ lbytes w' l = lbytes w l.
Proof.
  intros Hl Hf. split.
  - split.
    + intros e He. destruct (lo_ent _ _ Hl e He) as (b & m & Hok).
      destruct (Hf e b m He Hok) as (b' & m' & Hok' & _). eauto.
    + apply Hl.
    + intros e e' b b' He He' Hb Hb' Hst.
      destruct (lo_ent _ _ Hl e He) as (b0 & m0 & Hok0). destruct (lo_ent _ _ Hl e' He') as (b1 & m1 & Hok1).
      destruct (Hf e b0 m0 He Hok0) as (c0 & n0 & Hc0 & Hs0 & _).
      destruct (Hf e' b1 m1 He' Hok1) as (c1 & n1 & Hc1 & Hs1 & _).
      pose proof (bo_buf _ _ _ _ (eo_buf _ _ _ _ Hc0)). pose proof (bo_buf _ _ _ _ (eo_buf _ _ _ _ Hc1)).
      simplify_eq. eapply (lo_stores _ _ Hl e e'); [done|done|apply Hok0|apply Hok1|congruence].
  - unfold lbytes. f_equal. apply list_fmap_ext. intros i e Hi.
    apply list_elem_of_lookup_2 in Hi. destruct (lo_ent _ _ Hl e Hi) as (b & m & Hok).
    by destruct (Hf e b m Hi Hok) as (b' & m' & _ & _ & ?).
Qed.

Lemma lbytes_app w l l' : lbytes w (l ++ l') = lbytes w l ++ lbytes w l'.
Proof. unfold lbytes. by rewrite fmap_app, join_app. Qed.

Lemma lbytes_cons w e l : lbytes w (e :: l) = ebytes w e ++ lbytes w l.
Proof. done. Qed.

Lemma list_ok_app_l w l l' : list_ok w (l ++ l') -> list_ok w l.
Proof.
  intros [He Hn Hs]. rewrite fmap_app in Hn. split.
  - intros e Hin. apply He, elem_of_app. by left.
  - by apply NoDup_app in Hn as [Hn _].
  - intros e e' b b' Hin Hin'. apply Hs; apply elem_of_app; by left.
Qed.

Lemma list_ok_app_r w l l' : list_ok w (l ++ l') -> list_ok w l'.
Proof.
  intros [He Hn Hs]. rewrite fmap_app in Hn. split.
  - intros e Hin. apply He, elem_of_app. by right.
  - by apply NoDup_app in Hn as (_ & _ & Hn).
  - intros e e' b b' Hin Hin'. apply Hs; apply elem_of_app; by right.
Qed.

(** Adding an entry with a buffer and block of its own. *)
Lemma list_ok_snoc w l e b m :
  list_ok w l -> ent_ok w e b m ->
  (forall e' b' m', e' ∈ l -> ent_ok w e' b' m' -> ebuf e' <> ebuf e /\ store b' <> store b) ->
  list_ok w (l ++ [e]).
Proof.
  intros Hl He Hnew. pose proof (bo_buf _ _ _ _ (eo_buf _ _ _ _ He)) as Hb. split.
  - intros e' [Hin | ->%list_elem_of_singleton]%elem_of_app; [by apply Hl|eauto].
  - rewrite fmap_app. apply NoDup_app. split; [apply Hl|]. split; [|apply NoDup_singleton].
    intros p Hp Hp'. apply list_elem_of_singleton in Hp' as ->.
    apply list_elem_of_fmap in Hp as (e' & Heq & Hin).
    destruct (lo_ent _ _ Hl e' Hin) as (b' & m' & Hok). by destruct (Hnew e' b' m' Hin Hok).
  - assert (forall e' b', e' ∈ l -> bufs w !! ebuf e' = Some b' -> store b' <> store b) as Hne.
    { intros e' b' Hin Hb'. destruct (lo_ent _ _ Hl e' Hin) as (b0 & m0 & Hok).
      pose proof (bo_buf _ _ _ _ (eo_buf _ _ _ _ Hok)).
      assert (b0 = b') as -> by congruence. by destruct (Hnew e' b' m0 Hin Hok). }
    intros e1 e2 b1 b2 [H1 | ->%list_elem_of_singleton]%elem_of_app [H2 | ->%list_elem_of_singleton]%elem_of_app
      Hb1 Hb2 Hst; [by eapply (lo_stores _ _ Hl)| | |done]; simplify_eq.
    + by destruct (Hne e1 b1 H1 Hb1).
    + by destruct (Hne e2 b2 H2 Hb2).
Qed.

(** ** Buffers handed out *)

(** Buffer [p] does not reach into the part of the queue's last block that is
    still to be written, and the block of an entry it looks into is referenced
    by more than the entry. *)
Definition apart w (q : ph_bufq) (b : ph_buf) : Prop :=
  (forall e be, last (fifo q) = Some e -> bufs w !! ebuf e = Some be ->
     store b = store be -> off b + size b <= off be + wpos e) /\
  (forall e be, e ∈ fifo q -> bufs w !! ebuf e = Some be -> store b = store be -> 2 <= ref be).
Definition safe w (q : ph_bufq) (p : positive) : Prop :=
  exists b l, buf_ok w p b l /\ apart w q b.

(** [p] has the same bytes in both states. *)
Definition same_bytes w w' (p : positive) : Prop :=
  exists x, buf_bytes p w = Ret (x, w) /\ buf_bytes p w' = Ret (x, w').

Lemma same_bytes_intro w w' p b l l' :
  buf_ok w p b l -> buf_ok w' p b l' -> window b l' = window b l -> same_bytes w w' p.
Proof.
  intros Hb Hb' Hw. exists (window b l). split; [by apply buf_bytes_eq|].
  rewrite <- Hw. by apply buf_bytes_eq.
Qed.

Lemma slice_splice_before {A} (l bs : list A) i n j :
  (j + length bs <= length l)%nat -> (i + n <= j)%nat ->
  slice i n (splice j bs l) = slice i n l.
Proof. intros. apply slice_splice_disjoint; lia. Qed.

(** ** Appending *)

Lemma top_off_ok w q buf :
  queue_wf w q -> zlen buf < 2 ^ 62 ->
  exists n q' w', top_off q buf w = Ret ((n, q'), w') /\ 0 <= n <= zlen buf /\
    queue_wf w' q' /\ qbytes w' q' = qbytes w q ++ take (Z.to_nat n) buf /\
    oracle w' = oracle w /\ fresh w' = fresh w /\ bufs w' = bufs w /\
    (forall p, safe w q p -> safe w' q' p /\ same_bytes w w' p) /\
    (n = zlen buf \/ forall e b, last (fifo q') = Some e -> bufs w' !! ebuf e = Some b -> wpos e = size b).
Proof.
  intros [Hl Hf] Hlen. unfold top_off. destruct (last (fifo q)) as [e|] eqn:El.
  2:{ exists 0, q, w. split; [done|]. split; [lia|]. split; [done|].
      split; [by rewrite app_nil_r|]. split_and!; try done.
      - intros p Hs. split; [done|]. destruct Hs as (b & l & Hb & _). by eapply same_bytes_intro.
      - right. congruence. }
  apply last_Some in El as [l0 Hfifo].
  assert (e ∈ fifo q) as Hin by (rewrite Hfifo; apply elem_of_app; right; by apply list_elem_of_singleton).
  destruct (lo_ent _ _ Hl e Hin) as (b & m & He).
  pose proof He as [Hbo Hpos Hwp Href Hsl]. pose proof Hbo as [Hb Hst Ho Hsz Hw].
  step_with (ph_buf_len_eq w (ebuf e) b Hb).
  rewrite (wrapU_small 64), MIN_min by lia.
  set (n := Z.min (size b - wpos e) (zlen buf)).
  destruct (n =? 0) eqn:En; zbool.
  { exists 0, q, w. split; [done|]. split; [lia|]. split; [done|].
    split; [by rewrite app_nil_r|]. split_and!; try done.
    - intros p Hs. split; [done|]. destruct Hs as (b0 & l & Hb0 & _). by eapply same_bytes_intro.
    - destruct (decide (zlen buf = 0)) as [|]; [by left|]. right. intros e' b' He' Hb'.
      rewrite Hfifo, last_snoc in He'. injection He' as <-.
      assert (b' = b) as -> by congruence. unfold n in En. lia. }
  assert (zlen (take (Z.to_nat n) buf) = n) as Htk by (rewrite length_take; lia).
  step_with (copy_mem_ok w (ebuf e) b m (take (Z.to_nat n) buf) (wpos e) Hbo ltac:(lia) ltac:(lia)).
  rewrite (wrapU_small 64) by lia.
  set (m' := splice (Z.to_nat (off b + wpos e)) (take (Z.to_nat n) buf) m).
  set (w' := set_stores <[store b := m']> w). set (e' := with_wpos (wpos e + n) e).
  assert (length m' = length m) as Hm' by (apply length_splice; lia).
  assert (stores w' !! store b = Some m') as Hst' by apply lookup_insert_eq.
  assert (ent_ok w' e' b m') as He'.
  { split; simpl; [split; try done; lia|lia|unfold n; lia|done|done]. }
  rewrite Hfifo in Hl. pose proof (list_ok_app_l _ _ _ Hl) as Hl0.
  assert (forall e1 b1 m1, e1 ∈ l0 -> ent_ok w e1 b1 m1 -> ebuf e1 <> ebuf e /\ store b1 <> store b) as Hother.
  { intros e1 b1 m1 Hin1 He1. assert (ebuf e1 <> ebuf e) as Hne.
    { intros Heq. pose proof (lo_nodup _ _ Hl) as Hn. rewrite fmap_app in Hn.
      apply NoDup_app in Hn as (_ & Hn & _). apply (Hn (ebuf e1)); [by apply list_elem_of_fmap_2|].
      rewrite Heq. by apply list_elem_of_singleton. }
    split; [done|]. intros Heq. apply Hne.
    eapply (lo_stores _ _ Hl e1 e); [apply elem_of_app; by left|apply elem_of_app; right; by apply list_elem_of_singleton|
      apply He1|done|done]. }
  destruct (list_frame w w' l0 Hl0) as [Hl0' Hby0].
  { intros e1 b1 m1 Hin1 He1. destruct (Hother e1 b1 m1 Hin1 He1) as [_ Hne].
    destruct (ent_ok_frame w w' e1 b1 m1 b1 m1 He1) as [Hok' Heb']; try done; try apply He1.
    { simpl. rewrite lookup_insert_ne by done. apply He1. }
    exists b1, m1. done. }
  exists n, (set_last e' q), w'. split; [done|]. split; [lia|].
  assert (fifo (set_last e' q) = l0 ++ [e']) as Hq' by (simpl; by rewrite Hfifo, removelast_last).
  split_and!.
  - unfold queue_wf. rewrite Hq'. split.
    + eapply list_ok_snoc; [done|exact He'|]. intros e1 b1 m1 Hin1 He1.
      destruct (lo_ent _ _ Hl0 e1 Hin1) as (b2 & m2 & He2).
      assert (b1 = b2) as -> by (pose proof (bo_buf _ _ _ _ (eo_buf _ _ _ _ He1));
        pose proof (bo_buf _ _ _ _ (eo_buf _ _ _ _ He2)); simpl in *; congruence).
      by apply (Hother e1 b2 m2).
    + split; [apply Hf|]. intros s [x Hx]. simpl in Hx. apply (fo_stores _ Hf).
      apply lookup_insert_Some in Hx as [[<- _]|[_ Hx]]; eauto.
  - unfold qbytes. rewrite Hq', Hfifo, !lbytes_app, Hby0, <- app_assoc. f_equal.
    unfold lbytes. simpl. rewrite !app_nil_r.
    rewrite (proj1 (ebytes_eq _ _ _ _ He)), (proj1 (ebytes_eq _ _ _ _ He')). simpl.
    replace (Z.to_nat (wpos e + n - rpos e)) with (Z.to_nat (wpos e - rpos e) + length (take (Z.to_nat n) buf))%nat by lia.
    unfold m'. replace (Z.to_nat (off b + wpos e)) with (Z.to_nat (off b + rpos e) + Z.to_nat (wpos e - rpos e))%nat by lia.
    apply slice_splice_extend. lia.
  - done.
  - done.
  - done.
  - intros p (b0 & l & Hb0 & Hsafe & Hheld). assert (last (fifo q) = Some e) as Hlast by (by rewrite Hfifo, last_snoc).
    specialize (Hsafe e b Hlast Hb). pose proof Hb0 as [Hpb Hps Hpo Hpz Hpw].
    assert (forall e be, e ∈ fifo (set_last e' q) -> bufs w' !! ebuf e = Some be -> store b0 = store be -> 2 <= ref be) as Hheld'.
    { intros e1 be1 Hin1 Hbe1. rewrite Hq' in Hin1. apply elem_of_app in Hin1 as [Hin1|Hin1%list_elem_of_singleton].
      - apply (Hheld e1 be1); [|done]. rewrite Hfifo. apply elem_of_app. by left.
      - subst e1. by apply (Hheld e be1). }
    destruct (decide (store b0 = store b)) as [Heq|Hne].
    + specialize (Hsafe Heq). rewrite Heq in Hps. simplify_eq.
      assert (buf_ok w' p b0 m') as Hb0' by (split; rewrite ?Heq; try done; lia).
      split.
      * exists b0, m'. split; [done|]. split; [|done]. intros e1 be1 He1 Hbe1 Hst1. rewrite Hq', last_snoc in He1.
        simplify_eq. simpl in *. simplify_eq. lia.
      * eapply same_bytes_intro; [exact Hb0|exact Hb0'|]. apply slice_splice_before; lia.
    + assert (buf_ok w' p b0 l) as Hb0' by (split; try done; simpl; by rewrite lookup_insert_ne).
      split; [|by eapply same_bytes_intro]. exists b0, l. split; [done|]. split; [|done].
      intros e1 be1 He1 Hbe1 Hst1. rewrite Hq', last_snoc in He1. simplify_eq. simpl in Hbe1. simplify_eq.
  - destruct (decide (n = zlen buf)); [by left|]. right. intros e1 b1 He1 Hb1.
    rewrite Hq', last_snoc in He1. injection He1 as <-. simpl in Hb1.
    assert (b1 = b) as -> by congruence. simpl. unfold n in *. lia.
Qed.

Lemma fresh_lt w p b l : fresh_ok w -> buf_ok w p b l -> (p < fresh w)%positive /\ (store b < fresh w)%positive.
Proof. intros Hf [Hb Hs _ _ _]. split; [apply (fo_bufs _ Hf)|apply (fo_stores _ Hf)]; eauto. Qed.

(** A new block and buffer change nothing for what was there before. *)
Lemma added_frame w w1 p st b l : fresh_ok w -> added w w1 p st b l -> store b = st ->
  fresh_ok w1 /\
  (forall q bq lq, buf_ok w q bq lq -> buf_ok w1 q bq lq /\ q <> p /\ store bq <> st) /\
  (forall L, list_ok w L -> list_ok w1 L /\ lbytes w1 L = lbytes w L).
Proof.
  intros Hf [Hb Hs Hp Hst Hpl] Hstb.
  assert (forall q bq lq, buf_ok w q bq lq -> buf_ok w1 q bq lq /\ q <> p /\ store bq <> st) as Hok.
  { intros q bq lq Hq. destruct (fresh_lt _ _ _ _ Hf Hq) as [Hq1 Hq2].
    assert (q <> p) by (intros ->; lia). assert (store bq <> st) by (intros Heq; rewrite Heq in Hq2; lia).
    split_and!; try done. destruct Hq. split; try done; rewrite ?Hb, ?Hs, lookup_insert_ne by done; done. }
  split_and!; [|done|].
  - split.
    + intros q [x Hx]. rewrite Hb in Hx. apply lookup_insert_Some in Hx as [[<- _]|[_ Hx]]; [lia|].
      assert (q < fresh w)%positive by (apply (fo_bufs _ Hf); eauto). lia.
    + intros q [x Hx]. rewrite Hs in Hx. apply lookup_insert_Some in Hx as [[<- _]|[_ Hx]]; [lia|].
      assert (q < fresh w)%positive by (apply (fo_stores _ Hf); eauto). lia.
  - intros L HL. apply list_frame; [done|]. intros e be m Hin He.
    destruct (Hok _ _ _ (eo_buf _ _ _ _ He)) as [He1 _].
    destruct (ent_ok_frame w w1 e be m be m He) as [Hok1 Heb]; try done; try apply He; try apply He1.
    exists be, m. done.
Qed.

(** The entry [q_add_new_buf] puts at the end, filled with [bs]. *)
Lemma add_filled w q bs :
  queue_wf w q -> plenty w -> 0 < zlen bs < 2 ^ 62 ->
  exists e q1 w1 w' q', q_add_new_buf junk q (zlen bs) w = Ret ((Some e, q1), w1) /\
    ph_buf_copy_mem (ebuf e) bs 0 w1 = Ret (true, w') /\
    q' = set_last (with_wpos (zlen bs) e) q1 /\ queue_wf w' q' /\ plenty w' /\
    qbytes w' q' = qbytes w q ++ bs /\
    (forall p, safe w q p -> safe w' q' p /\ same_bytes w w' p).
Proof.
  intros [Hl Hf] Hpl Hbs. unfold q_add_new_buf.
  destruct (buf_mem_plenty w Hpl) as (o1 & H1 & Ho1). step_with H1. cbn [negb].
  destruct (buf_new_ok (set_oracle o1 w) (zlen bs) Ho1) as (p & st & l & w1 & Hnew & Hadd & Hroom); [lia|].
  step_with Hnew. step.
  assert (buf_size (zlen bs) = zlen bs) as Hsz.
  { unfold buf_size. by rewrite (proj2 (Z.eqb_neq _ _)) by lia. }
  rewrite Hsz in *. set (b := Buf 1 None st 0 (zlen bs)) in *.
  assert (fresh_ok (set_oracle o1 w)) as Hf0 by (destruct Hf; by split).
  assert (list_ok (set_oracle o1 w) (fifo q)) as Hl0.
  { apply (list_frame w); [done|]. intros e be m Hin He. exists be, m. split; [|done]. by destruct He as [[]]. }
  destruct (added_frame _ _ _ _ _ _ Hf0 Hadd eq_refl) as (Hf1 & Hkeep & Hlist).
  destruct (Hlist _ Hl0) as [Hl1 Hb1]. destruct Hadd as [Hbw Hsw Hpn Hstn Hplw].
  set (w2 := set_fresh (Pos.succ (fresh w1)) w1). set (e := Ent (fresh w1) p 0 0).
  assert (buf_ok w2 p b l) as Hpok.
  { split; simpl; rewrite ?Hbw, ?Hsw, ?lookup_insert_eq; try done; lia. }
  pose proof (copy_mem_ok w2 p b l bs 0 Hpok ltac:(lia) ltac:(simpl; lia)) as Hcp.
  set (l' := splice (Z.to_nat (off b + 0)) bs l) in Hcp. set (w' := set_stores _ w2) in Hcp.
  assert (length l' = length l) as Hl' by (apply length_splice; simpl; lia).
  assert (ent_ok w' (with_wpos (zlen bs) e) b l') as He'.
  { split; simpl; try done; try lia.
    split; simpl; rewrite ?Hbw, ?lookup_insert_eq; try done; lia. }
  assert (forall q0 bq lq, buf_ok w1 q0 bq lq -> store bq <> st -> buf_ok w' q0 bq lq) as Hkeep'.
  { intros q0 bq lq [] Hne. split; try done. simpl. by rewrite lookup_insert_ne. }
  assert (forall e1 b1 m1, e1 ∈ fifo q -> ent_ok w1 e1 b1 m1 ->
    ent_ok w' e1 b1 m1 /\ ebuf e1 <> p /\ store b1 <> st) as Hents.
  { intros e1 b1 m1 Hin He1. destruct (lo_ent _ _ Hl0 e1 Hin) as (b2 & m2 & He2).
    destruct (Hkeep _ _ _ (eo_buf _ _ _ _ He2)) as (Hk & Hne & Hns).
    pose proof (bo_buf _ _ _ _ Hk). pose proof (bo_buf _ _ _ _ (eo_buf _ _ _ _ He1)).
    assert (b1 = b2) as -> by congruence. split_and!; try done.
    destruct He1. split; try done. by apply Hkeep'. }
  destruct (list_frame w1 w' (fifo q) Hl1) as [Hlw Hbw'].
  { intros e1 b1 m1 Hin He1. destruct (Hents e1 b1 m1 Hin He1) as (He1' & _ & _).
    exists b1, m1. split; [done|]. split; [done|].
    by rewrite (proj1 (ebytes_eq _ _ _ _ He1)), (proj1 (ebytes_eq _ _ _ _ He1')). }
  assert (fifo (set_last (with_wpos (zlen bs) e) (set_fifo (fifo q ++ [e]) q)) =
          fifo q ++ [with_wpos (zlen bs) e]) as Hfifo by (simpl; by rewrite removelast_last).
  exists e, (set_fifo (fifo q ++ [e]) q), w2, w', (set_last (with_wpos (zlen bs) e) (set_fifo (fifo q ++ [e]) q)).
  split; [reflexivity|]. split; [exact Hcp|]. split; [done|]. split_and!.
  - unfold queue_wf. rewrite Hfifo. split.
    + eapply list_ok_snoc; [done|exact He'|]. intros e1 b1 m1 Hin He1.
      destruct (lo_ent _ _ Hl1 e1 Hin) as (b2 & m2 & He2). destruct (Hents _ _ _ Hin He2) as (He2' & Hne & Hns).
      pose proof (bo_buf _ _ _ _ (eo_buf _ _ _ _ He1)). pose proof (bo_buf _ _ _ _ (eo_buf _ _ _ _ He2')).
      assert (b1 = b2) as -> by congruence. done.
    + split; simpl; intros q0 Hq0.
      * pose proof (fo_bufs _ Hf1 q0 Hq0). lia.
      * destruct Hq0 as [x Hx]. apply lookup_insert_Some in Hx as [[<- _]|[_ Hx]]; [lia|].
        assert (q0 < fresh w1)%positive by (apply (fo_stores _ Hf1); eauto). lia.
  - exact Hplw.
  - unfold qbytes. rewrite Hfifo, lbytes_app, Hbw', Hb1. f_equal. unfold lbytes. simpl. rewrite app_nil_r.
    rewrite (proj1 (ebytes_eq _ _ _ _ He')). simpl. rewrite Z.sub_0_r. unfold l'. simpl.
    rewrite Nat2Z.id. apply slice_splice_same. lia.
  - intros p0 (b0 & l0 & Hb0 & _ & Hheld). assert (buf_ok (set_oracle o1 w) p0 b0 l0) as Hb0o by (by destruct Hb0).
    destruct (Hkeep _ _ _ Hb0o) as (Hk & Hne & Hns). pose proof (Hkeep' _ _ _ Hk Hns) as Hk'.
    split; [|by eapply same_bytes_intro]. exists b0, l0. split; [done|]. split.
    + intros e1 be1 He1 Hbe1 Hst1. rewrite Hfifo, last_snoc in He1. injection He1 as <-.
      simpl in Hbe1. rewrite Hbw, lookup_insert_eq in Hbe1. injection Hbe1 as <-. done.
    + intros e1 be1 Hin1 Hbe1 Hst1. simpl in Hbe1. rewrite Hbw in Hbe1.
      apply lookup_insert_Some in Hbe1 as [[_ <-]|[Hne1 Hbe1]]; [done|].
      rewrite Hfifo in Hin1. apply elem_of_app in Hin1 as [Hin1|Hin1%list_elem_of_singleton].
      * by apply (Hheld e1 be1).
      * subst e1. by destruct Hne1.
Qed.

Lemma same_bytes_trans w1 w2 w3 p : same_bytes w1 w2 p -> same_bytes w2 w3 p -> same_bytes w1 w3 p.
Proof. intros (x & H1 & H2) (y & H3 & H4). exists x. split; [done|]. rewrite H2 in H3. by simplify_eq. Qed.

(** Appending puts all bytes at the end of the queue, topping off the last entry
    first, and does not disturb the bytes of buffers that were handed out as
    windows on the queue's blocks. *)
Theorem bufq_append_spec w q buf :
  queue_wf w q -> plenty w -> zlen buf < 2 ^ 62 ->
  exists w' q', ph_bufq_append junk q buf w = Ret ((PH_OK, zlen buf, q'), w') /\
    queue_wf w' q' /\ qbytes w' q' = qbytes w q ++ buf /\
    forall p, safe w q p -> safe w' q' p /\ same_bytes w w' p.
Proof.
  intros Hwf Hpl Hlen. destruct (top_off_ok w q buf Hwf Hlen)
    as (n & q1 & w1 & Htop & Hn & Hwf1 & Hqb1 & Ho1 & _ & _ & Hsafe1 & _).
  unfold ph_bufq_append. step_with Htop.
  set (rest := drop (Z.to_nat n) buf). assert (zlen rest = zlen buf - n) as Hrl.
  { unfold rest. rewrite length_drop. lia. }
  destruct (zlen rest =? 0) eqn:E; zbool.
  - exists w1, q1. assert (n = zlen buf) as -> by lia. split; [done|]. split; [done|].
    rewrite Nat2Z.id, firstn_all in Hqb1. done.
  - assert (plenty w1) as Hpl1 by (unfold plenty; by rewrite Ho1).
    destruct (add_filled w1 q1 rest Hwf1 Hpl1) as (e & q2 & w2 & w' & q' & Hadd & Hcp & -> & Hwf' & _ & Hqb & Hsafe);
      [lia|].
    step_with Hadd. step_with Hcp. eexists _, _. split; [unfold ret; do 4 f_equal; lia|]. split; [done|].
    split; [rewrite Hqb, Hqb1, <- app_assoc; unfold rest; by rewrite take_drop|].
    intros p Hs. destruct (Hsafe1 p Hs) as [Hs1 Hsb1].
    destruct (Hsafe p Hs1) as [Hs' Hsb']. split; [done|]. by eapply same_bytes_trans.
Qed.

End proofs.

(** ** A concrete queue *)

Definition no_junk (_ : positive) (_ : nat) : Z := 0.

(** Two entries: bytes 1 to 3 of a full block and the first two of another. *)
Definition demo_w : bworld :=
  BWorld (<[1%positive := [1; 2; 3; 4]]> {[2%positive := [5; 6; 7; 8]]})
         (<[3%positive := Buf 1 None 1 0 4]> {[4%positive := Buf 1 None 2 0 4]}) 10 [].
Definition demo_q : ph_bufq := Bufq [Ent 5 3 1 4; Ent 6 4 0 2] 0 0 false 0 None [] 0.

Lemma demo_ents e : e ∈ fifo demo_q -> exists b m, ent_ok demo_w e b m /\ ref b = 1 /\ store b = Pos.pred (Pos.pred (ebuf e)).
Proof.
  intros [->|[->|?%elem_of_nil]%elem_of_cons]%elem_of_cons; [..|done]; eexists _, _; repeat split;
    (reflexivity || (simpl; lia)).
Qed.

Lemma demo_queue_wf : queue_wf demo_w demo_q.
Proof.
  split; [split|split].
  - intros e He. destruct (demo_ents e He) as (b & m & H & _). eauto.
  - by repeat (constructor; [set_solver|]); constructor.
  - intros e e' b b' He He' Hb Hb' Hst.
    assert (forall x, x ∈ fifo demo_q -> ebuf x = 3%positive \/ ebuf x = 4%positive) as Hx by set_solver.
    destruct (Hx e He) as [E|E], (Hx e' He') as [E'|E']; rewrite E in *; rewrite E' in *; try done;
      injection Hb as <-; injection Hb' as <-; discriminate Hst.
  - intros p [b Hb]. cbn [bufs stores demo_w] in Hb. apply lookup_insert_Some in Hb as [[<- _]|[_ Hb]]; [done|].
    apply lookup_singleton_Some in Hb as [<- _]. done.
  - intros p [b Hb]. cbn [bufs stores demo_w] in Hb. apply lookup_insert_Some in Hb as [[<- _]|[_ Hb]]; [done|].
    apply lookup_singleton_Some in Hb as [<- _]. done.
Qed.

Lemma demo_plenty : plenty demo_w.
Proof. constructor. Qed.

Lemma bufq_append_spec_witness :
  exists w' q', ph_bufq_append no_junk demo_q [20; 21; 22] demo_w = Ret ((PH_OK, 3, q'), w') /\
    queue_wf w' q' /\ qbytes w' q' = [2; 3; 4; 5; 6; 20; 21; 22] /\
    forall p, safe demo_w demo_q p -> safe w' q' p /\ same_bytes demo_w w' p.
Proof. exact (bufq_append_spec no_junk demo_w demo_q [20; 21; 22] demo_queue_wf demo_plenty ltac:(simpl; lia)). Defined.

(** Concatenating several buffers works without an offset into the first, and
    fails with one: the first copy asks for more than the buffer has behind the
    offset. *)
Theorem concat_offset_fails :
  match ph_buf_concat no_junk 0 [3%positive; 4%positive] 0 demo_w with
  | Ret (Some d, w') => buf_bytes d w' = Ret ([1; 2; 3; 4; 5; 6; 7; 8], w')
  | _ => False
  end /\
  match ph_buf_concat no_junk 0 [3%positive; 4%positive] 1 demo_w with
  | Ret (r, _) => r = None
  | _ => False
  end.
Proof. split; vm_compute; reflexivity. Qed.

End BufQueueProofs.
