(* ===== verification/BufConsume.v ===== *)
(** * Taking bytes out of a buffer queue

    Consuming and peeking return the first bytes of the queue in one buffer:
    a window on the block of the only entry, or a copy gathered from several
    entries.  What is handed out stays readable while the queue goes on. *)

From Stdlib Require Import ZArith Lia.
From stdpp Require Import base numbers list gmap.
From S2P Require Import Prelude SysUtil Buffer BufQueue BufQueueProofs.

Module BufConsume.
Export BufQueueProofs.

Section consume.
Context (junk : positive -> nat -> Z).
Implicit Types w : bworld.

(** ** Dropping a reference *)

(** [w1] is [w] after one reference to the unsliced buffer [p] went away. *)
Record dropped w w1 (p : positive) (b : ph_buf) : Prop := {
  dr_fresh : fresh w1 = fresh w;
  dr_oracle : oracle w1 = oracle w;
  dr_bufs : forall q, q <> p -> bufs w1 !! q = bufs w !! q;
  dr_stores : forall s, s <> store b -> stores w1 !! s = stores w !! s;
  dr_more : 2 <= ref b -> stores w1 = stores w /\
    bufs w1 !! p = Some (Buf (ref b - 1) None (store b) (off b) (size b));
  dr_last : ref b = 1 -> stores w1 !! store b = None /\ bufs w1 !! p = None;
}.

Lemma delref_ok w p b : bufs w !! p = Some b -> slice_of b = None -> 1 <= ref b < 2 ^ 31 ->
  exists w1, ph_buf_delref p w = Ret (tt, w1) /\ dropped w w1 p b.
Proof.
  intros Hb Hs Hr. unfold ph_buf_delref. cbn [delref_loop].
  step_with (load_buf_eq w p b Hb). unfold ph_refcnt_del. rewrite (wrapS_small 32) by lia.
  step. rewrite Hs. destruct (ref b =? 1) eqn:E; zbool; cbn [negb].
  - step. eexists. split; [reflexivity|]. split; simpl; try done; try lia.
    + intros q Hq. by rewrite lookup_delete_ne, lookup_insert_ne.
    + intros s Hne. by rewrite lookup_delete_ne.
    + by rewrite !lookup_delete_eq.
  - eexists. split; [reflexivity|]. split; simpl; try done; try lia.
    + intros q Hq. by rewrite lookup_insert_ne.
    + by rewrite lookup_insert_eq.
Qed.

Lemma dropped_fresh w w1 p b l : dropped w w1 p b -> buf_ok w p b l -> fresh_ok w -> fresh_ok w1.
Proof.
  intros Hd Hb Hf. destruct Hb. split.
  - intros q Hq. rewrite (dr_fresh _ _ _ _ Hd). apply (fo_bufs _ Hf).
    destruct (decide (q = p)) as [->|Hne]; [eauto|]. by rewrite <- (dr_bufs _ _ _ _ Hd).
  - intros s Hs. rewrite (dr_fresh _ _ _ _ Hd). apply (fo_stores _ Hf).
    destruct (decide (s = store b)) as [->|Hne]; [eauto|]. by rewrite <- (dr_stores _ _ _ _ Hd).
Qed.

(** The same window on the same block. *)
Definition same_window (b b' : ph_buf) : Prop :=
  store b' = store b /\ off b' = off b /\ size b' = size b.

Lemma dropped_keeps w w1 p b q bq lq :
  dropped w w1 p b -> bufs w !! p = Some b -> 1 <= ref b -> buf_ok w q bq lq ->
  (store bq = store b -> 2 <= ref b) ->
  exists bq', buf_ok w1 q bq' lq /\ same_window bq bq'.
Proof.
  intros Hd Hp Hr Hq Hne. pose proof Hq as [Hb Hs Ho Hz Hw].
  destruct (decide (ref b = 1)) as [E|E].
  - exists bq. split; [|done]. assert (store bq <> store b) as Hst by lia.
    assert (q <> p) by congruence.
    split; rewrite ?(dr_bufs _ _ _ _ Hd), ?(dr_stores _ _ _ _ Hd); done.
  - destruct (dr_more _ _ _ _ Hd) as [Hs1 Hp1]; [lia|].
    destruct (decide (q = p)) as [->|Hqp].
    + assert (bq = b) as -> by congruence. eexists. split; [split; [exact Hp1|..]|done]; simpl; rewrite ?Hs1; done.
    + exists bq. split; [|done]. split; rewrite ?(dr_bufs _ _ _ _ Hd), ?Hs1; done.
Qed.

(** Entries with other buffers and blocks do not notice. *)
Lemma dropped_list w w1 p b l : dropped w w1 p b -> list_ok w l ->
  (forall e be m, e ∈ l -> ent_ok w e be m -> ebuf e <> p /\ store be <> store b) ->
  list_ok w1 l /\ lbytes w1 l = lbytes w l.
Proof.
  intros Hd Hl Hne. apply list_frame; [done|]. intros e be m Hin He.
  destruct (Hne e be m Hin He) as [Hp Hs]. pose proof He as [[] ? ? ? ?].
  destruct (ent_ok_frame w w1 e be m be m He) as [He1 Hb1]; try done.
  - by rewrite (dr_bufs _ _ _ _ Hd).
  - by rewrite (dr_stores _ _ _ _ Hd).
  - eauto.
Qed.

Lemma list_ok_tail w e l : list_ok w (e :: l) -> list_ok w l.
Proof. apply (list_ok_app_r w [e] l). Qed.

Lemma list_ok_apart w e b m l : list_ok w (e :: l) -> ent_ok w e b m ->
  forall e1 b1 m1, e1 ∈ l -> ent_ok w e1 b1 m1 -> ebuf e1 <> ebuf e /\ store b1 <> store b.
Proof.
  intros Hl He e1 b1 m1 Hin He1. assert (ebuf e1 <> ebuf e) as Hne.
  { pose proof (lo_nodup _ _ Hl) as Hn. apply NoDup_cons in Hn as [Hn _]. intros Heq. apply Hn.
    rewrite <- Heq. by apply list_elem_of_fmap_2. }
  split; [done|]. intros Hst. apply Hne.
  eapply (lo_stores _ _ Hl e1 e); [by right|by left|apply He1|apply He|done].
Qed.

(** ** Pruning *)

(** The blocks that [b] looks into are referenced by more than the queue. *)
Definition held w (l : list ph_bufq_ent) (b : ph_buf) : Prop :=
  forall e be, e ∈ l -> bufs w !! ebuf e = Some be -> store b = store be -> 2 <= ref be.

Lemma gc_loop_ok w l : list_ok w l -> fresh_ok w ->
  exists l' w', gc_loop l w = Ret (l', w') /\ list_ok w' l' /\ fresh_ok w' /\
    lbytes w' l' = lbytes w l /\ oracle w' = oracle w /\ l' `suffix_of` l /\
    (forall e, e ∈ l' -> bufs w' !! ebuf e = bufs w !! ebuf e) /\
    (forall p b m, buf_ok w p b m -> held w l b -> exists b', buf_ok w' p b' m /\ same_window b b').
Proof.
  revert w. induction l as [|e l IH]; intros w Hl Hf.
  { exists [], w. split_and!; try done. intros p b m Hb _. by exists b. }
  assert (forall p b m, buf_ok w p b m -> held w (e :: l) b -> exists b', buf_ok w p b' m /\ same_window b b')
    as Hid by (intros p b m Hb _; by exists b).
  cbn [gc_loop]. destruct (rpos e =? wpos e) eqn:Ep; cbn [negb].
  2:{ by exists (e :: l), w. }
  zbool. destruct (lo_ent _ _ Hl e ltac:(by left)) as (be & m & He). pose proof He as [Hbo Hpos Hwp Href Hsl].
  pose proof (bo_buf _ _ _ _ Hbo) as Hb. step_with (ph_buf_len_eq w (ebuf e) be Hb).
  case_bool; [by exists (e :: l), w|].
  destruct (delref_ok w (ebuf e) be Hb Hsl ltac:(lia)) as (w1 & Hd & Hdr). step_with Hd.
  pose proof (list_ok_apart _ _ _ _ _ Hl He) as Hap. pose proof (list_ok_tail _ _ _ Hl) as Hl0.
  destruct (dropped_list _ _ _ _ l Hdr Hl0 Hap) as [Hl1 Hb1].
  destruct (IH w1 Hl1 (dropped_fresh _ _ _ _ _ Hdr Hbo Hf)) as (l' & w' & Hgc & Hl' & Hf' & Hb' & Ho' & [k Hk] & Hbufs & Hkeep).
  exists l', w'. split_and!; try done.
  - rewrite Hb', Hb1, lbytes_cons, (proj1 (ebytes_eq _ _ _ _ He)), Ep, Z.sub_diag. done.
  - rewrite Ho'. apply Hdr.
  - exists (e :: k). by rewrite Hk.
  - intros e1 Hin1. rewrite Hbufs by done. apply (dr_bufs _ _ _ _ Hdr).
    assert (e1 ∈ l) as Hin by (rewrite Hk; apply elem_of_app; by right).
    destruct (lo_ent _ _ Hl0 e1 Hin) as (b1 & m1 & He1). by apply (Hap e1 b1 m1).
  - intros p b m0 Hpb Hheld.
    destruct (dropped_keeps w w1 _ be p b m0 Hdr Hb ltac:(lia) Hpb) as (b1 & Hb1' & Hw1 & Hw2 & Hw3).
    { intros Hst. apply (Hheld e be); [by left|done|done]. }
    destruct (Hkeep p b1 m0 Hb1') as (b2 & Hb2 & Hx1 & Hx2 & Hx3).
    { intros e1 be1 Hin1 Hbe1 Hst1. destruct (lo_ent _ _ Hl0 e1 Hin1) as (c1 & m1 & He1).
      destruct (Hap e1 c1 m1 Hin1 He1) as [Hne _]. rewrite (dr_bufs _ _ _ _ Hdr) in Hbe1 by done.
      apply (Hheld e1 be1); [by right|done|congruence]. }
    exists b2. split; [done|]. unfold same_window. by rewrite Hx1, Hx2, Hx3.
Qed.

Lemma last_suffix {A} (l l' : list A) x : l' `suffix_of` l -> last l' = Some x -> last l = Some x.
Proof.
  intros [k ->]. rewrite last_app. by intros ->.
Qed.

Lemma suffix_in {A} (l l' : list A) x : l' `suffix_of` l -> x ∈ l' -> x ∈ l.
Proof. intros [k ->] H. apply elem_of_app. by right. Qed.

Lemma apart_window w q b b' : same_window b b' -> apart w q b -> apart w q b'.
Proof. intros (H1 & H2 & H3) [Ha Hh]. unfold apart. by rewrite H1, H2, H3. Qed.

(** Buffers handed out keep their window, their block and their distance from
    the queue. *)
Definition carries w q w' q' : Prop :=
  forall p b m, buf_ok w p b m -> apart w q b ->
    exists b', buf_ok w' p b' m /\ same_window b b' /\ apart w' q' b'.

Lemma carries_trans w1 q1 w2 q2 w3 q3 :
  carries w1 q1 w2 q2 -> carries w2 q2 w3 q3 -> carries w1 q1 w3 q3.
Proof.
  intros H12 H23 p b m Hb Ha. destruct (H12 p b m Hb Ha) as (b' & Hb' & (E1 & E2 & E3) & Ha').
  destruct (H23 p b' m Hb' Ha') as (b2 & Hb2 & (F1 & F2 & F3) & Ha2).
  exists b2. split; [done|]. split; [|done]. unfold same_window. by rewrite F1, F2, F3.
Qed.

Lemma same_window_bytes b b' m : same_window b b' -> window b' m = window b m.
Proof. intros (_ & E2 & E3). unfold window. by rewrite E2, E3. Qed.

Lemma carries_safe w q w' q' p : carries w q w' q' -> safe w q p -> safe w' q' p /\ same_bytes w w' p.
Proof.
  intros Hc (b & m & Hb & Ha). destruct (Hc p b m Hb Ha) as (b' & Hb' & Hw & Ha').
  split; [by exists b', m|]. exists (window b m). split; [by apply buf_bytes_eq|].
  rewrite <- (same_window_bytes b b' m Hw). by apply buf_bytes_eq.
Qed.

Lemma gc_ok w q : queue_wf w q ->
  exists q' w', gc_bufq q w = Ret (q', w') /\ queue_wf w' q' /\ qbytes w' q' = qbytes w q /\
    oracle w' = oracle w /\ carries w q w' q'.
Proof.
  intros [Hl Hf]. unfold gc_bufq.
  destruct (gc_loop_ok w (fifo q) Hl Hf) as (l' & w' & Hgc & Hl' & Hf' & Hb & Ho & Hsuf & Hbufs & Hkeep).
  step_with Hgc. exists (set_fifo l' q), w'. split; [done|]. split; [done|]. split; [done|]. split; [done|].
  intros p b m Hpb [Ha Hh]. destruct (Hkeep p b m Hpb Hh) as (b' & Hb' & Hw).
  exists b'. split; [done|]. split; [done|]. apply (apart_window _ _ b); [done|]. split; simpl.
  - intros e be He Hbe. apply Ha; [by eapply last_suffix|].
    rewrite <- Hbufs; [done|]. apply last_Some in He as [l0 ->]. apply elem_of_app. right. by apply list_elem_of_singleton.
  - intros e be He Hbe. apply (Hh e); [by eapply suffix_in|]. by rewrite <- Hbufs.
Qed.

(** ** Moving read positions *)

Definition advanced (e e' : ph_bufq_ent) : Prop :=
  ebuf e' = ebuf e /\ wpos e' = wpos e /\ rpos e <= rpos e' <= wpos e.

Lemma advanced_refl w e b m : ent_ok w e b m -> advanced e e.
Proof. intros []. by split_and!; try lia. Qed.

Lemma advanced_list_refl w l : list_ok w l -> Forall2 advanced l l.
Proof.
  intros Hl. induction l as [|e l IH]; constructor; [|by apply IH, (list_ok_tail w e)].
  destruct (lo_ent _ _ Hl e ltac:(by left)) as (b & m & He). by eapply advanced_refl.
Qed.

Lemma advanced_ebuf l l' : Forall2 advanced l l' -> ebuf <$> l' = ebuf <$> l.
Proof. induction 1 as [|e e' l l' (H & _ & _) _ IH]; [done|]. rewrite !fmap_cons, H. by f_equal. Qed.

Lemma advanced_in l l' e' : Forall2 advanced l l' -> e' ∈ l' -> exists e, e ∈ l /\ advanced e e'.
Proof.
  induction 1 as [|e1 e2 l l' He _ IH]; [by intros ?%elem_of_nil|].
  intros [->|Hin]%elem_of_cons; [exists e1; split; [by left|done]|].
  destruct (IH Hin) as (e & ? & ?). exists e. split; [by right|done].
Qed.

Lemma advanced_last l l' e' : Forall2 advanced l l' -> last l' = Some e' ->
  exists e, last l = Some e /\ advanced e e'.
Proof.
  induction 1 as [|e1 e2 l l' He Hall IH]; [done|].
  destruct Hall as [|e3 e4 l l' He' Hall]; simpl; [intros [= <-]; by exists e1|]. exact IH.
Qed.

Lemma ent_ok_advanced w e e' b m : ent_ok w e b m -> advanced e e' -> ent_ok w e' b m.
Proof. intros [] (H1 & H2 & H3). split; rewrite ?H1, ?H2; try done; lia. Qed.

Lemma advanced_ok w l l' : list_ok w l -> Forall2 advanced l l' -> list_ok w l'.
Proof.
  intros Hl Ha. split.
  - intros e' Hin. destruct (advanced_in _ _ _ Ha Hin) as (e & Hin0 & He).
    destruct (lo_ent _ _ Hl e Hin0) as (b & m & Hok). exists b, m. by eapply ent_ok_advanced.
  - rewrite (advanced_ebuf _ _ Ha). apply Hl.
  - intros e1 e2 b1 b2 H1 H2. destruct (advanced_in _ _ _ Ha H1) as (x1 & Hx1 & -> & _).
    destruct (advanced_in _ _ _ Ha H2) as (x2 & Hx2 & -> & _). by apply (lo_stores _ _ Hl).
Qed.

Lemma advanced_apart w q q' b : Forall2 advanced (fifo q) (fifo q') -> apart w q b -> apart w q' b.
Proof.
  intros Ha [Hl Hh]. split.
  - intros e' be He'. destruct (advanced_last _ _ _ Ha He') as (e & He & -> & -> & _). by apply Hl.
  - intros e' be He'. destruct (advanced_in _ _ _ Ha He') as (e & He & -> & _). by apply Hh.
Qed.

(** Reading [n] bytes off the front of an entry. *)
Lemma ebytes_advance w e b m n : ent_ok w e b m -> 0 <= n <= wpos e - rpos e ->
  slice (Z.to_nat (off b + rpos e)) (Z.to_nat n) m = take (Z.to_nat n) (ebytes w e) /\
  ebytes w (with_rpos (rpos e + n) e) = drop (Z.to_nat n) (ebytes w e).
Proof.
  intros He Hn. assert (ent_ok w (with_rpos (rpos e + n) e) b m) as He'.
  { eapply ent_ok_advanced; [done|]. destruct He. split_and!; simpl; try done; lia. }
  rewrite (proj1 (ebytes_eq _ _ _ _ He)), (proj1 (ebytes_eq _ _ _ _ He')). simpl.
  destruct He as [[] ? ? ? ?]. unfold slice. split.
  - rewrite take_take. f_equal. lia.
  - rewrite skipn_firstn_comm, drop_drop. f_equal; [lia|]. f_equal. lia.
Qed.

(** ** Gathering from several entries *)

(** No entry lives in the block [st]. *)
Definition avoids w (l : list ph_bufq_ent) (st : positive) : Prop :=
  forall e be m, e ∈ l -> ent_ok w e be m -> store be <> st.

Lemma store_frame w l st x : list_ok w l -> avoids w l st ->
  let w' := set_stores <[st := x]> w in
  list_ok w' l /\ avoids w' l st /\ forall l', Forall2 advanced l l' -> lbytes w' l' = lbytes w l'.
Proof.
  intros Hl Hne w'.
  assert (forall e be m, e ∈ l -> ent_ok w e be m -> ent_ok w' e be m /\ ebytes w' e = ebytes w e) as Hent.
  { intros e be m Hin He. pose proof (Hne e be m Hin He). pose proof He as [[] ? ? ? ?].
    apply (ent_ok_frame w w' e be m be m He); try done. simpl. by rewrite lookup_insert_ne. }
  destruct (list_frame w w' l Hl) as [Hl' _].
  { intros e be m Hin He. destruct (Hent e be m Hin He). eauto. }
  split; [done|]. split.
  - intros e be m Hin He. destruct (lo_ent _ _ Hl e Hin) as (b & m0 & Hok).
    pose proof (bo_buf _ _ _ _ (eo_buf _ _ _ _ He)) as H1. pose proof (bo_buf _ _ _ _ (eo_buf _ _ _ _ Hok)) as H2.
    simpl in H1. assert (be = b) as -> by congruence. by eapply Hne.
  - intros l2 Ha. unfold lbytes. f_equal. apply list_fmap_ext. intros i e' Hi.
    apply list_elem_of_lookup_2 in Hi. destruct (advanced_in _ _ _ Ha Hi) as (e & Hin & Had).
    destruct (lo_ent _ _ Hl e Hin) as (b & m0 & Hok). pose proof (ent_ok_advanced _ _ _ _ _ Hok Had) as Hok2.
    destruct (Hent e b m0 Hin Hok) as [Hok1 _]. pose proof (ent_ok_advanced _ _ _ _ _ Hok1 Had) as Hok3.
    by rewrite (proj1 (ebytes_eq _ _ _ _ Hok2)), (proj1 (ebytes_eq _ _ _ _ Hok3)).
Qed.

Lemma avoids_tail w e l st : avoids w (e :: l) st -> avoids w l st.
Proof. intros H e' be m Hin. apply H. by right. Qed.

(** One step: [n] bytes from the front of an entry to position [next] of the
    destination. *)
Lemma slice_step w e be m d bd ld n next :
  ent_ok w e be m -> buf_ok w d bd ld -> 0 <= n <= wpos e - rpos e -> 0 <= next -> next + n <= size bd ->
  exists ld', ph_buf_copy (ebuf e) d (rpos e) n next w = Ret (true, set_stores <[store bd := ld']> w) /\
    length ld' = length ld /\
    slice (Z.to_nat (off bd)) (Z.to_nat (next + n)) ld' =
    slice (Z.to_nat (off bd)) (Z.to_nat next) ld ++ take (Z.to_nat n) (ebytes w e).
Proof.
  intros He Hd Hn Hx Hfit. pose proof He as [Hbo Hpos Hwp Href Hsl]. pose proof Hd as [? ? Ho Hz Hw].
  rewrite (copy_ok w (ebuf e) be m d bd ld (rpos e) n next Hbo Hd) by lia.
  destruct (ebytes_advance w e be m n He ltac:(lia)) as [-> _].
  assert (length (take (Z.to_nat n) (ebytes w e)) = Z.to_nat n) as Htk.
  { pose proof (proj2 (ebytes_eq _ _ _ _ He)). rewrite length_take. lia. }
  eexists. split; [reflexivity|]. split; [apply length_splice; lia|].
  rewrite !Z2Nat.inj_add by lia. rewrite <- Htk at 1. apply slice_splice_extend. lia.
Qed.

Lemma slice_loop_ok l : forall w d bd ld len next consume,
  list_ok w l -> avoids w l (store bd) -> buf_ok w d bd ld -> len = size bd -> 0 <= next < len ->
  len - next <= zlen (lbytes w l) ->
  exists l' ld', slice_loop l d len next consume w = Ret (l', set_stores <[store bd := ld']> w) /\
    length ld' = length ld /\
    slice (Z.to_nat (off bd)) (Z.to_nat len) ld' =
      slice (Z.to_nat (off bd)) (Z.to_nat next) ld ++ take (Z.to_nat (len - next)) (lbytes w l) /\
    Forall2 advanced l l' /\
    lbytes w l' = if (consume : bool) then drop (Z.to_nat (len - next)) (lbytes w l) else lbytes w l.
Proof.
  induction l as [|e l IH]; intros w d bd ld len next consume Hl Hav Hd -> Hnx Hlen; [simpl in Hlen; lia|].
  destruct (lo_ent _ _ Hl e ltac:(by left)) as (be & m & He). pose proof He as [Hbo Hpos Hwp Href Hsl].
  pose proof (proj2 (ebytes_eq _ _ _ _ He)) as Hel. rewrite lbytes_cons in *. rewrite length_app in Hlen.
  cbn [slice_loop]. rewrite MIN_min. set (n := Z.min (wpos e - rpos e) (size bd - next)).
  destruct (slice_step w e be m d bd ld n next He Hd) as (ld1 & Hcp & Hl1 & Hs1); [lia..|].
  step_with Hcp. set (e' := if consume then with_rpos (rpos e + n) e else e).
  destruct (ebytes_advance w e be m n He ltac:(lia)) as [_ Hadv].
  assert (advanced e e') as Hee' by (unfold e'; destruct consume; split_and!; simpl; try done; lia).
  assert (ebytes w e' = if consume then drop (Z.to_nat n) (ebytes w e) else ebytes w e) as Heb'.
  { unfold e'. by destruct consume. }
  pose proof (list_ok_tail _ _ _ Hl) as Hl0. pose proof (avoids_tail _ _ _ _ Hav) as Hav0.
  destruct (next + n =? size bd) eqn:E; zbool.
  - exists (e' :: l), ld1. split; [done|]. split; [done|]. split.
    { rewrite <- E at 1. rewrite Hs1. f_equal. rewrite take_app_le by lia. f_equal. lia. }
    split; [constructor; [done|by eapply advanced_list_refl]|].
    rewrite lbytes_cons, Heb'. destruct consume; [|done]. rewrite drop_app_le by lia. do 2 f_equal. lia.
  - assert (n = wpos e - rpos e) as Hn by lia.
    destruct (store_frame w l (store bd) ld1 Hl0 Hav0) as (Hl1' & Hav1 & Hlb1).
    assert (buf_ok (set_stores <[store bd := ld1]> w) d bd ld1) as Hd1.
    { destruct Hd. split; try done; [|lia]. simpl. by rewrite lookup_insert_eq. }
    pose proof (Hlb1 l (advanced_list_refl _ _ Hl0)) as Hlb.
    destruct (IH _ d bd ld1 (size bd) (next + n) consume Hl1' Hav1 Hd1 eq_refl)
      as (l' & ld' & Hsl' & Hlen' & Hs' & Hall & Hb'); [lia|rewrite Hlb; lia|].
    rewrite Hlb in Hs', Hb'. rewrite Hlb1 in Hb' by done.
    step_with Hsl'. exists (e' :: l'), ld'. split.
    { unfold ret, set_stores. simpl. by rewrite insert_insert_eq. }
    split; [lia|]. split.
    { rewrite Hs', Hs1, <- app_assoc. f_equal. rewrite (firstn_all2 (ebytes w e)) by lia.
      rewrite take_app_ge by lia. do 2 f_equal. lia. }
    split; [by constructor|]. rewrite lbytes_cons, Heb', Hb'. destruct consume; [|done].
    rewrite (skipn_all2 (ebytes w e)) by lia. rewrite drop_app_ge by lia. simpl. f_equal. lia.
Qed.

(** ** A window on one entry *)

(** [w1] is [w] with one more reference to [p], and possibly a new buffer. *)
Record shared w w1 (p : positive) (b : ph_buf) : Prop := {
  sh_stores : stores w1 = stores w;
  sh_buf : bufs w1 !! p = Some (Buf (ref b + 1) (slice_of b) (store b) (off b) (size b));
  sh_bufs : forall q, q <> p -> is_Some (bufs w !! q) -> bufs w1 !! q = bufs w !! q;
  sh_fresh : fresh_ok w1;
}.

Lemma buf_slice_ok w p b l start len :
  buf_ok w p b l -> plenty w -> fresh_ok w -> 0 <= start -> 0 < len -> start + len <= size b ->
  1 <= ref b < 2 ^ 31 - 2 ->
  exists r br w1, ph_buf_slice p start len w = Ret (Some r, w1) /\ buf_ok w1 r br l /\
    store br = store b /\ off br = off b + start /\ size br = len /\ shared w w1 p b.
Proof.
  intros Hbo Hpl Hf Hs Hl Hfit Hr. pose proof Hbo as [Hb Hst Ho Hz Hw]. unfold ph_buf_slice.
  step_with (load_buf_eq w p b Hb).
  rewrite (proj2 (Z.eqb_neq len 0)), (wrapU_small 64), (proj2 (Z.ltb_ge _ _)) by lia. cbn [andb].
  set (b1 := Buf (ref b + 1) (slice_of b) (store b) (off b) (size b)).
  assert (forall w0, bufs w0 !! p = Some b ->
    ph_buf_addref p w0 = Ret (tt, set_bufs <[p := b1]> w0)) as Hadd.
  { intros w0 H0. unfold ph_buf_addref. step_with (load_buf_eq w0 p b H0).
    unfold ph_refcnt_add. by rewrite (wrapS_small 32) by lia. }
  destruct ((start =? 0) && (len =? size b)) eqn:E; zbool.
  - step_with (Hadd w Hb).
    exists p, b1, (set_bufs <[p := b1]> w). split; [done|]. split.
    { split; simpl; try done. by rewrite lookup_insert_eq. }
    split; [done|]. split; [simpl; lia|]. split; [simpl; lia|]. split; simpl; [done|by rewrite lookup_insert_eq|..].
    + intros q Hq _. by rewrite lookup_insert_ne.
    + split; [|apply Hf]. simpl. intros q [x Hx]. apply (fo_bufs _ Hf).
      apply lookup_insert_Some in Hx as [[<- _]|[_ Hx]]; eauto.
  - destruct (buf_mem_plenty w Hpl) as (o1 & H1 & Ho1). step_with H1. cbn [negb]. step.
    set (w0 := set_fresh (Pos.succ (fresh w)) (set_oracle o1 w)).
    simpl. step_with (Hadd w0 Hb). step. assert (p <> fresh w) as Hpf.
    { intros ->. pose proof (fo_bufs _ Hf (fresh w) ltac:(eauto)). lia. }
    eexists (fresh w), (Buf 1 (Some p) (store b) (off b + start) len), _. split; [reflexivity|]. split.
    { split; simpl; [by rewrite lookup_insert_eq|done|lia..]. }
    split; [done|]. split; [done|]. split; [done|]. split; simpl; [done|..].
    + by rewrite lookup_insert_ne, lookup_insert_eq by done.
    + intros q Hq Hsome. pose proof (fo_bufs _ Hf q Hsome). by rewrite !lookup_insert_ne by (done || lia).
    + split; simpl.
      * intros q [x Hx]. apply lookup_insert_Some in Hx as [[<- _]|[_ Hx]]; [lia|].
        assert (q < fresh w)%positive; [|lia]. apply (fo_bufs _ Hf).
        apply lookup_insert_Some in Hx as [[<- _]|[_ Hx]]; eauto.
      * intros q Hq. pose proof (fo_stores _ Hf q Hq). lia.
Qed.

Lemma shared_queue w w1 q e b m :
  queue_wf w q -> fifo q = [e] -> ent_ok w e b m -> ref b < 2 ^ 31 - 2 -> shared w w1 (ebuf e) b ->
  queue_wf w1 q /\ ent_ok w1 e (Buf (ref b + 1) None (store b) (off b) (size b)) m /\
  ebytes w1 e = ebytes w e /\ carries w q w1 q.
Proof.
  intros [Hl Hf] Hq He Hr [Hs Hb Hbs Hf1]. pose proof He as [[Hb0 Hst Ho Hz Hw] Hpos Hwp Href Hsl].
  rewrite Hsl in Hb. destruct (ent_ok_frame w w1 e b m _ m He Hb) as [He1 Heb]; simpl; try done; [lia|by rewrite Hs|].
  split_and!; try done.
  - split; [|done]. rewrite Hq in *. split.
    + intros e1 ->%list_elem_of_singleton. eauto.
    + apply Hl.
    + by intros e1 e2 b1 b2 ->%list_elem_of_singleton ->%list_elem_of_singleton.
  - intros p b0 m0 [Hp Hps Hpo Hpz Hpw] [Ha Hh].
    assert (forall b', same_window b0 b' -> apart w1 q b') as Hap.
    { intros b' Hw'. apply (apart_window _ _ b0 b' Hw'). split; rewrite Hq.
      - intros e1 be [= <-]. rewrite Hb. intros [= <-]. simpl. apply Ha; [by rewrite Hq|done].
      - intros e1 be ->%list_elem_of_singleton. rewrite Hb. intros [= <-]. simpl. lia. }
    destruct (decide (p = ebuf e)) as [->|Hne].
    + assert (b0 = b) as -> by congruence. eexists. split; [split; [exact Hb|..]; simpl; rewrite ?Hs; done|].
      split; [done|]. by apply Hap.
    + exists b0. split; [|split; [done|by apply Hap]]. split; rewrite ?Hs, ?Hbs; eauto.
Qed.

(** ** The length *)

Lemma bufq_len_eq w q : list_ok w (fifo q) -> zlen (qbytes w q) < 2 ^ 64 -> bufq_len q = zlen (qbytes w q).
Proof.
  unfold bufq_len, qbytes. intros Hl.
  enough (forall l a, list_ok w l -> 0 <= a -> a + zlen (lbytes w l) < 2 ^ 64 ->
    foldl (fun avail e => u64 (avail + (wpos e - rpos e))) a l = a + zlen (lbytes w l)) as H.
  { intros Hlen. rewrite H; (done || lia). }
  clear Hl. induction l as [|e l IH]; intros a Hl Ha Hlen; [simpl; lia|].
  destruct (lo_ent _ _ Hl e ltac:(by left)) as (b & m & He).
  pose proof (proj2 (ebytes_eq _ _ _ _ He)) as Hel. rewrite lbytes_cons, length_app in *.
  pose proof (eo_pos _ _ _ _ He).
  cbn [foldl]. rewrite (wrapU_small 64) by lia. rewrite IH; [lia|by eapply list_ok_tail|lia|lia].
Qed.

(** The reference counts of the entries have room for one more. *)
Definition refs_room w (q : ph_bufq) : Prop :=
  forall e b, e ∈ fifo q -> bufs w !! ebuf e = Some b -> ref b < 2 ^ 31 - 2.

(** What taking [len] bytes off the front achieves. *)
Definition taken w q (len : Z) (consume : bool) (r : positive) w' q' : Prop :=
  queue_wf w' q' /\
  buf_bytes r w' = Ret (take (Z.to_nat len) (qbytes w q), w') /\
  qbytes w' q' = (if consume then drop (Z.to_nat len) (qbytes w q) else qbytes w q) /\
  safe w' q' r /\ forall p, safe w q p -> safe w' q' p /\ same_bytes w w' p.

(** Pruning keeps what is in the result buffer. *)
Lemma taken_gc w q len w1 q1 r br m :
  carries w q w1 q1 -> queue_wf w1 q1 -> buf_ok w1 r br m -> apart w1 q1 br ->
  window br m = take (Z.to_nat len) (qbytes w q) -> qbytes w1 q1 = drop (Z.to_nat len) (qbytes w q) ->
  exists q' w', gc_bufq q1 w1 = Ret (q', w') /\ taken w q len true r w' q'.
Proof.
  intros Hc Hwf Hr Ha Hwin Hqb. destruct (gc_ok w1 q1 Hwf) as (q' & w' & Hgc & Hwf' & Hqb' & _ & Hc').
  exists q', w'. split; [done|]. destruct (Hc' r br m Hr Ha) as (br' & Hr' & Hw' & Ha').
  split; [done|]. split; [|split; [by rewrite Hqb', Hqb|split; [by exists br', m|]]].
  - rewrite (buf_bytes_eq _ _ _ _ Hr'). by rewrite (same_window_bytes _ _ _ Hw'), Hwin.
  - intros p. apply carries_safe. by eapply carries_trans.
Qed.

Lemma taken_keep w q len w1 q1 r br m :
  carries w q w1 q1 -> queue_wf w1 q1 -> buf_ok w1 r br m -> apart w1 q1 br ->
  window br m = take (Z.to_nat len) (qbytes w q) -> qbytes w1 q1 = qbytes w q ->
  taken w q len false r w1 q1.
Proof.
  intros Hc Hwf Hr Ha Hwin Hqb. split; [done|]. split; [|split; [done|split; [by exists br, m|]]].
  - by rewrite (buf_bytes_eq _ _ _ _ Hr), Hwin.
  - intros p. by apply carries_safe.
Qed.

Lemma carries_advanced w q q' : Forall2 advanced (fifo q) (fifo q') -> carries w q w q'.
Proof. intros Ha p b m Hb Hap. exists b. split; [done|]. split; [done|]. by eapply advanced_apart. Qed.

(** The queue has one entry. *)
Lemma slice_one w q e len consume :
  queue_wf w q -> plenty w -> fifo q = [e] -> refs_room w q -> 0 < len <= zlen (qbytes w q) ->
  zlen (qbytes w q) < 2 ^ 62 ->
  exists r w' q', slice_bufq junk q len consume w = Ret ((Some r, q'), w') /\ taken w q len consume r w' q'.
Proof.
  intros Hwf Hpl Hq Hroom Hlen Hmax. pose proof Hwf as [Hl Hf]. unfold slice_bufq.
  rewrite (bufq_len_eq w q Hl), (proj2 (Z.eqb_neq len 0)), (proj2 (Z.ltb_ge _ _)) by lia. cbn [orb].
  assert (qbytes w q = ebytes w e) as Hqe by (unfold qbytes, lbytes; rewrite Hq; simpl; by rewrite app_nil_r).
  destruct (lo_ent _ _ Hl e) as (b & m & He); [rewrite Hq; by left|]. pose proof He as [Hbo Hpos Hwp Href Hsl].
  assert (ref b < 2 ^ 31 - 2) as Hr by (apply (Hroom e); [rewrite Hq; by left|apply Hbo]).
  pose proof (proj2 (ebytes_eq _ _ _ _ He)) as Hel. rewrite Hqe in *.
  destruct (buf_slice_ok w (ebuf e) b m (rpos e) len Hbo Hpl Hf) as (r & br & w1 & Hsl1 & Hbr & Hst & Hoff & Hsz & Hsh);
    [lia..|].
  destruct (shared_queue w w1 q e b m Hwf Hq He Hr Hsh) as (Hwf1 & He1 & Heb1 & Hc1).
  destruct (ebytes_advance w1 e _ m len He1 ltac:(lia)) as [Htake Hdrop]. rewrite Heb1 in Htake, Hdrop. simpl in Htake.
  assert (window br m = take (Z.to_nat len) (ebytes w e)) as Hwin by (unfold window; by rewrite Hoff, Hsz).
  assert (apart w1 q br) as Hap.
  { pose proof (sh_buf _ _ _ _ Hsh) as Hb1. split; rewrite Hq.
    - intros e1 be [= <-]. rewrite Hb1. intros [= <-] _. simpl. lia.
    - intros e1 be ->%list_elem_of_singleton. rewrite Hb1. intros [= <-] _. simpl. lia. }
  rewrite Hq. step_with Hsl1. rewrite <- Hqe in *. destruct consume.
  - set (q1 := set_fifo [with_rpos (rpos e + len) e] q).
    assert (Forall2 advanced (fifo q) (fifo q1)) as Had.
    { rewrite Hq. constructor; [|done]. split_and!; simpl; try done; lia. }
    assert (queue_wf w1 q1) as Hwf1'.
    { split; [eapply advanced_ok; [apply Hwf1|done]|apply Hwf1]. }
    destruct (taken_gc w q len w1 q1 r br m) as (q' & w' & Hgc & Htk); try done.
    + eapply carries_trans; [done|]. by apply carries_advanced.
    + by eapply advanced_apart.
    + unfold qbytes at 1, lbytes. simpl. by rewrite app_nil_r, Hdrop.
    + step_with Hgc. by exists r, w', q'.
  - exists r, w1, q. split; [done|]. eapply taken_keep; try done.
    unfold qbytes at 1, lbytes. rewrite Hq. simpl. by rewrite app_nil_r, Heb1.
Qed.

(** A new buffer, its block filled, is apart from the queue and leaves what
    was handed out alone. *)
Lemma added_carries w q w0 d st bd ld ld' :
  queue_wf w q -> added w w0 d st bd ld -> store bd = st ->
  let w1 := set_stores <[st := ld']> w0 in
  list_ok w0 (fifo q) /\ lbytes w0 (fifo q) = qbytes w q /\ avoids w0 (fifo q) st /\ fresh_ok w1 /\
  apart w1 q bd /\ carries w q w1 q.
Proof.
  intros [Hl Hf] Hadd Hst w1. destruct (added_frame _ _ _ _ _ _ Hf Hadd Hst) as (Hf0 & Hkeep & Hlist).
  destruct (Hlist _ Hl) as [Hl0 Hb0].
  assert (forall e be, e ∈ fifo q -> bufs w0 !! ebuf e = Some be -> bufs w !! ebuf e = Some be /\ store be <> st) as Hent.
  { intros e be Hin Hbe. destruct (lo_ent _ _ Hl e Hin) as (b & m & He).
    destruct (Hkeep _ _ _ (eo_buf _ _ _ _ He)) as ([Hb1 _ _ _ _] & _ & Hne).
    assert (be = b) as -> by congruence. split; [apply He|done]. }
  split_and!; try done.
  - intros e be m Hin He. apply (Hent e be Hin). apply He.
  - split; [apply Hf0|]. simpl. intros s [x Hx].
    apply lookup_insert_Some in Hx as [[<- _]|[_ Hx]]; [|apply (fo_stores _ Hf0); eauto].
    pose proof (ad_newst _ _ _ _ _ _ Hadd). lia.
  - split; intros e be Hin Hbe Heq; [apply last_Some in Hin as [l0 Hl']|].
    + assert (e ∈ fifo q) as Hin by (rewrite Hl'; apply elem_of_app; right; by apply list_elem_of_singleton).
      destruct (Hent e be Hin Hbe). congruence.
    + destruct (Hent e be Hin Hbe). congruence.
  - intros p b m Hb [Ha Hh]. destruct (Hkeep p b m Hb) as (Hb1 & _ & Hne). exists b.
    split; [|split; [done|]].
    + destruct Hb1. split; try done. simpl. by rewrite lookup_insert_ne.
    + split; intros e be Hin Hbe.
      * apply Ha; [done|]. apply (Hent e be); [|done].
        apply last_Some in Hin as [l0 ->]. apply elem_of_app. right. by apply list_elem_of_singleton.
      * apply (Hh e be); [done|]. by apply (Hent e be).
Qed.

(** The queue has several entries. *)
Lemma slice_many w q e1 e2 l len consume :
  queue_wf w q -> plenty w -> fifo q = e1 :: e2 :: l -> 0 < len <= zlen (qbytes w q) ->
  zlen (qbytes w q) < 2 ^ 62 ->
  exists r w' q', slice_bufq junk q len consume w = Ret ((Some r, q'), w') /\ taken w q len consume r w' q'.
Proof.
  intros Hwf Hpl Hq Hlen Hmax. unfold slice_bufq.
  rewrite (bufq_len_eq w q (proj1 Hwf)), (proj2 (Z.eqb_neq len 0)), (proj2 (Z.ltb_ge _ _)) by lia. cbn [orb].
  rewrite Hq, <- Hq.
  destruct (buf_new_ok junk w len Hpl ltac:(lia)) as (d & st & ld & w0 & Hnew & Hadd & Hroom). step_with Hnew.
  assert (buf_size len = len) as Hbs by (unfold buf_size; by rewrite (proj2 (Z.eqb_neq len 0)) by lia).
  rewrite Hbs in Hadd, Hroom. set (bd := Buf 1 None st 0 len) in *.
  destruct (added_carries w q w0 d st bd ld ld Hwf Hadd eq_refl) as (Hl0 & Hb0 & Hav & _).
  assert (forall ld', length ld' = length ld -> buf_ok (set_stores <[st := ld']> w0) d bd ld') as Hd.
  { intros ld' Heq. pose proof (ad_bufs _ _ _ _ _ _ Hadd) as Hbw.
    split; simpl; rewrite ?Hbw, ?lookup_insert_eq; try done; lia. }
  assert (buf_ok w0 d bd ld) as Hd0.
  { pose proof (ad_stores _ _ _ _ _ _ Hadd) as Hsw. destruct (Hd ld eq_refl). split; try done. by rewrite Hsw, lookup_insert_eq. }
  destruct (slice_loop_ok (fifo q) w0 d bd ld len 0 consume Hl0 Hav Hd0 eq_refl)
    as (l' & ld' & Hloop & Hlen' & Hwin & Had & Hb'); [lia|rewrite Hb0; lia|].
  rewrite Z.sub_0_r, Hb0 in *. change (store bd) with st in Hloop. step_with Hloop.
  destruct (added_carries w q w0 d st bd ld ld' Hwf Hadd eq_refl) as (_ & _ & _ & Hf1 & Hap & Hc).
  destruct (store_frame w0 (fifo q) st ld' Hl0 Hav) as (Hl1 & _ & Hlb).
  set (w1 := set_stores <[st := ld']> w0) in *. set (q1 := set_fifo l' q).
  assert (queue_wf w1 q1) as Hwf1 by (split; [by eapply advanced_ok|done]).
  assert (carries w q w1 q1) as Hc1 by (eapply carries_trans; [done|by apply carries_advanced]).
  assert (apart w1 q1 bd) as Hap1 by (by eapply advanced_apart).
  assert (qbytes w1 q1 = if consume then drop (Z.to_nat len) (qbytes w q) else qbytes w q) as Hqb1.
  { unfold qbytes at 1. simpl. by rewrite Hlb. }
  pose proof (Hd ld' Hlen') as Hd1. destruct consume.
  - destruct (taken_gc w q len w1 q1 d bd ld' Hc1 Hwf1 Hd1 Hap1 Hwin Hqb1) as (q' & w' & Hgc & Htk).
    step_with Hgc. by exists d, w', q'.
  - exists d, w1, q1. split; [done|]. by eapply taken_keep.
Qed.

Lemma slice_bufq_ok w q len consume :
  queue_wf w q -> plenty w -> refs_room w q -> 0 < len <= zlen (qbytes w q) -> zlen (qbytes w q) < 2 ^ 62 ->
  exists r w' q', slice_bufq junk q len consume w = Ret ((Some r, q'), w') /\ taken w q len consume r w' q'.
Proof.
  intros Hwf Hpl Hroom Hlen Hmax. destruct (fifo q) as [|e [|e2 l]] eqn:Hq.
  - exfalso. unfold qbytes in Hlen. rewrite Hq in Hlen. simpl in Hlen. lia.
  - by eapply slice_one.
  - by eapply slice_many.
Qed.

(** C31. Consuming len bytes fails, changing nothing, exactly when len is 0 or
    exceeds the queue; otherwise it returns a buffer with the first len bytes,
    leaves the rest in order, and every buffer handed out before keeps its bytes
    although entries are pruned. *)
Theorem bufq_consume_spec w q len :
  queue_wf w q -> plenty w -> refs_room w q -> zlen (qbytes w q) < 2 ^ 62 -> 0 <= len ->
  if (len =? 0) || (zlen (qbytes w q) <? len) then ph_bufq_consume_bytes junk q len w = Ret ((None, q), w)
  else exists r w' q', ph_bufq_consume_bytes junk q len w = Ret ((Some r, q'), w') /\
    taken w q len true r w' q'.
Proof.
  intros Hwf Hpl Hroom Hmax Hlen. unfold ph_bufq_consume_bytes.
  destruct ((len =? 0) || (zlen (qbytes w q) <? len)) eqn:E.
  - unfold slice_bufq. by rewrite (bufq_len_eq w q (proj1 Hwf)), E by lia.
  - zbool. apply slice_bufq_ok; (done || lia).
Qed.

(** Peeking returns a buffer with the first bytes and leaves the queue as it
    was. *)
Theorem bufq_peek_spec w q len :
  queue_wf w q -> plenty w -> refs_room w q -> zlen (qbytes w q) < 2 ^ 62 -> 0 < len <= zlen (qbytes w q) ->
  exists r w' q', ph_bufq_peek_bytes junk q len w = Ret ((Some r, q'), w') /\
    taken w q len false r w' q'.
Proof. intros. by apply slice_bufq_ok. Qed.

End consume.

Lemma demo_room : refs_room demo_w demo_q.
Proof.
  intros e b He Hb. destruct (demo_ents e He) as (b' & m & Hok & Hr & _).
  pose proof (bo_buf _ _ _ _ (eo_buf _ _ _ _ Hok)). assert (b = b') as -> by congruence. lia.
Qed.

Lemma bufq_consume_spec_witness :
  exists r w' q', ph_bufq_consume_bytes no_junk demo_q 4 demo_w = Ret ((Some r, q'), w') /\
    taken demo_w demo_q 4 true r w' q'.
Proof. exact (bufq_consume_spec no_junk demo_w demo_q 4 demo_queue_wf demo_plenty demo_room eq_refl ltac:(lia)). Defined.

Lemma bufq_peek_spec_witness :
  exists r w' q', ph_bufq_peek_bytes no_junk demo_q 4 demo_w = Ret ((Some r, q'), w') /\
    taken demo_w demo_q 4 false r w' q'.
Proof.
  refine (bufq_peek_spec no_junk demo_w demo_q 4 demo_queue_wf demo_plenty demo_room eq_refl _).
  split; [done|by vm_compute].
Defined.

End BufConsume.
