(* ===== verification/BufRecord.v ===== *)
(** * Record search in a buffer queue

    [find_record] looks for a delimiter in the unread bytes, also where it
    straddles two entries, and remembers the entry it stopped at for the next
    call.  What it finds is a delimiter that is there; [ph_bufq_consume_record]
    returns the bytes up to its end.  The last section evaluates the search
    where the assumptions of these theorems do not hold. *)

From Stdlib Require Import ZArith Lia.
From stdpp Require Import base numbers list gmap.
From S2P Require Import Prelude SysUtil Buffer BufQueue BufQueueProofs BufConsume.

Module BufRecord.
Export BufConsume.

Section records.
Context (junk : positive -> nat -> Z).
Implicit Types w : bworld.

(** [delim] is found at offset [i] of [bs]. *)
Definition occurs (delim bs : list Z) (i : nat) : Prop := slice i (length delim) bs = delim.

Lemma occurs_fits delim bs i : occurs delim bs i -> delim <> [] -> (i + length delim <= length bs)%nat.
Proof.
  unfold occurs, slice. intros H Hne. apply (f_equal length) in H.
  rewrite length_take, length_drop in H.
  assert (length delim <> 0%nat) by (by destruct delim). lia.
Qed.

Lemma memmem_spec bs delim : match memmem bs delim with
  | Some i => occurs delim bs i /\ forall j, (j < i)%nat -> ~ occurs delim bs j
  | None => forall j, (j <= length bs)%nat -> ~ occurs delim bs j
  end.
Proof.
  induction bs as [|x bs IH]; simpl; unfold bytes_eqb, occurs, slice in *; case_bool_decide as E; simpl.
  - split; [by rewrite E|lia].
  - intros j Hj. assert (j = 0%nat) as -> by lia. done.
  - split; [done|lia].
  - destruct (memmem bs delim) as [i|]; simpl in *.
    + destruct IH as [H1 H2]. split; [done|]. intros [|j] Hj; [done|]. apply H2. lia.
    + intros [|j] Hj; [done|]. apply IH. lia.
Qed.

Lemma partial_loop_spec bs delim s : (s < length delim)%nat -> partial_loop bs delim s <> 0 ->
  exists k, (0 < k <= s)%nat /\ (k <= length bs)%nat /\ partial_loop bs delim s = zlen delim - Z.of_nat k /\
    drop (length bs - k) bs = take k delim.
Proof.
  induction s as [|s IH]; intros Hs; [done|]. cbn [partial_loop].
  destruct (length bs <? S s)%nat eqn:E1.
  - intros H. destruct IH as (k & ? & ? & ? & ?); [lia|done|]. exists k. split_and!; try done; lia.
  - apply Nat.ltb_ge in E1. unfold bytes_eqb. case_bool_decide as E2.
    + intros _. exists (S s). split_and!; try done; lia.
    + intros H. destruct IH as (k & ? & ? & ? & ?); [lia|done|]. exists k. split_and!; try done; lia.
Qed.

(** A proper prefix of the delimiter at the end of one piece and the rest at
    the start of the next make an occurrence. *)
Lemma occurs_straddle delim (a b : list Z) k :
  (k <= length a)%nat -> (k <= length delim)%nat -> drop (length a - k) a = take k delim ->
  take (length delim - k) b = drop k delim -> occurs delim (a ++ b) (length a - k).
Proof.
  intros Hka Hkd Ha Hb. unfold occurs, slice. rewrite drop_app_le by lia. rewrite Ha.
  rewrite take_app_ge by (rewrite length_take; lia). rewrite length_take, Nat.min_l by lia.
  by rewrite Hb, take_drop.
Qed.

Lemma occurs_app_r delim a b i : occurs delim b i -> occurs delim (a ++ b) (length a + i).
Proof. unfold occurs, slice. intros H. rewrite drop_app_ge by lia. by replace (length a + i - length a)%nat with i by lia. Qed.

Lemma occurs_app_l delim a b i : delim <> [] -> occurs delim a i -> occurs delim (a ++ b) i.
Proof.
  intros Hne H. pose proof (occurs_fits _ _ _ H Hne). unfold occurs, slice in *.
  rewrite drop_app_le by lia. rewrite take_app_le by (rewrite length_drop; lia). done.
Qed.

Lemma ent_bytes_eq w e b m : ent_ok w e b m -> ent_bytes e w = Ret (ebytes w e, w).
Proof.
  intros He. pose proof He as [Hbo Hpos Hwp _ _]. unfold ent_bytes.
  destruct Hbo. step_with (load_buf_eq w (ebuf e) b bo_buf0).
  rewrite (read_store_eq w _ m) by (done || lia). by rewrite (proj1 (ebytes_eq _ _ _ _ He)).
Qed.

(** The remembered position: the entry at which the search resumes and the
    number of bytes before it. *)
Definition search_ok w (q : ph_bufq) : Prop :=
  last_delim_len q = 0 \/ exists l1 e l2, fifo q = l1 ++ e :: l2 /\ eid e ∉ eid <$> l1 /\
    last_search_position q = Some (eid e) /\ last_search_index q = zlen (lbytes w l1).

(** What a search reports for a queue with entries [l] after the bytes [pre]. *)
Definition search_result w q delim (pre : list Z) (l : list ph_bufq_ent) (n : Z) q' : Prop :=
  fifo q' = fifo q /\ max_record_size q' = max_record_size q /\ search_ok w q' /\
  ((n = 0 /\ forall e, e ∈ l -> memmem (ebytes w e) delim = None) \/
   exists i, n = Z.of_nat i + zlen delim /\ (length pre <= i)%nat /\ occurs delim (pre ++ lbytes w l) i).

(** The setting of a search: no record limit, and every entry holds at least
    as many unread bytes as the delimiter is long. *)
Record searchable w q (delim : list Z) : Prop := {
  se_list : list_ok w (fifo q);
  se_eids : NoDup (eid <$> fifo q);
  se_max : max_record_size q = 0;
  se_delim : delim <> [];
  se_len : zlen (qbytes w q) + zlen delim < 2 ^ 64;
  se_long : forall e, e ∈ fifo q -> zlen delim <= wpos e - rpos e;
}.

(** The first [n] unread bytes of an entry. *)
Lemma read_ent w e b m n : ent_ok w e b m -> 0 <= n <= wpos e - rpos e ->
  load_buf (ebuf e) w = Ret (b, w) /\
  read_store (store b) (off b + rpos e) n w = Ret (take (Z.to_nat n) (ebytes w e), w).
Proof.
  intros He Hn. destruct (ebytes_advance w e b m n He Hn) as [<- _].
  destruct He as [[] ? ? ? ?]. split; [by apply load_buf_eq|]. apply read_store_eq; (done || lia).
Qed.

Lemma straddle_ok w bs delim pre next b m l :
  ent_ok w next b m -> delim <> [] -> zlen delim <= wpos next - rpos next -> zlen delim <= zlen bs ->
  zlen pre + zlen bs + zlen delim < 2 ^ 64 ->
  exists o, straddle bs delim (zlen pre) next w = Ret (o, w) /\
    match o with
    | None => True
    | Some n => exists i, n = Z.of_nat i + zlen delim /\ (length pre <= i)%nat /\
        occurs delim (pre ++ bs ++ ebytes w next ++ l) i
    end.
Proof.
  intros He Hne Hnx Hbs Hlen. unfold straddle. assert (0 < zlen delim) as Hpos by (destruct delim; [done|simpl; lia]).
  destruct (partial_match bs delim =? 0) eqn:E; zbool; [by exists None|].
  unfold partial_match in *.
  destruct (partial_loop_spec bs delim (length delim - 1) ltac:(lia) E) as (k & Hk & Hkb & Hp & Hd).
  rewrite Hp, (proj2 (Z.ltb_ge _ _)) by lia.
  destruct (read_ent w next b m (zlen delim - Z.of_nat k) He ltac:(lia)) as [Hld Hrd].
  step_with Hld. step_with Hrd. unfold bytes_eqb. case_bool_decide as Eq; [|by exists None].
  rewrite (wrapU_small 64) by lia. eexists. split; [reflexivity|].
  exists (length pre + (length bs - k))%nat. split; [lia|]. split; [lia|].
  apply occurs_app_r. rewrite app_assoc. apply occurs_app_l; [done|].
  apply occurs_straddle; [lia|lia|done|].
  replace (Z.to_nat (zlen delim - (zlen delim - Z.of_nat k))) with k in Eq by lia. rewrite <- Eq.
  f_equal. lia.
Qed.

Lemma set_searchstate_ok w q e delim l1 :
  fifo q = l1 ++ [e] -> NoDup (eid <$> fifo q) ->
  search_ok w (set_searchstate q (zlen (lbytes w l1)) e delim).
Proof.
  intros Hq Hn. unfold set_searchstate. case_bool; [by left|]. right. exists l1, e, []. split_and!; try done.
  rewrite Hq, fmap_app in Hn. apply NoDup_app in Hn as (_ & Hn & _). intros H.
  apply (Hn _ H). by apply list_elem_of_singleton.
Qed.

Lemma find_loop_ok w delim q : searchable w q delim -> forall l l1, fifo q = l1 ++ l ->
  exists n q', find_loop q l delim (zlen (lbytes w l1)) false w = Ret ((n, false, q'), w) /\
    search_result w q delim (lbytes w l1) l n q'.
Proof.
  intros Hse. pose proof Hse as [Hl Heid Hmax Hne Hlen Hlong].
  induction l as [|e l IH]; intros l1 Hq.
  { exists 0, (clear_searchstate q). split; [done|]. split_and!; try done; [by left|]. left.
    split; [done|]. by intros e ?%elem_of_nil. }
  assert (e ∈ fifo q) as Hin by (rewrite Hq; apply elem_of_app; right; by left).
  destruct (lo_ent _ _ Hl e Hin) as (b & m & He). pose proof (Hlong e Hin) as Hle.
  pose proof (proj2 (ebytes_eq _ _ _ _ He)) as Hel. cbn [find_loop]. step_with (ent_bytes_eq w e b m He).
  assert (zlen (qbytes w q) = zlen (lbytes w l1) + zlen (ebytes w e) + zlen (lbytes w l)) as Hqb.
  { unfold qbytes. rewrite Hq, lbytes_app, lbytes_cons, !length_app. lia. }
  pose proof (memmem_spec (ebytes w e) delim) as Hmm. destruct (memmem (ebytes w e) delim) as [i|] eqn:Em.
  { destruct Hmm as [Hocc _]. pose proof (occurs_fits _ _ _ Hocc Hne). rewrite (wrapU_small 64) by lia.
    eexists _, _. split; [reflexivity|]. split_and!; try done; [by left|]. right.
    exists (length (lbytes w l1) + i)%nat. split; [lia|]. split; [lia|].
    apply occurs_app_r. rewrite lbytes_cons. by apply occurs_app_l. }
  destruct l as [|next l].
  { eexists _, _. split; [reflexivity|]. split_and!.
    - unfold set_searchstate. by case_bool.
    - unfold set_searchstate. by case_bool.
    - by apply set_searchstate_ok.
    - left. split; [done|]. by intros e' ->%list_elem_of_singleton. }
  assert (next ∈ fifo q) as Hin' by (rewrite Hq; apply elem_of_app; right; right; by left).
  destruct (lo_ent _ _ Hl next Hin') as (bn & mn & Hn). rewrite lbytes_cons, length_app in Hqb.
  destruct (straddle_ok w (ebytes w e) delim (lbytes w l1) next bn mn (lbytes w l) Hn Hne (Hlong next Hin'))
    as (o & Ho & Hocc); [lia..|].
  step_with Ho. destruct o as [n|].
  { destruct Hocc as (i & Hi & Hpre & Hocc). assert (zlen delim <> 0) by (destruct delim; [done|simpl; lia]).
    destruct n as [|n|n]; [lia| |lia]. eexists _, _. split; [reflexivity|].
    split_and!; try done; [by left|]. right. exists i. split_and!; try done. }
  rewrite Hmax. cbn [Z.ltb Z.compare andb].
  destruct (IH (l1 ++ [e])) as (n & q' & Hf & Hf1 & Hf2 & Hf3 & Hres); [by rewrite <- app_assoc|].
  assert (lbytes w (l1 ++ [e]) = lbytes w l1 ++ ebytes w e) as Hpre.
  { rewrite lbytes_app, lbytes_cons. unfold lbytes at 2. simpl. by rewrite app_nil_r. }
  rewrite Hpre, length_app, Nat2Z.inj_add in Hf. rewrite (wrapU_small 64) by lia.
  exists n, q'. split; [done|]. split_and!; try done. destruct Hres as [[-> Hno]|(i & Hi & Hle' & Hocc')].
  - left. split; [done|]. intros e' [->|Hin1]%elem_of_cons; [done|by apply Hno].
  - right. exists i. rewrite Hpre, length_app, <- app_assoc in *. rewrite lbytes_cons. split_and!; try done. lia.
Qed.

Lemma from_eid_eq l1 e l2 : eid e ∉ eid <$> l1 -> from_eid (eid e) (l1 ++ e :: l2) = Some (e :: l2).
Proof.
  induction l1 as [|e1 l1 IH]; simpl; intros Hn; [by rewrite decide_True|].
  apply not_elem_of_cons in Hn as [Hne Hn]. rewrite decide_False by congruence. by apply IH.
Qed.

Lemma searchable_clear w q delim : searchable w q delim -> searchable w (clear_searchstate q) delim.
Proof. intros []. by split. Qed.

(** The search, resumed or from the start, gives a result for the entries from
    some point on. *)
Lemma find_record_ok w q delim : searchable w q delim -> search_ok w q ->
  exists l1 l2 n q', fifo q = l1 ++ l2 /\ find_record q delim w = Ret ((n, false, q'), w) /\
    search_result w q delim (lbytes w l1) l2 n q' /\ (last_delim_len q = 0 -> l1 = []).
Proof.
  intros Hse Hok. unfold find_record. case_bool; zbool.
  - destruct Hok as [Hz|(l1 & e & l2 & Hq & Hn & Hpos & Hidx)].
    { destruct (se_delim _ _ _ Hse). destruct delim; [done|simpl in *; lia]. }
    rewrite Hpos, Hidx, Hq, (from_eid_eq l1 e l2 Hn). step. rewrite <- Hq.
    destruct (find_loop_ok w delim q Hse (e :: l2) l1 Hq) as (n & q' & Hf & Hres).
    exists l1, (e :: l2), n, q'. split_and!; try done.
    intros Hz. destruct (se_delim _ _ _ Hse). destruct delim; [done|simpl in *; lia].
  - destruct (find_loop_ok w delim _ (searchable_clear _ _ _ Hse) (fifo q) [] eq_refl) as (n & q' & Hf & Hres).
    exists [], (fifo q), n, q'. by split_and!.
Qed.

(** What [ph_bufq_consume_record] returns: a prefix of the queue that ends in
    the delimiter, or nothing. *)
Definition record_result w q delim (o : option positive) w' q' : Prop :=
  match o with
  | Some r => exists pre rest, qbytes w q = pre ++ delim ++ rest /\ queue_wf w' q' /\
      buf_bytes r w' = Ret (pre ++ delim, w') /\ qbytes w' q' = rest /\ safe w' q' r /\
      (forall p, safe w q p -> safe w' q' p /\ same_bytes w w' p)
  | None => w' = w /\ queue_wf w q' /\ fifo q' = fifo q /\ search_ok w q'
  end.

Lemma occurs_split delim bs i : delim <> [] -> occurs delim bs i ->
  bs = take i bs ++ delim ++ drop (i + length delim) bs /\ take (i + length delim) bs = take i bs ++ delim.
Proof.
  intros Hne Ho. pose proof (occurs_fits _ _ _ Ho Hne) as Hf. unfold occurs, slice in Ho.
  assert (take (i + length delim) bs = take i bs ++ delim) as Ht.
  { rewrite <- (take_drop i bs) at 1. rewrite take_app_ge by (rewrite length_take; lia).
    rewrite length_take, Nat.min_l by lia. by replace (i + length delim - i)%nat with (length delim) by lia; rewrite Ho. }
  split; [|done]. by rewrite app_assoc, <- Ht, take_drop.
Qed.

(** Without a record limit and with entries at least as long as the delimiter,
    consuming a record returns a prefix of the queue that ends in the delimiter,
    also when it straddles two entries or the search resumes, or nothing with
    the queue unchanged; a fresh search returns nothing only when no entry
    contains the delimiter. *)
Theorem consume_record_spec w q delim :
  queue_wf w q -> plenty w -> refs_room w q -> zlen (qbytes w q) < 2 ^ 62 -> zlen delim < 2 ^ 32 ->
  searchable w q delim -> search_ok w q ->
  exists o w' q', ph_bufq_consume_record junk q delim w = Ret ((o, q', false), w') /\
    record_result w q delim o w' q' /\
    (o = None -> last_delim_len q = 0 -> forall e, e ∈ fifo q -> forall j, ~ occurs delim (ebytes w e) j).
Proof.
  intros Hwf Hpl Hroom Hmax Hd Hse Hok. pose proof (se_delim _ _ _ Hse) as Hne.
  destruct (find_record_ok w q delim Hse Hok) as (l1 & l2 & n & q1 & Hq & Hf & (Hfifo & _ & Hok1 & Hres) & Hl1).
  unfold ph_bufq_consume_record. step_with Hf.
  assert (queue_wf w q1 /\ qbytes w q1 = qbytes w q) as [Hwf1 Hqb1].
  { unfold queue_wf, qbytes. by rewrite Hfifo. }
  destruct Hres as [[-> Hno]|(i & Hn & Hle & Hocc)].
  - exists None, w, q1. split; [done|]. split; [by split_and!|]. intros _ H0 e Hin j Ho.
    rewrite (Hl1 H0) in Hq. rewrite Hq in Hin.
    pose proof (memmem_spec (ebytes w e) delim) as Hmm. rewrite (Hno e Hin) in Hmm.
    apply (Hmm j); [|done]. pose proof (occurs_fits _ _ _ Ho Hne). lia.
  - assert (lbytes w l1 ++ lbytes w l2 = qbytes w q) as Hall by (unfold qbytes; by rewrite Hq, lbytes_app).
    rewrite Hall in Hocc. pose proof (occurs_fits _ _ _ Hocc Hne) as Hfit.
    destruct (occurs_split _ _ _ Hne Hocc) as [Hsplit Htake].
    assert (zlen delim <> 0) by (destruct delim; [done|simpl; lia]).
    rewrite (proj2 (Z.eqb_neq n 0)) by lia. unfold ph_bufq_consume_bytes.
    destruct (slice_bufq_ok junk w q1 n true Hwf1 Hpl) as (r & w' & q' & Hsl & Hwf' & Hbb & Hqb' & Hsafe & Hsame);
      [intros e b Hin; apply Hroom; by rewrite <- Hfifo|rewrite Hqb1; lia|by rewrite Hqb1|].
    step_with Hsl. exists (Some r), w', q'. split; [done|]. split; [|done].
    rewrite Hqb1 in *. replace (Z.to_nat n) with (i + length delim)%nat in * by lia.
    exists (take i (qbytes w q)), (drop (i + length delim) (qbytes w q)).
    split_and!; try done; [by rewrite Hbb, Htake|]. intros p (b & m & Hb & Ha). apply Hsame.
    exists b, m. split; [done|]. unfold apart in *. by rewrite Hfifo.
Qed.

End records.

(** ** Evaluating the search *)

Lemma demo_searchable : searchable demo_w demo_q [4; 5].
Proof.
  split; [apply demo_queue_wf| |done|done|by vm_compute|].
  - by repeat (constructor; [set_solver|]); constructor.
  - intros e [->|[->|?%elem_of_nil]%elem_of_cons]%elem_of_cons; [by vm_compute..|done].
Qed.

(** The delimiter straddles the two entries. *)
Lemma consume_record_spec_witness :
  exists o w' q', ph_bufq_consume_record no_junk demo_q [4; 5] demo_w = Ret ((o, q', false), w') /\
    record_result demo_w demo_q [4; 5] o w' q' /\
    (o = None -> last_delim_len demo_q = 0 -> forall e, e ∈ fifo demo_q -> forall j, ~ occurs [4; 5] (ebytes demo_w e) j).
Proof.
  exact (consume_record_spec no_junk demo_w demo_q [4; 5] demo_queue_wf demo_plenty demo_room eq_refl eq_refl
    demo_searchable (or_introl eq_refl)).
Defined.

(** A full block is searched, then consumed and pruned; the queue goes on with
    the position of the search in the entry that is gone. *)
Definition search_consume_search : M bworld (option positive * ph_bufq * bool) :=
  q <-- ph_bufq_new no_junk 0 ;;
  q <-- of_option q ;;
  let* (_, _, q) := ph_bufq_append no_junk q (replicate 8192 65) in
  let* (_, q, _) := ph_bufq_consume_record no_junk q [10] in
  let* (_, q) := ph_bufq_consume_bytes no_junk q 8192 in
  let* (_, _, q) := ph_bufq_append no_junk q [65; 10] in
  ph_bufq_consume_record no_junk q [10].

Definition empty_w : bworld := BWorld ∅ ∅ 1 [].

(** Searching, consuming the entry that was searched, and searching again uses
    the entry that is gone. *)
Theorem record_search_dangles : search_consume_search empty_w = Fault.
Proof. vm_compute. reflexivity. Qed.

(** Two entries, ["x--"] and ["-by"]: the delimiter ["--b"] straddles them. *)
Definition dash_w : bworld :=
  BWorld (<[1%positive := [120; 45; 45]]> {[2%positive := [45; 98; 121]]})
         (<[3%positive := Buf 1 None 1 0 3]> {[4%positive := Buf 1 None 2 0 3]}) 10 [].
Definition dash_q : ph_bufq := Bufq [Ent 5 3 0 3; Ent 6 4 0 3] 0 0 false 0 None [] 0.

(** A delimiter that straddles two entries is missed when a longer prefix of it
    ends the first entry: only the longest one is tried. *)
Theorem straddle_misses :
  occurs [45; 45; 98] (qbytes dash_w dash_q) 2 /\
  match find_record dash_q [45; 45; 98] dash_w with Ret ((n, _, _), _) => n = 0 | _ => False end.
Proof. split; vm_compute; reflexivity. Qed.

End BufRecord.
