(* ===== verification/BufStream.v ===== *)
(** * Buffer queues as byte queues

    Appending to a queue, writing it to a stream and reading a stream into it, when
    memory may run out at any allocation.  The interface [bufq_api] with its laws is
    what clients of queues rely on; [bufq_laws_bufq] shows that the queues of corelib/buf.c
    keep it. *)

From Stdlib Require Import ZArith Lia.
From stdpp Require Import base numbers list gmap.
From S2P Require Import Prelude SysUtil Buffer BufQueue BufQueueProofs BufConsume.

Module BufqApi.
(** ** The interface of byte queues

    What the sockets use of queues: appending (the result and the number of bytes
    added), the length, writing to and reading from a stream without asking for the
    number, taking bytes or a record out, and [bq_copy_out]: consume, copy the bytes
    and release the buffer. *)

Class bufq_api := {
  bq : Type;
  bq_len : bq -> Z;
  bq_append : list Z -> M bq (ph_result_t * Z);
  bq_stm_write : forall {C}, (list (list Z) -> M C (bool * Z)) -> M (bq * C) bool;
  bq_stm_read : forall {C}, (Z -> M C (option (list Z))) -> M (bq * C) bool;
  bq_consume_bytes : Z -> M bq (option positive);
  bq_consume_record : list Z -> M bq (option positive);
  bq_copy_out : Z -> M bq (option (list Z));
  bq_free : bq -> outcome unit;
}.

Class bufq_laws (BQ : bufq_api) := {
  bq_wf : bq -> Prop;
  bq_bytes : bq -> list Z;
  bq_len_law q : bq_wf q -> zlen (bq_bytes q) < 2 ^ 64 -> bq_len q = zlen (bq_bytes q);
  bq_append_law q bs : bq_wf q -> zlen bs < 2 ^ 62 ->
    exists r n q', bq_append bs q = Ret ((r, n), q') /\ bq_wf q' /\ 0 <= n <= zlen bs /\
      bq_bytes q' = bq_bytes q ++ take (Z.to_nat n) bs /\ (r <> PH_OK -> n = 0) /\ (r = PH_OK -> bs <> [] -> 0 < n);
  bq_stm_write_law {C} (writev : list (list Z) -> M C (bool * Z)) q c : bq_wf q -> bq_bytes q <> [] ->
    exists iov, iov <> [] /\ Forall (fun bs => bs <> []) iov /\ mjoin iov `prefix_of` bq_bytes q /\
      forall (res : bool) n c', writev iov c = Ret ((res, n), c') -> 0 <= n <= zlen (mjoin iov) ->
      exists q', bq_stm_write writev (q, c) = Ret (res, (q', c')) /\ bq_wf q' /\
        bq_bytes q' = if res then drop (Z.to_nat n) (bq_bytes q) else bq_bytes q;
  bq_stm_read_law {C} (readv : Z -> M C (option (list Z))) q c : bq_wf q ->
    (exists q', bq_stm_read readv (q, c) = Ret (false, (q', c)) /\ bq_wf q' /\ bq_bytes q' = bq_bytes q) \/
    exists avail, 0 < avail < 2 ^ 62 /\
      forall x c', readv avail c = Ret (x, c') -> (forall bs, x = Some bs -> bs <> [] /\ zlen bs <= avail) ->
      exists q', bq_stm_read readv (q, c) = Ret (bool_decide (is_Some x), (q', c')) /\ bq_wf q' /\
        bq_bytes q' = bq_bytes q ++ default [] x;
}.
End BufqApi.

Module BufStream.
Export BufConsume.
Import BufqApi.

Section any_memory.
Context (junk : positive -> nat -> Z).
Implicit Types w : bworld.

(** ** Memory that runs out *)

Lemma queue_wf_oracle o w q : queue_wf w q -> queue_wf (set_oracle o w) q.
Proof.
  intros [[He Hn Hs] [Fb Fs]]. split; [split|split]; simpl; try done.
  intros e Hin. destruct (He e Hin) as (b & m & [[] ? ? ? ?]). by exists b, m.
Qed.

(** A new entry is there or nothing happened; how much memory is left does not matter
    to what is there. *)
Lemma add_new_buf_cases q n w :
  (exists o, q_add_new_buf junk q n w = Ret ((None, q), set_oracle o w)) \/
  (exists e q' w' o, q_add_new_buf junk q n w = Ret ((Some e, q'), set_oracle o w') /\
     q_add_new_buf junk q n (set_oracle [] w) = Ret ((Some e, q'), w')).
Proof.
  destruct w as [st bf fr o].
  unfold q_add_new_buf, ph_buf_new, alloc_store, mem_ok, new_ptr, store_buf, modify, bind, ret.
  destruct o as [|[] [|[] [|[] o]]]; unfold set_fresh, set_bufs, set_stores, set_oracle; cbn;
    first [left; eexists; reflexivity | right; eexists _, _, (BWorld _ _ _ []), _; split; reflexivity].
Qed.

Lemma copy_mem_oracle o p bs i w x w' :
  ph_buf_copy_mem p bs i w = Ret (x, w') -> ph_buf_copy_mem p bs i (set_oracle o w) = Ret (x, set_oracle o w').
Proof.
  destruct w as [st bf fr o0]. unfold ph_buf_copy_mem, load_buf, write_store, set_oracle, set_stores, bind, ret. cbn.
  destruct (bf !! p) as [b|]; [|done]. case_bool; [by intros [= <- <-]|].
  cbn. destruct (st !! store b) as [l|]; cbn; [|done]. destruct (_ || _); cbn; [done|]. by intros [= <- <-].
Qed.

(** Appending adds a prefix of the bytes, all of them when there is memory, and some
    when it does not fail. *)
Lemma append_any w q buf : queue_wf w q -> zlen buf < 2 ^ 62 ->
  exists r n w' q', ph_bufq_append junk q buf w = Ret ((r, n, q'), w') /\ 0 <= n <= zlen buf /\
    queue_wf w' q' /\ qbytes w' q' = qbytes w q ++ take (Z.to_nat n) buf /\
    (r <> PH_OK -> n = 0) /\ (r = PH_OK -> buf <> [] -> 0 < n).
Proof.
  intros Hwf Hlen. destruct (top_off_ok w q buf Hwf Hlen)
    as (n & q1 & w1 & Htop & Hn & Hwf1 & Hqb1 & _).
  unfold ph_bufq_append. step_with Htop.
  set (rest := drop (Z.to_nat n) buf). assert (zlen rest = zlen buf - n) as Hrl.
  { unfold rest. rewrite length_drop. lia. }
  assert (buf <> [] -> 0 < zlen buf) as Hne by (destruct buf; simpl; lia || done).
  destruct (zlen rest =? 0) eqn:E; zbool.
  { exists PH_OK, n, w1, q1. split_and!; try done; try lia. intros _ H. specialize (Hne H). lia. }
  destruct (add_new_buf_cases q1 (zlen rest) w1) as [(o & Ha)|(e & q2 & w2 & o & Ha & Ha')]; step_with Ha.
  - eexists _, n, _, q1. split; [reflexivity|]. split; [lia|]. split; [by apply queue_wf_oracle|]. split; [exact Hqb1|].
    destruct (n =? 0) eqn:En; zbool; split; (done || lia).
  - destruct (add_filled junk (set_oracle [] w1) q1 rest (queue_wf_oracle _ _ _ Hwf1) (Forall_nil_2 _))
      as (e3 & q3 & w3 & w4 & q4 & Hadd & Hcp & -> & Hwf' & _ & Hqb & _); [lia|].
    rewrite Ha' in Hadd. injection Hadd as <- <- <-.
    step_with (copy_mem_oracle o _ _ _ _ _ _ Hcp).
    eexists PH_OK, _, _, _. split; [reflexivity|]. split; [lia|]. split; [by apply queue_wf_oracle|].
    split; [|split; [done|lia]]. change (qbytes (set_oracle o w4)) with (qbytes w4).
    rewrite Hqb. change (qbytes (set_oracle [] w1)) with (qbytes w1). rewrite Hqb1, <- app_assoc. f_equal.
    replace (n + zlen rest) with (zlen buf) by lia. unfold rest. by rewrite take_drop, Nat2Z.id, firstn_all.
Qed.

(** ** Reading a stream into a queue *)

(** An entry at the end without bytes. *)
Lemma add_empty w q : queue_wf w q -> plenty w ->
  exists e q1 w1 b m, q_add_new_buf junk q 0 w = Ret ((Some e, q1), w1) /\ queue_wf w1 q1 /\ qbytes w1 q1 = qbytes w q /\ last (fifo q1) = Some e /\ ent_ok w1 e b m /\ wpos e = 0 /\ 0 < size b.
Proof.
  intros [Hl Hf] Hpl. unfold q_add_new_buf.
  destruct (buf_mem_plenty w Hpl) as (o1 & H1 & Ho1). step_with H1. cbn [negb].
  destruct (buf_new_ok junk (set_oracle o1 w) 0 Ho1) as (p & st & l & w1 & Hnew & Hadd & Hroom); [lia|].
  step_with Hnew. step. change (buf_size 0) with 8192 in *.
  destruct (queue_wf_oracle o1 w q (conj Hl Hf)) as [Hl0 Hf0].
  destruct (added_frame _ _ _ _ _ _ Hf0 Hadd eq_refl) as (Hf1 & Hkeep & Hlist).
  destruct (Hlist _ Hl0) as [Hl1 Hb1]. destruct Hadd as [Hbw Hsw Hpn Hstn Hplw].
  set (w2 := set_fresh (Pos.succ (fresh w1)) w1). set (e := Ent (fresh w1) p 0 0). set (b := Buf 1 None st 0 8192) in *.
  assert (ent_ok w2 e b l) as He.
  { split; simpl; try done; try lia. split; simpl; rewrite ?Hbw, ?Hsw, ?lookup_insert_eq; try done; lia. }
  assert (list_ok w2 (fifo q)) as Hl2.
  { apply (list_frame w1); [done|]. intros e1 b1 m1 _ He1. exists b1, m1. split; [|done]. by destruct He1 as [[]]. }
  eexists e, _, w2, b, l. split; [reflexivity|]. split; [split; simpl|].
  - eapply list_ok_snoc; [done|exact He|]. intros e1 b1 m1 Hin He1.
    destruct (lo_ent _ _ Hl0 e1 Hin) as (b2 & m2 & He2). destruct (Hkeep _ _ _ (eo_buf _ _ _ _ He2)) as (Hk & Hne & Hns).
    pose proof (bo_buf _ _ _ _ Hk). pose proof (bo_buf _ _ _ _ (eo_buf _ _ _ _ He1)) as Hb.
    simpl in Hb. assert (b1 = b2) as -> by congruence. done.
  - split; simpl; intros q0 Hq0; [pose proof (fo_bufs _ Hf1 q0 Hq0)|pose proof (fo_stores _ Hf1 q0 Hq0)]; lia.
  - split; [|split_and!; [simpl; by rewrite last_snoc|done..]]. unfold qbytes. simpl. rewrite lbytes_app.
    change (lbytes w2 (fifo q)) with (lbytes w1 (fifo q)). rewrite Hb1. unfold lbytes at 2. simpl.
    rewrite (proj1 (ebytes_eq _ _ _ _ He)). simpl. by rewrite !app_nil_r.
Qed.

(** What [read_room] finds: no memory, or an entry at the end that has room. *)
Definition room_in w q (r : option ph_bufq_ent * Z * ph_bufq) w1 : Prop :=
  match r with
  | (None, _, q1) => q1 = q /\ exists o, w1 = set_oracle o w
  | (Some e, avail, q1) => exists b m, queue_wf w1 q1 /\ qbytes w1 q1 = qbytes w q /\ last (fifo q1) = Some e /\
      ent_ok w1 e b m /\ 0 < avail /\ wpos e + avail = size b
  end.

Lemma new_room_any w q : queue_wf w q ->
  exists r w1, (let* (e, q) := q_add_new_buf junk q 0 in
      match e with Some e => n <-- ph_buf_len (ebuf e) ;; ret (Some e, n, q) | None => ret (None, 0, q) end) w = Ret (r, w1) /\
    room_in w q r w1.
Proof.
  intros Hwf. destruct (add_new_buf_cases q 0 w) as [(o & Ha)|(e & q2 & w2 & o & Ha & Ha')]; step_with Ha.
  { eexists _, _. split; [reflexivity|]. simpl. eauto. }
  destruct (add_empty (set_oracle [] w) q (queue_wf_oracle _ _ _ Hwf) (Forall_nil_2 _))
    as (e3 & q3 & w3 & b & m & Hadd & Hwf' & Hqb & Hlast & He & Hw0 & Hsz).
  rewrite Ha' in Hadd. injection Hadd as <- <- <-.
  assert (ent_ok (set_oracle o w2) e b m) as He' by (by destruct He as [[]]).
  step_with (ph_buf_len_eq (set_oracle o w2) (ebuf e) b (bo_buf _ _ _ _ (eo_buf _ _ _ _ He'))).
  eexists _, _. split; [reflexivity|]. exists b, m. split; [by apply queue_wf_oracle|]. split_and!; try done; lia.
Qed.

Lemma read_room_any w q : queue_wf w q -> exists r w1, read_room junk q w = Ret (r, w1) /\ room_in w q r w1.
Proof.
  intros Hwf. unfold read_room. destruct (last (fifo q)) as [e|] eqn:El; [|step; by apply new_room_any].
  pose proof El as [l0 Hf]%last_Some. pose proof Hwf as [Hl Hfr].
  destruct (lo_ent _ _ Hl e) as (b & m & He); [rewrite Hf; apply elem_of_app; right; by apply list_elem_of_singleton|].
  pose proof He as [Hbo Hpos Hwp _ _]. pose proof (bo_size _ _ _ _ Hbo).
  assert ((n <-- ph_buf_len (ebuf e) ;; ret (u64 (n - wpos e))) w = Ret (size b - wpos e, w)) as Hn.
  { step_with (ph_buf_len_eq w (ebuf e) b (bo_buf _ _ _ _ Hbo)). by rewrite (wrapU_small 64) by lia. }
  step_with Hn. destruct (size b - wpos e =? 0) eqn:E; zbool; [by apply new_room_any|].
  eexists _, w. split; [reflexivity|]. exists b, m. split_and!; try done; lia.
Qed.

(** Bytes written behind the last entry are at the end of the queue. *)
Lemma fill_last w q e b m bs : queue_wf w q -> last (fifo q) = Some e -> ent_ok w e b m ->
  bs <> [] -> wpos e + zlen bs <= size b ->
  exists w', write_store (store b) (off b + wpos e) bs w = Ret (tt, w') /\
    queue_wf w' (set_last (with_wpos (wpos e + zlen bs) e) q) /\
    qbytes w' (set_last (with_wpos (wpos e + zlen bs) e) q) = qbytes w q ++ bs.
Proof.
  intros Hwf Hlast He Hne Hfit. pose proof He as [[Hb Hst Ho Hsz Hw] Hpos Hwp _ _].
  destruct (top_off_ok w q bs Hwf ltac:(lia)) as (n & q' & w' & Htop & Hn & Hwf' & Hqb & _).
  unfold top_off in Htop. rewrite Hlast in Htop. revert Htop. step_with (ph_buf_len_eq w (ebuf e) b Hb).
  assert (0 < zlen bs) by (destruct bs; [done|simpl; lia]).
  rewrite (wrapU_small 64), MIN_min, Z.min_r, (proj2 (Z.eqb_neq _ _)), Nat2Z.id, firstn_all by lia.
  step_with (copy_mem_ok w (ebuf e) b m bs (wpos e) (eo_buf _ _ _ _ He) ltac:(lia) ltac:(lia)).
  rewrite (wrapU_small 64) by lia. intros [= <- <- <-]. rewrite Nat2Z.id, firstn_all in Hqb.
  eexists. split; [apply write_store_eq; (done || lia)|]. done.
Qed.

(** ** Writing a queue to a stream *)

Lemma mapM_ent_ok w l : list_ok w l -> mapM_ent l w = Ret (ebytes w <$> l, w).
Proof.
  induction l as [|e l IH]; intros Hl; [done|]. destruct (lo_ent _ _ Hl e ltac:(by left)) as (b & m & He).
  pose proof He as [[Hb Hst Ho Hsz Hw] Hpos Hwp _ _].
  assert (ent_bytes e w = Ret (ebytes w e, w)) as Hbs.
  { unfold ent_bytes. step_with (load_buf_eq w (ebuf e) b Hb). rewrite (proj1 (ebytes_eq _ _ _ _ He)).
    apply read_store_eq; (done || lia). }
  cbn [mapM_ent]. step_with Hbs. by step_with (IH (list_ok_tail _ _ _ Hl)).
Qed.

(** The vectors that are written: none is empty, and together they are a prefix. *)
Lemma iov_of_ok l : mjoin l <> [] ->
  iov_of l <> [] /\ Forall (fun bs => bs <> []) (iov_of l) /\ mjoin (iov_of l) `prefix_of` mjoin l.
Proof.
  set (f := fun bs : list Z => negb (zlen bs =? 0)). intros Hne.
  assert (forall bs, f bs = true <-> bs <> []) as Hf.
  { intros bs. unfold f. destruct bs; simpl; split; (done || intros; lia || idtac). }
  assert (mjoin (List.filter f l) = mjoin l) as Hj.
  { clear Hne. induction l as [|bs l IH]; [done|]. simpl. destruct (f bs) eqn:E; simpl; rewrite IH; [done|].
    destruct bs; [done|]. by destruct (proj2 (Hf (z :: bs)) ltac:(done)). }
  change (iov_of l) with (take 16 (List.filter f l)). split_and!.
  - rewrite <- Hj in Hne. by destruct (List.filter f l).
  - apply Forall_take, Forall_forall. intros bs [_ H]%list_elem_of_In%List.filter_In. by apply Hf.
  - rewrite <- Hj. rewrite <- (take_drop 16 (List.filter f l)) at 2. rewrite join_app. by apply prefix_app_r.
Qed.

(** Marking [n] bytes as consumed drops them. *)
Lemma eat_loop_ok w l n : list_ok w l -> 0 < n <= zlen (lbytes w l) ->
  Forall2 advanced l (eat_loop l n) /\ lbytes w (eat_loop l n) = drop (Z.to_nat n) (lbytes w l).
Proof.
  revert n. induction l as [|e l IH]; intros n Hl Hn; [simpl in Hn; lia|].
  destruct (lo_ent _ _ Hl e ltac:(by left)) as (b & m & He). pose proof (proj2 (ebytes_eq _ _ _ _ He)) as Hel.
  pose proof (eo_pos _ _ _ _ He). pose proof (list_ok_tail _ _ _ Hl) as Hl0.
  rewrite lbytes_cons, length_app in *. cbn [eat_loop]. destruct (wpos e - rpos e =? 0) eqn:E; zbool.
  { destruct (IH n Hl0 ltac:(lia)) as [Ha Hb]. split; [constructor; [by eapply advanced_refl|done]|].
    rewrite lbytes_cons, Hb. assert (ebytes w e = []) as -> by (apply length_zero_iff_nil; lia). done. }
  rewrite MIN_min. set (k := Z.min (wpos e - rpos e) n).
  destruct (ebytes_advance w e b m k He ltac:(lia)) as [_ Hadv].
  assert (advanced e (with_rpos (rpos e + k) e)) as Hee by (split_and!; simpl; try done; lia).
  destruct (n - k =? 0) eqn:E2; zbool.
  - split; [constructor; [done|by eapply advanced_list_refl]|].
    rewrite lbytes_cons, Hadv, drop_app_le by lia. do 2 f_equal. lia.
  - destruct (IH (n - k) Hl0 ltac:(lia)) as [Ha Hb]. split; [by constructor|].
    rewrite lbytes_cons, Hadv, Hb, (skipn_all2 (ebytes w e)), drop_app_ge by lia. simpl. f_equal. lia.
Qed.

Section stream.
Context {C : Type} (readv : Z -> M C (option (list Z))) (writev : list (list Z) -> M C (bool * Z)).

Lemma on_bufs_eq {T} (c : M bworld T) w w' (x : T) (s : C) : c w = Ret (x, w') -> on_bufs c (w, s) = Ret (x, (w', s)).
Proof. unfold on_bufs. by intros ->. Qed.
Lemma on_stm_eq {T} (c : M C T) w (x : T) (s s' : C) : c s = Ret (x, s') -> on_stm c (w, s) = Ret (x, (w, s')).
Proof. unfold on_stm. by intros ->. Qed.

(** Reading: either there is no memory and the stream is not asked, or the stream is
    asked for a positive number of bytes and what it gives goes to the end. *)
Lemma stm_read_any w q s : queue_wf w q ->
  (exists o, ph_bufq_stm_read junk readv q (w, s) = Ret ((false, 0, q), (set_oracle o w, s))) \/
  exists avail, 0 < avail < 2 ^ 62 /\
    forall x s', readv avail s = Ret (x, s') -> (forall bs, x = Some bs -> bs <> [] /\ zlen bs <= avail) ->
    exists w' q', ph_bufq_stm_read junk readv q (w, s) =
      Ret ((match x with Some bs => (true, zlen bs, q') | None => (false, 0, q') end), (w', s')) /\
      queue_wf w' q' /\ qbytes w' q' = qbytes w q ++ default [] x.
Proof.
  intros Hwf. unfold ph_bufq_stm_read. destruct (read_room_any w q Hwf) as (r & w1 & Hr & Hin).
  destruct r as [[[e|] avail] q1]; step_with (on_bufs_eq _ _ _ _ s Hr).
  2:{ destruct Hin as [-> [o ->]]. left. by exists o. }
  destruct Hin as (b & m & Hwf1 & Hqb1 & Hlast & He & Hav & Hsz). right. exists avail.
  pose proof (bo_size _ _ _ _ (eo_buf _ _ _ _ He)). pose proof (eo_pos _ _ _ _ He).
  split; [lia|]. intros x s' Hx Hbs. step_with (on_stm_eq (readv avail) w1 x s s' Hx). destruct x as [bs|].
  2:{ eexists _, _. split; [reflexivity|]. split; [done|]. simpl. by rewrite app_nil_r. }
  destruct (Hbs bs eq_refl) as [Hne Hle].
  destruct (fill_last w1 q1 e b m bs Hwf1 Hlast He Hne ltac:(lia)) as (w' & Hws & Hwf' & Hqb').
  step_with (on_bufs_eq _ _ _ _ s' (load_buf_eq w1 (ebuf e) b (bo_buf _ _ _ _ (eo_buf _ _ _ _ He)))).
  step_with (on_bufs_eq _ _ _ _ s' Hws). eexists _, _. split; [reflexivity|]. split; [done|]. simpl. by rewrite Hqb', Hqb1.
Qed.

(** Writing: the stream is given a prefix of the bytes, and those it takes are gone. *)
Lemma stm_write_any nwrotep w q s : queue_wf w q -> qbytes w q <> [] ->
  exists iov, iov <> [] /\ Forall (fun bs => bs <> []) iov /\ mjoin iov `prefix_of` qbytes w q /\
    forall (res : bool) n s', writev iov s = Ret ((res, n), s') -> 0 <= n <= zlen (mjoin iov) ->
    exists w' q', ph_bufq_stm_write nwrotep writev q (w, s) = Ret ((res, n, q'), (w', s')) /\
      queue_wf w' q' /\ qbytes w' q' = if res then drop (Z.to_nat n) (qbytes w q) else qbytes w q.
Proof.
  intros Hwf Hne. pose proof Hwf as [Hl Hf]. destruct (iov_of_ok _ Hne) as (Hi & Hall & Hpre).
  exists (iov_of (ebytes w <$> fifo q)). split_and!; try done. intros res n s' Hw Hn.
  unfold ph_bufq_stm_write. step_with (on_bufs_eq _ _ _ _ s (mapM_ent_ok w (fifo q) Hl)).
  pose proof (prefix_length _ _ Hpre) as Hlen. change (mjoin (ebytes w <$> fifo q)) with (lbytes w (fifo q)) in Hlen.
  destruct (iov_of _) as [|v iov]; [done|]. step_with (on_stm_eq (writev (v :: iov)) w (res, n) s s' Hw).
  destruct (res && (0 <? n)) eqn:E.
  - apply andb_true_iff in E as [-> E]. zbool. destruct (eat_loop_ok w (fifo q) n Hl ltac:(lia)) as [Ha Hb].
    destruct (gc_ok w (set_fifo (eat_loop (fifo q) n) q)) as (q' & w' & Hgc & Hwf' & Hqb & _).
    { split; [|done]. by eapply advanced_ok. }
    step_with (on_bufs_eq _ _ _ _ s' Hgc). eexists _, _. split; [reflexivity|]. split; [done|]. rewrite Hqb. exact Hb.
  - eexists _, _. split; [reflexivity|]. split; [done|]. destruct res; [|done]. simpl in E. zbool.
    by replace n with 0 by lia.
Qed.
End stream.
End any_memory.

(** Queues of corelib/buf.c, each with the buffers and blocks it uses. *)
Section bufq.
Context (junk : positive -> nat -> Z).

(** An operation that returns the queue with its result. *)
Definition run {A} (c : M bworld (A * ph_bufq)) : M (bworld * ph_bufq) A := fun '(w, _) =>
  match c w with Ret ((a, q), w) => Ret (a, (w, q)) | Panic => Panic | Fault => Fault end.
Definition run_stm {A C} (c : M (bworld * C) (A * ph_bufq)) : M ((bworld * ph_bufq) * C) A := fun '((w, _), s) =>
  match c (w, s) with Ret ((a, q), (w, s)) => Ret (a, ((w, q), s)) | Panic => Panic | Fault => Fault end.

#[export] Instance bufq_bufq : bufq_api := {
  bq := bworld * ph_bufq;
  bq_len x := ph_bufq_len x.2;
  bq_append bs := fun x => run (ph_bufq_append junk x.2 bs) x;
  bq_stm_write C writev := fun x =>
    run_stm (let* (r, _, q) := ph_bufq_stm_write false writev x.1.2 in ret (r, q)) x;
  bq_stm_read C readv := fun x =>
    run_stm (let* (r, _, q) := ph_bufq_stm_read junk readv x.1.2 in ret (r, q)) x;
  bq_consume_bytes n := fun x => run (ph_bufq_consume_bytes junk x.2 n) x;
  bq_consume_record delim := fun x => run (let* (b, q, _) := ph_bufq_consume_record junk x.2 delim in ret (b, q)) x;
  bq_copy_out n := fun x =>
    run (let* (b, q) := ph_bufq_consume_bytes junk x.2 n in
         match b with
         | None => ret (None, q)
         | Some b => bs <-- buf_bytes b ;; ph_buf_delref b ;;; ret (Some bs, q)
         end) x;
  bq_free x := match ph_bufq_free x.2 x.1 with Ret _ => Ret tt | Panic => Panic | Fault => Fault end;
}.

#[refine, export] Instance bufq_laws_bufq : bufq_laws bufq_bufq := {
  bq_wf := fun x : bworld * ph_bufq => queue_wf x.1 x.2;
  bq_bytes := fun x : bworld * ph_bufq => qbytes x.1 x.2;
}.
Proof.
  - intros [w q] [Hl _]. by apply bufq_len_eq.
  - intros [w q] bs Hwf Hlen. destruct (append_any junk w q bs Hwf Hlen) as (r & n & w' & q' & Ha & Hn & Hwf' & Hqb & H1 & H2).
    exists r, n, (w', q'). cbn. rewrite Ha. destruct Hn. by split_and!.
  - intros C writev [w q] c Hwf Hne. destruct (stm_write_any writev false w q c Hwf Hne) as (iov & H1 & H2 & H3 & Hk).
    exists iov. split_and!; try done. intros res n c' Hw Hn. destruct (Hk res n c' Hw Hn) as (w' & q' & Hs & Hwf' & Hqb).
    exists (w', q'). cbn. unfold bind. by rewrite Hs.
  - intros C readv [w q] c Hwf. destruct (stm_read_any junk readv w q c Hwf) as [(o & Hs)|(avail & Hav & Hk)].
    + left. exists (set_oracle o w, q). cbn. unfold bind. rewrite Hs. split_and!; try done. by apply queue_wf_oracle.
    + right. exists avail. split; [done|]. intros x c' Hx Hbs. destruct (Hk x c' Hx Hbs) as (w' & q' & Hs & Hwf' & Hqb).
      exists (w', q'). cbn. unfold bind. rewrite Hs. destruct x as [bs|]; by split_and!.
Defined.
End bufq.
End BufStream.
