(* ===== verification/Stream.v ===== *)
(** * Streams: corelib/streams/{make,read,write,copy}.c, include/phenom/stream.h

    A stream puts a buffer before an implementation, its table of functions
    ([ph_stream_funcs]).  The buffer is used for reading ahead or for
    collecting writes, as the pointers into it say; NULL is [None], another
    pointer its offset in the buffer. *)

From Stdlib Require Import ZArith Lia.
From stdpp Require Import base numbers list.
From S2P Require Import Prelude SysUtil.

Module Stream.

(** A result, or false with [last_err] set. *)
Abbreviation io A := (A + Z)%type.

(** The functions of an implementation with state [B].  [readv] is given the
    lengths of the vectors and returns the bytes that fill them in order;
    [writev] is given their contents and returns the number written. *)
Record ph_stream_funcs (B : Type) := Funcs {
  f_close : B -> outcome (io unit * B);
  f_readv : list Z -> B -> outcome (io (list Z) * B);
  f_writev : list (list Z) -> B -> outcome (io Z * B);
  f_seek : Z -> Z -> B -> outcome (io Z * B);
}.
Arguments f_close {B}.
Arguments f_readv {B}.
Arguments f_writev {B}.
Arguments f_seek {B}.

(** [locked]: the mutex, of the error-checking kind, is held. *)
Record ph_stream (B : Type) := Stm {
  cookie : B;
  flags : Z;
  rpos : option Z;
  rend : option Z;
  wpos : option Z;
  wend : option Z;
  wbase : option Z;
  buf : list Z;
  bufsize : Z;
  last_err : Z;
  locked : bool;
}.
Arguments Stm {B}.
Arguments cookie {B}.
Arguments flags {B}.
Arguments rpos {B}.
Arguments rend {B}.
Arguments wpos {B}.
Arguments wend {B}.
Arguments wbase {B}.
Arguments buf {B}.
Arguments bufsize {B}.
Arguments last_err {B}.
Arguments locked {B}.

Definition PH_STM_BUFSIZE : Z := 8192.
Definition PH_STM_FLAG_ONSTACK : Z := 1.
Definition EINTR : Z := 4.
Definition SEEK_SET : Z := 0.
Definition SEEK_CUR : Z := 1.
Definition SEEK_END : Z := 2.

(** The difference of two pointers into the buffer. *)
Definition ptr_diff {S} (a b : option Z) : M S Z :=
  match a, b with
  | Some a, Some b => ret (a - b)
  | None, None => ret 0
  | _, _ => fault
  end.

(** The comparison [a > b]. *)
Definition ptr_gt {S} (a b : option Z) : M S bool :=
  match a, b with
  | Some a, Some b => ret (b <? a)
  | None, None => ret false
  | _, _ => fault
  end.

Section stream.
Context {B : Type} (funcs : ph_stream_funcs B).
Abbreviation SM := (M (ph_stream B)).

Definition set_cookie (c : B) (s : ph_stream B) : ph_stream B :=
  Stm c (flags s) (rpos s) (rend s) (wpos s) (wend s)
    (wbase s) (buf s) (bufsize s) (last_err s) (locked s).
Definition set_read (r e : option Z) (s : ph_stream B) : ph_stream B :=
  Stm (cookie s) (flags s) r e (wpos s) (wend s)
    (wbase s) (buf s) (bufsize s) (last_err s) (locked s).
Definition set_write (p e b : option Z) (s : ph_stream B) : ph_stream B :=
  Stm (cookie s) (flags s) (rpos s) (rend s) p e
    b (buf s) (bufsize s) (last_err s) (locked s).
Definition set_buf (l : list Z) (s : ph_stream B) : ph_stream B :=
  Stm (cookie s) (flags s) (rpos s) (rend s) (wpos s) (wend s)
    (wbase s) l (bufsize s) (last_err s) (locked s).
Definition set_err (e : Z) (s : ph_stream B) : ph_stream B :=
  Stm (cookie s) (flags s) (rpos s) (rend s) (wpos s) (wend s)
    (wbase s) (buf s) (bufsize s) e (locked s).
Definition set_locked (b : bool) (s : ph_stream B) : ph_stream B :=
  Stm (cookie s) (flags s) (rpos s) (rend s) (wpos s) (wend s)
    (wbase s) (buf s) (bufsize s) (last_err s) b.

(** Call a function of the table. *)
Definition call {A} (f : B -> outcome (io A * B)) : SM (option A) := fun s =>
  match f (cookie s) with
  | Ret (inl a, c) => Ret (Some a, set_cookie c s)
  | Ret (inr e, c) => Ret (None, set_err e (set_cookie c s))
  | Panic => Panic
  | Fault => Fault
  end.

(** [memcpy] out of and into the stream's buffer. *)
Definition read_buf (p : option Z) (n : Z) : SM (list Z) := fun s =>
  if n =? 0 then Ret ([], s)
  else match p with
       | Some p => if (0 <=? p) && (0 <=? n) && (p + n <=? zlen (buf s))
                   then Ret (slice (Z.to_nat p) (Z.to_nat n) (buf s), s) else Fault
       | None => Fault
       end.
Definition write_buf (p : option Z) (bs : list Z) : SM unit := fun s =>
  if zlen bs =? 0 then Ret (tt, s)
  else match p with
       | Some p => if (0 <=? p) && (p + zlen bs <=? zlen (buf s))
                   then Ret (tt, set_buf (splice (Z.to_nat p) bs (buf s)) s) else Fault
       | None => Fault
       end.

Definition ph_stm_lock : SM unit := fun s =>
  if locked s then Panic else Ret (tt, set_locked true s).
Definition ph_stm_unlock : SM unit := fun s =>
  if locked s then Ret (tt, set_locked false s) else Panic.

(** A new stream: [mem] is the uninitialised buffer space, [None] when the
    allocation fails; [err] is what [pthread_mutex_init] returns. *)
Definition ph_stm_make (c : B) (fl sz : Z) (mem : option (list Z)) (err : Z) : option (ph_stream B) :=
  match mem with
  | None => None
  | Some mem => if negb (err =? 0) then None
                else Some (Stm c fl None None None None None mem sz 0 false)
  end.

(** ** Writing *)

(** The loop of [do_write]: [pre] and [bs] are what is left of the two vectors,
    [two] that both are still there.  The result and the stored count. *)
Fixpoint write_loop (fuel : nat) (pre bs : list Z) (two : bool) (count : Z) : SM (bool * option Z) :=
  match fuel with
  | O => fault
  | S fuel =>
      let iov := if two then [pre; bs] else [bs] in
      let towrite := zlen pre + zlen bs in
      x <-- call (f_writev funcs iov) ;;
      match x with
      | None =>
          modify (set_write None None None) ;;;
          if two then ret (false, None) else ret (true, Some (count - zlen bs))
      | Some x =>
          if (x <? 0) || (towrite <? x) then fault
          else if x =? towrite then
            (fun s => Ret (tt, set_write (Some 0) (Some (bufsize s)) (Some 0) s)) ;;;
            ret (true, Some count)
          else if two then
            if zlen pre <? x then
              (fun s => Ret (tt, set_write (Some 0) (wend s) (Some 0) s)) ;;;
              write_loop fuel [] (drop (Z.to_nat (x - zlen pre)) bs) false count
            else
              (fun s => Ret (tt, set_write (wpos s) (wend s) (option_map (fun p => p + x) (wbase s)) s)) ;;;
              write_loop fuel (drop (Z.to_nat x) pre) bs true count
          else write_loop fuel [] (drop (Z.to_nat x) bs) false count
      end
  end.

Definition do_write (fuel : nat) (bs : list Z) : SM (bool * option Z) :=
  let count := zlen bs in
  (fun s => Ret (tt, match wend s with
                     | Some _ => s
                     | None => set_write (Some 0) (Some (bufsize s)) (Some 0) (set_read None None s)
                     end)) ;;;
  s <-- get ;;
  room <-- ptr_diff (wend s) (wpos s) ;;
  if negb (count =? 0) && (count <? u64 room) then
    write_buf (wpos s) bs ;;;
    modify (set_write (option_map (fun p => p + count) (wpos s)) (wend s) (wbase s)) ;;;
    ret (true, Some count)
  else
    n <-- ptr_diff (wpos s) (wbase s) ;;
    pre <-- read_buf (wbase s) n ;;
    write_loop fuel pre bs true count.

Definition ph_stm_flush (fuel : nat) : SM bool :=
  ph_stm_lock ;;;
  s <-- get ;;
  pending <-- ptr_gt (wpos s) (wbase s) ;;
  if (pending : bool) then
    do_write fuel [] ;;;
    s <-- get ;;
    ph_stm_unlock ;;;
    ret (match wpos s with None => false | Some _ => true end)
  else ph_stm_unlock ;;; ret true.

Definition stm_print (fuel : nat) (bs : list Z) : SM bool :=
  let* (ok, wrote) := do_write fuel bs in
  ret (ok && match wrote with Some n => n =? zlen bs | None => false end).

(** The loop of [ph_stm_writev] over the vectors. *)
Fixpoint writev_loop (fuel : nat) (iov : list (list Z)) (total : Z) (res : bool) : SM (bool * Z) :=
  match iov with
  | [] => ret (res, total)
  | v :: iov =>
      let* (ok, n) := do_write fuel v in
      if (ok : bool) then writev_loop fuel iov (total + default 0 n) true else ret (false, total)
  end.

Definition ph_stm_writev (fuel : nat) (iov : list (list Z)) : SM (bool * option Z) :=
  ph_stm_lock ;;;
  modify (set_err 0) ;;;
  s <-- get ;;
  r <-- (if bufsize s =? 0 then
           x <-- call (f_writev funcs iov) ;;
           ret (match x with Some n => (true, Some n) | None => (false, None) end)
         else
           let* (res, total) := writev_loop fuel iov 0 true in
           ret (if total =? 0 then (res, None) else (true, Some total))) ;;
  ph_stm_unlock ;;;
  ret r.

Definition ph_stm_write (fuel : nat) (bs : list Z) : SM (bool * option Z) :=
  ph_stm_lock ;;;
  modify (set_err 0) ;;;
  if zlen bs =? 0 then ph_stm_unlock ;;; ret (true, Some 0)
  else
    r <-- do_write fuel bs ;;
    ph_stm_unlock ;;;
    ret r.

(** The result and the new position. *)
Definition ph_stm_seek (fuel : nat) (delta whence : Z) : SM (option Z) :=
  ok <-- ph_stm_flush fuel ;;
  if negb ok then ret None
  else
    ph_stm_lock ;;;
    modify (set_err 0) ;;;
    s <-- get ;;
    ahead <-- (if whence =? SEEK_CUR then ptr_diff (rend s) (rpos s) else ret 0) ;;
    modify (set_write None None None) ;;;
    r <-- call (f_seek funcs (s64 (delta - ahead)) whence) ;;
    match r with
    | None => ph_stm_unlock ;;; ret None
    | Some p => modify (set_read None None) ;;; ph_stm_unlock ;;; ret (Some p)
    end.

(** ** Reading *)

Definition ph_stm_readahead (fuel : nat) (count : Z) : SM bool :=
  ok <-- ph_stm_flush fuel ;;
  s <-- get ;;
  if negb ok then ret false
  else if bufsize s =? 0 then ret true
  else
    ph_stm_lock ;;;
    s <-- get ;;
    have <-- ptr_diff (rend s) (rpos s) ;;
    if count <=? u64 have then ph_stm_unlock ;;; ret true
    else
      (match rend s with
       | Some _ => ret tt
       | None => modify (set_read (Some 0) (Some 0))
       end) ;;;
      s <-- get ;;
      let e := default 0 (rend s) in
      let bufavail := u64 (bufsize s - e) in
      if bufavail =? 0 then ph_stm_unlock ;;; ret true
      else
        r <-- call (f_readv funcs [bufavail]) ;;
        match r with
        | None => ph_stm_unlock ;;; ret false
        | Some bs =>
            if bufavail <? zlen bs then fault
            else
              write_buf (Some e) bs ;;;
              modify (set_read (rpos s) (Some (e + zlen bs))) ;;;
              ph_stm_unlock ;;; ret true
        end.

(** The loop of [ph_stm_read] that reads [count] more bytes after [acc]; every
    iteration but the last gets at least one.  [None] is false. *)
Fixpoint read_loop (fuel : nat) (count : Z) (acc : list Z) : SM (option (list Z)) :=
  match fuel with
  | O => fault
  | S fuel =>
      if count =? 0 then ret (Some acc)
      else
        s <-- get ;;
        let first := count - (if bufsize s =? 0 then 0 else 1) in
        r <-- call (f_readv funcs [first; bufsize s]) ;;
        match r with
        | None | Some [] =>
            modify (set_read None None) ;;;
            ret (match acc with [] => None | _ => Some acc end)
        | Some bs =>
            if first + bufsize s <? zlen bs then fault
            else if first <? zlen bs then
              let over := drop (Z.to_nat first) bs in
              write_buf (Some 0) over ;;;
              (if bufsize s =? 0 then modify (set_read (Some 0) (Some (zlen over))) ;;; ret (Some (acc ++ bs))
               else
                 c <-- read_buf (Some 0) 1 ;;
                 modify (set_read (Some 1) (Some (zlen over))) ;;;
                 ret (Some (acc ++ take (Z.to_nat first) bs ++ c)))
            else read_loop fuel (count - zlen bs) (acc ++ bs)
        end
  end.

(** The bytes read, or [None] for false. *)
Definition ph_stm_read (fuel : nat) (count : Z) : SM (option (list Z)) :=
  ok <-- ph_stm_flush fuel ;;
  if negb ok then ret None
  else
    ph_stm_lock ;;;
    modify (set_err 0) ;;;
    if count =? 0 then ph_stm_unlock ;;; ret (Some [])
    else
      s <-- get ;;
      have <-- ptr_diff (rend s) (rpos s) ;;
      acc <-- (if 0 <? have then
                 let x := MIN have count in
                 bs <-- read_buf (rpos s) x ;;
                 modify (set_read (option_map (fun p => p + x) (rpos s)) (rend s)) ;;;
                 ret bs
               else ret []) ;;
      r <-- read_loop (S (Z.to_nat count)) (count - zlen acc) acc ;;
      ph_stm_unlock ;;;
      ret r.

(** The result, and whether the stream was freed. *)
Definition ph_stm_close (fuel : nat) : SM (bool * bool) :=
  ok <-- ph_stm_flush fuel ;;
  if negb ok then ret (false, false)
  else
    r <-- call (f_close funcs) ;;
    match r with
    | None => ret (false, false)
    | Some _ => s <-- get ;; ret (true, Z.land (flags s) PH_STM_FLAG_ONSTACK =? 0)
    end.

End stream.

(** ** Copying from one stream to another *)

Section copy.
Context {A B : Type} (fa : ph_stream_funcs A) (fb : ph_stream_funcs B).
Abbreviation CM := (M (ph_stream A * ph_stream B)).

Definition on_src {T} (c : M (ph_stream A) T) : CM T := fun '(s, d) =>
  match c s with Ret (x, s) => Ret (x, (s, d)) | Panic => Panic | Fault => Fault end.
Definition on_dest {T} (c : M (ph_stream B) T) : CM T := fun '(s, d) =>
  match c d with Ret (x, d) => Ret (x, (s, d)) | Panic => Panic | Fault => Fault end.

(** The inner loop: the number of bytes written, and the error or 0. *)
Fixpoint copy_write (wf fuel : nat) (bs : list Z) (nwrote : Z) : CM (Z * Z) :=
  match fuel with
  | O => fault
  | S fuel =>
      if zlen bs =? 0 then ret (nwrote, 0)
      else
        let* (ok, w) := on_dest (ph_stm_write fb wf bs) in
        if (ok : bool) then
          let w := default 0 w in
          copy_write wf fuel (drop (Z.to_nat w) bs) (nwrote + w)
        else
          let* (_, d) := get in
          if last_err d =? EINTR then copy_write wf fuel bs nwrote
          else ret (nwrote, last_err d)
  end.

(** The result, and the numbers of bytes read and written. *)
Fixpoint copy_loop (wf fuel : nat) (remain nread nwrote : Z) : CM (bool * Z * Z) :=
  match fuel with
  | O => fault
  | S fuel =>
      if remain =? 0 then ret (true, nread, nwrote)
      else
        r <-- on_src (ph_stm_read fa wf (MIN remain PH_STM_BUFSIZE)) ;;
        match r with
        | None =>
            let* (s, _) := get in
            if last_err s =? EINTR then copy_loop wf fuel remain nread nwrote
            else ret (last_err s =? 0, nread, nwrote)
        | Some [] => ret (true, nread, nwrote)
        | Some bs =>
            let* (nwrote, err) := copy_write wf fuel bs nwrote in
            if err =? 0 then copy_loop wf fuel (remain - zlen bs) (nread + zlen bs) nwrote
            else ret (false, nread + zlen bs, nwrote)
        end
  end.

Definition ph_stm_copy (wf fuel : nat) (num_bytes : Z) : CM (bool * Z * Z) :=
  copy_loop wf fuel num_bytes 0 0.

End copy.
End Stream.
