(* ===== verification/StreamProofs.v ===== *)
(** * Buffered streams deliver the bytes they are given

    [sink] and [source] are what an implementation promises: a write takes a
    prefix of the data, a read returns the next bytes.  Against these
    interfaces: the bytes of a stream are those the implementation has, then
    (writing) those pending in the buffer, or (reading) before them those read
    ahead. *)

From Stdlib Require Import ZArith Lia.
From stdpp Require Import base numbers list.
From S2P Require Import Prelude SysUtil Stream.

Module StreamProofs.
Export Stream.

(** An implementation, in states that satisfy [inv], appends to [log] as long
    as it stays below [cap] bytes; [err] are the errors it reports. *)
Class sink {B} (funcs : ph_stream_funcs B) (inv : B -> Prop) (log : B -> list Z) (cap : Z)
    (err : Z -> Prop) : Prop := {
  sink_writev iov b : inv b -> zlen (log b) + zlen (mjoin iov) <= cap ->
    exists r b', f_writev funcs iov b = Ret (r, b') /\ inv b' /\
      match r with
      | inl n => 0 <= n <= zlen (mjoin iov) /\ (mjoin iov <> [] -> 0 < n) /\
                 log b' = log b ++ take (Z.to_nat n) (mjoin iov)
      | inr e => e <> 0 /\ err e /\ log b' = log b
      end;
}.

(** An implementation returns the next bytes of [rest], and none only at the
    end. *)
Class source {B} (funcs : ph_stream_funcs B) (inv : B -> Prop) (rest : B -> list Z)
    (err : Z -> Prop) : Prop := {
  source_readv lens b : inv b -> Forall (fun n => 0 <= n) lens ->
    exists r b', f_readv funcs lens b = Ret (r, b') /\ inv b' /\
      match r with
      | inl bs => zlen bs <= zsum id lens /\ rest b = bs ++ rest b' /\
                  (bs = [] -> 0 < zsum id lens -> rest b = [])
      | inr e => e <> 0 /\ err e /\ rest b' = rest b
      end;
}.

(** The bytes waiting to be written, and those read ahead. *)
Definition pending {B} (s : ph_stream B) : list Z :=
  match wbase s, wpos s with
  | Some a, Some b => slice (Z.to_nat a) (Z.to_nat (b - a)) (buf s)
  | _, _ => []
  end.
Definition ahead {B} (s : ph_stream B) : list Z :=
  match rpos s, rend s with
  | Some a, Some b => slice (Z.to_nat a) (Z.to_nat (b - a)) (buf s)
  | _, _ => []
  end.

(** The pointers of a stream between calls. *)
Definition in_buf {B} (s : ph_stream B) (a b : option Z) : Prop :=
  match a, b with
  | Some a, Some b => 0 <= a <= b /\ b <= bufsize s
  | None, None => True
  | _, _ => False
  end.

Record ptrs_ok {B} (s : ph_stream B) : Prop := {
  so_size : bufsize s = zlen (buf s);
  so_max : bufsize s < 2 ^ 32;
  so_read : in_buf s (rpos s) (rend s);
  so_write : in_buf s (wbase s) (wpos s);
  so_wend : wend s = match wpos s with Some _ => Some (bufsize s) | None => None end;
}.
Definition stm_ok {B} (s : ph_stream B) : Prop := ptrs_ok s /\ locked s = false.

Lemma pending_len {B} (s : ph_stream B) a b :
  bufsize s = zlen (buf s) -> wbase s = Some a -> wpos s = Some b -> 0 <= a <= b -> b <= bufsize s ->
  zlen (pending s) = b - a.
Proof. intros Hs Ha Hb H1 H2. unfold pending. rewrite Ha, Hb, length_slice; lia. Qed.

Lemma ahead_len {B} (s : ph_stream B) a b :
  bufsize s = zlen (buf s) -> rpos s = Some a -> rend s = Some b -> 0 <= a <= b -> b <= bufsize s ->
  zlen (ahead s) = b - a.
Proof. intros Hs Ha Hb H1 H2. unfold ahead. rewrite Ha, Hb, length_slice; lia. Qed.

(** What writing does not change. *)
Definition same_rest {B} (s s' : ph_stream B) : Prop :=
  flags s' = flags s /\ buf s' = buf s /\ bufsize s' = bufsize s /\ locked s' = locked s /\
  rpos s' = rpos s /\ rend s' = rend s.

Section writing.
Context {B : Type} (funcs : ph_stream_funcs B) (inv : B -> Prop) (log : B -> list Z) (cap : Z)
  (err : Z -> Prop).
Context `{Hsink : !sink funcs inv log cap err}.
Abbreviation failed e := (e <> 0 /\ err e).
Implicit Types s : ph_stream B.

Definition written s : list Z := log (cookie s) ++ pending s.

(** How [write_loop] ends: everything was sent, a failure after [j] bytes of
    the second vector, or a failure within the first. *)
Inductive sent (l pre bs : list Z) (two : bool) (count : Z) (s' : ph_stream B) : bool -> option Z -> Prop :=
  | sent_all : log (cookie s') = l ++ pre ++ bs ->
      wpos s' = Some 0 -> wbase s' = Some 0 -> wend s' = Some (bufsize s') ->
      sent l pre bs two count s' true (Some count)
  | sent_part j : (j < length bs)%nat -> (two = true -> (0 < j)%nat) -> log (cookie s') = l ++ pre ++ take j bs ->
      wpos s' = None -> wbase s' = None -> wend s' = None -> failed (last_err s') ->
      sent l pre bs two count s' true (Some (count - (zlen bs - Z.of_nat j)))
  | sent_fail k : two = true -> log (cookie s') = l ++ take k pre ->
      wpos s' = None -> wbase s' = None -> wend s' = None -> failed (last_err s') ->
      sent l pre bs two count s' false None.

Lemma take_app_drop {A} (l : list A) n j : take n l ++ take j (drop n l) = take (n + j) l.
Proof.
  destruct (decide (n <= length l)%nat) as [H|H].
  - rewrite <- (take_drop n l) at 3. rewrite take_app_ge by (rewrite length_take; lia).
    rewrite length_take, Nat.min_l by lia. do 2 f_equal. lia.
  - rewrite (drop_ge l n) by lia. rewrite take_nil, app_nil_r. rewrite !take_ge by lia. done.
Qed.

(** An iteration that took [y] bytes of the second vector, or [x] of the first. *)
Lemma sent_skip l pre bs two count s' ok n y : (0 < y <= length bs)%nat ->
  sent (l ++ pre ++ take y bs) [] (drop y bs) false count s' ok n -> sent l pre bs two count s' ok n.
Proof.
  intros Hy Hs. destruct Hs as [Hl Hp Hb He|j Hj _ Hl Hp Hb He Hf|k Hk]; [| |done].
  - apply sent_all; try done. rewrite Hl, <- !app_assoc. simpl. by rewrite take_drop.
  - rewrite length_drop in Hj.
    replace (count - (zlen (drop y bs) - Z.of_nat j)) with (count - (zlen bs - Z.of_nat (y + j)))
      by (rewrite length_drop; lia).
    apply sent_part; try done; [lia|lia|]. rewrite Hl, <- !app_assoc. simpl. by rewrite take_app_drop.
Qed.

Lemma sent_pre l pre bs count s' ok n x :
  sent (l ++ take x pre) (drop x pre) bs true count s' ok n -> sent l pre bs true count s' ok n.
Proof.
  intros Hs. destruct Hs as [Hl Hp Hb He|j Hj Hj0 Hl Hp Hb He Hf|k Hk Hl Hp Hb He].
  - apply sent_all; try done. rewrite Hl, <- !app_assoc. f_equal. by rewrite app_assoc, take_drop.
  - apply sent_part; try done. rewrite Hl, <- !app_assoc. f_equal. by rewrite app_assoc, take_drop.
  - apply (sent_fail _ _ _ _ _ _ (x + k)); try done. by rewrite Hl, <- app_assoc, take_app_drop.
Qed.

#[local] Ltac rerun IH :=
  lazymatch goal with
  | |- context [write_loop _ _ ?pre ?bs ?two ?count ?s = _] =>
      let ok := fresh "ok" in let n := fresh "n" in let s' := fresh "s'" in
      destruct (IH pre bs two count s) as (ok & n & s' & Hloop & Hi & Hrest & Hs)
  end.

Lemma write_loop_ok fuel : forall pre bs (two : bool) count s,
  inv (cookie s) -> zlen (log (cookie s)) + zlen pre + zlen bs <= cap ->
  (two = false -> pre = [] /\ bs <> []) -> (length pre + length bs < fuel)%nat ->
  exists ok n s', write_loop funcs fuel pre bs two count s = Ret ((ok, n), s') /\
    inv (cookie s') /\ same_rest s s' /\ sent (log (cookie s)) pre bs two count s' ok n.
Proof.
  induction fuel as [|fuel IH]; intros pre bs two count s Hinv Hcap Htwo Hfuel; [lia|].
  cbn [write_loop]. set (iov := if two then [pre; bs] else [bs]).
  assert (mjoin iov = pre ++ bs) as Hiov.
  { unfold iov. destruct two; simpl; rewrite ?app_nil_r; [done|]. by destruct (Htwo eq_refl) as [-> _]. }
  destruct (sink_writev iov (cookie s) Hinv) as (r & b' & Hwr & Hinv' & Hr); [rewrite Hiov, length_app; lia|].
  rewrite Hiov, length_app in Hr. destruct r as [x|e].
  - assert (call (f_writev funcs iov) s = Ret (Some x, set_cookie b' s)) as Hc by (unfold call; by rewrite Hwr).
    step_with Hc. destruct Hr as (Hx & Hpos & Hlog).
    rewrite (proj2 (Z.ltb_ge x 0)), (proj2 (Z.ltb_ge _ x)) by lia. cbn [orb].
    destruct (x =? zlen pre + zlen bs) eqn:Eall; zbool.
    { step. eexists _, _, _. split; [reflexivity|]. split; [done|]. split; [done|].
      apply sent_all; simpl; try done. rewrite Hlog, take_ge; [done|]. rewrite length_app. lia. }
    assert (0 < x) as Hx0 by (apply Hpos; destruct pre, bs; (done || (simpl in *; lia))).
    assert (length (log b') = (length (log (cookie s)) + Z.to_nat x)%nat) as Hll.
    { rewrite Hlog, length_app, length_take, length_app. lia. }
    destruct two; [destruct (zlen pre <? x) eqn:Epre; zbool; step|].
    + rerun IH; [exact Hinv'| | | |].
      4:{ exists ok, n, s'. split; [exact Hloop|]. split; [done|]. split; [exact Hrest|].
          apply (sent_skip _ _ _ _ _ _ _ _ (Z.to_nat (x - zlen pre))); [lia|].
          cbn [cookie set_write set_cookie] in Hs. rewrite Hlog in Hs.
          rewrite firstn_app, (take_ge pre) in Hs by lia.
          by replace (Z.to_nat x - length pre)%nat with (Z.to_nat (x - zlen pre)) in Hs by lia. }
      * simpl. rewrite Hll, length_drop. lia.
      * intros _. split; [done|]. intros Hn%(f_equal length). rewrite length_drop in Hn. simpl in Hn. lia.
      * rewrite length_drop. simpl. lia.
    + rerun IH; [exact Hinv'| |done| |].
      3:{ exists ok, n, s'. split; [exact Hloop|]. split; [done|]. split; [exact Hrest|].
          apply (sent_pre _ _ _ _ _ _ _ (Z.to_nat x)).
          cbn [cookie set_write set_cookie] in Hs. by rewrite Hlog, take_app_le in Hs by lia. }
      * simpl. rewrite Hll, length_drop. lia.
      * rewrite length_drop. lia.
    + destruct (Htwo eq_refl) as [-> _].
      rerun IH; [exact Hinv'| | | |].
      4:{ exists ok, n, s'. split; [exact Hloop|]. split; [done|]. split; [exact Hrest|].
          apply (sent_skip _ _ _ _ _ _ _ _ (Z.to_nat x)); [simpl in *; lia|].
          cbn [cookie set_write set_cookie] in Hs. by rewrite Hlog in Hs. }
      * simpl in *. rewrite Hll, length_drop. lia.
      * intros _. split; [done|]. intros Hn%(f_equal length). rewrite length_drop in Hn. simpl in *. lia.
      * rewrite length_drop. simpl in *. lia.
  - assert (call (f_writev funcs iov) s = Ret (None, set_err e (set_cookie b' s))) as Hc by (unfold call; by rewrite Hwr).
    step_with Hc. step. destruct Hr as (He & Herr & Hlog). destruct two.
    + eexists _, _, _. split; [reflexivity|]. split; [done|]. split; [done|].
      apply (sent_fail _ _ _ _ _ _ 0); simpl; try done. by rewrite app_nil_r.
    + destruct (Htwo eq_refl) as [-> Hbs]. eexists _, _, _. split; [reflexivity|]. split; [done|]. split; [done|].
      replace (count - zlen bs) with (count - (zlen bs - Z.of_nat 0)) by lia.
      apply sent_part; simpl; try done; [destruct bs; [done|simpl; lia]|]. by rewrite app_nil_r.
Qed.

(** The stream after its write mode was set up. *)
Definition ready s : ph_stream B :=
  match wend s with
  | Some _ => s
  | None => set_write (Some 0) (Some (bufsize s)) (Some 0) (set_read None None s)
  end.

Lemma ready_ok s : ptrs_ok s -> ptrs_ok (ready s) /\ pending (ready s) = pending s /\
  cookie (ready s) = cookie s /\ locked (ready s) = locked s /\ bufsize (ready s) = bufsize s /\
  exists a b, wbase (ready s) = Some a /\ wpos (ready s) = Some b /\ 0 <= a <= b /\ b <= bufsize (ready s) /\
    wend (ready s) = Some (bufsize (ready s)).
Proof.
  intros Hok. pose proof Hok as [Hsz Hmax Hr Hw He]. unfold ready. destruct (wend s) as [e|] eqn:Ee.
  - split; [done|]. split_and!; try done. unfold in_buf in Hw. destruct (wpos s) as [b|]; [|done].
    destruct (wbase s) as [a|]; [|done]. injection He as ->. exists a, b. split_and!; (done || lia).
  - split; [split; simpl; (done || lia)|]. split.
    + unfold pending. simpl. unfold in_buf in Hw. destruct (wpos s); [done|]. by destruct (wbase s).
    + split_and!; try done. exists 0, 0. simpl. split_and!; (done || lia).
Qed.

Lemma sent_ptrs s s' l pre bs two count ok n :
  ptrs_ok s -> same_rest s s' -> sent l pre bs two count s' ok n -> ptrs_ok s' /\ pending s' = [].
Proof.
  intros [Hsz Hmax Hr Hw He] (_ & Hb & Hbs & _ & Hrp & Hre) Hs. unfold in_buf in *. rewrite <- Hrp, <- Hre, <- Hbs in Hr.
  destruct Hs as [_ H1 H2 H3|j _ _ _ H1 H2 H3 _|k _ _ H1 H2 H3 _];
    (split; [split; unfold in_buf; rewrite ?H1, ?H2, ?H3, ?Hb, ?Hbs in *; (done || lia)|]);
    unfold pending; by rewrite H1, H2.
Qed.

(** The two ways a write ends. *)
Definition write_result s (bs : list Z) s' (ok : bool) (n : option Z) : Prop :=
  if ok then exists m, n = Some m /\ 0 <= m <= zlen bs /\ (bs <> [] -> 0 < m) /\
    written s' = written s ++ take (Z.to_nat m) bs /\ (bs = [] -> wpos s' <> None /\ pending s' = []) /\
    (m < zlen bs -> failed (last_err s'))
  else n = None /\ wpos s' = None /\ failed (last_err s') /\
    exists k, written s' = log (cookie s) ++ take k (pending s).

Lemma sent_result s s1 bs s' ok n :
  pending s' = [] -> cookie s1 = cookie s ->
  sent (log (cookie s1)) (pending s) bs true (zlen bs) s' ok n -> write_result s bs s' ok n.
Proof.
  intros Hp Hc Hs. unfold write_result, written. rewrite Hp, app_nil_r, <- Hc.
  destruct Hs as [Hl H1 H2 H3|j Hj Hj0 Hl H1 H2 H3 Hf|k _ Hl H1 H2 H3 [Herr1 Herr2]].
  - exists (zlen bs). rewrite Nat2Z.id, firstn_all, Hl, <- app_assoc, H1. split_and!; try (done || lia).
    intros Hn. destruct bs; [done|simpl; lia].
  - exists (Z.of_nat j). split; [f_equal; lia|]. split; [lia|]. split; [specialize (Hj0 eq_refl); lia|]. rewrite Nat2Z.id, Hl, <- app_assoc. split; [done|].
    split; [|done]. intros ->. simpl in Hj. lia.
  - split_and!; try done. by exists k.
Qed.

Lemma do_write_ok fuel s bs :
  ptrs_ok s -> inv (cookie s) -> zlen (written s) + zlen bs <= cap ->
  (length (pending s) + length bs < fuel)%nat ->
  exists ok n s', do_write funcs fuel bs s = Ret ((ok, n), s') /\ ptrs_ok s' /\ inv (cookie s') /\
    locked s' = locked s /\ bufsize s' = bufsize s /\ write_result s bs s' ok n.
Proof.
  intros Hok Hinv Hcap Hfuel. destruct (ready_ok s Hok) as (Hok1 & Hp1 & Hc1 & Hlk & Hbz & a & b & Ha & Hb & Hab & Hbs & He).
  pose proof Hok1 as [Hsz Hmax Hr Hw _]. unfold do_write.
  assert ((fun s => Ret (tt, match wend s with
    | Some _ => s
    | None => set_write (Some 0) (Some (bufsize s)) (Some 0) (set_read None None s) end)) s = Ret (tt, ready s)) as Hrd by done.
  step_with Hrd. step. rewrite He, Hb. step. rewrite (wrapU_small 64) by lia.
  pose proof (pending_len _ a b Hsz Ha Hb Hab Hbs) as Hpl. unfold written in Hcap. rewrite length_app in Hcap.
  destruct (negb (zlen bs =? 0) && (zlen bs <? bufsize (ready s) - b)) eqn:Efit; zbool.
  - unfold write_buf. erewrite bind_ret.
    2:{ rewrite (proj2 (Z.eqb_neq _ _)), (proj2 (Z.leb_le 0 b)), (proj2 (Z.leb_le (b + _) _)) by lia. reflexivity. }
    step. eexists _, _, _. split; [reflexivity|].
    assert (length (splice (Z.to_nat b) bs (buf (ready s))) = length (buf (ready s))) as Hlen by (apply length_splice; lia).
    split; [split; unfold in_buf in *; simpl; rewrite ?Ha, ?He in *; (done || lia)|].
    split; [simpl; by rewrite Hc1|]. split; [done|]. split; [done|]. exists (zlen bs). split; [done|]. split; [lia|].
    split; [lia|]. split; [|split; [intros ->; simpl in *; lia|lia]]. unfold written, pending at 1. simpl. rewrite Hc1, <- app_assoc, Ha. f_equal.
    rewrite Nat2Z.id, firstn_all, <- Hp1. unfold pending. rewrite Ha, Hb.
    replace (Z.to_nat (b + zlen bs - a)) with (Z.to_nat (b - a) + length bs)%nat by lia.
    replace (Z.to_nat b) with (Z.to_nat a + Z.to_nat (b - a))%nat at 1 by lia. apply slice_splice_extend. lia.
  - rewrite Ha. step.
    assert (read_buf (Some a) (b - a) (ready s) = Ret (pending s, ready s)) as Hrb.
    { unfold read_buf. rewrite <- Hp1. unfold pending. rewrite Ha, Hb.
      destruct (b - a =? 0) eqn:E0; zbool; [by rewrite E0|].
      by rewrite (proj2 (Z.leb_le 0 a)), (proj2 (Z.leb_le 0 (b - a))), (proj2 (Z.leb_le _ _)) by lia. }
    step_with Hrb.
    destruct (write_loop_ok fuel (pending s) bs true (zlen bs) (ready s)) as (ok & n & s' & Hloop & Hinv' & Hrest & Hs);
      [by rewrite Hc1|rewrite Hc1; lia|done|lia|].
    destruct (sent_ptrs _ _ _ _ _ _ _ _ _ Hok1 Hrest Hs) as [Hok' Hp'].
    exists ok, n, s'. split; [exact Hloop|]. split; [done|]. split; [done|]. split.
    + destruct Hrest as (_ & _ & _ & -> & _). done.
    + split; [by destruct Hrest as (_ & _ & -> & _)|]. by apply (sent_result s (ready s)).
Qed.

Lemma ptrs_ok_err s e : ptrs_ok s -> ptrs_ok (set_err e s).
Proof. intros []. by split. Qed.
Lemma ptrs_ok_lock s b : ptrs_ok s -> ptrs_ok (set_locked b s).
Proof. intros []. by split. Qed.

Lemma lock_eq s : locked s = false -> ph_stm_lock s = Ret (tt, set_locked true s).
Proof. unfold ph_stm_lock. by intros ->. Qed.
Lemma unlock_eq s : locked s = true -> ph_stm_unlock s = Ret (tt, set_locked false s).
Proof. unfold ph_stm_unlock. by intros ->. Qed.

Lemma stm_write_ok fuel s bs :
  stm_ok s -> inv (cookie s) -> zlen (written s) + zlen bs <= cap ->
  (length (pending s) + length bs < fuel)%nat ->
  exists ok n s', ph_stm_write funcs fuel bs s = Ret ((ok, n), s') /\ stm_ok s' /\ inv (cookie s') /\
    bufsize s' = bufsize s /\ if (ok : bool)
    then exists m, n = Some m /\ 0 <= m <= zlen bs /\ (bs <> [] -> 0 < m) /\
      written s' = written s ++ take (Z.to_nat m) bs /\ (m < zlen bs -> failed (last_err s'))
    else n = None /\ failed (last_err s') /\ exists k, written s' = log (cookie s) ++ take k (pending s).
Proof.
  intros [Hok Hlk] Hinv Hcap Hfuel. unfold ph_stm_write. step_with (lock_eq s Hlk). step.
  set (s1 := set_err 0 (set_locked true s)).
  assert (ptrs_ok s1) as Hok1 by (by apply ptrs_ok_err, ptrs_ok_lock).
  destruct (zlen bs =? 0) eqn:E; zbool.
  - step_with (unlock_eq s1 eq_refl). eexists _, _, _. split; [reflexivity|].
    assert (set_locked false s1 = set_err 0 s) as -> by (unfold s1; simpl; unfold set_locked, set_err; simpl; by rewrite Hlk).
    split; [split; [by apply ptrs_ok_err|done]|]. split; [done|]. split; [done|].
    exists 0. destruct bs; [|simpl in E; lia]. split_and!; try (done || (simpl; lia)). unfold written, pending. simpl. by rewrite app_nil_r.
  - destruct (do_write_ok fuel s1 bs Hok1 Hinv Hcap Hfuel) as (ok & n & s2 & Hw & Hok2 & Hinv2 & Hlk2 & Hbz & Hres).
    step_with Hw. step_with (unlock_eq s2 Hlk2). exists ok, n, (set_locked false s2). split; [done|].
    split; [split; [by apply ptrs_ok_lock|done]|]. split; [done|].
    split; [done|]. unfold write_result in Hres. destruct ok.
    + destruct Hres as (m & -> & Hm & Hm0 & Hwr & _ & Hf). by exists m.
    + destruct Hres as (-> & _ & He & k & Hwr). split; [done|]. split; [done|]. by exists k.
Qed.

(** C34. Writing terminates and appends exactly the reported number of bytes, at
    least one, to what was written before, whether they stay in the buffer or
    the implementation took them in several partial writes; a failure reports an
    error and drops at most bytes that were pending. *)
Theorem stm_write_spec fuel s bs :
  stm_ok s -> inv (cookie s) -> zlen (written s) + zlen bs <= cap ->
  (length (pending s) + length bs < fuel)%nat ->
  exists ok n s', ph_stm_write funcs fuel bs s = Ret ((ok, n), s') /\ stm_ok s' /\ inv (cookie s') /\
    if (ok : bool)
    then exists m, n = Some m /\ 0 <= m <= zlen bs /\ (bs <> [] -> 0 < m) /\ written s' = written s ++ take (Z.to_nat m) bs
    else n = None /\ failed (last_err s') /\ exists k, written s' = log (cookie s) ++ take k (pending s).
Proof.
  intros H1 H2 H3 H4. destruct (stm_write_ok fuel s bs H1 H2 H3 H4) as (ok & n & s' & Hw & Hok & Hi & _ & Hr).
  exists ok, n, s'. split_and!; try done. destruct ok; [|done]. destruct Hr as (m & ? & ? & ? & ? & _). by exists m.
Qed.

Lemma flush_idle fuel s : stm_ok s -> pending s = [] -> ph_stm_flush funcs fuel s = Ret (true, s).
Proof.
  intros [Hok Hlk] Hp. unfold ph_stm_flush. step_with (lock_eq s Hlk). step.
  assert (ptr_gt (wpos s) (wbase s) (set_locked true s) = Ret (false, set_locked true s)) as Hgt.
  { pose proof (so_write _ Hok) as Hw. unfold in_buf in Hw. unfold ptr_gt.
    destruct (wbase s) as [a|] eqn:Ea, (wpos s) as [b|] eqn:Eb; try done.
    pose proof (pending_len s a b (so_size _ Hok) Ea Eb (proj1 Hw) (proj2 Hw)) as Hl. rewrite Hp in Hl. simpl in Hl.
    by rewrite (proj2 (Z.ltb_ge a b)) by lia. }
  step_with Hgt. step_with (unlock_eq (set_locked true s) eq_refl). unfold ret. do 2 f_equal. destruct s. simpl in *. by rewrite Hlk.
Qed.

(** Flushing leaves nothing pending; when it succeeds the implementation has
    received exactly the bytes written so far, in order. *)
Theorem stm_flush_spec fuel s :
  stm_ok s -> inv (cookie s) -> zlen (written s) <= cap -> (length (pending s) < fuel)%nat ->
  exists ok s', ph_stm_flush funcs fuel s = Ret (ok, s') /\ stm_ok s' /\ inv (cookie s') /\ pending s' = [] /\
    if (ok : bool) then log (cookie s') = written s
    else failed (last_err s') /\ exists k, log (cookie s') = log (cookie s) ++ take k (pending s).
Proof.
  intros Hs Hinv Hcap Hfuel. destruct (decide (pending s = [])) as [Hp|Hp].
  { exists true, s. split; [by apply flush_idle|]. split_and!; try done. unfold written. by rewrite Hp, app_nil_r. }
  pose proof Hs as [Hok Hlk]. unfold ph_stm_flush. step_with (lock_eq s Hlk). step.
  assert (ptr_gt (wpos s) (wbase s) (set_locked true s) = Ret (true, set_locked true s)) as Hgt.
  { pose proof (so_write _ Hok) as Hw. unfold in_buf in Hw. unfold ptr_gt, pending in *.
    destruct (wbase s) as [a|], (wpos s) as [b|]; try done.
    destruct (a <? b) eqn:E; [done|]. zbool. replace (b - a) with 0 in Hp by lia. done. }
  step_with Hgt. destruct (do_write_ok fuel (set_locked true s) []) as (ok & n & s2 & Hw & Hok2 & Hinv2 & Hlk2 & Hbz & Hres);
    [by apply ptrs_ok_lock|done|simpl; rewrite Z.add_0_r; done|simpl; by rewrite Nat.add_0_r|].
  step_with Hw. step. step_with (unlock_eq s2 Hlk2).
  exists (match wpos s2 with Some _ => true | None => false end), (set_locked false s2).
  split; [by destruct (wpos s2)|]. split; [split; [by apply ptrs_ok_lock|done]|]. split; [done|].
  unfold write_result in Hres. destruct ok.
  - destruct Hres as (m & _ & _ & _ & Hwr & Hnil & _). destruct (Hnil eq_refl) as [Hwp Hpe].
    split; [done|]. destruct (wpos s2); [|done]. unfold written in Hwr. rewrite Hpe, take_nil, !app_nil_r in Hwr. done.
  - destruct Hres as (_ & Hwp & He & k & Hwr). assert (pending s2 = []) as Hpe.
    { unfold pending. rewrite Hwp. by destruct (wbase s2). }
    rewrite Hwp. split; [done|]. split; [done|]. exists k. unfold written in Hwr. rewrite Hpe, app_nil_r in Hwr. done.
Qed.

End writing.
(** ** Reading *)

Section reading.
Context {B : Type} (funcs : ph_stream_funcs B) (inv : B -> Prop) (rest : B -> list Z) (err : Z -> Prop).
Context `{Hsource : !source funcs inv rest err}.
Implicit Types s : ph_stream B.

Definition unread s : list Z := ahead s ++ rest (cookie s).

(** Reading leaves the write side as it was, with nothing pending. *)
Definition read_frame s s' : Prop :=
  ptrs_ok s' /\ inv (cookie s') /\ locked s' = locked s /\
  wpos s' = wpos s /\ wbase s' = wbase s /\ pending s' = [].

(** The bytes [bs] were read; without an error they are as many as asked for
    or all there are. *)
Definition got s (l bs : list Z) (count : Z) s' : Prop :=
  l = bs ++ unread s' /\ zlen bs <= count /\
  (last_err s = 0 -> last_err s' = 0 -> zlen bs = Z.min count (zlen l)).

Lemma pending_ptrs s s' : wpos s' = wpos s -> wbase s' = wbase s -> ptrs_ok s -> pending s = [] -> pending s' = [].
Proof.
  intros Hp Hb Hok Hpe. pose proof (so_write _ Hok) as Hw. unfold in_buf in Hw. unfold pending in *. rewrite Hp, Hb.
  destruct (wbase s) as [a|] eqn:Ea, (wpos s) as [b|] eqn:Eb; try done.
  assert (b - a = 0) as ->; [|done]. apply (f_equal length) in Hpe. rewrite length_slice in Hpe; simpl in *.
  - lia.
  - pose proof (so_size _ Hok). lia.
Qed.

(** The part of a read that went past the caller's vector. *)
Definition overflowed s (b' : B) (over : list Z) : ph_stream B :=
  set_read (Some 1) (Some (zlen over)) (set_buf (splice 0 over (buf s)) (set_cookie b' s)).

Lemma overflow_ok s b' c over : ptrs_ok s -> inv b' -> pending s = [] -> zlen (c :: over) <= bufsize s ->
  let s' := overflowed s b' (c :: over) in
  read_frame s s' /\ ahead s' = over /\ cookie s' = b' /\ last_err s' = last_err s.
Proof.
  intros Hok Hinv Hp Hfit s'. pose proof Hok as [Hsz Hmax Hr Hw He]. simpl length in *.
  assert (length (splice 0 (c :: over) (buf s)) = length (buf s)) as Hlen by (apply length_splice; simpl; lia).
  unfold read_frame. split_and!; try done.
  - split; [change (bufsize s = zlen (splice 0 (c :: over) (buf s))); by rewrite Hlen|done| |exact Hw|exact He].
    unfold in_buf. simpl. lia.
  - by apply (pending_ptrs s).
  - unfold s', ahead. cbn [rpos rend buf overflowed set_read set_buf set_cookie]. unfold slice, splice.
    rewrite take_0. cbn [app Z.to_nat Pos.to_nat Pos.iter_op Init.Nat.add drop].
    replace (Z.to_nat _) with (length over) by (simpl; lia). simpl. by rewrite drop_0, take_app_length.
Qed.

Lemma read_loop_ok fuel : forall count acc s,
  ptrs_ok s -> inv (cookie s) -> pending s = [] -> ahead s = [] -> 0 <= count < Z.of_nat fuel ->
  exists r s', read_loop funcs fuel count acc s = Ret (r, s') /\ read_frame s s' /\
    match r with
    | Some out => exists bs, out = acc ++ bs /\ got s (rest (cookie s)) bs count s' /\ (acc <> [] \/ 0 < count -> out <> [])
    | None => acc = [] /\ unread s' = rest (cookie s) /\
        (last_err s = 0 -> last_err s' = 0 /\ rest (cookie s) = [] \/ last_err s' <> 0 /\ err (last_err s'))
    end.
Proof.
  induction fuel as [|fuel IH]; intros count acc s Hok Hinv Hp Ha Hcount; [lia|].
  cbn [read_loop]. destruct (count =? 0) eqn:E0; zbool.
  { exists (Some acc), s. split; [done|]. split; [done|]. exists []. rewrite app_nil_r. split; [done|].
    unfold got, unread. rewrite Ha. split; [split_and!; simpl; (done || lia)|]. intros [?|?]; [done|lia]. }
  step. pose proof Hok as [Hsz Hmax Hr Hw He]. set (first := count - (if bufsize s =? 0 then 0 else 1)).
  assert (0 <= first <= count /\ (bufsize s <> 0 -> first = count - 1) /\ (bufsize s = 0 -> first = count)) as (Hf & Hf1 & Hf0).
  { unfold first. destruct (bufsize s =? 0) eqn:Eb; zbool; lia. }
  destruct (source_readv [first; bufsize s] (cookie s) Hinv) as (r & b' & Hrd & Hinv' & Hres).
  { repeat constructor; lia. }
  simpl zsum in Hres. unfold id in Hres.
  assert (forall e, read_frame s (set_read None None (set_err e (set_cookie b' s)))) as Hframe0.
  { intros e. unfold read_frame. split_and!; done. }
  assert (forall s1, cookie s1 = b' -> rpos s1 = None -> unread s1 = rest b') as Hun.
  { intros s1 Hc Hrp. unfold unread, ahead. by rewrite Hrp, Hc. }
  destruct r as [[|c bs]|e].
  - assert (call (f_readv funcs [first; bufsize s]) s = Ret (Some [], set_cookie b' s)) as Hc by (unfold call; by rewrite Hrd).
    step_with Hc. step. destruct Hres as (_ & Hrest & Heof). simpl in Hrest.
    assert (rest (cookie s) = []) as Hnil by (apply Heof; [done|lia]).
    eexists _, _. split; [reflexivity|]. split; [exact (Hframe0 (last_err s))|].
    destruct acc as [|x acc]; [split; [done|]; split; [by rewrite Hun|by left]|].
    exists []. rewrite app_nil_r. split; [done|]. split; [|done]. unfold got. rewrite Hun, <- Hrest, Hnil by done.
    split_and!; simpl; (done || lia).
  - assert (call (f_readv funcs [first; bufsize s]) s = Ret (Some (c :: bs), set_cookie b' s)) as Hc by (unfold call; by rewrite Hrd).
    step_with Hc. destruct Hres as (Hlen & Hrest & _). set (l := c :: bs) in *.
    assert (0 < zlen l) as Hl0 by (simpl; lia). clearbody l. rewrite (proj2 (Z.ltb_ge _ _)) by lia.
    destruct (first <? zlen l) eqn:Eov; zbool.
    + assert (bufsize s <> 0) as Hbs by lia. rewrite (proj2 (Z.eqb_neq _ _) Hbs).
      destruct (drop (Z.to_nat first) l) as [|x over] eqn:Ed.
      { apply (f_equal length) in Ed. rewrite length_drop in Ed. change (length (@nil Z)) with 0%nat in Ed. lia. }
      assert (zlen (x :: over) = zlen l - first) as Hov by (rewrite <- Ed, length_drop; lia).
      assert (write_buf (Some 0) (x :: over) (set_cookie b' s) =
        Ret (tt, set_buf (splice 0 (x :: over) (buf s)) (set_cookie b' s))) as Hwb.
      { unfold write_buf. rewrite (proj2 (Z.eqb_neq _ _)) by (simpl; lia). simpl buf.
        by rewrite (proj2 (Z.leb_le (0 + _) _)) by lia. }
      step_with Hwb.
      assert (forall y, read_buf (Some 0) 1 (set_buf (splice 0 (x :: over) y) (set_cookie b' s)) =
        Ret ([x], set_buf (splice 0 (x :: over) y) (set_cookie b' s))) as Hrb.
      { intros y. unfold read_buf. simpl buf. rewrite (proj2 (Z.leb_le (0 + 1) _)); [done|]. simpl. lia. }
      step_with (Hrb (buf s)). step.
      destruct (overflow_ok s b' x over Hok Hinv' Hp ltac:(lia)) as (Hfr & Hah & Hck & Hle).
      eexists _, (overflowed s b' (x :: over)). split; [reflexivity|]. split; [done|].
      exists (take (Z.to_nat first) l ++ [x]). split; [done|].
      assert (zlen (take (Z.to_nat first) l ++ [x]) = count) as Hcnt by (rewrite length_app, length_take; simpl; lia).
      split; [|intros _ Hn; destruct acc; simpl in Hn; [|done]; by destruct (take (Z.to_nat first) l)].
      unfold got, unread. rewrite Hah, Hck. split_and!; [|lia|].
      * rewrite Hrest. rewrite <- (take_drop (Z.to_nat first) l) at 1. by rewrite Ed, <- !app_assoc.
      * intros _ _. rewrite Hrest, Hcnt, length_app. lia.
    + assert (ptrs_ok (set_cookie b' s)) as Hok1 by (by split).
      destruct (IH (count - zlen l) (acc ++ l) (set_cookie b' s) Hok1 Hinv' Hp Ha) as (r & s' & Hloop & Hfr & Hr');
        [simpl in *; lia|].
      exists r, s'. split; [exact Hloop|]. split; [done|]. destruct r as [out|].
      * destruct Hr' as (bs' & -> & (Hg1 & Hg2 & Hg3) & Hne). exists (l ++ bs'). split; [by rewrite app_assoc|].
        simpl in Hg1, Hg3. split; [|intros _ [Hn _]%app_nil; by destruct acc, l].
        unfold got. rewrite length_app. split_and!; [by rewrite Hrest, Hg1, app_assoc|lia|].
        intros H1 H2. specialize (Hg3 H1 H2). rewrite Hrest, length_app. lia.
      * destruct Hr' as ([_ ->]%app_nil & _). simpl in Hl0. lia.
  - assert (call (f_readv funcs [first; bufsize s]) s = Ret (None, set_err e (set_cookie b' s))) as Hc by (unfold call; by rewrite Hrd).
    step_with Hc. step. destruct Hres as (Herr & Herr' & Hrest).
    eexists _, _. split; [reflexivity|]. split; [exact (Hframe0 e)|].
    destruct acc as [|x acc]; [split; [done|]; split; [by rewrite Hun|by right]|].
    exists []. rewrite app_nil_r. split; [done|]. split; [|done]. unfold got. rewrite Hun, Hrest by done.
    split_and!; simpl; (done || lia).
Qed.

(** Taking [x] bytes of what was read ahead. *)
Lemma ahead_take s x : ptrs_ok s -> 0 <= x <= zlen (ahead s) ->
  let s' := set_read (option_map (fun p => p + x) (rpos s)) (rend s) s in
  read_buf (rpos s) x s = Ret (take (Z.to_nat x) (ahead s), s) /\
  ptrs_ok s' /\ ahead s' = drop (Z.to_nat x) (ahead s).
Proof.
  intros Hok Hx s'. pose proof Hok as [Hsz Hmax Hr Hw He]. unfold in_buf in Hr.
  destruct (rpos s) as [a|] eqn:Ea, (rend s) as [b|] eqn:Eb; try done.
  - pose proof (ahead_len s a b Hsz Ea Eb (proj1 Hr) (proj2 Hr)) as Hl. unfold ahead in *. rewrite Ea, Eb in *. split_and!.
    + unfold read_buf. destruct (x =? 0) eqn:E; zbool; [by subst|].
      rewrite (proj2 (Z.leb_le 0 a)), (proj2 (Z.leb_le 0 x)), (proj2 (Z.leb_le _ _)) by lia. simpl.
      do 2 f_equal. unfold slice. rewrite take_take. f_equal. lia.
    + split; try done. unfold in_buf. simpl. lia.
    + simpl. unfold slice. rewrite skipn_firstn_comm, drop_drop. f_equal; [lia|]. f_equal. lia.
  - assert (ahead s = []) as Hn by (unfold ahead; by rewrite Ea). rewrite Hn in *. simpl in Hx.
    assert (x = 0) as -> by lia. split_and!; [done| |unfold s', ahead; done]. by split; unfold in_buf; simpl; rewrite ?Ea, ?Eb.
Qed.

Lemma stm_read_ok fuel count s :
  stm_ok s -> inv (cookie s) -> pending s = [] -> 0 <= count < 2 ^ 62 ->
  exists r s', ph_stm_read funcs fuel count s = Ret (r, s') /\ stm_ok s' /\ inv (cookie s') /\ pending s' = [] /\
    match r with
    | Some bs => unread s = bs ++ unread s' /\ zlen bs <= count /\ (0 < count -> bs <> []) /\
        (last_err s' = 0 -> zlen bs = Z.min count (zlen (unread s)))
    | None => unread s' = unread s /\
        (last_err s' = 0 /\ unread s = [] \/ last_err s' <> 0 /\ err (last_err s'))
    end.
Proof.
  intros Hs Hinv Hp Hc. pose proof Hs as [Hok Hlk]. unfold ph_stm_read.
  step_with (flush_idle funcs fuel s Hs Hp). cbn [negb]. step_with (lock_eq s Hlk). step.
  set (s1 := set_err 0 (set_locked true s)). assert (ptrs_ok s1) as Hok1 by (by apply ptrs_ok_err, ptrs_ok_lock).
  destruct (count =? 0) eqn:E0; zbool.
  { step_with (unlock_eq s1 eq_refl). eexists _, _. split; [reflexivity|].
    split; [split; [by apply ptrs_ok_lock|done]|]. split_and!; simpl; (done || lia). }
  step. assert (exists have, ptr_diff (rend s1) (rpos s1) s1 = Ret (have, s1) /\ have = zlen (ahead s)) as (have & Hd & Hhave).
  { pose proof (so_read _ Hok) as Hr. unfold in_buf in Hr. simpl. unfold ptr_diff.
    destruct (rpos s) as [a|] eqn:Ea, (rend s) as [b|] eqn:Eb; try done; eexists; (split; [reflexivity|]).
    - symmetry. apply (ahead_len s a b (so_size _ Hok) Ea Eb); tauto.
    - unfold ahead. by rewrite Ea. }
  step_with Hd. set (x := Z.min have count).
  destruct (ahead_take s1 x Hok1) as (Hrb & Hok2 & Hah2); [change (ahead s1) with (ahead s); lia|].
  set (s2 := set_read (option_map (fun p => p + x) (rpos s1)) (rend s1) s1) in *. change (ahead s1) with (ahead s) in *.
  set (acc := take (Z.to_nat x) (ahead s)) in *.
  assert (zlen acc = x) as Hacc by (unfold acc; rewrite length_take; lia).
  assert (exists s3, (if 0 <? have
            then (let x := MIN have count in bs <-- read_buf (rpos s1) x;;
                  modify (set_read (option_map (fun p => p + x) (rpos s1)) (rend s1));;; ret bs)
            else ret []) s1 = Ret (acc, s3) /\ ptrs_ok s3 /\ ahead s3 = drop (Z.to_nat x) (ahead s) /\
            cookie s3 = cookie s /\ locked s3 = true /\ last_err s3 = 0 /\ pending s3 = [])
    as (s3 & Hif & Hok3 & Hah3 & Hc3 & Hlk3 & Hle3 & Hp3).
  { destruct (0 <? have) eqn:Eh; zbool.
    - rewrite MIN_min. fold x. step_with Hrb. step. exists s2. split_and!; done.
    - assert (x = 0) as Hx0 by lia. exists s1. assert (acc = []) as -> by (unfold acc; by rewrite Hx0).
      split_and!; try done. by rewrite Hx0, drop_0. }
  step_with Hif. rewrite Hacc.
  destruct (decide (x = count)) as [Ex|Ex].
  - rewrite Ex, Z.sub_diag. step. step_with (unlock_eq s3 Hlk3). eexists _, _. split; [reflexivity|].
    split; [split; [by apply ptrs_ok_lock|done]|]. split; [simpl; by rewrite Hc3|]. split; [done|].
    unfold unread. change (ahead (set_locked false s3)) with (ahead s3). simpl. rewrite Hah3, Hc3.
    split_and!; [by rewrite app_assoc; unfold acc; rewrite take_drop|lia| |rewrite length_app; lia].
    intros _ Hn. rewrite Hn in Hacc. simpl in Hacc. lia.
  - assert (x = have) as Hxh by lia. assert (acc = ahead s) as Hacc' by (unfold acc; apply take_ge; lia).
    rewrite drop_ge in Hah3 by lia.
    destruct (read_loop_ok (S (Z.to_nat count)) (count - x) acc s3 Hok3 ltac:(by rewrite Hc3) Hp3 Hah3 ltac:(lia))
      as (r & s' & Hloop & (Hok' & Hinv' & Hlk' & _ & _ & Hp') & Hr).
    step_with Hloop. rewrite Hlk3 in Hlk'. step_with (unlock_eq s' Hlk'). exists r, (set_locked false s').
    split; [done|]. split; [split; [by apply ptrs_ok_lock|done]|]. split; [done|]. split; [done|].
    change (unread (set_locked false s')) with (unread s'). change (last_err (set_locked false s')) with (last_err s').
    rewrite Hc3 in Hr. unfold unread at 1 3 5 6. destruct r as [out|].
    + destruct Hr as (bs & -> & (Hg1 & Hg2 & Hg3) & Hne). rewrite !length_app.
      split_and!; [by rewrite Hg1, Hacc', app_assoc|lia|intros _; apply Hne; right; lia|].
      intros Hle. specialize (Hg3 Hle3 Hle). lia.
    + destruct Hr as (Hnil & Hun & Heof). rewrite Hacc' in Hnil. rewrite Hnil. split; [done|]. by apply Heof.
Qed.

(** Reading from a stream with nothing left to flush returns the next bytes, in
    order and none twice, from the read-ahead buffer and the implementation;
    without an error it returns as many as asked for or all there are, and false
    only at the end. *)
Theorem stm_read_spec fuel count s :
  stm_ok s -> inv (cookie s) -> pending s = [] -> 0 <= count < 2 ^ 62 ->
  exists r s', ph_stm_read funcs fuel count s = Ret (r, s') /\ stm_ok s' /\ inv (cookie s') /\ pending s' = [] /\
    match r with
    | Some bs => unread s = bs ++ unread s' /\ zlen bs <= count /\ (0 < count -> bs <> []) /\
        (last_err s' = 0 -> zlen bs = Z.min count (zlen (unread s)))
    | None => unread s' = unread s /\
        (last_err s' = 0 /\ unread s = [] \/ last_err s' <> 0 /\ err (last_err s'))
    end.
Proof. apply stm_read_ok. Qed.

End reading.

(** ** Copying *)

Section copying.
Context {A B : Type} (fa : ph_stream_funcs A) (fb : ph_stream_funcs B).
Context (inva : A -> Prop) (rest : A -> list Z) (erra : Z -> Prop) `{!source fa inva rest erra}.
Context (invb : B -> Prop) (log : B -> list Z) (cap : Z) (errb : Z -> Prop) `{!sink fb invb log cap errb}.
Context (Hea : ~ erra EINTR) (Heb : ~ errb EINTR).

Lemma pending_bound {C} (s : ph_stream C) : ptrs_ok s -> zlen (pending s) <= bufsize s.
Proof.
  intros [Hsz _ _ Hw _]. unfold in_buf in Hw. unfold pending.
  destruct (wbase s), (wpos s); try done; simpl; [|lia]. rewrite length_slice; lia.
Qed.

(** A destination that can take [room] more bytes in writes of at most 8192. *)
Definition dest_ok (wf : nat) (room : Z) (d : ph_stream B) : Prop :=
  stm_ok d /\ invb (cookie d) /\ zlen (written log d) + room <= cap /\ bufsize d + PH_STM_BUFSIZE < Z.of_nat wf.

Lemma copy_write_ok wf fuel : forall bs nwrote (src : ph_stream A) d,
  dest_ok wf (zlen bs) d -> zlen bs <= PH_STM_BUFSIZE -> (length bs < fuel)%nat ->
  exists n e d', copy_write fb wf fuel bs nwrote (src, d) = Ret ((n, e), (src, d')) /\
    stm_ok d' /\ invb (cookie d') /\ bufsize d' = bufsize d /\
    (e = 0 -> n = nwrote + zlen bs /\ written log d' = written log d ++ bs).
Proof.
  induction fuel as [|fuel IH]; intros bs nwrote src d (Hok & Hinv & Hcap & Hwf) Hmax Hfuel; [lia|].
  cbn [copy_write]. destruct (zlen bs =? 0) eqn:E; zbool.
  { exists nwrote, 0, d. destruct bs; [|simpl in E; lia]. split; [done|]. split_and!; try done.
    intros _. split; [simpl; lia|by rewrite app_nil_r]. }
  pose proof (pending_bound d (proj1 Hok)) as Hpb.
  destruct (stm_write_ok fb invb log cap errb wf d bs Hok Hinv Hcap ltac:(unfold PH_STM_BUFSIZE in *; lia))
    as (ok & n & d1 & Hw & Hok1 & Hinv1 & Hbz & Hres).
  assert (on_dest (ph_stm_write fb wf bs) (src, d) = Ret ((ok, n), (src, d1))) as Hon by (unfold on_dest; by rewrite Hw).
  step_with Hon. destruct ok.
  - destruct Hres as (m & -> & Hm & Hm0 & Hwr & _). simpl default.
    assert (0 < m) as Hm1 by (apply Hm0; by intros ->).
    assert (zlen (written log d1) = zlen (written log d) + m) as Hlen by (rewrite Hwr, length_app, length_take; lia).
    destruct (IH (drop (Z.to_nat m) bs) (nwrote + m) src d1) as (n' & e & d' & Hcw & Hok' & Hinv' & Hbz' & He);
      [unfold dest_ok; rewrite Hbz, length_drop; split_and!; (done || lia)|rewrite length_drop; lia..|].
    exists n', e, d'. split; [exact Hcw|]. split_and!; try done; [by rewrite Hbz', Hbz|].
    intros He0. destruct (He He0) as [-> ->]. rewrite length_drop, Hwr, <- app_assoc, take_drop. split; [lia|done].
  - destruct Hres as (-> & [He0 He] & _). step. rewrite (proj2 (Z.eqb_neq _ _)) by (intros Heq; rewrite Heq in He; done).
    exists nwrote, (last_err d1), d1. split; [done|]. split_and!; done.
Qed.

Lemma copy_loop_ok wf fuel : forall num n w src d,
  stm_ok src -> inva (cookie src) -> pending src = [] -> 0 <= num ->
  dest_ok wf (Z.min num (zlen (unread rest src))) d ->
  Z.min num (zlen (unread rest src)) + 2 <= Z.of_nat fuel ->
  exists ok nread nwrote src' d', copy_loop fa fb wf fuel num n w (src, d) = Ret ((ok, nread, nwrote), (src', d')) /\
    stm_ok src' /\ stm_ok d' /\
    exists bs, unread rest src = bs ++ unread rest src' /\ n + zlen bs = nread /\ zlen bs <= num /\
      (ok = true -> written log d' = written log d ++ bs /\ nwrote = w + zlen bs /\
         zlen bs = Z.min num (zlen (unread rest src))).
Proof.
  induction fuel as [|fuel IH]; intros num n w src d Hs Hinv Hp Hnum Hd Hfuel; [lia|].
  cbn [copy_loop]. destruct (num =? 0) eqn:E; zbool.
  { eexists _, _, _, _, _. split; [reflexivity|]. split; [done|]. split; [apply Hd|]. exists [].
    rewrite app_nil_r. simpl. split_and!; try (done || lia). intros _. split_and!; (done || lia). }
  rewrite MIN_min.
  destruct (stm_read_ok fa inva rest erra wf (Z.min num PH_STM_BUFSIZE) src Hs Hinv Hp ltac:(unfold PH_STM_BUFSIZE; lia))
    as (r & src1 & Hr & Hs1 & Hinv1 & Hp1 & Hres).
  assert (on_src (ph_stm_read fa wf (Z.min num PH_STM_BUFSIZE)) (src, d) = Ret (r, (src1, d))) as Hon
    by (unfold on_src; by rewrite Hr).
  step_with Hon. destruct r as [bs|].
  - destruct Hres as (Hun & Hle & Hne & _). assert (bs <> []) as Hbs by (apply Hne; unfold PH_STM_BUFSIZE; lia).
    destruct bs as [|c bs0] eqn:Ebs; [done|]. rewrite <- Ebs in *. clear Ebs. destruct Hd as (Hd1 & Hd2 & Hd3 & Hd4).
    assert (0 < zlen bs) as Hl0 by (destruct bs; [done|simpl; lia]).
    assert (zlen (unread rest src) = zlen bs + zlen (unread rest src1)) as Hul by (rewrite Hun, length_app; lia).
    destruct (copy_write_ok wf fuel bs w src1 d) as (w' & e & d1 & Hcw & Hd1' & Hd2' & Hbz & He);
      [split_and!; (done || lia)|lia|lia|].
    destruct bs as [|c1 bs1] eqn:Ebs; [done|]. rewrite <- Ebs in *. step_with Hcw.
    destruct (e =? 0) eqn:Ee; zbool.
    + destruct (He Ee) as [-> Hwr].
      destruct (IH (num - zlen bs) (n + zlen bs) (w + zlen bs) src1 d1 Hs1 Hinv1 Hp1)
        as (ok & nr & nw & src' & d' & Hcl & Hs' & Hd' & bs' & Hun' & Hn' & Hle' & Hok'); [lia| |lia|].
      { unfold dest_ok. rewrite Hbz, Hwr, length_app. split_and!; (done || lia). }
      exists ok, nr, nw, src', d'. split; [exact Hcl|]. split; [done|]. split; [done|].
      exists (bs ++ bs'). rewrite length_app. split; [by rewrite Hun, Hun', app_assoc|]. split; [lia|]. split; [lia|].
      intros Ht. destruct (Hok' Ht) as (-> & -> & ?). rewrite Hwr, <- app_assoc. split_and!; (done || lia).
    + eexists _, _, _, _, _. split; [reflexivity|]. split; [done|]. split; [done|]. exists bs. split_and!; (done || lia).
  - destruct Hres as (Hun & Herr). step.
    assert (last_err src1 <> EINTR) as Hei by (destruct Herr as [[-> _]|[_ Herr]]; [done|intros Heq; by rewrite Heq in Herr]).
    rewrite (proj2 (Z.eqb_neq _ _) Hei). eexists _, _, _, _, _. split; [reflexivity|]. split; [done|]. split; [apply Hd|].
    exists []. rewrite Hun, app_nil_r. split_and!; simpl; try (done || lia). intros Ht. zbool.
    destruct Herr as [[_ Hnil]|[Hn _]]; [|done]. rewrite Hnil. simpl. split_and!; (done || lia).
Qed.

(** C33. Copying between two streams terminates; the bytes taken from the source are
    a prefix of what it had, and on success exactly these bytes were added to
    the destination, as many as asked for or all there were. *)
Theorem stm_copy_spec wf fuel num src d :
  stm_ok src -> inva (cookie src) -> pending src = [] -> 0 <= num ->
  dest_ok wf (Z.min num (zlen (unread rest src))) d ->
  Z.min num (zlen (unread rest src)) + 2 <= Z.of_nat fuel ->
  exists ok nread nwrote src' d', ph_stm_copy fa fb wf fuel num (src, d) = Ret ((ok, nread, nwrote), (src', d')) /\
    stm_ok src' /\ stm_ok d' /\
    exists bs, unread rest src = bs ++ unread rest src' /\ zlen bs = nread /\ nread <= num /\
      (ok = true -> written log d' = written log d ++ bs /\ nwrote = nread /\
         nread = Z.min num (zlen (unread rest src))).
Proof.
  unfold ph_stm_copy. intros Hs Hinv Hp Hnum Hd Hfuel.
  destruct (copy_loop_ok wf fuel num 0 0 src d Hs Hinv Hp Hnum Hd Hfuel)
      as (ok & nr & nw & src' & d' & Hc & H1 & H2 & bs & H3 & H4 & H5 & H6).
  exists ok, nr, nw, src', d'. split; [done|]. split; [done|]. split; [done|]. exists bs.
  split_and!; try (done || lia). intros Ht. destruct (H6 Ht) as (? & ? & ?). split_and!; (done || lia).
Qed.

End copying.

(** ** A file in memory *)

Record memfile := File { fdata : list Z; fpos : Z }.

Definition mf_readv (iov : list Z) (f : memfile) : outcome (io (list Z) * memfile) :=
  let bs := take (Z.to_nat (zsum id iov)) (drop (Z.to_nat (fpos f)) (fdata f)) in
  Ret (inl bs, File (fdata f) (fpos f + zlen bs)).
Definition mf_writev (iov : list (list Z)) (f : memfile) : outcome (io Z * memfile) :=
  let bs := mjoin iov in
  Ret (inl (zlen bs), File (splice (Z.to_nat (fpos f)) bs (fdata f)) (fpos f + zlen bs)).
Definition mf_seek (delta whence : Z) (f : memfile) : outcome (io Z * memfile) :=
  Ret (inl delta, File (fdata f) delta).
Definition memfile_funcs : ph_stream_funcs memfile := Funcs _ (fun f => Ret (inl tt, f)) mf_readv mf_writev mf_seek.

Definition mf_inv (f : memfile) : Prop := 0 <= fpos f <= zlen (fdata f).
Definition mf_log (f : memfile) : list Z := take (Z.to_nat (fpos f)) (fdata f).
Definition mf_rest (f : memfile) : list Z := drop (Z.to_nat (fpos f)) (fdata f).

#[export] Instance memfile_sink : sink memfile_funcs mf_inv mf_log (2 ^ 62) (fun _ => False).
Proof.
  split. intros iov [l p] Hinv _. unfold mf_inv, mf_log in *. cbn [fpos fdata] in *. set (bs := mjoin iov).
  eexists _, _. split; [reflexivity|]. cbn [fpos fdata]. fold bs.
  assert (take (Z.to_nat (p + zlen bs)) (splice (Z.to_nat p) bs l) = take (Z.to_nat p) l ++ bs) as Htk.
  { unfold splice. rewrite app_assoc. apply take_app_length'. rewrite length_app, length_take. lia. }
  split; [unfold splice; rewrite !length_app, length_take, length_drop; lia|].
  split; [lia|]. split; [intros Hn; destruct bs; [done|simpl; lia]|]. by rewrite Htk, Nat2Z.id, firstn_all.
Qed.

#[export] Instance memfile_source : source memfile_funcs mf_inv mf_rest (fun _ => False).
Proof.
  split. intros lens [l p] Hinv Hlens. unfold mf_inv, mf_rest in *. simpl in *.
  assert (0 <= zsum id lens) as Hz by (clear Hinv; induction Hlens; simpl; unfold id in *; lia).
  eexists _, _. split; [reflexivity|]. simpl. set (n := zsum id lens) in *.
  rewrite length_take, length_drop. split; [lia|]. split; [lia|]. split.
  - rewrite Z2Nat.inj_add, Nat2Z.id by lia. rewrite <- drop_drop.
    destruct (decide (Z.to_nat n <= length l - Z.to_nat p)%nat).
    + by rewrite Nat.min_l, take_drop by lia.
    + rewrite Nat.min_r by lia. rewrite take_ge, (drop_ge (drop _ _)) by (rewrite length_drop; lia). by rewrite app_nil_r.
  - intros Hnil Hn. destruct (drop (Z.to_nat p) l); [done|].
    destruct (Z.to_nat n) eqn:E; [lia|done].
Qed.

(** "ABCDEFGHIJ", at the start, and a buffer of four bytes. *)
Definition demo_stm : ph_stream memfile :=
  Stm (File [65; 66; 67; 68; 69; 70; 71; 72; 73; 74] 0) 0 None None None None None [0; 0; 0; 0] 4 0 false.

Lemma demo_stm_ok : stm_ok demo_stm /\ mf_inv (cookie demo_stm).
Proof. by repeat split; simpl. Qed.

Lemma stm_write_spec_witness :
  exists ok n s', ph_stm_write memfile_funcs 8 [1; 2; 3; 4; 5] demo_stm = Ret ((ok, n), s') /\ stm_ok s' /\
    mf_inv (cookie s') /\
    if (ok : bool)
    then exists m, n = Some m /\ 0 <= m <= 5 /\ ([1; 2; 3; 4; 5] <> [] -> 0 < m) /\
      written mf_log s' = take (Z.to_nat m) [1; 2; 3; 4; 5]
    else n = None /\ (last_err s' <> 0 /\ False) /\ exists k, written mf_log s' = take k [].
Proof.
  refine (stm_write_spec memfile_funcs mf_inv mf_log (2 ^ 62) _ 8 demo_stm [1; 2; 3; 4; 5]
    (proj1 demo_stm_ok) (proj2 demo_stm_ok) _ _); [by vm_compute|simpl; lia].
Defined.

(** The stream with three bytes written to it. *)
Definition demo_pending : ph_stream memfile :=
  Stm (File [65; 66; 67] 3) 0 None None (Some 3) (Some 4) (Some 0) [1; 2; 3; 0] 4 0 false.

Lemma stm_flush_spec_witness :
  exists ok s', ph_stm_flush memfile_funcs 8 demo_pending = Ret (ok, s') /\ stm_ok s' /\
    mf_inv (cookie s') /\ pending s' = [] /\
    if (ok : bool) then mf_log (cookie s') = [65; 66; 67; 1; 2; 3]
    else (last_err s' <> 0 /\ False) /\ exists k, mf_log (cookie s') = [65; 66; 67] ++ take k [1; 2; 3].
Proof.
  refine (stm_flush_spec memfile_funcs mf_inv mf_log (2 ^ 62) _ 8 demo_pending _ _ _ _).
  - by repeat split; simpl.
  - by repeat split; simpl.
  - by vm_compute.
  - simpl. lia.
Defined.

Lemma stm_read_spec_witness :
  exists r s', ph_stm_read memfile_funcs 8 3 demo_stm = Ret (r, s') /\ stm_ok s' /\ mf_inv (cookie s') /\ pending s' = [] /\
    match r with
    | Some bs => [65; 66; 67; 68; 69; 70; 71; 72; 73; 74] = bs ++ unread mf_rest s' /\ zlen bs <= 3 /\ (0 < 3 -> bs <> []) /\
        (last_err s' = 0 -> zlen bs = 3)
    | None => unread mf_rest s' = unread mf_rest demo_stm /\
        (last_err s' = 0 /\ unread mf_rest demo_stm = [] \/ last_err s' <> 0 /\ False)
    end.
Proof.
  refine (stm_read_spec memfile_funcs mf_inv mf_rest _ 8 3 demo_stm (proj1 demo_stm_ok) (proj2 demo_stm_ok) eq_refl _).
  lia.
Defined.

Lemma stm_copy_spec_witness :
  exists ok nread nwrote src' d', ph_stm_copy memfile_funcs memfile_funcs (Z.to_nat 9000) 12 7 (demo_stm, demo_pending) =
      Ret ((ok, nread, nwrote), (src', d')) /\ stm_ok src' /\ stm_ok d' /\
    exists bs, unread mf_rest demo_stm = bs ++ unread mf_rest src' /\ zlen bs = nread /\ nread <= 7 /\
      (ok = true -> written mf_log d' = [65; 66; 67; 1; 2; 3] ++ bs /\ nwrote = nread /\ nread = 7).
Proof.
  refine (stm_copy_spec memfile_funcs memfile_funcs mf_inv mf_rest _ mf_inv mf_log (2 ^ 62) _ _ _
    (Z.to_nat 9000) 12 7 demo_stm demo_pending (proj1 demo_stm_ok) (proj2 demo_stm_ok) eq_refl _ _ _);
    [by intros []|by intros []|lia| |by vm_compute].
  split; [by repeat split; simpl|]. split; [by repeat split; simpl|]. split; [by vm_compute|simpl; unfold PH_STM_BUFSIZE; lia].
Defined.

(** Write a byte, read one, write two, read one. *)
Definition write_read_write_read : M (ph_stream memfile) (option (list Z) * option (list Z)) :=
  ph_stm_write memfile_funcs 8 [120] ;;;
  a <-- ph_stm_read memfile_funcs 8 1 ;;
  ph_stm_write memfile_funcs 8 [121; 122] ;;;
  b <-- ph_stm_read memfile_funcs 8 1 ;;
  ret (a, b).

(** Writing to a stream after reading from it in write mode overwrites the read-
    ahead bytes: the second read returns a byte that was written, not the byte
    of the file, and the write lands behind the read-ahead. *)
Theorem mixed_use_corrupts :
  match write_read_write_read demo_stm with
  | Ret ((a, b), s) => a = Some [66] /\ b = Some [122] /\
      fdata (cookie s) = [120; 66; 67; 68; 69; 121; 122; 72; 73; 74]
  | _ => False
  end.
Proof. vm_compute. auto. Qed.

End StreamProofs.
