(* ===== verification/StringStream.v ===== *)
(** * String streams: corelib/streams/string.c

    A stream over a string object: reads return the bytes from a position on,
    writes replace bytes there and append what goes past the end. *)

From Stdlib Require Import ZArith Lia.
From stdpp Require Import base numbers list gmap strings.
From S2P Require Import Prelude SysUtil Counter Memory PhString Stream.

Module StringStream.
Import Counter Memory PhString Stream.

Section string_stream.
Context `{HSname : ck_hs string} `{HSid : ck_hs Z}.
Context (junk : positive -> nat -> Z) (self : nat).

(** [struct string_stream], the world its string lives in and the heap block
    of the structure. *)
Record string_stream := SS {
  sworld : world;
  sstr : positive;
  spos : Z;
  shome : ptr;
}.

Definition ENOMEM : Z := 12.
Definition EINVAL : Z := 22.

Definition set_sworld (w : world) (b : string_stream) := SS w (sstr b) (spos b) (shome b).
Definition set_spos (p : Z) (b : string_stream) := SS (sworld b) (sstr b) p (shome b).

(** An operation on strings. *)
Definition on_world {A} (c : M world A) : M string_stream A := fun b =>
  match c (sworld b) with
  | Ret (a, w) => Ret (a, set_sworld w b)
  | Panic => Panic
  | Fault => Fault
  end.

Definition the_string : M string_stream ph_string := fun b => on_world (load_str (sstr b)) b.

(** [str->buf + pos]. *)
Definition at_pos (s : ph_string) (p : Z) : option bptr := option_map (fun b => bptr_add b p) (PhString.buf s).

(** The loop of [str_readv]: the bytes so far and those of the vectors. *)
Fixpoint str_read_loop (iov : list Z) (acc : list Z) : M string_stream (list Z) :=
  match iov with
  | [] => ret acc
  | iov_len :: iov =>
      s <-- the_string ;;
      b <-- get ;;
      if spos b <? len s then
        let n := s32 (MIN iov_len (u32 (len s - spos b))) in
        if n =? 0 then str_read_loop iov acc
        else if n <? 0 then fault
        else
          bs <-- on_world (read_bytes (at_pos s (spos b)) n) ;;
          modify (set_spos (u32 (spos b + n))) ;;;
          str_read_loop iov (acc ++ bs)
      else ret acc
  end.

Definition str_readv (iov : list Z) : M string_stream (io (list Z)) :=
  bs <-- str_read_loop iov [] ;; ret (inl bs).

(** The loop of [str_writev] over the vectors; [w] is the count so far. *)
Fixpoint str_write_loop (iov : list (list Z)) (w : Z) : M string_stream Z :=
  match iov with
  | [] => ret w
  | v :: iov =>
      s <-- the_string ;;
      b <-- get ;;
      let length := u32 (zlen v) in
      let n := MIN length (u32 (len s - spos b)) in
      (if n =? 0 then ret tt
       else on_world (write_bytes (at_pos s (spos b)) (take (Z.to_nat n) v)) ;;;
            modify (set_spos (u32 (spos b + n)))) ;;;
      let w := w + n in
      let v := drop (Z.to_nat n) (take (Z.to_nat length) v) in
      if zlen v =? 0 then str_write_loop iov w
      else
        b <-- get ;;
        res <-- on_world (ph_string_append_buf junk self (sstr b) (Bytes v)) ;;
        match res with
        | PH_OK =>
            modify (set_spos (u32 (spos b + zlen v))) ;;;
            str_write_loop iov (w + zlen v)
        | _ => ret w
        end
  end.

Definition str_writev (iov : list (list Z)) : M string_stream (io Z) :=
  w <-- str_write_loop iov 0 ;;
  ret (if w =? 0 then inr ENOMEM else inl w).

Definition str_seek (delta whence : Z) : M string_stream (io Z) :=
  s <-- the_string ;;
  b <-- get ;;
  let off := if whence =? SEEK_SET then Some delta
             else if whence =? SEEK_CUR then Some (s64 (spos b + delta))
             else if whence =? SEEK_END then Some (s64 (len s + delta))
             else None in
  match off with
  | None => ret (inr EINVAL)
  | Some off =>
      if (off <? 0) || (len s <? off) then ret (inr EINVAL)
      else modify (set_spos (u32 off)) ;;; ret (inl off)
  end.

Definition str_close (mt_string_stream : Z) : M string_stream (io unit) :=
  b <-- get ;;
  on_world (ph_string_delref self (sstr b)) ;;;
  on_world (liftm (ph_mem_free self mt_string_stream (shome b))) ;;;
  ret (inl tt).

Definition str_funcs (mt_string_stream : Z) : ph_stream_funcs string_stream :=
  Funcs _ (str_close mt_string_stream) str_readv str_writev str_seek.

(** The stream, or [None]; the world is in the stream's cookie then.  [mem] and
    [err] are as in [ph_stm_make]. *)
Definition ph_stm_string_open (mt_string_stream : Z) (str : option positive) (mem : option (list Z)) (err : Z) :
    M world (option (ph_stream string_stream)) :=
  match str with
  | None => ret None
  | Some str =>
      ss <-- liftm (ph_mem_alloc junk self mt_string_stream) ;;
      match ss with
      | None => ret None
      | Some _ =>
          w <-- get ;;
          match ph_stm_make (SS w str 0 ss) 0 0 mem err with
          | None => liftm (ph_mem_free self mt_string_stream ss) ;;; ret None
          | Some stm =>
              ph_string_addref str ;;;
              w <-- get ;;
              ret (Some (set_cookie (SS w str 0 ss) stm))
          end
      end
  end.

End string_stream.
End StringStream.
