(* ===== verification/StringStreamProofs.v ===== *)
(** * String streams implement the stream interfaces

    A stream over a string with room is a [source] of the bytes behind the
    position and a [sink] that replaces and appends there, so the theorems of
    StreamProofs hold for it. *)

From Stdlib Require Import ZArith Lia.
From stdpp Require Import base numbers list gmap strings.
From S2P Require Import Prelude SysUtil Counter Memory MemoryProofs PhString PhStringProofs Stream StreamProofs StringStream.

Module StringStreamProofs.
Export PhStringProofs StringStream.
Import Counter Memory MemoryProofs StreamProofs PhString.

Section proofs.
Context `{HSname : ck_hs string} `{HSid : ck_hs Z}.
Context (junk : positive -> nat -> Z) (self : nat) (mt_ss : Z).
Implicit Types b : string_stream.

(** The string [s] of the stream, at index [i] of [l], with a capacity of [A]
    bytes, and a position within it. *)
Record ss_ok (A : Z) b (s : ph_string) (p : bptr) (l : list Z) (i : Z) : Prop := {
  ss_str : strs (sworld b) !! sstr b = Some s;
  ss_room : room (sworld b) s p l i;
  ss_pos : 0 <= spos b <= len s;
  ss_len : len s <= alloc s;
  ss_alloc : alloc s = A;
  ss_max : A < 2 ^ 31;
}.
Definition ss_inv (A : Z) b : Prop := exists s p l i, ss_ok A b s p l i.

(** The contents of the stream's string. *)
Definition ss_contents b : list Z :=
  match contents (sstr b) (sworld b) with Ret (l, _) => l | _ => [] end.
Definition ss_log b : list Z := take (Z.to_nat (spos b)) (ss_contents b).
Definition ss_rest b : list Z := drop (Z.to_nat (spos b)) (ss_contents b).

Lemma ss_contents_eq A b s p l i : ss_ok A b s p l i ->
  ss_contents b = str_contents s l i /\ zlen (ss_contents b) = len s.
Proof.
  intros [Hs (Hb & Hl & Hi & Hr) Hp Hn Ha Hm]. unfold ss_contents, contents.
  step_with (load_str_eq (sworld b) (sstr b) s Hs). rewrite Hb.
  rewrite (read_bytes_eq _ p l i (len s) Hl) by lia. split; [done|]. rewrite length_slice; lia.
Qed.

Lemma the_string_eq b s : strs (sworld b) !! sstr b = Some s -> the_string b = Ret (s, b).
Proof. intros Hs. unfold the_string, on_world. rewrite (load_str_eq _ _ _ Hs). by destruct b. Qed.

Lemma on_world_eq {A} (c : M world A) b a w : c (sworld b) = Ret (a, w) -> on_world c b = Ret (a, set_sworld w b).
Proof. unfold on_world. by intros ->. Qed.

(** ** Reading *)

Lemma str_read_loop_ok A iov : forall b acc, ss_inv A b -> Forall (fun n => 0 <= n) iov ->
  exists bs b', str_read_loop iov acc b = Ret (acc ++ bs, b') /\ ss_inv A b' /\
    zlen bs = Z.min (zsum id iov) (zlen (ss_rest b)) /\ ss_rest b = bs ++ ss_rest b'.
Proof.
  induction iov as [|n iov IH]; intros b acc Hinv Hall.
  { exists [], b. rewrite app_nil_r. split_and!; simpl; (done || lia). }
  apply Forall_cons in Hall as [Hn Hall]. pose proof Hinv as (s & p & l & i & Hok).
  destruct (ss_contents_eq _ _ _ _ _ _ Hok) as [Hc Hcl]. pose proof Hok as [Hs Hroom Hp Hlen Hal Hmax].
  assert (0 <= zsum id iov) as Hz by (clear -Hall; induction Hall; simpl; unfold id in *; lia).
  change (zsum id (n :: iov)) with (n + zsum id iov).
  cbn [str_read_loop]. step_with (the_string_eq b s Hs). step. destruct (spos b <? len s) eqn:E; zbool.
  2:{ exists [], b. rewrite app_nil_r. assert (ss_rest b = []) as Hnil by (unfold ss_rest; rewrite drop_ge; [done|lia]).
      split_and!; try done. rewrite Hnil. simpl length. lia. }
  rewrite MIN_min, (wrapU_small 32), (wrapS_small 32) by lia. set (k := Z.min n (len s - spos b)).
  destruct (k =? 0) eqn:Ek; zbool.
  { destruct (IH b acc Hinv Hall) as (bs & b' & Hr & Hi' & H1 & H2).
    exists bs, b'. split; [exact Hr|]. split_and!; (done || lia). }
  rewrite (proj2 (Z.ltb_ge k 0)) by lia. destruct Hroom as (Hb & Hl & Hi & Hr).
  assert (read_bytes (at_pos s (spos b)) k (sworld b) = Ret (take (Z.to_nat k) (ss_rest b), sworld b)) as Hrd.
  { unfold at_pos. rewrite Hb. simpl option_map.
    rewrite (read_bytes_eq _ _ l (i + spos b) k (locate_add _ _ _ _ _ Hl)) by lia.
    unfold ss_rest. rewrite Hc. unfold str_contents, slice. rewrite skipn_firstn_comm, take_take, drop_drop.
    do 3 f_equal; [lia|]. f_equal. lia. }
  step_with (on_world_eq _ b _ _ Hrd). step. rewrite (wrapU_small 32) by lia.
  set (b1 := set_spos (spos b + k) (set_sworld (sworld b) b)).
  assert (ss_inv A b1) as Hinv1.
  { exists s, p, l, i. split; try done. simpl. lia. }
  destruct (IH b1 (acc ++ take (Z.to_nat k) (ss_rest b)) Hinv1 Hall) as (bs & b' & Hr' & Hi' & H1 & H2).
  assert (ss_rest b1 = drop (Z.to_nat k) (ss_rest b)) as Hr1.
  { unfold ss_rest. rewrite drop_drop. change (ss_contents b1) with (ss_contents b). f_equal. simpl. lia. }
  assert (zlen (ss_rest b) = len s - spos b) as Hrl by (unfold ss_rest; rewrite length_drop; lia).
  exists (take (Z.to_nat k) (ss_rest b) ++ bs), b'. rewrite app_assoc. split; [exact Hr'|].
  split; [done|]. rewrite Hr1, length_drop in H1. rewrite length_app, length_take. split; [lia|].
  by rewrite <- app_assoc, <- H2, Hr1, take_drop.
Qed.

#[export] Instance string_source A : StreamProofs.source (str_funcs junk self mt_ss) (ss_inv A) ss_rest (fun _ => False).
Proof.
  split. intros lens b Hinv Hlens. destruct (str_read_loop_ok A lens b [] Hinv Hlens) as (bs & b' & Hr & Hi & H1 & H2).
  exists (inl bs), b'. split; [simpl; unfold str_readv; by step_with Hr|]. split_and!; try (done || lia).
  intros -> Hpos. simpl in H1. destruct (ss_rest b); [done|simpl in H1; lia].
Qed.

(** ** Writing *)

(** Replacing bytes of the string at the position. *)
Lemma overwrite_ok A b v : ss_inv A b -> spos b + zlen v <= zlen (ss_contents b) ->
  exists s b1, strs (sworld b) !! sstr b = Some s /\
    (on_world (write_bytes (at_pos s (spos b)) v) ;;; modify (set_spos (u32 (spos b + zlen v)))) b = Ret (tt, b1) /\
    ss_inv A b1 /\ ss_log b1 = ss_log b ++ v /\ zlen (ss_contents b1) = zlen (ss_contents b) /\
    spos b1 = spos b + zlen v /\ sstr b1 = sstr b.
Proof.
  intros (s & p & l & i & Hok) Hfit. destruct (ss_contents_eq _ _ _ _ _ _ Hok) as [Hc Hcl].
  pose proof Hok as [Hs (Hb & Hl & Hi & Hr) Hp Hlen Hal Hmax]. rewrite Hcl in Hfit.
  destruct (write_bytes_eq self (sworld b) (bptr_add p (spos b)) l (i + spos b) v (locate_add _ _ _ _ _ Hl))
    as (w1 & Hw & Hl1 & Hs1 & _); [lia..|].
  exists s. eexists. split; [done|]. unfold at_pos. rewrite Hb. simpl option_map. split.
  { step_with (on_world_eq _ b _ _ Hw). rewrite (wrapU_small 32) by lia. reflexivity. }
  set (l1 := splice (Z.to_nat (i + spos b)) v l) in *. set (b1 := set_spos _ _).
  assert (length l1 = length l) as Hll by (apply length_splice; lia).
  assert (ss_ok A b1 s p l1 i) as Hok1.
  { split; try (done || (simpl; lia)); [simpl; by rewrite Hs1|]. split; [done|]. split; [|lia].
    apply (locate_add _ _ (- spos b)) in Hl1. simpl. replace p with (bptr_add (bptr_add p (spos b)) (- spos b)).
    - rewrite Hl1. do 2 f_equal. lia.
    - destruct p; simpl; f_equal; lia. }
  destruct (ss_contents_eq _ _ _ _ _ _ Hok1) as [Hc1 Hcl1]. split; [by exists s, p, l1, i|].
  split_and!; [|by rewrite Hcl1|done|done]. unfold ss_log. rewrite Hc, Hc1, !take_contents by (simpl; lia).
  simpl. unfold l1. rewrite Z2Nat.inj_add, Nat2Z.id, (Z2Nat.inj_add i) by lia. apply slice_splice_extend. lia.
Qed.

(** Appending at the end of the string, within its buffer. *)
Lemma append_ok A b v : ss_inv A b -> spos b = zlen (ss_contents b) -> spos b + zlen v <= A ->
  exists w', ph_string_append_buf junk self (sstr b) (Bytes v) (sworld b) = Ret (PH_OK, w') /\
    let b1 := set_spos (u32 (spos b + zlen v)) (set_sworld w' b) in
    ss_inv A b1 /\ ss_log b1 = ss_log b ++ v /\ spos b1 = spos b + zlen v.
Proof.
  intros (s & p & l & i & Hok) Hend Hfit. destruct (ss_contents_eq _ _ _ _ _ _ Hok) as [Hc Hcl].
  pose proof Hok as [Hs Hroom Hp Hlen Hal Hmax]. rewrite Hcl in Hend.
  unfold ph_string_append_buf. step_with (load_str_eq (sworld b) (sstr b) s Hs).
  rewrite source_len_eq, (wrapU_small 32), (proj2 (Z.ltb_ge _ _)) by lia.
  destruct (append_copy_eq self (sworld b) (sstr b) s p l i v (zlen v) Hs Hroom)
    as (w' & l' & Happ & Hstr & Hroom' & Hcont & Hll & _); [lia..|].
  exists w'. split; [exact Happ|]. rewrite (wrapU_small 32) by lia. set (b1 := set_spos _ _).
  assert (ss_ok A b1 (with_buf (mt s) (len s + zlen v) (alloc s) (PhString.buf s) s) p l' i) as Hok1.
  { split; try done; [simpl; by rewrite Hstr, lookup_insert_eq|simpl; lia|simpl; lia]. }
  split; [by eexists _, _, _, _|]. split; [|done]. destruct (ss_contents_eq _ _ _ _ _ _ Hok1) as [Hc1 Hcl1].
  unfold ss_log. rewrite !take_ge by (simpl in *; lia). rewrite Hc1, Hcont, Hc, Nat2Z.id, firstn_all. done.
Qed.

Lemma str_write_loop_ok A iov : forall b w, ss_inv A b -> spos b + zlen (mjoin iov) <= A ->
  exists b', str_write_loop junk self iov w b = Ret (w + zlen (mjoin iov), b') /\ ss_inv A b' /\
    ss_log b' = ss_log b ++ mjoin iov.
Proof.
  induction iov as [|v iov IH]; intros b w Hinv Hfit.
  { exists b. rewrite app_nil_r. split_and!; try done. simpl. by rewrite Z.add_0_r. }
  change (mjoin (v :: iov)) with (v ++ mjoin iov) in *. rewrite length_app in Hfit.
  pose proof Hinv as (s & p & l & i & Hok). destruct (ss_contents_eq _ _ _ _ _ _ Hok) as [Hc Hcl].
  pose proof Hok as [Hs Hroom Hp Hlen Hal Hmax].
  cbn [str_write_loop]. step_with (the_string_eq b s Hs). step.
  rewrite MIN_min, !(wrapU_small 32), Nat2Z.id, firstn_all by lia. set (n := Z.min (zlen v) (len s - spos b)).
  assert (zlen (take (Z.to_nat n) v) = n) as Htk by (rewrite length_take; lia).
  assert (exists b1, (if n =? 0 then ret tt else on_world (write_bytes (at_pos s (spos b)) (take (Z.to_nat n) v)) ;;;
      modify (set_spos (spos b + n))) b = Ret (tt, b1) /\ ss_inv A b1 /\
      ss_log b1 = ss_log b ++ take (Z.to_nat n) v /\ zlen (ss_contents b1) = len s /\
      spos b1 = spos b + n /\ sstr b1 = sstr b) as (b1 & Hw & Hinv1 & Hlog1 & Hcl1 & Hp1 & Hst1).
  { destruct (n =? 0) eqn:E; zbool.
    - exists b. rewrite E. split_and!; try (done || lia). by rewrite app_nil_r.
    - destruct (overwrite_ok A b (take (Z.to_nat n) v) Hinv) as (s' & b1 & Hs' & Hw & H1 & H2 & H3 & H4 & H5); [lia|].
      assert (s' = s) as -> by congruence. rewrite Htk in *.
      rewrite (wrapU_small 32) in Hw by lia. exists b1. split_and!; try done. lia. }
  step_with Hw. rewrite length_drop. destruct (Z.of_nat (length v - Z.to_nat n) =? 0) eqn:E; zbool.
  - destruct (IH b1 (w + n) Hinv1) as (b' & Hr & Hi & Hl); [lia|]. exists b'.
    split; [rewrite Hr, length_app; do 2 f_equal; lia|]. split; [done|]. rewrite Hl, Hlog1, <- app_assoc, take_ge by lia. done.
  - step. destruct (append_ok A b1 (drop (Z.to_nat n) v) Hinv1) as (w' & Happ & Hinv2 & Hlog2 & Hp2);
      [lia|rewrite length_drop; lia|].
    step_with (on_world_eq _ b1 _ _ Happ). step. rewrite length_drop in *. set (b2 := set_spos _ _) in *.
    destruct (IH b2 (w + n + Z.of_nat (length v - Z.to_nat n)) Hinv2) as (b' & Hr & Hi & Hl); [lia|].
    exists b'. split; [rewrite Hr, length_app; do 2 f_equal; lia|]. split; [done|].
    by rewrite Hl, Hlog2, Hlog1, <- !app_assoc, (app_assoc (take _ _)), take_drop.
Qed.

#[export] Instance string_sink A : sink (str_funcs junk self mt_ss) (ss_inv A) ss_log A (fun e => e = ENOMEM).
Proof.
  split. intros iov b Hinv Hcap. pose proof Hinv as (s & p & l & i & Hok).
  destruct (ss_contents_eq _ _ _ _ _ _ Hok) as [Hc Hcl]. pose proof (ss_pos _ _ _ _ _ _ Hok) as Hp.
  assert (zlen (ss_log b) = spos b) as Hll by (unfold ss_log; rewrite length_take; lia).
  destruct (str_write_loop_ok A iov b 0 Hinv ltac:(lia)) as (b' & Hr & Hi & Hl).
  eexists _, b'. split; [simpl; unfold str_writev; step_with Hr; reflexivity|]. split; [done|].
  destruct (0 + zlen (mjoin iov) =? 0) eqn:E; zbool.
  - split; [done|]. split; [done|]. rewrite Hl. destruct (mjoin iov); [by rewrite app_nil_r|simpl in E; lia].
  - split; [lia|]. split; [lia|]. by rewrite Hl, Z.add_0_l, Nat2Z.id, firstn_all.
Qed.

Lemma ss_log_len A b : ss_inv A b -> zlen (ss_log b) = spos b /\ spos b <= zlen (ss_contents b) < 2 ^ 31 /\ 0 <= spos b.
Proof.
  intros (s & p & l & i & Hok). destruct (ss_contents_eq _ _ _ _ _ _ Hok) as [_ Hcl].
  pose proof Hok as [_ _ Hp Hlen Hal Hmax]. unfold ss_log. rewrite length_take. lia.
Qed.

(** [ph_stm_seek] to an offset from the start. *)
Lemma str_seek_ok A b off : ss_inv A b ->
  if (off <? 0) || (zlen (ss_contents b) <? off) then str_seek off SEEK_SET b = Ret (inr EINVAL, b)
  else str_seek off SEEK_SET b = Ret (inl off, set_spos off b) /\ ss_inv A (set_spos off b).
Proof.
  intros Hinv. destruct (ss_log_len A b Hinv) as (_ & Hb & _). destruct Hinv as (s & p & l & i & Hok).
  destruct (ss_contents_eq _ _ _ _ _ _ Hok) as [_ Hcl]. pose proof Hok as [Hs Hroom Hp Hlen Hal Hmax].
  rewrite Hcl. destruct ((off <? 0) || (len s <? off)) eqn:E.
  { unfold str_seek. step_with (the_string_eq b s Hs). step. cbn [Z.eqb SEEK_SET]. by rewrite E. }
  split.
  { unfold str_seek. step_with (the_string_eq b s Hs). step. cbn [Z.eqb SEEK_SET]. rewrite E. zbool.
    step. by rewrite (wrapU_small 32) by lia. }
  zbool. exists s, p, l, i. by split.
Qed.

(** What was written to a stream over a string with room is read back after
    seeking to where the write began, and the bytes before it are unchanged. *)
Theorem string_stream_roundtrip A b iov lens :
  ss_inv A b -> mjoin iov <> [] -> spos b + zlen (mjoin iov) <= A ->
  Forall (fun n => 0 <= n) lens -> zsum id lens = zlen (mjoin iov) ->
  exists b1 b2 b3, str_writev junk self iov b = Ret (inl (zlen (mjoin iov)), b1) /\
    str_seek (spos b) SEEK_SET b1 = Ret (inl (spos b), b2) /\ ss_log b2 = ss_log b /\
    str_readv lens b2 = Ret (inl (mjoin iov), b3) /\ ss_inv A b3.
Proof.
  intros Hinv Hne Hfit Hlens Hsum. assert (0 < zlen (mjoin iov)) as Hpos by (destruct (mjoin iov); [done|simpl; lia]).
  destruct (str_write_loop_ok A iov b 0 Hinv Hfit) as (b1 & Hw & Hi1 & Hl1).
  destruct (ss_log_len A b Hinv) as (Hlen0 & Hb0 & H00). destruct (ss_log_len A b1 Hi1) as (Hlen1 & Hb1 & _).
  assert (spos b1 = spos b + zlen (mjoin iov)) as Hp1 by (rewrite <- Hlen1, Hl1, length_app; lia).
  pose proof (str_seek_ok A b1 (spos b) Hi1) as Hseek.
  rewrite (proj2 (Z.ltb_ge (spos b) 0)), (proj2 (Z.ltb_ge _ (spos b))) in Hseek by lia. destruct Hseek as [Hseek Hi2].
  set (b2 := set_spos (spos b) b1) in *. destruct (str_read_loop_ok A lens b2 [] Hi2 Hlens) as (bs & b3 & Hr & Hi3 & Hbl & Hrest).
  assert (ss_log b1 = take (Z.to_nat (spos b)) (ss_contents b1) ++ take (length (mjoin iov)) (ss_rest b2)) as Hsplit.
  { unfold ss_log, ss_rest. rewrite Hp1, Z2Nat.inj_add, Nat2Z.id by lia. change (ss_contents b2) with (ss_contents b1).
    simpl spos. by rewrite take_app_drop. }
  rewrite Hl1 in Hsplit. apply app_inj_1 in Hsplit as [Hpre Hdata].
  2:{ rewrite length_take. lia. }
  assert (zlen (ss_rest b2) = zlen (ss_contents b1) - spos b) as Hrl.
  { unfold ss_rest. rewrite length_drop. change (ss_contents b2) with (ss_contents b1). simpl spos. lia. }
  exists b1, b2, b3. split; [unfold str_writev; step_with Hw; rewrite Z.add_0_l, (proj2 (Z.eqb_neq _ _)) by lia; done|].
  split; [done|]. split; [by rewrite Hpre|]. split; [|done]. unfold str_readv. step_with Hr. simpl app.
  assert (bs = mjoin iov) as ->; [|done]. rewrite Hdata, Hrest. symmetry. apply take_app_length'. lia.
Qed.

End proofs.

(** ** Concrete string streams *)

(** Over the string of PhStringProofs with room for a third byte. *)
Definition demo_ss : string_stream := SS demo_world 1 1 None.

Lemma demo_ss_inv : ss_inv 3 demo_ss.
Proof.
  exists demo_str, (BHeap 1 HEADER_RESERVATION), [1; 2; 3], 0.
  split; [reflexivity|apply demo_str_wf|simpl; lia|simpl; lia|done|done].
Qed.

Lemma string_stream_roundtrip_witness :
  exists b1 b2 b3, str_writev demo_junk 0 [[7]; [8]] demo_ss = Ret (inl 2, b1) /\
    str_seek 1 SEEK_SET b1 = Ret (inl 1, b2) /\ ss_log b2 = [1] /\
    str_readv [2; 0] b2 = Ret (inl [7; 8], b3) /\ ss_inv 3 b3.
Proof.
  refine (string_stream_roundtrip demo_junk 0 3 demo_ss [[7]; [8]] [2; 0] demo_ss_inv _ _ _ _);
    [done|by vm_compute|repeat constructor; lia|reflexivity].
Defined.

(** Over a string in a two-byte buffer that cannot grow. *)
Definition stack_ss : string_stream := SS demo_world 2 0 None.

(** A stream over a string that cannot grow reports more than it stored and
    moves past the end; the next write is outside the string. *)
Theorem static_string_overrun :
  match str_writev demo_junk 0 [[7; 8; 9]] stack_ss with
  | Ret (r, b) => r = inl 3 /\ ss_contents b = [7; 8] /\ str_writev demo_junk 0 [[1]] b = Fault
  | _ => False
  end.
Proof. vm_compute. auto. Qed.

End StringStreamProofs.
