(* ===== verification/Variant.v ===== *)
(** * Variants: corelib/variant/variant.c and include/phenom/variant.h

    Variants are objects with a reference count; the objects live in a store
    indexed by pointer.  Arrays hold pointers to variants, objects are hash
    tables from strings to pointers to variants, so values may share parts.
    The state [X] stands for the rest of the program, the strings and the
    allocator, which are used through [var_env]. *)

From Stdlib Require Import ZArith Lia.
From stdpp Require Import base numbers list gmap.
From S2P Require Import Prelude SysUtil PhString HashTable StringKeys.

Module Variant.
Import HashTable.

(** What variants use of memory.c and string.c: allocation of [n] bytes (false
    for a NULL result), reallocation, freeing, and the references of strings.
    The strings that variants hold are not modified, so their contents are a
    function of the pointer. *)
Class var_env (X : Type) := {
  mem_alloc : Z -> X -> bool * X;
  mem_realloc : Z -> X -> bool * X;
  mem_free : X -> X;
  contents_of : positive -> list Z;
  string_addref : positive -> X -> X;
  string_delref : positive -> X -> X;
}.

(** A pointer to a string. *)
Abbreviation str := positive (only parsing).

Section variant.
Context {X : Type} {env : var_env X}.
(** The C type [double] and its [==]. *)
Context {D : Type} (dbl_eqb : D -> D -> bool).

(** The fields of the hash table of an object; its key and value definitions
    are always those below. *)
Record oval_t := Oval {
  o_nelems : Z;
  o_size : Z;
  o_esize : Z;
  o_mask : Z;
  o_table : list (ph_ht_elem str positive);
}.

(** The type tag with the member of the union it selects.  Of an array, the
    [alloc] slots of the block and the pointers in the first [len] of them. *)
Inductive ph_variant_body :=
  | PH_VAR_OBJECT (oval : oval_t)
  | PH_VAR_ARRAY (alloc : Z) (arr : list positive)
  | PH_VAR_STRING (sval : str)
  | PH_VAR_INTEGER (ival : Z)
  | PH_VAR_REAL (dval : D)
  | PH_VAR_TRUE
  | PH_VAR_FALSE
  | PH_VAR_NULL.

Record ph_variant := Var { vref : Z; body : ph_variant_body }.

Record vworld := VWorld {
  vars : gmap positive ph_variant;
  vnext : positive;
  ext : X;
}.

Definition set_vars (f : gmap positive ph_variant -> gmap positive ph_variant) (w : vworld) : vworld :=
  VWorld (f (vars w)) (vnext w) (ext w).
Definition set_ext (x : X) (w : vworld) : vworld := VWorld (vars w) (vnext w) x.

Abbreviation VM := (M vworld).

Definition load (p : positive) : VM ph_variant := fun w =>
  match vars w !! p with Some v => Ret (v, w) | None => Fault end.
Definition store (p : positive) (v : ph_variant) : VM unit := modify (set_vars <[p := v]>).
Definition on_ext {A} (f : X -> A * X) : VM A := fun w =>
  let '(a, x) := f (ext w) in Ret (a, set_ext x w).
Definition do_ext (f : X -> X) : VM unit := modify (fun w => set_ext (f (ext w)) w).

(** sizeof(ph_variant_t) and sizeof(ph_variant_t * ). *)
Definition sizeof_variant : Z := 64.
Definition sizeof_ptr : Z := 8.

(** The static variants [bool_true_variant], [bool_false_variant] and
    [null_variant]; each starts with one reference. *)
Definition bool_true_variant : positive := 1.
Definition bool_false_variant : positive := 2.
Definition null_variant : positive := 3.

Definition statics : gmap positive ph_variant :=
  {[ bool_true_variant := Var 1 PH_VAR_TRUE;
     bool_false_variant := Var 1 PH_VAR_FALSE;
     null_variant := Var 1 PH_VAR_NULL ]}.

Definition ph_var_addref (var : positive) : VM unit :=
  v <-- load var ;; store var (Var (ph_refcnt_add (vref v)) (body v)).

(** [ph_mem_alloc(mt.var)] and the initialisation of the new variant. *)
Definition new_var (b : ph_variant_body) : VM (option positive) :=
  ok <-- on_ext (mem_alloc sizeof_variant) ;;
  if (ok : bool) then fun w =>
    Ret (Some (vnext w), VWorld (<[vnext w := Var 1 b]> (vars w)) (Pos.succ (vnext w)) (ext w))
  else ret None.

Definition free_var (var : positive) : VM unit :=
  do_ext mem_free ;;; modify (set_vars (delete var)).

Definition ph_var_bool (val : bool) : VM positive :=
  let var := if val then bool_true_variant else bool_false_variant in
  ph_var_addref var ;;; ret var.

Definition ph_var_null : VM positive := ph_var_addref null_variant ;;; ret null_variant.

Definition ph_var_double (dval : D) : VM (option positive) := new_var (PH_VAR_REAL dval).

Definition ph_var_int (ival : Z) : VM (option positive) := new_var (PH_VAR_INTEGER ival).

(** [None] is a NULL string. *)
Definition ph_var_string_claim (s : option str) : VM (option positive) :=
  match s with
  | None => p <-- ph_var_null ;; ret (Some p)
  | Some s => new_var (PH_VAR_STRING s)
  end.

Definition ph_var_string_make (s : option str) : VM (option positive) :=
  match s with
  | None => p <-- ph_var_null ;; ret (Some p)
  | Some s0 =>
      var <-- ph_var_string_claim s ;;
      match var with
      | None => ret None
      | Some p => do_ext (string_addref s0) ;;; ret (Some p)
      end
  end.

(** ** Objects: the definitions of the keys and of the values

    The callbacks of the hash table act on the state of the variants; one that
    goes wrong leaves no state. *)

Abbreviation VW := (outcome vworld).

Definition run (f : VM unit) (w : VW) : VW :=
  match w with
  | Ret w => match f w with Ret (_, w) => Ret w | Panic => Panic | Fault => Fault end
  | e => e
  end.

Definition alloc_w (n : Z) (w : VW) : bool * VW :=
  match w with
  | Ret w => let '(ok, x) := mem_alloc n (ext w) in (ok, Ret (set_ext x w))
  | e => (true, e)
  end.

Definition free_w (w : VW) : VW := run (do_ext mem_free) w.

Definition string_copy (src : str) (w : VW) : option str * VW :=
  (Some src, run (do_ext (string_addref src)) w).

Definition string_delete (k : str) (w : VW) : VW := run (do_ext (string_delref k)) w.

Definition ph_ht_string_key_def : ph_ht_key_def str VW :=
  KeyDef 8 (StringKeys.string_hash contents_of) (Some (StringKeys.string_compare contents_of))
    (Some string_copy) (Some string_delete).

(** [memcmp] is not used on string keys, they have a comparison function. *)
Definition no_memcmp (a b : str) : Z := 0.

Definition var_copy (src : positive) (w : VW) : option positive * VW :=
  (Some src, run (ph_var_addref src) w).

(** [del] is [ph_var_delref]. *)
Definition var_del (del : positive -> VM unit) (key : positive) (w : VW) : VW := run (del key) w.

Definition var_val_def (del : positive -> VM unit) : ph_ht_val_def positive VW :=
  ValDef 8 (Some var_copy) (Some (var_del del)).

Definition oval_ht (del : positive -> VM unit) (o : oval_t) : ph_ht_t str positive VW :=
  HT (o_nelems o) (o_size o) (o_esize o) (o_mask o) ph_ht_string_key_def (var_val_def del) (o_table o).
Definition ht_oval (ht : ph_ht_t str positive VW) : oval_t :=
  Oval (nelems ht) (table_size ht) (elem_size ht) (mask ht) (table ht).

(** Continue with the state a hash table operation left. *)
Definition resume (s : VW) : VM unit := fun _ =>
  match s with Ret w => Ret (tt, w) | Panic => Panic | Fault => Fault end.

(** ** Releasing a reference *)

Fixpoint delref_arr (del : positive -> VM unit) (arr : list positive) : VM unit :=
  match arr with
  | [] => ret tt
  | p :: arr => del p ;;; delref_arr del arr
  end.

(** [fuel] bounds the depth of the containers that are released. *)
Fixpoint delref_loop (fuel : nat) (var : positive) : VM unit :=
  match fuel with
  | O => fault
  | S fuel =>
      v <-- load var ;;
      let '(last, r) := ph_refcnt_del (vref v) in
      store var (Var r (body v)) ;;;
      if negb last then ret tt
      else
        (match body v with
         | PH_VAR_TRUE | PH_VAR_FALSE | PH_VAR_NULL => panic
         | PH_VAR_ARRAY _ arr =>
             delref_arr (delref_loop fuel) arr ;;;
             do_ext mem_free
         | PH_VAR_OBJECT o =>
             w <-- get ;;
             resume (snd (ph_ht_destroy free_w (oval_ht (delref_loop fuel) o) (Ret w)))
         | PH_VAR_STRING s => do_ext (string_delref s)
         | PH_VAR_INTEGER _ | PH_VAR_REAL _ => ret tt
         end) ;;;
        free_var var
  end.

Definition ph_var_delref (var : positive) : VM unit := fun w =>
  delref_loop (S (size (vars w))) var w.

(** ** Arrays *)

Definition ph_var_array (n : Z) : VM (option positive) :=
  var <-- new_var (PH_VAR_ARRAY n []) ;;
  match var with
  | None => ret None
  | Some p =>
      ok <-- on_ext (mem_alloc (u64 (n * sizeof_ptr))) ;;
      if (ok : bool) then ret (Some p) else free_var p ;;; ret None
  end.

Definition ph_var_array_size (v : ph_variant) : Z :=
  match body v with PH_VAR_ARRAY _ arr => zlen arr | _ => 0 end.

Definition ph_var_array_get (v : ph_variant) (pos : Z) : option positive :=
  match body v with
  | PH_VAR_ARRAY _ arr => if zlen arr <=? pos then None else arr !! Z.to_nat pos
  | _ => None
  end.

(** The store [arr[len++] = val], in a block of [alloc] slots. *)
Definition array_push (arr : positive) (r alloc : Z) (l : list positive) (val : positive) : VM ph_result_t :=
  if zlen l <? alloc then store arr (Var r (PH_VAR_ARRAY alloc (l ++ [val]))) ;;; ret PH_OK
  else fault.

Definition ph_var_array_append_claim (arr val : positive) : VM ph_result_t :=
  v <-- load arr ;;
  match body v with
  | PH_VAR_ARRAY alloc l =>
      if alloc <=? u32 (zlen l + 1) then
        let nsize := ph_power_2 (u32 (alloc * 2)) in
        ok <-- on_ext (mem_realloc (u64 (nsize * sizeof_ptr))) ;;
        if (ok : bool) then array_push arr (vref v) nsize l val else ret PH_NOMEM
      else array_push arr (vref v) alloc l val
  | _ => ret PH_ERR
  end.

Definition ph_var_array_append (arr val : positive) : VM ph_result_t :=
  res <-- ph_var_array_append_claim arr val ;;
  match res with
  | PH_OK => ph_var_addref val ;;; ret PH_OK
  | _ => ret res
  end.

Definition ph_var_array_set_claim (arr : positive) (pos : Z) (val : positive) : VM ph_result_t :=
  v <-- load arr ;;
  match body v with
  | PH_VAR_ARRAY alloc l =>
      if pos =? zlen l then ph_var_array_append_claim arr val
      else if zlen l <=? pos then ret PH_NOENT
      else
        old <-- of_option (l !! Z.to_nat pos) ;;
        ph_var_delref old ;;;
        v <-- load arr ;;
        match body v with
        | PH_VAR_ARRAY alloc l =>
            store arr (Var (vref v) (PH_VAR_ARRAY alloc (<[Z.to_nat pos := val]> l))) ;;; ret PH_OK
        | _ => fault
        end
  | _ => ret PH_ERR
  end.

Definition ph_var_array_set (arr : positive) (pos : Z) (val : positive) : VM ph_result_t :=
  res <-- ph_var_array_set_claim arr pos val ;;
  match res with
  | PH_OK => ph_var_addref val ;;; ret PH_OK
  | _ => ret res
  end.

(** ** Objects *)

Definition ph_var_object (n : Z) : VM (option positive) :=
  var <-- new_var (PH_VAR_OBJECT (Oval 0 0 0 0 [])) ;;
  match var with
  | None => ret None
  | Some p =>
      w <-- get ;;
      let '(res, ht, s) := ph_ht_init alloc_w n ph_ht_string_key_def (var_val_def ph_var_delref) (Ret w) in
      resume s ;;;
      match res, ht with
      | PH_OK, Some ht => store p (Var 1 (PH_VAR_OBJECT (ht_oval ht))) ;;; ret (Some p)
      | _, _ => free_var p ;;; ret None
      end
  end.

Definition store_oval (obj : positive) (ht : ph_ht_t str positive VW) : VM unit :=
  v <-- load obj ;; store obj (Var (vref v) (PH_VAR_OBJECT (ht_oval ht))).

(** [ph_ht_insert] on the object's table; the table is written back to the
    object.  A rebuild that does not terminate is [Fault]. *)
Definition object_insert (obj : positive) (key : str) (val : positive) (fl : Z) : VM ph_result_t :=
  v <-- load obj ;;
  match body v with
  | PH_VAR_OBJECT o =>
      w <-- get ;;
      match ph_ht_insert no_memcmp alloc_w free_w (oval_ht ph_var_delref o) key val fl (Ret w) with
      | None => fault
      | Some (res, ht, s) => resume s ;;; store_oval obj ht ;;; ret res
      end
  | _ => ret PH_ERR
  end.

Definition ph_var_object_set_claim_kv (obj : positive) (key : str) (val : positive) : VM ph_result_t :=
  object_insert obj key val (Z.lor PH_HT_REPLACE PH_HT_CLAIM).

Definition ph_var_object_set (obj : positive) (key : str) (val : positive) : VM ph_result_t :=
  object_insert obj key val (Z.lor PH_HT_REPLACE PH_HT_COPY).

(** [ph_ht_lookup] without copying, which changes no state. *)
Definition ph_var_object_get (v : ph_variant) (key : str) : option positive :=
  match body v with
  | PH_VAR_OBJECT o => ph_ht_get no_memcmp (oval_ht ph_var_delref o) key
  | _ => None
  end.

(** The key is a string object [kstr] of its own with the contents of the C
    string. *)
Definition ph_var_object_get_cstr (v : ph_variant) (kstr : positive) : option positive :=
  ph_var_object_get v kstr.

Definition ph_var_object_del (obj : positive) (key : str) : VM ph_result_t :=
  v <-- load obj ;;
  match body v with
  | PH_VAR_OBJECT o =>
      w <-- get ;;
      let '(res, ht, s) := ph_ht_del no_memcmp (oval_ht ph_var_delref o) key (Ret w) in
      resume s ;;; store_oval obj ht ;;; ret res
  | _ => ret PH_ERR
  end.

Definition ph_var_object_size (v : ph_variant) : Z :=
  match body v with PH_VAR_OBJECT o => o_nelems o | _ => 0 end.

(** The iterators do not look at the type; [Fault] for another type. *)
Definition the_oval (v : ph_variant) : VM oval_t :=
  match body v with PH_VAR_OBJECT o => ret o | _ => fault end.

Definition ph_var_object_iter_first (obj : positive) : VM (option (str * positive) * ph_ht_iter_t) :=
  v <-- load obj ;; o <-- the_oval v ;; ret (ph_ht_iter_first (oval_ht ph_var_delref o)).

Definition ph_var_object_iter_next (obj : positive) (iter : ph_ht_iter_t) :
    VM (option (str * positive) * ph_ht_iter_t) :=
  v <-- load obj ;; o <-- the_oval v ;; ret (ph_ht_iter_next (oval_ht ph_var_delref o) iter).

(** The key of all-zero bytes, a NULL pointer, is never dereferenced: copying
    a string key does not fail. *)
Definition null_str : str := 1%positive.

Definition ph_var_object_ordered_iter_first (obj : positive) :
    VM (option (str * positive) * ph_ht_ordered_iter_t str) :=
  v <-- load obj ;;
  o <-- the_oval v ;;
  w <-- get ;;
  match ph_ht_ordered_iter_first no_memcmp null_str alloc_w free_w (oval_ht ph_var_delref o) (Ret w) with
  | Ret (r, iter, s) => resume s ;;; ret (r, iter)
  | Panic => panic
  | Fault => fault
  end.

Definition ph_var_object_ordered_iter_next (obj : positive) (iter : ph_ht_ordered_iter_t str) :
    VM (option (str * positive) * ph_ht_ordered_iter_t str) :=
  v <-- load obj ;;
  o <-- the_oval v ;;
  match ph_ht_ordered_iter_next no_memcmp (oval_ht ph_var_delref o) iter with
  | Ret r => ret r
  | Panic => panic
  | Fault => fault
  end.

Definition ph_var_object_ordered_iter_end (obj : positive) (iter : ph_ht_ordered_iter_t str) :
    VM (ph_ht_ordered_iter_t str) :=
  v <-- load obj ;;
  o <-- the_oval v ;;
  w <-- get ;;
  let '(iter, s) := ph_ht_ordered_iter_end free_w (oval_ht ph_var_delref o) iter (Ret w) in
  resume s ;;; ret iter.

(** ** Equality *)

(** The loop of [arr_equal] from index [i] on; [eq] is [ph_var_equal]. *)
Fixpoint arr_equal_loop (eq : positive -> positive -> VM bool) (a b : ph_variant) (n : nat) (i : Z) : VM bool :=
  match n with
  | O => ret true
  | S n =>
      p <-- of_option (ph_var_array_get a i) ;;
      q <-- of_option (ph_var_array_get b i) ;;
      ok <-- eq p q ;;
      if (ok : bool) then arr_equal_loop eq a b n (u32 (i + 1)) else ret false
  end.

Definition arr_equal (eq : positive -> positive -> VM bool) (a b : ph_variant) : VM bool :=
  let n := ph_var_array_size a in
  if negb (ph_var_array_size b =? n) then ret false
  else arr_equal_loop eq a b (Z.to_nat n) 0.

(** The do-while loop of [obj_equal]: [r] is the entry the iterator [iter] has
    just returned; [n] bounds the entries that are left. *)
Fixpoint obj_equal_loop (eq : positive -> positive -> VM bool) (a : positive) (b : ph_variant) (n : nat)
    (r : option (str * positive)) (iter : ph_ht_iter_t) : VM bool :=
  match r with
  | None => ret true
  | Some (key, v1) =>
      match ph_var_object_get b key with
      | None => ret false
      | Some v2 =>
          ok <-- eq v1 v2 ;;
          if (ok : bool) then
            match n with
            | O => fault
            | S n =>
                let* (r, iter) := ph_var_object_iter_next a iter in
                obj_equal_loop eq a b n r iter
            end
          else ret false
      end
  end.

Definition obj_equal (eq : positive -> positive -> VM bool) (a b : positive) : VM bool :=
  va <-- load a ;;
  vb <-- load b ;;
  if negb (ph_var_object_size va =? ph_var_object_size vb) then ret false
  else if ph_var_object_size va =? 0 then ret true
  else
    let* (r, iter) := ph_var_object_iter_first a in
    obj_equal_loop eq a vb (Z.to_nat (ph_var_object_size va)) r iter.

(** [ph_string_equal]. *)
Definition string_equal (a b : str) : bool :=
  if decide (a = b) then true
  else
    let (la, lb) := (contents_of a, contents_of b) in
    if negb (zlen la =? zlen lb) then false else PhString.memcmp la lb =? 0.

(** [fuel] bounds the depth of the values. *)
Fixpoint equal_loop (fuel : nat) (a b : positive) : VM bool :=
  match fuel with
  | O => fault
  | S fuel =>
      if decide (a = b) then ret true
      else
        va <-- load a ;;
        vb <-- load b ;;
        match body va, body vb with
        | PH_VAR_INTEGER x, PH_VAR_INTEGER y => ret (x =? y)
        | PH_VAR_REAL x, PH_VAR_REAL y => ret (dbl_eqb x y)
        | PH_VAR_STRING x, PH_VAR_STRING y => ret (string_equal x y)
        | PH_VAR_OBJECT _, PH_VAR_OBJECT _ => obj_equal (equal_loop fuel) a b
        | PH_VAR_ARRAY _ _, PH_VAR_ARRAY _ _ => arr_equal (equal_loop fuel) va vb
        | _, _ => ret false
        end
  end.

Definition ph_var_equal (a b : positive) : VM bool := fun w =>
  equal_loop (S (size (vars w))) a b w.

End variant.

Arguments ph_variant : clear implicits.
Arguments ph_variant_body : clear implicits.
Arguments vworld : clear implicits.
End Variant.
