(* ===== verification/VariantProofs.v ===== *)
(** * Reference counting of variants

    The count of a variant is the number of references the program holds (the
    roots) plus those the arrays and objects hold, and no variant is kept that
    nobody refers to.  Releasing a reference terminates and restores this
    invariant, through whatever it frees on the way. *)

From Stdlib Require Import ZArith Lia.
From stdpp Require Import base numbers list gmap.
From S2P Require Import Prelude SysUtil PhString PhStringUtf8 HashTable HashTableProofs StringKeys Variant.

Module VariantProofs.
Export Variant.
Import HashTable HashTableProofs.

(** ** Counting occurrences *)

Definition occ (p : positive) (l : list positive) : Z :=
  zsum (fun q => if decide (q = p) then 1 else 0) l.

Lemma occ_cons p q l : occ p (q :: l) = (if decide (q = p) then 1 else 0) + occ p l.
Proof. done. Qed.
Lemma occ_app p l l' : occ p (l ++ l') = occ p l + occ p l'.
Proof. apply zsum_app. Qed.
Lemma occ_perm p l l' : l ≡ₚ l' -> occ p l = occ p l'.
Proof. apply zsum_perm. Qed.
Lemma occ_nonneg p l : 0 <= occ p l.
Proof. apply zsum_nonneg. intros q. case_decide; lia. Qed.
Lemma occ_elem p l : p ∈ l -> 0 < occ p l.
Proof.
  intros Hin. induction l as [|q l IH]; [by apply not_elem_of_nil in Hin|]. rewrite occ_cons.
  pose proof (occ_nonneg p l). apply elem_of_cons in Hin as [->|Hin]; [rewrite decide_True by done; lia|].
  specialize (IH Hin). case_decide; lia.
Qed.

Lemma occ_pos_elem p l : 0 < occ p l -> p ∈ l.
Proof.
  induction l as [|q l IH]; [done|]. rewrite occ_cons. case_decide as Hq; [by subst; left|].
  intros H. right. apply IH. lia.
Qed.

#[export] Instance occ_proper p : Proper ((≡ₚ) ==> (=)) (occ p).
Proof. intros l l'. apply occ_perm. Qed.

Section heap.
Context {D : Type}.
Implicit Types h : gmap positive (ph_variant D).
Implicit Types b : ph_variant_body D.

(** The variants and the strings a variant holds references to. *)
Definition refs_in b : list positive :=
  match b with
  | PH_VAR_OBJECT o => snd <$> entries (o_table o)
  | PH_VAR_ARRAY _ arr => arr
  | _ => []
  end.
Definition strs_in b : list positive :=
  match b with
  | PH_VAR_OBJECT o => fst <$> entries (o_table o)
  | PH_VAR_STRING s => [s]
  | _ => []
  end.

(** The sum of [f] over the variants that are not in [Y]. *)
Definition hsum (f : ph_variant_body D -> Z) (Y : gset positive) h : Z :=
  zsum (fun kv => if decide (kv.1 ∈ Y) then 0 else f (body kv.2)) (map_to_list h).

Lemma hsum_insert f Y h p v :
  h !! p = None ->
  hsum f Y (<[p := v]> h) = (if decide (p ∈ Y) then 0 else f (body v)) + hsum f Y h.
Proof.
  intros Hp. unfold hsum. rewrite (zsum_perm _ _ _ (map_to_list_insert h p v Hp)). done.
Qed.

Lemma hsum_zero f Y h : (forall p v, h !! p = Some v -> f (body v) = 0) -> hsum f Y h = 0.
Proof.
  induction h as [|p v h Hp IH] using map_ind; intros Hz; [unfold hsum; by rewrite map_to_list_empty|].
  rewrite hsum_insert, IH by done || (intros q u Hq; apply (Hz q); rewrite lookup_insert_ne by congruence; done).
  rewrite (Hz p v) by apply lookup_insert_eq. by case_decide.
Qed.

Lemma hsum_delete f Y h p v :
  h !! p = Some v ->
  hsum f Y h = (if decide (p ∈ Y) then 0 else f (body v)) + hsum f Y (delete p h).
Proof.
  intros Hp. rewrite <- (insert_delete_id h p v Hp) at 1.
  apply hsum_insert, lookup_delete_eq.
Qed.

Lemma hsum_update f Y h p v v' :
  h !! p = Some v ->
  hsum f Y (<[p := v']> h) = hsum f Y h + (if decide (p ∈ Y) then 0 else f (body v') - f (body v)).
Proof.
  intros Hp. rewrite (hsum_delete f Y h p v Hp), <- insert_delete_eq.
  rewrite hsum_insert by apply lookup_delete_eq. case_decide; lia.
Qed.

Lemma hsum_hide f Y h p : hsum f ({[p]} ∪ Y) h = hsum f Y (delete p h).
Proof.
  assert (forall q u, delete p h !! q = Some u ->
    (if decide (q ∈ {[p]} ∪ Y) then 0 else f (body u)) = if decide (q ∈ Y) then 0 else f (body u)) as He.
  { intros q u Hq. apply lookup_delete_Some in Hq as [Hne _]. do 2 case_decide; set_solver. }
  transitivity (hsum f ({[p]} ∪ Y) (delete p h)).
  - destruct (h !! p) as [v|] eqn:E.
    + rewrite (hsum_delete _ ({[p]} ∪ Y) _ _ _ E), decide_True by set_solver. lia.
    + by rewrite delete_id.
  - unfold hsum. apply zsum_ext_at. intros i [q u] Hi.
    apply list_elem_of_lookup_2, elem_of_map_to_list in Hi. by apply He.
Qed.

Lemma hsum_add f Y h p v :
  h !! p = Some v -> p ∉ Y -> hsum f Y h = f (body v) + hsum f ({[p]} ∪ Y) h.
Proof. intros Hp HY. rewrite (hsum_delete f Y h p v Hp), hsum_hide, decide_False by done. done. Qed.

(** [h'] has some of the variants of [h], unchanged but for the counts. *)
Definition body_sub h' h : Prop :=
  forall q v', h' !! q = Some v' -> exists v, h !! q = Some v /\ body v = body v'.

#[export] Instance body_sub_preorder : PreOrder body_sub.
Proof.
  split; [intros h q v Hq; by exists v|].
  intros h1 h2 h3 H12 H23 q v Hq. destruct (H12 q v Hq) as (v2 & Hq2 & <-). by apply H23.
Qed.

Lemma hsum_mono f Y h' h : (forall b, 0 <= f b) -> body_sub h' h -> hsum f Y h' <= hsum f Y h.
Proof.
  intros Hf. revert h. induction h' as [|p v h' Hp IH] using map_ind; intros h Hsub.
  { apply zsum_nonneg. intros [q u]. simpl. case_decide; [lia|apply Hf]. }
  destruct (Hsub p v ltac:(by rewrite lookup_insert_eq)) as (u & Hu & Hb).
  rewrite hsum_insert, (hsum_delete f Y h p u Hu), Hb by done.
  assert (hsum f Y h' <= hsum f Y (delete p h)); [apply IH|case_decide; lia].
  intros q v' Hq. assert (q <> p) by congruence. rewrite lookup_delete_ne by done.
  apply Hsub. by rewrite lookup_insert_ne.
Qed.

(** [rank] shows that no variant contains itself. *)
Definition ranked (rank : positive -> nat) h : Prop :=
  forall p v q, h !! p = Some v -> q ∈ refs_in (body v) -> (rank q < rank p)%nat.

Lemma ranked_sub rank h h' : ranked rank h -> body_sub h' h -> ranked rank h'.
Proof. intros Hr Hs p v q Hp. destruct (Hs p v Hp) as (u & Hu & <-). by apply Hr with (v := u). Qed.

Definition acyclic h : Prop := exists rank, ranked rank h.

(** A rank can be chosen below the number of variants. *)
Lemma acyclic_bounded h :
  (forall p v q, h !! p = Some v -> q ∈ refs_in (body v) -> is_Some (h !! q)) ->
  acyclic h -> exists rank, ranked rank h /\ forall p, (rank p <= size h)%nat.
Proof.
  intros Hcl [rank Hr].
  set (below := fun p => filter (fun kv : positive * ph_variant D => (rank kv.1 < rank p)%nat) h).
  exists (fun p => size (below p)). split; [|intros p; apply map_size_filter].
  intros p v q Hp Hq. specialize (Hr p v q Hp Hq). destruct (Hcl p v q Hp Hq) as [u Hu].
  apply map_subset_size, map_subset_alt. split.
  - apply map_subseteq_spec. intros r x Hx. apply map_lookup_filter_Some in Hx as [Hx Hlt].
    apply map_lookup_filter_Some. simpl in *. split; [done|lia].
  - exists q. split.
    + apply map_lookup_filter_None_2. right. intros x Hx. simpl. lia.
    + exists u. by apply map_lookup_filter_Some.
Qed.

(** [q] is [p] or below it. *)
Inductive leads h : positive -> positive -> Prop :=
  | leads_refl p : leads h p p
  | leads_step p v q r : h !! p = Some v -> q ∈ refs_in (body v) -> leads h q r -> leads h p r.

Lemma leads_sub h h' p q : body_sub h' h -> leads h' p q -> leads h p q.
Proof.
  intros Hs. induction 1 as [p|p v q r Hp Hq _ IH]; [constructor|].
  destruct (Hs p v Hp) as (u & Hu & Hb). apply leads_step with u q; [done|by rewrite Hb|done].
Qed.

(** ** The invariant *)

Definition is_static (p : positive) : Prop :=
  p = bool_true_variant \/ p = bool_false_variant \/ p = null_variant.
#[export] Instance is_static_dec p : Decision (is_static p).
Proof. unfold is_static. apply _. Defined.

(** The reference a static variant keeps on itself. *)
Definition own (p : positive) : Z := if decide (is_static p) then 1 else 0.

Definition is_singleton b : Prop := b = PH_VAR_TRUE \/ b = PH_VAR_FALSE \/ b = PH_VAR_NULL.

(** How often [p] is referred to by the program and by the variants outside
    [Y]; the variants in [Y] are being changed or released. *)
Definition refcount (Y : gset positive) h (roots : list positive) (p : positive) : Z :=
  own p + occ p roots + hsum (fun b => occ p (refs_in b)) Y h.

Record rc (Y : gset positive) h (roots : list positive) : Prop := {
  rc_live p v : p ∉ Y -> h !! p = Some v -> vref v = refcount Y h roots p /\ 0 < vref v < 2 ^ 31;
  rc_dead p : p ∉ Y -> h !! p = None -> refcount Y h roots p = 0;
  rc_single p v : h !! p = Some v -> is_singleton (body v) -> is_static p;
}.

Lemma refcount_perm Y h l l' p : l ≡ₚ l' -> refcount Y h l p = refcount Y h l' p.
Proof. unfold refcount. by intros ->. Qed.

Lemma rc_perm Y h l l' : l ≡ₚ l' -> rc Y h l -> rc Y h l'.
Proof.
  intros Hp [H1 H2 H3]. split; [| |done]; intros p; rewrite <- (refcount_perm _ _ _ _ p Hp); auto.
Qed.

#[export] Instance rc_proper Y h : Proper ((≡ₚ) ==> iff) (rc Y h).
Proof. intros l l' Hp. split; by apply rc_perm. Qed.

Lemma refcount_root Y h roots p q :
  refcount Y h (q :: roots) p = (if decide (q = p) then 1 else 0) + refcount Y h roots p.
Proof. unfold refcount. rewrite occ_cons. lia. Qed.

Lemma own_nonneg p : 0 <= own p.
Proof. unfold own. case_decide; lia. Qed.
Lemma hsum_nonneg f Y h : (forall b, 0 <= f b) -> 0 <= hsum f Y h.
Proof. intros Hf. apply zsum_nonneg. intros kv. case_decide; [lia|apply Hf]. Qed.
Lemma refcount_nonneg Y h roots p : 0 <= refcount Y h roots p.
Proof.
  unfold refcount. pose proof (own_nonneg p). pose proof (occ_nonneg p roots).
  pose proof (hsum_nonneg (fun b => occ p (refs_in b)) Y h (fun b => occ_nonneg p _)). lia.
Qed.

Lemma refcount_mono Y h h' roots p : body_sub h' h -> refcount Y h' roots p <= refcount Y h roots p.
Proof.
  intros Hs. unfold refcount.
  pose proof (hsum_mono (fun b => occ p (refs_in b)) Y h' h (fun b => occ_nonneg p _) Hs). lia.
Qed.

(** A root outside [Y] is alive. *)
Lemma rc_root Y h roots p : rc Y h (p :: roots) -> p ∉ Y -> exists v, h !! p = Some v.
Proof.
  intros Hrc HY. destruct (h !! p) as [v|] eqn:E; [eauto|].
  pose proof (rc_dead _ _ _ Hrc p HY E) as H. rewrite refcount_root, decide_True in H by done.
  pose proof (refcount_nonneg Y h roots p). lia.
Qed.

(** Dropping a root that is not the last reference. *)
Lemma rc_drop Y h roots p v :
  rc Y h (p :: roots) -> p ∉ Y -> h !! p = Some v -> vref v <> 1 ->
  rc Y (<[p := Var (vref v - 1) (body v)]> h) roots.
Proof.
  intros Hrc HY Hp Hne. assert (forall q, refcount Y (<[p := Var (vref v - 1) (body v)]> h) roots q =
    refcount Y h roots q) as Hrw.
  { intros q. unfold refcount. rewrite (hsum_update _ _ _ _ _ _ Hp). simpl. case_decide; lia. }
  destruct (rc_live _ _ _ Hrc p v HY Hp) as [Hv Hpos].
  split.
  - intros q u Hq Hqu. rewrite Hrw. destruct (decide (q = p)) as [->|Hqp].
    + rewrite lookup_insert_eq in Hqu. injection Hqu as <-. simpl.
      rewrite refcount_root, decide_True in Hv by done. lia.
    + rewrite lookup_insert_ne in Hqu by done.
      destruct (rc_live _ _ _ Hrc q u Hq Hqu) as [Hu ?].
      rewrite refcount_root, decide_False in Hu by done. lia.
  - intros q Hq Hqn. rewrite Hrw. destruct (decide (q = p)) as [->|Hqp].
    + by rewrite lookup_insert_eq in Hqn.
    + rewrite lookup_insert_ne in Hqn by done. pose proof (rc_dead _ _ _ Hrc q Hq Hqn) as Hd.
      rewrite refcount_root, decide_False in Hd by done. lia.
  - intros q u Hqu Hs. destruct (decide (q = p)) as [->|Hqp].
    + rewrite lookup_insert_eq in Hqu. injection Hqu as <-. by apply (rc_single _ _ _ Hrc p v).
    + rewrite lookup_insert_ne in Hqu by done. by apply (rc_single _ _ _ Hrc q u).
Qed.

(** Taking the last reference: what the variant holds becomes the program's,
    the variant itself is out of the count. *)
Lemma rc_open Y h roots p v v' :
  rc Y h (p :: roots) -> p ∉ Y -> h !! p = Some v -> vref v = 1 -> body v' = body v ->
  rc ({[p]} ∪ Y) (<[p := v']> h) (refs_in (body v) ++ roots) /\
  refcount Y h roots p = 0 /\ ~ is_static p.
Proof.
  intros Hrc HY Hp H1 Hb. destruct (rc_live _ _ _ Hrc p v HY Hp) as [Hv _].
  rewrite refcount_root, decide_True, H1 in Hv by done.
  assert (forall q, refcount ({[p]} ∪ Y) (<[p := v']> h) (refs_in (body v) ++ roots) q =
    refcount Y h roots q) as Hrw.
  { intros q. unfold refcount.
    rewrite (hsum_update _ _ _ _ _ _ Hp), decide_True by set_solver. rewrite occ_app.
    rewrite (hsum_add _ Y h p v Hp HY). lia. }
  split; [split|split; [lia|]].
  - intros q u Hq Hqu. rewrite Hrw. assert (q <> p) by set_solver.
    rewrite lookup_insert_ne in Hqu by done.
    destruct (rc_live _ _ _ Hrc q u ltac:(set_solver) Hqu) as [Hu ?].
    rewrite refcount_root, decide_False in Hu by done. lia.
  - intros q Hq Hqn. rewrite Hrw. assert (q <> p) by set_solver.
    rewrite lookup_insert_ne in Hqn by done. pose proof (rc_dead _ _ _ Hrc q ltac:(set_solver) Hqn) as Hd.
    rewrite refcount_root, decide_False in Hd by done. lia.
  - intros q u Hqu Hs. destruct (decide (q = p)) as [->|Hqp].
    + rewrite lookup_insert_eq in Hqu. injection Hqu as <-. rewrite Hb in Hs.
      by apply (rc_single _ _ _ Hrc p v).
    + rewrite lookup_insert_ne in Hqu by done. by apply (rc_single _ _ _ Hrc q u).
  - intros Hst. unfold refcount, own in Hv. rewrite decide_True in Hv by done.
    pose proof (occ_nonneg p roots).
    pose proof (hsum_nonneg (fun b => occ p (refs_in b)) Y h (fun b => occ_nonneg p _)). lia.
Qed.

(** The variant is freed after what it held was released. *)
Lemma rc_close Y h h' roots p :
  rc ({[p]} ∪ Y) h' roots -> body_sub h' h -> refcount Y h roots p = 0 -> p ∉ Y ->
  rc Y (delete p h') roots.
Proof.
  intros Hrc Hs Hz HY.
  assert (forall q, refcount Y (delete p h') roots q = refcount ({[p]} ∪ Y) h' roots q) as Hrw.
  { intros q. unfold refcount. by rewrite hsum_hide. }
  assert (refcount Y (delete p h') roots p = 0) as Hzp.
  { pose proof (refcount_nonneg Y (delete p h') roots p).
    assert (body_sub (delete p h') h) as Hs2.
    { intros q u Hq. apply lookup_delete_Some in Hq as [_ Hq]. by apply Hs. }
    pose proof (refcount_mono Y h (delete p h') roots p Hs2). lia. }
  split.
  - intros q u Hq Hqu. apply lookup_delete_Some in Hqu as [Hne Hqu]. rewrite Hrw.
    apply (rc_live _ _ _ Hrc); set_solver.
  - intros q Hq Hqn. destruct (decide (q = p)) as [->|Hqp]; [done|].
    rewrite lookup_delete_ne in Hqn by done. rewrite Hrw. apply (rc_dead _ _ _ Hrc); set_solver.
  - intros q u Hqu. apply lookup_delete_Some in Hqu as [_ Hqu]. by apply (rc_single _ _ _ Hrc).
Qed.
Lemma same_body_sub h p v v' :
  h !! p = Some v -> body v' = body v -> body_sub (<[p := v']> h) h.
Proof.
  intros Hp Hb q u Hq. destruct (decide (q = p)) as [->|Hne].
  - rewrite lookup_insert_eq in Hq. injection Hq as <-. by exists v.
  - rewrite lookup_insert_ne in Hq by done. by exists u.
Qed.

(** The variants that can be reached from the roots and the static ones. *)
Inductive reachable h (roots : list positive) : positive -> Prop :=
  | reach_root p : p ∈ roots -> reachable h roots p
  | reach_static p : is_static p -> reachable h roots p
  | reach_child p v q : reachable h roots p -> h !! p = Some v -> q ∈ refs_in (body v) -> reachable h roots q.

Lemma hsum_pos f Y h p v : (forall b, 0 <= f b) -> h !! p = Some v -> p ∉ Y -> f (body v) <= hsum f Y h.
Proof.
  intros Hf Hp HY. rewrite (hsum_delete _ _ _ _ _ Hp), decide_False by done.
  pose proof (hsum_nonneg f Y (delete p h) Hf). lia.
Qed.

Lemma rc_child h roots p v q : rc ∅ h roots -> h !! p = Some v -> q ∈ refs_in (body v) -> is_Some (h !! q).
Proof.
  intros Hrc Hp Hq. destruct (h !! q) as [u|] eqn:E; [done|].
  pose proof (rc_dead _ _ _ Hrc q ltac:(set_solver) E) as Hd. unfold refcount in Hd.
  pose proof (hsum_pos (fun b => occ q (refs_in b)) ∅ h p v (fun b => occ_nonneg q _) Hp ltac:(set_solver)).
  pose proof (occ_elem q _ Hq). pose proof (own_nonneg q). pose proof (occ_nonneg q roots). simpl in *. lia.
Qed.

Lemma rc_static_live h roots p : rc ∅ h roots -> is_static p -> is_Some (h !! p).
Proof.
  intros Hrc Hst. destruct (h !! p) as [u|] eqn:E; [done|].
  pose proof (rc_dead _ _ _ Hrc p ltac:(set_solver) E) as Hd. unfold refcount, own in Hd.
  rewrite decide_True in Hd by done.
  pose proof (hsum_nonneg (fun b => occ p (refs_in b)) ∅ h (fun b => occ_nonneg p _)).
  pose proof (occ_nonneg p roots). lia.
Qed.

Lemma rc_root_live h roots p : rc ∅ h roots -> p ∈ roots -> is_Some (h !! p).
Proof.
  intros Hrc Hp. apply elem_of_Permutation in Hp as [l Hl]. rewrite Hl in Hrc.
  destruct (rc_root _ _ _ _ Hrc ltac:(set_solver)) as [v Hv]. by exists v.
Qed.

Lemma reachable_live h roots p : rc ∅ h roots -> reachable h roots p -> is_Some (h !! p).
Proof.
  intros Hrc. induction 1 as [p Hp|p Hp|p v q _ IH Hp Hq];
    [by eapply rc_root_live|by eapply rc_static_live|by eapply rc_child].
Qed.

(** What the count of a variant is made of. *)
Lemma hsum_pos_elem f Y h : 0 < hsum f Y h -> exists p v, h !! p = Some v /\ 0 < f (body v).
Proof.
  induction h as [|p v h Hp IH] using map_ind; [done|]. rewrite hsum_insert by done. intros H.
  destruct (decide (0 < f (body v))) as [Hf|Hf].
  - exists p, v. by rewrite lookup_insert_eq.
  - destruct IH as (q & u & Hq & Hu); [case_decide; lia|]. exists q, u.
    rewrite lookup_insert_ne by congruence. done.
Qed.

Lemma live_reachable h roots :
  rc ∅ h roots -> acyclic h -> forall p, is_Some (h !! p) -> reachable h roots p.
Proof.
  intros Hrc Hac. destruct (acyclic_bounded h) as (rank & Hr & Hb); [by intros; eapply rc_child|done|].
  assert (forall n p, (size h - rank p <= n)%nat -> is_Some (h !! p) -> reachable h roots p) as Hind; [|eauto].
  induction n as [n IH] using lt_wf_ind. intros p Hn [v Hp].
  destruct (rc_live _ _ _ Hrc p v ltac:(set_solver) Hp) as [Hv Hpos]. unfold refcount in Hv.
  destruct (decide (is_static p)) as [|Hns]; [by apply reach_static|].
  unfold own in Hv. rewrite decide_False in Hv by done.
  destruct (decide (0 < occ p roots)) as [Ho|Ho]; [by apply reach_root, occ_pos_elem|].
  destruct (hsum_pos_elem (fun b => occ p (refs_in b)) ∅ h) as (q & u & Hq & Ho2); [lia|].
  apply occ_pos_elem in Ho2. pose proof (Hr q u p Hq Ho2). pose proof (Hb q).
  apply reach_child with q u; [|done|done]. apply (IH (size h - rank q)%nat); [lia|done|by exists u].
Qed.

Lemma reachable_sub h h' roots p : body_sub h' h -> reachable h' roots p -> reachable h roots p.
Proof.
  intros Hs. induction 1 as [p Hp|p Hp|p v q _ IH Hp Hq]; [by apply reach_root|by apply reach_static|].
  destruct (Hs p v Hp) as (u & Hu & Hb). apply reach_child with p u; [done|done|by rewrite Hb].
Qed.

End heap.

(** What the environment promises: [srefs] counts the references to each
    string, and only [string_addref] and [string_delref] change it. *)
Class var_env_ok {X} (env : var_env X) (srefs : X -> positive -> Z) : Prop := {
  alloc_refs n x t : srefs (mem_alloc n x).2 t = srefs x t;
  realloc_refs n x t : srefs (mem_realloc n x).2 t = srefs x t;
  free_refs x t : srefs (mem_free x) t = srefs x t;
  addref_refs s x t : srefs (string_addref s x) t = srefs x t + (if decide (s = t) then 1 else 0);
  delref_refs s x t : srefs (string_delref s x) t = srefs x t - (if decide (s = t) then 1 else 0);
}.

Section delref.
Context {X : Type} {env : var_env X} {D : Type}.
Context (srefs : X -> positive -> Z) `{Henv : !var_env_ok env srefs}.
Implicit Types w : vworld X D.
Implicit Types h : gmap positive (ph_variant D).

(** The references to string [t] that are not held by a variant outside [Y]. *)
Definition loose (Y : gset positive) w (t : positive) : Z :=
  srefs (ext w) t - hsum (fun b => occ t (strs_in b)) Y (vars w).

(** The references to variant [d] held by the variants outside [Y]. *)
Definition held (Y : gset positive) w (d : positive) : Z :=
  hsum (fun b => occ d (refs_in b)) Y (vars w).

(** From [w] to [w'] references were released, to the roots [roots] and to the
    strings [ks]. *)
Record released (Y : gset positive) w w' (roots ks : list positive) : Prop := {
  rel_rc : rc Y (vars w') roots;
  rel_sub : body_sub (vars w') (vars w);
  rel_keep d : d ∈ Y -> vars w' !! d = vars w !! d;
  rel_next : vnext w' = vnext w;
  rel_count d : d ∈ Y -> held Y w' d = held Y w d;
  rel_loose t : loose Y w' t = loose Y w t - occ t ks;
}.

(** The variants that are not below [ps] are as they were. *)
Definition untouched (ps : list positive) w w' : Prop :=
  forall q, (forall p, p ∈ ps -> ~ leads (vars w) p q) -> vars w' !! q = vars w !! q.

Lemma untouched_nil w x : untouched [] w (set_ext x w).
Proof. by intros q _. Qed.

Lemma untouched_app ps ps' w1 w2 w3 :
  body_sub (vars w2) (vars w1) -> untouched ps w1 w2 -> untouched ps' w2 w3 -> untouched (ps ++ ps') w1 w3.
Proof.
  intros Hs H12 H23 q Hq. rewrite H23, H12; [done| |].
  - intros p Hp. apply Hq, elem_of_app. by left.
  - intros p Hp Hr. apply (Hq p); [apply elem_of_app; by right|]. by eapply leads_sub.
Qed.

(** [p] is below the variants in [Y]. *)
Definition under (rank : positive -> nat) (n : nat) (Y : gset positive) (p : positive) : Prop :=
  (rank p < n)%nat /\ p ∉ Y /\ forall d, d ∈ Y -> (rank p < rank d)%nat.

Definition del_ok (rank : positive -> nat) (n : nat) (del : positive -> M (vworld X D) unit) : Prop :=
  forall Y w roots p, rc Y (vars w) (p :: roots) -> ranked rank (vars w) -> under rank n Y p ->
    exists w', del p w = Ret (tt, w') /\ released Y w w' roots [] /\ untouched [p] w w'.

Lemma released_refl Y w roots : rc Y (vars w) roots -> released Y w w roots [].
Proof. split; try done. intros t. change (occ t []) with 0. lia. Qed.

Lemma released_trans Y w1 w2 w3 r2 r3 ks2 ks3 :
  released Y w1 w2 r2 ks2 -> released Y w2 w3 r3 ks3 -> released Y w1 w3 r3 (ks2 ++ ks3).
Proof.
  intros [_ S1 K1 N1 C1 L1] [R2 S2 K2 N2 C2 L2]. split; [done|by transitivity (vars w2)| |congruence| |].
  - intros d Hd. by rewrite K2, K1.
  - intros d Hd. by rewrite C2, C1.
  - intros t. rewrite L2, L1, occ_app. lia.
Qed.

Lemma delref_arr_ok rank n del :
  del_ok rank n del -> forall l Y w roots,
  rc Y (vars w) (l ++ roots) -> ranked rank (vars w) -> Forall (under rank n Y) l ->
  exists w', delref_arr del l w = Ret (tt, w') /\ released Y w w' roots [] /\ untouched l w w'.
Proof.
  intros Hdel. induction l as [|p l IH]; intros Y w roots Hrc Hr Hl; cbn [delref_arr].
  { exists w. split; [done|]. split; [by apply released_refl|done]. }
  apply Forall_cons in Hl as [Hp Hl].
  destruct (Hdel Y w (l ++ roots) p Hrc Hr Hp) as (w1 & E1 & H1 & U1). step_with E1.
  destruct (IH Y w1 roots) as (w2 & E2 & H2 & U2); [apply H1|by eapply ranked_sub; [|apply H1]|done|].
  exists w2. split; [done|]. split; [exact (released_trans _ _ _ _ _ _ _ _ H1 H2)|].
  apply (untouched_app [p] l _ w1); [apply H1|done|done].
Qed.

(** Changes of the environment alone. *)
Lemma released_ext Y w x roots k ks :
  rc Y (vars w) roots -> (forall t, srefs x t = srefs (ext w) t - occ t (k ++ ks) + occ t ks) ->
  released Y w (set_ext x w) roots k.
Proof.
  intros Hrc Hx. split; try done.
  intros t. unfold loose. cbn. rewrite Hx, occ_app. lia.
Qed.

Lemma released_string Y w roots k :
  rc Y (vars w) roots -> released Y w (set_ext (string_delref k (ext w)) w) roots [k].
Proof.
  intros Hrc. apply released_ext with (ks := []); [done|]. intros t.
  rewrite delref_refs. cbn. case_decide; lia.
Qed.

Lemma released_free Y w roots :
  rc Y (vars w) roots -> released Y w (set_ext (mem_free (ext w)) w) roots [].
Proof.
  intros Hrc. apply released_ext with (ks := []); [done|]. intros t.
  rewrite free_refs. cbn. lia.
Qed.

(** The entries of a table, whose keys are released as well. *)
Lemma delref_entries_ok rank n del :
  del_ok rank n del -> forall es Y w roots,
  rc Y (vars w) ((snd <$> es) ++ roots) -> ranked rank (vars w) -> Forall (under rank n Y) (snd <$> es) ->
  exists w', foldl (fun s kv => var_del del (snd kv) (string_delete (fst kv) s)) (Ret w) es = Ret w' /\
    released Y w w' roots (fst <$> es) /\ untouched (snd <$> es) w w'.
Proof.
  intros Hdel. induction es as [|[k p] es IH]; intros Y w roots Hrc Hr Hl.
  { exists w. split; [done|]. split; [by apply released_refl|done]. }
  rewrite fmap_cons in Hl, Hrc. apply Forall_cons in Hl as [Hp Hl]. cbn [foldl fst snd] in *.
  set (w0 := set_ext (string_delref k (ext w)) w).
  pose proof (released_string Y w _ k Hrc) as H0.
  destruct (Hdel Y w0 ((snd <$> es) ++ roots) p Hrc Hr Hp) as (w1 & E1 & H1 & U1).
  assert (string_delete k (Ret w) = Ret w0) as -> by done.
  assert (var_del del p (Ret w0) = Ret w1) as -> by (unfold var_del, run; by rewrite E1).
  destruct (IH Y w1 roots) as (w2 & E2 & H2 & U2); [apply H1|by eapply ranked_sub; [|apply H1]|done|].
  exists w2. split; [done|]. rewrite !fmap_cons. split.
  - exact (released_trans _ _ _ _ _ _ _ _ H0 (released_trans _ _ _ _ _ _ _ _ H1 H2)).
  - apply (untouched_app [p] (snd <$> es) w w1); [apply H1|done|done].
Qed.

(** What the variant [b] holds is released. *)
Definition release_body (fuel : nat) (b : ph_variant_body D) : M (vworld X D) unit :=
  match b with
  | PH_VAR_TRUE | PH_VAR_FALSE | PH_VAR_NULL => panic
  | PH_VAR_ARRAY _ arr => delref_arr (delref_loop fuel) arr ;;; do_ext mem_free
  | PH_VAR_OBJECT o =>
      w <-- get ;; resume (snd (ph_ht_destroy free_w (oval_ht (delref_loop fuel) o) (Ret w)))
  | PH_VAR_STRING s => do_ext (string_delref s)
  | PH_VAR_INTEGER _ | PH_VAR_REAL _ => ret tt
  end.

Lemma release_body_ok rank fuel b Y w roots :
  del_ok rank fuel (delref_loop fuel) -> ~ is_singleton b ->
  rc Y (vars w) (refs_in b ++ roots) -> ranked rank (vars w) -> Forall (under rank fuel Y) (refs_in b) ->
  exists w', release_body fuel b w = Ret (tt, w') /\ released Y w w' roots (strs_in b) /\
    untouched (refs_in b) w w'.
Proof.
  intros Hdel Hb Hrc Hr Hu. unfold is_singleton in Hb. destruct b as [o|al l|s|z|d| | |]; cbn [release_body].
  - unfold bind, get, ph_ht_destroy, ph_ht_free_entries.
    rewrite free_one_foldl. cbn [oval_ht table].
    destruct (delref_entries_ok rank fuel _ Hdel (entries (o_table o)) Y w roots Hrc Hr Hu) as (w1 & E1 & H1 & U1).
    cbn [fst snd]. unfold val_delete, key_delete. cbn [oval_ht kdef vdef ph_ht_string_key_def key_delete_func
      var_val_def val_delete_func]. rewrite E1. eexists. split; [reflexivity|].
    pose proof (released_free Y w1 roots (rel_rc _ _ _ _ _ H1)) as H2.
    pose proof (released_trans _ _ _ _ _ _ _ _ H1 H2) as H3. rewrite app_nil_r in H3. by split.
  - destruct (delref_arr_ok rank fuel _ Hdel l Y w roots Hrc Hr Hu) as (w1 & E1 & H1 & U1).
    step_with E1. eexists. split; [reflexivity|]. split; [|done].
    exact (released_trans _ _ _ _ _ _ _ _ H1 (released_free Y w1 roots (rel_rc _ _ _ _ _ H1))).
  - eexists. split; [reflexivity|]. split; [by apply released_string|done].
  - eexists. split; [reflexivity|]. split; [by apply released_refl|done].
  - eexists. split; [reflexivity|]. split; [by apply released_refl|done].
  - destruct Hb; auto.
  - destruct Hb; auto.
  - destruct Hb; auto.
Qed.

Lemma delref_loop_S fuel p w v :
  vars w !! p = Some v ->
  delref_loop (S fuel) p w =
    (let w1 := set_vars <[p := Var (s32 (vref v - 1)) (body v)]> w in
     if vref v =? 1 then (release_body fuel (body v) ;;; free_var p) w1 else Ret (tt, w1)).
Proof.
  intros Hp. cbn [delref_loop]. erewrite bind_ret by (unfold load; by rewrite Hp). cbv beta zeta.
  unfold ph_refcnt_del. step. destruct (vref v =? 1); cbn [negb]; [|done].
  destruct (body v); done.
Qed.
(** Freeing [p] after its contents were released. *)
Lemma free_var_ok Y w w1 p roots ks :
  p ∉ Y -> refcount Y (vars w) roots p = 0 -> released ({[p]} ∪ Y) w w1 roots ks ->
  exists w', free_var p w1 = Ret (tt, w') /\ rc Y (vars w') roots /\ body_sub (vars w') (vars w) /\
    (forall d, d ∈ Y -> vars w' !! d = vars w !! d) /\ vars w' = delete p (vars w1) /\
    vnext w' = vnext w /\ (forall d, d ∈ Y -> held Y w' d = held ({[p]} ∪ Y) w d) /\
    forall t, loose Y w' t = loose ({[p]} ∪ Y) w t - occ t ks.
Proof.
  intros HY Hz [R S K N C L]. eexists. split; [reflexivity|]. cbn.
  split_and!; [by eapply rc_close| | |done|done| |].
  - intros q u Hq. apply lookup_delete_Some in Hq as [_ Hq]. by apply S.
  - intros d Hd. rewrite lookup_delete_ne by set_solver. apply K. set_solver.
  - intros d Hd. rewrite <- C by set_solver. unfold held. cbn. by rewrite hsum_hide.
  - intros t. rewrite <- L. unfold loose. cbn. by rewrite free_refs, hsum_hide.
Qed.

Lemma delref_loop_ok rank fuel : del_ok rank fuel (delref_loop fuel).
Proof.
  induction fuel as [|fuel IH]; intros Y w roots p Hrc Hr (Hlt & HY & Hd); [lia|].
  destruct (rc_root _ _ _ _ Hrc HY) as [v Hp]. destruct (rc_live _ _ _ Hrc p v HY Hp) as [_ Hpos].
  rewrite (delref_loop_S _ _ _ _ Hp). cbv zeta. rewrite wrapS_small by lia.
  set (v' := Var (vref v - 1) (body v)).
  assert (body_sub (<[p := v']> (vars w)) (vars w)) as Hsub by (by eapply same_body_sub).
  destruct (vref v =? 1) eqn:E1; zbool.
  - destruct (rc_open _ _ _ _ v v' Hrc HY Hp E1 eq_refl) as (Hrc1 & Hz & Hns).
    set (w1 := set_vars <[p := v']> w).
    destruct (release_body_ok rank fuel (body v) ({[p]} ∪ Y) w1 roots IH) as (w2 & E2 & H2 & U2).
    { intros Hs. by apply Hns, (rc_single _ _ _ Hrc p v). }
    { done. }
    { by eapply ranked_sub. }
    { apply Forall_forall. intros q Hq. pose proof (Hr p v q Hp Hq). split; [lia|]. split.
      - rewrite elem_of_union, elem_of_singleton. intros [->|Hq2]; [lia|]. specialize (Hd q Hq2). lia.
      - intros d [->%elem_of_singleton|Hd2]%elem_of_union; [lia|]. specialize (Hd d Hd2). lia. }
    assert (refcount Y (vars w1) roots p = 0) as Hz1.
    { pose proof (refcount_mono Y (vars w) (vars w1) roots p Hsub).
      pose proof (refcount_nonneg Y (vars w1) roots p). lia. }
    step_with E2. destruct (free_var_ok Y w1 w2 p roots _ HY Hz1 H2)
      as (w3 & E3 & Hrc3 & Hs3 & Hk3 & Hv3 & Hn3 & Hc3 & Hl3).
    exists w3. split; [done|]. split; [split; [done|by transitivity (vars w1)| |done| |]|].
    + intros d Hd2. rewrite Hk3 by done. apply lookup_insert_ne. set_solver.
    + intros d Hd2. rewrite Hc3 by done. unfold held. cbn.
      rewrite (hsum_update _ _ _ _ _ _ Hp), decide_True by set_solver.
      rewrite (hsum_add _ Y _ _ _ Hp HY). assert (~ 0 < occ d (refs_in (body v))) as Hz2.
      { intros Ho%occ_pos_elem. pose proof (Hr p v d Hp Ho). specialize (Hd d Hd2). lia. }
      pose proof (occ_nonneg d (refs_in (body v))). lia.
    + intros t. rewrite Hl3. unfold loose. cbn. rewrite (hsum_update _ _ _ _ _ _ Hp), decide_True by set_solver.
      rewrite (hsum_add _ Y _ _ _ Hp HY). change (occ t []) with 0. lia.
    + intros q Hq. assert (q <> p) by (intros ->; apply (Hq p); constructor).
      rewrite Hv3, lookup_delete_ne, U2 by done || (intros c Hc Hrq; apply (Hq p); [by left|];
        eapply leads_step; [exact Hp|exact Hc|]; by eapply leads_sub).
      by apply lookup_insert_ne.
  - eexists. split; [reflexivity|]. split; [split; [by apply rc_drop|done| |done| |]|].
    + intros d Hd2. apply lookup_insert_ne. set_solver.
    + intros d Hd2. unfold held. cbn. rewrite (hsum_update _ _ _ _ _ _ Hp). cbn. case_decide; lia.
    + intros t. unfold loose. cbn. rewrite (hsum_update _ _ _ _ _ _ Hp). cbn. case_decide; change (occ t []) with 0; lia.
    + intros q Hq. apply lookup_insert_ne. intros ->. apply (Hq q); constructor.
Qed.

(** ** Well-formed worlds *)

#[export] Instance var_key_laws : key_laws no_memcmp (ph_ht_string_key_def (X := X) (D := D)).
Proof.
  split; cbn [key_compare_func ph_ht_string_key_def hash_func key_copy_func].
  - intros a. by apply StringKeys.string_compare_zero.
  - intros a b. rewrite !StringKeys.string_compare_zero. done.
  - intros a b c. rewrite !StringKeys.string_compare_zero. congruence.
  - intros a b. rewrite StringKeys.string_compare_zero. unfold StringKeys.string_hash. by intros ->.
  - intros a. by apply wrapU_bound.
  - intros f k x k' x' [= <-] [= <- _]. by apply StringKeys.string_compare_zero.
Qed.

(** The hash table of an object as the operations see it. *)
Abbreviation oht := (oval_ht (X := X) (D := D) ph_var_delref).

Definition oval_ok (o : oval_t) : Prop := wf no_memcmp ph_ht_string_key_def (oht o).

Definition body_ok (b : ph_variant_body D) : Prop :=
  match b with
  | PH_VAR_OBJECT o => oval_ok o
  | PH_VAR_ARRAY alloc arr => zlen arr <= alloc < 2 ^ 32
  | _ => True
  end.

Definition static_body (p : positive) : ph_variant_body D :=
  if decide (p = bool_true_variant) then PH_VAR_TRUE
  else if decide (p = bool_false_variant) then PH_VAR_FALSE else PH_VAR_NULL.

Record var_wf w (roots : list positive) : Prop := {
  vw_rc : rc ∅ (vars w) roots;
  vw_acyclic : acyclic (vars w);
  vw_fresh p v : vars w !! p = Some v -> (p < vnext w)%positive;
  vw_body p v : vars w !! p = Some v -> body_ok (body v);
  vw_static p v : is_static p -> vars w !! p = Some v -> body v = static_body p;
}.

Lemma var_wf_perm w l l' : l ≡ₚ l' -> var_wf w l -> var_wf w l'.
Proof. intros Hp []. split; try done. by rewrite <- Hp. Qed.

(** The state after a release, from the state before. *)
Lemma var_wf_sub w w' roots roots' :
  var_wf w roots -> rc ∅ (vars w') roots' -> body_sub (vars w') (vars w) -> vnext w' = vnext w ->
  var_wf w' roots'.
Proof.
  intros [Hrc [rank Hr] Hf Hb Hs] Hrc' Hsub Hn. split; [done| | | |].
  - exists rank. by eapply ranked_sub.
  - intros p v Hp. rewrite Hn. destruct (Hsub p v Hp) as (u & Hu & _). by apply (Hf p u).
  - intros p v Hp. destruct (Hsub p v Hp) as (u & Hu & <-). by apply (Hb p u).
  - intros p v Hst Hp. destruct (Hsub p v Hp) as (u & Hu & <-). by apply Hs.
Qed.

(** [ph_var_delref] outside of any other operation, or below the variants [Y]
    that are being changed. *)
Lemma var_delref_ok Y w roots rank p :
  rc Y (vars w) (p :: roots) -> ranked rank (vars w) -> (forall q, (rank q <= size (vars w))%nat) ->
  p ∉ Y -> (forall d, d ∈ Y -> (rank p < rank d)%nat) ->
  exists w', ph_var_delref p w = Ret (tt, w') /\ released Y w w' roots [] /\ untouched [p] w w'.
Proof.
  intros Hrc Hr Hb HY Hd. unfold ph_var_delref. apply (delref_loop_ok rank); [done|done|].
  split; [|done]. specialize (Hb p). lia.
Qed.

(** Releasing a reference. *)
Lemma release_ok w roots p :
  var_wf w (p :: roots) ->
  exists w', ph_var_delref p w = Ret (tt, w') /\ var_wf w' roots /\ body_sub (vars w') (vars w) /\
    (forall q, is_Some (vars w' !! q) <-> reachable (vars w) roots q) /\
    forall t, loose ∅ w' t = loose ∅ w t.
Proof.
  intros Hw. pose proof (vw_rc _ _ Hw) as Hrc.
  destruct (acyclic_bounded (vars w)) as (rank & Hr & Hb); [by intros; eapply rc_child|apply Hw|].
  destruct (var_delref_ok ∅ w roots rank p) as (w' & E & [Hrc' Hs Hk Hn _ Hl] & _); [done..|set_solver|set_solver|].
  assert (var_wf w' roots) as Hw' by (by eapply var_wf_sub).
  exists w'. split_and!; [done|done|done| |intros t; rewrite Hl; change (occ t []) with 0; lia].
  intros q. split.
  - intros Hq. eapply reachable_sub; [done|]. apply live_reachable; [done|apply Hw'|done].
  - induction 1 as [q Hq|q Hq|q v r _ [u Hu] Hq Hr2];
      [by eapply rc_root_live|by eapply rc_static_live|].
    destruct (Hs q u Hu) as (v2 & Hv2 & Hb2). eapply rc_child; [done|done|]. rewrite <- Hb2. by simplify_eq.
Qed.

Lemma release_next w roots p w' : var_wf w (p :: roots) -> ph_var_delref p w = Ret (tt, w') -> vnext w' = vnext w.
Proof.
  intros Hw E. destruct (acyclic_bounded (vars w)) as (rank & Hr & Hb); [intros; eapply rc_child; [apply Hw|done..]|apply Hw|].
  destruct (var_delref_ok ∅ w roots rank p) as (w2 & E2 & [_ _ _ Hn _ _] & _); [apply Hw|done|done|set_solver|set_solver|].
  rewrite E in E2. by injection E2 as <-.
Qed.

(** C25. Dropping a reference to a variant terminates, restores the exactness of all
    reference counts, frees exactly the variants that can no longer be reached,
    recursively through arrays and objects, and releases exactly the strings
    these held. *)
Theorem var_delref_spec w roots p :
  var_wf w (p :: roots) ->
  exists w', ph_var_delref p w = Ret (tt, w') /\ var_wf w' roots /\ body_sub (vars w') (vars w) /\
    (forall q, is_Some (vars w' !! q) <-> reachable (vars w) roots q) /\
    forall t, loose ∅ w' t = loose ∅ w t.
Proof. apply release_ok. Qed.

(** ** Checking a given world *)

Lemma occ_absent p l : p ∉ l -> occ p l = 0.
Proof. intros Hp. pose proof (occ_nonneg p l). destruct (decide (0 < occ p l)) as [Ho|]; [|lia]. by apply occ_pos_elem in Ho. Qed.

(** What is checked for the variant [v] at [p]. *)
Definition var_checked w roots p (v : ph_variant D) : Prop :=
  vref v = refcount ∅ (vars w) roots p /\ 0 < vref v < 2 ^ 31 /\ (p < vnext w)%positive /\
  Forall (fun q => (q < p)%positive /\ is_Some (vars w !! q)) (refs_in (body v)).

Lemma var_wf_checked w roots :
  map_Forall (var_checked w roots) (vars w) -> Forall (fun q => is_Some (vars w !! q)) roots ->
  (forall p v, vars w !! p = Some v -> body_ok (body v) /\ (is_singleton (body v) -> is_static p)) ->
  (forall p, is_static p -> exists v, vars w !! p = Some v /\ body v = static_body p) ->
  var_wf w roots.
Proof.
  intros Hc Hr Hb Hst.
  assert (forall p v q, vars w !! p = Some v -> q ∈ refs_in (body v) -> (q < p)%positive /\ is_Some (vars w !! q)) as Hin.
  { intros p v q Hv Hq. destruct (Hc p v Hv) as (_ & _ & _ & Hall). rewrite Forall_forall in Hall. by apply Hall. }
  split.
  - split.
    + intros p v _ Hv. by destruct (Hc p v Hv) as (H1 & H2 & _).
    + intros p _ Hp. unfold refcount, own. rewrite decide_False by (intros (v & Hv & _)%Hst; congruence).
      rewrite occ_absent.
      2:{ intros Hq. rewrite Forall_forall in Hr. destruct (Hr p Hq). congruence. }
      rewrite hsum_zero; [done|]. intros q v Hv. apply occ_absent. intros Hq.
      destruct (Hin q v p Hv Hq) as [_ []]. congruence.
    + intros p v Hv. by apply Hb.
  - exists Pos.to_nat. intros p v q Hv Hq. destruct (Hin p v q Hv Hq). lia.
  - intros p v Hv. by destruct (Hc p v Hv) as (_ & _ & H & _).
  - intros p v Hv. by destruct (Hb p v Hv).
  - intros p v Hp Hv. destruct (Hst p Hp) as (u & Hu & Hs). congruence.
Qed.
End delref.

(** ** An example *)

(** An allocator that never fails, and strings that are known by an encoding of
    their contents. *)
Definition demo_env : var_env (gmap positive Z) := {|
  mem_alloc _ x := (true, x);
  mem_realloc _ x := (true, x);
  mem_free x := x;
  contents_of p := default [] (decode p);
  string_addref s x := <[s := default 0 (x !! s) + 1]> x;
  string_delref s x := <[s := default 0 (x !! s) - 1]> x;
|}.
Definition demo_srefs (x : gmap positive Z) (t : positive) : Z := default 0 (x !! t).

Lemma demo_env_ok : var_env_ok demo_env demo_srefs.
Proof.
  split; try done; intros s x t; cbn; unfold demo_srefs; case_decide as Ht;
    (rewrite Ht, lookup_insert_eq || rewrite lookup_insert_ne by done); cbn; lia.
Qed.

(** "abc", and an object without members. *)
Definition demo_abc : positive := encode [97; 98; 99].
Definition demo_oval : oval_t := Oval 0 4 24 3 (replicate 4 ELEM_EMPTY).

(** The program holds 8 (an integer), 6 (an array of an integer, a string and
    true), 7 (an object) and 5 (the string). *)
Definition demo_vars : gmap positive (ph_variant Z) :=
  list_to_map [(1%positive, Var 2 PH_VAR_TRUE); (2%positive, Var 1 PH_VAR_FALSE); (3%positive, Var 1 PH_VAR_NULL);
    (4%positive, Var 1 (PH_VAR_INTEGER 7)); (5%positive, Var 2 (PH_VAR_STRING demo_abc));
    (6%positive, Var 1 (PH_VAR_ARRAY 8 [4; 5; 1]%positive)); (7%positive, Var 1 (PH_VAR_OBJECT demo_oval));
    (8%positive, Var 1 (PH_VAR_INTEGER 9))].
Definition demo_world : vworld (gmap positive Z) Z := VWorld demo_vars 9 {[ demo_abc := 1 ]}.

Lemma demo_oval_ok : oval_ok (env := demo_env) (X := gmap positive Z) (D := Z) demo_oval.
Proof. split; [done|by exists 2|done|by apply table_ok_empty|done]. Qed.

Lemma demo_vars_wf : var_wf (env := demo_env) demo_world [6; 8; 7; 5]%positive.
Proof.
  apply var_wf_checked.
  - apply (bool_decide_unpack _). by vm_compute.
  - apply (bool_decide_unpack _). by vm_compute.
  - intros p v Hv. unfold demo_world, demo_vars in Hv. cbn [vars] in Hv. apply elem_of_list_to_map_2 in Hv.
    repeat (apply elem_of_cons in Hv as [Hv|Hv]; [injection Hv as -> ->; split; [|by unfold is_singleton, is_static; naive_solver]|]).
    all: try done; try (by apply not_elem_of_nil in Hv). apply demo_oval_ok.
  - intros p [->|[->| ->]]; by eexists.
Qed.

Lemma var_delref_spec_witness :
  exists w', ph_var_delref (env := demo_env) 6 demo_world = Ret (tt, w') /\ var_wf (env := demo_env) w' [8; 7; 5]%positive /\
    body_sub (vars w') demo_vars /\
    (forall q, is_Some (vars w' !! q) <-> reachable demo_vars [8; 7; 5]%positive q) /\
    forall t, loose demo_srefs ∅ w' t = loose demo_srefs ∅ demo_world t.
Proof.
  pose proof demo_env_ok. exact (var_delref_spec (env := demo_env) demo_srefs demo_world [8; 7; 5]%positive 6%positive demo_vars_wf).
Defined.

End VariantProofs.
