(* ===== verification/VariantOps.v ===== *)
(** * What the operations on variants do to the values

    A variant denotes a tree.  Creating a variant adds a root; appending to an
    array or setting a key of an object moves a root into the container, and
    releases what it replaces; all other values stay as they are. *)

From Stdlib Require Import ZArith Lia.
From stdpp Require Import base numbers list gmap.
From S2P Require Import Prelude SysUtil PhString PhStringUtf8 HashTable HashTableProofs StringKeys Variant VariantProofs.

Module VariantOps.
Export VariantProofs.
Import HashTable HashTableProofs.

Section graph.
Context {D : Type}.
Implicit Types h : gmap positive (ph_variant D).

(** ** Taking a variant out of the count, and back with another body *)

Lemma rc_hide h roots a v :
  rc ∅ h roots -> h !! a = Some v ->
  rc {[a]} h (refs_in (body v) ++ roots) /\ 0 < vref v < 2 ^ 31 /\
  vref v = own a + occ a roots + occ a (refs_in (body v)) + hsum (fun b => occ a (refs_in b)) {[a]} h.
Proof.
  intros Hrc Ha. assert (forall q, refcount {[a]} h (refs_in (body v) ++ roots) q = refcount ∅ h roots q) as Hq.
  { intros q. unfold refcount. rewrite (hsum_add _ ∅ h a v Ha), occ_app, (right_id_L ∅ (∪)) by set_solver. lia. }
  destruct (rc_live _ _ _ Hrc a v ltac:(set_solver) Ha) as [Hv Hp]. split_and!; [|lia|lia|].
  - split.
    + intros p u Hp1 Hu. rewrite Hq. apply (rc_live _ _ _ Hrc); set_solver.
    + intros p Hp1 Hu. rewrite Hq. apply (rc_dead _ _ _ Hrc); set_solver.
    + apply Hrc.
  - rewrite Hv, <- Hq. unfold refcount. rewrite occ_app. lia.
Qed.

Lemma rc_show h roots a v b :
  rc {[a]} h (refs_in b ++ roots) -> h !! a = Some v -> 0 < vref v < 2 ^ 31 -> (is_singleton b -> is_static a) ->
  vref v = own a + occ a roots + occ a (refs_in b) + hsum (fun b => occ a (refs_in b)) {[a]} h ->
  rc ∅ (<[a := Var (vref v) b]> h) roots.
Proof.
  intros Hrc Ha Hpos Hst Hv.
  assert (forall q, refcount ∅ (<[a := Var (vref v) b]> h) roots q = refcount {[a]} h (refs_in b ++ roots) q) as Hq.
  { intros q. unfold refcount. rewrite <- insert_delete_eq, hsum_insert by apply lookup_delete_eq.
    rewrite decide_False by set_solver. rewrite <- (right_id_L ∅ (∪) {[a]}), hsum_hide, occ_app. cbn. lia. }
  split.
  - intros p u _ Hu. rewrite Hq. destruct (decide (p = a)) as [->|Hne].
    + rewrite lookup_insert_eq in Hu. injection Hu as <-. cbn. split; [|lia].
      unfold refcount. rewrite occ_app. lia.
    + rewrite lookup_insert_ne in Hu by done. apply (rc_live _ _ _ Hrc); set_solver.
  - intros p _ Hu. rewrite Hq. destruct (decide (p = a)) as [->|Hne]; [by rewrite lookup_insert_eq in Hu|].
    rewrite lookup_insert_ne in Hu by done. apply (rc_dead _ _ _ Hrc); set_solver.
  - intros p u Hu Hs. destruct (decide (p = a)) as [->|Hne].
    + rewrite lookup_insert_eq in Hu. injection Hu as <-. by apply Hst.
    + rewrite lookup_insert_ne in Hu by done. by apply (rc_single _ _ _ Hrc p u).
Qed.

(** ** Reachability between variants *)

(** The search for [a] below [p], as deep as [n]. *)
Fixpoint search h (a : positive) (n : nat) (p : positive) : bool :=
  bool_decide (p = a) ||
  match n, h !! p with
  | S n, Some v => existsb (search h a n) (refs_in (body v))
  | _, _ => false
  end.

Lemma search_sound h a n p : search h a n p = true -> leads h p a.
Proof.
  revert p. induction n as [|n IH]; intros p; cbn [search]; rewrite orb_true_iff, bool_decide_eq_true;
    (intros [->|H]; [constructor|]); [done|].
  destruct (h !! p) as [v|] eqn:E; [|done]. apply existsb_exists in H as (q & Hq & Hs).
  apply list_elem_of_In in Hq. eapply leads_step; eauto.
Qed.

Lemma search_mono h a n m p : (n <= m)%nat -> search h a n p = true -> search h a m p = true.
Proof.
  revert m p. induction n as [|n IH]; intros m p Hle; destruct m as [|m]; cbn [search]; rewrite ?orb_true_iff;
    try lia; (intros [H|H]; [by left|]); [done|done|]. right.
  destruct (h !! p) as [v|] eqn:E; [|done]. apply existsb_exists in H as (q & Hq & Hs).
  apply existsb_exists. exists q. split; [done|]. apply IH; [lia|done].
Qed.

(** Giving [a] a new body keeps the variants acyclic unless a new member leads
    back to [a]. *)
Lemma acyclic_edit h a v r b :
  acyclic h -> h !! a = Some v ->
  (forall q, q ∈ refs_in b -> q ∈ refs_in (body v) \/ ~ leads h q a) ->
  acyclic (<[a := Var r b]> h).
Proof.
  intros [rank Hr] Ha Hnew. set (up q := search h a (rank q) q).
  set (K := S (sum_list (rank <$> refs_in b))).
  exists (fun q => (rank q + if up q then K else 0)%nat).
  assert (forall q, q ∈ refs_in b -> (rank q < K)%nat) as HK.
  { intros q Hq. apply elem_of_Permutation in Hq as [l Hl]. unfold K. rewrite Hl. cbn. lia. }
  assert (up a = true) as Hupa.
  { unfold up. destruct (rank a); cbn [search]; by rewrite bool_decide_true. }
  assert (forall p u q, h !! p = Some u -> q ∈ refs_in (body u) -> up q = true -> up p = true) as Hup.
  { intros p u q Hp Hq Hs. unfold up in *. pose proof (Hr p u q Hp Hq).
    destruct (rank p) as [|n] eqn:E; [lia|]. cbn [search]. rewrite Hp. apply orb_true_iff. right.
    apply existsb_exists. exists q. split; [by apply list_elem_of_In|].
    apply (search_mono h a (rank q)); [lia|done]. }
  intros p u q Hp Hq. destruct (decide (p = a)) as [->|Hne].
  - rewrite lookup_insert_eq in Hp. injection Hp as <-. cbn in Hq. rewrite Hupa.
    destruct (Hnew q Hq) as [Hold|Hno].
    + pose proof (Hr a v q Ha Hold). destruct (up q); lia.
    + destruct (up q) eqn:E; [by apply search_sound in E|]. specialize (HK q Hq). lia.
  - rewrite lookup_insert_ne in Hp by done. pose proof (Hr p u q Hp Hq).
    destruct (up q) eqn:E; [rewrite (Hup p u q) by done; lia|destruct (up p); lia].
Qed.

(** ** Values *)

Inductive tree :=
  | TNull
  | TBool (b : bool)
  | TInt (z : Z)
  | TReal (d : D)
  | TStr (s : list Z)
  | TArr (l : list tree)
  | TObj (kvs : list (list Z * tree)).

Lemma tree_rect' (P : tree -> Prop) :
  P TNull -> (forall b, P (TBool b)) -> (forall z, P (TInt z)) -> (forall d, P (TReal d)) ->
  (forall s, P (TStr s)) -> (forall l, Forall P l -> P (TArr l)) ->
  (forall kvs, Forall (fun kv => P kv.2) kvs -> P (TObj kvs)) -> forall t, P t.
Proof.
  intros H1 H2 H3 H4 H5 H6 H7. fix IH 1. intros [|b|z|d|s|l|kvs];
    [exact H1|apply H2|apply H3|apply H4|apply H5|apply H6|apply H7].
  - induction l as [|t l IHl]; constructor; [apply IH|exact IHl].
  - induction kvs as [|[k t] l IHl]; constructor; [apply IH|exact IHl].
Qed.

Context (contents : positive -> list Z).

(** The variant at [p] is the tree [t]; the members of an object in the order
    of its table. *)
Fixpoint denotes h (t : tree) (p : positive) : Prop :=
  exists v, h !! p = Some v /\
  match t, body v with
  | TNull, PH_VAR_NULL => True
  | TBool true, PH_VAR_TRUE => True
  | TBool false, PH_VAR_FALSE => True
  | TInt z, PH_VAR_INTEGER z' => z' = z
  | TReal d, PH_VAR_REAL d' => d' = d
  | TStr s, PH_VAR_STRING p => contents p = s
  | TArr ts, PH_VAR_ARRAY _ arr =>
      (fix all (ts : list tree) (ps : list positive) : Prop :=
         match ts, ps with
         | [], [] => True
         | t :: ts, p :: ps => denotes h t p /\ all ts ps
         | _, _ => False
         end) ts arr
  | TObj kvs, PH_VAR_OBJECT o =>
      (fix all (kvs : list (list Z * tree)) (es : list (positive * positive)) : Prop :=
         match kvs, es with
         | [], [] => True
         | (k, t) :: kvs, (s, p) :: es => contents s = k /\ denotes h t p /\ all kvs es
         | _, _ => False
         end) kvs (entries (o_table o))
  | _, _ => False
  end.

Definition member h (kt : list Z * tree) (e : positive * positive) : Prop :=
  contents e.1 = kt.1 /\ denotes h kt.2 e.2.

Lemma denotes_arr h ts p :
  denotes h (TArr ts) p <->
  exists v al arr, h !! p = Some v /\ body v = PH_VAR_ARRAY al arr /\ Forall2 (denotes h) ts arr.
Proof.
  cbn [denotes]. split.
  - intros (v & Hp & Hb). destruct (body v) as [|al arr| | | | | |] eqn:E; try done.
    exists v, al, arr. split; [done|]. split; [done|]. clear Hp E. revert arr Hb.
    induction ts as [|t ts IH]; intros [|q arr]; try done. intros [H1 H2]. constructor; auto.
  - intros (v & al & arr & Hp & Hb & Hall). exists v. split; [done|]. rewrite Hb.
    clear Hb Hp. induction Hall; auto.
Qed.

Lemma denotes_obj h kvs p :
  denotes h (TObj kvs) p <->
  exists v o, h !! p = Some v /\ body v = PH_VAR_OBJECT o /\ Forall2 (member h) kvs (entries (o_table o)).
Proof.
  cbn [denotes]. split.
  - intros (v & Hp & Hb). destruct (body v) as [o| | | | | | |] eqn:E; try done.
    exists v, o. split; [done|]. split; [done|]. clear Hp E. revert Hb. generalize (entries (o_table o)) as es.
    induction kvs as [|[k t] kvs IH]; intros [|[s q] es]; try done. intros (H1 & H2 & H3). constructor; auto.
    done.
  - intros (v & o & Hp & Hb & Hall). exists v. split; [done|]. rewrite Hb.
    clear Hb Hp. induction Hall as [|[k t] [s q] kvs es [H1 H2] Hall IH]; auto.
Qed.

(** A set of variants that contains what its members hold. *)
Definition closed h (S : positive -> Prop) : Prop :=
  forall p v q, S p -> h !! p = Some v -> q ∈ refs_in (body v) -> S q.

(** The value of a variant depends on the variants below it only. *)
Lemma denotes_frame h h' S t p :
  closed h S ->
  (forall q v, S q -> h !! q = Some v -> exists v', h' !! q = Some v' /\ body v' = body v) ->
  S p -> denotes h t p -> denotes h' t p.
Proof.
  intros Hcl Hb. revert p. induction t as [|b|z|d|s|l IH|kvs IH] using tree_rect'; intros p Hp.
  6:{ rewrite !denotes_arr. intros (v & al & arr & Hv & Hbv & Hall).
      destruct (Hb p v Hp Hv) as (v' & Hv' & Hb'). exists v', al, arr. split; [done|].
      split; [by rewrite Hb'|].
      assert (Forall S arr) as HS.
      { apply Forall_forall. intros q Hq. eapply Hcl; [done..|]. by rewrite Hbv. }
      clear Hbv Hb' Hv Hv'. induction Hall; constructor; decompose_Forall_hyps; auto. }
  6:{ rewrite !denotes_obj. intros (v & o & Hv & Hbv & Hall).
      destruct (Hb p v Hp Hv) as (v' & Hv' & Hb'). exists v', o. split; [done|].
      split; [by rewrite Hb'|].
      assert (Forall S (snd <$> entries (o_table o))) as HS.
      { apply Forall_forall. intros q Hq. eapply Hcl; [done..|]. by rewrite Hbv. }
      clear Hbv Hb' Hv Hv'. revert HS. induction Hall as [|kt e kvs es [H1 H2] Hall IHall]; [done|].
      rewrite fmap_cons. intros HS. apply Forall_cons in HS as [Hs1 HS]. apply Forall_cons in IH as [IH1 IH].
      constructor; [|by apply IHall]. split; [done|]. by apply IH1. }
  all: intros (v & Hv & Hbv); destruct (Hb p v Hp Hv) as (v' & Hv' & Hb'); exists v'; split; [done|];
    by rewrite Hb'.
Qed.
End graph.
Arguments tree : clear implicits.

Section wf.
Context {X : Type} {env : var_env X} {D : Type}.
Implicit Types w : vworld X D.

Lemma var_wf_ext w x roots : var_wf w roots -> var_wf (set_ext x w) roots.
Proof. intros []. by split. Qed.

Lemma not_static w roots p v :
  var_wf w roots -> vars w !! p = Some v -> ~ is_singleton (body v) -> ~ is_static p.
Proof.
  intros Hw Hp Hs Hst. apply Hs. rewrite (vw_static _ _ Hw p v Hst Hp). unfold static_body, is_singleton.
  repeat case_decide; auto.
Qed.

(** Replacing the body of [a], with references moved between it and the roots. *)
Lemma var_wf_edit w roots roots' a v b x :
  var_wf w roots -> vars w !! a = Some v -> ~ is_singleton (body v) -> ~ is_singleton b -> body_ok b ->
  refs_in b ++ roots' ≡ₚ refs_in (body v) ++ roots ->
  (forall q, q ∈ refs_in b -> q ∈ refs_in (body v) \/ ~ leads (vars w) q a) ->
  var_wf (VWorld (<[a := Var (vref v) b]> (vars w)) (vnext w) x) roots'.
Proof.
  intros Hw Ha Hs1 Hs2 Hok Hp Hlead. pose proof (not_static _ _ _ _ Hw Ha Hs1) as Hst.
  destruct (rc_hide _ _ _ _ (vw_rc _ _ Hw) Ha) as (Hrc & Hpos & Hv). split; cbn.
  - apply rc_show; [by rewrite Hp|done|done|done|].
    pose proof (occ_perm a _ _ Hp) as Ho. rewrite !occ_app in Ho. lia.
  - eapply acyclic_edit; [apply Hw|done|done].
  - intros p u Hu. destruct (decide (p = a)) as [->|Hne]; [by apply (vw_fresh _ _ Hw a v)|].
    rewrite lookup_insert_ne in Hu by done. by apply (vw_fresh _ _ Hw p u).
  - intros p u Hu. destruct (decide (p = a)) as [->|Hne].
    + rewrite lookup_insert_eq in Hu. by injection Hu as <-.
    + rewrite lookup_insert_ne in Hu by done. by apply (vw_body _ _ Hw p u).
  - intros p u Hsp Hu. destruct (decide (p = a)) as [->|Hne]; [done|].
    rewrite lookup_insert_ne in Hu by done. by apply (vw_static _ _ Hw).
Qed.

Lemma fresh_none w roots : var_wf w roots -> vars w !! vnext w = None.
Proof.
  intros Hw. destruct (vars w !! vnext w) as [v|] eqn:E; [|done].
  pose proof (vw_fresh _ _ Hw _ _ E). lia.
Qed.

Lemma fresh_not_static w roots p : var_wf w roots -> (vnext w <= p)%positive -> ~ is_static p.
Proof.
  intros Hw Hle Hst. destruct (rc_static_live _ _ _ (vw_rc _ _ Hw) Hst) as [v Hv].
  pose proof (vw_fresh _ _ Hw _ _ Hv). lia.
Qed.

(** A new variant that holds no others. *)
Lemma var_wf_new w roots b x :
  var_wf w roots -> refs_in b = [] -> ~ is_singleton b -> body_ok b ->
  var_wf (VWorld (<[vnext w := Var 1 b]> (vars w)) (Pos.succ (vnext w)) x) (vnext w :: roots).
Proof.
  intros Hw Hb Hs Hok. pose proof (fresh_none _ _ Hw) as Hn. pose proof (vw_rc _ _ Hw) as Hrc.
  pose proof (fresh_not_static _ _ _ Hw (Pos.le_refl _)) as Hst.
  assert (forall q, refcount ∅ (<[vnext w := Var 1 b]> (vars w)) (vnext w :: roots) q =
    (if decide (vnext w = q) then 1 else 0) + refcount ∅ (vars w) roots q) as Hq.
  { intros q. rewrite refcount_root. unfold refcount. rewrite hsum_insert, (decide_False (P := vnext w ∈ (∅ : gset positive))) by (done || set_solver).
    cbn. rewrite Hb. change (occ q []) with 0. lia. }
  split; cbn.
  - split.
    + intros p u _ Hu. rewrite Hq. destruct (decide (vnext w = p)) as [<-|Hne].
      * rewrite lookup_insert_eq in Hu. injection Hu as <-. cbn.
        rewrite (rc_dead _ _ _ Hrc) by (done || set_solver). lia.
      * rewrite lookup_insert_ne in Hu by done. rewrite Z.add_0_l. apply (rc_live _ _ _ Hrc); set_solver.
    + intros p _ Hu. rewrite Hq. destruct (decide (vnext w = p)) as [<-|Hne]; [by rewrite lookup_insert_eq in Hu|].
      rewrite lookup_insert_ne in Hu by done. apply (rc_dead _ _ _ Hrc); set_solver.
    + intros p u Hu Hsb. destruct (decide (vnext w = p)) as [<-|Hne].
      * rewrite lookup_insert_eq in Hu. by injection Hu as <-.
      * rewrite lookup_insert_ne in Hu by done. by apply (rc_single _ _ _ Hrc p u).
  - destruct (vw_acyclic _ _ Hw) as [rank Hr]. exists rank. intros p u q Hu Hq2.
    destruct (decide (vnext w = p)) as [<-|Hne].
    + rewrite lookup_insert_eq in Hu. injection Hu as <-. cbn in Hq2. rewrite Hb in Hq2.
      by apply not_elem_of_nil in Hq2.
    + rewrite lookup_insert_ne in Hu by done. by apply (Hr p u).
  - intros p u Hu. destruct (decide (vnext w = p)) as [<-|Hne]; [lia|].
    rewrite lookup_insert_ne in Hu by done. pose proof (vw_fresh _ _ Hw p u Hu). lia.
  - intros p u Hu. destruct (decide (vnext w = p)) as [<-|Hne].
    + rewrite lookup_insert_eq in Hu. by injection Hu as <-.
    + rewrite lookup_insert_ne in Hu by done. by apply (vw_body _ _ Hw p u).
  - intros p u Hsp Hu. destruct (decide (vnext w = p)) as [<-|Hne]; [done|].
    rewrite lookup_insert_ne in Hu by done. by apply (vw_static _ _ Hw).
Qed.

(** Another reference to [p]. *)
Lemma var_wf_addref w roots p v :
  var_wf w roots -> vars w !! p = Some v -> vref v + 1 < 2 ^ 31 ->
  var_wf (set_vars <[p := Var (vref v + 1) (body v)]> w) (p :: roots).
Proof.
  intros Hw Hp Hlt. pose proof (vw_rc _ _ Hw) as Hrc.
  assert (body_sub (<[p := Var (vref v + 1) (body v)]> (vars w)) (vars w)) as Hsub by (by eapply same_body_sub).
  apply (var_wf_sub w _ roots); [done| |done|done]. cbn.
  assert (forall q, refcount ∅ (<[p := Var (vref v + 1) (body v)]> (vars w)) (p :: roots) q =
    (if decide (p = q) then 1 else 0) + refcount ∅ (vars w) roots q) as Hq.
  { intros q. rewrite refcount_root. unfold refcount. rewrite (hsum_update _ _ _ _ _ _ Hp). cbn. repeat case_decide; lia. }
  destruct (rc_live _ _ _ Hrc p v ltac:(set_solver) Hp) as [Hv ?]. split.
  - intros q u _ Hu. rewrite Hq. destruct (decide (p = q)) as [<-|Hne].
    + rewrite lookup_insert_eq in Hu. injection Hu as <-. cbn. lia.
    + rewrite lookup_insert_ne in Hu by done. rewrite Z.add_0_l. apply (rc_live _ _ _ Hrc); set_solver.
  - intros q _ Hu. rewrite Hq. destruct (decide (p = q)) as [<-|Hne]; [by rewrite lookup_insert_eq in Hu|].
    rewrite lookup_insert_ne in Hu by done. apply (rc_dead _ _ _ Hrc); set_solver.
  - intros q u Hu Hs. destruct (Hsub q u Hu) as (u' & Hu' & Hb). rewrite <- Hb in Hs. by apply (rc_single _ _ _ Hrc q u').
Qed.
End wf.

Section ops.
Context {X : Type} {env : var_env X} {D : Type}.
Context (srefs : X -> positive -> Z) `{Henv : !var_env_ok env srefs}.
Implicit Types w : vworld X D.

(** The references to strings are the same. *)
Definition same_strs w w' : Prop := forall t, srefs (ext w') t = srefs (ext w) t.

Lemma new_var_ok w roots b :
  var_wf w roots -> refs_in b = [] -> ~ is_singleton b -> body_ok b ->
  exists r w', new_var b w = Ret (r, w') /\ same_strs w w' /\
    match r with
    | None => w' = set_ext (ext w') w /\ (mem_alloc sizeof_variant (ext w)).1 = false
    | Some p => p = vnext w /\ vars w !! p = None /\ vars w' = <[p := Var 1 b]> (vars w) /\
                vnext w' = Pos.succ (vnext w) /\ var_wf w' (p :: roots)
    end.
Proof.
  intros Hw Hb Hs Hok. unfold new_var, bind, on_ext. pose proof (alloc_refs sizeof_variant (ext w)) as Hx.
  destruct (mem_alloc sizeof_variant (ext w)) as [[|] x]; cbn in *.
  - do 2 eexists. split; [done|]. split; [done|]. cbn. split; [done|]. split; [by eapply fresh_none|].
    split; [done|]. split; [done|]. by apply var_wf_new.
  - do 2 eexists. split; [done|]. by split.
Qed.

(** Releasing the member [c] of [a], which then gets the body [b]. *)
Lemma release_member w roots a v c rest :
  var_wf w roots -> vars w !! a = Some v -> refs_in (body v) ≡ₚ c :: rest ->
  exists w1, ph_var_delref c w = Ret (tt, w1) /\ released srefs {[a]} w w1 (rest ++ roots) [] /\
    untouched [c] w w1 /\ vars w1 !! a = Some v /\
    forall b roots' x, refs_in b ++ roots' ≡ₚ rest ++ roots -> ~ is_singleton b -> body_ok b ->
      (forall q, q ∈ refs_in b -> q ∈ refs_in (body v) \/ ~ leads (vars w) q a) ->
      var_wf (VWorld (<[a := Var (vref v) b]> (vars w1)) (vnext w1) x) roots'.
Proof.
  intros Hw Ha Hm. pose proof (vw_rc _ _ Hw) as Hrc.
  destruct (rc_hide _ _ _ _ Hrc Ha) as (Hrc1 & Hpos & Hv).
  destruct (acyclic_bounded (vars w)) as (rank & Hr & Hb); [by intros; eapply rc_child|apply Hw|].
  assert (rank c < rank a)%nat as Hca by (apply (Hr a v); [done|rewrite Hm; left]).
  rewrite Hm in Hrc1. destruct (var_delref_ok srefs {[a]} w (rest ++ roots) rank c) as (w1 & E & Hrel & Hun);
    [done|done|done| | |].
  { intros ->%elem_of_singleton. lia. }
  { by intros d ->%elem_of_singleton. }
  assert (~ is_singleton (body v)) as Hsv.
  { intros [Hs|[Hs|Hs]]; rewrite Hs in Hm; by apply Permutation_nil_cons in Hm. }
  assert (vars w1 !! a = Some v) as Ha1 by (rewrite (rel_keep _ _ _ _ _ _ Hrel); set_solver).
  exists w1. split_and!; [done|done|done|done|]. intros b roots' x Hp Hs Hok Hl.
  pose proof (not_static _ _ _ _ Hw Ha Hsv) as Hst.
  pose proof (rel_sub _ _ _ _ _ _ Hrel) as Hsub.
  assert (forall p u, vars w1 !! p = Some u -> p <> a -> (p < vnext w1)%positive /\ body_ok (body u) /\
    (is_static p -> body u = static_body p)) as Hrest.
  { intros p u Hu _. destruct (Hsub p u Hu) as (u0 & Hu0 & Hb0). rewrite <- Hb0, (rel_next _ _ _ _ _ _ Hrel).
    split_and!; [by apply (vw_fresh _ _ Hw p u0)|by apply (vw_body _ _ Hw p u0)|].
    intros Hsp. by apply (vw_static _ _ Hw). }
  split; cbn.
  - apply rc_show; [rewrite Hp; apply Hrel|done|done|done|].
    pose proof (rel_count _ _ _ _ _ _ Hrel a ltac:(set_solver)) as Hc. unfold held in Hc. rewrite Hc.
    pose proof (occ_perm a _ _ Hp) as Ho. rewrite !occ_app in Ho.
    pose proof (occ_perm a _ _ Hm) as Hm2. rewrite occ_cons, decide_False in Hm2 by (intros ->; lia). lia.
  - eapply acyclic_edit; [exists rank; by eapply ranked_sub|done|].
    intros q Hq. destruct (Hl q Hq) as [H|H]; [by left|]. right. intros H2. apply H. by eapply leads_sub.
  - intros p u Hu. destruct (decide (p = a)) as [->|Hne].
    + rewrite (rel_next _ _ _ _ _ _ Hrel). by apply (vw_fresh _ _ Hw a v).
    + rewrite lookup_insert_ne in Hu by done. by apply (Hrest p u).
  - intros p u Hu. destruct (decide (p = a)) as [->|Hne].
    + rewrite lookup_insert_eq in Hu. by injection Hu as <-.
    + rewrite lookup_insert_ne in Hu by done. by apply (Hrest p u).
  - intros p u Hsp Hu. destruct (decide (p = a)) as [->|Hne]; [done|].
    rewrite lookup_insert_ne in Hu by done. by apply (Hrest p u).
Qed.

Lemma load_eq w p v : vars w !! p = Some v -> load (X := X) p w = Ret (v, w).
Proof. intros Hp. unfold load. by rewrite Hp. Qed.

(** The end of an append, in a block of [al'] slots. *)
Lemma array_push_ok w x roots arr val v al l al' :
  var_wf w (val :: roots) -> vars w !! arr = Some v -> body v = PH_VAR_ARRAY al l ->
  ~ leads (vars w) val arr -> zlen l < al' < 2 ^ 32 ->
  exists w', array_push arr (vref v) al' l val (set_ext x w) = Ret (PH_OK, w') /\
    vars w' = <[arr := Var (vref v) (PH_VAR_ARRAY al' (l ++ [val]))]> (vars w) /\
    vnext w' = vnext w /\ ext w' = x /\ var_wf w' roots.
Proof.
  intros Hw Ha Hb Hl Hal. unfold array_push. destruct (zlen l <? al') eqn:E; zbool; [|lia]. step.
  eexists. split; [done|]. split_and!; [done|done|done|].
  apply (var_wf_edit w (val :: roots)); [done|done|rewrite Hb; unfold is_singleton; naive_solver|
    unfold is_singleton; naive_solver| | |].
  - cbn. rewrite length_app. cbn. lia.
  - cbn. rewrite Hb. cbn. by rewrite <- app_assoc.
  - cbn. rewrite Hb. cbn. intros q [Hq| ->%list_elem_of_singleton]%elem_of_app; auto.
Qed.

(** The slots of an array after an append. *)
Definition slots (al n : Z) : Z := if al <=? n + 1 then ph_power_2 (al * 2) else al.

Lemma slots_bound al n : 0 <= n <= al -> al < 2 ^ 30 -> n < slots al n < 2 ^ 32 /\ slots al n <= Z.max al (4 * (n + 1)).
Proof.
  intros Hn Hal. unfold slots. destruct (al <=? n + 1) eqn:E; zbool; [|lia].
  destruct (ph_power_2_above (al * 2)) as [Hp _]; [lia|]. lia.
Qed.

(** Appending to an array. *)
Lemma array_append_ok w roots arr val v al l :
  var_wf w (val :: roots) -> vars w !! arr = Some v -> body v = PH_VAR_ARRAY al l ->
  ~ leads (vars w) val arr -> al < 2 ^ 30 ->
  exists r w', ph_var_array_append_claim arr val w = Ret (r, w') /\ vnext w' = vnext w /\ same_strs w w' /\
    if decide (r = PH_OK) then
      vars w' = <[arr := Var (vref v) (PH_VAR_ARRAY (slots al (zlen l)) (l ++ [val]))]> (vars w) /\
      var_wf w' roots
    else r = PH_NOMEM /\ vars w' = vars w /\ exists n, (mem_realloc n (ext w)).1 = false.
Proof.
  intros Hw Ha Hb Hl Hal. pose proof (vw_body _ _ Hw arr v Ha) as Hok. rewrite Hb in Hok. cbn in Hok.
  unfold ph_var_array_append_claim. step_with (load_eq w arr v Ha). rewrite Hb, (wrapU_small 32) by lia.
  pose proof (slots_bound al (zlen l) ltac:(lia) Hal) as Hsl. unfold slots in *.
  destruct (al <=? zlen l + 1) eqn:E; zbool.
  - rewrite (wrapU_small 32) by lia. unfold bind at 1, on_ext.
    pose proof (realloc_refs (u64 (ph_power_2 (al * 2) * sizeof_ptr)) (ext w)) as Hx.
    destruct (mem_realloc _ (ext w)) as [[|] x] eqn:Er; cbn in Hx.
    + destruct (array_push_ok w x roots arr val v al l (ph_power_2 (al * 2))) as (w' & -> & E1 & E2 & E3 & E4);
        [done..|lia|]. exists PH_OK, w'. rewrite decide_True by done. split_and!; [done|done| |done|done].
      intros t. by rewrite E3.
    + exists PH_NOMEM, (set_ext x w). rewrite decide_False by done. split_and!; try done. eexists. by rewrite Er.
  - destruct (array_push_ok w (ext w) roots arr val v al l al) as (w' & E0 & E1 & E2 & E3 & E4); [done..|lia|].
    exists PH_OK, w'. rewrite decide_True by done. split_and!; [by destruct w|done| |done|done].
    intros t. by rewrite E3.
Qed.

(** ** Objects *)

Abbreviation oht := (oval_ht (X := X) (D := D) ph_var_delref).
Abbreviation kd := (ph_ht_string_key_def (X := X) (D := D)).

Lemma oht_oval (ht : ph_ht_t positive positive (outcome (vworld X D))) :
  kdef ht = kd -> vdef ht = var_val_def ph_var_delref -> oht (ht_oval ht) = ht.
Proof. destruct ht; cbn. by intros -> ->. Qed.

Definition obj_body (ht : ph_ht_t positive positive (outcome (vworld X D))) : ph_variant_body D :=
  PH_VAR_OBJECT (ht_oval ht).

(** The allocations of the table change the environment only. *)
Lemma after_alloc_ext w s :
  after_alloc alloc_w free_w (Ret w) s -> exists x, s = Ret (set_ext x w) /\ forall t, srefs x t = srefs (ext w) t.
Proof.
  intros [->|(n & H)]; [exists (ext w); by destruct w|].
  unfold alloc_w in H. pose proof (alloc_refs n (ext w)) as Hn. destruct (mem_alloc n (ext w)) as [ok x]; cbn in *.
  destruct H as [->| ->]; [by exists x|]. exists (mem_free x). split; [done|]. intros t. by rewrite free_refs.
Qed.

Lemma store_oval_eq w obj v ht :
  vars w !! obj = Some v -> store_oval obj ht w = Ret (tt, set_vars <[obj := Var (vref v) (obj_body ht)]> w).
Proof. intros Hv. unfold store_oval. by step_with (load_eq w obj v Hv). Qed.

Lemma keq_contents a b :
  keq no_memcmp kd a b = bool_decide (contents_of a = contents_of b).
Proof.
  apply eq_true_iff_eq. rewrite bool_decide_eq_true, <- StringKeys.string_compare_zero. apply Z.eqb_eq.
Qed.

(** Object [o'] is [o] with [val] under [key]; [c] is the variant that was
    there before. *)
Definition object_put (o o' : oval_t) (key val : positive) (c : option positive) : Prop :=
  match c with
  | None => entries (o_table o') ≡ₚ (key, val) :: entries (o_table o) /\
      forall e, e ∈ entries (o_table o) -> contents_of e.1 <> contents_of key
  | Some c => exists k es1 es2, contents_of k = contents_of key /\
      entries (o_table o) = es1 ++ (k, c) :: es2 /\ entries (o_table o') = es1 ++ (k, val) :: es2
  end.

(** A table without deletions stays in proportion to its entries, from [c]
    slots on. *)
Definition compact (c : Z) (o : oval_t) : Prop :=
  no_tomb (o_table o) /\ o_size o <= Z.max c (4 * o_nelems o).

(** The second part of setting a key: a free slot. *)
Lemma set_free w x roots obj key val v o ht1 i :
  var_wf w (val :: roots) -> vars w !! obj = Some v -> body v = PH_VAR_OBJECT o ->
  ~ leads (vars w) val obj -> (forall t, srefs x t = srefs (ext w) t) ->
  wf no_memcmp kd ht1 -> same_entries (oht o) ht1 ->
  is_taken (elem_at ht1 i) = false -> slot_for no_memcmp kd ht1 key i ->
  exists ht' w', insert_at ht1 i key val (Z.lor PH_HT_REPLACE PH_HT_CLAIM) (Ret (set_ext x w)) =
      (PH_OK, ht', Ret (set_ext x w)) /\
    store_oval obj ht' (set_ext x w) = Ret (tt, w') /\ var_wf w' roots /\
    vars w' = <[obj := Var (vref v) (obj_body ht')]> (vars w) /\ vnext w' = vnext w /\ ext w' = x /\
    object_put o (ht_oval ht') key val None /\
    (no_tomb (table ht1) -> no_tomb (table ht')) /\ table_size ht' = table_size ht1 /\ nelems ht' = nelems ht1 + 1.
Proof.
  intros Hw Ho Hb Hl Hx Hwf (Hp & Hn & Hvd) Hfree Hslot. unfold slot_for in Hslot. unfold insert_at.
  assert (dict no_memcmp kd ht1 key = None /\
    free_slot kd (table_size ht1) (table ht1) key i) as [Hd Hfs].
  { destruct (elem_at ht1 i); done. }
  set (ht' := set_table (<[i := ELEM_TAKEN key val]> (table ht1)) (u32 (nelems ht1 + 1)) ht1).
  destruct (take_free_spec no_memcmp kd ht1 key key val i Hwf Hd Hfs) as (Hwf' & Hn' & _);
    [by apply StringKeys.string_compare_zero|]. fold ht' in Hwf', Hn'.
  assert (key_copy ht1 key (Z.lor PH_HT_REPLACE PH_HT_CLAIM) (Ret (set_ext x w)) = (Some key, Ret (set_ext x w))) as Ek.
  { unfold key_copy. by rewrite (wf_kdef _ _ _ Hwf). }
  assert (val_copy ht1 val (Z.lor PH_HT_REPLACE PH_HT_CLAIM) (Ret (set_ext x w)) = (Some val, Ret (set_ext x w))) as Ev.
  { unfold val_copy. by rewrite Hvd. }
  destruct Hfs as (e & Hi & He & _).
  pose proof (entries_insert_taken (table ht1) i key val e Hi He) as Hent.
  assert (vdef ht' = var_val_def ph_var_delref) as Hvd' by (by cbn; rewrite Hvd).
  assert (var_wf (VWorld (<[obj := Var (vref v) (obj_body ht')]> (vars w)) (vnext w) x) roots) as Hw'.
  { apply (var_wf_edit w (val :: roots)); [done|done|rewrite Hb; unfold is_singleton; naive_solver|
      unfold is_singleton, obj_body; naive_solver| | |].
    - cbn. unfold oval_ok. rewrite oht_oval; [done|apply (wf_kdef _ _ _ Hwf')|done].
    - rewrite Hb. cbn. rewrite Hent, Hp. cbn. by rewrite Permutation_middle.
    - rewrite Hb. cbn. intros q Hq. rewrite Hent, Hp in Hq. apply elem_of_cons in Hq as [->|Hq]; auto. }
  exists ht'. eexists. split.
  { destruct (elem_at ht1 i); [|done|]; by rewrite Ek, Ev. }
  split; [by apply store_oval_eq|]. split; [exact Hw'|]. split_and!; [done|done|done| | |done|done].
  - cbn. split; [by rewrite Hent, Hp|]. intros [k u] Hin Hc. rewrite <- Hp in Hin.
    apply dict_of_None with (k := k) (v := u) in Hd; [|done]. apply Hd. by apply StringKeys.string_compare_zero.
  - intros Ht j Hj. cbn in Hj. apply list_lookup_insert_Some in Hj as [(_ & [=] & _)|[_ Hj]]. by apply (Ht j).
Qed.

(** The references to strings that are not held by variants, from one state
    to the next; [ks] were given up or handed over. *)
Definition strs_spent w w' (ks : list positive) : Prop :=
  forall t, loose srefs ∅ w' t = loose srefs ∅ w t - occ t ks.

Lemma loose_edit w a v b vs n x t :
  vars w !! a = Some v ->
  loose srefs ∅ (VWorld (<[a := Var vs b]> (vars w)) n x) t =
  loose srefs ∅ w t + (srefs x t - srefs (ext w) t) + (occ t (strs_in (body v)) - occ t (strs_in b)).
Proof.
  intros Ha. unfold loose. cbn. rewrite (hsum_update _ _ _ _ _ _ Ha), decide_False by set_solver. cbn. lia.
Qed.

(** The second part of setting a key: the slot of the key. *)
Lemma set_taken w x roots obj key val v o i k c :
  var_wf w (val :: roots) -> vars w !! obj = Some v -> body v = PH_VAR_OBJECT o ->
  ~ leads (vars w) val obj -> (forall t, srefs x t = srefs (ext w) t) ->
  contents_of k = contents_of key -> o_table o !! i = Some (ELEM_TAKEN k c) ->
  exists ht' w1 w', insert_at (oht o) i key val (Z.lor PH_HT_REPLACE PH_HT_CLAIM) (Ret (set_ext x w)) =
      (PH_OK, ht', Ret w1) /\
    store_oval obj ht' w1 = Ret (tt, w') /\ var_wf w' roots /\ vnext w' = vnext w /\
    vars w' !! obj = Some (Var (vref v) (obj_body ht')) /\
    (forall q, q <> obj -> ~ leads (vars w) c q -> vars w' !! q = vars w !! q) /\
    strs_spent w w' [key] /\ object_put o (ht_oval ht') key val (Some c) /\
    (no_tomb (o_table o) -> no_tomb (table ht')) /\ table_size ht' = o_size o /\ nelems ht' = o_nelems o.
Proof.
  intros Hw Ho Hb Hl Hx Hk Hi. pose proof (vw_body _ _ Hw obj v Ho) as Hok. rewrite Hb in Hok. cbn in Hok.
  set (ht' := set_table (<[i := ELEM_TAKEN k val]> (o_table o)) (o_nelems o) (oht o)).
  destruct (retake_spec no_memcmp kd (oht o) k c val i Hok Hi) as [Hwf' _].
  change (wf no_memcmp kd ht') in Hwf'.
  destruct (entries_insert_split (o_table o) i (ELEM_TAKEN k val) _ Hi) as [Hent Hent'].
  set (es1 := entries (take i (o_table o))) in *. set (es2 := entries (drop (S i) (o_table o))) in *.
  change (entries [ELEM_TAKEN k c]) with [(k, c)] in Hent. change (entries [ELEM_TAKEN k val]) with [(k, val)] in Hent'.
  assert (refs_in (body v) ≡ₚ c :: (es1.*2 ++ es2.*2)) as Hm.
  { rewrite Hb. cbn. rewrite Hent, !fmap_app. cbn. by rewrite <- Permutation_middle. }
  assert (refs_in (obj_body ht') ≡ₚ val :: (es1.*2 ++ es2.*2)) as Hm'.
  { change (refs_in (obj_body ht')) with (snd <$> entries (<[i := ELEM_TAKEN k val]> (o_table o))).
    rewrite Hent', !fmap_app. cbn. by rewrite <- Permutation_middle. }
  destruct (release_member (set_ext x w) (val :: roots) obj v c _ (var_wf_ext _ _ _ Hw) Ho Hm)
    as (w2 & E2 & Hrel & Hun & Ho2 & Hfin).
  set (w3 := set_ext (string_delref key (ext w2)) w2).
  exists ht', w3. eexists. split.
  { unfold insert_at. rewrite (elem_at_lookup (oht o) i _ Hi).
    change (Z.land (Z.lor PH_HT_REPLACE PH_HT_CLAIM) PH_HT_REPLACE =? 0) with false. cbv iota.
    assert (val_delete (oht o) c (Ret (set_ext x w)) = Ret w2) as ->.
    { unfold val_delete. cbn [oval_ht vdef var_val_def val_delete_func]. unfold var_del, run. by rewrite E2. }
    reflexivity. }
  assert (forall q, q ∈ refs_in (obj_body ht') -> q ∈ refs_in (body v) \/ ~ leads (vars w) q obj) as Hq.
  { intros q Hq. rewrite Hm' in Hq. apply elem_of_cons in Hq as [->|Hq]; [by right|]. left. rewrite Hm. by right. }
  split; [by apply store_oval_eq|]. split; [apply (Hfin (obj_body ht') roots (string_delref key (ext w2)))|].
  { by rewrite Hm', <- Permutation_middle. }
  { unfold is_singleton, obj_body. naive_solver. }
  { cbn. unfold oval_ok. by rewrite oht_oval. }
  { done. }
  cbn. split_and!; [by rewrite (rel_next _ _ _ _ _ _ Hrel)|apply lookup_insert_eq| | |by exists k, es1, es2| |done|done].
  - intros q Hq1 Hq2. rewrite lookup_insert_ne by done. apply Hun. by intros p ->%list_elem_of_singleton.
  - intros t. pose proof (rel_loose _ _ _ _ _ _ Hrel t) as Hlo.
    assert (loose srefs {[obj]} w2 t = loose srefs ∅ w2 t + occ t (strs_in (body v))) as H1.
    { unfold loose. rewrite (hsum_add _ ∅ _ _ _ Ho2), (right_id_L ∅ (∪)) by set_solver. lia. }
    assert (loose srefs {[obj]} (set_ext x w) t = loose srefs ∅ w t + occ t (strs_in (body v))) as H2.
    { unfold loose. cbn. rewrite Hx, (hsum_add _ ∅ _ _ _ Ho), (right_id_L ∅ (∪)) by set_solver. lia. }
    unfold set_vars. rewrite loose_edit with (v := v) by done. cbn [ext w3 set_ext].
    assert (loose srefs ∅ w3 t = loose srefs ∅ w2 t + srefs (ext w3) t - srefs (ext w2) t) as H3.
    { unfold loose. cbn. lia. }
    assert (occ t (strs_in (obj_body ht')) = occ t (strs_in (body v))) as H4.
    { rewrite Hb. change (strs_in (obj_body ht')) with (fst <$> entries (<[i := ELEM_TAKEN k val]> (o_table o))).
      cbn [strs_in]. by rewrite Hent, Hent', !fmap_app. }
    cbn [w3 ext set_ext] in H3. rewrite delref_refs in H3. rewrite H4, H3, occ_cons.
    change (occ t []) with 0 in *. lia.
  - intros Ht j Hj. apply list_lookup_insert_Some in Hj as [(_ & [=] & _)|[_ Hj]]. by apply (Ht j).
Qed.

Lemma object_get_dict w roots obj v o key :
  var_wf w roots -> vars w !! obj = Some v -> body v = PH_VAR_OBJECT o ->
  ph_var_object_get (X := X) v key = dict no_memcmp kd (oht o) key.
Proof.
  intros Hw Ho Hb. pose proof (vw_body _ _ Hw obj v Ho) as Hok. rewrite Hb in Hok. cbn in Hok.
  unfold ph_var_object_get. rewrite Hb. by apply get_dict.
Qed.

(** Setting a key of an object. *)
Lemma object_set_ok w roots obj key val v o :
  var_wf w (val :: roots) -> vars w !! obj = Some v -> body v = PH_VAR_OBJECT o ->
  ~ leads (vars w) val obj -> o_size o < 2 ^ 31 ->
  exists r w', ph_var_object_set_claim_kv obj key val w = Ret (r, w') /\ vnext w' = vnext w /\
    if decide (r = PH_OK) then
      exists o', vars w' !! obj = Some (Var (vref v) (PH_VAR_OBJECT o')) /\ var_wf w' roots /\
        strs_spent w w' [key] /\ object_put o o' key val (ph_var_object_get (X := X) v key) /\
        (forall q, q <> obj -> (forall c, ph_var_object_get (X := X) v key = Some c -> ~ leads (vars w) c q) ->
          vars w' !! q = vars w !! q) /\
        (forall c, compact c o -> compact c o')
    else r = PH_NOMEM /\ vars w' = vars w /\ strs_spent w w' [] /\ exists n, (mem_alloc n (ext w)).1 = false.
Proof.
  intros Hw Ho Hb Hl Hsz. pose proof (vw_body _ _ Hw obj v Ho) as Hok. rewrite Hb in Hok. cbn in Hok.
  rewrite (object_get_dict w _ obj v o key Hw Ho Hb).
  unfold ph_var_object_set_claim_kv, object_insert. step_with (load_eq w obj v Ho). rewrite Hb. step.
  destruct (insert_slot no_memcmp alloc_w free_w kd (oht o) key val (Z.lor PH_HT_REPLACE PH_HT_CLAIM) (Ret w) Hok Hsz)
    as (ht1 & s1 & slot & -> & Hwf1 & Hse & Haf & Hsame & Hcomp & Hslot).
  destruct (after_alloc_ext w s1 Haf) as (x & -> & Hx). destruct slot as [i|].
  2:{ destruct Hslot as (-> & _ & _ & n & Hn). exists PH_NOMEM, (set_vars <[obj := v]> (set_ext x w)).
      assert (Var (vref v) (obj_body (oht o)) = v) as Hv.
      { unfold obj_body. destruct v as [r b]. cbn in *. rewrite Hb. by destruct o. }
      split_and!; [|done|rewrite decide_False by done].
      - unfold bind, resume. rewrite (store_oval_eq (set_ext x w) obj v) by done. by rewrite Hv.
      - assert (vars (set_vars <[obj:=v]> (set_ext x w)) = vars w) as Hvars by (by apply insert_id).
        split_and!; [done|done| |].
        + intros t. unfold loose. rewrite Hvars. cbn. rewrite Hx. lia.
        + exists n. cbn in Hn. by destruct (mem_alloc n (ext w)). }
  destruct (is_taken (elem_at ht1 i)) eqn:Ht.
  - unfold slot_for in Hslot. destruct (elem_at ht1 i) as [|k c|] eqn:Ei; try done.
    destruct Hslot as (Hd & Hc & Hi). destruct Hsame as [->|Hd0].
    2:{ rewrite (same_entries_dict no_memcmp kd (oht o)), Hd0 in Hd; done. }
    destruct (set_taken w x roots obj key val v o i k c) as
      (ht' & w1 & w' & -> & Est & Hw' & Hn & Hob & Hun & Hsp & Hput & Hnt & Hs' & Hn'); [done..| |done|].
    { symmetry. by apply StringKeys.string_compare_zero. }
    exists PH_OK, w'. rewrite decide_True, Hd by done. split_and!; [|done|].
    { unfold bind, resume. by rewrite Est. }
    exists (ht_oval ht'). split_and!; [done|done|done|done| |].
    + intros q Hq1 Hq2. apply Hun; [done|]. by apply Hq2.
    + intros c0 [Hc1 Hc2]. split; [by apply Hnt|]. cbn. lia.
  - destruct (set_free w x roots obj key val v o ht1 i) as
      (ht' & w' & -> & Est & Hw' & Hv' & Hn & Hxt & Hput & Hnt & Hs' & Hn'); [done..|].
    assert (dict no_memcmp kd (oht o) key = None) as Hd.
    { destruct Hsame as [->|Hd]; [|done]. unfold slot_for in Hslot. destruct (elem_at (oht o) i); by destruct Hslot. }
    exists PH_OK, w'. rewrite decide_True, Hd by done. split_and!; [|done|].
    { unfold bind, resume. by rewrite Est. }
    exists (ht_oval ht'). rewrite Hv', lookup_insert_eq. split_and!; [done|done| |done| |].
    + intros t. destruct w' as [vs' n' x']. cbn in Hv', Hxt. subst vs' x'. rewrite loose_edit with (v := v) by done.
      rewrite Hx, Hb. cbn [strs_in obj_body]. destruct Hput as [Hput _].
      pose proof (occ_perm t _ _ (fmap_Permutation fst _ _ Hput)) as Ho2. rewrite fmap_cons, occ_cons in Ho2.
      rewrite Ho2. cbn. lia.
    + intros q Hq _. by apply lookup_insert_ne.
    + intros c0 [Hc1 Hc2]. destruct (Hcomp Hc1) as [Hc3 Hc4]. cbn in Hc4. split; [by apply Hnt|].
      cbn. destruct Hse as (_ & Hne & _). cbn in Hne. lia.
Qed.

(** ** New containers *)

Lemma delete_new w v : vars w !! vnext w = None -> delete (vnext w) (<[vnext w := v]> (vars w)) = vars w.
Proof. apply delete_insert_id. Qed.

(** The result of creating the container [b]. *)
Definition made w roots (b : ph_variant_body D) (r : option positive) w' : Prop :=
  same_strs w w' /\
  match r with
  | None => vars w' = vars w /\ (vnext w <= vnext w')%positive /\ exists n x, (mem_alloc n x).1 = false
  | Some p => p = vnext w /\ vars w' = <[p := Var 1 b]> (vars w) /\ vnext w' = Pos.succ (vnext w) /\
              var_wf w' (p :: roots)
  end.

Lemma array_new_ok w roots n :
  var_wf w roots -> 0 <= n < 2 ^ 32 ->
  exists r w', ph_var_array n w = Ret (r, w') /\ made w roots (PH_VAR_ARRAY n []) r w'.
Proof.
  intros Hw Hn. unfold ph_var_array.
  destruct (new_var_ok w roots (PH_VAR_ARRAY n []) Hw) as (r & w1 & E & Hx & Hr);
    [done|unfold is_singleton; naive_solver|done|]. step_with E. destruct r as [p|].
  2:{ destruct Hr as [-> Hnone]. exists None, (set_ext (ext w1) w). split; [done|]. split; [done|]. split_and!; [done|done|]. by do 2 eexists. }
  destruct Hr as (-> & Hnone & Hv & Hnx & Hw1).
  unfold bind at 1, on_ext. pose proof (alloc_refs (u64 (n * sizeof_ptr)) (ext w1)) as Hy.
  destruct (mem_alloc (u64 (n * sizeof_ptr)) (ext w1)) as [[|] x] eqn:Ea; cbn in Hy.
  - exists (Some (vnext w)), (set_ext x w1). split; [done|]. split; [intros t; cbn; by rewrite Hy|].
    split; [done|]. split; [done|]. split; [done|]. by apply var_wf_ext.
  - eexists None, _. split; [reflexivity|]. split; [intros t; cbn; by rewrite free_refs, Hy|].
    cbn. rewrite Hv, Hnx. split_and!; [by apply delete_new|lia|]. eexists _, _. by rewrite Ea.
Qed.

Definition empty_oval (size esize : Z) : oval_t := Oval 0 size esize (size - 1) (replicate (Z.to_nat size) ELEM_EMPTY).

Lemma entries_none n : entries (replicate n ELEM_EMPTY : list (ph_ht_elem positive positive)) = [].
Proof. by induction n. Qed.

Lemma refs_in_empty size esize : refs_in (D := D) (PH_VAR_OBJECT (empty_oval size esize)) = [].
Proof. unfold refs_in, empty_oval. cbn [o_table]. by rewrite entries_none. Qed.

Lemma strs_in_empty size esize : strs_in (D := D) (PH_VAR_OBJECT (empty_oval size esize)) = [].
Proof. unfold strs_in, empty_oval. cbn [o_table]. by rewrite entries_none. Qed.

Lemma object_new_ok w roots n :
  var_wf w roots -> 0 <= n <= 2 ^ 27 -> let o := empty_oval (ph_power_2 (n * 2)) 20 in
  exists r w', ph_var_object n w = Ret (r, w') /\ made w roots (PH_VAR_OBJECT o) r w' /\ compact (2 ^ 29) o.
Proof.
  intros Hw Hn o. destruct (ph_power_2_above (n * 2)) as [Hb (k & Hk & Hpk)]; [lia|].
  assert (oval_ok (X := X) (D := D) o) as Hok.
  { split; [done|exists k; split; [lia|done]|cbn; lia| |].
    - apply table_ok_empty. cbn. lia.
    - change (0 = zlen (entries (replicate (Z.to_nat (ph_power_2 (n * 2))) ELEM_EMPTY : list (ph_ht_elem positive positive)))). by rewrite entries_none. }
  assert (compact (2 ^ 29) o) as Hc.
  { split; [|cbn; lia]. intros i Hi. cbn in Hi. by apply lookup_replicate_1 in Hi as [? _]. }
  unfold ph_var_object, new_var. unfold bind at 1 2, on_ext.
  pose proof (alloc_refs sizeof_variant (ext w)) as Hx.
  destruct (mem_alloc sizeof_variant (ext w)) as [[|] x] eqn:Ea; cbn in Hx.
  2:{ exists None, (set_ext x w). split; [done|]. split; [|done]. split; [done|]. split_and!; [done|cbn; lia|].
      eexists _, _. by rewrite Ea. }
  cbn [ret]. set (w1 := VWorld _ _ _). step. unfold ph_ht_init, alloc_w.
  rewrite (wrapU_small 32 (n * 2)) by lia.
  change (u64 (sizeof_elem + ksize kd + vsize (var_val_def (X := X) (D := D) ph_var_delref))) with 20.
  change (ext w1) with x. rewrite (wrapU_small 64 (ph_power_2 (n * 2) - 1)) by lia.
  set (sz := u64 (20 * _)). pose proof (alloc_refs sz x) as Hy.
  destruct (mem_alloc sz x) as [[|] y] eqn:Eb; cbn in Hy.
  - eexists (Some (vnext w)), _. split; [reflexivity|]. split; [|done]. split; [intros t; cbn; by rewrite Hy, Hx|].
    split; [done|]. cbn. rewrite insert_insert_eq. split; [done|]. split; [done|].
    unfold set_vars. cbn. rewrite insert_insert_eq.
    apply (var_wf_new w roots (PH_VAR_OBJECT o) y); [done|apply refs_in_empty|unfold is_singleton; naive_solver|done].
  - eexists None, _. split; [reflexivity|]. split; [|done]. split; [intros t; cbn; by rewrite free_refs, Hy, Hx|].
    cbn. split_and!; [by apply delete_new, (fresh_none w roots)|lia|]. eexists _, _. by rewrite Eb.
Qed.

(** Replacing an element of an array releases the old one with what only it kept
    alive, and keeps everything else. *)
Theorem var_array_set_spec w roots arr pos val v al l old :
  var_wf w (val :: roots) -> vars w !! arr = Some v -> body v = PH_VAR_ARRAY al l ->
  ~ leads (vars w) val arr -> 0 <= pos -> l !! Z.to_nat pos = Some old ->
  exists w', ph_var_array_set_claim arr pos val w = Ret (PH_OK, w') /\ var_wf w' roots /\
    vars w' !! arr = Some (Var (vref v) (PH_VAR_ARRAY al (<[Z.to_nat pos := val]> l))) /\
    (forall q, q <> arr -> ~ leads (vars w) old q -> vars w' !! q = vars w !! q) /\
    strs_spent w w' [].
Proof.
  intros Hw Ha Hb Hl Hpos Hold. pose proof (lookup_lt_Some _ _ _ Hold) as Hlt.
  unfold ph_var_array_set_claim. step_with (load_eq w arr v Ha). rewrite Hb.
  destruct (pos =? zlen l) eqn:E1; zbool; [lia|]. destruct (zlen l <=? pos) eqn:E2; zbool; [lia|].
  rewrite Hold. step.
  set (rest := take (Z.to_nat pos) l ++ drop (S (Z.to_nat pos)) l).
  assert (refs_in (body v) ≡ₚ old :: rest) as Hm.
  { rewrite Hb. cbn. rewrite <- (take_drop_middle _ _ _ Hold) at 1. unfold rest. by rewrite <- Permutation_middle. }
  assert (<[Z.to_nat pos := val]> l ≡ₚ val :: rest) as Hm'.
  { rewrite insert_take_drop by done. unfold rest. by rewrite <- Permutation_middle. }
  destruct (release_member w (val :: roots) arr v old rest Hw Ha Hm) as (w1 & E & Hrel & Hun & Ha1 & Hfin).
  step_with E. step_with (load_eq w1 arr v Ha1). rewrite Hb. step.
  pose proof (vw_body _ _ Hw arr v Ha) as Hok. rewrite Hb in Hok. cbn in Hok.
  eexists. split; [done|]. split_and!.
  - apply (Hfin (PH_VAR_ARRAY al (<[Z.to_nat pos := val]> l)) roots (ext w1)).
    + cbn. by rewrite Hm', <- Permutation_middle.
    + unfold is_singleton. naive_solver.
    + cbn. by rewrite length_insert.
    + cbn. intros q Hq. rewrite Hm' in Hq. apply elem_of_cons in Hq as [->|Hq]; [by right|]. left. rewrite Hm. by right.
  - cbn. apply lookup_insert_eq.
  - intros q Hq1 Hq2. cbn. rewrite lookup_insert_ne by done. apply Hun. by intros p ->%list_elem_of_singleton.
  - intros t. pose proof (rel_loose _ _ _ _ _ _ Hrel t) as Hlo.
    assert (loose srefs ∅ w1 t = loose srefs ∅ w t - occ t []) as H1.
    { unfold loose in *. rewrite (hsum_add _ ∅ _ _ _ Ha1), (hsum_add _ ∅ _ _ _ Ha), (right_id_L ∅ (∪)) by set_solver. lia. }
    unfold set_vars. rewrite loose_edit with (v := v) by done. rewrite Hb, H1. cbn. lia.
Qed.
(** Appending to an array puts the element at its end, growing the array when it
    is full, takes over the reference, and without memory changes nothing. *)
Theorem var_array_append_spec w roots arr val v al l :
  var_wf w (val :: roots) -> vars w !! arr = Some v -> body v = PH_VAR_ARRAY al l ->
  ~ leads (vars w) val arr -> al < 2 ^ 30 ->
  exists r w', ph_var_array_append_claim arr val w = Ret (r, w') /\ vnext w' = vnext w /\ same_strs w w' /\
    if decide (r = PH_OK) then
      vars w' = <[arr := Var (vref v) (PH_VAR_ARRAY (slots al (zlen l)) (l ++ [val]))]> (vars w) /\
      var_wf w' roots
    else r = PH_NOMEM /\ vars w' = vars w /\ exists n, (mem_realloc n (ext w)).1 = false.
Proof. by apply array_append_ok. Qed.

(** C32. Setting a member of an object puts the value under the key and changes no
    other member; a value that was there is released with what only it kept
    alive; without memory nothing changes. *)
Theorem var_object_set_spec w roots obj key val v o :
  var_wf w (val :: roots) -> vars w !! obj = Some v -> body v = PH_VAR_OBJECT o ->
  ~ leads (vars w) val obj -> o_size o < 2 ^ 31 ->
  exists r w', ph_var_object_set_claim_kv obj key val w = Ret (r, w') /\ vnext w' = vnext w /\
    if decide (r = PH_OK) then
      exists o', vars w' !! obj = Some (Var (vref v) (PH_VAR_OBJECT o')) /\ var_wf w' roots /\
        strs_spent w w' [key] /\ object_put o o' key val (ph_var_object_get (X := X) v key) /\
        (forall q, q <> obj -> (forall c, ph_var_object_get (X := X) v key = Some c -> ~ leads (vars w) c q) ->
          vars w' !! q = vars w !! q) /\
        (forall c, compact c o -> compact c o')
    else r = PH_NOMEM /\ vars w' = vars w /\ strs_spent w w' [] /\ exists n, (mem_alloc n (ext w)).1 = false.
Proof. by apply object_set_ok. Qed.

Lemma leads_leaf (h : gmap positive (ph_variant D)) p v q : h !! p = Some v -> refs_in (body v) = [] -> leads h p q -> q = p.
Proof. intros Hp Hr. destruct 1 as [|p u r q Hu Hin _]; [done|]. simplify_eq. rewrite Hr in Hin. by apply not_elem_of_nil in Hin. Qed.

End ops.

(** ** The example *)

Lemma demo_vars_wf_8 : var_wf (env := demo_env) demo_world [8; 6; 7; 5]%positive.
Proof. apply (var_wf_perm (env := demo_env) _ [6; 8; 7; 5]%positive); [constructor|apply demo_vars_wf]. Qed.

Lemma demo_8_not_below q : q <> 8%positive -> ~ leads demo_vars 8 q.
Proof. intros Hq Hl. by apply (leads_leaf _ _ (Var 1 (PH_VAR_INTEGER 9))) in Hl. Qed.

Lemma var_array_append_spec_witness :
  exists r w', ph_var_array_append_claim (env := demo_env) 6 8 demo_world = Ret (r, w') /\ vnext w' = 9%positive /\
    same_strs demo_srefs demo_world w' /\
    if decide (r = PH_OK) then
      vars w' = <[6%positive := Var 1 (PH_VAR_ARRAY (slots 8 3) [4; 5; 1; 8]%positive)]> demo_vars /\
      var_wf (env := demo_env) w' [6; 7; 5]%positive
    else r = PH_NOMEM /\ vars w' = demo_vars /\ exists n, (mem_realloc (var_env := demo_env) n (ext demo_world)).1 = false.
Proof.
  pose proof demo_env_ok. refine (var_array_append_spec (env := demo_env) demo_srefs demo_world [6; 7; 5]%positive 6 8
    (Var 1 (PH_VAR_ARRAY 8 [4; 5; 1]%positive)) 8 [4; 5; 1]%positive demo_vars_wf_8 eq_refl eq_refl _ _).
  - by apply demo_8_not_below.
  - done.
Defined.

Lemma var_object_set_spec_witness :
  exists r w', ph_var_object_set_claim_kv (env := demo_env) 7 demo_abc 8 demo_world = Ret (r, w') /\ vnext w' = 9%positive /\
    if decide (r = PH_OK) then
      exists o', vars w' !! 7%positive = Some (Var 1 (PH_VAR_OBJECT o')) /\ var_wf (env := demo_env) w' [6; 7; 5]%positive /\
        strs_spent demo_srefs demo_world w' [demo_abc] /\
        object_put (env := demo_env) demo_oval o' demo_abc 8 None /\
        (forall q, q <> 7%positive -> (forall c, None = Some c -> ~ leads demo_vars c q) -> vars w' !! q = demo_vars !! q) /\
        (forall c, compact c demo_oval -> compact c o')
    else r = PH_NOMEM /\ vars w' = demo_vars /\ strs_spent demo_srefs demo_world w' [] /\
      exists n, (mem_alloc (var_env := demo_env) n (ext demo_world)).1 = false.
Proof.
  pose proof demo_env_ok. refine (var_object_set_spec (env := demo_env) demo_srefs demo_world [6; 7; 5]%positive 7 demo_abc 8
    (Var 1 (PH_VAR_OBJECT demo_oval)) demo_oval demo_vars_wf_8 eq_refl eq_refl _ _).
  - by apply demo_8_not_below.
  - done.
Defined.

Lemma var_array_set_spec_witness :
  exists w', ph_var_array_set_claim (env := demo_env) 6 1 8 demo_world = Ret (PH_OK, w') /\
    var_wf (env := demo_env) w' [6; 7; 5]%positive /\
    vars w' !! 6%positive = Some (Var 1 (PH_VAR_ARRAY 8 [4; 8; 1]%positive)) /\
    (forall q, q <> 6%positive -> ~ leads demo_vars 5 q -> vars w' !! q = demo_vars !! q) /\
    strs_spent demo_srefs demo_world w' [].
Proof.
  pose proof demo_env_ok. refine (var_array_set_spec (env := demo_env) demo_srefs demo_world [6; 7; 5]%positive 6 1 8
    (Var 1 (PH_VAR_ARRAY 8 [4; 5; 1]%positive)) 8 [4; 5; 1]%positive 5 demo_vars_wf_8 eq_refl eq_refl _ _ eq_refl).
  - by apply demo_8_not_below.
  - done.
Defined.

End VariantOps.
