(* ===== verification/VariantGrow.v ===== *)
(** * Building values

    While a value is built, the variants that were there before keep their
    contents and the new ones refer to new ones and to the static ones only.
    [extends] says so; a value that was complete keeps its meaning. *)

From Stdlib Require Import ZArith Lia.
From stdpp Require Import base numbers list gmap.
From S2P Require Import Prelude SysUtil PhString PhStringUtf8 HashTable HashTableProofs StringKeys.
From S2P Require Import Variant VariantProofs VariantOps.

Module VariantGrow.
Export VariantOps.
Import HashTable HashTableProofs.

Section grow.
Context {D : Type}.
Implicit Types h : gmap positive (ph_variant D).
Implicit Types n p q : positive.

(** A variant made since [n] was the next to make, or a static one. *)
Definition inside n p : Prop := (n <= p)%positive \/ is_static p.

Lemma inside_le n n' p : (n <= n')%positive -> inside n' p -> inside n p.
Proof. intros Hn [Hp|Hp]; [left; lia|by right]. Qed.

(** The variants made since then hold no others but such. *)
Definition closed_from n h : Prop :=
  forall q v r, h !! q = Some v -> (n <= q)%positive -> r ∈ refs_in (body v) -> inside n r.

(** From [h] to [h'] variants were made, [n] being the first; [a] is the one
    that may have changed. *)
Record extends (a : option positive) n h h' : Prop := {
  ex_old q v : Some q <> a -> h !! q = Some v -> exists v', h' !! q = Some v' /\ body v' = body v;
  ex_new q v : h' !! q = Some v -> is_Some (h !! q) \/ (n <= q)%positive;
  ex_closed : closed_from n h';
}.

Lemma extends_weaken a n h h' : extends None n h h' -> extends a n h h'.
Proof. intros [Ho Hn Hc]. split; [|done|done]. intros q v _. by apply Ho. Qed.

Lemma extends_closed a n n' h h' :
  extends a n' h h' -> (n <= n')%positive -> closed_from n h -> (forall b, a = Some b -> (b < n)%positive) ->
  closed_from n h'.
Proof.
  intros [Ho Hnew Hc] Hn Hcl Ha q v r Hq Hle Hr. destruct (decide (n' <= q)%positive).
  - apply (inside_le n n'); [done|]. by apply (Hc q v).
  - destruct (Hnew q v Hq) as [[u Hu]|]; [|lia].
    destruct (Ho q u) as (v' & Hv' & Hb); [intros Hq2; specialize (Ha q (eq_sym Hq2)); lia|done|].
    simplify_eq. rewrite Hb in Hr. by eapply Hcl.
Qed.

Lemma extends_trans a n n' h h1 h2 :
  extends a n h h1 -> extends a n' h1 h2 -> (n <= n')%positive -> (forall b, a = Some b -> (b < n)%positive) ->
  extends a n h h2.
Proof.
  intros H1 H2 Hn Ha. split.
  - intros q v Hq Hv. destruct (ex_old _ _ _ _ H1 q v Hq Hv) as (v1 & Hv1 & Hb1).
    destruct (ex_old _ _ _ _ H2 q v1 Hq Hv1) as (v2 & Hv2 & Hb2). exists v2. by rewrite Hb2.
  - intros q v Hv. destruct (ex_new _ _ _ _ H2 q v Hv) as [[v1 Hv1]|]; [|right; lia]. by eapply H1.
  - eapply extends_closed; [done|done|apply H1|done].
Qed.

(** The static variants hold no others. *)
Definition static_empty h : Prop := forall p v, is_static p -> h !! p = Some v -> refs_in (body v) = [].

(** ** Values up to the order of the members of objects *)

Inductive teq : tree D -> tree D -> Prop :=
  | te_refl t : teq t t
  | te_arr l l' : Forall2 teq l l' -> teq (TArr l) (TArr l')
  | te_obj kvs es kvs' : Forall2 (fun a b => a.1 = b.1 /\ teq a.2 b.2) kvs es -> es ≡ₚ kvs' ->
      teq (TObj kvs) (TObj kvs').

Context (contents : positive -> list Z).
Abbreviation denotes := (denotes contents).

(** The variant at [p] is the value [t]. *)
Definition means h (t : tree D) p : Prop := exists t', teq t t' /\ denotes h t' p.

Definition means_member h (kt : list Z * tree D) (e : positive * positive) : Prop :=
  contents e.1 = kt.1 /\ means h kt.2 e.2.

Lemma means_arr h ts p v al ps :
  h !! p = Some v -> body v = PH_VAR_ARRAY al ps -> Forall2 (means h) ts ps -> means h (TArr ts) p.
Proof.
  intros Hp Hb Hall. assert (exists ts', Forall2 teq ts ts' /\ Forall2 (denotes h) ts' ps) as (ts' & H1 & H2).
  { clear Hb. induction Hall as [|t q ts ps (t' & Ht & Hd) _ (ts' & H1 & H2)]; [by exists []|].
    exists (t' :: ts'). split; by constructor. }
  exists (TArr ts'). split; [by constructor|]. apply denotes_arr. by exists v, al, ps.
Qed.

Lemma Forall2_perm {A B} (R : A -> B -> Prop) l k k' :
  Forall2 R l k -> k ≡ₚ k' -> exists l', l ≡ₚ l' /\ Forall2 R l' k'.
Proof.
  intros HR Hp. revert l HR. induction Hp as [|x k k' Hp IH|x y k|k1 k2 k3 _ IH1 _ IH2]; intros l HR.
  - apply Forall2_nil_inv_r in HR as ->. by exists [].
  - apply Forall2_cons_inv_r in HR as (a & l0 & Ha & HR & ->). destruct (IH _ HR) as (l' & Hl & HR').
    exists (a :: l'). split; [by constructor|by constructor].
  - apply Forall2_cons_inv_r in HR as (a & l0 & Ha & HR & ->). apply Forall2_cons_inv_r in HR as (b & l1 & Hb & HR & ->).
    exists (b :: a :: l1). split; [constructor|by repeat constructor].
  - destruct (IH1 _ HR) as (l2 & H1 & HR2). destruct (IH2 _ HR2) as (l3 & H2 & HR3).
    exists l3. split; [by transitivity l2|done].
Qed.

Lemma means_obj h kvs p v o es :
  h !! p = Some v -> body v = PH_VAR_OBJECT o -> Forall2 (means_member h) kvs es -> es ≡ₚ entries (o_table o) ->
  means h (TObj kvs) p.
Proof.
  intros Hp Hb Hall Hperm.
  assert (exists ts, Forall2 (fun a b => a.1 = b.1 /\ teq a.2 b.2) kvs ts /\ Forall2 (member contents h) ts es)
    as (ts & H1 & H2).
  { clear Hb Hperm. induction Hall as [|[k t] e kvs es [Hk (t' & Ht & Hd)] _ (ts & H1 & H2)]; [by exists []|].
    exists ((k, t') :: ts). split; by constructor. }
  destruct (Forall2_perm _ _ _ _ H2 Hperm) as (ts' & Hpt & H3).
  exists (TObj ts'). split; [by eapply te_obj|]. apply denotes_obj. by exists v, o.
Qed.

Lemma means_frame n h h' t p :
  closed_from n h -> static_empty h ->
  (forall q v, inside n q -> h !! q = Some v -> exists v', h' !! q = Some v' /\ body v' = body v) ->
  inside n p -> means h t p -> means h' t p.
Proof.
  intros Hc Hs Hb Hp (t' & Ht & Hd). exists t'. split; [done|].
  eapply (denotes_frame contents h h' (inside n)); [|done|done|done].
  intros q v r [Hq|Hq] Hv Hr; [by eapply Hc|]. rewrite (Hs q v Hq Hv) in Hr. by apply not_elem_of_nil in Hr.
Qed.

(** A variant made before [n] is not below the new ones. *)
Lemma inside_not_leads n h p a :
  closed_from n h -> static_empty h -> inside n p -> ~ inside n a -> ~ leads h p a.
Proof.
  intros Hc Hs Hp Ha Hl. induction Hl as [p|p v q r Hv Hq _ IH]; [done|]. apply IH; [|done].
  destruct Hp as [Hp|Hp]; [by eapply Hc|]. rewrite (Hs p v Hp Hv) in Hq. by apply not_elem_of_nil in Hq.
Qed.

(** ** Room for more references to the static variants *)

Definition room h (m : Z) : Prop := forall p v, is_static p -> h !! p = Some v -> vref v + m < 2 ^ 31.

Lemma room_le h m m' : room h m -> m' <= m -> room h m'.
Proof. intros Hr Hm p v Hp Hv. specialize (Hr p v Hp Hv). lia. Qed.

Lemma room_insert h m p v : room h m -> ~ is_static p -> room (<[p := v]> h) m.
Proof.
  intros Hr Hp q u Hq Hu. destruct (decide (q = p)) as [->|Hne]; [done|].
  rewrite lookup_insert_ne in Hu by done. by eapply Hr.
Qed.

End grow.

Section wf.
Context {X : Type} {env : var_env X} {D : Type}.
Context (srefs : X -> positive -> Z).
Implicit Types w : vworld X D.
Abbreviation loose := (loose srefs).

Lemma wf_static_empty w roots : var_wf w roots -> static_empty (vars w).
Proof.
  intros Hw p v Hp Hv. rewrite (vw_static _ _ Hw p v Hp Hv). unfold static_body. by repeat case_decide.
Qed.

Lemma closed_from_next w roots : var_wf w roots -> closed_from (vnext w) (vars w).
Proof. intros Hw q v r Hq Hle _. pose proof (vw_fresh _ _ Hw q v Hq). lia. Qed.

Lemma leads_snoc (h : gmap positive (ph_variant D)) p q v r : leads h p q -> h !! q = Some v -> r ∈ refs_in (body v) -> leads h p r.
Proof.
  induction 1 as [p|p u q' q Hu Hq _ IH]; intros Hv Hr.
  - eapply leads_step; [done|done|constructor].
  - eapply leads_step; [done|done|by apply IH].
Qed.

Lemma leads_rank rank (h : gmap positive (ph_variant D)) p q : ranked rank h -> leads h p q -> (rank q <= rank p)%nat.
Proof. intros Hr. induction 1 as [p|p v q r Hv Hq _ IH]; [lia|]. specialize (Hr p v q Hv Hq). lia. Qed.

(** A new variant that was handed out is held by nobody else. *)
Lemma new_root_once w w' roots p v :
  var_wf w roots -> var_wf w' (p :: roots) -> extends None (vnext w) (vars w) (vars w') -> (vnext w <= p)%positive ->
  vars w' !! p = Some v -> vref v = 1.
Proof.
  intros Hw Hw' He Hp Hv. pose proof (vw_rc _ _ Hw) as Hrc. pose proof (vw_rc _ _ Hw') as Hrc'.
  assert (vars w !! p = None) as Hnone.
  { destruct (vars w !! p) as [u|] eqn:E; [|done]. pose proof (vw_fresh _ _ Hw p u E). lia. }
  assert (forall q u r, vars w !! q = Some u -> vars w' !! q = Some r -> body r = body u) as Hold.
  { intros q u r Hu Hr. destruct (ex_old _ _ _ _ He q u) as (r' & Hr' & Hb); [done|done|]. by simplify_eq. }
  assert (forall q, reachable (vars w') (p :: roots) q -> is_Some (vars w !! q) \/ leads (vars w') p q) as Hreach.
  { induction 1 as [q Hq|q Hq|q u r _ IH Hu Hr].
    - apply elem_of_cons in Hq as [->|Hq]; [right; constructor|]. left. by eapply rc_root_live.
    - left. by eapply rc_static_live.
    - destruct IH as [[u0 Hu0]|Hl]; [|right; by eapply leads_snoc].
      left. rewrite (Hold q u0 u Hu0 Hu) in Hr. by eapply rc_child. }
  destruct (rc_live _ _ _ Hrc' p v ltac:(set_solver) Hv) as [-> _]. unfold refcount, own.
  rewrite decide_False.
  2:{ intros [u Hu]%(rc_static_live _ _ _ Hrc). congruence. }
  rewrite occ_cons, decide_True, occ_absent by done || (intros [u Hu]%(rc_root_live _ _ _ Hrc); congruence).
  rewrite hsum_zero; [done|]. intros q u Hu. apply occ_absent. intros Hin.
  destruct (Hreach q) as [[u0 Hu0]|Hl].
  - apply live_reachable; [done|apply Hw'|by exists u].
  - rewrite (Hold q u0 u Hu0 Hu) in Hin. destruct (rc_child _ _ _ _ _ Hrc Hu0 Hin). congruence.
  - destruct (vw_acyclic _ _ Hw') as [rank Hr]. pose proof (leads_rank rank _ _ _ Hr Hl). specialize (Hr q u p Hu Hin). lia.
Qed.

(** What can still be reached after a release keeps its value. *)
Lemma release_keeps (contents : positive -> list Z) (h h' : gmap positive (ph_variant D)) roots t q :
  body_sub h' h -> (forall r, reachable h roots r -> is_Some (h' !! r)) -> reachable h roots q ->
  denotes contents h t q -> denotes contents h' t q.
Proof.
  intros Hs Hl. apply (denotes_frame contents h h' (reachable h roots)).
  - intros r v r' Hr Hv Hr'. by eapply reach_child.
  - intros r v Hr Hv. destruct (Hl r Hr) as [v' Hv']. destruct (Hs r v' Hv') as (u & Hu & Hb).
    exists v'. split; [done|]. congruence.
Qed.

(** A new variant that holds no others. *)
Lemma new_leaf w roots b x m :
  var_wf w roots -> refs_in b = [] -> ~ is_singleton b -> body_ok b ->
  let w' := VWorld (<[vnext w := Var 1 b]> (vars w)) (Pos.succ (vnext w)) x in
  var_wf w' (vnext w :: roots) /\ extends None (vnext w) (vars w) (vars w') /\
  (room (vars w) m -> room (vars w') m) /\
  (forall t, loose ∅ w' t = loose ∅ w t + (srefs x t - srefs (ext w) t) - occ t (strs_in b)).
Proof.
  intros Hw Hb Hs Hok w'. pose proof (fresh_none _ _ Hw) as Hn. split_and!.
  - by apply var_wf_new.
  - split; cbn.
    + intros q v _ Hq. exists v. by rewrite lookup_insert_ne by (intros <-; congruence).
    + intros q v Hq. destruct (decide (q = vnext w)) as [->|Hne]; [right; lia|].
      rewrite lookup_insert_ne in Hq by done. left. by exists v.
    + intros q v r Hq Hle Hr. destruct (decide (q = vnext w)) as [->|Hne].
      * rewrite lookup_insert_eq in Hq. injection Hq as <-. cbn in Hr. rewrite Hb in Hr. by apply not_elem_of_nil in Hr.
      * rewrite lookup_insert_ne in Hq by done. pose proof (vw_fresh _ _ Hw q v Hq). lia.
  - intros Hr. apply room_insert; [done|]. by eapply fresh_not_static, Pos.le_refl.
  - intros t. unfold VariantProofs.loose. cbn. rewrite hsum_insert, decide_False by (done || set_solver). cbn. lia.
Qed.

(** Another reference to a static variant. *)
Lemma static_leaf w roots p m :
  var_wf w roots -> is_static p -> room (vars w) (m + 1) -> 0 <= m ->
  exists v, vars w !! p = Some v /\ body v = static_body p /\
  let w' := set_vars <[p := Var (ph_refcnt_add (vref v)) (body v)]> w in
  var_wf w' (p :: roots) /\ extends None (vnext w) (vars w) (vars w') /\ room (vars w') m /\
  (forall t, loose ∅ w' t = loose ∅ w t).
Proof.
  intros Hw Hp Hr Hm. destruct (rc_static_live _ _ _ (vw_rc _ _ Hw) Hp) as [v Hv]. exists v.
  specialize (Hr p v Hp Hv) as Hlt. destruct (rc_live _ _ _ (vw_rc _ _ Hw) p v ltac:(set_solver) Hv) as [_ Hpos].
  unfold ph_refcnt_add. rewrite wrapS_small by lia. split_and!; [done|by apply (vw_static _ _ Hw)|..].
  - by apply var_wf_addref; [..|lia].
  - split; cbn.
    + intros q u _ Hq. destruct (decide (q = p)) as [->|Hne].
      * rewrite lookup_insert_eq. eexists. split; [done|]. cbn. by simplify_eq.
      * rewrite lookup_insert_ne by done. by exists u.
    + intros q u Hq. left. destruct (decide (q = p)) as [->|Hne]; [by exists v|].
      rewrite lookup_insert_ne in Hq by done. by exists u.
    + intros q u r Hq Hle _. destruct (decide (q = p)) as [->|Hne].
      * pose proof (vw_fresh _ _ Hw p v Hv). lia.
      * rewrite lookup_insert_ne in Hq by done. pose proof (vw_fresh _ _ Hw q u Hq). lia.
  - intros q u Hq Hu. cbn in Hu. destruct (decide (q = p)) as [->|Hne].
    + rewrite lookup_insert_eq in Hu. injection Hu as <-. cbn. lia.
    + rewrite lookup_insert_ne in Hu by done. specialize (Hr q u Hq Hu). lia.
  - intros t. unfold VariantProofs.loose. cbn. rewrite (hsum_update _ _ _ _ _ _ Hv), decide_False by set_solver. cbn. lia.
Qed.

End wf.
End VariantGrow.
