(* ===== verification/JsonLoad.v ===== *)
(** * The JSON reader: corelib/variant/json-load.c

    A lexer over a stream ([stream_*], [lex_*]) and a recursive-descent parser
    ([parse_*]) that builds variants.  A [char] is read as a signed value, the
    bytes of buffers are kept unsigned. *)

From Stdlib Require Import ZArith Lia.
From stdpp Require Import base numbers list gmap.
From S2P Require Import Prelude SysUtil PhString HashTable StringKeys Stream Variant.

Module JsonLoad.
Import Variant.

Definition PH_JSON_REJECT_DUPLICATES : Z := 0x1.
Definition PH_JSON_DISABLE_EOF_CHECK : Z := 0x2.
Definition PH_JSON_DECODE_ANY : Z := 0x4.

Definition STREAM_STATE_OK : Z := 0.
Definition STREAM_STATE_EOF : Z := -1.
Definition STREAM_STATE_ERROR : Z := -2.

Definition TOKEN_INVALID : Z := -1.
Definition TOKEN_EOF : Z := 0.
Definition TOKEN_STRING : Z := 256.
Definition TOKEN_INTEGER : Z := 257.
Definition TOKEN_REAL : Z := 258.
Definition TOKEN_TRUE : Z := 259.
Definition TOKEN_FALSE : Z := 260.
Definition TOKEN_NULL : Z := 261.

Definition l_isupper (c : Z) : bool := (65 <=? c) && (c <=? 90).
Definition l_islower (c : Z) : bool := (97 <=? c) && (c <=? 122).
Definition l_isalpha (c : Z) : bool := l_isupper c || l_islower c.
Definition l_isdigit (c : Z) : bool := (48 <=? c) && (c <=? 57).
Definition l_isxdigit (c : Z) : bool :=
  l_isdigit c || ((65 <=? c) && (c <=? 70)) || ((97 <=? c) && (c <=? 102)).

(** Characters of the source, by their codes. *)
Abbreviation c_quote := 34.
Abbreviation c_slash := 47.
Abbreviation c_backslash := 92.
Abbreviation c_newline := 10.
Abbreviation c_minus := 45.
Abbreviation c_plus := 43.
Abbreviation c_dot := 46.
Abbreviation c_zero := 48.
Abbreviation c_E := 69.
Abbreviation c_e := 101.
Abbreviation c_u := 117.
Abbreviation c_colon := 58.
Abbreviation c_comma := 44.
Abbreviation c_lbrace := 123.
Abbreviation c_rbrace := 125.
Abbreviation c_lbracket := 91.
Abbreviation c_rbracket := 93.

(** The value of a [char] with the bits of the byte [b]. *)
Definition schar (b : Z) : Z := wrapS 8 b.

(** ** Errors *)

(** The messages of the source with their arguments. *)
Inductive err_msg :=
  | MsgDecode (byte : Z) | MsgPrematureEnd | MsgNewline | MsgControl (c : Z) | MsgInvalidEscape
  | MsgSurrogates (v1 v2 : Z) | MsgSurrogate (v : Z) | MsgNul | MsgBigNegative | MsgBig | MsgRealOverflow
  | MsgKey | MsgDuplicate | MsgColon | MsgBrace | MsgBracket | MsgInvalidToken | MsgUnexpectedToken
  | MsgStart | MsgEof | MsgOom.

(** What [error_set] adds to the message: the text near the error, "near end
    of file", or nothing. *)
Inductive err_context := CtxNear (text : list Z) | CtxEof | CtxNone.

(** [ph_var_err_t]; the text is empty until an error is set. *)
Record ph_var_err := Err {
  e_line : Z; e_column : Z; e_position : Z;
  e_transient : bool;
  e_text : option (err_msg * err_context);
}.

(** ** The state *)

(** The growable text buffer [saved_text]: the bytes of the block, the length
    of the text, and whether the block is on the heap yet. *)
Record text := Text { t_buf : list Z; t_len : Z; t_heap : bool }.

Definition t_bytes (t : text) : list Z := take (Z.to_nat (t_len t)) (t_buf t).

(** [lex->value]. *)
Inductive lex_value (D : Type) :=
  | ValNone
  | ValString (s : option (list Z))
  | ValInteger (z : Z)
  | ValReal (d : D).
Arguments ValNone {D}.
Arguments ValString {D}.
Arguments ValInteger {D}.
Arguments ValReal {D}.

Record stream_t (B : Type) := St {
  stm : Stream.ph_stream B;
  buffer : list Z;
  buffer_pos : Z;
  state : Z;
  line : Z;
  column : Z;
  last_column : Z;
  position : Z;
}.
Arguments St {B}.
Arguments stm {B}.
Arguments buffer {B}.
Arguments buffer_pos {B}.
Arguments state {B}.
Arguments line {B}.
Arguments column {B}.
Arguments last_column {B}.
Arguments position {B}.

Record lex_t (B D : Type) := Lex {
  stream : stream_t B;
  saved_text : text;
  token : Z;
  value : lex_value D;
}.
Arguments Lex {B D}.
Arguments stream {B D}.
Arguments saved_text {B D}.
Arguments token {B D}.
Arguments value {B D}.

(** What the reader uses of string.c besides: a new string with the given
    contents. *)
Class json_env X (env : var_env X) := {
  string_make : list Z -> X -> option positive * X;
}.

Section json.
Context {X : Type} {env : var_env X} {jenv : json_env X env} {D B : Type}.
(** The functions of the stream, and the fuel of its flush. *)
Context (funcs : Stream.ph_stream_funcs B) (rfuel : nat).
(** [strtod]: the value, the number of bytes consumed, and whether it set
    errno to ERANGE with a value other than 0; the decimal point of the locale;
    the contents of new heap blocks. *)
Context (strtod : list Z -> D * nat * bool) (decimal_point : Z) (junk : nat -> list Z).

Record jworld := JWorld {
  jw : vworld X D;
  lex : lex_t B D;
  error : option ph_var_err;
}.
Abbreviation JM := (M jworld).

Definition set_jw v (w : jworld) := JWorld v (lex w) (error w).
Definition set_lex l (w : jworld) := JWorld (jw w) l (error w).
Definition set_error e (w : jworld) := JWorld (jw w) (lex w) e.
Definition set_stream s (w : jworld) :=
  set_lex (Lex s (saved_text (lex w)) (token (lex w)) (value (lex w))) w.
Definition set_saved t (w : jworld) :=
  set_lex (Lex (stream (lex w)) t (token (lex w)) (value (lex w))) w.
Definition set_token k (w : jworld) :=
  set_lex (Lex (stream (lex w)) (saved_text (lex w)) k (value (lex w))) w.
Definition set_value v (w : jworld) :=
  set_lex (Lex (stream (lex w)) (saved_text (lex w)) (token (lex w)) v) w.

Definition on_vars {A} (f : M (vworld X D) A) : JM A := fun w =>
  match f (jw w) with
  | Ret (a, v) => Ret (a, set_jw v w)
  | Panic => Panic
  | Fault => Fault
  end.
Definition on_x {A} (f : X -> A * X) : JM A := on_vars (on_ext f).
Definition do_x (f : X -> X) : JM unit := on_vars (do_ext f).

Definition get_stream : JM (stream_t B) := w <-- get ;; ret (stream (lex w)).
Definition get_saved : JM text := w <-- get ;; ret (saved_text (lex w)).
Definition get_token : JM Z := w <-- get ;; ret (token (lex w)).

(** [assert]. *)
Definition check (b : bool) : JM unit := if b then ret tt else panic.

(** ** Error reporting *)

Definition error_set (msg : err_msg) : JM unit :=
  w <-- get ;;
  match error w with
  | None => ret tt
  | Some e =>
      match e_text e with
      | Some _ => ret tt
      | None =>
          let s := stream (lex w) in
          let t := t_bytes (saved_text (lex w)) in
          let len := match t with 0 :: _ => 0 | _ => zlen t end in
          let ctx :=
            if negb (len =? 0) then (if len <=? 20 then CtxNear t else CtxNone)
            else if state s =? STREAM_STATE_ERROR then CtxNone else CtxEof in
          modify (set_error (Some (Err (u32 (line s)) (u32 (column s)) (u32 (position s))
                                     (e_transient e) (Some (msg, ctx)))))
      end
  end.

Definition error_set_oom : JM unit :=
  w <-- get ;;
  match error w with
  | None => ret tt
  | Some e =>
      match e_text e with
      | Some _ => ret tt
      | None =>
          modify (set_error (Some (Err (e_line e) (e_column e) (e_position e) true None))) ;;;
          error_set MsgOom
      end
  end.

(** ** The stream of characters *)

Definition stream_init (s : Stream.ph_stream B) : stream_t B :=
  St s (replicate 5 0) 0 STREAM_STATE_OK 1 0 0 0.

Definition with_stm (x : Stream.ph_stream B) (s : stream_t B) : stream_t B :=
  St x (buffer s) (buffer_pos s) (state s) (line s) (column s) (last_column s) (position s).
Definition with_state x (s : stream_t B) : stream_t B :=
  St (stm s) (buffer s) (buffer_pos s) x (line s) (column s) (last_column s) (position s).
Definition with_buffer b p (s : stream_t B) : stream_t B :=
  St (stm s) b p (state s) (line s) (column s) (last_column s) (position s).
Definition with_where p l c lc ps (s : stream_t B) : stream_t B :=
  St (stm s) (buffer s) p (state s) l c lc ps.

Definition stream_getc : JM Z := fun w =>
  let s := stream (lex w) in
  match Stream.ph_stm_read funcs rfuel 1 (stm s) with
  | Ret (Some (b :: _), x) => Ret (b, set_stream (with_stm x s) w)
  | Ret (_, x) => Ret (STREAM_STATE_EOF, set_stream (with_state STREAM_STATE_EOF (with_stm x s)) w)
  | Panic => Panic
  | Fault => Fault
  end.

(** The bits of the first byte, then the continuation bytes. *)
Fixpoint check_continuation (bs : list Z) (value : Z) : option Z :=
  match bs with
  | [] => Some value
  | u :: bs =>
      if (u <? 0x80) || (0xBF <? u) then None
      else check_continuation bs (Z.shiftl value 6 + Z.land u 0x3F)
  end.

Definition utf8_check_full (bs : list Z) (size : Z) : bool :=
  match bs with
  | [] => false
  | u :: bs =>
      if negb ((size =? 2) || (size =? 3) || (size =? 4)) then false
      else
        let value := if size =? 2 then Z.land u 0x1F else if size =? 3 then Z.land u 0xF else Z.land u 0x7 in
        match check_continuation (take (Z.to_nat (size - 1)) bs) value with
        | None => false
        | Some value =>
            if 0x10FFFF <? value then false
            else if (0xD800 <=? value) && (value <=? 0xDFFF) then false
            else if ((size =? 2) && (value <? 0x80)) || ((size =? 3) && (value <? 0x800)) ||
                    ((size =? 4) && (value <? 0x10000)) then false
            else true
        end
  end.

(** The bytes [buffer[i .. i + n)] are filled from the stream. *)
Fixpoint fill (n : nat) (i : nat) : JM unit :=
  match n with
  | O => ret tt
  | S n =>
      c <-- stream_getc ;;
      s <-- get_stream ;;
      modify (set_stream (with_buffer (<[i := u8 c]> (buffer s)) (buffer_pos s) s)) ;;;
      fill n (S i)
  end.

Definition set_buffer_at (i : nat) (b : Z) : JM unit :=
  s <-- get_stream ;; modify (set_stream (with_buffer (<[i := b]> (buffer s)) (buffer_pos s) s)).

(** The [out] label of [stream_get]. *)
Definition decode_error (c : Z) : JM Z :=
  s <-- get_stream ;;
  modify (set_stream (with_state STREAM_STATE_ERROR s)) ;;;
  error_set (MsgDecode (u8 c)) ;;;
  ret STREAM_STATE_ERROR.

(** The end of [stream_get]: the next character of the buffer. *)
Definition stream_next : JM Z :=
  s <-- get_stream ;;
  b <-- of_option (buffer s !! Z.to_nat (buffer_pos s)) ;;
  let c := schar b in
  let pos := u64 (position s + 1) in
  (if c =? c_newline then
     modify (set_stream (with_where (buffer_pos s + 1) (s32 (line s + 1)) 0 (column s) pos s))
   else
     let col := if 0 <? PhString.ph_utf8_seq_len (u8 c) then s32 (column s + 1) else column s in
     modify (set_stream (with_where (buffer_pos s + 1) (line s) col (last_column s) pos s))) ;;;
  ret c.

Definition stream_get : JM Z :=
  s <-- get_stream ;;
  if negb (state s =? STREAM_STATE_OK) then ret (state s)
  else
    b <-- of_option (buffer s !! Z.to_nat (buffer_pos s)) ;;
    if negb (b =? 0) then stream_next
    else
      c <-- stream_getc ;;
      if c =? STREAM_STATE_EOF then ret c
      else
        s <-- get_stream ;;
        modify (set_stream (with_buffer (<[0%nat := u8 c]> (buffer s)) 0 s)) ;;;
        let count := PhString.ph_utf8_seq_len c in
        if count =? 0 then decode_error c
        else if 1 <? count then
          fill (Z.to_nat (count - 1)) 1 ;;;
          s <-- get_stream ;;
          if negb (utf8_check_full (buffer s) count) then decode_error c
          else set_buffer_at (Z.to_nat count) 0 ;;; stream_next
        else set_buffer_at 1 0 ;;; stream_next.

Definition stream_unget (c : Z) : JM unit :=
  if (c =? STREAM_STATE_EOF) || (c =? STREAM_STATE_ERROR) then ret tt
  else
    s <-- get_stream ;;
    check (0 <? buffer_pos s) ;;;
    let p := buffer_pos s - 1 in
    let pos := u64 (position s - 1) in
    (if c =? c_newline then
       modify (set_stream (with_where p (s32 (line s - 1)) (last_column s) (last_column s) pos s))
     else
       let col := if 0 <? PhString.ph_utf8_seq_len (u8 c) then s32 (column s - 1) else column s in
       modify (set_stream (with_where p (line s) col (last_column s) pos s))) ;;;
    b <-- of_option (buffer s !! Z.to_nat p) ;;
    check (schar b =? c).

(** ** The saved text *)

(** The [memcpy] of one byte behind the text. *)
Definition put_char (b : Z) (t : text) : text :=
  Text (<[Z.to_nat (t_len t) := b]> (t_buf t)) (u32 (t_len t + 1)) (t_heap t).

(** [ph_string_append_buf] of one byte to [saved_text], whose memtype lets it
    grow; the callers ignore the result. *)
Definition append_char (b : Z) : JM unit :=
  t <-- get_saved ;;
  if zlen (t_buf t) <? u32 (t_len t + 1) then
    let nsize := ph_power_2 (u32 (t_len t + 1)) in
    ok <-- on_x (if t_heap t then mem_realloc nsize else mem_alloc nsize) ;;
    if (ok : bool) then
      let nbuf := take (Z.to_nat nsize) (t_bytes t ++ junk (Z.to_nat nsize)) in
      modify (set_saved (put_char b (Text nbuf (t_len t) true)))
    else ret tt
  else modify (set_saved (put_char b t)).

Definition lex_get : JM Z := stream_get.
Definition lex_save (c : Z) : JM unit := append_char (u8 c).

Definition is_char (c : Z) : bool := negb (c =? STREAM_STATE_EOF) && negb (c =? STREAM_STATE_ERROR).

Definition lex_get_save : JM Z :=
  c <-- stream_get ;;
  (if is_char c then lex_save c else ret tt) ;;;
  ret c.

Definition lex_unget (c : Z) : JM unit := stream_unget c.

(** [saved_text.len--]. *)
Definition unsave : JM unit :=
  t <-- get_saved ;; modify (set_saved (Text (t_buf t) (u32 (t_len t - 1)) (t_heap t))).

Definition lex_unget_unsave (c : Z) : JM unit :=
  if is_char c then
    t <-- get_saved ;;
    check (0 <? t_len t) ;;;
    b <-- of_option (t_buf t !! Z.to_nat (t_len t - 1)) ;;
    check (schar b =? c) ;;;
    unsave ;;;
    stream_unget c
  else ret tt.

(** [fuel] is the size of the buffer. *)
Fixpoint save_cached_loop (fuel : nat) : JM unit :=
  match fuel with
  | O => fault
  | S fuel =>
      s <-- get_stream ;;
      b <-- of_option (buffer s !! Z.to_nat (buffer_pos s)) ;;
      if b =? 0 then ret tt
      else
        lex_save (schar b) ;;;
        s <-- get_stream ;;
        modify (set_stream (with_where (buffer_pos s + 1) (line s) (column s) (last_column s)
                              (u64 (position s + 1)) s)) ;;;
        save_cached_loop fuel
  end.
Definition lex_save_cached : JM unit := save_cached_loop 5.

(** ** Strings *)

(** The loop over four hex digits of [decode_unicode_escape]; [None] for the
    panic. *)
Fixpoint hex_value (ds : list Z) (value : Z) : option Z :=
  match ds with
  | [] => Some value
  | b :: ds =>
      let c := schar b in
      let value := Z.shiftl value 4 in
      if l_isdigit c then hex_value ds (value + (c - 48))
      else if l_islower c then hex_value ds (value + (c - 97 + 10))
      else if l_isupper c then hex_value ds (value + (c - 65 + 10))
      else None
  end.

(** [str] is the text from the 'u' on. *)
Definition decode_unicode_escape (str : list Z) : JM Z :=
  match str with
  | 117 :: a :: b :: c :: d :: _ =>
      match hex_value [a; b; c; d] 0 with Some v => ret v | None => panic end
  | _ => panic
  end.

(** The loop of [lex_scan_string] to the closing quote: whether it got there.
    Every iteration gets a character; [fuel] bounds them. *)
Fixpoint scan_loop (fuel : nat) (c : Z) : JM bool :=
  match fuel with
  | O => fault
  | S fuel =>
      if c =? c_quote then ret true
      else if c =? STREAM_STATE_ERROR then ret false
      else if c =? STREAM_STATE_EOF then error_set MsgPrematureEnd ;;; ret false
      else if (0 <=? c) && (c <=? 0x1F) then
        lex_unget_unsave c ;;;
        error_set (if c =? c_newline then MsgNewline else MsgControl c) ;;;
        ret false
      else if c =? c_backslash then
        c <-- lex_get_save ;;
        if c =? c_u then
          c <-- lex_get_save ;;
          if negb (l_isxdigit c) then error_set MsgInvalidEscape ;;; ret false else
          c <-- lex_get_save ;;
          if negb (l_isxdigit c) then error_set MsgInvalidEscape ;;; ret false else
          c <-- lex_get_save ;;
          if negb (l_isxdigit c) then error_set MsgInvalidEscape ;;; ret false else
          c <-- lex_get_save ;;
          if negb (l_isxdigit c) then error_set MsgInvalidEscape ;;; ret false else
          c <-- lex_get_save ;;
          scan_loop fuel c
        else if (c =? c_quote) || (c =? c_backslash) || (c =? c_slash) || (c =? 98) ||
                (c =? 102) || (c =? 110) || (c =? 114) || (c =? 116) then
          c <-- lex_get_save ;; scan_loop fuel c
        else error_set MsgInvalidEscape ;;; ret false
      else c <-- lex_get_save ;; scan_loop fuel c
  end.

(** The bytes of a code point, [None] when it is out of range. *)
Definition utf8_encode (codepoint : Z) : option (list Z) :=
  if codepoint <? 0 then None
  else if codepoint <? 0x80 then Some [u8 codepoint]
  else if codepoint <? 0x800 then
    Some [u8 (0xC0 + Z.shiftr (Z.land codepoint 0x7C0) 6); u8 (0x80 + Z.land codepoint 0x03F)]
  else if codepoint <? 0x10000 then
    Some [u8 (0xE0 + Z.shiftr (Z.land codepoint 0xF000) 12); u8 (0x80 + Z.shiftr (Z.land codepoint 0x0FC0) 6);
          u8 (0x80 + Z.land codepoint 0x003F)]
  else if codepoint <=? 0x10FFFF then
    Some [u8 (0xF0 + Z.shiftr (Z.land codepoint 0x1C0000) 18); u8 (0x80 + Z.shiftr (Z.land codepoint 0x03F000) 12);
          u8 (0x80 + Z.shiftr (Z.land codepoint 0x000FC0) 6); u8 (0x80 + Z.land codepoint 0x00003F)]
  else None.

(** [*t = b; t++] in a block of [cap] bytes, [t] holding the bytes so far. *)
Definition emit (cap : Z) (t bs : list Z) : JM (list Z) :=
  if zlen t + zlen bs <=? cap then ret (t ++ bs) else fault.

Definition escape_char (b : Z) : option Z :=
  if (b =? c_quote) || (b =? c_backslash) || (b =? c_slash) then Some b
  else if b =? 98 then Some 8
  else if b =? 102 then Some 12
  else if b =? 110 then Some 10
  else if b =? 114 then Some 13
  else if b =? 116 then Some 9
  else None.

(** The second loop of [lex_scan_string] over the saved text [p]: the decoded
    string, or [None] after an error. *)
Fixpoint decode_loop (fuel : nat) (cap : Z) (p t : list Z) : JM (option (list Z)) :=
  match fuel with
  | O => fault
  | S fuel =>
      match p with
      | [] => fault
      | b :: p1 =>
          if b =? c_quote then ret (Some t)
          else if b =? c_backslash then
            match p1 with
            | [] => fault
            | e :: p2 =>
                if e =? c_u then
                  value <-- decode_unicode_escape p1 ;;
                  let p := drop 5 p1 in
                  if (0xD800 <=? value) && (value <=? 0xDBFF) then
                    match p with
                    | 92 :: 117 :: q =>
                        value2 <-- decode_unicode_escape (117 :: q) ;;
                        let p := drop 4 q in
                        if (0xDC00 <=? value2) && (value2 <=? 0xDFFF) then
                          let value := Z.shiftl (value - 0xD800) 10 + (value2 - 0xDC00) + 0x10000 in
                          match utf8_encode value with
                          | Some bs => t <-- emit cap t bs ;; decode_loop fuel cap p t
                          | None => panic
                          end
                        else error_set (MsgSurrogates value value2) ;;; ret None
                    | _ => error_set (MsgSurrogate value) ;;; ret None
                    end
                  else if (0xDC00 <=? value) && (value <=? 0xDFFF) then
                    error_set (MsgSurrogate value) ;;; ret None
                  else if value =? 0 then error_set MsgNul ;;; ret None
                  else
                    match utf8_encode value with
                    | Some bs => t <-- emit cap t bs ;; decode_loop fuel cap p t
                    | None => panic
                    end
                else
                  match escape_char e with
                  | Some b => t <-- emit cap t [b] ;; decode_loop fuel cap p2 t
                  | None => panic
                  end
            end
          else t <-- emit cap t [b] ;; decode_loop fuel cap p1 t
      end
  end.

(** ** Scanning a token *)

(** The longest run of characters that satisfy [f], starting with [c]: the
    first one behind it. *)
Fixpoint scan_while (f : Z -> bool) (fuel : nat) (c : Z) : JM Z :=
  match fuel with
  | O => fault
  | S fuel => if f c then c <-- lex_get_save ;; scan_while f fuel c else ret c
  end.

(** [ph_mem_free(mt_json, lex->value.string)], which does nothing for NULL. *)
Definition free_value : JM unit :=
  w <-- get ;;
  match value (lex w) with ValString (Some _) => do_x mem_free | _ => ret tt end.
Definition free_string : JM unit := free_value ;;; modify (set_value (ValString None)).

Definition lex_scan_string (fuel : nat) : JM unit :=
  modify (set_value (ValString None)) ;;;
  modify (set_token TOKEN_INVALID) ;;;
  c <-- lex_get_save ;;
  closed <-- scan_loop fuel c ;;
  if negb (closed : bool) then free_string
  else
    t <-- get_saved ;;
    let cap := u32 (t_len t + 1) in
    ok <-- on_x (mem_alloc cap) ;;
    if negb (ok : bool) then error_set_oom ;;; free_string
    else
      modify (set_value (ValString (Some []))) ;;;
      decoded <-- decode_loop fuel cap (drop 1 (t_buf t)) [] ;;
      match decoded with
      | None => free_string
      | Some s =>
          if zlen s <? cap then
            modify (set_value (ValString (Some s))) ;;;
            modify (set_token TOKEN_STRING)
          else fault
      end.

(** [strtoll(s, &end, 10)] on a text with an optional sign: the value, the
    number of bytes consumed, and whether the value is out of range. *)
Fixpoint digits_value (s : list Z) (v : Z) (n : nat) : Z * nat :=
  match s with
  | c :: s => if l_isdigit c then digits_value s (10 * v + (c - 48)) (S n) else (v, n)
  | [] => (v, n)
  end.
Definition strtoll (s : list Z) : Z * nat * bool :=
  let '(neg, s, n0) := match s with
                       | 45 :: s => (true, s, 1%nat)
                       | 43 :: s => (false, s, 1%nat)
                       | _ => (false, s, 0%nat)
                       end in
  let '(m, n) := digits_value s 0 n0 in
  let v := if (neg : bool) then - m else m in
  if v <? - 2 ^ 63 then (- 2 ^ 63, n, true)
  else if 2 ^ 63 - 1 <? v then (2 ^ 63 - 1, n, true)
  else (v, n, false).

(** The first '.' of the text becomes the decimal point of the locale. *)
Fixpoint replace_dot (n : nat) (s : list Z) : list Z :=
  match n, s with
  | S n, b :: s => if b =? c_dot then decimal_point :: s else b :: replace_dot n s
  | _, _ => s
  end.

(** [None] for -1.  [strtod] reads the buffer past the text, to the first byte
    that does not belong to a number. *)
Definition ugh_strtod : JM (option D) :=
  (if negb (decimal_point =? c_dot) then
     t <-- get_saved ;;
     modify (set_saved (Text (replace_dot (Z.to_nat (t_len t)) (t_buf t)) (t_len t) (t_heap t)))
   else ret tt) ;;;
  t <-- get_saved ;;
  let '(v, n, overflow) := strtod (t_buf t) in
  if zlen (t_buf t) <=? Z.of_nat n then fault
  else
    check (Z.of_nat n =? t_len t) ;;;
    ret (if (overflow : bool) then None else Some v).

(** The integer branch of [lex_scan_number]: true for 0. *)
Definition scan_integer (c : Z) : JM bool :=
  lex_unget_unsave c ;;;
  append_char 0 ;;;
  t <-- get_saved ;;
  let '(ivalue, n, range) := strtoll (t_buf t) in
  unsave ;;;
  if (range : bool) then
    error_set (if ivalue <? 0 then MsgBigNegative else MsgBig) ;;; ret false
  else
    t <-- get_saved ;;
    check (Z.of_nat n =? t_len t) ;;;
    modify (set_token TOKEN_INTEGER) ;;;
    modify (set_value (ValInteger ivalue)) ;;;
    ret true.

(** The exponent and the end of [lex_scan_number]. *)
Definition scan_real_end (c : Z) : JM bool :=
  lex_unget_unsave c ;;;
  r <-- ugh_strtod ;;
  match r with
  | None => error_set MsgRealOverflow ;;; ret false
  | Some v => modify (set_token TOKEN_REAL) ;;; modify (set_value (ValReal v)) ;;; ret true
  end.

Definition scan_exponent (fuel : nat) (c : Z) : JM bool :=
  if (c =? c_E) || (c =? c_e) then
    c <-- lex_get_save ;;
    c <-- (if (c =? c_plus) || (c =? c_minus) then lex_get_save else ret c) ;;
    if negb (l_isdigit c) then lex_unget_unsave c ;;; ret false
    else
      c <-- lex_get_save ;;
      c <-- scan_while l_isdigit fuel c ;;
      scan_real_end c
  else scan_real_end c.

Definition scan_fraction (fuel : nat) (c : Z) : JM bool :=
  if c =? c_dot then
    c <-- lex_get ;;
    if negb (l_isdigit c) then lex_unget c ;;; ret false
    else
      lex_save c ;;;
      c <-- lex_get_save ;;
      c <-- scan_while l_isdigit fuel c ;;
      scan_exponent fuel c
  else scan_exponent fuel c.

Definition scan_number_end (fuel : nat) (c : Z) : JM bool :=
  if negb (c =? c_dot) && negb (c =? c_E) && negb (c =? c_e) then scan_integer c
  else scan_fraction fuel c.

(** True for 0. *)
Definition lex_scan_number (fuel : nat) (c : Z) : JM bool :=
  modify (set_token TOKEN_INVALID) ;;;
  c <-- (if c =? c_minus then lex_get_save else ret c) ;;
  if c =? c_zero then
    c <-- lex_get_save ;;
    if l_isdigit c then lex_unget_unsave c ;;; ret false
    else scan_number_end fuel c
  else if l_isdigit c then
    c <-- lex_get_save ;;
    c <-- scan_while l_isdigit fuel c ;;
    scan_number_end fuel c
  else lex_unget_unsave c ;;; ret false.

Definition is_space (c : Z) : bool := (c =? 32) || (c =? 9) || (c =? c_newline) || (c =? 13).

Fixpoint skip_space (fuel : nat) (c : Z) : JM Z :=
  match fuel with
  | O => fault
  | S fuel => if is_space c then c <-- lex_get ;; skip_space fuel c else ret c
  end.

Definition is_punct (c : Z) : bool :=
  (c =? c_lbrace) || (c =? c_rbrace) || (c =? c_lbracket) || (c =? c_rbracket) || (c =? c_colon) || (c =? c_comma).

(** [ph_string_equal_cstr(&lex->saved_text, "...")]. *)
Definition saved_is (t : text) (s : list Z) : bool :=
  (zlen s =? t_len t) && (PhString.memcmp (t_bytes t) s =? 0).

(** The identifier branch of [lex_scan]. *)
Definition scan_word (fuel : nat) : JM unit :=
  c <-- lex_get_save ;;
  c <-- scan_while l_isalpha fuel c ;;
  lex_unget_unsave c ;;;
  t <-- get_saved ;;
  modify (set_token
    (if saved_is t [116; 114; 117; 101] then TOKEN_TRUE
     else if saved_is t [102; 97; 108; 115; 101] then TOKEN_FALSE
     else if saved_is t [110; 117; 108; 108] then TOKEN_NULL
     else TOKEN_INVALID)).

(** [fuel] bounds the characters of a token. *)
Definition lex_scan (fuel : nat) : JM unit :=
  t <-- get_saved ;;
  modify (set_saved (Text (t_buf t) 0 (t_heap t))) ;;;
  k <-- get_token ;;
  (if k =? TOKEN_STRING then free_string else ret tt) ;;;
  c <-- lex_get ;;
  c <-- skip_space fuel c ;;
  if c =? STREAM_STATE_EOF then modify (set_token TOKEN_EOF)
  else if c =? STREAM_STATE_ERROR then modify (set_token TOKEN_INVALID)
  else
    lex_save c ;;;
    if is_punct c then modify (set_token c)
    else if c =? c_quote then lex_scan_string fuel
    else if l_isdigit c || (c =? c_minus) then lex_scan_number fuel c ;;; ret tt
    else if l_isalpha c then scan_word fuel
    else lex_save_cached ;;; modify (set_token TOKEN_INVALID).

(** The bytes of a C string before its NUL. *)
Fixpoint cstr (s : list Z) : list Z :=
  match s with [] => [] | b :: s => if b =? 0 then [] else b :: cstr s end.

(** [None] is NULL; on success the string owns the text. *)
Definition lex_steal_string : JM (option positive) :=
  w <-- get ;;
  if negb (token (lex w) =? TOKEN_STRING) then ret None
  else
    match value (lex w) with
    | ValString (Some s) =>
        str <-- on_x (string_make (cstr s)) ;;
        match str with
        | Some p => modify (set_value (ValString None)) ;;; ret (Some p)
        | None => ret None
        end
    | _ => fault
    end.

Definition lex_init (s : Stream.ph_stream B) : lex_t B D :=
  Lex (stream_init s) (Text (replicate 512 0) 0 false) TOKEN_INVALID ValNone.

Definition lex_close : JM unit :=
  w <-- get ;;
  (if token (lex w) =? TOKEN_STRING then free_value else ret tt) ;;;
  if t_heap (saved_text (lex w)) then do_x mem_free else ret tt.

(** ** The parser *)

Definition var_delref (p : positive) : JM unit := on_vars (ph_var_delref p).
Definition key_delref (k : positive) : JM unit := do_x (string_delref k).

(** The end of a failed container. *)
Definition release_none (p : positive) : JM (option positive) := var_delref p ;;; ret None.

Definition load_var (p : positive) : JM (ph_variant D) := on_vars (load p).

(** [error_set_oom] for a NULL result. *)
Definition or_oom (p : option positive) : JM (option positive) :=
  match p with None => error_set_oom ;;; ret None | Some _ => ret p end.

(** The string branch of [parse_value]. *)
Definition parse_string : JM (option positive) :=
  w <-- get ;;
  match value (lex w) with
  | ValString (Some s) =>
      str <-- on_x (string_make (cstr s)) ;;
      match str with
      | None => or_oom None
      | Some k =>
          json <-- on_vars (ph_var_string_claim (Some k)) ;;
          (match json with None => key_delref k | Some _ => ret tt end) ;;;
          or_oom json
      end
  | _ => fault
  end.

(** [fuel] bounds the nesting and the members, [lf] the characters of a token.
    [obj_loop] and [arr_loop] are the loops of [parse_object] and
    [parse_array]. *)
Fixpoint parse_value (lf fuel : nat) (flags : Z) : JM (option positive) :=
  match fuel with
  | O => fault
  | S fuel =>
      w <-- get ;;
      let k := token (lex w) in
      if k =? TOKEN_STRING then parse_string
      else if k =? TOKEN_INTEGER then
        match value (lex w) with
        | ValInteger z => p <-- on_vars (ph_var_int z) ;; or_oom p
        | _ => fault
        end
      else if k =? TOKEN_REAL then
        match value (lex w) with
        | ValReal d => p <-- on_vars (ph_var_double d) ;; or_oom p
        | _ => fault
        end
      else if k =? TOKEN_TRUE then p <-- on_vars (ph_var_bool true) ;; ret (Some p)
      else if k =? TOKEN_FALSE then p <-- on_vars (ph_var_bool false) ;; ret (Some p)
      else if k =? TOKEN_NULL then p <-- on_vars ph_var_null ;; ret (Some p)
      else if k =? c_lbrace then
        object <-- on_vars (ph_var_object 8) ;;
        match object with
        | None => or_oom None
        | Some object =>
            lex_scan lf ;;;
            k <-- get_token ;;
            if k =? c_rbrace then ret (Some object) else obj_loop lf fuel flags object
        end
      else if k =? c_lbracket then
        array <-- on_vars (ph_var_array 8) ;;
        match array with
        | None => or_oom None
        | Some array =>
            lex_scan lf ;;;
            k <-- get_token ;;
            if k =? c_rbracket then ret (Some array) else arr_loop lf fuel flags array
        end
      else if k =? TOKEN_INVALID then error_set MsgInvalidToken ;;; ret None
      else error_set MsgUnexpectedToken ;;; ret None
  end
with obj_loop (lf fuel : nat) (flags : Z) (object : positive) : JM (option positive) :=
  match fuel with
  | O => fault
  | S fuel =>
      k <-- get_token ;;
      if negb (k =? TOKEN_STRING) then error_set MsgKey ;;; release_none object
      else
        key <-- lex_steal_string ;;
        match key with
        | None => ret None
        | Some key =>
            v <-- load_var object ;;
            if negb (Z.land flags PH_JSON_REJECT_DUPLICATES =? 0) &&
               (if ph_var_object_get (X := X) v key then true else false) then
              key_delref key ;;; error_set MsgDuplicate ;;; release_none object
            else
              lex_scan lf ;;;
              k <-- get_token ;;
              if negb (k =? c_colon) then key_delref key ;;; error_set MsgColon ;;; release_none object
              else
                lex_scan lf ;;;
                value <-- parse_value lf fuel flags ;;
                match value with
                | None => key_delref key ;;; release_none object
                | Some value =>
                    res <-- on_vars (ph_var_object_set_claim_kv object key value) ;;
                    match res with
                    | PH_OK =>
                        lex_scan lf ;;;
                        k <-- get_token ;;
                        if k =? c_comma then lex_scan lf ;;; obj_loop lf fuel flags object
                        else if k =? c_rbrace then ret (Some object)
                        else error_set MsgBrace ;;; release_none object
                    | _ =>
                        error_set_oom ;;; key_delref key ;;; var_delref value ;;; release_none object
                    end
                end
        end
  end
with arr_loop (lf fuel : nat) (flags : Z) (array : positive) : JM (option positive) :=
  match fuel with
  | O => fault
  | S fuel =>
      k <-- get_token ;;
      if k =? TOKEN_EOF then error_set MsgBracket ;;; release_none array
      else
        elem <-- parse_value lf fuel flags ;;
        match elem with
        | None => release_none array
        | Some elem =>
            res <-- on_vars (ph_var_array_append_claim array elem) ;;
            match res with
            | PH_OK =>
                lex_scan lf ;;;
                k <-- get_token ;;
                if k =? c_comma then lex_scan lf ;;; arr_loop lf fuel flags array
                else if k =? c_rbracket then ret (Some array)
                else error_set MsgBracket ;;; release_none array
            | _ => error_set_oom ;;; var_delref elem ;;; release_none array
            end
        end
  end.

Definition parse_json (lf fuel : nat) (flags : Z) : JM (option positive) :=
  w <-- get ;;
  (match error w with
   | Some e => modify (set_error (Some (Err (e_line e) (e_column e) (e_position e) false None)))
   | None => ret tt
   end) ;;;
  lex_scan lf ;;;
  k <-- get_token ;;
  if (Z.land flags PH_JSON_DECODE_ANY =? 0) && negb (k =? c_lbracket) && negb (k =? c_lbrace) then
    error_set MsgStart ;;; ret None
  else
    result <-- parse_value lf fuel flags ;;
    match result with
    | None => ret None
    | Some result =>
        ok <-- (if Z.land flags PH_JSON_DISABLE_EOF_CHECK =? 0 then
                  lex_scan lf ;;;
                  k <-- get_token ;;
                  if negb (k =? TOKEN_EOF) then error_set MsgEof ;;; var_delref result ;;; ret false
                  else ret true
                else ret true) ;;
        if (ok : bool) then
          w <-- get ;;
          (match error w with
           | Some e => modify (set_error (Some (Err (e_line e) (e_column e)
               (u32 (position (stream (lex w)))) (e_transient e) (e_text e))))
           | None => ret tt
           end) ;;;
          ret (Some result)
        else ret None
    end.

(** The variant or NULL, with the variants, the stream and the error
    afterwards. *)
Definition ph_json_load_stream (lf fuel : nat) (s : Stream.ph_stream B) (flags : Z)
    (err : option ph_var_err) (v : vworld X D) :
    outcome (option positive * (vworld X D * Stream.ph_stream B * option ph_var_err)) :=
  match (r <-- parse_json lf fuel flags ;; lex_close ;;; ret r) (JWorld v (lex_init s) err) with
  | Ret (r, w) => Ret (r, (jw w, stm (stream (lex w)), error w))
  | Panic => Panic
  | Fault => Fault
  end.

(** [ph_var_string_make_cstr], which is here for its memtype. *)
Definition ph_var_string_make_cstr (s : list Z) : M (vworld X D) (option positive) :=
  str <-- on_ext (string_make (cstr s)) ;;
  match str with
  | None => ret None
  | Some k =>
      var <-- ph_var_string_claim (Some k) ;;
      (match var with None => do_ext (string_delref k) | Some _ => ret tt end) ;;;
      ret var
  end.

Definition ph_var_object_set_claim_cstr (obj : positive) (s : list Z) (val : positive) :
    M (vworld X D) ph_result_t :=
  str <-- on_ext (string_make (cstr s)) ;;
  match str with
  | None => ret PH_NOMEM
  | Some k =>
      res <-- ph_var_object_set_claim_kv obj k val ;;
      (match res with PH_OK => ret tt | _ => do_ext (string_delref k) end) ;;;
      ret res
  end.

End json.
End JsonLoad.
