(* ===== verification/JsonDump.v ===== *)
(** * The JSON writer: corelib/variant/json-dump.c

    The value is written to a stream piece by piece.  A function of the source
    that returns 0 returns [true] here, [false] stands for -1.  The result of
    a write is taken for complete: the number of bytes written is not looked
    at. *)

From Stdlib Require Import ZArith Lia.
From stdpp Require Import base numbers list gmap.
From S2P Require Import Prelude SysUtil PhString HashTable Stream Variant.

Module JsonDump.
Import Variant.

Definition PH_JSON_INDENT (n : Z) : Z := Z.land n 0x1F.
Definition PH_JSON_COMPACT : Z := 0x20.
Definition PH_JSON_ENSURE_ASCII : Z := 0x40.
Definition PH_JSON_SORT_KEYS : Z := 0x80.
Definition PH_JSON_ESCAPE_SLASH : Z := 0x100.

Definition flag (flags f : Z) : bool := negb (Z.land flags f =? 0).

(** 32 spaces, the maximum indentation. *)
Definition whitespace : list Z := replicate 32 32.

(** ["%04x"] of a value below 0x10000. *)
Definition hex_digit (d : Z) : Z := if d <? 10 then 48 + d else 97 + (d - 10).
Definition fmt_04x (n : Z) : list Z :=
  [hex_digit (Z.land (Z.shiftr n 12) 15); hex_digit (Z.land (Z.shiftr n 8) 15);
   hex_digit (Z.land (Z.shiftr n 4) 15); hex_digit (Z.land n 15)].

(** ["%" PRIi64]: the sign and the decimal digits; a 64-bit value has at most
    19 of them. *)
Fixpoint dec_digits (fuel : nat) (n : Z) : list Z :=
  match fuel with
  | O => []
  | S fuel => if n <? 10 then [48 + n] else dec_digits fuel (n / 10) ++ [48 + n mod 10]
  end.
Definition fmt_i64 (z : Z) : list Z :=
  if z <? 0 then 45 :: dec_digits 20 (- z) else dec_digits 20 z.

(** The text written for a character that is escaped. *)
Definition escape_text (codepoint : Z) : list Z :=
  if codepoint =? 92 then [92; 92]
  else if codepoint =? 34 then [92; 34]
  else if codepoint =? 8 then [92; 98]
  else if codepoint =? 12 then [92; 102]
  else if codepoint =? 10 then [92; 110]
  else if codepoint =? 13 then [92; 114]
  else if codepoint =? 9 then [92; 116]
  else if codepoint =? 47 then [92; 47]
  else if codepoint <? 0x10000 then 92 :: 117 :: fmt_04x codepoint
  else
    let codepoint := codepoint - 0x10000 in
    let first := Z.lor 0xD800 (Z.shiftr (Z.land codepoint 0xffc00) 10) in
    let last := Z.lor 0xDC00 (Z.land codepoint 0x003ff) in
    (92 :: 117 :: fmt_04x first) ++ (92 :: 117 :: fmt_04x last).

(** Whether a character is escaped. *)
Definition needs_escape (flags codepoint : Z) : bool :=
  (codepoint =? 92) || (codepoint =? 34) || (codepoint <? 0x20) ||
  (flag flags PH_JSON_ESCAPE_SLASH && (codepoint =? 47)) ||
  (flag flags PH_JSON_ENSURE_ASCII && (0x7F <? codepoint)).

(** [strchr(buffer, c)]: the text before and from the first [c] on. *)
Fixpoint strchr (c : Z) (s : list Z) : option (list Z * list Z) :=
  match s with
  | [] => None
  | b :: s' => if b =? c then Some ([], s)
               else match strchr c s' with Some (p, q) => Some (b :: p, q) | None => None end
  end.

Fixpoint skip_zeros (s : list Z) : list Z :=
  match s with 48 :: s => skip_zeros s | _ => s end.

(** The clean-up of the exponent, [post] being what follows the 'e'; [None]
    when there is nothing. *)
Definition fix_exponent (pre post : list Z) : option (list Z) :=
  match post with
  | [] => None
  | 45 :: r => Some (pre ++ [101; 45] ++ skip_zeros r)
  | _ :: r => Some (pre ++ [101] ++ skip_zeros r)
  end.

(** The text of a double, from what ["%.17g"] printed: [None] for -1,
    [Some None] when it reads past the text. *)
Definition real_text (buf : list Z) : option (option (list Z)) :=
  let size := 64 in
  if size <=? zlen buf then None
  else
    match (match strchr 46 buf, strchr 101 buf with
           | None, None => if size <=? zlen buf + 3 then None else Some (buf ++ [46; 48])
           | _, _ => Some buf
           end) with
    | None => None
    | Some buf =>
        match strchr 101 buf with
        | None => Some (Some buf)
        | Some (pre, rest) => Some (fix_exponent pre (tail rest))
        end
    end.

Section dump.
Context {X : Type} {env : var_env X} {D B : Type}.
Context (funcs : Stream.ph_stream_funcs B) (wfuel : nat).
(** [ph_snprintf] with ["%.17g"]. *)
Context (fmt_17g : D -> list Z).

Record dworld := DWorld { dvars : vworld X D; stm : Stream.ph_stream B }.
Abbreviation DM := (M dworld).

Definition on_vars {A} (f : M (vworld X D) A) : DM A := fun w =>
  match f (dvars w) with
  | Ret (a, v) => Ret (a, DWorld v (stm w))
  | Panic => Panic
  | Fault => Fault
  end.

Definition dump (bs : list Z) : DM bool := fun w =>
  match Stream.ph_stm_write funcs wfuel bs (stm w) with
  | Ret ((ok, _), s) => Ret (ok, DWorld (dvars w) s)
  | Panic => Panic
  | Fault => Fault
  end.

(** [if (a) return -1;] before [b]. *)
Definition and_then (a b : DM bool) : DM bool :=
  ok <-- a ;; if (ok : bool) then b else ret false.

Fixpoint indent_loop (depth : nat) (ws_count : Z) : DM bool :=
  match depth with
  | O => ret true
  | S depth => and_then (dump (take (Z.to_nat ws_count) whitespace)) (indent_loop depth ws_count)
  end.

Definition dump_indent (flags : Z) (depth : nat) (space : bool) : DM bool :=
  if 0 <? PH_JSON_INDENT flags then
    and_then (dump [10]) (indent_loop depth (PH_JSON_INDENT flags))
  else if space && negb (flag flags PH_JSON_COMPACT) then dump [32]
  else ret true.

(** The loop of [dump_string] over the contents [s]; a character that is
    decoded takes at least a byte, which [fuel] bounds. *)
Fixpoint string_loop (fuel : nat) (s : list Z) (flags off pos : Z) : DM bool :=
  match fuel with
  | O => fault
  | S fuel =>
      match PhString.iterate_utf8 s off with
      | (PH_OK, codepoint, off) =>
          and_then
            (dump (if needs_escape flags codepoint then escape_text codepoint
                   else slice (Z.to_nat pos) (Z.to_nat (off - pos)) s))
            (string_loop fuel s flags off off)
      | (PH_DONE, _, _) => dump [34]
      | _ => ret false
      end
  end.

Definition dump_string (str : positive) (flags : Z) : DM bool :=
  let s := contents_of str in
  and_then (dump [34]) (string_loop (S (length s)) s flags 0 0).

Definition dump_real (value : D) : DM bool :=
  match real_text (fmt_17g value) with
  | None => ret false
  | Some None => fault
  | Some (Some t) => dump t
  end.

Definition load_var (p : positive) : DM (ph_variant D) := on_vars (load p).

Definition separator (flags : Z) : list Z := if flag flags PH_JSON_COMPACT then [58] else [58; 32].

(** The rest of the loop of [dump_array] from index [i] on, [n] being the
    number of elements and [go] [do_dump] on elements. *)
Fixpoint array_loop (go : positive -> DM bool) (json : positive) (flags : Z) (depth : nat) (n i : Z)
    (k : nat) : DM bool :=
  match k with
  | O => dump [93]
  | S k =>
      v <-- load_var json ;;
      p <-- of_option (ph_var_array_get v i) ;;
      and_then (go p)
        (and_then
           (if i <? n - 1 then and_then (dump [44]) (dump_indent flags (S depth) true)
            else dump_indent flags depth false)
           (array_loop go json flags depth n (u32 (i + 1)) k))
  end.

Definition dump_array (go : positive -> DM bool) (json : positive) (flags : Z) (depth : nat) : DM bool :=
  v <-- load_var json ;;
  let n := ph_var_array_size v in
  and_then (dump [91])
    (if n =? 0 then dump [93]
     else and_then (dump_indent flags (S depth) false)
            (array_loop go json flags depth n 0 (Z.to_nat n))).

(** [go depth] is [do_dump] at that depth. *)
Definition dump_obj_elem (go : nat -> positive -> DM bool) (key value : positive) (flags : Z) (depth : nat)
    (last : bool) : DM bool :=
  and_then (dump_string key flags)
    (and_then (dump (separator flags))
       (and_then (go (S depth) value)
          (if last then dump_indent flags depth false
           else and_then (dump [44]) (dump_indent flags (S depth) true)))).

(** The do-while loops of [dump_obj]: [r] is what the iterator has just
    returned, [i] the entries written; [next] advances the iterator. *)
Fixpoint obj_loop {I : Type} (next : I -> DM (option (positive * positive) * I))
    (go : nat -> positive -> DM bool) (flags : Z) (depth : nat) (n : Z)
    (fuel : nat) (i : Z) (r : option (positive * positive)) (iter : I) : DM (bool * I) :=
  match r with
  | None => ret (true, iter)
  | Some (key, val) =>
      match fuel with
      | O => fault
      | S fuel =>
          let i := u32 (i + 1) in
          ok <-- dump_obj_elem go key val flags (S depth) (n <=? i) ;;
          if (ok : bool) then
            let* (r, iter) := next iter in
            obj_loop next go flags depth n fuel i r iter
          else ret (false, iter)
      end
  end.

Definition dump_obj (go : nat -> positive -> DM bool) (json : positive) (flags : Z) (depth : nat) : DM bool :=
  v <-- load_var json ;;
  let n := ph_var_object_size v in
  if n =? 0 then dump [123; 125]
  else
    and_then (dump [123])
      (and_then (dump_indent flags (S depth) false)
         (ok <-- (if flag flags PH_JSON_SORT_KEYS then
                    let* (r, iter) := on_vars (ph_var_object_ordered_iter_first json) in
                    let* (ok, iter) := obj_loop (fun it => on_vars (ph_var_object_ordered_iter_next json it))
                                         go flags depth n (Z.to_nat n) 0 r iter in
                    if (ok : bool) then on_vars (ph_var_object_ordered_iter_end json iter) ;;; ret true
                    else ret false
                  else
                    let* (r, iter) := on_vars (ph_var_object_iter_first json) in
                    let* (ok, _) := obj_loop (fun it => on_vars (ph_var_object_iter_next json it))
                                      go flags depth n (Z.to_nat n) 0 r iter in
                    ret ok) ;;
          if (ok : bool) then dump [125] else ret false)).

(** [fuel] bounds the depth of the value. *)
Fixpoint do_dump (fuel : nat) (flags : Z) (depth : nat) (json : positive) : DM bool :=
  match fuel with
  | O => fault
  | S fuel =>
      v <-- load_var json ;;
      match body v with
      | PH_VAR_NULL => dump [110; 117; 108; 108]
      | PH_VAR_TRUE => dump [116; 114; 117; 101]
      | PH_VAR_FALSE => dump [102; 97; 108; 115; 101]
      | PH_VAR_INTEGER z => dump (fmt_i64 z)
      | PH_VAR_REAL d => dump_real d
      | PH_VAR_STRING s => dump_string s flags
      | PH_VAR_ARRAY _ _ => dump_array (do_dump fuel flags (S depth)) json flags depth
      | PH_VAR_OBJECT _ => dump_obj (do_dump fuel flags) json flags depth
      end
  end.

Definition ph_json_dump_stream (fuel : nat) (var : positive) (flags : Z) : DM ph_result_t :=
  ok <-- do_dump fuel flags 0 var ;;
  ret (if (ok : bool) then PH_OK else PH_ERR).

End dump.
End JsonDump.
