(* ===== verification/JsonLexProofs.v ===== *)
(** * The lexer of the JSON reader, character by character

    On well-formed input without NUL characters the lexer reads the bytes in
    order, can step back one character, and collects what it reads in the
    text buffer. *)

From Stdlib Require Import ZArith Lia.
From stdpp Require Import base numbers list gmap.
From S2P Require Import Prelude SysUtil PhString PhStringUtf8 HashTable StringKeys Stream StreamProofs.
From S2P Require Import Variant VariantProofs JsonLoad.

Module JsonLexProofs.
Export Variant JsonLoad.
Import PhStringUtf8.

(** What the reader relies on: memory does not run out, and a new string has
    the contents asked for and one reference. *)
Class plenty {X} (env : var_env X) (jenv : json_env X env) (srefs : X -> positive -> Z) : Prop := {
  plenty_alloc n x : (mem_alloc n x).1 = true;
  plenty_realloc n x : (mem_realloc n x).1 = true;
  plenty_string bs x : exists p x', string_make bs x = (Some p, x') /\ contents_of p = bs /\
    forall t, srefs x' t = srefs x t + (if decide (p = t) then 1 else 0);
}.

Lemma check_continuation_eq bs v : check_continuation bs v = PhString.continuation bs v.
Proof. revert v. induction bs as [|u bs IH]; intros v; [done|]. cbn. case_bool; [done|apply IH]. Qed.

Lemma utf8_encode_eq cp : utf8_encode cp = PhString.utf8_encode cp.
Proof. done. Qed.

(** The bytes of a scalar value that is not ASCII pass the check. *)
Lemma check_full_ok cp bs rest :
  scalar cp -> utf8_encode cp = Some bs -> (2 <= length bs)%nat -> utf8_check_full (bs ++ rest) (zlen bs) = true.
Proof.
  intros Hs He Hl. destruct (decode_encode cp bs Hs He) as (first & r & -> & Hd & Hlen & Hb).
  unfold decode in Hd. apply Forall_cons in Hb as [Hf _].
  destruct (seq_len_cases first Hf) as [(Hq & _ & _)|[(Hq & Hr & Hfb)|[(Hq & Hr & Hfb)|[(Hq & Hr & Hfb)|Hq]]]];
    rewrite Hq in Hlen, Hd; cbn [length] in Hlen, Hl; try lia.
  all: unfold utf8_check_full; cbn [app length]; rewrite <- Hlen; cbn [Z.eqb Pos.eqb orb negb].
  all: rewrite check_continuation_eq, take_app_length' by lia.
  all: unfold PhString.first_bits in Hd; rewrite (proj2 (Z.ltb_ge _ _)) in Hd by lia.
  all: repeat (rewrite (proj2 (Z.leb_gt _ _)) in Hd by lia); repeat (rewrite (proj2 (Z.leb_le _ _)) in Hd by lia).
  all: revert Hd; cbn [Z.eqb Pos.eqb andb orb]; destruct (PhString.continuation r _) as [v|]; [|done];
    repeat (case_bool; [done|]); done.
Qed.

Lemma splice_cons {A} i (b : A) bs l :
  (i + S (length bs) <= length l)%nat -> splice (S i) bs (<[i := b]> l) = splice i (b :: bs) l.
Proof.
  intros Hi. apply list_eq. intros j. destruct (decide (j < i)%nat).
  { rewrite !lookup_splice_old, list_lookup_insert_ne by (rewrite ?length_insert; cbn; lia). done. }
  destruct (decide (j < S i + length bs)%nat).
  2:{ rewrite !lookup_splice_old, list_lookup_insert_ne by (rewrite ?length_insert; cbn; lia). done. }
  rewrite (lookup_splice_new i) by (cbn; lia). destruct (decide (j = i)) as [->|].
  - rewrite lookup_splice_old, list_lookup_insert_eq by (rewrite ?length_insert; lia). by rewrite Nat.sub_diag.
  - rewrite lookup_splice_new by (rewrite ?length_insert; lia). by replace (j - i)%nat with (S (j - S i)) by lia.
Qed.

Section lexer.
Context {X : Type} {env : var_env X} {jenv : json_env X env} {D B : Type}.
Context (funcs : Stream.ph_stream_funcs B) (rfuel : nat).
Context (inv : B -> Prop) (rest : B -> list Z) `{Hsrc : !StreamProofs.source funcs inv rest (fun _ => False)}.
Abbreviation jworld := (@jworld X D B).
Abbreviation stream_getc := (stream_getc funcs rfuel).
Abbreviation stream_get := (stream_get funcs rfuel).
Implicit Types w : jworld.
Implicit Types s : stream_t B.

(** The stream delivers the bytes [l]. *)
Definition stm_at (x : Stream.ph_stream B) (l : list Z) : Prop :=
  StreamProofs.stm_ok x /\ inv (Stream.cookie x) /\ StreamProofs.pending x = [] /\ StreamProofs.unread rest x = l.

Lemma getc_char w b l :
  stm_at (stm (stream (lex w))) (b :: l) ->
  exists x, stream_getc w = Ret (b, set_stream (with_stm x (stream (lex w))) w) /\ stm_at x l.
Proof.
  intros (Hok & Hinv & Hp & Hu). unfold stream_getc, JsonLoad.stream_getc. cbv zeta.
  destruct (StreamProofs.stm_read_ok funcs inv rest (fun _ => False) rfuel 1 _ Hok Hinv Hp)
    as (r & x & E & Hok' & Hinv' & Hp' & Hr); [lia|]. rewrite E. destruct r as [bs|].
  - destruct Hr as (Hun & Hle & Hne & _). destruct bs as [|c [|d bs]]; [by destruct (Hne ltac:(lia))| |simpl in Hle; lia].
    rewrite Hu in Hun. injection Hun as -> Hl. by exists x.
  - destruct Hr as (_ & [[_ Hn]|[_ []]]). congruence.
Qed.

Lemma getc_eof w :
  stm_at (stm (stream (lex w))) [] ->
  exists x, stream_getc w = Ret (STREAM_STATE_EOF, set_stream (with_state STREAM_STATE_EOF
    (with_stm x (stream (lex w)))) w) /\ stm_at x [].
Proof.
  intros (Hok & Hinv & Hp & Hu). unfold stream_getc, JsonLoad.stream_getc. cbv zeta.
  destruct (StreamProofs.stm_read_ok funcs inv rest (fun _ => False) rfuel 1 _ Hok Hinv Hp)
    as (r & x & E & Hok' & Hinv' & Hp' & Hr); [lia|]. rewrite E. destruct r as [bs|].
  - destruct Hr as (Hun & _ & Hne & _). rewrite Hu in Hun. symmetry in Hun. apply app_eq_nil in Hun as [-> _].
    by destruct (Hne ltac:(lia)).
  - destruct Hr as (Hun & _). exists x. split; [done|]. split_and!; try done. congruence.
Qed.

(** A byte of a UTF-8 text other than NUL. *)
Definition char (b : Z) : Prop := 0 < b < 0xfe.

(** Characters [pre] of the buffer have been read, [cached] not yet, and the
    stream has [unr]. *)
Record at_chars s (pre cached unr : list Z) : Prop := {
  ac_stm : stm_at (stm s) unr;
  ac_state : state s = STREAM_STATE_OK;
  ac_pos : buffer_pos s = zlen pre;
  ac_buf : exists post, buffer s = pre ++ cached ++ 0 :: post;
  ac_len : length (buffer s) = 5%nat;
  ac_char : Forall char cached;
}.

Lemma next_char w b pre cached unr :
  at_chars (stream (lex w)) pre (b :: cached) unr ->
  exists s', stream_next w = Ret (schar b, set_stream s' w) /\ at_chars s' (pre ++ [b]) cached unr.
Proof.
  intros [Hs Hst Hp [post Hb] Hl Hc]. unfold stream_next. step.
  assert (buffer (stream (lex w)) !! Z.to_nat (buffer_pos (stream (lex w))) = Some b) as Hlk.
  { rewrite Hp, Hb, Nat2Z.id. by rewrite lookup_app_r, Nat.sub_diag by lia. }
  rewrite Hlk. step. apply Forall_cons in Hc as [_ Hc].
  destruct (schar b =? c_newline); step; eexists; (split; [reflexivity|]).
  all: split; cbn; try done; [rewrite Hp, length_app; cbn; lia|exists post; by rewrite Hb, <- app_assoc].
Qed.

Lemma set_stream_stream w s : stream (lex (set_stream s w)) = s.
Proof. done. Qed.
Lemma set_stream_twice w s s' : set_stream s (set_stream s' w) = set_stream s w.
Proof. done. Qed.

Lemma fill_ok bs : forall i w l,
  stm_at (stm (stream (lex w))) (bs ++ l) -> Forall is_byte bs ->
  (i + length bs <= length (buffer (stream (lex w))))%nat ->
  exists x, fill funcs rfuel (length bs) i w =
      Ret (tt, set_stream (with_stm x (with_buffer (splice i bs (buffer (stream (lex w))))
        (buffer_pos (stream (lex w))) (stream (lex w)))) w) /\ stm_at x l.
Proof.
  induction bs as [|b bs IH]; intros i w l Hs Hb Hi; cbn [length fill].
  - exists (stm (stream (lex w))). split; [|done]. unfold splice. cbn. rewrite Nat.add_0_r, take_drop.
    destruct w as [v [s t k u] e]. by destruct s.
  - destruct (getc_char w b (bs ++ l) Hs) as (x & E & Hx). step_with E. step. step.
    apply Forall_cons in Hb as [Hb1 Hb]. unfold is_byte in Hb1. rewrite (wrapU_small 8) by lia.
    set (w1 := set_stream _ _). cbn [length] in Hi.
    destruct (IH (S i) w1 l) as (x2 & E2 & Hx2); [done|done| |].
    { cbn. rewrite length_insert. lia. }
    exists x2. split; [|done]. rewrite E2.
    change (buffer (stream (lex w1))) with (<[i := b]> (buffer (stream (lex w)))). by rewrite splice_cons.
Qed.

(** Text the lexer takes without complaint: valid UTF-8 without NUL. *)
Definition txt (l : list Z) : Prop := utf8 l /\ Forall (fun b => b <> 0) l.

(** The lexer is before the characters [l]. *)
Definition input s (l : list Z) : Prop :=
  (exists pre cached unr, at_chars s pre cached unr /\ l = cached ++ unr /\ txt unr) \/
  (state s = STREAM_STATE_EOF /\ l = [] /\ stm_at (stm s) []).

(** The lexer is before [l] and has just read [b]. *)
Definition behind s (b : Z) (l : list Z) : Prop :=
  exists pre cached unr, at_chars s (pre ++ [b]) cached unr /\ l = cached ++ unr /\ txt unr /\ char b.

Lemma behind_input s b l : behind s b l -> input s l.
Proof. intros (pre & cached & unr & H & Hl & Ht & _). left. by exists (pre ++ [b]), cached, unr. Qed.

Lemma continuation_range bs v v' : PhString.continuation bs v = Some v' -> Forall (fun b => 0x80 <= b <= 0xbf) bs.
Proof.
  revert v. induction bs as [|u bs IH]; intros v H; [constructor|]. cbn in H. case_bool; [done|]. zbool.
  constructor; [lia|by eapply IH].
Qed.

(** The next scalar value of a text. *)
Lemma txt_cons b l :
  txt (b :: l) -> exists tl r, l = tl ++ r /\ txt r /\ PhString.ph_utf8_seq_len b = zlen (b :: tl) /\
    Forall char (b :: tl) /\ (length tl < 4)%nat /\
    (1 <= length tl -> forall x, utf8_check_full (b :: tl ++ x) (zlen (b :: tl)) = true)%nat.
Proof.
  intros [Hu Hz]. inversion Hu as [Hn|cp bs r Hs He Hr Heq].
  destruct (decode_encode cp bs Hs He) as (first & tl & -> & Hd & Hlen & Hb).
  cbn in Heq. injection Heq as -> Heq. rewrite <- Heq in *. exists tl, r. split; [done|].
  apply Forall_cons in Hz as [Hz1 Hz]. apply Forall_app in Hz as [Hz2 Hz].
  split; [by split|]. split; [done|]. split_and!.
  - apply Forall_cons in Hb as [Hb1 Hb]. unfold decode in Hd. constructor.
    + unfold is_byte in Hb1. unfold char. pose proof (seq_len_cases b Hb1). cbn in Hlen. lia.
    + destruct (PhString.continuation tl _) as [v|] eqn:Ec; [|done]. apply continuation_range in Ec.
      eapply Forall_impl; [exact Ec|]. unfold char. cbn. lia.
  - pose proof (seq_len_range b). cbn in Hlen. lia.
  - intros Hl x. apply (check_full_ok cp (b :: tl) x); [done|done|cbn; lia].
Qed.

(** The buffer after a sequence was read into it. *)
Lemma loaded_buffer (buf tl : list Z) b :
  length buf = 5%nat -> (length tl < 4)%nat ->
  exists post, <[S (length tl) := 0]> (splice 1 tl (<[0%nat := b]> buf)) = (b :: tl) ++ 0 :: post.
Proof.
  intros Hb Ht. destruct buf as [|? [|? [|? [|? [|? [|? ?]]]]]]; try done.
  destruct tl as [|? [|? [|? [|? ?]]]]; cbn in *; try lia; eexists; reflexivity.
Qed.

(** Reading a character. *)
Lemma get_char w b l :
  input (stream (lex w)) (b :: l) ->
  exists s', stream_get w = Ret (schar b, set_stream s' w) /\ behind s' b l.
Proof.
  intros [(pre & cached & unr & Hat & Hl & Ht)|(_ & [=] & _)]. destruct cached as [|c cached].
  2:{ injection Hl as -> ->. pose proof (ac_char _ _ _ _ Hat) as [Hc _]%Forall_cons.
      destruct (next_char w c pre cached unr Hat) as (s' & E & Hat').
      exists s'. split; [|by exists pre, cached, unr].
      unfold stream_get, JsonLoad.stream_get. step. rewrite (ac_state _ _ _ _ Hat). cbn [Z.eqb negb STREAM_STATE_OK].
      destruct (ac_buf _ _ _ _ Hat) as [post Hb].
      assert (buffer (stream (lex w)) !! Z.to_nat (buffer_pos (stream (lex w))) = Some c) as Hlk.
      { rewrite (ac_pos _ _ _ _ Hat), Hb, Nat2Z.id. by rewrite lookup_app_r, Nat.sub_diag by lia. }
      rewrite Hlk. step. unfold char in Hc. by rewrite (proj2 (Z.eqb_neq c 0)) by lia. }
  cbn in Hl. subst unr. destruct (txt_cons b l Ht) as (tl & r & -> & Htr & Hlen & Hbs & Htl & Hchk).
  pose proof Hbs as [Hb1 Htb]%Forall_cons. unfold char in Hb1.
  destruct Hat as [Hs Hst Hp [post Hb] Hbl _]. unfold stream_get, JsonLoad.stream_get. step.
  rewrite Hst. cbn [Z.eqb negb STREAM_STATE_OK].
  assert (buffer (stream (lex w)) !! Z.to_nat (buffer_pos (stream (lex w))) = Some 0) as Hlk.
  { rewrite Hp, Hb, Nat2Z.id. by rewrite lookup_app_r, Nat.sub_diag by lia. }
  rewrite Hlk. step. cbn [Z.eqb negb].
  destruct (getc_char w b (tl ++ r) Hs) as (x & E & Hx). step_with E.
  destruct (b =? STREAM_STATE_EOF) eqn:Eb; zbool; [unfold STREAM_STATE_EOF in Eb; lia|]. step. step.
  rewrite (wrapU_small 8) by lia. rewrite Hlen. cbn [length].
  destruct (Z.of_nat (S (length tl)) =? 0) eqn:E0; zbool; [lia|].
  set (w1 := set_stream _ (set_stream _ w)).
  assert (length (buffer (stream (lex w1))) = 5%nat) as Hl1 by (cbn; by rewrite length_insert).
  destruct (loaded_buffer (buffer (stream (lex w))) tl b Hbl Htl) as [post' Hpost].
  assert (forall w2 y, stream (lex w2) = with_stm y (with_buffer (<[S (length tl) := 0]>
      (splice 1 tl (<[0%nat := b]> (buffer (stream (lex w)))))) 0 (stream (lex w))) ->
    stm_at y r -> exists s', stream_next w2 = Ret (schar b, set_stream s' w2) /\ behind s' b (tl ++ r)) as Hfin.
  { intros w2 y Hw2 Hy. destruct (next_char w2 b [] tl r) as (s' & E2 & Hat').
    - rewrite Hw2. split; cbn; [done|done|done|exists post'; by rewrite Hpost|rewrite Hpost|done].
      apply (f_equal length) in Hpost. rewrite length_insert, length_splice, length_insert in Hpost
        by (rewrite length_insert; lia). cbn in Hpost |- *. lia.
    - exists s'. split; [done|]. exists [], tl, r. split_and!; try done. }
  destruct (1 <? Z.of_nat (S (length tl))) eqn:E1; zbool.
  - replace (Z.to_nat (Z.of_nat (S (length tl)) - 1)) with (length tl) by lia.
    assert (Forall is_byte tl) as Htb'.
    { eapply Forall_impl; [exact Htb|]. unfold char, is_byte. cbn. lia. }
    destruct (fill_ok tl 1 w1 r Hx Htb') as (y & Ef & Hy); [lia|]. step_with Ef. step.
    rewrite set_stream_stream. cbn [with_stm with_buffer buffer].
    change (buffer (stream (lex w1))) with (<[0%nat := b]> (buffer (stream (lex w)))).
    assert (exists z, splice 1 tl (<[0%nat := b]> (buffer (stream (lex w)))) = b :: tl ++ z) as [z Hz].
    { destruct (buffer (stream (lex w))) as [|? buf]; [done|]. unfold splice. cbn.
      eexists. reflexivity. }
    rewrite Hz. pose proof (Hchk ltac:(lia) z) as Hc. cbn [length] in Hc. rewrite Hc. cbn [negb].
    unfold set_buffer_at. step. rewrite set_stream_stream. cbn [with_stm with_buffer buffer buffer_pos].
    destruct (Hfin (set_stream (with_stm y (with_buffer (<[S (length tl) := 0]>
      (splice 1 tl (<[0%nat := b]> (buffer (stream (lex w)))))) 0 (stream (lex w)))) w) y eq_refl Hy) as (s' & E2 & Hb').
    exists s'. split; [|done]. rewrite set_stream_twice in E2. rewrite <- E2. f_equal. rewrite Nat2Z.id, Hz. done.
  - assert (tl = []) as -> by (destruct tl; [done|cbn in E1; lia]). cbn [app] in *.
    unfold set_buffer_at. step.
    destruct (Hfin (set_stream (with_stm x (with_buffer (<[1%nat := 0]>
      (splice 1 [] (<[0%nat := b]> (buffer (stream (lex w)))))) 0 (stream (lex w)))) w) x eq_refl Hx) as (s' & E2 & Hb').
    exists s'. split; [|done]. rewrite set_stream_twice in E2. rewrite <- E2. unfold splice. cbn. by rewrite take_drop.
Qed.

(** The end of the input. *)
Lemma get_eof w :
  input (stream (lex w)) [] ->
  exists s', stream_get w = Ret (STREAM_STATE_EOF, set_stream s' w) /\ input s' [].
Proof.
  intros [(pre & cached & unr & Hat & Hl & Ht)|(Hst & _ & Hat)].
  - symmetry in Hl. apply app_eq_nil in Hl as [-> ->]. destruct Hat as [Hs Hst Hp [post Hb] Hbl _].
    unfold stream_get, JsonLoad.stream_get. step. rewrite Hst. cbn [Z.eqb negb STREAM_STATE_OK].
    assert (buffer (stream (lex w)) !! Z.to_nat (buffer_pos (stream (lex w))) = Some 0) as Hlk.
    { rewrite Hp, Hb, Nat2Z.id. by rewrite lookup_app_r, Nat.sub_diag by lia. }
    rewrite Hlk. step. cbn [Z.eqb negb]. destruct (getc_eof w Hs) as (x & E & Hx). step_with E.
    eexists. split; [reflexivity|]. right. done.
  - exists (stream (lex w)). unfold stream_get, JsonLoad.stream_get. step. rewrite Hst. cbn.
    split; [|by right]. by destruct w as [v [s t k u] e].
Qed.

Lemma schar_inj b b' : 0 <= b < 256 -> 0 <= b' < 256 -> schar b = schar b' -> b = b'.
Proof.
  unfold schar. intros Hb Hb' [k Hk]%wrapS_eq_iff; [|lia]. change (2 ^ 8) with 256 in Hk. lia.
Qed.

Lemma schar_value b : 0 <= b < 256 -> schar b = if b <? 128 then b else b - 256.
Proof.
  intros Hb. unfold schar, wrapS. change (2 ^ (8 - 1)) with 128. change (2 ^ 8) with 256. case_bool; zbool.
  - rewrite Z.mod_small; lia.
  - replace (b + 128) with (b - 128 + 1 * 256) by lia. rewrite Z_mod_plus_full, Z.mod_small; lia.
Qed.

Lemma schar_ascii b : 0 <= b < 128 -> schar b = b.
Proof. intros Hb. rewrite schar_value by lia. by rewrite (proj2 (Z.ltb_lt b 128)) by lia. Qed.

Lemma schar_not_ascii b : 128 <= b < 256 -> schar b < 0.
Proof. intros Hb. rewrite schar_value by lia. rewrite (proj2 (Z.ltb_ge b 128)) by lia. lia. Qed.

Lemma schar_is_char b : char b -> is_char (schar b) = true.
Proof.
  unfold char, is_char, STREAM_STATE_EOF, STREAM_STATE_ERROR. intros Hb. rewrite schar_value by lia.
  apply andb_true_iff. rewrite !negb_true_iff, !Z.eqb_neq. case_bool; zbool; lia.
Qed.

(** Stepping back. *)
Lemma unget_char w b l :
  behind (stream (lex w)) b l ->
  exists s', stream_unget (schar b) w = Ret (tt, set_stream s' w) /\ input s' (b :: l).
Proof.
  intros (pre & cached & unr & [Hs Hst Hp [post Hb] Hbl Hc] & Hl & Ht & Hch).
  pose proof (schar_is_char b Hch) as Hic. unfold is_char in Hic. apply andb_true_iff in Hic as [Hi1 Hi2].
  rewrite negb_true_iff in Hi1, Hi2.
  unfold stream_unget. rewrite Hi1, Hi2. cbn [orb]. step. rewrite length_app in Hp. cbn in Hp.
  destruct (0 <? buffer_pos (stream (lex w))) eqn:E; zbool; [|lia]. step.
  replace (Z.to_nat (buffer_pos (stream (lex w)) - 1)) with (length pre) by lia.
  assert (buffer (stream (lex w)) !! length pre = Some b) as Hlk.
  { rewrite Hb, <- app_assoc. by rewrite lookup_app_r, Nat.sub_diag by lia. }
  rewrite Hlk. destruct (schar b =? c_newline); step; step; rewrite Z.eqb_refl; eexists; (split; [reflexivity|]).
  all: left; exists pre, (b :: cached), unr; split; [|by rewrite Hl]; split; cbn; try done;
    [lia|exists post; by rewrite Hb, <- app_assoc|by constructor].
Qed.

(** ** The saved text *)

Context (srefs : X -> positive -> Z) `{Henv : !VariantProofs.var_env_ok env srefs} `{Hplenty : !plenty env jenv srefs}.
Context (junk : nat -> list Z) (Hjunk : forall n, length (junk n) = n).
Abbreviation append_char := (append_char junk).
Abbreviation lex_get_save := (lex_get_save funcs rfuel junk).

(** What lexing leaves alone. *)
Record kept w w' : Prop := {
  k_vars : vars (jw w') = vars (jw w);
  k_next : vnext (jw w') = vnext (jw w);
  k_strs t : srefs (ext (jw w')) t = srefs (ext (jw w)) t;
  k_error : error w' = error w;
}.
(** A step within a token. *)
Definition same_token w w' : Prop :=
  kept w w' /\ token (lex w') = token (lex w) /\ value (lex w') = value (lex w).

#[export] Instance kept_preorder : PreOrder kept.
Proof. split; [by split|]. intros w1 w2 w3 [] []. split; congruence. Qed.
#[export] Instance same_token_preorder : PreOrder same_token.
Proof.
  split; [done|]. intros w1 w2 w3 (K1 & T1 & V1) (K2 & T2 & V2).
  split; [by transitivity w2|]. split; congruence.
Qed.

Lemma same_token_lex w s t :
  same_token w (set_lex (Lex s t (token (lex w)) (value (lex w))) w).
Proof. by repeat split. Qed.

Definition is_text (t : text) (bs : list Z) : Prop :=
  t_len t = zlen bs /\ zlen bs <= zlen (t_buf t) /\ t_bytes t = bs.

Lemma put_char_ok t bs b :
  is_text t bs -> zlen bs + 1 <= zlen (t_buf t) -> zlen bs < 2 ^ 31 -> is_text (put_char b t) (bs ++ [b]).
Proof.
  intros (Hl & _ & Hb) Hr Hlt. unfold t_bytes in Hb. rewrite Hl, Nat2Z.id in Hb.
  unfold is_text, put_char, t_bytes. cbn. rewrite Hl, (wrapU_small 32), length_app, length_insert by lia. cbn.
  split_and!; [lia|lia|]. rewrite Nat2Z.id. replace (Z.to_nat (zlen bs + 1)) with (S (length bs)) by lia.
  apply list_eq. intros i. destruct (decide (i < length bs)%nat).
  - rewrite lookup_take_lt, list_lookup_insert_ne, lookup_app_l by lia. by rewrite <- Hb, lookup_take_lt by lia.
  - rewrite lookup_app_r by lia. destruct (decide (i = length bs)) as [->|].
    + rewrite lookup_take_lt, list_lookup_insert_eq, Nat.sub_diag by lia. done.
    + rewrite lookup_take_ge by lia. symmetry. apply lookup_ge_None_2. cbn. lia.
Qed.

Lemma lex_append_ok w t b :
  is_text (saved_text (lex w)) t -> zlen t < 2 ^ 30 ->
  exists w', append_char b w = Ret (tt, w') /\ is_text (saved_text (lex w')) (t ++ [b]) /\
    stream (lex w') = stream (lex w) /\ same_token w w'.
Proof.
  intros Ht Hlt. pose proof Ht as (Hl & Hle & Hb). unfold append_char, JsonLoad.append_char. step.
  rewrite Hl, (wrapU_small 32) by lia. destruct (zlen (t_buf (saved_text (lex w))) <? zlen t + 1) eqn:E; zbool.
  - set (n := ph_power_2 (zlen t + 1)). destruct (ph_power_2_above (zlen t + 1)) as [Hn _]; [lia|]. fold n in Hn.
    assert (exists x, on_x (if t_heap (saved_text (lex w)) then mem_realloc n else mem_alloc n) w =
      Ret (true, set_jw (set_ext x (jw w)) w) /\ forall t, srefs x t = srefs (ext (jw w)) t) as (x & Hx & Hsr).
    { unfold on_x, on_vars, on_ext. destruct (t_heap _).
      - pose proof (plenty_realloc n (ext (jw w))) as H1. pose proof (VariantProofs.realloc_refs n (ext (jw w))) as H2.
        destruct (mem_realloc n (ext (jw w))) as [ok x]. cbn in *. subst ok. by exists x.
      - pose proof (plenty_alloc n (ext (jw w))) as H1. pose proof (VariantProofs.alloc_refs n (ext (jw w))) as H2.
        destruct (mem_alloc n (ext (jw w))) as [ok x]. cbn in *. subst ok. by exists x. }
    step_with Hx. eexists. split; [reflexivity|]. cbn. rewrite Hb. split; [|done].
    apply put_char_ok; [|cbn; rewrite length_take, length_app, Hjunk; lia|lia].
    unfold is_text, t_bytes. cbn. rewrite Nat2Z.id, length_take, length_app, Hjunk. split; [done|]. split; [lia|].
    rewrite take_take, Nat.min_l by lia. by rewrite take_app_length.
  - eexists. split; [reflexivity|]. cbn. split; [apply put_char_ok; [done|lia|lia]|done].
Qed.

(** The lexer has saved [t] and is before [l]; or it has also read and saved
    [b]. *)
Definition at_ w (t l : list Z) : Prop := is_text (saved_text (lex w)) t /\ input (stream (lex w)) l.
Definition past w (t : list Z) (b : Z) (l : list Z) : Prop :=
  is_text (saved_text (lex w)) (t ++ [b]) /\ behind (stream (lex w)) b l.

Lemma past_at w t b l : past w t b l -> at_ w (t ++ [b]) l.
Proof. intros [Ht Hb]. split; [done|]. by eapply behind_input. Qed.

Lemma get_save_char w t b l :
  at_ w t (b :: l) -> zlen t < 2 ^ 30 ->
  exists w', lex_get_save w = Ret (schar b, w') /\ past w' t b l /\ same_token w w'.
Proof.
  intros [Ht Hi] Hlt. destruct (get_char w b l Hi) as (s' & E & Hb).
  unfold lex_get_save, JsonLoad.lex_get_save. step_with E.
  assert (char b) as Hch by (by destruct Hb as (? & ? & ? & ? & ? & ? & ?)).
  rewrite (schar_is_char b Hch). unfold lex_save. destruct (lex_append_ok (set_stream s' w) t (u8 (schar b)))
    as (w' & E2 & Ht' & Hs' & Hk); [done|done|]. step_with E2.
  assert (u8 (schar b) = b) as Hu.
  { unfold char in Hch. rewrite schar_value by lia. case_bool; zbool; [apply wrapU_small; lia|].
    unfold wrapU. change (2 ^ 8) with 256. replace (b - 256) with (b + (-1) * 256) by lia.
    rewrite Z_mod_plus_full. apply Z.mod_small. lia. }
  rewrite Hu in Ht'. exists w'. split; [done|]. split; [split; [done|by rewrite Hs']|].
  by transitivity (set_stream s' w).
Qed.

Lemma get_save_eof w t :
  at_ w t [] -> exists w', lex_get_save w = Ret (STREAM_STATE_EOF, w') /\ at_ w' t [] /\ same_token w w'.
Proof.
  intros [Ht Hi]. destruct (get_eof w Hi) as (s' & E & Hi'). unfold lex_get_save, JsonLoad.lex_get_save.
  step_with E. cbn. eexists. split; [reflexivity|]. by split.
Qed.

(** Stepping back leaves the character behind the text in the buffer. *)
Lemma unget_unsave_char w t b l :
  past w t b l -> zlen t < 2 ^ 30 ->
  exists w', lex_unget_unsave (schar b) w = Ret (tt, w') /\ at_ w' t (b :: l) /\ same_token w w' /\
    t_buf (saved_text (lex w')) !! length t = Some b.
Proof.
  intros [(Hl & Hle & Ht) Hb] Hlt. assert (char b) as Hch by (by destruct Hb as (? & ? & ? & ? & ? & ? & ?)).
  unfold lex_unget_unsave. rewrite (schar_is_char b Hch). step. rewrite Hl, length_app. cbn [length].
  destruct (0 <? Z.of_nat (length t + 1)) eqn:E; zbool; [|lia]. step.
  replace (Z.to_nat (Z.of_nat (length t + 1) - 1)) with (length t) by lia.
  rewrite length_app in Hle, Hl. cbn in Hle, Hl.
  assert (t_buf (saved_text (lex w)) !! length t = Some b) as Hlk.
  { rewrite <- (lookup_take_lt _ (Z.to_nat (t_len (saved_text (lex w))))) by lia.
    change (take _ _) with (t_bytes (saved_text (lex w))). rewrite Ht. by rewrite lookup_app_r, Nat.sub_diag by lia. }
  rewrite Hlk. step. rewrite Z.eqb_refl. step. unfold unsave. step.
  set (w1 := set_saved _ w). destruct (unget_char w1 b l Hb) as (s' & E2 & Hi).
  rewrite E2. eexists. split; [reflexivity|]. split; [split; [|done]|split; [done|done]].
  unfold is_text, t_bytes in *. cbn. rewrite Hl in *. rewrite (wrapU_small 32) by lia.
  split; [lia|]. split; [lia|]. replace (Z.to_nat (Z.of_nat (length t + 1) - 1)) with (length t) by lia.
  rewrite Nat2Z.id in Ht. apply (f_equal (take (length t))) in Ht.
  rewrite take_take, take_app_length, Nat.min_l in Ht by lia. done.
Qed.

Lemma unget_unsave_eof w : lex_unget_unsave STREAM_STATE_EOF w = Ret (tt, w).
Proof. done. Qed.
End lexer.
End JsonLexProofs.
