(* ===== verification/VariantBuild.v ===== *)
(** * Steps of building a value

    What the JSON reader and [ph_var_pack] do to the variants: make a leaf,
    start an array or object, add what was built last to it, when memory does
    not run out. *)

From Stdlib Require Import ZArith Lia.
From stdpp Require Import base numbers list gmap.
From S2P Require Import Prelude SysUtil PhString PhStringUtf8 HashTable HashTableProofs StringKeys.
From S2P Require Import Variant VariantProofs VariantOps VariantGrow JsonLoad JsonLexProofs.

Module VariantBuild.
Export VariantGrow.
Import HashTable HashTableProofs JsonLoad JsonLexProofs.

Lemma cstr_all s : Forall (fun b => b <> 0) s -> cstr s = s.
Proof. induction 1 as [|b s Hb _ IH]; [done|]. cbn. rewrite (proj2 (Z.eqb_neq b 0)) by done. by rewrite IH. Qed.

Section build.
Context {X : Type} {env : var_env X} {jenv : json_env X env} {D : Type}.
Context {srefs : X -> positive -> Z} `{Henv : !VariantProofs.var_env_ok env srefs} `{Hplenty : !plenty env jenv srefs}.
Abbreviation loose := (loose srefs).
Abbreviation means := (means contents_of).
Implicit Types v : vworld X D.
Implicit Types h : gmap positive (ph_variant D).

(** Variants were built between [v] and [v']: [a] may have changed, [roots] are
    the references held from outside, and there is room for [m] more
    references to the static variants. *)
Record built (a : option positive) (m : Z) (roots : list positive) v v' : Prop := {
  b_wf : var_wf v' roots;
  b_ext : extends a (vnext v) (vars v) (vars v');
  b_next : (vnext v <= vnext v')%positive;
  b_room : room (vars v') m;
  b_strs t : loose ∅ v' t = loose ∅ v t;
}.

Lemma built_trans a m m' roots roots' v v1 v2 :
  built a m roots v v1 -> built a m' roots' v1 v2 -> (forall b, a = Some b -> (b < vnext v)%positive) ->
  built a m' roots' v v2.
Proof.
  intros [A1 A2 A3 A4 A5] [B1 B2 B3 B4 B5] Ha. split; [done| |lia|done|].
  - eapply extends_trans; [done|done|done|done].
  - intros t. by rewrite B5, A5.
Qed.

Lemma built_weaken a m roots v v' : built None m roots v v' -> built a m roots v v'.
Proof. intros [H1 H2 H3 H4 H5]. split; [done|by apply extends_weaken|done|done|done]. Qed.

Lemma new_var_some v roots b m :
  var_wf v roots -> refs_in b = [] -> ~ is_singleton b -> body_ok b -> strs_in b = [] -> room (vars v) m ->
  exists v', new_var b v = Ret (Some (vnext v), v') /\ built None m (vnext v :: roots) v v' /\
    vars v' = <[vnext v := Var 1 b]> (vars v) /\ vnext v' = Pos.succ (vnext v).
Proof.
  intros Hw Hr Hs Hok Hst Hm. destruct (new_var_ok srefs v roots b Hw Hr Hs Hok) as ([p|] & v' & E & Hx & H).
  2:{ destruct H as [_ H]. by rewrite plenty_alloc in H. }
  destruct H as (-> & _ & Hv & Hn & Hw'). destruct (new_leaf srefs v roots b (ext v') m Hw Hr Hs Hok) as (_ & H2 & H3 & H4).
  assert (v' = VWorld (<[vnext v := Var 1 b]> (vars v)) (Pos.succ (vnext v)) (ext v')) as Hv'.
  { destruct v'. cbn in *. by subst. }
  exists v'. split; [done|]. split; [|done]. split; [done|by rewrite Hv|lia|rewrite Hv; by apply H3|].
  intros t. rewrite Hv', H4, Hst, Hx. change (occ t []) with 0. lia.
Qed.

(** Another reference to a static variant. *)
Lemma addref_static v roots p m :
  var_wf v roots -> is_static p -> room (vars v) (m + 1) -> 0 <= m ->
  exists v', (ph_var_addref p ;;; ret p) v = Ret (p, v') /\ built None m (p :: roots) v v' /\
    exists u, vars v' !! p = Some u /\ body u = static_body p.
Proof.
  intros Hw Hp Hr Hm. destruct (static_leaf srefs v roots p m Hw Hp Hr Hm) as (u & Hu & Hb & H1 & H2 & H3 & H4).
  eexists. split.
  { unfold ph_var_addref, bind. rewrite (load_eq v p u Hu). reflexivity. }
  split; [by split|]. eexists. cbn. rewrite lookup_insert_eq. by split.
Qed.

(** A new string and the variant that holds it. *)
Lemma string_variant v roots s m :
  var_wf v roots -> room (vars v) m ->
  exists k x v', string_make s (ext v) = (Some k, x) /\
    ph_var_string_claim (Some k) (set_ext x v) = Ret (Some (vnext v), v') /\
    built None m (vnext v :: roots) v v' /\ vars v' = <[vnext v := Var 1 (PH_VAR_STRING k)]> (vars v) /\ contents_of k = s.
Proof.
  intros Hw Hm. destruct (plenty_string (srefs := srefs) s (ext v)) as (k & x & E & Hc & Hx). exists k, x.
  assert (var_wf (set_ext x v) roots) as Hwx by (by apply var_wf_ext).
  destruct (new_var_ok srefs (set_ext x v) roots (PH_VAR_STRING k) Hwx) as ([p|] & v' & E' & Hx' & H);
    [done|unfold is_singleton; naive_solver|done| |].
  2:{ destruct H as [_ H]. by rewrite plenty_alloc in H. }
  destruct H as (-> & _ & Hv & Hn & Hw'). cbn in Hv, Hn, Hw'.
  destruct (new_leaf srefs v roots (PH_VAR_STRING k) (ext v') m Hw) as (_ & H2 & H3 & H4);
    [done|unfold is_singleton; naive_solver|done|].
  assert (v' = VWorld (<[vnext v := Var 1 (PH_VAR_STRING k)]> (vars v)) (Pos.succ (vnext v)) (ext v')) as Hv'.
  { destruct v'. cbn in *. by subst. }
  exists v'. split; [done|]. split; [done|]. split; [|done]. split; [done|by rewrite Hv|cbn in *; lia|rewrite Hv; by apply H3|].
  intros t. rewrite Hv', H4. unfold same_strs in Hx'. rewrite Hx'. cbn [set_ext ext strs_in]. rewrite Hx, occ_cons.
  change (occ t []) with 0. lia.
Qed.

(** A variant that holds another reference to a string. *)
Lemma string_make_variant v roots k m :
  var_wf v roots -> room (vars v) m ->
  exists v', ph_var_string_make (Some k) v = Ret (Some (vnext v), v') /\
    built None m (vnext v :: roots) v v' /\ vars v' = <[vnext v := Var 1 (PH_VAR_STRING k)]> (vars v).
Proof.
  intros Hw Hm. destruct (new_var_ok srefs v roots (PH_VAR_STRING k) Hw) as ([p|] & v' & E & Hx & H);
    [done|unfold is_singleton; naive_solver|done| |].
  2:{ destruct H as [_ H]. by rewrite plenty_alloc in H. }
  destruct H as (-> & _ & Hv & Hn & Hw'). unfold same_strs in Hx.
  destruct (new_leaf srefs v roots (PH_VAR_STRING k) (string_addref k (ext v')) m Hw) as (_ & H2 & H3 & H4);
    [done|unfold is_singleton; naive_solver|done|].
  assert (set_ext (string_addref k (ext v')) v' =
    VWorld (<[vnext v := Var 1 (PH_VAR_STRING k)]> (vars v)) (Pos.succ (vnext v)) (string_addref k (ext v'))) as Hv'.
  { destruct v'. cbn in *. by subst. }
  exists (set_ext (string_addref k (ext v')) v'). split; [|split; [|done]].
  - unfold ph_var_string_make. by step_with (E : ph_var_string_claim (Some k) v = _).
  - split; [by apply var_wf_ext|by rewrite Hv'|cbn; lia|rewrite Hv'; by apply H3|].
    intros t. rewrite Hv', H4. cbn [strs_in]. rewrite addref_refs, Hx, occ_cons. change (occ t []) with 0. lia.
Qed.

(** A new container. *)
Lemma built_made v roots b p v' m :
  var_wf v roots -> refs_in b = [] -> ~ is_singleton b -> body_ok b -> strs_in b = [] -> room (vars v) m ->
  made srefs v roots b (Some p) v' -> built None m (p :: roots) v v'.
Proof.
  intros Hw Hr Hs Hok Hst Hm (Hx & -> & Hv & Hn & Hw').
  destruct (new_leaf srefs v roots b (ext v') m Hw Hr Hs Hok) as (_ & H2 & H3 & H4).
  assert (v' = VWorld (<[vnext v := Var 1 b]> (vars v)) (Pos.succ (vnext v)) (ext v')) as Hv'.
  { destruct v'. cbn in *. by subst. }
  split; [done|by rewrite Hv|lia|rewrite Hv; by apply H3|].
  intros t. rewrite Hv', H4, Hst, Hx. change (occ t []) with 0. lia.
Qed.

(** The array at [arr] holds the values [ts] so far. *)
Record arr_holds (arr : positive) h (ts : list (tree D)) (ps : list positive) : Prop := {
  ah_cell : exists u al, h !! arr = Some u /\ body u = PH_VAR_ARRAY al ps /\ al <= Z.max 8 (4 * zlen ps);
  ah_means : Forall2 (means h) ts ps;
  ah_inside : Forall (inside (Pos.succ arr)) ps;
  ah_closed : closed_from (Pos.succ arr) h;
  ah_static : ~ is_static arr;
}.

Lemma Forall2_frame {A} (R R' : A -> positive -> Prop) (P : positive -> Prop) ts ps :
  (forall t p, P p -> R t p -> R' t p) -> Forall P ps -> Forall2 R ts ps -> Forall2 R' ts ps.
Proof. intros HR HP H. revert HP. induction H; intros HP; decompose_Forall_hyps; constructor; auto. Qed.

Lemma inside_succ arr q : inside (Pos.succ arr) q -> ~ is_static arr -> q <> arr.
Proof. intros [Hq|Hq] Hs ->; [lia|done]. Qed.

(** The array after something else was built. *)
Lemma arr_holds_extends arr roots v h' ts ps :
  arr_holds arr (vars v) ts ps -> extends None (vnext v) (vars v) h' -> var_wf v roots -> arr_holds arr h' ts ps.
Proof.
  intros [(u & al & Hu & Hb & Hal) H2 H3 H4 H5] Hext Hw. pose proof (vw_fresh _ _ Hw arr u Hu) as Hlt.
  assert (static_empty (vars v)) as Hse by (by eapply wf_static_empty). split.
  - destruct (ex_old _ _ _ _ Hext arr u) as (u' & Hu' & Hb'); [done|done|]. exists u', al. by rewrite Hb'.
  - eapply Forall2_frame; [|exact H3|exact H2]. intros t p Hp Ht.
    eapply (means_frame _ (Pos.succ arr)); [done|done| |done|done]. intros q x _ Hx. by apply (ex_old _ _ _ _ Hext).
  - done.
  - eapply extends_closed; [done|lia|done|done].
  - done.
Qed.

(** Appending the value that was built last. *)
Lemma append_built arr p t n m roots v ts ps :
  var_wf v (p :: arr :: roots) -> arr_holds arr (vars v) ts ps -> closed_from n (vars v) -> inside n p ->
  (arr < n)%positive -> means (vars v) t p -> room (vars v) m -> zlen ps < 2 ^ 27 ->
  exists v', ph_var_array_append_claim arr p v = Ret (PH_OK, v') /\ built (Some arr) m (arr :: roots) v v' /\
    arr_holds arr (vars v') (ts ++ [t]) (ps ++ [p]).
Proof.
  intros Hw [(u & al & Hu & Hb & Hal) H2 H3 H4 H5] Hc Hp Hn Ht Hr Hlt.
  assert (static_empty (vars v)) as Hse by (by eapply wf_static_empty).
  destruct (array_append_ok srefs v (arr :: roots) arr p u al ps Hw Hu Hb) as (r & v' & E & Hn' & Hx & H).
  { eapply inside_not_leads; [done|done|done|]. intros [?|?]; [lia|done]. }
  { lia. }
  case_decide.
  2:{ destruct H as (_ & _ & k & Hk). by rewrite plenty_realloc in Hk. }
  subst r. destruct H as [Hv Hw']. exists v'. split; [done|].
  assert (forall q, q <> arr -> vars v' !! q = vars v !! q) as Hne by (intros q Hq; rewrite Hv; by apply lookup_insert_ne).
  assert (forall t q, inside (Pos.succ arr) q -> means (vars v) t q -> means (vars v') t q) as Hfr.
  { intros t' q Hq Hm'. eapply (means_frame _ (Pos.succ arr)); [done|done| |done|done].
    intros q' x Hq' Hx'. exists x. rewrite Hne by (by apply inside_succ). done. }
  split; split.
  - done.
  - split.
    + intros q x Hq Hx'. exists x. rewrite Hne by congruence. done.
    + intros q x Hq. rewrite Hv in Hq. left. destruct (decide (q = arr)) as [->|]; [by exists u|].
      rewrite lookup_insert_ne in Hq by done. by exists x.
    + intros q x y Hq Hle _. rewrite Hv in Hq. destruct (decide (q = arr)) as [->|Hqa].
      * pose proof (vw_fresh _ _ Hw arr u Hu). lia.
      * rewrite lookup_insert_ne in Hq by done. pose proof (vw_fresh _ _ Hw q x Hq). lia.
  - by rewrite Hn'.
  - rewrite Hv. by apply room_insert.
  - intros t'. unfold VariantProofs.loose. rewrite Hv, (hsum_update _ _ _ _ _ _ Hu), decide_False by set_solver.
    rewrite Hx, Hb. cbn. change (occ t' []) with 0. lia.
  - rewrite Hv, lookup_insert_eq. do 2 eexists. split; [done|]. split; [done|].
    pose proof (vw_body _ _ Hw arr u Hu) as Hok. rewrite Hb in Hok. cbn in Hok.
    pose proof (slots_bound al (zlen ps) ltac:(lia) ltac:(lia)). rewrite length_app. cbn. lia.
  - apply Forall2_app; [eapply Forall2_frame; [|exact H3|exact H2]; auto|].
    constructor; [|constructor]. apply Hfr; [|done]. eapply inside_le; [|done]. lia.
  - apply Forall_app. split; [done|]. constructor; [|done]. eapply inside_le; [|done]. lia.
  - intros q x y Hq Hle Hy. rewrite Hne in Hq by (intros ->; lia). by eapply H4.
  - done.
Qed.

(** An array that was built is a value. *)
Lemma arr_done arr h ts ps : arr_holds arr h ts ps -> means h (TArr ts) arr.
Proof. intros [(u & al & Hu & Hb & _) H2 _ _ _]. by eapply means_arr. Qed.

(** What was built with [a] changing, which was made at the start. *)
Lemma built_whole a m m' roots roots' v v1 v2 :
  built None m roots v v1 -> built (Some a) m' roots' v1 v2 -> vnext v = a -> vars v !! a = None ->
  closed_from a (vars v2) -> built None m' roots' v v2.
Proof.
  intros [A1 A2 A3 A4 A5] [B1 B2 B3 B4 B5] Ha Hn Hc. split; [done| |lia|done|].
  - split.
    + intros q u _ Hu. destruct (ex_old _ _ _ _ A2 q u) as (u1 & Hu1 & Hb1); [done|done|].
      destruct (ex_old _ _ _ _ B2 q u1) as (u2 & Hu2 & Hb2); [congruence|done|]. exists u2. by rewrite Hb2.
    + intros q u Hu. destruct (ex_new _ _ _ _ B2 q u Hu) as [[u1 Hu1]|]; [|right; lia]. by eapply A2.
    + by rewrite Ha.
  - intros t. by rewrite B5, A5.
Qed.

Lemma arr_closed arr h ts ps : arr_holds arr h ts ps -> closed_from arr h.
Proof.
  intros [(u & al & Hu & Hb & _) H2 H3 H4 _] q v r Hq Hle Hr. destruct (decide (q = arr)) as [->|Hne].
  - simplify_eq. rewrite Hb in Hr. cbn in Hr. rewrite Forall_forall in H3. apply (inside_le _ (Pos.succ arr)); [lia|auto].
  - apply (inside_le _ (Pos.succ arr)); [lia|]. apply (H4 q v); [done|lia|done].
Qed.

(** The array branch of [parse_value]. *)
Lemma array_start v roots m :
  var_wf v roots -> room (vars v) m ->
  exists v', ph_var_array 8 v = Ret (Some (vnext v), v') /\ built None m (vnext v :: roots) v v' /\
    arr_holds (vnext v) (vars v') [] [].
Proof.
  intros Hw Hm. destruct (array_new_ok srefs v roots 8 Hw) as ([p|] & v' & E & H); [lia| |].
  2:{ destruct H as (_ & _ & _ & n & x & Hn). by rewrite plenty_alloc in Hn. }
  pose proof H as (_ & -> & Hv & _). exists v'. split; [done|]. split.
  { eapply built_made; [done| | | | |done|done]; try done. unfold is_singleton. naive_solver. }
  split; [|done|done| |].
  - rewrite Hv, lookup_insert_eq. do 2 eexists. split; [done|]. split; [done|]. cbn. lia.
  - intros q u r Hq Hle _. rewrite Hv in Hq. rewrite lookup_insert_ne in Hq by lia.
    pose proof (vw_fresh _ _ Hw q u Hq). lia.
  - by eapply fresh_not_static, Pos.le_refl.
Qed.

(** The object at [obj] holds the members [kvs] so far. *)
Record obj_holds (obj : positive) h (kvs : list (list Z * tree D)) (es : list (positive * positive)) : Prop := {
  oh_cell : exists u o, h !! obj = Some u /\ body u = PH_VAR_OBJECT o /\ es ≡ₚ entries (o_table o) /\ compact (2 ^ 29) o;
  oh_means : Forall2 (means_member contents_of h) kvs es;
  oh_inside : Forall (fun e => inside (Pos.succ obj) e.2) es;
  oh_closed : closed_from (Pos.succ obj) h;
  oh_static : ~ is_static obj;
}.

Lemma members_frame (h h' : gmap positive (ph_variant D)) n kvs es :
  (forall t p, inside n p -> means h t p -> means h' t p) -> Forall (fun e => inside n e.2) es ->
  Forall2 (means_member contents_of h) kvs es -> Forall2 (means_member contents_of h') kvs es.
Proof.
  intros HR HP H. revert HP. induction H as [|kt e kvs es [Hk Ht] _ IH]; intros HP; decompose_Forall_hyps; constructor; auto.
  split; [done|]. by apply HR.
Qed.

Lemma obj_holds_extends obj roots v h' kvs es :
  obj_holds obj (vars v) kvs es -> extends None (vnext v) (vars v) h' -> var_wf v roots -> obj_holds obj h' kvs es.
Proof.
  intros [(u & o & Hu & Hb & Hp & Hc) H2 H3 H4 H5] Hext Hw. pose proof (vw_fresh _ _ Hw obj u Hu) as Hlt.
  assert (static_empty (vars v)) as Hse by (by eapply wf_static_empty). split.
  - destruct (ex_old _ _ _ _ Hext obj u) as (u' & Hu' & Hb'); [done|done|]. exists u', o. by rewrite Hb'.
  - eapply (members_frame (vars v)); [|exact H3|exact H2]. intros t p Hp' Ht.
    eapply (means_frame _ (Pos.succ obj)); [done|done| |done|done]. intros q x _ Hx. by apply (ex_old _ _ _ _ Hext).
  - done.
  - eapply extends_closed; [done|lia|done|done].
  - done.
Qed.

Lemma obj_keys obj h kvs es : obj_holds obj h kvs es -> contents_of <$> es.*1 = kvs.*1.
Proof.
  intros [_ H _ _ _]. induction H as [|kt e kvs es [Hk _] _ IH]; [done|]. cbn. by rewrite Hk, IH.
Qed.

(** A key that is not there. *)
Lemma obj_get_none obj roots v kvs es u key :
  var_wf v roots -> obj_holds obj (vars v) kvs es -> vars v !! obj = Some u -> contents_of key ∉ kvs.*1 ->
  ph_var_object_get (X := X) u key = None.
Proof.
  intros Hw Hh Hu Hk. pose proof Hh as [(u' & o & Hu' & Hb & Hp & _) _ _ _ _]. simplify_eq.
  rewrite (object_get_dict v roots obj u o key Hw Hu Hb). apply dict_of_None. intros k q Hin Hc.
  apply StringKeys.string_compare_zero in Hc. apply Hk. rewrite <- (obj_keys _ _ _ _ Hh), Hc.
  apply list_elem_of_fmap_2, (list_elem_of_fmap_2 fst es (k, q)). by rewrite Hp.
Qed.

(** Setting a member that was built last. *)
Lemma set_built obj key p t n m roots v kvs es :
  var_wf v (p :: obj :: roots) -> obj_holds obj (vars v) kvs es -> closed_from n (vars v) -> inside n p ->
  (obj < n)%positive -> means (vars v) t p -> room (vars v) m -> zlen es < 2 ^ 27 -> contents_of key ∉ kvs.*1 ->
  exists v', ph_var_object_set_claim_kv obj key p v = Ret (PH_OK, v') /\ vnext v' = vnext v /\
    var_wf v' (obj :: roots) /\ extends (Some obj) (vnext v) (vars v) (vars v') /\ room (vars v') m /\
    strs_spent srefs v v' [key] /\ obj_holds obj (vars v') (kvs ++ [(contents_of key, t)]) (es ++ [(key, p)]).
Proof.
  intros Hw Hh Hc Hp Hn Ht Hr Hlt Hk. pose proof Hh as [(u & o & Hu & Hb & Hpe & Hco) H2 H3 H4 H5].
  assert (static_empty (vars v)) as Hse by (by eapply wf_static_empty).
  pose proof (vw_body _ _ Hw obj u Hu) as Hok. rewrite Hb in Hok. cbn in Hok.
  pose proof (obj_get_none _ _ _ _ _ _ _ Hw Hh Hu Hk) as Hget.
  destruct (object_set_ok srefs v (obj :: roots) obj key p u o Hw Hu Hb) as (r & v' & E & Hn' & H).
  { apply (inside_not_leads n); [done|done|done|]. intros [?|?]; [lia|done]. }
  { destruct Hco as [_ Hco]. pose proof (wf_nelems _ _ _ Hok) as Hne. change (o_nelems o = zlen (entries (o_table o))) in Hne.
    pose proof (Permutation_length Hpe). lia. }
  rewrite Hget in H. case_decide.
  2:{ destruct H as (_ & _ & _ & k & Hk2). by rewrite plenty_alloc in Hk2. }
  subst r. destruct H as (o' & Ho' & Hw' & Hsp & [Hput _] & Hun & Hco').
  assert (forall q, q <> obj -> vars v' !! q = vars v !! q) as Hne by (intros q Hq; by apply Hun).
  assert (forall t q, inside (Pos.succ obj) q -> means (vars v) t q -> means (vars v') t q) as Hfr.
  { intros t' q Hq Hm'. eapply (means_frame _ (Pos.succ obj)); [done|done| |done|done].
    intros q' x Hq' Hx'. exists x. rewrite Hne by (by apply inside_succ). done. }
  exists v'. split; [done|]. split; [done|]. split; [done|]. split; [|split; [|split; [done|]]].
  - split.
    + intros q x Hq Hx'. exists x. rewrite Hne by congruence. done.
    + intros q x Hq. left. destruct (decide (q = obj)) as [->|]; [by exists u|].
      rewrite Hne in Hq by done. by exists x.
    + intros q x y Hq Hle _. destruct (decide (q = obj)) as [->|Hqa].
      * pose proof (vw_fresh _ _ Hw obj u Hu). lia.
      * rewrite Hne in Hq by done. pose proof (vw_fresh _ _ Hw q x Hq). lia.
  - intros q x Hq Hx'. rewrite Hne in Hx' by (intros ->; done). by eapply Hr.
  - split.
    + exists (Var (vref u) (PH_VAR_OBJECT o')), o'. split; [done|]. split; [done|]. split; [|by apply Hco'].
      rewrite Hput, <- Hpe. by rewrite Permutation_app_comm.
    + apply Forall2_app; [by eapply members_frame|]. constructor; [|constructor]. split; [done|].
      apply Hfr; [|done]. eapply inside_le; [|done]. lia.
    + apply Forall_app. split; [done|]. constructor; [|done]. eapply inside_le; [|done]. lia.
    + intros q x y Hq Hle Hy. rewrite Hne in Hq by (intros ->; lia). by eapply H4.
    + done.
Qed.

Lemma nodup_next {A} (kvs us : list (A * tree D)) k t :
  NoDup (kvs ++ (k, t) :: us).*1 -> k ∉ kvs.*1 /\ NoDup ((kvs ++ [(k, t)]) ++ us).*1.
Proof.
  intros Hn. split; [|by rewrite <- app_assoc]. rewrite fmap_app in Hn. apply NoDup_app in Hn as (_ & Hn & _).
  intros Hk. apply (Hn k Hk). cbn. by left.
Qed.

Lemma obj_done obj h kvs es : obj_holds obj h kvs es -> means h (TObj kvs) obj.
Proof. intros [(u & o & Hu & Hb & Hp & _) H2 _ _ _]. by eapply means_obj. Qed.

Lemma obj_closed obj h kvs es : obj_holds obj h kvs es -> closed_from obj h.
Proof.
  intros [(u & o & Hu & Hb & Hp & _) H2 H3 H4 _] q v r Hq Hle Hr. destruct (decide (q = obj)) as [->|Hne].
  - simplify_eq. rewrite Hb in Hr. cbn [refs_in] in Hr. apply list_elem_of_fmap in Hr as (e & -> & He).
    rewrite <- Hp in He. rewrite Forall_forall in H3. apply (inside_le _ (Pos.succ obj)); [lia|by apply H3].
  - apply (inside_le _ (Pos.succ obj)); [lia|]. apply (H4 q v); [done|lia|done].
Qed.

Lemma object_start v roots m n :
  var_wf v roots -> room (vars v) m -> 0 <= n <= 2 ^ 27 ->
  exists v', ph_var_object n v = Ret (Some (vnext v), v') /\ built None m (vnext v :: roots) v v' /\
    obj_holds (vnext v) (vars v') [] [].
Proof.
  intros Hw Hm Hs. destruct (object_new_ok srefs v roots n Hw Hs) as ([p|] & v' & E & H & Hc).
  2:{ destruct H as (_ & _ & _ & k & x & Hn). by rewrite plenty_alloc in Hn. }
  pose proof H as (_ & -> & Hv & _ & Hw'). exists v'. split; [done|]. split.
  { eapply built_made; [done|apply refs_in_empty|unfold is_singleton; naive_solver| | |done|done].
    - eassert (vars v' !! vnext v = Some _) as Hp by (by rewrite Hv, lookup_insert_eq). apply (vw_body _ _ Hw' _ _ Hp).
    - apply strs_in_empty. }
  split; [|done|done| |].
  - rewrite Hv, lookup_insert_eq. do 2 eexists. split; [done|]. split; [done|]. split; [unfold empty_oval; cbn [o_table]; by rewrite entries_none|done].
  - intros q u r Hq Hle _. rewrite Hv in Hq. rewrite lookup_insert_ne in Hq by lia.
    pose proof (vw_fresh _ _ Hw q u Hq). lia.
  - by eapply fresh_not_static, Pos.le_refl.
Qed.

Lemma built_refl roots v m : var_wf v roots -> room (vars v) m -> built None m roots v v.
Proof.
  intros Hw Hm. split; [done| |lia|done|done]. split.
  - intros q u _ Hq. by exists u.
  - intros q u Hq. left. by exists u.
  - by eapply closed_from_next.
Qed.

(** A new string as the key. *)
Lemma set_cstr_built obj s p t n m roots v kvs es :
  var_wf v (p :: obj :: roots) -> obj_holds obj (vars v) kvs es -> closed_from n (vars v) -> inside n p ->
  (obj < n)%positive -> means (vars v) t p -> room (vars v) m -> zlen es < 2 ^ 27 -> s ∉ kvs.*1 ->
  Forall (fun b => b <> 0) s ->
  exists v' key, ph_var_object_set_claim_cstr obj s p v = Ret (PH_OK, v') /\
    built (Some obj) m (obj :: roots) v v' /\ obj_holds obj (vars v') (kvs ++ [(s, t)]) (es ++ [(key, p)]).
Proof.
  intros Hw Hh Hc Hp Hn Ht Hm Hlt Hs Hnz. destruct (plenty_string (srefs := srefs) s (ext v)) as (k & x & E & Hk & Hx).
  assert (var_wf (set_ext x v) (p :: obj :: roots)) as Hwx by (by apply var_wf_ext).
  destruct (set_built obj k p t n m roots (set_ext x v) kvs es) as (v' & E' & Hn' & Hw' & He' & Hr' & Hsp & Hh');
    [done|done|done|done|done|done|done|done|by rewrite Hk|].
  exists v', k. split; [|split; [|by rewrite Hk in Hh']].
  - unfold ph_var_object_set_claim_cstr. rewrite (cstr_all s Hnz).
    assert (on_ext (string_make s) v = Ret (Some k, set_ext x v)) as E1 by (unfold on_ext; by rewrite E).
    step_with E1. by step_with E'.
  - split; [done|done|by rewrite Hn'|done|]. intros t'. rewrite Hsp, occ_cons. change (occ t' []) with 0.
    unfold VariantProofs.loose. cbn [set_ext ext vars]. rewrite Hx. lia.
Qed.

(** ** Temporary values *)

(** The variants are the same, and every string has the same references. *)
Record quiet v v' : Prop := {
  q_vars : vars v' = vars v;
  q_next : (vnext v <= vnext v')%positive;
  q_strs t : srefs (ext v') t = srefs (ext v) t;
}.

Lemma quiet_refl v : quiet v v.
Proof. by split; [|lia|]. Qed.

Lemma quiet_trans v1 v2 v3 : quiet v1 v2 -> quiet v2 v3 -> quiet v1 v3.
Proof. intros [A1 A2 A3] [B1 B2 B3]. split; [congruence|lia|]. intros t. by rewrite B3. Qed.

Lemma quiet_wf v v' roots : quiet v v' -> var_wf v roots -> var_wf v' roots.
Proof.
  intros [E Hn _] [H1 H2 H3 H4 H5]. split; rewrite E; try done. intros p u Hp. pose proof (H3 p u Hp). lia.
Qed.

Lemma built_quiet a m roots v v1 v2 : built a m roots v v1 -> quiet v1 v2 -> built a m roots v v2.
Proof.
  intros [H1 H2 H3 H4 H5] Hq. pose proof (quiet_wf _ _ _ Hq H1). destruct Hq as [E Hn Hs].
  split; [done|by rewrite E|lia|by rewrite E|]. intros t. rewrite <- H5. unfold VariantProofs.loose. by rewrite E, Hs.
Qed.

Lemma body_sub_rc h h' roots : rc ∅ h roots -> rc ∅ h' roots -> body_sub h' h -> body_sub h h' -> h' = h.
Proof.
  intros Hr Hr' Hs Hs'. apply map_eq. intros p.
  assert (forall q, refcount ∅ h' roots q = refcount ∅ h roots q) as Hc.
  { intros q. pose proof (refcount_mono ∅ _ _ roots q Hs). pose proof (refcount_mono ∅ _ _ roots q Hs'). lia. }
  destruct (h' !! p) as [u|] eqn:Hu.
  - destruct (Hs p u Hu) as (u' & Hu' & Hb). rewrite Hu'. f_equal.
    destruct (rc_live _ _ _ Hr p u' ltac:(set_solver) Hu') as [Hv _].
    destruct (rc_live _ _ _ Hr' p u ltac:(set_solver) Hu) as [Hv' _]. rewrite Hc in Hv'. destruct u, u'. cbn in *. congruence.
  - destruct (h !! p) as [u|] eqn:Hu'; [|done]. destruct (Hs' p u Hu') as (u' & ? & _). congruence.
Qed.

(** Releasing what was built gives the variants from before back. *)
Lemma temporary m roots v v1 p :
  var_wf v roots -> built None m (p :: roots) v v1 -> exists v2, ph_var_delref p v1 = Ret (tt, v2) /\ quiet v v2.
Proof.
  intros Hw [H1 H2 H3 H4 H5]. destruct (release_ok srefs v1 roots p H1) as (v2 & E & Hw2 & Hs & Hl & Hst).
  exists v2. split; [done|].
  assert (forall q, reachable (vars v) roots q -> reachable (vars v1) roots q) as Hup.
  { intros q. induction 1 as [q Hq|q Hq|q u r _ IH Hq Hr]; [by apply reach_root|by apply reach_static|].
    destruct (ex_old _ _ _ _ H2 q u) as (u' & Hu' & Hb); [done|done|]. apply reach_child with q u'; [done|done|by rewrite Hb]. }
  assert (forall q, reachable (vars v1) roots q -> reachable (vars v) roots q) as Hdown.
  { intros q. induction 1 as [q Hq|q Hq|q u r _ IH Hq Hr]; [by apply reach_root|by apply reach_static|].
    destruct (reachable_live _ _ _ (vw_rc _ _ Hw) IH) as [u0 Hu0].
    destruct (ex_old _ _ _ _ H2 q u0) as (u' & Hu' & Hb); [done|done|]. simplify_eq. apply reach_child with q u0; [done|done|].
    by rewrite <- Hb. }
  assert (vars v2 = vars v) as Hv.
  { apply (body_sub_rc (vars v) (vars v2) roots); [apply Hw|apply Hw2| |].
    - intros q u Hq. assert (is_Some (vars v2 !! q)) as Hq2 by (by exists u). apply Hl, Hdown in Hq2.
      destruct (reachable_live _ _ _ (vw_rc _ _ Hw) Hq2) as [u0 Hu0]. exists u0. split; [done|].
      destruct (Hs q u Hq) as (u1 & Hu1 & Hb1). destruct (ex_old _ _ _ _ H2 q u0) as (u' & Hu' & Hb); [done|done|]. congruence.
    - intros q u Hq. assert (is_Some (vars v2 !! q)) as [u2 Hu2].
      { apply Hl, Hup, (live_reachable _ _ (vw_rc _ _ Hw)); [apply Hw|by exists u]. }
      exists u2. split; [done|]. destruct (Hs q u2 Hu2) as (u1 & Hu1 & Hb1).
      destruct (ex_old _ _ _ _ H2 q u) as (u' & Hu' & Hb); [done|done|]. congruence. }
  split; [done| |].
  - rewrite (release_next srefs v1 roots p v2 H1 E). lia.
  - intros t. pose proof (Hst t) as Ht. rewrite H5 in Ht. unfold VariantProofs.loose in Ht. rewrite Hv in Ht. lia.
Qed.

End build.

Arguments quiet {X D} srefs v v'.
Arguments built {X env D} srefs a m roots v v'.
End VariantBuild.
