(* ===== verification/JsonTokens.v ===== *)
(** * String tokens of the JSON reader

    The text of strings: [sbody] says which texts stand for a string between
    quotes; on such a text the two loops of [lex_scan_string] find the closing
    quote and decode the string within the block they allocated. *)

From Stdlib Require Import ZArith Lia.
From stdpp Require Import base numbers list gmap.
From S2P Require Import Prelude SysUtil PhString PhStringUtf8 HashTable StringKeys Stream StreamProofs.
From S2P Require Import Variant VariantProofs JsonLoad JsonLexProofs.

Module JsonTokens.
Export JsonLexProofs.
Import PhStringUtf8.

(** ** The text of strings *)

(** Four hex digits with the value [v]. *)
Definition hexes (ds : list Z) (v : Z) : Prop :=
  length ds = 4%nat /\ Forall (fun b => 0 <= b < 128 /\ l_isxdigit b = true) ds /\ hex_value ds 0 = Some v.

Definition high_surrogate (v : Z) : bool := (0xD800 <=? v) && (v <=? 0xDBFF).
Definition low_surrogate (v : Z) : bool := (0xDC00 <=? v) && (v <=? 0xDFFF).

(** [sbody text s]: between quotes, [text] stands for the string [s]. *)
Inductive sbody : list Z -> list Z -> Prop :=
  | sb_nil : sbody [] []
  | sb_raw b t s : 0x20 <= b < 0xfe -> b <> 34 -> b <> 92 -> sbody t s -> sbody (b :: t) (b :: s)
  | sb_escape e b t s : escape_char e = Some b -> sbody t s -> sbody (92 :: e :: t) (b :: s)
  | sb_unicode ds v bs t s : hexes ds v -> high_surrogate v = false -> low_surrogate v = false -> v <> 0 ->
      utf8_encode v = Some bs -> sbody t s -> sbody (92 :: 117 :: ds ++ t) (bs ++ s)
  | sb_pair ds1 v1 ds2 v2 bs t s : hexes ds1 v1 -> hexes ds2 v2 ->
      high_surrogate v1 = true -> low_surrogate v2 = true ->
      utf8_encode (Z.shiftl (v1 - 0xD800) 10 + (v2 - 0xDC00) + 0x10000) = Some bs ->
      sbody t s -> sbody (92 :: 117 :: ds1 ++ 92 :: 117 :: ds2 ++ t) (bs ++ s).

(** The size of an encoded code point. *)
Lemma encode_length v bs : utf8_encode v = Some bs ->
  0 <= v /\ (v < 0x10000 -> (length bs <= 3)%nat) /\ (length bs <= 4)%nat /\ (1 <= length bs)%nat.
Proof.
  unfold utf8_encode. intros H. repeat case_bool; zbool; simplify_eq; cbn; split_and!; try lia.
Qed.

Lemma hex_value_bound ds v acc : hex_value ds acc = Some v -> 0 <= acc ->
  Forall (fun b => 0 <= b < 128 /\ l_isxdigit b = true) ds -> 0 <= v < (acc + 1) * 16 ^ zlen ds.
Proof.
  revert acc. induction ds as [|b ds IH]; intros acc H Ha Hds; cbn [hex_value] in H.
  { injection H as <-. cbn. lia. }
  apply Forall_cons in Hds as [[Hb Hx] Hds]. rewrite schar_ascii in H by done.
  rewrite Z.shiftl_mul_pow2 in H by lia. change (2 ^ 4) with 16 in H.
  assert (exists d, 0 <= d < 16 /\ hex_value ds (acc * 16 + d) = Some v) as (d & Hd & Hv).
  { unfold l_isxdigit, l_isdigit, l_islower, l_isupper in *. repeat case_bool; zbool; try done;
      eexists; (split; [|exact H]); try lia. }
  specialize (IH _ Hv ltac:(lia) Hds). cbn [length]. rewrite Nat2Z.inj_succ, Z.pow_succ_r by lia. nia.
Qed.

Lemma hexes_bound ds v : hexes ds v -> 0 <= v < 0x10000.
Proof.
  intros (Hl & Hf & Hv). pose proof (hex_value_bound ds v 0 Hv ltac:(lia) Hf) as H. rewrite Hl in H. done.
Qed.

(** A string is no longer than its text. *)
Lemma sbody_length t s : sbody t s -> (length s <= length t)%nat.
Proof.
  induction 1 as [|b t s _ _ _ _ IH|e b t s _ _ IH|ds v bs t s Hh _ _ _ He _ IH|ds1 v1 ds2 v2 bs t s H1 H2 _ _ He _ IH];
    cbn [length] in *; rewrite ?length_app; cbn [length]; rewrite ?length_app; try lia.
  - pose proof (hexes_bound _ _ Hh). destruct Hh as (Hl & _). destruct (encode_length _ _ He) as (_ & Hb & _). lia.
  - destruct H1 as (Hl1 & _), H2 as (Hl2 & _). destruct (encode_length _ _ He) as (_ & _ & Hb & _). lia.
Qed.

Section tokens.
Context {X : Type} {env : var_env X} {jenv : json_env X env} {D B : Type}.
Context (funcs : Stream.ph_stream_funcs B) (rfuel : nat).
Context (inv : B -> Prop) (rest : B -> list Z) `{Hsrc : !StreamProofs.source funcs inv rest (fun _ => False)}.
Context (srefs : X -> positive -> Z) `{Henv : !VariantProofs.var_env_ok env srefs} `{Hplenty : !plenty env jenv srefs}.
Context (junk : nat -> list Z) (Hjunk : forall n, length (junk n) = n).
Abbreviation jworld := (@jworld X D B).
Abbreviation lex_get_save := (lex_get_save funcs rfuel junk).
Abbreviation scan_loop := (scan_loop funcs rfuel junk).
Abbreviation at_ := (at_ inv rest).
Abbreviation past := (past inv rest).
Abbreviation same_token := (same_token srefs).
Abbreviation kept := (kept srefs).
Implicit Types w : jworld.

(** Reading on, to the next character of [l] or the end. *)
Definition ahead w (t : list Z) (l : list Z) (c : Z) : Prop :=
  match l with
  | [] => c = STREAM_STATE_EOF /\ at_ w t []
  | b :: l => c = schar b /\ past w t b l
  end.

Lemma get_save w t l :
  at_ w t l -> zlen t < 2 ^ 30 ->
  exists c w', lex_get_save w = Ret (c, w') /\ ahead w' t l c /\ same_token w w'.
Proof.
  intros Hat Hlt. destruct l as [|b l].
  - destruct (get_save_eof funcs rfuel inv rest srefs junk w t Hat) as (w' & E & H & K). by eexists _, w'.
  - destruct (get_save_char funcs rfuel inv rest srefs junk Hjunk w t b l Hat Hlt) as (w' & E & H & K). by eexists _, w'.
Qed.

Lemma ahead_next w t b l c :
  ahead w t (b :: l) c -> zlen t < 2 ^ 29 ->
  exists c' w', lex_get_save w = Ret (c', w') /\ ahead w' (t ++ [b]) l c' /\ same_token w w'.
Proof.
  intros [_ Hp] Hlt. apply get_save; [by apply past_at|]. rewrite length_app. cbn. lia.
Qed.

(** One more character of the text is read. *)
#[local] Ltac next H :=
  let c := fresh "c" in let w := fresh "w" in let E := fresh "E" in let Ha := fresh "Ha" in let Hk := fresh "Hk" in
  destruct (ahead_next _ _ _ _ _ H) as (c & w & E & Ha & Hk);
  [repeat (rewrite length_app in * || cbn [length] in * ); lia|]; step_with E; clear E.

(** Decide tests on a known character. *)
#[local] Ltac known_char :=
  rewrite schar_ascii by lia; unfold STREAM_STATE_ERROR, STREAM_STATE_EOF;
  cbn [Z.eqb Pos.eqb Z.leb Z.compare Pos.compare Pos.compare_cont andb orb negb].

Lemma escape_cases e b : escape_char e = Some b ->
  (e = 34 \/ e = 92 \/ e = 47 \/ e = 98 \/ e = 102 \/ e = 110 \/ e = 114 \/ e = 116).
Proof. unfold escape_char. intros H. repeat case_bool; zbool; try lia; try done. Qed.

Lemma xdigit_char b : 0 <= b < 128 -> l_isxdigit b = true -> l_isxdigit (schar b) = true.
Proof. intros Hb. by rewrite schar_ascii. Qed.

(** The first loop of [lex_scan_string] over an escape with hex digits. *)
Lemma scan_unicode fuel w t ds v l c :
  hexes ds v -> ahead w t (92 :: 117 :: ds ++ l) c -> zlen t + 8 < 2 ^ 29 ->
  exists c' w', scan_loop (S fuel) c w = scan_loop fuel c' w' /\
    ahead w' (t ++ 92 :: 117 :: ds) l c' /\ same_token w w'.
Proof.
  intros (Hl & Hds & _) Ha Hlt. cbn [JsonLoad.scan_loop].
  destruct ds as [|d1 [|d2 [|d3 [|d4 [|? ?]]]]]; try done. decompose_Forall_hyps. cbn [app] in *.
  pose proof Ha as [-> _]. known_char.
  next Ha. pose proof Ha0 as [-> _]. known_char.
  next Ha0. pose proof Ha1 as [-> _]. rewrite xdigit_char by tauto. cbn [negb].
  next Ha1. pose proof Ha2 as [-> _]. rewrite xdigit_char by tauto. cbn [negb].
  next Ha2. pose proof Ha3 as [-> _]. rewrite xdigit_char by tauto. cbn [negb].
  next Ha3. pose proof Ha4 as [-> _]. rewrite xdigit_char by tauto. cbn [negb].
  next Ha4. do 2 eexists. split; [reflexivity|]. rewrite <- !app_assoc in Ha5. split; [exact Ha5|].
  by do 5 (etransitivity; [eassumption|]).
Qed.

(** The first loop of [lex_scan_string] finds the closing quote. *)
Lemma scan_ok body s : sbody body s -> forall fuel w t l c,
  ahead w t (body ++ 34 :: l) c -> zlen t + zlen body + 2 < 2 ^ 29 -> (length body < fuel)%nat ->
  exists w', scan_loop fuel c w = Ret (true, w') /\ past w' (t ++ body) 34 l /\ same_token w w'.
Proof.
  induction 1 as [|b body s Hb H34 H92 _ IH|e b body s He _ IH|ds v bs body s Hh _ _ _ _ _ IH|ds1 v1 ds2 v2 bs body s H1 H2 _ _ _ _ IH];
    intros fuel w t l c Ha Hlt Hf; (destruct fuel as [|fuel]; [lia|]).
  - cbn [JsonLoad.scan_loop]. destruct Ha as [-> Hp]. exists w. rewrite app_nil_r. done.
  - cbn [JsonLoad.scan_loop]. pose proof Ha as [-> _].
    assert (schar b <> 34 /\ schar b <> 92 /\ ~ (0 <= schar b <= 31) /\ schar b <> -1 /\ schar b <> -2) as (N1 & N2 & N3 & N4 & N5).
    { rewrite schar_value by lia. case_bool; zbool; lia. }
    unfold STREAM_STATE_ERROR, STREAM_STATE_EOF.
    rewrite (proj2 (Z.eqb_neq _ 34)), (proj2 (Z.eqb_neq _ (-2))), (proj2 (Z.eqb_neq _ (-1))), (proj2 (Z.eqb_neq _ 92)) by done.
    destruct ((0 <=? schar b) && (schar b <=? 31)) eqn:E; zbool; [lia|]. cbn [app] in Ha. next Ha.
    destruct (IH fuel _ _ _ _ Ha0) as (w' & E' & Hp & Hk'); [rewrite length_app; cbn [length] in *; lia|cbn in Hf; lia|].
    exists w'. split; [done|]. rewrite <- app_assoc in Hp. split; [done|by etransitivity].
  - cbn [JsonLoad.scan_loop]. pose proof Ha as [-> _]. known_char. cbn [app] in Ha. next Ha.
    pose proof Ha0 as [-> _]. apply escape_cases in He. rewrite schar_ascii by lia.
    destruct (e =? c_u) eqn:Eu; zbool; [lia|].
    destruct ((e =? c_quote) || (e =? c_backslash) || (e =? c_slash) || (e =? 98) || (e =? 102) || (e =? 110) ||
      (e =? 114) || (e =? 116)) eqn:Ee; zbool; [|lia].
    next Ha0. destruct (IH fuel _ _ _ _ Ha1) as (w' & E' & Hp & Hk');
      [rewrite !length_app; cbn [length] in *; lia|cbn in Hf; lia|].
    exists w'. split; [done|]. rewrite <- !app_assoc in Hp. split; [exact Hp|]. by do 2 (etransitivity; [eassumption|]).
  - rewrite <- !app_comm_cons, <- app_assoc in Ha. pose proof Hh as (Hl & _).
    cbn [length] in Hlt, Hf. rewrite length_app in Hlt, Hf.
    destruct (scan_unicode fuel w t ds v _ c Hh Ha) as (c' & w1 & E & Ha1 & Hk1); [lia|]. rewrite E.
    destruct (IH fuel _ _ _ _ Ha1) as (w' & E' & Hp & Hk');
      [rewrite length_app; cbn [length]; lia|lia|].
    exists w'. split; [done|]. rewrite <- app_assoc in Hp. split; [done|by etransitivity].
  - rewrite <- !app_comm_cons, <- app_assoc, <- !app_comm_cons, <- app_assoc in Ha.
    cbn [length] in Hlt, Hf. rewrite length_app in Hlt, Hf. cbn [length] in Hlt, Hf. rewrite length_app in Hlt, Hf.
    pose proof H1 as (Hl1 & _). pose proof H2 as (Hl2 & _).
    destruct (scan_unicode fuel w t ds1 v1 _ c H1 Ha) as (c' & w1 & E & Ha1 & Hk1); [lia|]. rewrite E.
    destruct fuel as [|fuel]; [lia|].
    destruct (scan_unicode fuel w1 _ ds2 v2 _ c' H2 Ha1) as (c2 & w2 & E2 & Ha2 & Hk2);
      [rewrite length_app; cbn [length]; lia|]. rewrite E2.
    destruct (IH fuel _ _ _ _ Ha2) as (w' & E' & Hp & Hk'); [rewrite !length_app; cbn [length]; lia|lia|].
    exists w'. split; [done|]. rewrite <- !app_assoc in Hp. split; [exact Hp|].
    by do 2 (etransitivity; [eassumption|]).
Qed.

Lemma emit_ok cap t bs w : zlen t + zlen bs <= cap -> emit cap t bs w = Ret (t ++ bs, w).
Proof. intros H. unfold emit. by rewrite (proj2 (Z.leb_le _ _)). Qed.

Lemma decode_escape_ok ds v l w : hexes ds v -> decode_unicode_escape (117 :: ds ++ l) w = Ret (v, w).
Proof.
  intros (Hl & _ & Hv). destruct ds as [|d1 [|d2 [|d3 [|d4 [|? ?]]]]]; try done.
  unfold decode_unicode_escape. cbn [app]. by rewrite Hv.
Qed.

Lemma encode_not_nil v bs : utf8_encode v = Some bs -> bs <> [].
Proof. intros H. destruct (encode_length _ _ H) as (_ & _ & _ & Hl). by destruct bs; [cbn in Hl; lia|]. Qed.

(** The second loop of [lex_scan_string] decodes the text, within the block. *)
Lemma decode_loop_ok body s : sbody body s -> forall fuel cap z t w,
  (length body < fuel)%nat -> zlen t + zlen s <= cap ->
  decode_loop fuel cap (body ++ 34 :: z) t w = Ret (Some (t ++ s), w).
Proof.
  induction 1 as [|b body s Hb H34 H92 _ IH|e b body s He _ IH|ds v bs body s Hh Hn1 Hn2 Hn0 He _ IH
    |ds1 v1 ds2 v2 bs body s H1 H2 Hs1 Hs2 He _ IH];
    intros fuel cap z t w Hf Hcap; (destruct fuel as [|fuel]; [lia|]).
  - cbn. by rewrite app_nil_r.
  - cbn [app decode_loop]. rewrite (proj2 (Z.eqb_neq b 34)), (proj2 (Z.eqb_neq b 92)) by done.
    cbn [length] in *. step_with (emit_ok cap t [b] w ltac:(cbn; lia)).
    rewrite IH by (rewrite ?length_app; cbn [length]; lia). by rewrite <- app_assoc.
  - cbn [app decode_loop]. cbn [Z.eqb Pos.eqb].
    pose proof (escape_cases _ _ He) as Hc. rewrite (proj2 (Z.eqb_neq e c_u)) by lia. rewrite He.
    cbn [length] in *. step_with (emit_ok cap t [b] w ltac:(cbn; lia)).
    rewrite IH by (rewrite ?length_app; cbn [length]; lia). by rewrite <- app_assoc.
  - rewrite <- !app_comm_cons, <- app_assoc. cbn [decode_loop]. cbn [Z.eqb Pos.eqb].
    step_with (decode_escape_ok ds v (body ++ 34 :: z) w Hh). pose proof Hh as (Hl & _).
    cbn [length] in Hf. rewrite length_app in Hf, Hcap.
    assert (drop 5 (117 :: ds ++ body ++ 34 :: z) = body ++ 34 :: z) as ->.
    { change (drop 5 (117 :: ds ++ body ++ 34 :: z)) with (drop 4 (ds ++ body ++ 34 :: z)). by rewrite drop_app_length'. }
    cbv zeta. fold (high_surrogate v) (low_surrogate v). rewrite Hn1, Hn2, (proj2 (Z.eqb_neq v 0)), He by done.
    step_with (emit_ok cap t bs w ltac:(lia)). rewrite IH by (rewrite ?length_app; lia). by rewrite <- app_assoc.
  - rewrite <- !app_comm_cons, <- app_assoc. cbn [decode_loop]. cbn [Z.eqb Pos.eqb].
    cbn [app]. rewrite <- app_assoc. step_with (decode_escape_ok ds1 v1 (92 :: 117 :: ds2 ++ body ++ 34 :: z) w H1).
    pose proof H1 as (Hl1 & _). pose proof H2 as (Hl2 & _). cbn [length] in Hf. rewrite !length_app in Hf. cbn [length] in Hf.
    rewrite length_app in Hcap. rewrite length_app in Hf.
    assert (forall q, drop 5 (117 :: ds1 ++ q) = q) as Hd1.
    { intros q. change (drop 5 (117 :: ds1 ++ q)) with (drop 4 (ds1 ++ q)). by rewrite drop_app_length'. }
    rewrite Hd1. fold (high_surrogate v1). rewrite Hs1. cbv zeta.
    step_with (decode_escape_ok ds2 v2 (body ++ 34 :: z) w H2).
    assert (drop 4 (ds2 ++ body ++ 34 :: z) = body ++ 34 :: z) as -> by (by rewrite drop_app_length').
    fold (low_surrogate v2). rewrite Hs2, He. step_with (emit_ok cap t bs w ltac:(lia)).
    rewrite IH by (rewrite ?length_app; lia). by rewrite <- app_assoc.
Qed.

Lemma is_text_buf t bs : is_text t bs -> exists z, t_buf t = bs ++ z.
Proof.
  intros (Hl & Hle & Hb). exists (drop (length bs) (t_buf t)). unfold t_bytes in Hb. rewrite Hl, Nat2Z.id in Hb.
  rewrite <- Hb at 1. by rewrite take_drop.
Qed.

Lemma json_alloc_ok n w : exists x, on_x (mem_alloc n) w = Ret (true, set_jw (set_ext x (jw w)) w) /\
  forall t, srefs x t = srefs (ext (jw w)) t.
Proof.
  unfold on_x, on_vars, on_ext. pose proof (plenty_alloc n (ext (jw w))) as H1.
  pose proof (VariantProofs.alloc_refs n (ext (jw w))) as H2.
  destruct (mem_alloc n (ext (jw w))) as [ok x]. cbn in *. subst ok. by exists x.
Qed.

(** The lexer stands before [l] between two tokens. *)
Definition ready w (l : list Z) : Prop :=
  (exists t, is_text (saved_text (lex w)) t) /\ input inv rest (stream (lex w)) l.

Lemma lex_scan_string_ok fuel w body s l :
  at_ w [34] (body ++ 34 :: l) -> sbody body s -> zlen body < 2 ^ 28 -> (length body < fuel)%nat ->
  exists w', lex_scan_string funcs rfuel junk fuel w = Ret (tt, w') /\ ready w' l /\ kept w w' /\
    token (lex w') = TOKEN_STRING /\ value (lex w') = ValString (Some s).
Proof.
  intros Hat Hs Hlt Hf. unfold lex_scan_string. step. step.
  set (w1 := set_token TOKEN_INVALID _). assert (at_ w1 [34] (body ++ 34 :: l)) as Hat1 by exact Hat.
  destruct (get_save w1 [34] _ Hat1) as (c & w2 & E2 & Ha2 & Hk2); [cbn; lia|]. step_with E2.
  destruct (scan_ok body s Hs fuel w2 [34] l c Ha2) as (w3 & E3 & Hp3 & Hk3); [cbn [length]; lia|done|].
  step_with E3. cbn [negb]. step. destruct Hp3 as [Ht3 Hb3].
  destruct (is_text_buf _ _ Ht3) as [z Hz]. pose proof Ht3 as (Hl3 & _).
  rewrite length_app in Hl3. cbn [length app] in Hl3. rewrite Hl3, (wrapU_small 32) by lia.
  destruct (json_alloc_ok (Z.of_nat (S (length body) + 1) + 1) w3) as (x & E4 & Hx). step_with E4. cbn [negb]. step.
  rewrite Hz. pose proof (sbody_length _ _ Hs) as Hsl.
  change (drop 1 ((([34] ++ body) ++ [34]) ++ z)) with ((body ++ [34]) ++ z). rewrite <- app_assoc.
  erewrite bind_ret by (apply (decode_loop_ok body s Hs fuel _ z []); [done|cbn; lia]). cbn [app].
  destruct (zlen s <? Z.of_nat (S (length body) + 1) + 1) eqn:E; zbool; [|lia]. step.
  eexists. split; [reflexivity|]. split; [|split; [|done]].
  - split; [by exists (([34] ++ body) ++ [34])|]. by eapply behind_input.
  - destruct Hk2 as ([K1 K2 K3 K4] & _ & _), Hk3 as ([L1 L2 L3 L4] & _ & _). split; cbn in *; [congruence|congruence| |congruence].
    intros t. rewrite Hx, L3, K3. done.
Qed.
End tokens.
End JsonTokens.
