(* ===== verification/JsonScan.v ===== *)
(** * The scanner of the JSON reader

    [spells k t] says that the text [t] is a spelling of the token [k]; on
    white space, such a text and a delimiter [lex_scan] delivers the token and
    stops right behind its text. *)

From Stdlib Require Import ZArith Lia.
From stdpp Require Import base numbers list gmap.
From S2P Require Import Prelude SysUtil PhString PhStringUtf8 HashTable StringKeys Stream StreamProofs.
From S2P Require Import Variant VariantProofs JsonLoad JsonLexProofs JsonTokens.

Module JsonScan.
Export JsonTokens.

Inductive tok (D : Type) :=
  | KPunct (c : Z) | KStr (s : list Z) | KInt (z : Z) | KReal (d : D) | KTrue | KFalse | KNull.
Arguments KPunct {D}.
Arguments KStr {D}.
Arguments KInt {D}.
Arguments KReal {D}.
Arguments KTrue {D}.
Arguments KFalse {D}.
Arguments KNull {D}.

(** ** Numbers *)

Definition digit (b : Z) : Prop := 48 <= b <= 57.

(** No superfluous zeros. *)
Inductive int_part : list Z -> Prop :=
  | ip_zero : int_part [48]
  | ip_digits d ds : 49 <= d <= 57 -> Forall digit ds -> int_part (d :: ds).

Definition minus (neg : bool) : list Z := if neg then [45] else [].

Inductive fraction : list Z -> Prop :=
  | fr_none : fraction []
  | fr_digits d ds : digit d -> Forall digit ds -> fraction (46 :: d :: ds).

Inductive exponent : list Z -> Prop :=
  | ex_none : exponent []
  | ex_digits e sign d ds : e = 69 \/ e = 101 -> sign = [] \/ sign = [43] \/ sign = [45] ->
      digit d -> Forall digit ds -> exponent (e :: sign ++ d :: ds).

(** The value of decimal digits. *)
Definition decimal (ds : list Z) : Z := fold_left (fun v c => 10 * v + (c - 48)) ds 0.

Definition signed (neg : bool) (v : Z) : Z := if neg then - v else v.

(** What may follow a token: white space, a comma, a colon or a closing
    bracket. *)
Definition delim (b : Z) : Prop := b = 32 \/ b = 9 \/ b = 10 \/ b = 13 \/ b = 44 \/ b = 58 \/ b = 93 \/ b = 125.

Definition space (b : Z) : Prop := b = 32 \/ b = 9 \/ b = 10 \/ b = 13.

Lemma digits_value_app ds z v n :
  Forall digit ds -> match z with b :: _ => l_isdigit b = false | [] => True end ->
  digits_value (ds ++ z) v n = (fold_left (fun v c => 10 * v + (c - 48)) ds v, (n + length ds)%nat).
Proof.
  intros Hds Hz. revert v n. induction Hds as [|d ds Hd _ IH]; intros v n; cbn [app fold_left length digits_value].
  - rewrite Nat.add_0_r. destruct z as [|b z]; [done|]. cbn. by rewrite Hz.
  - unfold digit in Hd. unfold l_isdigit at 1. rewrite (proj2 (Z.leb_le 48 d)), (proj2 (Z.leb_le d 57)) by lia.
    cbn [andb]. rewrite IH. f_equal. lia.
Qed.

Lemma int_part_digits ds : int_part ds -> Forall digit ds /\ ds <> [].
Proof.
  intros [|d ds' Hd Hds]; (split; [|done]); repeat constructor; try (unfold digit; lia). done.
Qed.

(** [strtoll] on an integer that is followed by another character. *)
Lemma strtoll_ok neg ds b z :
  int_part ds -> l_isdigit b = false -> - 2 ^ 63 <= signed neg (decimal ds) < 2 ^ 63 ->
  strtoll (minus neg ++ ds ++ b :: z) = (signed neg (decimal ds), length (minus neg ++ ds), false).
Proof.
  intros Hi Hb Hr. destruct (int_part_digits _ Hi) as [Hds _].
  assert (forall n, digits_value (ds ++ b :: z) 0 n = (decimal ds, (n + length ds)%nat)) as Hv.
  { intros n. by apply digits_value_app. }
  unfold strtoll.
  assert ((match minus neg ++ ds ++ b :: z with
           | 45 :: s => (true, s, 1%nat) | 43 :: s => (false, s, 1%nat) | _ => (false, minus neg ++ ds ++ b :: z, 0%nat)
           end) = (neg, ds ++ b :: z, length (minus neg))) as ->.
  { destruct neg; [done|]. cbn [minus app]. destruct Hi as [|d ds Hd]; [done|]. cbn [app].
    assert (d = 49 \/ d = 50 \/ d = 51 \/ d = 52 \/ d = 53 \/ d = 54 \/ d = 55 \/ d = 56 \/ d = 57) as Hc by lia.
    by repeat destruct Hc as [->|Hc]; [..|subst d]. }
  rewrite Hv. fold (signed neg (decimal ds)). rewrite (proj2 (Z.ltb_ge _ _)), (proj2 (Z.ltb_ge _ _)) by lia.
  by rewrite length_app.
Qed.

Section scan.
Context {X : Type} {env : var_env X} {jenv : json_env X env} {D B : Type}.
Context (funcs : Stream.ph_stream_funcs B) (rfuel : nat).
Context (inv : B -> Prop) (rest : B -> list Z) `{Hsrc : !StreamProofs.source funcs inv rest (fun _ => False)}.
Context (srefs : X -> positive -> Z) `{Henv : !VariantProofs.var_env_ok env srefs} `{Hplenty : !plenty env jenv srefs}.
Context (junk : nat -> list Z) (Hjunk : forall n, length (junk n) = n).
Context (strtod : list Z -> D * nat * bool) (decimal_point : Z).
Abbreviation jworld := (@jworld X D B).
Abbreviation lex_get_save := (lex_get_save funcs rfuel junk).
Abbreviation scan_while := (scan_while funcs rfuel junk).
Abbreviation at_ := (at_ inv rest).
Abbreviation past := (past inv rest).
Abbreviation same_token := (same_token srefs).
Abbreviation kept := (kept srefs).
Abbreviation ahead := (ahead inv rest).
Abbreviation ready := (ready inv rest).
Implicit Types w : jworld.

(** What is behind the text does not go on with a character that satisfies
    [f]. *)
Definition ends (f : Z -> bool) (l : list Z) : Prop :=
  match l with b :: _ => f (schar b) = false | [] => f STREAM_STATE_EOF = false end.

Lemma scan_while_ok f ds : forall fuel w t l c,
  ahead w t (ds ++ l) c -> Forall (fun b => f (schar b) = true) ds -> ends f l ->
  zlen t + zlen ds < 2 ^ 29 -> (length ds < fuel)%nat ->
  exists c' w', scan_while f fuel c w = Ret (c', w') /\ ahead w' (t ++ ds) l c' /\ same_token w w'.
Proof.
  induction ds as [|d ds IH]; intros fuel w t l c Ha Hds Hl Hlt Hf; (destruct fuel as [|fuel]; [lia|]);
    cbn [JsonLoad.scan_while app length] in *.
  - exists c, w. rewrite app_nil_r. split; [|done]. destruct l as [|b l]; destruct Ha as [-> _]; cbn in Hl; by rewrite Hl.
  - apply Forall_cons in Hds as [Hd Hds]. pose proof Ha as [-> _]. rewrite Hd.
    destruct (ahead_next funcs rfuel inv rest srefs junk Hjunk w t d (ds ++ l) _ Ha) as (c1 & w1 & E1 & Ha1 & K1);
      [lia|]. step_with E1.
    destruct (IH fuel w1 (t ++ [d]) l c1 Ha1 Hds Hl) as (c2 & w2 & E2 & Ha2 & K2);
      [rewrite length_app; cbn [length]; lia|lia|].
    exists c2, w2. rewrite <- app_assoc in Ha2. split; [done|]. split; [done|by transitivity w1].
Qed.

(** Stepping back before what was read ahead. *)
Lemma unget_ahead w t l c :
  ahead w t l c -> zlen t < 2 ^ 30 ->
  exists w', lex_unget_unsave c w = Ret (tt, w') /\ at_ w' t l /\ same_token w w' /\
    forall b l', l = b :: l' -> exists x, t_buf (saved_text (lex w')) = t ++ b :: x.
Proof.
  intros Ha Hlt. destruct l as [|b l]; destruct Ha as [-> Ha].
  - exists w. split; [done|]. split; [done|]. by split.
  - destruct (unget_unsave_char inv rest srefs w t b l Ha Hlt) as (w' & E & Hat & K & Hb).
    exists w'. split_and!; [done|done|done|]. intros b' l' [= <- <-].
    destruct Hat as [Ht _]. destruct (is_text_buf _ _ Ht) as [x Hx]. rewrite Hx in Hb |- *.
    rewrite lookup_app_r, Nat.sub_diag in Hb by lia. destruct x as [|b' x]; [done|].
    injection Hb as ->. by exists x.
Qed.

(** [lex_get] and [lex_save] one after the other. *)
Lemma get_then_save w t b l :
  at_ w t (b :: l) -> zlen t < 2 ^ 30 ->
  exists w1 w2, lex_get funcs rfuel w = Ret (schar b, w1) /\ lex_save junk (schar b) w1 = Ret (tt, w2) /\
    past w2 t b l /\ same_token w w2.
Proof.
  intros Hat Hlt. destruct (get_save_char funcs rfuel inv rest srefs junk Hjunk w t b l Hat Hlt) as (w2 & E & Hp & K).
  destruct Hat as [_ Hi]. destruct (get_char funcs rfuel inv rest w b l Hi) as (s' & E1 & Hb).
  assert (char b) as Hch by (by destruct Hb as (? & ? & ? & ? & ? & ? & ?)).
  unfold lex_get_save, JsonLoad.lex_get_save in E. rewrite (bind_ret _ _ _ _ _ E1), (schar_is_char b Hch) in E.
  exists (set_stream s' w), w2. split; [done|]. unfold bind, ret in E.
  destruct (lex_save junk (schar b) (set_stream s' w)) as [[[] w3]| |]; by simplify_eq.
Qed.

Abbreviation lex_scan_number := (lex_scan_number funcs rfuel strtod decimal_point junk).
Abbreviation scan_number_end := (scan_number_end funcs rfuel strtod decimal_point junk).
Abbreviation scan_fraction := (scan_fraction funcs rfuel strtod decimal_point junk).
Abbreviation scan_exponent := (scan_exponent funcs rfuel strtod decimal_point junk).

Lemma digit_char b : digit b -> schar b = b /\ l_isdigit b = true.
Proof.
  unfold digit, l_isdigit. intros Hb. rewrite schar_ascii by lia. split; [done|].
  by rewrite (proj2 (Z.leb_le 48 b)), (proj2 (Z.leb_le b 57)) by lia.
Qed.

Lemma digits_scan ds : Forall digit ds -> Forall (fun b => l_isdigit (schar b) = true) ds.
Proof. intros H. eapply Forall_impl; [exact H|]. intros b Hb. cbn. by destruct (digit_char b Hb) as [-> ->]. Qed.

(** More digits of a number whose digit [d] was just read. *)
Lemma scan_digits fuel w t d ds l c :
  ahead w t (d :: ds ++ l) c -> Forall digit ds -> ends l_isdigit l ->
  zlen t + zlen ds + 1 < 2 ^ 29 -> (length ds < fuel)%nat ->
  exists c1 w1 c' w', lex_get_save w = Ret (c1, w1) /\ scan_while l_isdigit fuel c1 w1 = Ret (c', w') /\
    ahead w' (t ++ d :: ds) l c' /\ same_token w w'.
Proof.
  intros Ha Hds Hl Hlt Hf.
  destruct (ahead_next funcs rfuel inv rest srefs junk Hjunk w t d (ds ++ l) _ Ha) as (c1 & w1 & E1 & Ha1 & K1); [lia|].
  destruct (scan_while_ok l_isdigit ds fuel w1 (t ++ [d]) l c1 Ha1 (digits_scan _ Hds) Hl) as (c' & w' & E' & Ha' & K');
    [rewrite length_app; cbn [length]; lia|done|].
  exists c1, w1, c', w'. rewrite <- app_assoc in Ha'. split_and!; [done|done|done|by transitivity w1].
Qed.

(** The sign and the digits before the point. *)
Lemma scan_int_part fuel w neg ds l c :
  ahead w [] (minus neg ++ ds ++ l) c -> int_part ds -> ends l_isdigit l ->
  zlen ds + 2 < 2 ^ 29 -> (length ds < fuel)%nat ->
  exists c' w', lex_scan_number fuel c w = scan_number_end fuel c' w' /\ ahead w' (minus neg ++ ds) l c' /\ kept w w'.
Proof.
  intros Ha Hi Hl Hlt Hf. unfold lex_scan_number, JsonLoad.lex_scan_number. step.
  set (w0 := set_token TOKEN_INVALID w). assert (ahead w0 [] (minus neg ++ ds ++ l) c) as Ha0 by exact Ha.
  assert (kept w w0) as K0 by done.
  assert (exists c1 w1, (if c =? c_minus then lex_get_save else ret c) w0 = Ret (c1, w1) /\
    ahead w1 (minus neg) (ds ++ l) c1 /\ kept w w1) as (c1 & w1 & E1 & Ha1 & K1).
  { destruct neg; cbn [minus app] in Ha0 |- *.
    - pose proof Ha0 as [-> _]. rewrite schar_ascii by lia. change (45 =? c_minus) with true. cbv iota.
      destruct (ahead_next funcs rfuel inv rest srefs junk Hjunk w0 [] 45 _ _ Ha0) as (c1 & w1 & E1 & Ha1 & K1); [cbn; lia|].
      exists c1, w1. split_and!; [done|done|]. transitivity w0; [done|apply K1].
    - exists c, w0. assert (c =? c_minus = false) as ->; [|done].
      destruct Hi as [|d ds Hd _]; cbn in Ha0; destruct Ha0 as [-> _]; rewrite schar_ascii by lia; apply Z.eqb_neq; lia. }
  step_with E1. destruct Hi as [|d ds Hd Hds].
  - pose proof Ha1 as [-> _]. rewrite schar_ascii by lia. cbn [Z.eqb Pos.eqb].
    destruct (ahead_next funcs rfuel inv rest srefs junk Hjunk w1 _ 48 l _ Ha1) as (c2 & w2 & E2 & Ha3 & K3);
      [destruct neg; cbn; lia|]. step_with E2.
    assert (l_isdigit c2 = false) as ->.
    { destruct l as [|b l]; cbn in Hl; by destruct Ha3 as [-> _]. }
    exists c2, w2. split_and!; [done|done|]. transitivity w1; [done|apply K3].
  - pose proof Ha1 as [-> _]. rewrite schar_ascii by lia.
    rewrite (proj2 (Z.eqb_neq d c_zero)) by lia. destruct (digit_char d) as [_ Hdd]; [unfold digit; lia|]. rewrite Hdd.
    cbn [app length] in Ha1, Hlt, Hf.
    destruct (scan_digits fuel w1 (minus neg) d ds l _ Ha1 Hds Hl) as (c2 & w2 & c3 & w3 & E2 & E3 & Ha3 & K3);
      [destruct neg; cbn; lia|lia|].
    step_with E2. step_with E3. exists c3, w3. split_and!; [done|done|]. transitivity w1; [done|apply K3].
Qed.

Lemma unsave_ok w t b :
  is_text (saved_text (lex w)) (t ++ [b]) -> zlen t < 2 ^ 30 ->
  exists w', unsave w = Ret (tt, w') /\ is_text (saved_text (lex w')) t /\
    stream (lex w') = stream (lex w) /\ same_token w w'.
Proof.
  intros (Hl & Hle & Hb) Hlt. unfold unsave. step. eexists. split; [reflexivity|]. split; [|by split].
  rewrite length_app in *. cbn in *. unfold is_text, t_bytes in *. cbn.
  rewrite Hl in *. rewrite (wrapU_small 32) by lia. split; [lia|]. split; [lia|].
  replace (Z.to_nat (Z.of_nat (length t + 1) - 1)) with (length t) by lia. rewrite Nat2Z.id in Hb.
  apply (f_equal (take (length t))) in Hb. by rewrite take_take, take_app_length, Nat.min_l in Hb by lia.
Qed.

(** The end of the text or a delimiter. *)
Definition follows (l : list Z) : Prop := match l with b :: _ => delim b | [] => True end.

Lemma follows_ends l : follows l -> ends l_isdigit l /\ ends l_isalpha l.
Proof.
  destruct l as [|b l]; [done|]. cbn. unfold delim. intros Hb. rewrite schar_ascii by lia.
  by repeat destruct Hb as [->|Hb]; [..|subst b].
Qed.

Lemma follows_char w t l c : follows l -> ahead w t l c -> c <> 46 /\ c <> 69 /\ c <> 101.
Proof.
  destruct l as [|b l]; intros Hb [-> _]; [done|]. cbn in Hb. unfold delim in Hb. rewrite schar_ascii by lia. lia.
Qed.

Lemma scan_integer_ok w neg ds l c :
  ahead w (minus neg ++ ds) l c -> int_part ds -> follows l -> zlen ds < 2 ^ 29 ->
  - 2 ^ 63 <= signed neg (decimal ds) < 2 ^ 63 ->
  exists w', scan_integer junk c w = Ret (true, w') /\ at_ w' (minus neg ++ ds) l /\ kept w w' /\
    token (lex w') = TOKEN_INTEGER /\ value (lex w') = ValInteger (signed neg (decimal ds)).
Proof.
  intros Ha Hi Hf Hlt Hr. assert (zlen (minus neg ++ ds) < 2 ^ 30) as Hlt'.
  { rewrite length_app. destruct neg; cbn; lia. }
  destruct (unget_ahead w _ l c Ha Hlt') as (w1 & E1 & [Ht1 Hi1] & K1 & _).
  unfold scan_integer. step_with E1.
  destruct (lex_append_ok srefs junk Hjunk w1 _ 0 Ht1 Hlt') as (w2 & E2 & Ht2 & Hs2 & K2). step_with E2. step.
  destruct (is_text_buf _ _ Ht2) as [z Hz]. rewrite Hz, <- !app_assoc. cbn [app].
  rewrite (strtoll_ok neg ds 0 z Hi eq_refl Hr).
  destruct (unsave_ok w2 _ 0 Ht2 Hlt') as (w3 & E3 & Ht3 & Hs3 & K3). step_with E3. step.
  assert (t_len (saved_text (lex w3)) = zlen (minus neg ++ ds)) as Hl3 by apply Ht3.
  rewrite Hl3, Z.eqb_refl. step. eexists. split; [reflexivity|]. split_and!; try done.
  - split; [exact Ht3|]. cbn. by rewrite Hs3, Hs2.
  - transitivity w3; [|done]. transitivity w2; [|apply K3]. transitivity w1; [apply K1|apply K2].
Qed.

(** The text with the decimal point of the locale. *)
Definition localized (t : list Z) : list Z :=
  if decimal_point =? c_dot then t else replace_dot decimal_point (length t) t.

(** [strtod] reads the real [d] from [t] and stops before a delimiter. *)
Definition reads_as (t : list Z) (d : D) : Prop :=
  forall b x, delim b -> strtod (localized t ++ b :: x) = (d, length t, false).

Lemma replace_dot_app t z : replace_dot decimal_point (length t) (t ++ z) = replace_dot decimal_point (length t) t ++ z.
Proof. induction t as [|b t IH]; [done|]. cbn. case_bool; [done|]. by rewrite IH. Qed.

Lemma length_replace_dot t n : length (replace_dot decimal_point n t) = length t.
Proof.
  revert n. induction t as [|b t IH]; intros [|n]; cbn; try done. case_bool; cbn; [done|by rewrite IH].
Qed.

Lemma localized_length t : length (localized t) = length t.
Proof. unfold localized. case_bool; [done|apply length_replace_dot]. Qed.

Lemma scan_real_end_ok w t d b l c :
  ahead w t (b :: l) c -> delim b -> reads_as t d -> zlen t < 2 ^ 29 ->
  exists w', scan_real_end strtod decimal_point c w = Ret (true, w') /\ ready w' (b :: l) /\ kept w w' /\
    token (lex w') = TOKEN_REAL /\ value (lex w') = ValReal d.
Proof.
  intros Ha Hd Hr Hlt. destruct (unget_ahead w t (b :: l) c Ha) as (w1 & E1 & [Ht1 Hi1] & K1 & Hb); [lia|].
  destruct (Hb b l eq_refl) as [x Hx]. unfold scan_real_end. step_with E1.
  assert (exists w2, ugh_strtod strtod decimal_point w1 = Ret (Some d, w2) /\ ready w2 (b :: l) /\ kept w1 w2)
    as (w2 & E2 & Hr2 & K2).
  { unfold ugh_strtod.
    assert (exists w2, (if negb (decimal_point =? c_dot) then
        t0 <-- get_saved ;; modify (set_saved (Text (replace_dot decimal_point (Z.to_nat (t_len t0)) (t_buf t0)) (t_len t0) (t_heap t0)))
        else ret tt) w1 = Ret (tt, w2) /\ is_text (saved_text (lex w2)) (localized t) /\
        t_buf (saved_text (lex w2)) = localized t ++ b :: x /\ stream (lex w2) = stream (lex w1) /\ kept w1 w2)
      as (w2 & E2 & Ht2 & Hx2 & Hs2 & K2).
    { unfold localized. destruct (decimal_point =? c_dot); cbn [negb]; [by exists w1|].
      step. eexists. split; [reflexivity|]. destruct Ht1 as (Hl & Hle & Ht). cbn.
      rewrite Hl, Nat2Z.id, Hx, replace_dot_app. split_and!; try done.
      unfold is_text, t_bytes. cbn. rewrite Nat2Z.id, length_app, length_replace_dot.
      split; [done|]. split; [lia|]. by rewrite take_app_length' by (by rewrite length_replace_dot). }
    step_with E2. step. rewrite Hx2, (Hr b x Hd).
    destruct (zlen (localized t ++ b :: x) <=? zlen t) eqn:E; zbool; [rewrite length_app, localized_length in E; cbn in E; lia|].
    destruct Ht2 as (Hl2 & Ht2). rewrite localized_length in Hl2. rewrite Hl2, Z.eqb_refl. step.
    exists w2. split; [done|]. split; [|done]. split; [|by rewrite Hs2].
    exists (localized t). split; [by rewrite localized_length|done]. }
  step_with E2. eexists. split; [reflexivity|]. split_and!; try done.
  transitivity w2; [|done]. transitivity w1; [apply K1|done].
Qed.

(** The token [d] as a real, before the delimiter [b]. *)
Definition got_real w0 (d : D) (l : list Z) (r : outcome (bool * jworld)) : Prop :=
  exists w', r = Ret (true, w') /\ ready w' l /\ kept w0 w' /\
    token (lex w') = TOKEN_REAL /\ value (lex w') = ValReal d.

Lemma got_real_from w0 w1 d l r : kept w0 w1 -> got_real w1 d l r -> got_real w0 d l r.
Proof. intros K (w' & E & Hr & K' & H). exists w'. split; [done|]. split; [done|]. split; [by transitivity w1|done]. Qed.

Lemma scan_exponent_ok fuel w t e d b l c :
  ahead w t (e ++ b :: l) c -> exponent e -> delim b -> reads_as (t ++ e) d ->
  zlen t + zlen e < 2 ^ 28 -> (length e < fuel)%nat ->
  got_real w d (b :: l) (scan_exponent fuel c w).
Proof.
  intros Ha He Hb Hr Hlt Hf. unfold scan_exponent, JsonLoad.scan_exponent.
  destruct He as [|e sign dg ds He Hsg Hd Hds].
  - pose proof (follows_char w t (b :: l) c Hb Ha) as (N1 & N2 & N3).
    rewrite (proj2 (Z.eqb_neq c c_E)), (proj2 (Z.eqb_neq c c_e)) by done. cbn [orb].
    rewrite app_nil_r in Hr. apply (scan_real_end_ok w t d b l c); [done|done|done|lia].
  - cbn [app] in Ha. rewrite <- app_assoc in Ha. cbn [app] in Ha. pose proof Ha as [-> _].
    assert ((schar e =? c_E) || (schar e =? c_e) = true) as -> by (by destruct He as [->| ->]).
    cbn [length] in Hlt, Hf. rewrite length_app in Hlt, Hf. cbn [length] in Hlt, Hf.
    destruct (ahead_next funcs rfuel inv rest srefs junk Hjunk w t e _ _ Ha) as (c1 & w1 & E1 & Ha1 & K1); [lia|].
    step_with E1. clear E1.
    assert (exists c2 w2, (if (c1 =? c_plus) || (c1 =? c_minus) then lex_get_save else ret c1) w1 = Ret (c2, w2) /\
      ahead w2 (t ++ e :: sign) (dg :: ds ++ b :: l) c2 /\ same_token w w2) as (c2 & w2 & E2 & Ha2 & K2).
    { destruct (digit_char dg Hd) as [Hs _]. unfold digit in Hd.
      assert (sign = [] \/ exists s, sign = [s] /\ (s = 43 \/ s = 45)) as [->|(s & -> & Hs')] by naive_solver.
      - cbn [app] in Ha1. pose proof Ha1 as [-> _]. rewrite Hs.
        rewrite (proj2 (Z.eqb_neq dg c_plus)), (proj2 (Z.eqb_neq dg c_minus)) by lia.
        exists dg, w1. split; [done|]. split; [|done]. split; [by rewrite Hs|apply Ha1].
      - cbn [app] in Ha1. pose proof Ha1 as [-> _].
        assert ((schar s =? c_plus) || (schar s =? c_minus) = true) as -> by (by destruct Hs' as [->| ->]).
        destruct (ahead_next funcs rfuel inv rest srefs junk Hjunk w1 _ s _ _ Ha1) as (c2 & w2 & E2 & Ha2 & K2);
          [rewrite length_app; cbn [length]; lia|]. exists c2, w2. rewrite <- app_assoc in Ha2.
        split_and!; [done|done|by transitivity w1]. }
    step_with E2. pose proof Ha2 as [-> _]. destruct (digit_char dg Hd) as [-> ->]. cbn [negb].
    destruct (scan_digits fuel w2 _ dg ds (b :: l) _ Ha2 Hds) as (c3 & w3 & c4 & w4 & E3 & E4 & Ha4 & K4);
      [by apply (follows_ends (b :: l))|rewrite length_app; cbn [length]; lia|lia|].
    step_with E3. step_with E4. rewrite <- app_assoc in Ha4. cbn [app] in Ha4.
    apply (got_real_from w w4); [transitivity w2; [apply K2|apply K4]|].
    apply (scan_real_end_ok w4 (t ++ e :: sign ++ dg :: ds) d b l c4); [done|done|done|].
    rewrite length_app. cbn [length]. rewrite length_app. cbn [length]. lia.
Qed.

Lemma scan_fraction_ok fuel w t f e d b l c :
  ahead w t (f ++ e ++ b :: l) c -> fraction f -> exponent e -> delim b -> reads_as (t ++ f ++ e) d ->
  zlen t + zlen f + zlen e < 2 ^ 28 -> (length f + length e < fuel)%nat ->
  got_real w d (b :: l) (scan_fraction fuel c w).
Proof.
  intros Ha Hfr He Hb Hr Hlt Hf. unfold scan_fraction, JsonLoad.scan_fraction.
  destruct Hfr as [|dg ds Hd Hds]; cbn [app] in Ha, Hr.
  - assert (c =? c_dot = false) as ->.
    { apply Z.eqb_neq. destruct He as [|e sign dg ds He' Hsg Hd Hds].
      - by apply (follows_char w t (b :: l) c).
      - cbn in Ha. destruct Ha as [-> _]. by destruct He' as [->| ->]. }
    by apply scan_exponent_ok with (t := t) (e := e); [..|cbn in *; lia|cbn in *; lia].
  - pose proof Ha as [-> _]. change (schar 46 =? c_dot) with true. cbv iota. cbn [length] in Hlt, Hf.
    pose proof (past_at _ _ _ _ _ _ (proj2 Ha)) as Hat.
    destruct (get_then_save w (t ++ [46]) dg (ds ++ e ++ b :: l) Hat) as (w1 & w2 & E1 & E2 & Hp & K2);
      [rewrite length_app; cbn [length]; lia|]. step_with E1.
    destruct (digit_char dg Hd) as [Hs Hdd]. rewrite Hs in E2 |- *. rewrite Hdd. cbn [negb]. step_with E2.
    assert (ahead w2 (t ++ [46]) (dg :: ds ++ e ++ b :: l) (schar dg)) as Ha2 by done.
    destruct (scan_digits fuel w2 _ dg ds (e ++ b :: l) _ Ha2 Hds) as (c3 & w3 & c4 & w4 & E3 & E4 & Ha4 & K4).
    { destruct He as [|e sign dg' ds' He' Hsg Hd' Hds']; [by apply (follows_ends (b :: l))|by destruct He' as [->| ->]]. }
    { rewrite length_app. cbn [length]. lia. }
    { lia. }
    step_with E3. step_with E4. rewrite <- app_assoc in Ha4. cbn [app] in Ha4.
    apply (got_real_from w w4); [transitivity w2; [apply K2|apply K4]|].
    apply (scan_exponent_ok fuel w4 (t ++ 46 :: dg :: ds) e d b l c4); [done|done|done| | |lia].
    + by rewrite <- app_assoc.
    + rewrite length_app. cbn [length]. lia.
Qed.

(** ** Spellings *)

Definition is_word (k : tok D) (t : list Z) : Prop :=
  match k with
  | KTrue => t = [116; 114; 117; 101]
  | KFalse => t = [102; 97; 108; 115; 101]
  | KNull => t = [110; 117; 108; 108]
  | _ => False
  end.

Inductive spells : tok D -> list Z -> Prop :=
  | sp_punct c : is_punct c = true -> spells (KPunct c) [c]
  | sp_string body s : sbody body s -> spells (KStr s) (34 :: body ++ [34])
  | sp_int neg ds : int_part ds -> - 2 ^ 63 <= signed neg (decimal ds) < 2 ^ 63 ->
      spells (KInt (signed neg (decimal ds))) (minus neg ++ ds)
  | sp_real neg ds f e d : int_part ds -> fraction f -> exponent e -> f ++ e <> [] ->
      reads_as (minus neg ++ ds ++ f ++ e) d -> spells (KReal d) (minus neg ++ ds ++ f ++ e)
  | sp_word k t : is_word k t -> spells k t.

(** What the token needs behind it.  A real needs a delimiter: the scanner
    does not terminate the text it hands to strtod. *)
Definition follows_tok (k : tok D) (l : list Z) : Prop :=
  match k with
  | KPunct _ | KStr _ => True
  | KReal _ => exists b l', l = b :: l' /\ delim b
  | _ => follows l
  end.

Definition tok_token (k : tok D) : Z :=
  match k with
  | KPunct c => c
  | KStr _ => TOKEN_STRING
  | KInt _ => TOKEN_INTEGER
  | KReal _ => TOKEN_REAL
  | KTrue => TOKEN_TRUE
  | KFalse => TOKEN_FALSE
  | KNull => TOKEN_NULL
  end.

(** The lexer holds the token [k]. *)
Definition has_tok w (k : tok D) : Prop :=
  token (lex w) = tok_token k /\
  match k with
  | KStr s => value (lex w) = ValString (Some s)
  | KInt z => value (lex w) = ValInteger z
  | KReal d => value (lex w) = ValReal d
  | _ => True
  end.

Lemma at_ready w t l : at_ w t l -> ready w l.
Proof. intros [Ht Hi]. split; [by exists t|done]. Qed.

Lemma int_part_bound ds : int_part ds -> (1 <= length ds)%nat.
Proof. intros []; cbn; lia. Qed.

Lemma minus_length neg : (length (minus neg) <= 1)%nat.
Proof. by destruct neg; cbn; lia. Qed.

Lemma scan_number_ok fuel w k t l c :
  spells k t -> match k with KInt _ | KReal _ => True | _ => False end -> follows_tok k l ->
  ahead w [] (t ++ l) c -> zlen t < 2 ^ 27 -> (length t < fuel)%nat ->
  exists w', lex_scan_number fuel c w = Ret (true, w') /\ ready w' l /\ kept w w' /\ has_tok w' k.
Proof.
  intros [c0 Hc0|body s Hs|neg ds Hi Hr|neg ds f e d Hi Hf He Hne Hr|k' t' Hw] Hk Hl Ha Hlt Hfuel; try done.
  - rewrite <- app_assoc in Ha. rewrite length_app in Hlt, Hfuel.
    destruct (scan_int_part fuel w neg ds l c Ha Hi) as (c1 & w1 & E1 & Ha1 & K1);
      [by apply follows_ends|lia|lia|].
    rewrite E1. unfold scan_number_end, JsonLoad.scan_number_end.
    destruct (follows_char w1 _ l c1 Hl Ha1) as (N1 & N2 & N3).
    rewrite (proj2 (Z.eqb_neq c1 c_dot)), (proj2 (Z.eqb_neq c1 c_E)), (proj2 (Z.eqb_neq c1 c_e)) by done. cbn [negb andb].
    destruct (scan_integer_ok w1 neg ds l c1 Ha1 Hi Hl) as (w2 & E2 & Hat & K2 & T2 & V2); [lia|done|].
    exists w2. split; [done|]. split; [by eapply at_ready|]. split; [by transitivity w1|done].
  - destruct Hl as (b & l' & -> & Hb). rewrite <- !app_assoc in Ha. rewrite !length_app in Hlt, Hfuel.
    assert (exists h z, f ++ e = h :: z /\ (h = 46 \/ h = 69 \/ h = 101)) as (h & z & Hz & Hh).
    { destruct Hf as [|dg dsf Hd1 Hd2]; [destruct He as [|e0 sg dg dse He' _ _ _]; [done|]|].
      - do 2 eexists. split; [reflexivity|]. lia.
      - do 2 eexists. split; [reflexivity|]. lia. }
    destruct (scan_int_part fuel w neg ds (f ++ e ++ b :: l') c Ha Hi) as (c1 & w1 & E1 & Ha1 & K1);
      [|lia|lia|].
    { rewrite app_assoc, Hz. by destruct Hh as [->|[->| ->]]. }
    rewrite E1. unfold scan_number_end, JsonLoad.scan_number_end.
    assert (negb (c1 =? c_dot) && negb (c1 =? c_E) && negb (c1 =? c_e) = false) as ->.
    { pose proof Ha1 as Ha1'. rewrite app_assoc, Hz in Ha1'. destruct Ha1' as [-> _]. by destruct Hh as [->|[->| ->]]. }
    destruct (scan_fraction_ok fuel w1 (minus neg ++ ds) f e d b l' c1) as (w2 & E2 & Hr2 & K2 & H2);
      [done|done|done|done|by rewrite <- app_assoc|rewrite length_app; lia|lia|].
    exists w2. split; [done|]. split; [done|]. split; [by transitivity w1|done].
  - by destruct k'.
Qed.

(** A word. *)
Lemma scan_word_ok fuel w k t l c :
  is_word k t -> follows l -> ahead w [] (t ++ l) c -> (length t < fuel)%nat ->
  exists w', scan_word funcs rfuel junk fuel w = Ret (tt, w') /\ ready w' l /\ kept w w' /\ has_tok w' k.
Proof.
  intros Hw Hl Ha Hf. destruct (follows_ends l Hl) as [_ Hla].
  assert (exists b bs, t = b :: bs /\ Forall (fun b => l_isalpha (schar b) = true) bs /\ (length t < 6)%nat)
    as (b & bs & -> & Hbs & Hlt).
  { destruct k; try done; cbn in Hw; subst t; do 2 eexists; (split; [reflexivity|]); split; cbn; try lia;
      by repeat constructor. }
  unfold scan_word. cbn [length] in *.
  destruct (ahead_next funcs rfuel inv rest srefs junk Hjunk w [] b (bs ++ l) _ Ha) as (c1 & w1 & E1 & Ha1 & K1);
    [cbn; lia|]. step_with E1.
  destruct (scan_while_ok l_isalpha bs fuel w1 ([] ++ [b]) l c1 Ha1 Hbs Hla) as (c2 & w2 & E2 & Ha2 & K2);
    [cbn; lia|lia|]. step_with E2. cbn [app] in Ha2.
  destruct (unget_ahead w2 (b :: bs) l c2 Ha2) as (w3 & E3 & [Ht3 Hi3] & K3 & _); [cbn [length]; lia|].
  step_with E3. step. destruct Ht3 as (Hl3 & Hle3 & Hb3). eexists. split; [reflexivity|].
  split; [|split].
  - by split; [exists (b :: bs)|].
  - transitivity w3; [|done]. transitivity w2; [|apply K3]. transitivity w1; [apply K1|apply K2].
  - unfold has_tok. unfold saved_is. rewrite Hl3, Hb3. destruct k; try done; cbn in Hw; by simplify_eq.
Qed.

(** ** White space *)

Lemma space_char b : space b -> schar b = b /\ is_space b = true.
Proof. unfold space. intros Hb. rewrite schar_ascii by lia. split; [done|]. by repeat destruct Hb as [->|Hb]; [..|subst b]. Qed.

Lemma skip_space_ok ws : forall fuel w b l,
  Forall space ws -> is_space (schar b) = false -> input inv rest (stream (lex w)) (ws ++ b :: l) ->
  (length ws < fuel)%nat ->
  exists c1 w1 s, lex_get funcs rfuel w = Ret (c1, w1) /\
    skip_space funcs rfuel fuel c1 w1 = Ret (schar b, set_stream s w) /\ behind inv rest s b l.
Proof.
  induction ws as [|x ws IH]; intros fuel w b l Hws Hb Hi Hf; (destruct fuel as [|fuel]; [lia|]); cbn [app length] in *.
  - destruct (get_char funcs rfuel inv rest w b l Hi) as (s & E & Hbh). exists (schar b), (set_stream s w), s.
    split; [done|]. split; [|done]. cbn [skip_space]. by rewrite Hb.
  - apply Forall_cons in Hws as [Hx Hws].
    destruct (get_char funcs rfuel inv rest w x _ Hi) as (s & E & Hbh).
    destruct (IH fuel (set_stream s w) b l Hws Hb) as (c1 & w1 & s1 & E1 & E2 & Hb2);
      [by eapply behind_input|lia|].
    exists (schar x), (set_stream s w), s1. split; [done|]. split; [|done]. cbn [skip_space].
    destruct (space_char x Hx) as [-> ->]. by step_with E1.
Qed.

Lemma skip_space_eof ws : forall fuel w,
  Forall space ws -> input inv rest (stream (lex w)) ws -> (length ws < fuel)%nat ->
  exists c1 w1 s, lex_get funcs rfuel w = Ret (c1, w1) /\
    skip_space funcs rfuel fuel c1 w1 = Ret (STREAM_STATE_EOF, set_stream s w) /\ input inv rest s [].
Proof.
  induction ws as [|x ws IH]; intros fuel w Hws Hi Hf; (destruct fuel as [|fuel]; [lia|]); cbn [length] in *.
  - destruct (get_eof funcs rfuel inv rest w Hi) as (s & E & Hbh). by exists STREAM_STATE_EOF, (set_stream s w), s.
  - apply Forall_cons in Hws as [Hx Hws].
    destruct (get_char funcs rfuel inv rest w x _ Hi) as (s & E & Hbh).
    destruct (IH fuel (set_stream s w) Hws) as (c1 & w1 & s1 & E1 & E2 & Hb2);
      [by eapply behind_input|lia|].
    exists (schar x), (set_stream s w), s1. split; [done|]. split; [|done]. cbn [skip_space].
    destruct (space_char x Hx) as [-> ->]. by step_with E1.
Qed.

Abbreviation lex_scan := (lex_scan funcs rfuel strtod decimal_point junk).

Lemma free_string_ok w : exists w', free_string w = Ret (tt, w') /\ stream (lex w') = stream (lex w) /\
  saved_text (lex w') = saved_text (lex w) /\ kept w w'.
Proof.
  unfold free_string, free_value. destruct (value (lex w)) as [|[s|]| |] eqn:E.
  all: eexists; split; [unfold bind, get; rewrite E; reflexivity|]; split; [done|]; split; [done|].
  all: split; cbn; try done. intros t. apply VariantProofs.free_refs.
Qed.

Lemma u8_schar b : 0 <= b < 256 -> u8 (schar b) = b.
Proof.
  intros Hb. rewrite schar_value by lia. case_bool; zbool; [apply wrapU_small; lia|].
  unfold wrapU. change (2 ^ 8) with 256. replace (b - 256) with (b + (-1) * 256) by lia.
  rewrite Z_mod_plus_full. apply Z.mod_small. lia.
Qed.

(** The start of [lex_scan]. *)
Definition scan_start : M jworld unit :=
  t <-- get_saved ;;
  modify (set_saved (Text (t_buf t) 0 (t_heap t))) ;;;
  k <-- get_token ;;
  if k =? TOKEN_STRING then free_string else ret tt.

Lemma scan_start_ok w l :
  ready w l -> exists w', scan_start w = Ret (tt, w') /\ is_text (saved_text (lex w')) [] /\
    input inv rest (stream (lex w')) l /\ kept w w'.
Proof.
  intros [[t0 Ht] Hi]. unfold scan_start. step. step. set (w1 := set_saved _ w). step.
  assert (is_text (saved_text (lex w1)) []) as Ht1 by (split; [done|]; split; [cbn; lia|done]).
  destruct (token (lex w1) =? TOKEN_STRING).
  - destruct (free_string_ok w1) as (w2 & E & Hs & Hx & K). exists w2. rewrite Hs, Hx.
    split; [done|]. split; [done|]. split; [done|]. by transitivity w1.
  - by exists w1.
Qed.

Lemma lex_scan_start fuel w : lex_scan fuel w =
  (scan_start ;;; c <-- lex_get funcs rfuel ;; c <-- skip_space funcs rfuel fuel c ;;
   if c =? STREAM_STATE_EOF then modify (set_token TOKEN_EOF)
   else if c =? STREAM_STATE_ERROR then modify (set_token TOKEN_INVALID)
   else
     lex_save junk c ;;;
     if is_punct c then modify (set_token c)
     else if c =? c_quote then lex_scan_string funcs rfuel junk fuel
     else if l_isdigit c || (c =? c_minus) then lex_scan_number fuel c ;;; ret tt
     else if l_isalpha c then scan_word funcs rfuel junk fuel
     else lex_save_cached junk ;;; modify (set_token TOKEN_INVALID)) w.
Proof.
  unfold lex_scan, JsonLoad.lex_scan, scan_start. unfold bind at 1 2 3 5 6 7 8. unfold get_saved, get_token, get, bind, ret, modify.
  done.
Qed.

(** The first character of a spelling tells the kind of the token. *)
Lemma spells_first k t :
  spells k t -> exists b r, t = b :: r /\ 0 < b < 128 /\ is_space b = false /\
  match k with
  | KPunct c => b = c /\ r = [] /\ is_punct b = true
  | KStr s => b = 34 /\ exists body, r = body ++ [34] /\ sbody body s
  | KInt _ | KReal _ => is_punct b = false /\ b <> 34 /\ l_isdigit b || (b =? c_minus) = true
  | _ => is_punct b = false /\ b <> 34 /\ l_isdigit b || (b =? c_minus) = false /\ l_isalpha b = true /\ is_word k t
  end.
Proof.
  assert (forall neg ds x, int_part ds -> exists b r, minus neg ++ ds ++ x = b :: r /\ (b = 45 \/ 48 <= b <= 57)) as Hnum.
  { intros [|] ds x Hi; [cbn; eauto|]. destruct Hi as [|d ds Hd]; cbn; do 2 eexists; (split; [reflexivity|]); lia. }
  assert (forall b, b = 45 \/ 48 <= b <= 57 -> 0 < b < 128 /\ is_space b = false /\ is_punct b = false /\ b <> 34 /\
    l_isdigit b || (b =? c_minus) = true) as Hcls.
  { intros b Hb. unfold is_space, is_punct, l_isdigit. split_and!; try lia. }
  intros [c Hc|body s Hs|neg ds Hi Hr|neg ds f e d Hi Hf He Hne Hr|k' t' Hw].
  - exists c, []. unfold is_punct, is_space in *. split_and!; try done; lia.
  - exists 34, (body ++ [34]). split_and!; try done. by exists body.
  - destruct (Hnum neg ds [] Hi) as (b & r & E & Hb). rewrite app_nil_r in E. rewrite E. exists b, r.
    destruct (Hcls b Hb) as (? & ? & ? & ? & ?). done.
  - destruct (Hnum neg ds (f ++ e) Hi) as (b & r & E & Hb). rewrite E. exists b, r.
    destruct (Hcls b Hb) as (? & ? & ? & ? & ?). done.
  - destruct k'; try done; cbn in Hw; subst t'; do 2 eexists; (split; [reflexivity|]); done.
Qed.

(** Scanning a token. *)
Lemma lex_scan_ok fuel w ws k t l :
  Forall space ws -> spells k t -> follows_tok k l -> ready w (ws ++ t ++ l) ->
  zlen t < 2 ^ 27 -> (length ws + length t < fuel)%nat ->
  exists w', lex_scan fuel w = Ret (tt, w') /\ ready w' l /\ kept w w' /\ has_tok w' k.
Proof.
  intros Hws Hsp Hl Hr Hlt Hf. rewrite lex_scan_start.
  destruct (scan_start_ok w _ Hr) as (w1 & E1 & Ht1 & Hi1 & K1). step_with E1.
  destruct (spells_first k t Hsp) as (b & r & -> & Hb & Hsb & Hcls). cbn [app length] in *.
  rewrite <- (schar_ascii b) in Hsb by lia.
  destruct (skip_space_ok ws fuel w1 b (r ++ l) Hws Hsb Hi1) as (c2 & w2 & s & E2 & E3 & Hbh); [lia|].
  step_with E2. step_with E3. rewrite (schar_ascii b) by lia.
  rewrite (proj2 (Z.eqb_neq b STREAM_STATE_EOF)), (proj2 (Z.eqb_neq b STREAM_STATE_ERROR)) by (unfold STREAM_STATE_EOF, STREAM_STATE_ERROR; lia).
  set (w3 := set_stream s w1) in *.
  destruct (lex_append_ok srefs junk Hjunk w3 [] b Ht1) as (w4 & E4 & Ht4 & Hs4 & K4); [cbn; lia|].
  assert (lex_save junk b w3 = Ret (tt, w4)) as E4'.
  { unfold lex_save. by rewrite (wrapU_small 8) by lia. }
  step_with E4'. assert (past w4 [] b (r ++ l)) as Hp by (split; [done|by rewrite Hs4]).
  assert (ahead w4 [] ((b :: r) ++ l) b) as Ha by (split; [by rewrite schar_ascii by lia|done]).
  assert (kept w w4) as K by (transitivity w1; [done|]; transitivity w3; [done|apply K4]).
  destruct k as [c|str|z|d| | |].
  - destruct Hcls as (-> & -> & ->). eexists. split; [reflexivity|]. split; [|by split; [transitivity w4|]].
    eapply at_ready, (past_at inv rest w4 [] c l). done.
  - destruct Hcls as (-> & body & -> & Hbody). cbn [is_punct Z.eqb Pos.eqb orb].
    pose proof (past_at _ _ _ _ _ _ Hp) as Hat. rewrite <- app_assoc in Hat. cbn [app] in Hat. rewrite length_app in Hf, Hlt.
    destruct (lex_scan_string_ok funcs rfuel inv rest srefs junk Hjunk fuel w4 body str l Hat Hbody)
      as (w5 & E5 & Hr5 & K5 & H5); [lia|lia|].
    exists w5. split; [done|]. split; [done|]. split; [by transitivity w4|done].
  - destruct Hcls as (-> & Hq & ->). rewrite (proj2 (Z.eqb_neq b c_quote)) by done.
    destruct (scan_number_ok fuel w4 (KInt z) (b :: r) l b Hsp I Hl Ha) as (w5 & E5 & Hr5 & K5 & H5); [cbn [length]; lia..|].
    step_with E5. exists w5. split; [done|]. split; [done|]. split; [by transitivity w4|done].
  - destruct Hcls as (-> & Hq & ->). rewrite (proj2 (Z.eqb_neq b c_quote)) by done.
    destruct (scan_number_ok fuel w4 (KReal d) (b :: r) l b Hsp I Hl Ha) as (w5 & E5 & Hr5 & K5 & H5); [cbn [length]; lia..|].
    step_with E5. exists w5. split; [done|]. split; [done|]. split; [by transitivity w4|done].
  - destruct Hcls as (-> & Hq & -> & -> & Hw). rewrite (proj2 (Z.eqb_neq b c_quote)) by done.
    destruct (scan_word_ok fuel w4 KTrue (b :: r) l b Hw Hl Ha) as (w5 & E5 & Hr5 & K5 & H5); [cbn [length]; lia|].
    exists w5. split; [done|]. split; [done|]. split; [by transitivity w4|done].
  - destruct Hcls as (-> & Hq & -> & -> & Hw). rewrite (proj2 (Z.eqb_neq b c_quote)) by done.
    destruct (scan_word_ok fuel w4 KFalse (b :: r) l b Hw Hl Ha) as (w5 & E5 & Hr5 & K5 & H5); [cbn [length]; lia|].
    exists w5. split; [done|]. split; [done|]. split; [by transitivity w4|done].
  - destruct Hcls as (-> & Hq & -> & -> & Hw). rewrite (proj2 (Z.eqb_neq b c_quote)) by done.
    destruct (scan_word_ok fuel w4 KNull (b :: r) l b Hw Hl Ha) as (w5 & E5 & Hr5 & K5 & H5); [cbn [length]; lia|].
    exists w5. split; [done|]. split; [done|]. split; [by transitivity w4|done].
Qed.

(** White space up to the end. *)
Lemma lex_scan_eof fuel w ws :
  Forall space ws -> ready w ws -> (length ws < fuel)%nat ->
  exists w', lex_scan fuel w = Ret (tt, w') /\ ready w' [] /\ kept w w' /\ token (lex w') = TOKEN_EOF.
Proof.
  intros Hws Hr Hf. rewrite lex_scan_start. destruct (scan_start_ok w _ Hr) as (w1 & E1 & Ht1 & Hi1 & K1). step_with E1.
  destruct (skip_space_eof ws fuel w1 Hws Hi1 Hf) as (c2 & w2 & s & E2 & E3 & Hi). step_with E2. step_with E3.
  eexists. split; [reflexivity|]. split; [by split; [exists []|]|]. split; [|done]. by transitivity w1.
Qed.

End scan.
End JsonScan.
