(* ===== verification/JsonParse.v ===== *)
(** * The JSON reader accepts JSON

    [json t x] is the grammar of JSON: the text [x] is the value [t].  On every
    such text the reader succeeds; it returns a new variant that is the value
    [t], leaves the other variants as they are, and holds no reference to a
    string besides those the new variants hold. *)

From Stdlib Require Import ZArith Lia.
From stdpp Require Import base numbers list gmap.
From S2P Require Import Prelude SysUtil PhString PhStringUtf8 HashTable HashTableProofs StringKeys Stream StreamProofs.
From S2P Require Import Variant VariantProofs VariantOps VariantGrow JsonLoad JsonLexProofs VariantBuild JsonTokens JsonScan.

Module JsonParse.
Export VariantBuild JsonScan.
Import HashTable HashTableProofs.

Lemma encode_nonzero v bs : 0 < v -> utf8_encode v = Some bs -> Forall (fun b => b <> 0) bs.
Proof.
  intros Hv. rewrite utf8_encode_eq, PhStringUtf8.utf8_encode_arith. unfold PhStringUtf8.encode_arith. intros H.
  repeat case_bool; zbool; simplify_eq; repeat constructor; try lia; Z.to_euclidean_division_equations; lia.
Qed.

(** A string that was spelled has no NUL. *)
Lemma sbody_nonzero body s : sbody body s -> Forall (fun b => b <> 0) s.
Proof.
  induction 1 as [|b t s Hb _ _ _ IH|e b t s He _ IH|ds v bs t s Hh _ _ Hn He _ IH|ds1 v1 ds2 v2 bs t s H1 H2 Hs1 Hs2 He _ IH].
  - constructor.
  - constructor; [lia|done].
  - constructor; [|done]. unfold escape_char in He. repeat case_bool; zbool; simplify_eq; lia.
  - apply Forall_app. split; [|done]. apply (encode_nonzero v); [|done]. pose proof (hexes_bound _ _ Hh). lia.
  - apply Forall_app. split; [|done]. apply encode_nonzero with (2 := He).
    unfold high_surrogate, low_surrogate in *. zbool. rewrite Z.shiftl_mul_pow2 by lia. lia.
Qed.

Section grammar.
Context {D : Type} (strtod : list Z -> D * nat * bool) (decimal_point : Z).
Abbreviation spells := (spells strtod decimal_point).
Abbreviation wsp := (Forall space).

(** The texts of a value; [elems] and [members] go up to the closing bracket. *)
Inductive json : tree D -> list Z -> Prop :=
  | j_null x : spells KNull x -> json TNull x
  | j_true x : spells KTrue x -> json (TBool true) x
  | j_false x : spells KFalse x -> json (TBool false) x
  | j_int z x : spells (KInt z) x -> json (TInt z) x
  | j_real d x : spells (KReal d) x -> json (TReal d) x
  | j_str s x : spells (KStr s) x -> json (TStr s) x
  | j_arr0 ws : wsp ws -> json (TArr []) (91 :: ws ++ [93])
  | j_arr l x : elems l x -> json (TArr l) (91 :: x)
  | j_obj0 ws : wsp ws -> json (TObj []) (123 :: ws ++ [125])
  | j_obj kvs x : members kvs x -> NoDup kvs.*1 -> json (TObj kvs) (123 :: x)
with elems : list (tree D) -> list Z -> Prop :=
  | e_last ws t x ws' : wsp ws -> json t x -> wsp ws' -> elems [t] (ws ++ x ++ ws' ++ [93])
  | e_cons ws t x ws' l y : wsp ws -> json t x -> wsp ws' -> elems l y ->
      elems (t :: l) (ws ++ x ++ ws' ++ 44 :: y)
with members : list (list Z * tree D) -> list Z -> Prop :=
  | m_last ws k kx ws1 ws2 t x ws3 : wsp ws -> spells (KStr k) kx -> wsp ws1 -> wsp ws2 -> json t x -> wsp ws3 ->
      members [(k, t)] (ws ++ kx ++ ws1 ++ 58 :: ws2 ++ x ++ ws3 ++ [125])
  | m_cons ws k kx ws1 ws2 t x ws3 kvs y : wsp ws -> spells (KStr k) kx -> wsp ws1 -> wsp ws2 -> json t x ->
      wsp ws3 -> members kvs y -> members ((k, t) :: kvs) (ws ++ kx ++ ws1 ++ 58 :: ws2 ++ x ++ ws3 ++ 44 :: y).

(** What a value needs behind it. *)
Definition follows_tree (t : tree D) (l : list Z) : Prop :=
  match t with
  | TArr _ | TObj _ | TStr _ => True
  | TReal _ => exists b l', l = b :: l' /\ delim b
  | _ => follows l
  end.

Lemma delim_follows t ws b l : wsp ws -> delim b -> follows_tree t (ws ++ b :: l).
Proof.
  intros Hws Hb. assert (exists b' l', ws ++ b :: l = b' :: l' /\ delim b') as (b' & l' & -> & Hb').
  { destruct Hws as [|s ws Hs _]; cbn; do 2 eexists; (split; [reflexivity|]); [done|].
    unfold space in Hs. unfold delim. lia. }
  destruct t; try done. by exists b', l'.
Qed.

Lemma spells_pos k x : spells k x -> (1 <= length x)%nat.
Proof. intros (b & r & -> & _)%spells_first. cbn. lia. Qed.

Lemma json_pos t x : json t x -> (1 <= length x)%nat.
Proof. intros []; try (by eapply spells_pos); cbn; lia. Qed.

End grammar.

Scheme json_mind := Minimality for json Sort Prop
  with elems_mind := Minimality for elems Sort Prop
  with members_mind := Minimality for members Sort Prop.
Combined Scheme json_all_ind from json_mind, elems_mind, members_mind.

Section parse.
Context {X : Type} {env : var_env X} {jenv : json_env X env} {D B : Type}.
Context (funcs : Stream.ph_stream_funcs B) (rfuel : nat).
Context (inv : B -> Prop) (rest : B -> list Z) `{Hsrc : !StreamProofs.source funcs inv rest (fun _ => False)}.
Context (srefs : X -> positive -> Z) `{Henv : !VariantProofs.var_env_ok env srefs} `{Hplenty : !plenty env jenv srefs}.
Context (junk : nat -> list Z) (Hjunk : forall n, length (junk n) = n).
Context (strtod : list Z -> D * nat * bool) (decimal_point : Z).
Abbreviation jworld := (@jworld X D B).
Abbreviation kept := (kept srefs).
Abbreviation ready := (ready inv rest).
Abbreviation json := (json strtod decimal_point).
Abbreviation elems := (elems strtod decimal_point).
Abbreviation members := (members strtod decimal_point).
Abbreviation spells := (spells strtod decimal_point).
Abbreviation lex_scan := (lex_scan funcs rfuel strtod decimal_point junk).
Abbreviation parse_value := (parse_value funcs rfuel strtod decimal_point junk).
Abbreviation arr_loop := (arr_loop funcs rfuel strtod decimal_point junk).
Abbreviation obj_loop := (obj_loop funcs rfuel strtod decimal_point junk).
Abbreviation loose := (loose srefs).
Abbreviation built := (built srefs).
Abbreviation means := (means contents_of).
Implicit Types w : jworld.
Implicit Types v : vworld X D.

(** The lexer got from [w] to [w'], before [l]. *)
Definition moved w w' (l : list Z) : Prop := ready w' l /\ error w' = error w.

Lemma kept_loose w w' t : kept w w' -> loose ∅ (jw w') t = loose ∅ (jw w) t.
Proof. intros [Hv _ Hs _]. unfold VariantProofs.loose. by rewrite Hv, Hs. Qed.

Lemma kept_wf w w' roots : kept w w' -> var_wf (jw w) roots -> var_wf (jw w') roots.
Proof.
  intros [Hv Hn _ _] [H1 H2 H3 H4 H5]. split.
  - by rewrite Hv.
  - by rewrite Hv.
  - intros p u Hp. rewrite Hv in Hp. rewrite Hn. by apply (H3 p u).
  - intros p u Hp. rewrite Hv in Hp. by apply (H4 p u).
  - intros p u Hst Hp. rewrite Hv in Hp. by apply H5.
Qed.

Lemma built_kept_l a m roots w w1 v' : kept w w1 -> built a m roots (jw w1) v' -> built a m roots (jw w) v'.
Proof.
  intros K [H1 H2 H3 H4 H5]. pose proof (fun t => kept_loose w w1 t K) as Hl. destruct K as [Hv Hn _ _].
  rewrite Hv, Hn in *. split; [done|done|done|done|]. intros t. by rewrite H5.
Qed.

Lemma built_kept_r a m roots v w1 w2 : kept w1 w2 -> built a m roots v (jw w1) -> built a m roots v (jw w2).
Proof.
  intros K [H1 H2 H3 H4 H5]. pose proof (kept_wf _ _ _ K H1) as Hw. pose proof (fun t => kept_loose w1 w2 t K) as Hl.
  destruct K as [Hv Hn _ _]. split; [done|by rewrite Hv|by rewrite Hn|by rewrite Hv|]. intros t. by rewrite Hl.
Qed.

Lemma on_vars_ok {A} (f : M (vworld X D) A) w a v' :
  f (jw w) = Ret (a, v') -> on_vars f w = Ret (a, set_jw v' w).
Proof. intros E. unfold on_vars. by rewrite E. Qed.

(** ** Leaves *)

(** [p] is the value [t], built between [w] and [w'], which is before [l]. *)
Definition yields (t : tree D) (m : Z) (roots : list positive) w (l : list Z) (r : outcome (option positive * jworld)) : Prop :=
  exists p w', r = Ret (Some p, w') /\ moved w w' l /\ built None m (p :: roots) (jw w) (jw w') /\
    inside (vnext (jw w)) p /\ means (vars (jw w')) t p.

Lemma yields_kept t m roots w w1 l r : kept w w1 -> yields t m roots w1 l r -> yields t m roots w l r.
Proof.
  intros K (p & w' & E & [H1 H2] & H3 & H4 & H5). exists p, w'.
  split_and!; [done|split; [done|by rewrite H2, (k_error _ _ _ K)]|by eapply built_kept_l| |done].
  by rewrite (k_next _ _ _ K) in H4.
Qed.

Definition leaf_tok (t : tree D) : option (tok D) :=
  match t with
  | TNull => Some KNull
  | TBool b => Some (if b then KTrue else KFalse)
  | TInt z => Some (KInt z)
  | TReal d => Some (KReal d)
  | TStr s => Some (KStr s)
  | TArr _ | TObj _ => None
  end.

Lemma yield_static p t m roots w l :
  is_static p -> (forall h u, h !! p = Some u -> body u = static_body p -> denotes contents_of h t p) ->
  var_wf (jw w) roots -> room (vars (jw w)) (m + 1) -> 0 <= m -> ready w l ->
  yields t m roots w l ((q <-- on_vars (ph_var_addref p ;;; ret p) ;; ret (Some q)) w).
Proof.
  intros Hp Hd Hw Hr Hm Hl. destruct (addref_static (srefs := srefs) (jw w) roots p m Hw Hp Hr Hm) as (v' & E & Hb & u & Hu & Hbu).
  step_with (on_vars_ok _ w _ _ E). exists p, (set_jw v' w). split; [done|]. split; [done|]. split; [done|].
  split; [by right|]. exists t. split; [constructor|]. by apply (Hd _ u).
Qed.

Lemma yield_new b t m roots w l :
  refs_in b = [] -> ~ is_singleton b -> body_ok (X := X) b -> strs_in b = [] ->
  (forall h p, h !! p = Some (Var 1 b) -> denotes contents_of h t p) ->
  var_wf (jw w) roots -> room (vars (jw w)) m -> ready w l ->
  yields t m roots w l ((q <-- on_vars (new_var b) ;; or_oom q) w).
Proof.
  intros H1 H2 H3 H4 Hd Hw Hr Hl. destruct (new_var_some (jw w) roots b m Hw H1 H2 H3 H4 Hr) as (v' & E & Hb & Hv & _).
  step_with (on_vars_ok _ w _ _ E). exists (vnext (jw w)), (set_jw v' w). split; [done|]. split; [done|]. split; [done|].
  split; [left; lia|]. exists t. split; [constructor|]. apply Hd. cbn. by rewrite Hv, lookup_insert_eq.
Qed.

Lemma yield_string s m roots w l :
  value (lex w) = ValString (Some s) -> Forall (fun b => b <> 0) s ->
  var_wf (jw w) roots -> room (vars (jw w)) m -> ready w l -> yields (TStr s) m roots w l (parse_string w).
Proof.
  intros Hval Hnz Hw Hr Hl. unfold parse_string. step. rewrite Hval, (cstr_all s Hnz).
  destruct (string_variant (jw w) roots s m Hw Hr) as (k & x & v' & E & E' & Hb & Hv & Hc).
  assert (on_x (string_make s) w = Ret (Some k, set_jw (set_ext x (jw w)) w)) as Ex.
  { unfold on_x, on_vars, on_ext. by rewrite E. }
  step_with Ex. step_with (on_vars_ok _ (set_jw (set_ext x (jw w)) w) _ _ E'). step.
  exists (vnext (jw w)), (set_jw v' w). split; [done|]. split; [done|]. split; [done|].
  split; [left; lia|]. exists (TStr s). split; [constructor|]. cbn. rewrite Hv, lookup_insert_eq. eexists. by split.
Qed.

(** The cases of [parse_value] on tokens with a value of their own. *)
Lemma parse_leaf lf fuel flags t k m roots w l :
  leaf_tok t = Some k -> has_tok w k -> (forall s, t = TStr s -> Forall (fun b => b <> 0) s) ->
  var_wf (jw w) roots -> room (vars (jw w)) (m + 1) -> 0 <= m -> ready w l ->
  yields t m roots w l (parse_value lf (S fuel) flags w).
Proof.
  intros Hk [Htok Hval] Hnz Hw Hr Hm Hl. assert (room (vars (jw w)) m) as Hr' by (eapply room_le; [done|lia]).
  cbn [JsonLoad.parse_value]. step. rewrite Htok. destruct t as [|[|]|z|d|s|ts|kvs]; try done; injection Hk as <-;
    cbn [tok_token] in *; cbv [TOKEN_STRING TOKEN_INTEGER TOKEN_REAL TOKEN_TRUE TOKEN_FALSE TOKEN_NULL]; cbn [Z.eqb Pos.eqb].
  - apply (yield_static null_variant); [by right; right| |done..]. intros h u Hu Hb. exists u. by rewrite Hb.
  - apply (yield_static bool_true_variant); [by left| |done..]. intros h u Hu Hb. exists u. by rewrite Hb.
  - apply (yield_static bool_false_variant); [by right; left| |done..]. intros h u Hu Hb. exists u. by rewrite Hb.
  - rewrite Hval. apply (yield_new (PH_VAR_INTEGER z)); try done; [unfold is_singleton; naive_solver|].
    intros h p Hp. eexists. by split.
  - rewrite Hval. apply (yield_new (PH_VAR_REAL d)); try done; [unfold is_singleton; naive_solver|].
    intros h p Hp. eexists. by split.
  - apply yield_string; try done. by apply Hnz.
Qed.

(** ** Arrays *)

(** The token starts a value. *)
Definition opener (k : Z) : Prop := k <> 93 /\ k <> 125 /\ k <> 0.

(** Scanning and parsing the value [t] from the text [x]. *)
Definition value_ok (t : tree D) (x : list Z) : Prop :=
  forall lf fuel flags w ws roots m l,
  Forall space ws -> ready w (ws ++ x ++ l) -> follows_tree t l -> var_wf (jw w) roots ->
  room (vars (jw w)) (m + zlen x) -> 0 <= m -> zlen x < 2 ^ 27 -> (length ws + length x < lf)%nat ->
  (length x <= fuel)%nat ->
  exists w1, lex_scan lf w = Ret (tt, w1) /\ kept w w1 /\ opener (token (lex w1)) /\
    yields t m roots w1 l (parse_value lf fuel flags w1).

Lemma scan_punct lf w ws c l :
  Forall space ws -> is_punct c = true -> ready w (ws ++ c :: l) -> (S (length ws) < lf)%nat ->
  exists w', lex_scan lf w = Ret (tt, w') /\ ready w' l /\ kept w w' /\ token (lex w') = c.
Proof.
  intros Hws Hc Hr Hf.
  destruct (lex_scan_ok funcs rfuel inv rest srefs junk Hjunk strtod decimal_point lf w ws (KPunct c) [c] l)
    as (w' & E & H1 & H2 & [H3 _]); [done|by constructor|done|done|cbn; lia|cbn; lia|].
  by exists w'.
Qed.

(** One round of the loop of [parse_array]. *)
Lemma arr_round t x lf fuel flags w arr ts ps roots m ws ws' c l :
  value_ok t x -> Forall space ws -> Forall space ws' -> c = 44 \/ c = 93 ->
  ready w (ws ++ x ++ ws' ++ c :: l) -> var_wf (jw w) (arr :: roots) -> arr_holds arr (vars (jw w)) ts ps ->
  room (vars (jw w)) (m + zlen x) -> 0 <= m -> zlen ps + zlen x < 2 ^ 27 ->
  (length ws + length x + length ws' + 1 < lf)%nat -> (length x <= fuel)%nat ->
  exists w1 w2 p, lex_scan lf w = Ret (tt, w1) /\ opener (token (lex w1)) /\
    arr_loop lf (S fuel) flags arr w1 =
      (if c =? c_comma then lex_scan lf ;;; arr_loop lf fuel flags arr else ret (Some arr)) w2 /\
    moved w w2 l /\ built (Some arr) m (arr :: roots) (jw w) (jw w2) /\
    arr_holds arr (vars (jw w2)) (ts ++ [t]) (ps ++ [p]).
Proof.
  intros Hv Hws Hws' Hc Hr Hw Ha Hm H0 Hlt Hlf Hf. assert (delim c /\ is_punct c = true) as [Hd Hpu].
  { unfold delim. split; [lia|]. by destruct Hc as [->| ->]. }
  destruct (Hv lf fuel flags w ws (arr :: roots) m (ws' ++ c :: l)) as (w1 & E1 & K1 & Ho & p & w2 & E2 & [Hr2 He2] & Hb2 & Hin & Hmeans);
    [done|done|by apply delim_follows|done|done|done|lia|lia|done|].
  assert (arr_holds arr (vars (jw w1)) ts ps) as Ha1 by (by rewrite (k_vars _ _ _ K1)).
  pose proof (kept_wf _ _ _ K1 Hw) as Hw1.
  pose proof (ah_cell _ _ _ _ Ha1) as (u & al & Hu & _).
  assert (arr < vnext (jw w1))%positive as Harr by (by apply (vw_fresh _ _ Hw1 arr u)).
  assert (arr_holds arr (vars (jw w2)) ts ps) as Ha2 by (by eapply arr_holds_extends; [done|apply Hb2|]).
  destruct (append_built arr p t (vnext (jw w1)) m roots (jw w2) ts ps) as (v3 & E3 & Hb3 & Ha3);
    [apply Hb2|done|apply Hb2|done|done|done|apply Hb2|lia|].
  destruct (scan_punct lf (set_jw v3 w2) ws' c l Hws' Hpu Hr2) as (w4 & E4 & Hr4 & K4 & Ht4); [lia|].
  exists w1, w4, p. split; [done|]. split; [done|]. split.
  { cbn [JsonLoad.arr_loop]. step. rewrite (proj2 (Z.eqb_neq _ TOKEN_EOF)) by apply Ho.
    step_with E2. step_with (on_vars_ok _ w2 _ _ E3). step_with E4. step. rewrite Ht4.
    by destruct Hc as [->| ->]. }
  split; [split; [done|]|split].
  - by rewrite (k_error _ _ _ K4), <- (k_error _ _ _ K1), <- He2.
  - apply (built_kept_r _ _ _ _ (set_jw v3 w2)); [done|]. apply (built_kept_l _ _ _ w w1); [done|].
    eapply built_trans; [by apply built_weaken|exact Hb3|]. by intros b [= <-].
  - by rewrite (k_vars _ _ _ K4).
Qed.

(** The rest of an array, up to the bracket. *)
Definition elems_ok (us : list (tree D)) (x : list Z) : Prop :=
  forall lf fuel flags w arr ts ps roots m l,
  ready w (x ++ l) -> var_wf (jw w) (arr :: roots) -> arr_holds arr (vars (jw w)) ts ps ->
  room (vars (jw w)) (m + zlen x) -> 0 <= m -> zlen ps + zlen x < 2 ^ 27 -> (length x < lf)%nat ->
  (length x <= fuel)%nat ->
  exists w1 w' ps', lex_scan lf w = Ret (tt, w1) /\ opener (token (lex w1)) /\
    arr_loop lf fuel flags arr w1 = Ret (Some arr, w') /\ moved w w' l /\
    built (Some arr) m (arr :: roots) (jw w) (jw w') /\ arr_holds arr (vars (jw w')) (ts ++ us) ps'.

Lemma elems_last_ok ws t x ws' :
  Forall space ws -> value_ok t x -> (1 <= length x)%nat -> Forall space ws' -> elems_ok [t] (ws ++ x ++ ws' ++ [93]).
Proof.
  intros Hws Hv Hx Hws' lf fuel flags w arr ts ps roots m l Hr Hw Ha Hm H0 Hlt Hlf Hf.
  rewrite !length_app in *. cbn [length] in *. rewrite <- !app_assoc in Hr. cbn [app] in Hr.
  destruct fuel as [|fuel]; [lia|].
  destruct (arr_round t x lf fuel flags w arr ts ps roots m ws ws' 93 l) as (w1 & w2 & p & E1 & Ho & E2 & Hmv & Hb & Hah);
    [done|done|done|by right|done|done|done|eapply room_le; [done|lia]|done|lia|lia|lia|].
  exists w1, w2, (ps ++ [p]). by rewrite E2.
Qed.

Lemma elems_cons_ok ws t x ws' us y :
  Forall space ws -> value_ok t x -> (1 <= length x)%nat -> Forall space ws' -> elems_ok us y ->
  elems_ok (t :: us) (ws ++ x ++ ws' ++ 44 :: y).
Proof.
  intros Hws Hv Hx Hws' He lf fuel flags w arr ts ps roots m l Hr Hw Ha Hm H0 Hlt Hlf Hf.
  rewrite !length_app in *. cbn [length] in *. rewrite <- !app_assoc in Hr. cbn [app] in Hr.
  destruct fuel as [|fuel]; [lia|].
  destruct (arr_round t x lf fuel flags w arr ts ps roots (m + zlen y) ws ws' 44 (y ++ l))
    as (w1 & w2 & p & E1 & Ho & E2 & [Hr2 He2] & Hb & Hah);
    [done|done|done|by left|done|done|done|eapply room_le; [done|lia]|lia|lia|lia|lia|].
  destruct (He lf fuel flags w2 arr (ts ++ [t]) (ps ++ [p]) roots m l) as (w3 & w4 & ps' & E3 & Ho3 & E4 & [Hr4 He4] & Hb4 & Hah4);
    [done|apply Hb|done|apply Hb|done|rewrite length_app; cbn [length]; lia|lia|lia|].
  exists w1, w4, ps'. split; [done|]. split; [done|]. split; [|split; [split; [done|by rewrite He4]|split]].
  - rewrite E2. change (44 =? c_comma) with true. cbv iota. by step_with E3.
  - eapply built_trans; [done|done|]. intros b [= <-].
    destruct (ah_cell _ _ _ _ Ha) as (u & al & Hu & _). by apply (vw_fresh _ _ Hw arr u).
  - by rewrite <- app_assoc in Hah4.
Qed.

Lemma array_ok us x : elems_ok us x -> (1 <= length x)%nat -> value_ok (TArr us) (91 :: x).
Proof.
  intros He Hx lf fuel flags w ws roots m l Hws Hr _ Hw Hm H0 Hlt Hlf Hf. cbn [length] in *.
  destruct (scan_punct lf w ws 91 (x ++ l) Hws eq_refl Hr) as (w1 & E1 & Hr1 & K1 & Ht1); [lia|].
  exists w1. split; [done|]. split; [done|]. rewrite Ht1. split; [done|].
  pose proof (kept_wf _ _ _ K1 Hw) as Hw1.
  destruct (array_start (jw w1) roots (m + zlen x) Hw1) as (v2 & E2 & Hb2 & Ha2).
  { rewrite (k_vars _ _ _ K1). eapply room_le; [done|lia]. }
  destruct fuel as [|fuel]; [lia|].
  destruct (He lf fuel flags (set_jw v2 w1) (vnext (jw w1)) [] [] roots m l) as (w3 & w4 & ps' & E3 & Ho & E4 & Hmv & Hb4 & Ha4);
    [done|apply Hb2|done|apply Hb2|done|cbn; lia|lia|lia|].
  exists (vnext (jw w1)), w4. split.
  { cbn [JsonLoad.parse_value]. step. rewrite Ht1. cbv [TOKEN_STRING TOKEN_INTEGER TOKEN_REAL TOKEN_TRUE TOKEN_FALSE TOKEN_NULL].
    cbn [Z.eqb Pos.eqb]. step_with (on_vars_ok _ w1 _ _ E2). step_with E3. step.
    rewrite (proj2 (Z.eqb_neq _ c_rbracket)) by apply Ho. done. }
  split; [done|]. split; [|split; [left; lia|by eapply arr_done]].
  eapply (built_whole (vnext (jw w1))); [exact Hb2|exact Hb4|done|by eapply fresh_none|by eapply arr_closed].
Qed.

Lemma array_empty_ok ws' : Forall space ws' -> value_ok (TArr []) (91 :: ws' ++ [93]).
Proof.
  intros Hws' lf fuel flags w ws roots m l Hws Hr _ Hw Hm H0 Hlt Hlf Hf. cbn [length] in *.
  rewrite length_app in *. cbn [length] in *.
  change ((91 :: ws' ++ [93]) ++ l) with (91 :: (ws' ++ [93]) ++ l) in Hr. rewrite <- app_assoc in Hr.
  destruct (scan_punct lf w ws 91 _ Hws eq_refl Hr) as (w1 & E1 & Hr1 & K1 & Ht1); [lia|].
  exists w1. split; [done|]. split; [done|]. rewrite Ht1. split; [done|].
  pose proof (kept_wf _ _ _ K1 Hw) as Hw1.
  destruct (array_start (jw w1) roots m Hw1) as (v2 & E2 & Hb2 & Ha2).
  { rewrite (k_vars _ _ _ K1). eapply room_le; [done|lia]. }
  destruct (scan_punct lf (set_jw v2 w1) ws' 93 l Hws' eq_refl) as (w3 & E3 & Hr3 & K3 & Ht3); [done|lia|].
  destruct fuel as [|fuel]; [lia|]. exists (vnext (jw w1)), w3. split.
  { cbn [JsonLoad.parse_value]. step. rewrite Ht1. cbv [TOKEN_STRING TOKEN_INTEGER TOKEN_REAL TOKEN_TRUE TOKEN_FALSE TOKEN_NULL].
    cbn [Z.eqb Pos.eqb]. step_with (on_vars_ok _ w1 _ _ E2). step_with E3. step. by rewrite Ht3. }
  split; [split; [done|apply K3]|]. split; [by eapply built_kept_r|]. split; [left; lia|].
  rewrite (k_vars _ _ _ K3). by eapply arr_done.
Qed.

(** ** Objects *)

(** Stealing the string of a key. *)
Lemma steal_ok w s :
  has_tok w (KStr s) -> Forall (fun b => b <> 0) s ->
  exists k x w', lex_steal_string w = Ret (Some k, w') /\ jw w' = set_ext x (jw w) /\ contents_of k = s /\
    stream (lex w') = stream (lex w) /\ saved_text (lex w') = saved_text (lex w) /\ error w' = error w /\
    forall t, srefs x t = srefs (ext (jw w)) t + occ t [k].
Proof.
  intros [Ht Hv] Hnz. unfold lex_steal_string. step. rewrite Ht, Hv, (cstr_all s Hnz). cbn [tok_token Z.eqb Pos.eqb negb TOKEN_STRING].
  destruct (plenty_string (srefs := srefs) s (ext (jw w))) as (k & x & E & Hc & Hx).
  assert (on_x (string_make s) w = Ret (Some k, set_jw (set_ext x (jw w)) w)) as Ex.
  { unfold on_x, on_vars, on_ext. by rewrite E. }
  step_with Ex. exists k, x. eexists. split; [reflexivity|]. split_and!; try done.
  intros t. rewrite Hx, occ_cons. change (occ t []) with 0. lia.
Qed.

Lemma spelled_string k kx : spells (KStr k) kx -> Forall (fun b => b <> 0) k.
Proof. intros (b & r & _ & _ & _ & _ & body & _ & Hb)%spells_first. by eapply sbody_nonzero. Qed.

(** One round of the loop of [parse_object]. *)
Lemma obj_round k kx t x lf fuel flags w obj kvs es roots m ws ws1 ws2 ws3 c l :
  spells (KStr k) kx -> value_ok t x -> Forall space ws -> Forall space ws1 -> Forall space ws2 -> Forall space ws3 ->
  c = 44 \/ c = 125 -> ready w (ws ++ kx ++ ws1 ++ 58 :: ws2 ++ x ++ ws3 ++ c :: l) ->
  var_wf (jw w) (obj :: roots) -> obj_holds obj (vars (jw w)) kvs es -> k ∉ kvs.*1 ->
  room (vars (jw w)) (m + zlen x) -> 0 <= m -> zlen es + zlen kx + zlen x < 2 ^ 27 ->
  (length ws + length kx + length ws1 + length ws2 + length x + length ws3 + 2 < lf)%nat -> (length x <= fuel)%nat ->
  exists w1 w2 key p, lex_scan lf w = Ret (tt, w1) /\ opener (token (lex w1)) /\
    obj_loop lf (S fuel) flags obj w1 =
      (if c =? c_comma then lex_scan lf ;;; obj_loop lf fuel flags obj else ret (Some obj)) w2 /\
    moved w w2 l /\ built (Some obj) m (obj :: roots) (jw w) (jw w2) /\
    obj_holds obj (vars (jw w2)) (kvs ++ [(k, t)]) (es ++ [(key, p)]).
Proof.
  intros Hkx Hv Hws Hws1 Hws2 Hws3 Hc Hr Hw Hh Hk Hm H0 Hlt Hlf Hf. assert (delim c /\ is_punct c = true) as [Hd Hpu].
  { unfold delim. split; [lia|]. by destruct Hc as [->| ->]. }
  destruct (lex_scan_ok funcs rfuel inv rest srefs junk Hjunk strtod decimal_point lf w ws (KStr k) kx _ Hws Hkx I Hr)
    as (w1 & E1 & Hr1 & K1 & T1); [lia|lia|].
  destruct (steal_ok w1 k T1 (spelled_string _ _ Hkx)) as (key & x1 & w2 & E2 & Hj2 & Hkc & Hs2 & Ht2 & He2 & Hx1).
  assert (ready w2 (ws1 ++ 58 :: ws2 ++ x ++ ws3 ++ c :: l)) as Hr2.
  { destruct Hr1 as [Hr1 Hr1']. unfold JsonTokens.ready. by rewrite Hs2, Ht2. }
  destruct (scan_punct lf w2 ws1 58 _ Hws1 eq_refl Hr2) as (w3 & E3 & Hr3 & K3 & T3); [lia|].
  assert (var_wf (jw w2) (obj :: roots)) as Hw2 by (rewrite Hj2; by eapply var_wf_ext, kept_wf).
  pose proof (kept_wf _ _ _ K3 Hw2) as Hw3.
  assert (vars (jw w2) = vars (jw w) /\ vnext (jw w2) = vnext (jw w)) as [Hvars2 Hnext2].
  { rewrite Hj2. cbn. by rewrite (k_vars _ _ _ K1), (k_next _ _ _ K1). }
  assert (vars (jw w3) = vars (jw w)) as Hvars3 by (by rewrite (k_vars _ _ _ K3)).
  assert (vnext (jw w3) = vnext (jw w)) as Hnext3 by (by rewrite (k_next _ _ _ K3)).
  destruct (Hv lf fuel flags w3 ws2 (obj :: roots) m (ws3 ++ c :: l)) as (w4 & E4 & K4 & _ & p & w5 & E5 & [Hr5 He5] & Hb5 & Hin & Hmeans);
    [done|done|by apply delim_follows|done|by rewrite Hvars3|done|lia|lia|done|].
  apply (built_kept_l _ _ _ w3) in Hb5; [|done]. rewrite (k_next _ _ _ K4), Hnext3 in Hin.
  destruct Hb5 as [B1 B2 B3 B4 B5]. rewrite Hvars3, Hnext3 in B2.
  pose proof (oh_cell _ _ _ _ Hh) as (u & o & Hu & Hbu & _).
  assert (obj < vnext (jw w))%positive as Hobj by (by apply (vw_fresh _ _ Hw obj u)).
  assert (obj_holds obj (vars (jw w5)) kvs es) as Hh5 by (by eapply obj_holds_extends).
  destruct (set_built obj key p t (vnext (jw w)) m roots (jw w5) kvs es) as (v6 & E6 & Hn6 & Hw6 & Hx6 & Hr6 & Hsp6 & Hh6);
    [done|done|apply B2|done|done|done|done|lia|by rewrite Hkc|].
  destruct (scan_punct lf (set_jw v6 w5) ws3 c l Hws3 Hpu Hr5) as (w7 & E7 & Hr7 & K7 & T7); [lia|].
  exists w1, w7, key, p. split; [done|]. destruct T1 as [T1 _]. rewrite T1. split; [done|]. split.
  { cbn [JsonLoad.obj_loop]. step. rewrite T1. cbn [tok_token Z.eqb Pos.eqb negb TOKEN_STRING]. step_with E2.
    assert (load_var obj w2 = Ret (u, w2)) as El.
    { unfold load_var, on_vars. rewrite (load_eq (jw w2) obj u) by (by rewrite Hvars2). by destruct w2. }
    step_with El.
    assert (ph_var_object_get (X := X) u key = None) as ->.
    { eapply (obj_get_none obj _ (jw w)); [done|done|done|by rewrite Hkc]. }
    rewrite andb_false_r. step_with E3. step. rewrite T3. cbn [Z.eqb Pos.eqb negb]. step_with E4. step_with E5.
    step_with (on_vars_ok _ w5 _ _ E6). step_with E7. step. rewrite T7. by destruct Hc as [->| ->]. }
  split; [split; [done|]|split].
  - rewrite (k_error _ _ _ K7). change (error (set_jw v6 w5)) with (error w5).
    by rewrite He5, (k_error _ _ _ K4), (k_error _ _ _ K3), He2, (k_error _ _ _ K1).
  - apply (built_kept_r _ _ _ _ (set_jw v6 w5)); [done|]. cbn [jw set_jw]. split; [done| |rewrite Hn6; lia|done|].
    + eapply extends_trans; [apply extends_weaken; exact B2|exact Hx6|lia|]. by intros b [= <-].
    + intros t'. rewrite Hsp6, B5, (kept_loose _ _ t' K3), Hj2. unfold VariantProofs.loose. cbn [ext set_ext vars].
      rewrite Hx1, (k_vars _ _ _ K1), (k_strs _ _ _ K1). lia.
  - rewrite (k_vars _ _ _ K7). cbn [jw set_jw]. by rewrite Hkc in Hh6.
Qed.

(** The rest of an object, up to the brace. *)
Definition members_ok (us : list (list Z * tree D)) (x : list Z) : Prop :=
  forall lf fuel flags w obj kvs es roots m l,
  NoDup (kvs ++ us).*1 ->
  ready w (x ++ l) -> var_wf (jw w) (obj :: roots) -> obj_holds obj (vars (jw w)) kvs es ->
  room (vars (jw w)) (m + zlen x) -> 0 <= m -> zlen es + zlen x < 2 ^ 27 -> (length x < lf)%nat ->
  (length x <= fuel)%nat ->
  exists w1 w' es', lex_scan lf w = Ret (tt, w1) /\ opener (token (lex w1)) /\
    obj_loop lf fuel flags obj w1 = Ret (Some obj, w') /\ moved w w' l /\
    built (Some obj) m (obj :: roots) (jw w) (jw w') /\ obj_holds obj (vars (jw w')) (kvs ++ us) es'.

Lemma members_last_ok ws k kx ws1 ws2 t x ws3 :
  Forall space ws -> spells (KStr k) kx -> Forall space ws1 -> Forall space ws2 -> value_ok t x -> Forall space ws3 ->
  members_ok [(k, t)] (ws ++ kx ++ ws1 ++ 58 :: ws2 ++ x ++ ws3 ++ [125]).
Proof.
  intros Hws Hkx Hws1 Hws2 Hv Hws3 lf fuel flags w obj kvs es roots m l Hnd Hr Hw Ha Hm H0 Hlt Hlf Hf.
  repeat (rewrite length_app in * || cbn [length] in * ). repeat (rewrite <- app_assoc in Hr; cbn [app] in Hr).
  apply nodup_next in Hnd as [Hk _]. destruct fuel as [|fuel]; [lia|].
  destruct (obj_round k kx t x lf fuel flags w obj kvs es roots m ws ws1 ws2 ws3 125 l)
    as (w1 & w2 & key & p & E1 & Ho & E2 & Hmv & Hb & Hah);
    [done|done|done|done|done|done|by right|done|done|done|done|eapply room_le; [done|lia]|done|lia|lia|lia|].
  exists w1, w2, (es ++ [(key, p)]). by rewrite E2.
Qed.

Lemma members_cons_ok ws k kx ws1 ws2 t x ws3 us y :
  Forall space ws -> spells (KStr k) kx -> Forall space ws1 -> Forall space ws2 -> value_ok t x -> Forall space ws3 ->
  members_ok us y -> members_ok ((k, t) :: us) (ws ++ kx ++ ws1 ++ 58 :: ws2 ++ x ++ ws3 ++ 44 :: y).
Proof.
  intros Hws Hkx Hws1 Hws2 Hv Hws3 He lf fuel flags w obj kvs es roots m l Hnd Hr Hw Ha Hm H0 Hlt Hlf Hf.
  repeat (rewrite length_app in * || cbn [length] in * ). repeat (rewrite <- app_assoc in Hr; cbn [app] in Hr).
  apply nodup_next in Hnd as [Hk Hnd]. destruct fuel as [|fuel]; [lia|].
  destruct (obj_round k kx t x lf fuel flags w obj kvs es roots (m + zlen y) ws ws1 ws2 ws3 44 (y ++ l))
    as (w1 & w2 & key & p & E1 & Ho & E2 & [Hr2 He2] & Hb & Hah);
    [done|done|done|done|done|done|by left|done|done|done|done|eapply room_le; [done|lia]|lia|lia|lia|lia|].
  pose proof (spells_pos _ _ _ _ Hkx).
  destruct (He lf fuel flags w2 obj (kvs ++ [(k, t)]) (es ++ [(key, p)]) roots m l)
    as (w3 & w4 & es' & E3 & Ho3 & E4 & [Hr4 He4] & Hb4 & Hah4);
    [done|done|apply Hb|done|apply Hb|done|rewrite length_app; cbn [length]; lia|lia|lia|].
  exists w1, w4, es'. split; [done|]. split; [done|]. split; [|split; [split; [done|by rewrite He4]|split]].
  - rewrite E2. change (44 =? c_comma) with true. cbv iota. by step_with E3.
  - eapply built_trans; [done|done|]. intros b [= <-].
    destruct (oh_cell _ _ _ _ Ha) as (u & o & Hu & _). by apply (vw_fresh _ _ Hw obj u).
  - by rewrite <- app_assoc in Hah4.
Qed.

Lemma object_ok us x : members_ok us x -> NoDup us.*1 -> (1 <= length x)%nat -> value_ok (TObj us) (123 :: x).
Proof.
  intros He Hnd Hx lf fuel flags w ws roots m l Hws Hr _ Hw Hm H0 Hlt Hlf Hf. cbn [length] in *.
  destruct (scan_punct lf w ws 123 (x ++ l) Hws eq_refl Hr) as (w1 & E1 & Hr1 & K1 & Ht1); [lia|].
  exists w1. split; [done|]. split; [done|]. rewrite Ht1. split; [done|].
  pose proof (kept_wf _ _ _ K1 Hw) as Hw1.
  destruct (object_start (jw w1) roots (m + zlen x) 8 Hw1) as (v2 & E2 & Hb2 & Ha2).
  { rewrite (k_vars _ _ _ K1). eapply room_le; [done|lia]. }
  { lia. }
  destruct fuel as [|fuel]; [lia|].
  destruct (He lf fuel flags (set_jw v2 w1) (vnext (jw w1)) [] [] roots m l Hnd)
    as (w3 & w4 & es' & E3 & Ho & E4 & Hmv & Hb4 & Ha4);
    [done|apply Hb2|done|apply Hb2|done|cbn; lia|lia|lia|].
  exists (vnext (jw w1)), w4. split.
  { cbn [JsonLoad.parse_value]. step. rewrite Ht1. cbv [TOKEN_STRING TOKEN_INTEGER TOKEN_REAL TOKEN_TRUE TOKEN_FALSE TOKEN_NULL].
    cbn [Z.eqb Pos.eqb]. step_with (on_vars_ok _ w1 _ _ E2). step_with E3. step.
    rewrite (proj2 (Z.eqb_neq _ c_rbrace)) by apply Ho. done. }
  split; [done|]. split; [|split; [left; lia|by eapply obj_done]].
  eapply (built_whole (vnext (jw w1))); [exact Hb2|exact Hb4|done|by eapply fresh_none|by eapply obj_closed].
Qed.

Lemma object_empty_ok ws' : Forall space ws' -> value_ok (TObj []) (123 :: ws' ++ [125]).
Proof.
  intros Hws' lf fuel flags w ws roots m l Hws Hr _ Hw Hm H0 Hlt Hlf Hf. cbn [length] in *.
  rewrite length_app in *. cbn [length] in *.
  change ((123 :: ws' ++ [125]) ++ l) with (123 :: (ws' ++ [125]) ++ l) in Hr. rewrite <- app_assoc in Hr.
  destruct (scan_punct lf w ws 123 _ Hws eq_refl Hr) as (w1 & E1 & Hr1 & K1 & Ht1); [lia|].
  exists w1. split; [done|]. split; [done|]. rewrite Ht1. split; [done|].
  pose proof (kept_wf _ _ _ K1 Hw) as Hw1.
  destruct (object_start (jw w1) roots m 8 Hw1) as (v2 & E2 & Hb2 & Ha2).
  { rewrite (k_vars _ _ _ K1). eapply room_le; [done|lia]. }
  { lia. }
  destruct (scan_punct lf (set_jw v2 w1) ws' 125 l Hws' eq_refl) as (w3 & E3 & Hr3 & K3 & Ht3); [done|lia|].
  destruct fuel as [|fuel]; [lia|]. exists (vnext (jw w1)), w3. split.
  { cbn [JsonLoad.parse_value]. step. rewrite Ht1. cbv [TOKEN_STRING TOKEN_INTEGER TOKEN_REAL TOKEN_TRUE TOKEN_FALSE TOKEN_NULL].
    cbn [Z.eqb Pos.eqb]. step_with (on_vars_ok _ w1 _ _ E2). step_with E3. step. by rewrite Ht3. }
  split; [split; [done|apply K3]|]. split; [by eapply built_kept_r|]. split; [left; lia|].
  rewrite (k_vars _ _ _ K3). by eapply obj_done.
Qed.

Lemma leaf_ok t k x :
  leaf_tok t = Some k -> spells k x -> value_ok t x.
Proof.
  intros Hk Hsp lf fuel flags w ws roots m l Hws Hr Hl Hw Hm H0 Hlt Hlf Hf.
  pose proof (spells_pos _ _ _ _ Hsp) as Hpos. assert (follows_tok k l) as Hfl.
  { destruct t as [|[|]| | | | |]; try done; by injection Hk as <-. }
  destruct (lex_scan_ok funcs rfuel inv rest srefs junk Hjunk strtod decimal_point lf w ws k x l Hws Hsp Hfl Hr)
    as (w1 & E1 & Hr1 & K1 & T1); [lia|lia|].
  exists w1. split; [done|]. split; [done|]. split.
  { destruct T1 as [-> _]. destruct t as [|[|]| | | | |]; try done; by injection Hk as <-. }
  destruct fuel as [|fuel]; [lia|]. apply (parse_leaf lf fuel flags t k); [done|done| |by eapply kept_wf| |done|done].
  - intros s ->. injection Hk as <-. by eapply spelled_string.
  - rewrite (k_vars _ _ _ K1). eapply room_le; [done|lia].
Qed.

Lemma elems_pos us x : elems us x -> (1 <= length x)%nat.
Proof. intros []; rewrite !length_app; cbn; lia. Qed.
Lemma members_pos us x : members us x -> (1 <= length x)%nat.
Proof. intros []; rewrite !length_app; cbn; lia. Qed.

(** On the text of a value [lex_scan] and [parse_value] build the value. *)
Lemma json_ok t x : json t x -> value_ok t x.
Proof.
  assert ((forall t x, json t x -> value_ok t x) /\ (forall us y, elems us y -> elems_ok us y) /\
    (forall us y, members us y -> members_ok us y)) as (Hj & _); [|apply Hj]. clear t x.
  apply json_all_ind; intros.
  - by apply (leaf_ok _ KNull).
  - by apply (leaf_ok _ KTrue).
  - by apply (leaf_ok _ KFalse).
  - by apply (leaf_ok _ (KInt z)).
  - by apply (leaf_ok _ (KReal d)).
  - by apply (leaf_ok _ (KStr s)).
  - by apply array_empty_ok.
  - apply array_ok; [done|by eapply elems_pos].
  - by apply object_empty_ok.
  - apply object_ok; [done|done|by eapply members_pos].
  - apply elems_last_ok; [done|done|by eapply json_pos|done].
  - apply elems_cons_ok; [done|done|by eapply json_pos|done|done].
  - by apply members_last_ok.
  - by apply members_cons_ok.
Qed.

(** ** The whole reader *)

Lemma lex_close_ok w : exists w', lex_close w = Ret (tt, w') /\ kept w w' /\ stream (lex w') = stream (lex w).
Proof.
  unfold lex_close. step.
  assert (exists w', (if token (lex w) =? TOKEN_STRING then free_value else ret tt) w = Ret (tt, w') /\ kept w w' /\
    lex w' = lex w) as (w1 & E1 & K1 & L1).
  { destruct (token (lex w) =? TOKEN_STRING); [|by exists w]. unfold free_value. step.
    destruct (value (lex w)) as [|[s|]| |]; try (by exists w). eexists. split; [reflexivity|].
    split; [|done]. split; try done. intros t. apply free_refs. }
  step_with E1. destruct (t_heap _); [|by exists w1; rewrite L1].
  eexists. split; [reflexivity|]. split; [|by cbn; rewrite L1]. transitivity w1; [done|].
  split; try done. intros t. apply free_refs.
Qed.

(** The documents the reader takes with the flags: arrays and objects, or any
    value. *)
Definition top_ok (flags : Z) (t : tree D) : Prop :=
  match t with TArr _ | TObj _ => True | _ => Z.land flags PH_JSON_DECODE_ANY <> 0 end.

Lemma json_opens t x : json t x -> match t with TArr _ => exists r, x = 91 :: r | TObj _ => exists r, x = 123 :: r | _ => True end.
Proof. intros []; eauto. Qed.

Lemma lex_init_ready v x d err : stm_at inv rest x d -> txt d -> ready (JWorld v (lex_init x) err) d.
Proof.
  intros Hs Ht. split; [exists []; split; [done|]; split; [cbn; lia|done]|]. left. exists [], [], d.
  split; [|done]. split; try done. by exists (replicate 4 0).
Qed.

(** The error record after a successful load. *)
Definition no_error (err err' : option ph_var_err) : Prop :=
  match err with
  | None => err' = None
  | Some e => exists pos, err' = Some (Err (e_line e) (e_column e) pos false None)
  end.

Lemma json_load_ok t x ws ws' lf fuel flags err s v roots :
  json t x -> Forall space ws -> Forall space ws' -> follows_tree t ws' -> top_ok flags t ->
  stm_at inv rest s (ws ++ x ++ ws') -> txt (ws ++ x ++ ws') -> var_wf v roots -> room (vars v) (zlen x) ->
  zlen x < 2 ^ 27 -> (length (ws ++ x ++ ws') < lf)%nat -> (length x <= fuel)%nat ->
  exists p v' s' err', ph_json_load_stream funcs rfuel strtod decimal_point junk lf fuel s flags err v =
      Ret (Some p, (v', s', err')) /\
    built None 0 (p :: roots) v v' /\ inside (vnext v) p /\ means (vars v') t p /\ no_error err err' /\
    exists l, stm_at inv rest s' l.
Proof.
  intros Hj Hws Hws' Hfl Htop Hs Htx Hw Hm Hlt Hlf Hf. unfold ph_json_load_stream.
  set (err0 := match err with Some e => Some (Err (e_line e) (e_column e) (e_position e) false None) | None => None end).
  set (w0 := JWorld v (lex_init s) err0). rewrite !length_app in Hlf.
  destruct (json_ok t x Hj lf fuel flags w0 ws roots 0 ws') as (w1 & E1 & K1 & Ho & p & w2 & E2 & [Hr2 He2] & Hb2 & Hin & Hmeans);
    [done|by apply lex_init_ready|done|done|by rewrite Z.add_0_l|lia|done|lia|done|].
  assert (Z.land flags PH_JSON_DECODE_ANY =? 0 = false \/ token (lex w1) = c_lbracket \/ token (lex w1) = c_lbrace) as Hstart.
  { unfold top_ok in Htop. pose proof (json_opens _ _ Hj) as Hx. assert (ready w0 (ws ++ x ++ ws')) as Hr0 by (by apply lex_init_ready).
    assert (forall c r, is_punct c = true -> x = c :: r -> token (lex w1) = c) as Htk.
    { intros c r Hc ->. destruct (scan_punct lf w0 ws c (r ++ ws') Hws Hc Hr0) as (w3 & E3 & _ & _ & T3); [cbn in Hlf; lia|].
      rewrite E1 in E3. by injection E3 as <-. }
    destruct t; try (left; by apply Z.eqb_neq); destruct Hx as [r Hx]; right; [left|right]; by eapply Htk. }
  assert (exists w3, (if Z.land flags PH_JSON_DISABLE_EOF_CHECK =? 0 then
      lex_scan lf ;;; k <-- get_token ;;
      if negb (k =? TOKEN_EOF) then error_set MsgEof ;;; var_delref p ;;; ret false else ret true
      else ret true) w2 = Ret (true, w3) /\ kept w2 w3 /\ exists l, ready w3 l) as (w3 & E3 & K3 & l3 & Hr3).
  { destruct (Z.land flags PH_JSON_DISABLE_EOF_CHECK =? 0); [|by exists w2; split_and!; [..|exists ws']].
    destruct (lex_scan_eof funcs rfuel inv rest srefs junk strtod decimal_point lf w2 ws' Hws' Hr2) as (w3 & E3 & R3 & K3 & T3); [lia|].
    exists w3. split; [|by split; [|exists []]]. step_with E3. step. by rewrite T3. }
  assert (parse_json funcs rfuel strtod decimal_point junk lf fuel flags (JWorld v (lex_init s) err) =
    Ret (Some p, set_error (match error w3 with Some e => Some (Err (e_line e) (e_column e)
      (u32 (position (stream (lex w3)))) (e_transient e) (e_text e)) | None => None end) w3)) as Ep.
  { unfold parse_json. step.
    assert ((match err with
      | Some e => modify (set_error (Some (Err (e_line e) (e_column e) (e_position e) false None)))
      | None => ret tt end) (JWorld v (lex_init s) err) = Ret (tt, w0)) as E0 by (by destruct err).
    step_with E0. step_with E1. step.
    assert ((Z.land flags PH_JSON_DECODE_ANY =? 0) && negb (token (lex w1) =? c_lbracket) && negb (token (lex w1) =? c_lbrace) = false) as ->.
    { destruct Hstart as [->|[->| ->]]; [done|..]; by rewrite ?andb_false_r. }
    step_with E2. step_with E3. step. destruct (error w3) eqn:Ee; [done|]. f_equal. f_equal. destruct w3. cbn in Ee |- *. by subst. }
  step_with Ep. destruct (lex_close_ok (set_error (match error w3 with Some e => Some (Err (e_line e) (e_column e)
      (u32 (position (stream (lex w3)))) (e_transient e) (e_text e)) | None => None end) w3)) as (w4 & E4 & K4 & S4).
  step_with E4. exists p, (jw w4), (stm (stream (lex w4))), (error w4). split; [done|].
  pose proof (k_error _ _ _ K4) as He4. cbn in He4.
  assert (vars (jw w4) = vars (jw w2)) as Hv4 by (by rewrite (k_vars _ _ _ K4), <- (k_vars _ _ _ K3)).
  split; [|split; [by rewrite (k_next _ _ _ K1) in Hin|split; [|split]]].
  - apply (built_kept_l _ _ _ w0 w1) in Hb2; [|done].
    apply (built_kept_r _ _ _ _ w2 w3) in Hb2; [|done].
    assert (kept (set_error (error w4) w3) w4) as K4'.
    { destruct K4 as [A1 A2 A3 _]. by split. }
    by apply (built_kept_r _ _ _ _ _ _ K4') in Hb2.
  - by rewrite Hv4.
  - rewrite He4, (k_error _ _ _ K3), He2, (k_error _ _ _ K1). change (error w0) with err0. unfold err0.
    destruct err as [e|]; [|done]. by eexists.
  - rewrite S4. destruct Hr3 as [_ [(pre & cached & unr & Hat & _)|(_ & _ & Hat)]]; [exists unr; apply Hat|by exists []].
Qed.

End parse.
End JsonParse.
