(* ===== verification/JsonPrint.v ===== *)
(** * What the JSON writer writes

    [print] is the text the writer produces for a value.  It is JSON text of
    that value, whatever the flags. *)

From Stdlib Require Import ZArith Lia.
From stdpp Require Import base numbers list gmap.
From S2P Require Import Prelude SysUtil PhString PhStringUtf8 HashTable HashTableProofs StringKeys Stream StreamProofs.
From S2P Require Import Variant VariantProofs VariantOps VariantGrow JsonLoad JsonDump.
From S2P Require Import JsonLexProofs JsonTokens JsonScan JsonParse.

Module JsonPrint.
Export JsonParse.
Import PhStringUtf8.

(** ** Integers *)

Lemma dec_digits_ok fuel n :
  0 <= n < 10 ^ Z.of_nat fuel -> (1 <= fuel)%nat ->
  int_part (JsonDump.dec_digits fuel n) /\ decimal (JsonDump.dec_digits fuel n) = n /\
  (10 <= n -> exists d ds, JsonDump.dec_digits fuel n = d :: ds /\ 49 <= d <= 57) /\
  (length (JsonDump.dec_digits fuel n) <= fuel)%nat.
Proof.
  revert n. induction fuel as [|fuel IH]; intros n Hn Hf; [lia|]. cbn [JsonDump.dec_digits].
  destruct (n <? 10) eqn:E; zbool.
  - split_and!; [|cbn; lia|lia|cbn; lia].
    destruct (decide (n = 0)) as [->|]; [constructor|]. constructor; [lia|done].
  - destruct fuel as [|fuel]; [cbn in Hn; lia|].
    destruct (IH (n / 10)) as (H1 & H2 & H3 & H4); [|lia|].
    { rewrite Nat2Z.inj_succ, Z.pow_succ_r in Hn by lia. split; [apply Z.div_pos; lia|]. apply Z.div_lt_upper_bound; lia. }
    assert (1 <= n / 10) as Hq by (apply Z.div_le_lower_bound; lia).
    pose proof (Z.mod_pos_bound n 10 ltac:(lia)) as Hm. pose proof (Z.div_mod n 10 ltac:(lia)) as Hdm.
    assert (exists d ds, JsonDump.dec_digits (S fuel) (n / 10) = d :: ds /\ 49 <= d <= 57) as (d & ds & Hd & Hdr).
    { destruct (decide (10 <= n / 10)) as [|Hs]; [by apply H3|]. cbn [JsonDump.dec_digits].
      rewrite (proj2 (Z.ltb_lt _ _)) by lia. do 2 eexists. split; [done|]. lia. }
    rewrite Hd in *. split_and!.
    + constructor; [done|]. apply Forall_app. split; [|by repeat constructor; unfold digit; lia].
      by destruct (int_part_digits _ H1) as [H _]; apply Forall_cons in H as [_ H].
    + unfold decimal in *. rewrite fold_left_app, H2. cbn. lia.
    + intros _. cbn. eauto.
    + rewrite length_app. cbn in *. lia.
Qed.

(** ** Strings *)

(** The code points of [s] from [off] on. *)
Fixpoint code_points (fuel : nat) (s : list Z) (off : Z) : list Z :=
  match fuel with
  | O => []
  | S fuel =>
      match PhString.iterate_utf8 s off with
      | (PH_OK, cp, off') => cp :: code_points fuel s off'
      | _ => []
      end
  end.

Definition char_text (flags cp : Z) : list Z :=
  if JsonDump.needs_escape flags cp then JsonDump.escape_text cp else default [] (utf8_encode cp).

Definition chars_text (flags : Z) (cps : list Z) : list Z := mjoin (char_text flags <$> cps).

Definition string_text (flags : Z) (s : list Z) : list Z :=
  34 :: chars_text flags (code_points (S (length s)) s 0) ++ [34].

Lemma hex_digit_ok d : 0 <= d < 16 -> forall ds v,
  0 <= JsonDump.hex_digit d < 128 /\ l_isxdigit (JsonDump.hex_digit d) = true /\
  hex_value (JsonDump.hex_digit d :: ds) v = hex_value ds (16 * v + d).
Proof.
  intros Hd ds v. unfold JsonDump.hex_digit. destruct (d <? 10) eqn:E; zbool.
  - unfold l_isxdigit, l_isdigit. split; [lia|]. split; [lia|]. cbn [hex_value]. rewrite schar_ascii by lia.
    unfold l_isdigit. rewrite (proj2 (Z.leb_le 48 _)), (proj2 (Z.leb_le _ 57)) by lia. cbn [andb].
    f_equal. rewrite Z.shiftl_mul_pow2 by lia. change (2 ^ 4) with 16. lia.
  - unfold l_isxdigit, l_isdigit. split; [lia|]. split; [lia|]. cbn [hex_value]. rewrite schar_ascii by lia.
    unfold l_isdigit, l_islower. rewrite (proj2 (Z.leb_le 48 _)), (proj2 (Z.leb_gt _ 57)) by lia. cbn [andb].
    rewrite (proj2 (Z.leb_le 97 _)), (proj2 (Z.leb_le _ 122)) by lia. cbn [andb].
    f_equal. rewrite Z.shiftl_mul_pow2 by lia. change (2 ^ 4) with 16. lia.
Qed.

Lemma nibble n k : 0 <= k -> Z.land (Z.shiftr n k) 15 = n / 2 ^ k mod 16.
Proof. intros Hk. rewrite Z.shiftr_div_pow2 by lia. by apply (low _ 4). Qed.

Lemma fmt_04x_hexes n : 0 <= n < 0x10000 -> hexes (JsonDump.fmt_04x n) n.
Proof.
  intros Hn. unfold JsonDump.fmt_04x. rewrite <- (Z.shiftr_0_r n) at 4. rewrite !nibble by lia.
  change (2 ^ 12) with 4096. change (2 ^ 8) with 256. change (2 ^ 4) with 16. change (2 ^ 0) with 1. rewrite Z.div_1_r.
  assert (0 <= n / 4096 mod 16 < 16 /\ 0 <= n / 256 mod 16 < 16 /\ 0 <= n / 16 mod 16 < 16 /\ 0 <= n mod 16 < 16)
    as (H1 & H2 & H3 & H4) by (split_and!; apply Z.mod_pos_bound; lia).
  split; [done|]. split.
  - assert (forall d, 0 <= d < 16 -> 0 <= JsonDump.hex_digit d < 128 /\ l_isxdigit (JsonDump.hex_digit d) = true) as Hx.
    { intros d Hd. by destruct (hex_digit_ok d Hd [] 0) as (? & ? & _). }
    do 4 (apply Forall_cons; split; [by apply Hx|]). constructor.
  - destruct (hex_digit_ok _ H1 [JsonDump.hex_digit (n / 256 mod 16); JsonDump.hex_digit (n / 16 mod 16); JsonDump.hex_digit (n mod 16)] 0) as (_ & _ & ->).
    destruct (hex_digit_ok _ H2 [JsonDump.hex_digit (n / 16 mod 16); JsonDump.hex_digit (n mod 16)] (16 * 0 + n / 4096 mod 16)) as (_ & _ & ->).
    destruct (hex_digit_ok _ H3 [JsonDump.hex_digit (n mod 16)] (16 * (16 * 0 + n / 4096 mod 16) + n / 256 mod 16)) as (_ & _ & ->).
    destruct (hex_digit_ok _ H4 [] (16 * (16 * (16 * 0 + n / 4096 mod 16) + n / 256 mod 16) + n / 16 mod 16)) as (_ & _ & ->).
    cbn [hex_value]. f_equal. clear H1 H2 H3 H4. Z.to_euclidean_division_equations. lia.
Qed.

(** Bytes of a code point that is not ASCII. *)
Lemma encode_high cp bs : scalar cp -> 0x80 <= cp -> utf8_encode cp = Some bs -> Forall (fun b => 0x80 <= b < 0xfe) bs.
Proof.
  intros [Hs _] Hc. rewrite utf8_encode_eq, utf8_encode_arith. unfold encode_arith. intros H.
  repeat case_bool; zbool; simplify_eq; try lia; repeat constructor; Z.to_euclidean_division_equations; lia.
Qed.

Lemma sbody_app t1 s1 t2 s2 : sbody t1 s1 -> sbody t2 s2 -> sbody (t1 ++ t2) (s1 ++ s2).
Proof.
  intros H1 H2. induction H1 as [|b t s Hb Hq Hs _ IH|e b t s He _ IH|ds v bs t s Hh Hhi Hlo Hn He _ IH|ds1 v1 ds2 v2 bs t s Ha Hb Hhi Hlo He _ IH].
  - done.
  - by constructor.
  - by constructor.
  - rewrite <- !app_comm_cons, <- !app_assoc. by eapply sb_unicode.
  - rewrite <- !app_comm_cons, <- !app_assoc, <- !app_comm_cons, <- !app_assoc. by eapply sb_pair.
Qed.

Lemma sbody_raw bs : Forall (fun b => 0x20 <= b < 0xfe /\ b <> 34 /\ b <> 92) bs -> sbody bs bs.
Proof. induction 1 as [|b bs (H1 & H2 & H3) _ IH]; [constructor|by constructor]. Qed.

(** The text of a character stands for its bytes. *)
Lemma char_text_ok flags cp bs :
  scalar cp -> cp <> 0 -> utf8_encode cp = Some bs -> sbody (char_text flags cp) bs.
Proof.
  intros Hsc Hz He. pose proof Hsc as [Hr Hs]. unfold char_text.
  destruct (JsonDump.needs_escape flags cp) eqn:En.
  2:{ rewrite He. cbn. unfold JsonDump.needs_escape in En. rewrite !orb_false_iff, !Z.eqb_neq, Z.ltb_ge in En.
      destruct En as [[[[E1 E2] E3] _] _]. apply sbody_raw. destruct (decide (cp < 0x80)).
      - unfold utf8_encode in He. rewrite (proj2 (Z.ltb_ge cp 0)), (proj2 (Z.ltb_lt cp 128)), (wrapU_small 8) in He by lia.
        injection He as <-. repeat constructor; lia.
      - eapply Forall_impl; [apply (encode_high cp bs); [done|lia|done]|]. cbn. lia. }
  assert (forall e b, cp = b -> b < 0x80 -> escape_char e = Some b -> sbody [92; e] bs) as Hesc.
  { intros e b -> Hb Hesc. unfold utf8_encode in He.
    rewrite (proj2 (Z.ltb_ge b 0)), (proj2 (Z.ltb_lt b 128)), (wrapU_small 8) in He by lia. injection He as <-.
    apply (sb_escape e b [] []); [done|constructor]. }
  unfold JsonDump.escape_text.
  repeat (match goal with |- sbody (if (cp =? ?n) then _ else _) _ => destruct (cp =? n) eqn:?; zbool; [eapply Hesc; [done|lia|done]|] end).
  destruct (cp <? 0x10000) eqn:E; zbool.
  - rewrite <- (app_nil_r (JsonDump.fmt_04x cp)), <- (app_nil_r bs).
    apply sb_unicode with (v := cp); [apply fmt_04x_hexes; lia| | |done|done|constructor];
      unfold high_surrogate, low_surrogate; apply andb_false_iff; rewrite !Z.leb_gt; lia.
  - cbv zeta. set (c := cp - 0x10000). assert (0 <= c < 0x100000) as Hc by (unfold c; lia).
    rewrite (field c 10 10), (low c 10) by (done || lia). change (2 ^ 10) with 1024.
    assert (0 <= c / 1024 < 1024) as H1 by (split; [apply Z.div_pos; lia|apply Z.div_lt_upper_bound; lia]).
    pose proof (Z.mod_pos_bound c 1024 ltac:(lia)) as H2. rewrite (Z.mod_small (c / 1024)) by lia.
    assert (forall b x, 0 <= x < 1024 -> b = 0xD800 \/ b = 0xDC00 -> Z.lor b x = b + x) as Hlor.
    { intros b x Hx Hb. pose proof (Z.add_lor_land b x) as Hal. assert (Z.land b x = 0); [|lia].
      apply Z.bits_inj. intros i. rewrite Z.land_spec, Z.bits_0. destruct (decide (i < 10)) as [Hi|Hi].
      - destruct (decide (0 <= i)); [|by rewrite Z.testbit_neg_r by lia].
        assert (Z.testbit b i = false) as ->; [|done].
        assert (i = 0 \/ i = 1 \/ i = 2 \/ i = 3 \/ i = 4 \/ i = 5 \/ i = 6 \/ i = 7 \/ i = 8 \/ i = 9) as Hc' by lia.
        destruct Hb as [->| ->]; repeat (destruct Hc' as [->|Hc']; [done|]); by subst i.
      - rewrite (Z.bits_above_log2 x i), andb_false_r; [done|lia|].
        destruct (decide (x = 0)) as [->|]; [cbn; lia|]. apply Z.log2_lt_pow2; [lia|].
        apply Z.lt_le_trans with (2 ^ 10); [lia|]. apply Z.pow_le_mono_r; lia. }
    rewrite !Hlor by (done || lia).
    rewrite <- (app_nil_r (JsonDump.fmt_04x (0xDC00 + _))), <- (app_nil_r bs), <- app_comm_cons, <- app_comm_cons.
    apply (sb_pair _ (0xD800 + c / 1024) _ (0xDC00 + c mod 1024)); [apply fmt_04x_hexes; lia|apply fmt_04x_hexes; lia| | | |constructor].
    + unfold high_surrogate. apply andb_true_iff. rewrite !Z.leb_le. lia.
    + unfold low_surrogate. apply andb_true_iff. rewrite !Z.leb_le. lia.
    + rewrite Z.shiftl_mul_pow2 by lia. change (2 ^ 10) with 1024. rewrite <- He. f_equal.
      pose proof (Z.div_mod c 1024 ltac:(lia)). unfold c in *. lia.
Qed.

(** ** Texts *)

Lemma utf8_app s1 s2 : utf8 s1 -> utf8 s2 -> utf8 (s1 ++ s2).
Proof. intros H1 H2. induction H1; [done|]. rewrite <- app_assoc. by eapply utf8_cons. Qed.

Lemma txt_app s1 s2 : txt s1 -> txt s2 -> txt (s1 ++ s2).
Proof. intros [H1 H2] [H3 H4]. split; [by apply utf8_app|by apply Forall_app]. Qed.

Definition ascii (l : list Z) : Prop := Forall (fun b => 0 < b < 128) l.

Lemma ascii_txt l : ascii l -> txt l.
Proof.
  induction 1 as [|b l Hb _ IH]; [by repeat constructor|]. apply (txt_app [b]); [|done]. split; [|repeat constructor; lia].
  change [b] with ([b] ++ []). apply (utf8_cons b); [split; lia| |constructor].
  unfold PhString.utf8_encode. rewrite (proj2 (Z.ltb_ge b 0)), (proj2 (Z.ltb_lt b 128)), (wrapU_small 8) by lia. done.
Qed.

Lemma utf8_bytes s : utf8 s -> Forall is_byte s.
Proof.
  induction 1 as [|cp bs s Hs He _ IH]; [constructor|]. apply Forall_app. split; [|done].
  by destruct (decode_encode cp bs Hs He) as (? & ? & _ & _ & _ & ?).
Qed.

Lemma hex_digit_ascii d : 0 <= d < 16 -> 0 < JsonDump.hex_digit d < 128.
Proof. unfold JsonDump.hex_digit. case_bool; lia. Qed.

Lemma fmt_04x_ascii n : ascii (JsonDump.fmt_04x n).
Proof.
  unfold JsonDump.fmt_04x. do 4 (apply Forall_cons; split; [apply hex_digit_ascii; rewrite (low _ 4) by done; by apply Z.mod_pos_bound|]).
  constructor.
Qed.

Lemma escape_text_ascii cp : ascii (JsonDump.escape_text cp).
Proof.
  unfold JsonDump.escape_text.
  repeat (match goal with |- ascii (if (cp =? ?n) then _ else _) => destruct (cp =? n); [by repeat constructor|] end).
  pose proof (fmt_04x_ascii cp) as H0.
  set (a := JsonDump.fmt_04x (Z.lor _ (Z.shiftr _ 10))). set (b := JsonDump.fmt_04x (Z.lor 0xDC00 _)).
  assert (ascii a) as Ha by apply fmt_04x_ascii. assert (ascii b) as Hb by apply fmt_04x_ascii.
  destruct (cp <? 0x10000).
  - by do 2 (apply Forall_cons; split; [lia|]).
  - do 2 (apply Forall_cons; split; [lia|]). apply Forall_app. split; [done|]. by do 2 (apply Forall_cons; split; [lia|]).
Qed.

(** A character is written as text, in ASCII if the flags say so. *)
Lemma char_text_txt flags cp :
  scalar cp -> cp <> 0 -> txt (char_text flags cp) /\
  (JsonDump.flag flags JsonDump.PH_JSON_ENSURE_ASCII = true -> ascii (char_text flags cp)).
Proof.
  intros Hs Hz. unfold char_text. destruct (JsonDump.needs_escape flags cp) eqn:E.
  { split; [apply ascii_txt|intros _]; apply escape_text_ascii. }
  destruct (utf8_encode cp) as [bs|] eqn:He; cbn.
  2:{ split; [|constructor]. split; [apply utf8_nil|done]. }
  split.
  - split; [|apply (encode_nonzero cp); [destruct Hs; lia|done]]. rewrite <- (app_nil_r bs).
    apply (utf8_cons cp); [done|done|constructor].
  - intros Ha. unfold JsonDump.needs_escape in E. rewrite Ha, !orb_false_iff in E. destruct E as [_ E]. cbn in E. zbool.
    destruct Hs as [Hs _]. unfold utf8_encode in He. rewrite (proj2 (Z.ltb_ge cp 0)), (proj2 (Z.ltb_lt cp 128)), (wrapU_small 8) in He by lia.
    injection He as <-. by repeat constructor; lia.
Qed.

(** The text of the characters from [off] on. *)
Lemma code_points_ok flags s : txt s -> zlen s < 2 ^ 32 - 4 -> forall fuel off,
  0 <= off <= zlen s -> utf8 (drop (Z.to_nat off) s) -> zlen s - off < Z.of_nat fuel ->
  sbody (chars_text flags (code_points fuel s off)) (drop (Z.to_nat off) s) /\
  txt (chars_text flags (code_points fuel s off)) /\
  (JsonDump.flag flags JsonDump.PH_JSON_ENSURE_ASCII = true -> ascii (chars_text flags (code_points fuel s off))).
Proof.
  intros [Hu Hnz] Hl. pose proof (utf8_bytes _ Hu) as Hb.
  induction fuel as [|fuel IH]; intros off Ho Hd Hf; [lia|]. cbn [code_points].
  destruct (decide (off = zlen s)) as [->|].
  { rewrite (proj2 (iterate_done s (zlen s))) by lia. rewrite drop_ge by lia. split; [constructor|]. split; [split; [apply utf8_nil|done]|constructor]. }
  destruct (utf8_next s off Hd) as (cp & off' & Hi & Hd' & Hle); [lia|done|]. rewrite Hi.
  destruct (iterate_ok s off cp off' Hb) as (Hsc & Hr & He); [lia|done|done|].
  destruct (IH off') as (H1 & H2 & H3); [lia|done|lia|].
  assert (drop (Z.to_nat off) s = slice (Z.to_nat off) (Z.to_nat (off' - off)) s ++ drop (Z.to_nat off') s) as Hds.
  { unfold slice. replace (Z.to_nat off') with (Z.to_nat off + Z.to_nat (off' - off))%nat by lia.
    by rewrite <- drop_drop, take_drop. }
  assert (cp <> 0) as Hcz.
  { intros ->. cbn in He. injection He as He. assert (0 ∈ drop (Z.to_nat off) s) as H0.
    { rewrite Hds, <- He. by left. }
    eapply Forall_drop in Hnz. rewrite Forall_forall in Hnz. by apply (Hnz 0 H0). }
  destruct (char_text_txt flags cp Hsc Hcz) as [T1 T2]. unfold chars_text in *. rewrite fmap_cons. cbn [mjoin list_join].
  split; [|split].
  - rewrite Hds. apply sbody_app; [|done]. apply char_text_ok; [done|done|by rewrite utf8_encode_eq].
  - by apply txt_app.
  - intros Ha. apply Forall_app. split; [by apply T2|by apply H3].
Qed.

Section print.
Context {D : Type} (strtod : list Z -> D * nat * bool) (decimal_point : Z) (fmt_17g : D -> list Z).
Abbreviation spells := (spells strtod decimal_point).
Abbreviation json := (json strtod decimal_point).

Lemma fmt_i64_ok z : - 2 ^ 63 <= z < 2 ^ 63 -> spells (KInt z) (JsonDump.fmt_i64 z) /\ (length (JsonDump.fmt_i64 z) <= 21)%nat.
Proof.
  intros Hz. unfold JsonDump.fmt_i64. assert (2 ^ 63 < 10 ^ Z.of_nat 20) as Hp by (cbn; lia).
  destruct (z <? 0) eqn:E; zbool.
  - destruct (dec_digits_ok 20 (- z)) as (H1 & H2 & _ & H4); [lia|lia|]. split; [|cbn [length]; lia].
    replace z with (signed true (decimal (JsonDump.dec_digits 20 (- z)))) at 1 by (unfold signed; rewrite H2; lia).
    apply (sp_int strtod decimal_point true); [done|]. unfold signed. rewrite H2. lia.
  - destruct (dec_digits_ok 20 z) as (H1 & H2 & _ & H4); [lia|lia|]. split; [|lia].
    replace z with (signed false (decimal (JsonDump.dec_digits 20 z))) at 1 by (unfold signed; rewrite H2; lia).
    apply (sp_int strtod decimal_point false); [done|]. unfold signed. rewrite H2. lia.
Qed.

Lemma string_text_ok flags s :
  txt s -> zlen s < 2 ^ 32 - 4 -> spells (KStr s) (string_text flags s) /\ txt (string_text flags s).
Proof.
  intros Ht Hl. destruct (code_points_ok flags s Ht Hl (S (length s)) 0) as (H1 & H2 & _); [lia|by destruct Ht|lia|].
  rewrite drop_0 in H1. split; [by constructor|]. apply (txt_app [34]); [by apply ascii_txt; repeat constructor|].
  apply txt_app; [done|]. by apply ascii_txt; repeat constructor.
Qed.

(** [dump_indent]. *)
Definition indent_text (flags : Z) (depth : nat) (sp : bool) : list Z :=
  if 0 <? JsonDump.PH_JSON_INDENT flags then
    10 :: mjoin (replicate depth (take (Z.to_nat (JsonDump.PH_JSON_INDENT flags)) JsonDump.whitespace))
  else if sp && negb (JsonDump.flag flags JsonDump.PH_JSON_COMPACT) then [32]
  else [].

Lemma spaces_ascii l : Forall space l -> ascii l.
Proof. intros H. eapply Forall_impl; [exact H|]. unfold space. cbn. lia. Qed.

Lemma indent_space flags depth sp : Forall space (indent_text flags depth sp).
Proof.
  unfold indent_text. case_bool.
  - apply Forall_cons. split; [unfold space; lia|]. induction depth as [|n IH]; [constructor|].
    cbn [replicate mjoin list_join]. apply Forall_app. split; [|done]. apply Forall_take. unfold JsonDump.whitespace.
    apply Forall_replicate. by left.
  - case_bool; repeat constructor.
Qed.

Definition real_or_nil (d : D) : list Z :=
  match JsonDump.real_text (fmt_17g d) with Some (Some x) => x | _ => [] end.

(** The text of a value.  The members of an object are written one level
    deeper than the elements of an array. *)
Fixpoint print (flags : Z) (depth : nat) (t : tree D) : list Z :=
  match t with
  | TNull => [110; 117; 108; 108]
  | TBool true => [116; 114; 117; 101]
  | TBool false => [102; 97; 108; 115; 101]
  | TInt z => JsonDump.fmt_i64 z
  | TReal d => real_or_nil d
  | TStr s => string_text flags s
  | TArr [] => [91; 93]
  | TArr l => 91 :: indent_text flags (S depth) false ++
      (fix go (l : list (tree D)) : list Z :=
         match l with
         | [] => [93]
         | [t] => print flags (S depth) t ++ indent_text flags depth false ++ [93]
         | t :: l => print flags (S depth) t ++ 44 :: indent_text flags (S depth) true ++ go l
         end) l
  | TObj [] => [123; 125]
  | TObj kvs => 123 :: indent_text flags (S depth) false ++
      (fix go (kvs : list (list Z * tree D)) : list Z :=
         match kvs with
         | [] => [125]
         | [(k, t)] => string_text flags k ++ JsonDump.separator flags ++ print flags (S (S depth)) t ++
                       indent_text flags (S depth) false ++ [125]
         | (k, t) :: kvs => string_text flags k ++ JsonDump.separator flags ++ print flags (S (S depth)) t ++
                       44 :: indent_text flags (S (S depth)) true ++ go kvs
         end) kvs
  end.

(** The elements of an array and the members of an object. *)
Fixpoint print_elems (flags : Z) (depth : nat) (l : list (tree D)) : list Z :=
  match l with
  | [] => [93]
  | [t] => print flags (S depth) t ++ indent_text flags depth false ++ [93]
  | t :: l => print flags (S depth) t ++ 44 :: indent_text flags (S depth) true ++ print_elems flags depth l
  end.
Fixpoint print_members (flags : Z) (depth : nat) (kvs : list (list Z * tree D)) : list Z :=
  match kvs with
  | [] => [125]
  | [(k, t)] => string_text flags k ++ JsonDump.separator flags ++ print flags (S (S depth)) t ++
                indent_text flags (S depth) false ++ [125]
  | (k, t) :: kvs => string_text flags k ++ JsonDump.separator flags ++ print flags (S (S depth)) t ++
                44 :: indent_text flags (S (S depth)) true ++ print_members flags depth kvs
  end.

Lemma print_arr flags depth t l :
  print flags depth (TArr (t :: l)) = 91 :: indent_text flags (S depth) false ++ print_elems flags depth (t :: l).
Proof.
  cbn [print]. do 2 f_equal. revert t. induction l as [|u l IH]; intros t; [done|].
  change (print_elems flags depth (t :: u :: l)) with
    (print flags (S depth) t ++ 44 :: indent_text flags (S depth) true ++ print_elems flags depth (u :: l)). by rewrite <- IH.
Qed.

Lemma print_obj flags depth kv kvs :
  print flags depth (TObj (kv :: kvs)) = 123 :: indent_text flags (S depth) false ++ print_members flags depth (kv :: kvs).
Proof.
  cbn [print]. do 2 f_equal. revert kv. induction kvs as [|u l IH]; intros [k t]; [done|].
  change (print_members flags depth ((k, t) :: u :: l)) with (string_text flags k ++ JsonDump.separator flags ++ print flags (S (S depth)) t ++
    44 :: indent_text flags (S (S depth)) true ++ print_members flags depth (u :: l)). by rewrite <- IH.
Qed.

(** Values the writer can write: text in its strings, integers of 64 bits, and
    reals whose text is read back as the same value. *)
Fixpoint printable (t : tree D) : Prop :=
  match t with
  | TNull | TBool _ => True
  | TInt z => - 2 ^ 63 <= z < 2 ^ 63
  | TReal d => exists x, JsonDump.real_text (fmt_17g d) = Some (Some x) /\ spells (KReal d) x
  | TStr s => txt s /\ zlen s < 2 ^ 32 - 4
  | TArr l => (fix all (l : list (tree D)) : Prop := match l with [] => True | t :: l => printable t /\ all l end) l
  | TObj kvs =>
      NoDup kvs.*1 /\
      (fix all (kvs : list (list Z * tree D)) : Prop :=
         match kvs with [] => True | (k, t) :: kvs => (txt k /\ zlen k < 2 ^ 32 - 4) /\ printable t /\ all kvs end) kvs
  end.

Definition printable_member (kt : list Z * tree D) : Prop := (txt kt.1 /\ zlen kt.1 < 2 ^ 32 - 4) /\ printable kt.2.

Lemma printable_arr l : printable (TArr l) <-> Forall printable l.
Proof. cbn. induction l as [|t l IH]; [done|]. by rewrite Forall_cons, <- IH. Qed.

Lemma printable_obj kvs : printable (TObj kvs) <-> NoDup kvs.*1 /\ Forall printable_member kvs.
Proof.
  cbn. apply and_iff_compat_l. induction kvs as [|[k t] l IH]; [done|]. rewrite Forall_cons, <- IH. unfold printable_member. cbn. tauto.
Qed.

Lemma elems_shift ws l x : Forall space ws -> elems strtod decimal_point l x -> elems strtod decimal_point l (ws ++ x).
Proof. intros Hws []; rewrite app_assoc; constructor; try done; by apply Forall_app. Qed.

Lemma members_shift ws l x : Forall space ws -> members strtod decimal_point l x -> members strtod decimal_point l (ws ++ x).
Proof. intros Hws []; rewrite app_assoc; constructor; try done; by apply Forall_app. Qed.

(** What is written is JSON. *)
Lemma print_json flags t : forall depth, printable t -> json t (print flags depth t).
Proof.
  induction t as [|b|z|d|s|l IH|kvs IH] using tree_rect'; intros depth Hp.
  - by apply j_null, sp_word.
  - destruct b; [by apply j_true, sp_word|by apply j_false, sp_word].
  - by apply j_int, fmt_i64_ok.
  - destruct Hp as (x & Hx & Hs). cbn. unfold real_or_nil. rewrite Hx. by apply j_real.
  - destruct Hp. by apply j_str, string_text_ok.
  - rewrite printable_arr in Hp. destruct l as [|t l]; [by apply (j_arr0 _ _ [])|]. rewrite print_arr.
    apply j_arr, elems_shift; [apply indent_space|]. revert t IH Hp.
    induction l as [|u l IHl]; intros t IH Hp; decompose_Forall_hyps.
    + apply (e_last _ _ [] t (print flags (S depth) t) (indent_text flags depth false)); [done|by auto|apply indent_space].
    + apply (e_cons _ _ [] t (print flags (S depth) t) [] (u :: l) (indent_text flags (S depth) true ++ print_elems flags depth (u :: l)));
        [done|by auto|done|]. apply elems_shift; [apply indent_space|]. apply IHl; by constructor.
  - rewrite printable_obj in Hp. destruct Hp as [Hnd Hp]. destruct kvs as [|kt kvs]; [by apply (j_obj0 _ _ [])|]. rewrite print_obj.
    apply j_obj; [|done]. clear Hnd. apply members_shift; [apply indent_space|].
    assert (exists ws2, JsonDump.separator flags = 58 :: ws2 /\ Forall space ws2) as (ws2 & Hsep & Hws2).
    { unfold JsonDump.separator. case_bool; eexists; (split; [reflexivity|]); repeat constructor. }
    revert kt IH Hp. induction kvs as [|u l IHl]; intros [k t] IH Hp;
      apply Forall_cons in IH as [IH1 IH]; apply Forall_cons in Hp as [[[Hk1 Hk2] Ht] Hp]; cbn [fst snd] in *.
    + cbn [print_members]. rewrite Hsep.
      apply (m_last _ _ [] k (string_text flags k) [] ws2 t (print flags (S (S depth)) t) (indent_text flags (S depth) false));
        [done|by apply string_text_ok|done|done|by auto|apply indent_space].
    + change (print_members flags depth ((k, t) :: u :: l)) with (string_text flags k ++ JsonDump.separator flags ++
        print flags (S (S depth)) t ++ 44 :: indent_text flags (S (S depth)) true ++ print_members flags depth (u :: l)). rewrite Hsep.
      apply (m_cons _ _ [] k (string_text flags k) [] ws2 t (print flags (S (S depth)) t) [] (u :: l)
        (indent_text flags (S (S depth)) true ++ print_members flags depth (u :: l)));
        [done|by apply string_text_ok|done|done|by auto|done|].
      apply members_shift; [apply indent_space|]. by apply IHl.
Qed.

Lemma digits_ascii ds : Forall digit ds -> ascii ds.
Proof. intros H. eapply Forall_impl; [exact H|]. unfold digit. cbn. lia. Qed.

Lemma number_ascii neg ds f e : int_part ds -> fraction f -> exponent e -> ascii (minus neg ++ ds ++ f ++ e).
Proof.
  intros Hi Hf He. apply Forall_app. split; [destruct neg; repeat constructor|].
  apply Forall_app. split; [by apply digits_ascii, int_part_digits|]. apply Forall_app. split.
  - destruct Hf as [|d ds' Hd Hds]; [constructor|]. apply Forall_cons. split; [lia|]. apply digits_ascii. by constructor.
  - destruct He as [|e' sg d ds' He Hs Hd Hds]; [constructor|]. apply Forall_cons. split; [lia|].
    apply Forall_app. split; [|apply digits_ascii; by constructor].
    destruct Hs as [->|[->| ->]]; repeat constructor.
Qed.

Lemma number_txt k x : spells k x -> match k with KInt _ | KReal _ => True | _ => False end -> ascii x.
Proof.
  intros [c Hc|body s Hs|neg ds Hi Hr|neg ds f e d Hi Hf He Hne Hr|k' t' Hw]; try done.
  - intros _. pose proof (number_ascii neg ds [] [] Hi ltac:(constructor) ltac:(constructor)) as H.
    by rewrite !app_nil_r in H.
  - intros _. by apply number_ascii.
  - by destruct k'.
Qed.

(** What is written is text; with [PH_JSON_ENSURE_ASCII] it is ASCII. *)
Definition fits (flags : Z) (l : list Z) : Prop :=
  txt l /\ (JsonDump.flag flags JsonDump.PH_JSON_ENSURE_ASCII = true -> ascii l).

Lemma fits_app flags l1 l2 : fits flags l1 -> fits flags l2 -> fits flags (l1 ++ l2).
Proof. intros [H1 H2] [H3 H4]. split; [by apply txt_app|]. intros H. apply Forall_app. split; [by apply H2|by apply H4]. Qed.

Lemma fits_ascii flags l : ascii l -> fits flags l.
Proof. intros H. split; [by apply ascii_txt|done]. Qed.

Lemma fits_cons flags b l : 0 < b < 128 -> fits flags l -> fits flags (b :: l).
Proof. intros Hb Hl. apply (fits_app flags [b]); [|done]. apply fits_ascii. constructor; [done|constructor]. Qed.

Lemma fits_indent flags depth sp : fits flags (indent_text flags depth sp).
Proof. apply fits_ascii, spaces_ascii, indent_space. Qed.

Lemma fits_string flags s : txt s -> zlen s < 2 ^ 32 - 4 -> fits flags (string_text flags s).
Proof.
  intros Ht Hl. destruct (code_points_ok flags s Ht Hl (S (length s)) 0) as (_ & H2 & H3); [lia|by destruct Ht|lia|].
  apply fits_cons; [lia|]. apply fits_app; [by split|]. apply fits_ascii. by repeat constructor.
Qed.

Lemma fits_separator flags : fits flags (JsonDump.separator flags).
Proof. apply fits_ascii. unfold JsonDump.separator. case_bool; by repeat constructor. Qed.

Lemma print_fits flags t : forall depth, printable t -> fits flags (print flags depth t).
Proof.
  induction t as [|b|z|d|s|l IH|kvs IH] using tree_rect'; intros depth Hp.
  - apply fits_ascii. by repeat constructor.
  - apply fits_ascii. by destruct b; repeat constructor.
  - apply fits_ascii. apply (number_txt (KInt z)); [by apply fmt_i64_ok|done].
  - destruct Hp as (x & Hx & Hs). cbn. unfold real_or_nil. rewrite Hx. by apply fits_ascii, (number_txt (KReal d)).
  - destruct Hp. by apply fits_string.
  - rewrite printable_arr in Hp. destruct l as [|t l]; [apply fits_ascii; by repeat constructor|]. rewrite print_arr.
    apply fits_cons; [lia|]. apply fits_app; [apply fits_indent|]. revert t IH Hp.
    induction l as [|u l IHl]; intros t IH Hp; decompose_Forall_hyps.
    + apply fits_app; [by auto|]. apply fits_app; [apply fits_indent|]. apply fits_ascii. by repeat constructor.
    + apply fits_app; [by auto|]. apply fits_cons; [lia|]. apply fits_app; [apply fits_indent|]. apply IHl; by constructor.
  - rewrite printable_obj in Hp. destruct Hp as [_ Hp]. destruct kvs as [|kt kvs]; [apply fits_ascii; by repeat constructor|]. rewrite print_obj.
    apply fits_cons; [lia|]. apply fits_app; [apply fits_indent|]. revert kt IH Hp.
    induction kvs as [|u l IHl]; intros [k t] IH Hp;
      apply Forall_cons in IH as [IH1 IH]; apply Forall_cons in Hp as [[[Hk1 Hk2] Ht] Hp]; cbn [fst snd] in *.
    all: apply fits_app; [by apply fits_string|]; apply fits_app; [apply fits_separator|]; apply fits_app; [by auto|].
    + apply fits_app; [apply fits_indent|]. apply fits_ascii. by repeat constructor.
    + apply fits_cons; [lia|]. apply fits_app; [apply fits_indent|]. by apply IHl.
Qed.

End print.
End JsonPrint.
