(* ===== verification/JsonDumpProofs.v ===== *)
(** * The JSON writer writes [print]

    [writes f bs] says that [f] succeeds, adds exactly the bytes [bs] to what
    was written to the stream and leaves the variants as they are. *)

From Stdlib Require Import ZArith Lia.
From stdpp Require Import base numbers list gmap sorting.
From S2P Require Import Prelude SysUtil PhString PhStringUtf8 HashTable HashTableProofs StringKeys Stream StreamProofs.
From S2P Require Import Variant VariantProofs VariantOps VariantGrow JsonLoad JsonDump.
From S2P Require Import JsonLexProofs JsonTokens JsonScan JsonParse JsonPrint.

Module JsonDumpProofs.
Export JsonPrint.
Import HashTable HashTableProofs.

Section dump.
Context {X : Type} {env : var_env X} {D B : Type}.
Context (funcs : Stream.ph_stream_funcs B) (wfuel : nat).
Context (inv : B -> Prop) (log : B -> list Z) (cap : Z) `{Hsink : !StreamProofs.sink funcs inv log cap (fun _ => False)}.
Context (srefs : X -> positive -> Z) `{Henv : !VariantProofs.var_env_ok env srefs}.
Context (Halloc : forall n x, (mem_alloc n x).1 = true).
Context (fmt_17g : D -> list Z).
Context (h : gmap positive (ph_variant D)) (size : Z).
Abbreviation dworld := (@JsonDump.dworld X D B).
Abbreviation dump := (JsonDump.dump funcs wfuel).
Implicit Types w : dworld.

(** The state of the writer: the variants are [h], the stream works and has a
    buffer of [size] bytes. *)
Record dump_ok w : Prop := {
  do_vars : vars (JsonDump.dvars w) = h;
  do_stm : StreamProofs.stm_ok (JsonDump.stm w);
  do_inv : inv (Stream.cookie (JsonDump.stm w));
  do_size : Stream.bufsize (JsonDump.stm w) = size;
}.

Definition out w : list Z := StreamProofs.written log (JsonDump.stm w).

(** The variants and the references to strings stay the same. *)
Definition dkept w w' : Prop :=
  vnext (JsonDump.dvars w') = vnext (JsonDump.dvars w) /\
  forall t, srefs (ext (JsonDump.dvars w')) t = srefs (ext (JsonDump.dvars w)) t.

#[export] Instance dkept_preorder : PreOrder dkept.
Proof. split; [done|]. intros w1 w2 w3 [H1 H2] [H3 H4]. split; [congruence|]. intros t. by rewrite H4. Qed.

(** [f] returns [a] and writes [bs]. *)
Definition outputs {A} (f : M dworld A) (a : A) (bs : list Z) : Prop :=
  forall w, dump_ok w -> zlen (out w) + zlen bs <= cap -> size + zlen bs < Z.of_nat wfuel ->
  exists w', f w = Ret (a, w') /\ dump_ok w' /\ dkept w w' /\ out w' = out w ++ bs.
Definition writes (f : M dworld bool) (bs : list Z) : Prop := outputs f true bs.

Lemma outputs_bind {A C} (f : M dworld A) (g : A -> M dworld C) a c bs1 bs2 :
  outputs f a bs1 -> outputs (g a) c bs2 -> outputs (bind f g) c (bs1 ++ bs2).
Proof.
  intros Hf Hg w Hok Hcap Hfuel. rewrite length_app in Hcap, Hfuel.
  destruct (Hf w Hok) as (w1 & E1 & Hok1 & K1 & O1); [lia|lia|].
  destruct (Hg w1 Hok1) as (w2 & E2 & Hok2 & K2 & O2); [rewrite O1, length_app; lia|lia|].
  exists w2. unfold bind. rewrite E1. split; [done|]. split; [done|]. split; [by transitivity w1|].
  by rewrite O2, O1, <- app_assoc.
Qed.

Lemma outputs_ret {A} (a : A) : outputs (ret a) a [].
Proof. intros w Hok _ _. exists w. rewrite app_nil_r. by split_and!. Qed.

Lemma writes_and_then f g bs1 bs2 : writes f bs1 -> writes g bs2 -> writes (JsonDump.and_then f g) (bs1 ++ bs2).
Proof. intros Hf Hg. unfold JsonDump.and_then. by eapply outputs_bind; [exact Hf|]. Qed.

Lemma writes_dump bs : writes (dump bs) bs.
Proof.
  intros w [Hv Hs Hi Hz] Hcap Hfuel. unfold dump, JsonDump.dump.
  pose proof (StreamProofs.pending_bound (JsonDump.stm w) (proj1 Hs)) as Hpb.
  destruct (StreamProofs.stm_write_ok funcs inv log cap (fun _ => False) wfuel (JsonDump.stm w) bs Hs Hi Hcap)
    as (ok & n & s' & E & Hs' & Hi' & Hz' & H); [lia|]. rewrite E.
  destruct ok; [|by destruct H as (_ & [_ []] & _)].
  destruct H as (m & _ & Hm & _ & Hw & Hshort). exists (JsonDump.DWorld (JsonDump.dvars w) s').
  split; [done|]. split; [by split; cbn; [..|congruence]|]. split; [done|]. unfold out. cbn. rewrite Hw.
  destruct (decide (m < zlen bs)) as [Hlt|]; [by destruct (Hshort Hlt)|]. by rewrite take_ge by lia.
Qed.

Lemma writes_indent flags depth sp : writes (JsonDump.dump_indent funcs wfuel flags depth sp) (indent_text flags depth sp).
Proof.
  unfold JsonDump.dump_indent, indent_text. case_bool.
  - apply (writes_and_then _ _ [10]); [apply writes_dump|].
    induction depth as [|n IH]; [apply outputs_ret|]. cbn [JsonDump.indent_loop replicate mjoin list_join].
    apply writes_and_then; [apply writes_dump|done].
  - case_bool; [apply writes_dump|apply outputs_ret].
Qed.

(** ** Leaves *)

Lemma writes_string_loop flags s : txt s -> zlen s < 2 ^ 32 - 4 -> forall fuel off,
  0 <= off <= zlen s -> PhStringUtf8.utf8 (drop (Z.to_nat off) s) -> zlen s - off < Z.of_nat fuel ->
  writes (JsonDump.string_loop funcs wfuel fuel s flags off off) (chars_text flags (code_points fuel s off) ++ [34]).
Proof.
  intros [Hu Hnz] Hl. pose proof (utf8_bytes _ Hu) as Hb.
  induction fuel as [|fuel IH]; intros off Ho Hd Hf; [lia|]. cbn [JsonDump.string_loop code_points].
  destruct (decide (off = zlen s)) as [->|].
  { rewrite (proj2 (PhStringUtf8.iterate_done s (zlen s))) by lia. apply writes_dump. }
  destruct (PhStringUtf8.utf8_next s off Hd) as (cp & off' & Hi & Hd' & Hle); [lia|done|]. rewrite Hi.
  destruct (PhStringUtf8.iterate_ok s off cp off' Hb) as (Hsc & Hr & He); [lia|done|done|].
  unfold chars_text. rewrite fmap_cons. cbn [mjoin list_join]. rewrite <- app_assoc.
  apply writes_and_then; [|apply IH; [lia|done|lia]].
  unfold char_text. rewrite utf8_encode_eq, He. apply writes_dump.
Qed.

Lemma writes_string flags k :
  txt (contents_of k) -> zlen (contents_of k) < 2 ^ 32 - 4 ->
  writes (JsonDump.dump_string funcs wfuel k flags) (string_text flags (contents_of k)).
Proof.
  intros Ht Hl. unfold JsonDump.dump_string. cbv zeta.
  apply (writes_and_then _ _ [34]); [apply writes_dump|].
  apply writes_string_loop; [done|done|lia|by destruct Ht|lia].
Qed.

Lemma writes_real d x :
  JsonDump.real_text (fmt_17g d) = Some (Some x) -> writes (JsonDump.dump_real funcs wfuel fmt_17g d) x.
Proof. intros Hx. unfold JsonDump.dump_real. rewrite Hx. apply writes_dump. Qed.

(** Reading a variant. *)
Lemma outputs_load p v : h !! p = Some v -> outputs (JsonDump.load_var p) v [].
Proof.
  intros Hp w Hok _ _. exists w. rewrite app_nil_r. split_and!; try done.
  unfold JsonDump.load_var, JsonDump.on_vars. rewrite (load_eq (JsonDump.dvars w) p v) by (by rewrite (do_vars _ Hok)).
  by destruct w.
Qed.

Lemma outputs_pure {A C} (f : M dworld A) (g : A -> M dworld C) a c bs :
  outputs f a [] -> outputs (g a) c bs -> outputs (bind f g) c bs.
Proof. intros Hf Hg. by apply (outputs_bind f g a c [] bs). Qed.

(** ** Arrays *)

(** The nesting of a value. *)
Fixpoint height (t : tree D) : nat :=
  match t with
  | TArr l => S ((fix go (l : list (tree D)) : nat := match l with [] => 0%nat | t :: l => Nat.max (height t) (go l) end) l)
  | TObj kvs => S ((fix go (l : list (list Z * tree D)) : nat :=
                      match l with [] => 0%nat | (_, t) :: l => Nat.max (height t) (go l) end) kvs)
  | _ => 1%nat
  end.

Lemma height_arr l n : (height (TArr l) <= S n)%nat -> Forall (fun t => (height t <= n)%nat) l.
Proof. cbn. intros H. induction l as [|t l IH]; constructor; [lia|apply IH; lia]. Qed.

Lemma height_obj kvs n : (height (TObj kvs) <= S n)%nat -> Forall (fun kt => (height kt.2 <= n)%nat) kvs.
Proof. cbn. intros H. induction kvs as [|[k t] l IH]; constructor; [cbn; lia|apply IH; lia]. Qed.

Abbreviation array_loop := (JsonDump.array_loop funcs wfuel).

(** The loop of [dump_array] from index [i] on. *)
Lemma writes_array_loop go p v al ps flags depth :
  h !! p = Some v -> body v = PH_VAR_ARRAY al ps -> zlen ps < 2 ^ 32 ->
  forall ts i, ts <> [] -> (i + length ts = length ps)%nat ->
    Forall2 (fun t q => writes (go q) (print fmt_17g flags (S depth) t)) ts (drop i ps) ->
    writes (array_loop go p flags depth (zlen ps) (Z.of_nat i) (length ts)) (print_elems fmt_17g flags depth ts).
Proof.
  intros Hp Hb Hlt. induction ts as [|t ts IH]; intros i Hne Hi Hall; [done|]. cbn [length] in *.
  destruct (lookup_lt_is_Some_2 ps i) as [q Hq]; [lia|]. rewrite (drop_S ps q i Hq) in Hall.
  apply Forall2_cons in Hall as [Hgo Hall]. cbn [JsonDump.array_loop].
  apply (outputs_pure _ _ v); [by apply outputs_load|].
  assert (ph_var_array_get v (Z.of_nat i) = Some q) as Hget.
  { unfold ph_var_array_get. rewrite Hb, (proj2 (Z.leb_gt _ _)), Nat2Z.id by lia. done. }
  rewrite Hget. apply (outputs_pure _ _ q); [intros w Hok _ _; exists w; by rewrite app_nil_r|].
  rewrite (wrapU_small 32) by lia. replace (Z.of_nat i + 1) with (Z.of_nat (S i)) by lia.
  destruct ts as [|u ts].
  - cbn [print_elems length]. apply writes_and_then; [done|].
    rewrite (proj2 (Z.ltb_ge _ _)) by (cbn [length] in Hi; lia). apply writes_and_then; [apply writes_indent|apply writes_dump].
  - change (print_elems fmt_17g flags depth (t :: u :: ts)) with
      (print fmt_17g flags (S depth) t ++ ([44] ++ indent_text flags (S depth) true) ++ print_elems fmt_17g flags depth (u :: ts)).
    apply writes_and_then; [done|]. rewrite (proj2 (Z.ltb_lt _ _)) by (cbn [length] in Hi; lia).
    apply writes_and_then; [apply writes_and_then; [apply writes_dump|apply writes_indent]|].
    apply IH; [done|cbn [length] in *; lia|done].
Qed.

Lemma writes_array go p v al ps flags depth ts :
  h !! p = Some v -> body v = PH_VAR_ARRAY al ps -> zlen ps < 2 ^ 32 ->
  Forall2 (fun t q => writes (go q) (print fmt_17g flags (S depth) t)) ts ps ->
  writes (JsonDump.dump_array funcs wfuel go p flags depth) (print fmt_17g flags depth (TArr ts)).
Proof.
  intros Hp Hb Hlt Hall. pose proof (Forall2_length _ _ _ Hall) as Hl. unfold JsonDump.dump_array.
  apply (outputs_pure _ _ v); [by apply outputs_load|]. unfold ph_var_array_size. rewrite Hb.
  destruct ts as [|t ts].
  - apply (writes_and_then _ _ [91]); [apply writes_dump|]. destruct ps; [|done]. apply writes_dump.
  - rewrite print_arr. apply (writes_and_then _ _ [91]); [apply writes_dump|].
    rewrite (proj2 (Z.eqb_neq _ _)) by (cbn in Hl; lia). apply writes_and_then; [apply writes_indent|].
    replace (Z.to_nat (zlen ps)) with (length (t :: ts)) by lia. apply (writes_array_loop go p v al ps flags depth Hp Hb Hlt (t :: ts) 0); [done|done|done].
Qed.

(** ** Objects *)

(** The members without the closing brace. *)
Fixpoint members_body (flags : Z) (depth : nat) (kvs : list (list Z * tree D)) : list Z :=
  match kvs with
  | [] => []
  | (k, t) :: kvs => string_text flags k ++ JsonDump.separator flags ++ print fmt_17g flags (S (S depth)) t ++
      match kvs with
      | [] => indent_text flags (S depth) false
      | _ => ([44] ++ indent_text flags (S (S depth)) true) ++ members_body flags depth kvs
      end
  end.

Lemma print_members_body flags depth kvs : print_members fmt_17g flags depth kvs = members_body flags depth kvs ++ [125].
Proof.
  induction kvs as [|[k t] kvs IH]; [done|]. destruct kvs as [|kt kvs].
  - cbn [print_members members_body]. by rewrite <- !app_assoc.
  - change (print_members fmt_17g flags depth ((k, t) :: kt :: kvs)) with (string_text flags k ++ JsonDump.separator flags ++
      print fmt_17g flags (S (S depth)) t ++ 44 :: indent_text flags (S (S depth)) true ++ print_members fmt_17g flags depth (kt :: kvs)).
    change (members_body flags depth ((k, t) :: kt :: kvs)) with (string_text flags k ++ JsonDump.separator flags ++
      print fmt_17g flags (S (S depth)) t ++ ([44] ++ indent_text flags (S (S depth)) true) ++ members_body flags depth (kt :: kvs)).
    rewrite IH. by rewrite <- !app_assoc.
Qed.

(** The iterator yields the entries [es], [r] first, and ends in [it']. *)
Fixpoint iterates {I : Type} (next : I -> M dworld (option (positive * positive) * I)) (es : list (positive * positive))
    (r : option (positive * positive)) (it it' : I) : Prop :=
  match es with
  | [] => r = None /\ it = it'
  | e :: es => r = Some e /\ exists r1 it1, (forall w, dump_ok w -> next it w = Ret ((r1, it1), w)) /\ iterates next es r1 it1 it'
  end.

(** The entry [e] is written as the member [kt] by [go]. *)
Definition writes_member (go : nat -> positive -> M dworld bool) (flags : Z) (depth : nat) (kt : list Z * tree D)
    (e : positive * positive) : Prop :=
  contents_of e.1 = kt.1 /\ txt kt.1 /\ zlen kt.1 < 2 ^ 32 - 4 /\
  writes (go (S (S depth)) e.2) (print fmt_17g flags (S (S depth)) kt.2).

Lemma writes_elem go flags depth k t e last :
  writes_member go flags depth (k, t) e ->
  writes (JsonDump.dump_obj_elem funcs wfuel go e.1 e.2 flags (S depth) last)
    (string_text flags k ++ JsonDump.separator flags ++ print fmt_17g flags (S (S depth)) t ++
     if last then indent_text flags (S depth) false else [44] ++ indent_text flags (S (S depth)) true).
Proof.
  intros (Hk & Ht & Hl & Hgo). cbn [fst snd] in *. subst k. unfold JsonDump.dump_obj_elem.
  apply writes_and_then; [by apply writes_string|]. apply writes_and_then; [apply writes_dump|].
  apply writes_and_then; [done|]. destruct last; [apply writes_indent|].
  apply writes_and_then; [apply writes_dump|apply writes_indent].
Qed.

Lemma writes_obj_loop {I : Type} (next : I -> M dworld (option (positive * positive) * I)) go flags depth n it' :
  n < 2 ^ 32 -> forall kvs es i r it fuel, Forall2 (writes_member go flags depth) kvs es -> iterates next es r it it' ->
  (length es <= fuel)%nat -> 0 <= i -> i + zlen es = n ->
  outputs (JsonDump.obj_loop funcs wfuel next go flags depth n fuel i r it) (true, it') (members_body flags depth kvs).
Proof.
  intros Hn. induction kvs as [|[k t] kvs IH]; intros es i r it fuel Hall Hit Hf Hi Hlen.
  - apply Forall2_nil_inv_l in Hall as ->. destruct Hit as [-> ->]. destruct fuel; apply outputs_ret.
  - apply Forall2_cons_inv_l in Hall as (e & es' & He & Hall & ->). destruct Hit as (-> & r1 & it1 & Hnext & Hit).
    cbn [length] in *. destruct fuel as [|fuel]; [lia|]. destruct e as [key val]. cbn [JsonDump.obj_loop].
    rewrite (wrapU_small 32) by lia.
    pose proof (writes_elem go flags depth k t (key, val) (n <=? i + 1) He) as Hw. cbn [fst snd] in Hw.
    assert (outputs (next it) (r1, it1) []) as Hnx.
    { intros w Hok _ _. exists w. rewrite app_nil_r. split; [by apply Hnext|]. by split_and!. }
    assert (members_body flags depth ((k, t) :: kvs) =
      (string_text flags k ++ JsonDump.separator flags ++ print fmt_17g flags (S (S depth)) t ++
       if n <=? i + 1 then indent_text flags (S depth) false else [44] ++ indent_text flags (S (S depth)) true) ++
      members_body flags depth kvs) as ->.
    { pose proof (Forall2_length _ _ _ Hall). cbn [members_body]. destruct kvs as [|kt kvs].
      - rewrite (proj2 (Z.leb_le n (i + 1))) by (cbn in *; lia). cbn [members_body]. by rewrite app_nil_r.
      - rewrite (proj2 (Z.leb_gt n (i + 1))) by (cbn [length] in *; lia). by rewrite <- !app_assoc. }
    eapply outputs_bind; [exact Hw|]. cbv beta iota.
    apply (outputs_pure _ _ (r1, it1)); [done|]. cbv beta iota. apply (IH es' (i + 1)); [done|done|lia|lia|lia].
Qed.

Abbreviation oht := (oval_ht (X := X) (D := D) ph_var_delref).
Abbreviation kd := (ph_ht_string_key_def (X := X) (D := D)).

Lemma on_vars_pure {A} (f : M (vworld X D) A) w a v' :
  f (JsonDump.dvars w) = Ret (a, v') -> JsonDump.on_vars f w = Ret (a, JsonDump.DWorld v' (JsonDump.stm w)).
Proof. intros E. unfold JsonDump.on_vars. by rewrite E. Qed.

(** ** The iteration in the order of the table *)

Definition plain_next p (it : ph_ht_iter_t) : M dworld _ := JsonDump.on_vars (ph_var_object_iter_next p it).

Lemma plain_next_eq p v o it w :
  h !! p = Some v -> body v = PH_VAR_OBJECT o -> dump_ok w ->
  plain_next p it w = Ret (ph_ht_iter_next (oht o) it, w).
Proof.
  intros Hp Hb Hok. unfold plain_next. rewrite <- (do_vars _ Hok) in Hp.
  rewrite (on_vars_pure _ w (ph_ht_iter_next (oht o) it) (JsonDump.dvars w)); [by destruct w|].
  unfold ph_var_object_iter_next. step_with (load_eq _ p v Hp). unfold the_oval. by rewrite Hb.
Qed.

Lemma drain_iterates p v o : h !! p = Some v -> body v = PH_VAR_OBJECT o -> forall es r it,
  (forall n, (length es <= n)%nat -> iter_drain (oht o) n (r, it) = es) ->
  exists it', iterates (plain_next p) es r it it'.
Proof.
  intros Hp Hb. induction es as [|e es IH]; intros r it Hd.
  - exists it. split; [|done]. specialize (Hd 0%nat ltac:(cbn; lia)). by destruct r.
  - assert (r = Some e) as -> .
    { specialize (Hd (length (e :: es)) ltac:(lia)). destruct r as [e'|]; cbn in Hd; by simplify_eq. }
    destruct (ph_ht_iter_next (oht o) it) as [r1 it1] eqn:En.
    destruct (IH r1 it1) as [it' Hit].
    { intros n Hn. specialize (Hd (S n) ltac:(cbn; lia)). cbn in Hd. rewrite En in Hd. by simplify_eq. }
    exists it'. split; [done|]. exists r1, it1. split; [|done]. intros w Hok. by rewrite (plain_next_eq p v o), En.
Qed.

Lemma plain_iterates p v o :
  h !! p = Some v -> body v = PH_VAR_OBJECT o -> oval_ok (X := X) (D := D) o ->
  exists r it it', outputs (JsonDump.on_vars (ph_var_object_iter_first p)) (r, it) [] /\
    iterates (plain_next p) (entries (o_table o)) r it it'.
Proof.
  intros Hp Hb Hok. destruct (ph_ht_iter_first (oht o)) as [r it] eqn:Ef. exists r, it.
  destruct (drain_iterates p v o Hp Hb (entries (o_table o)) r it) as [it' Hit].
  { intros n Hn. rewrite <- Ef. apply (iter_first_drain no_memcmp kd); [done|].
    unfold ph_ht_size. rewrite (wf_nelems _ _ _ Hok). cbn [oval_ht table]. lia. }
  exists it'. split; [|done]. intros w Hw _ _. exists w. rewrite app_nil_r. split; [|by split_and!].
  rewrite (on_vars_pure _ w (r, it) (JsonDump.dvars w)); [by destruct w|]. rewrite <- (do_vars _ Hw) in Hp.
  unfold ph_var_object_iter_first. step_with (load_eq _ p v Hp). unfold the_oval. rewrite Hb. by rewrite <- Ef.
Qed.

(** ** The iteration in the order of the keys *)

Abbreviation scmp := (StringKeys.string_compare contents_of).

Lemma scmp_le a b : scmp a b <= 0 <-> PhStringUtf8.lex_le (contents_of a) (contents_of b).
Proof.
  unfold StringKeys.string_compare. case_decide as Hd; [|apply PhStringUtf8.compare_lex]. subst b.
  split; [|lia]. intros _. by destruct (PhStringUtf8.lex_total (contents_of a) (contents_of a)).
Qed.

Lemma scmp_total a b : scmp a b <= 0 \/ scmp b a <= 0.
Proof. rewrite !scmp_le. apply PhStringUtf8.lex_total. Qed.
Lemma scmp_trans a b c : scmp a b <= 0 -> scmp b c <= 0 -> scmp a c <= 0.
Proof. rewrite !scmp_le. apply PhStringUtf8.lex_trans. Qed.

Implicit Types vw : vworld X D.

(** The keys are copied by taking references, and deleted by releasing them. *)
Lemma collect_w o tbl vw :
  exists x, collect_keys null_str (oht o) tbl (Ret vw) = ((entries tbl).*1, Ret (set_ext x vw)) /\
    forall t, srefs x t = srefs (ext vw) t + occ t (entries tbl).*1.
Proof.
  revert vw. induction tbl as [|e tbl IH]; intros vw.
  - exists (ext vw). split; [by destruct vw|]. intros t. cbn. lia.
  - destruct e as [|k c|]; cbn [collect_keys]; [by apply IH| |by apply IH].
    destruct (IH (set_ext (string_addref k (ext vw)) vw)) as (x & E & Hx).
    change (key_copy (oht o) k PH_HT_COPY_KEY (Ret vw)) with (Some k, (Ret (set_ext (string_addref k (ext vw)) vw) : outcome (vworld X D))).
    cbv beta iota. rewrite E. exists x. split; [done|]. intros t. rewrite Hx. cbn [ext set_ext].
    rewrite addref_refs. change (entries (ELEM_TAKEN k c :: tbl)) with ((k, c) :: entries tbl).
    rewrite fmap_cons, occ_cons. cbn [fst]. lia.
Qed.

Lemma delete_keys_w o ks vw :
  exists x, foldl (fun s k => key_delete (oht o) k s) (Ret vw) ks = Ret (set_ext x vw) /\
    forall t, srefs x t = srefs (ext vw) t - occ t ks.
Proof.
  revert vw. induction ks as [|k ks IH]; intros vw.
  - exists (ext vw). split; [by destruct vw|]. intros t. cbn. lia.
  - destruct (IH (set_ext (string_delref k (ext vw)) vw)) as (x & E & Hx). exists x. split; [exact E|].
    intros t. rewrite Hx. cbn [ext set_ext]. rewrite delref_refs, occ_cons. lia.
Qed.

Definition ordered_next p (it : ph_ht_ordered_iter_t positive) : M dworld _ :=
  JsonDump.on_vars (ph_var_object_ordered_iter_next p it).

Lemma ordered_next_eq p v o it r w :
  h !! p = Some v -> body v = PH_VAR_OBJECT o -> dump_ok w ->
  ph_ht_ordered_iter_next no_memcmp (oht o) it = Ret r -> ordered_next p it w = Ret (r, w).
Proof.
  intros Hp Hb Hok E. unfold ordered_next. rewrite <- (do_vars _ Hok) in Hp.
  rewrite (on_vars_pure _ w r (JsonDump.dvars w)); [by destruct w|].
  unfold ph_var_object_ordered_iter_next. step_with (load_eq _ p v Hp). unfold the_oval. rewrite Hb.
  unfold bind, ret. by rewrite E.
Qed.

Lemma ordered_iterates p v o ks :
  h !! p = Some v -> body v = PH_VAR_OBJECT o -> oval_ok (X := X) (D := D) o -> (length ks < Z.to_nat (2 ^ 32))%nat ->
  forall es es0 e, Forall2 (copy_of no_memcmp kd) ks ((es0 ++ [e]) ++ es) ->
  (forall x, x ∈ es -> x ∈ entries (o_table o)) ->
  exists it', oiter_slots it' = Some ks /\
    iterates (ordered_next p) (e :: es) (Some e) (OIter (zlen (es0 ++ [e])) (zlen ks) (Some ks)) it'.
Proof.
  intros Hp Hb Hok Hlen. induction es as [|e' es IH]; intros es0 e Hall Hin.
  - rewrite app_nil_r in Hall. eexists. split; [|split; [done|]].
    2:{ eexists None, _. split; [|done]. intros w Hw. eapply ordered_next_eq; [done|done|done|].
        apply (oiter_next_none no_memcmp kd (oht o) ks _ Hall). }
    done.
  - destruct (IH (es0 ++ [e]) e') as (it' & Hs & Hit); [by rewrite <- (app_assoc _ [e'])|by intros x Hx; apply Hin; right|].
    exists it'. split; [done|]. split; [done|]. eexists (Some e'), _. split; [|exact Hit].
    intros w Hw. eapply ordered_next_eq; [done|done|done|].
    apply (oiter_next_some no_memcmp kd (oht o) ks (es0 ++ [e]) e' es); [done|done|done|]. apply Hin. by left.
Qed.

(** The entries in the order of their keys. *)
Definition key_le (a b : positive * positive) : Prop := scmp a.1 b.1 <= 0.
#[local] Instance key_le_total : Total key_le.
Proof. intros a b. apply scmp_total. Qed.
#[local] Instance key_le_trans : Transitive key_le.
Proof. intros a b c. apply scmp_trans. Qed.
#[local] Instance key_le_dec a b : Decision (key_le a b).
Proof. apply Z_le_dec. Defined.

Definition sorted_entries (o : oval_t) : list (positive * positive) := merge_sort key_le (entries (o_table o)).

Lemma sorted_entries_unique o es :
  oval_ok (X := X) (D := D) o -> es ≡ₚ entries (o_table o) -> StronglySorted key_le es -> es = sorted_entries o.
Proof.
  intros Hok Hp Hs. apply (StronglySorted_unique_strong key_le).
  - intros [k1 v1] [k2 v2] H1 H2 L1 L2. rewrite Hp in H1. unfold sorted_entries in H2. rewrite merge_sort_Permutation in H2.
    apply elem_of_entries in H1 as [i Hi]. apply elem_of_entries in H2 as [j Hj].
    assert (contents_of k1 = contents_of k2) as Hc.
    { unfold key_le in *. cbn [fst] in *. unfold StringKeys.string_compare in *.
      destruct (decide (k1 = k2)) as [->|Hne]; [done|]. rewrite decide_False in L2 by congruence. pose proof (PhStringUtf8.compare_opp (contents_of k1) (contents_of k2)).
      apply PhStringUtf8.compare_lex. lia. }
    assert (i = j) as ->.
    { eapply (ok_uniq _ _ _ _ (wf_table _ _ _ Hok)); [exact Hi|exact Hj|]. by apply StringKeys.string_compare_zero. }
    cbn [oval_ht table] in *. congruence.
  - done.
  - apply StronglySorted_merge_sort; apply _.
  - unfold sorted_entries. by rewrite merge_sort_Permutation.
Qed.

(** The three parts of the sorted iteration around a loop that writes [bs]. *)
Lemma outputs_ordered p v o (loop : option (positive * positive) -> ph_ht_ordered_iter_t positive -> M dworld (bool * ph_ht_ordered_iter_t positive)) bs :
  h !! p = Some v -> body v = PH_VAR_OBJECT o -> oval_ok (X := X) (D := D) o -> 0 < o_nelems o ->
  (forall r it it', iterates (ordered_next p) (sorted_entries o) r it it' -> outputs (loop r it) (true, it') bs) ->
  writes
    (let* (r, iter) := JsonDump.on_vars (ph_var_object_ordered_iter_first p) in
     let* (ok, iter) := loop r iter in
     if (ok : bool) then JsonDump.on_vars (ph_var_object_ordered_iter_end p iter) ;;; ret true else ret false) bs.
Proof.
  intros Hp Hb Hok Hpos Hloop w Hw Hb1 Hb2.
  destruct (ordered_first_ok no_memcmp null_str alloc_w free_w kd scmp eq_refl scmp_total scmp_trans (oht o) (Ret (JsonDump.dvars w)))
    as (e & es & ks & ks0 & s' & Ec & Ef & Hkp & Hlen & Hkn & Hall & Hpe & Hsort); [done|exact Hpos| | |].
  { done. }
  { unfold alloc_w. pose proof (Halloc (u32 (nelems (oht o) * ksize kd)) (ext (JsonDump.dvars w))) as Ha.
    destruct (mem_alloc _ _) as [ok x]. by cbn in *. }
  assert (exists x1, s' = Ret (set_ext x1 (JsonDump.dvars w)) /\ ks0 = (entries (o_table o)).*1 /\
    forall t, srefs x1 t = srefs (ext (JsonDump.dvars w)) t + occ t ks0) as (x1 & -> & Hks0 & Hx1).
  { unfold alloc_w in Ec. pose proof (alloc_refs (u32 (nelems (oht o) * ksize kd)) (ext (JsonDump.dvars w))) as Ha.
    destruct (mem_alloc _ _) as [ok x]. cbn [snd] in Ec, Ha.
    destruct (collect_w o (o_table o) (set_ext x (JsonDump.dvars w))) as (x1 & E1 & Hx1).
    cbn [oval_ht table] in Ec. rewrite E1 in Ec. injection Ec as <- <-. exists x1. split; [done|]. split; [done|].
    intros t. rewrite Hx1. cbn [ext set_ext]. by rewrite Ha. }
  set (w1 := JsonDump.DWorld (set_ext x1 (JsonDump.dvars w)) (JsonDump.stm w)).
  assert (dump_ok w1) as Hw1 by (destruct Hw; by split).
  destruct (ordered_iterates p v o ks Hp Hb Hok Hlen es [] e Hall) as (it' & Hsl & Hit).
  { intros x Hx. rewrite <- Hpe. by right. }
  assert (e :: es = sorted_entries o) as Hes by (by apply sorted_entries_unique).
  rewrite Hes in Hit. destruct (Hloop _ _ it' Hit w1 Hw1) as (w2 & E2 & Hw2 & K2 & O2); [done|done|].
  destruct (delete_keys_w o ks (JsonDump.dvars w2)) as (x3 & E3 & Hx3).
  exists (JsonDump.DWorld (set_ext (mem_free x3) (JsonDump.dvars w2)) (JsonDump.stm w2)).
  split; [|split; [|split]].
  - assert (JsonDump.on_vars (ph_var_object_ordered_iter_first p) w = Ret ((Some e, OIter (zlen [e]) (zlen ks) (Some ks)), w1)) as E1.
    { rewrite <- (do_vars _ Hw) in Hp. eapply on_vars_pure. unfold ph_var_object_ordered_iter_first.
      step_with (load_eq _ p v Hp). unfold the_oval. rewrite Hb. unfold bind, ret, get. by rewrite Ef. }
    step_with E1. step_with E2.
    assert (JsonDump.on_vars (ph_var_object_ordered_iter_end p it') w2 = Ret (OIter (oiter_slot it') (oiter_size it') None,
      JsonDump.DWorld (set_ext (mem_free x3) (JsonDump.dvars w2)) (JsonDump.stm w2))) as E4.
    { rewrite <- (do_vars _ Hw2) in Hp. eapply on_vars_pure. unfold ph_var_object_ordered_iter_end.
      step_with (load_eq _ p v Hp). unfold the_oval. rewrite Hb. unfold bind, ret, get, ph_ht_ordered_iter_end.
      rewrite Hsl, E3. done. }
    by step_with E4.
  - destruct Hw2. by split.
  - destruct K2 as [K2 K3]. split; [done|]. intros t. cbn. rewrite free_refs, Hx3, K3. cbn. rewrite Hx1.
    rewrite (occ_perm t _ _ Hkp). lia.
  - exact O2.
Qed.

(** The entries in the order they are written. *)
Definition written_entries (flags : Z) (o : oval_t) : list (positive * positive) :=
  if JsonDump.flag flags JsonDump.PH_JSON_SORT_KEYS then sorted_entries o else entries (o_table o).

Lemma written_entries_perm flags o : written_entries flags o ≡ₚ entries (o_table o).
Proof. unfold written_entries, sorted_entries. case_bool; [apply merge_sort_Permutation|done]. Qed.

Lemma writes_object go p v o flags depth kvs :
  h !! p = Some v -> body v = PH_VAR_OBJECT o -> oval_ok (X := X) (D := D) o ->
  Forall2 (writes_member go flags depth) kvs (written_entries flags o) ->
  writes (JsonDump.dump_obj funcs wfuel go p flags depth) (print fmt_17g flags depth (TObj kvs)).
Proof.
  intros Hp Hb Hok Hall. pose proof (Forall2_length _ _ _ Hall) as Hl.
  pose proof (Permutation_length (written_entries_perm flags o)) as Hl2.
  assert (o_nelems o = zlen (entries (o_table o))) as Hne by (exact (wf_nelems _ _ _ Hok)).
  pose proof (wf_nelems_bound _ _ _ Hok) as Hnb. cbn [oval_ht nelems table_size] in Hnb.
  unfold JsonDump.dump_obj. apply (outputs_pure _ _ v); [by apply outputs_load|].
  unfold ph_var_object_size. rewrite Hb. destruct kvs as [|kt kvs].
  { cbn in Hl. rewrite (proj2 (Z.eqb_eq _ _)) by lia. apply writes_dump. }
  rewrite print_obj, print_members_body. cbn [length] in Hl. rewrite (proj2 (Z.eqb_neq _ _)) by lia.
  apply (writes_and_then _ _ [123]); [apply writes_dump|]. apply writes_and_then; [apply writes_indent|].
  apply (outputs_bind _ _ true true); [|apply writes_dump]. unfold written_entries in *.
  destruct (JsonDump.flag flags JsonDump.PH_JSON_SORT_KEYS).
  - eapply outputs_ordered; [done|done|done|lia|]. intros r it it' Hit.
    eapply writes_obj_loop; [lia|done|exact Hit|lia|lia|lia].
  - destruct (plain_iterates p v o Hp Hb Hok) as (r & it & it' & Hfirst & Hit).
    apply (outputs_pure _ _ (r, it)); [done|]. cbv beta iota. rewrite <- (app_nil_r (members_body _ _ _)).
    apply (outputs_bind _ _ (true, it')); [|apply outputs_ret].
    eapply writes_obj_loop; [lia|done|exact Hit|lia|lia|lia].
Qed.

(** ** Values *)

(** The members of every object are in the order of their keys. *)
Fixpoint sorted_tree (t : tree D) : Prop :=
  match t with
  | TArr l => (fix all (l : list (tree D)) : Prop := match l with [] => True | t :: l => sorted_tree t /\ all l end) l
  | TObj kvs =>
      StronglySorted PhStringUtf8.lex_le kvs.*1 /\
      (fix all (l : list (list Z * tree D)) : Prop := match l with [] => True | (_, t) :: l => sorted_tree t /\ all l end) kvs
  | _ => True
  end.

Lemma sorted_tree_arr l : Forall sorted_tree l -> sorted_tree (TArr l).
Proof. cbn. induction 1; auto. Qed.
Lemma sorted_tree_obj kvs : StronglySorted PhStringUtf8.lex_le kvs.*1 -> Forall (fun kt => sorted_tree kt.2) kvs -> sorted_tree (TObj kvs).
Proof. cbn. intros Hs H. split; [done|]. clear Hs. induction H as [|[k t] l Ht _ IH]; auto. Qed.

(** What [do_dump] writes for the value [t] at [p]. *)
Definition dumps_as (fuel : nat) (flags : Z) (depth : nat) (t : tree D) (p : positive) (t' : tree D) : Prop :=
  teq t t' /\ (JsonDump.flag flags JsonDump.PH_JSON_SORT_KEYS = true -> sorted_tree t') /\
  writes (JsonDump.do_dump funcs wfuel fmt_17g fuel flags depth p) (print fmt_17g flags depth t').

Context (strtod : list Z -> D * nat * bool) (decimal_point : Z).
Abbreviation printable := (printable strtod decimal_point fmt_17g).
Context (Hbody : forall p v, h !! p = Some v -> body_ok (X := X) (body v)).

Lemma dump_array_value fuel flags depth ts p v al ps :
  h !! p = Some v -> body v = PH_VAR_ARRAY al ps ->
  Forall2 (fun t q => exists t', dumps_as fuel flags (S depth) t q t') ts ps ->
  exists t', dumps_as (S fuel) flags depth (TArr ts) p t'.
Proof.
  intros Hp Hb Hall. assert (exists ts', Forall2 teq ts ts' /\
    (JsonDump.flag flags JsonDump.PH_JSON_SORT_KEYS = true -> Forall sorted_tree ts') /\
    Forall2 (fun t q => writes (JsonDump.do_dump funcs wfuel fmt_17g fuel flags (S depth) q) (print fmt_17g flags (S depth) t)) ts' ps)
    as (ts' & H1 & H2 & H3).
  { clear Hb. induction Hall as [|t q ts ps (t' & T1 & T2 & T3) _ (ts' & H1 & H2 & H3)]; [by exists []|].
    exists (t' :: ts'). split; [by constructor|]. split; [|by constructor]. intros Hs. constructor; auto. }
  exists (TArr ts'). split; [by constructor|]. split; [by intros Hs; apply sorted_tree_arr, H2|].
  cbn [JsonDump.do_dump]. apply (outputs_pure _ _ v); [by apply outputs_load|]. rewrite Hb.
  pose proof (Hbody p v Hp) as Hok. rewrite Hb in Hok. cbn in Hok. eapply writes_array; [done|done|lia|done].
Qed.

Lemma dump_object_value fuel flags depth kvs p v o :
  h !! p = Some v -> body v = PH_VAR_OBJECT o -> Forall (fun kt => txt kt.1 /\ zlen kt.1 < 2 ^ 32 - 4) kvs ->
  Forall2 (fun kt e => contents_of e.1 = kt.1 /\ exists t', dumps_as fuel flags (S (S depth)) kt.2 e.2 t') kvs (entries (o_table o)) ->
  exists t', dumps_as (S fuel) flags depth (TObj kvs) p t'.
Proof.
  intros Hp Hb Hk Hall. pose proof (Hbody p v Hp) as Hok. rewrite Hb in Hok. cbn in Hok.
  set (R := fun (kt : list Z * tree D) (e : positive * positive) =>
    writes_member (JsonDump.do_dump funcs wfuel fmt_17g fuel flags) flags depth kt e /\
    (JsonDump.flag flags JsonDump.PH_JSON_SORT_KEYS = true -> sorted_tree kt.2)).
  assert (exists kvs', Forall2 (fun a b => a.1 = b.1 /\ teq a.2 b.2) kvs kvs' /\ Forall2 R kvs' (entries (o_table o)))
    as (kvs1 & H1 & H2).
  { clear Hb Hok. revert Hk. induction Hall as [|[k t] e kvs es [He (t' & T1 & T2 & T3)] _ IH]; intros Hk; [by exists []|].
    apply Forall_cons in Hk as [[Hk1 Hk2] Hk]. destruct (IH Hk) as (kvs' & H1 & H2). exists ((k, t') :: kvs').
    split; [by constructor|]. constructor; [|done]. split; [|done]. by split. }
  destruct (Forall2_perm _ _ _ _ H2 (symmetry (written_entries_perm flags o))) as (kvs2 & Hperm & H3).
  exists (TObj kvs2). split; [by eapply te_obj|]. split.
  - intros Hs. apply sorted_tree_obj.
    + assert (StronglySorted key_le (written_entries flags o)) as Hso.
      { unfold written_entries. rewrite Hs. apply StronglySorted_merge_sort; apply _. }
      clear -H3 Hso. induction H3 as [|kt e kvs es [(Hk & _) _] Hall IH]; [constructor|].
      apply StronglySorted_inv in Hso as [Hs1 Hs2]. rewrite fmap_cons. constructor; [by apply IH|].
      clear -Hall Hs2 Hk. induction Hall as [|kt' e' kvs es [(Hk' & _) _] _ IH]; [constructor|].
      apply Forall_cons in Hs2 as [Hle Hs2]. rewrite fmap_cons. constructor; [|by apply IH].
      apply scmp_le in Hle. by rewrite Hk, Hk' in Hle.
    + clear -H3 Hs. induction H3 as [|kt e kvs es [_ Hst] _ IH]; constructor; auto.
  - cbn [JsonDump.do_dump]. apply (outputs_pure _ _ v); [by apply outputs_load|]. rewrite Hb.
    eapply writes_object; [done|done|done|]. eapply Forall2_impl; [exact H3|]. by intros kt e [Hw _].
Qed.

Lemma dump_value t : forall p fuel flags depth,
  denotes contents_of h t p -> printable t -> (height t <= fuel)%nat -> exists t', dumps_as fuel flags depth t p t'.
Proof.
  induction t as [|b|z|d|s|l IH|kvs IH] using tree_rect'; intros p fuel flags depth Hd Hpr Hf;
    (destruct fuel as [|fuel]; [cbn in Hf; lia|]).
  6:{ apply denotes_arr in Hd as (v & al & ps & Hp & Hb & Hall). eapply dump_array_value; [done|done|].
      apply printable_arr in Hpr. apply height_arr in Hf. clear Hb.
      induction Hall as [|t q ts ps Ht _ IHall]; [constructor|]. decompose_Forall_hyps. constructor; auto. }
  6:{ apply denotes_obj in Hd as (v & o & Hp & Hb & Hall). apply printable_obj in Hpr as [_ Hpr].
      eapply dump_object_value; [done|done|eapply Forall_impl; [exact Hpr|]; by intros kt [H _]|].
      apply height_obj in Hf. clear Hb. induction Hall as [|kt e kts es [Hk Ht] _ IHall]; [constructor|].
      apply Forall_cons in IH as [IH1 IH]. apply Forall_cons in Hpr as [[_ Hpr1] Hpr]. apply Forall_cons in Hf as [Hf1 Hf].
      constructor; [|by apply IHall]. split; [done|]. by apply IH1. }
  all: destruct Hd as (v & Hv & Hb).
  all: match goal with |- exists t', dumps_as _ _ _ ?t _ _ => exists t end; split; [constructor|]; split; [done|].
  all: cbn [JsonDump.do_dump]; apply (outputs_pure _ _ v); [by apply outputs_load|].
  - destruct (body v); try done. apply writes_dump.
  - destruct b; destruct (body v); try done; apply writes_dump.
  - destruct (body v); try done. subst. apply writes_dump.
  - destruct (body v); try done. subst. destruct Hpr as (x & Hx & _). cbn. unfold real_or_nil. rewrite Hx. by apply writes_real.
  - destruct (body v); try done. subst. destruct Hpr. by apply writes_string.
Qed.

End dump.
End JsonDumpProofs.
