(* ===== verification/JsonRoundTrip.v ===== *)
(** * What the JSON reader and writer promise

    The reader accepts JSON and returns its value, the writer writes a text of
    the value it was given, and reading that text gives the value back. *)

From Stdlib Require Import ZArith Lia.
From stdpp Require Import base numbers list gmap sorting.
From S2P Require Import Prelude SysUtil PhString PhStringUtf8 HashTable HashTableProofs StringKeys Stream StreamProofs.
From S2P Require Import Variant VariantProofs VariantOps VariantGrow JsonLoad JsonDump.
From S2P Require Import JsonLexProofs JsonTokens JsonScan JsonParse JsonPrint JsonDumpProofs.

Module JsonRoundTrip.
Export JsonDumpProofs.
Import HashTable HashTableProofs.

(** ** Values up to the order of members *)

Section order.
Context {D : Type}.
Implicit Types t : tree D.
Abbreviation same_member := (fun a b : list Z * tree D => a.1 = b.1 /\ teq a.2 b.2).

Lemma same_members_keys (l l' : list (list Z * tree D)) : Forall2 same_member l l' -> l.*1 = l'.*1.
Proof. induction 1 as [|[k t] [k' t'] l l' [Hk _] _ IH]; [done|]. rewrite !fmap_cons. cbn in *. by rewrite Hk, IH. Qed.

(** The cases of [teq] on arrays and objects. *)
Lemma teq_arr_inv l t' : teq (TArr l) t' -> exists l', t' = TArr l' /\ Forall2 teq l l'.
Proof. inversion 1; subst; eexists; (split; [reflexivity|]); [|done]. apply Forall2_same_length_lookup. split; [done|].
  intros i x y H1 H2. simplify_eq. constructor. Qed.

Lemma teq_obj_inv kvs t' : teq (TObj kvs) t' -> exists es kvs', t' = TObj kvs' /\ Forall2 same_member kvs es /\ es ≡ₚ kvs'.
Proof.
  inversion 1 as [|H1|k1 es kvs' Hall Hp]; subst; [|by exists es, kvs']. exists kvs, kvs. split; [done|]. split; [|done].
  apply Forall2_same_length_lookup. split; [done|]. intros i x y H1 H2. simplify_eq. by repeat constructor.
Qed.

Lemma teq_leaf_inv t t' : teq t t' -> match t with TArr _ | TObj _ => True | _ => t' = t end.
Proof. by destruct 1 as [t| |]; [destruct t|..]. Qed.

Lemma teq_trans t : forall t1 t2, teq t t1 -> teq t1 t2 -> teq t t2.
Proof.
  induction t as [|b|z|d|s|l IH|kvs IH] using tree_rect'; intros t1 t2 H1 H2.
  1-5: apply teq_leaf_inv in H1; by subst.
  - apply teq_arr_inv in H1 as (l1 & -> & H1). apply teq_arr_inv in H2 as (l2 & -> & H2). constructor.
    revert l2 H2. induction H1 as [|t t1 l l1 Ht _ IHl]; intros l2 H2.
    + apply Forall2_nil_inv_l in H2 as ->. constructor.
    + apply Forall2_cons_inv_l in H2 as (t2 & l2' & Ht2 & H2 & ->). apply Forall_cons in IH as [IH1 IH].
      constructor; [by eapply IH1|by apply IHl].
  - apply teq_obj_inv in H1 as (es1 & k1 & -> & H1 & P1). apply teq_obj_inv in H2 as (es2 & k2 & -> & H2 & P2).
    destruct (Forall2_perm (fun b a => same_member a b) es2 k1 es1) as (es3 & P3 & H3);
      [by apply Forall2_flip in H2|by symmetry|].
    apply te_obj with es3; [|by rewrite <- P3]. apply Forall2_flip in H3. clear P1 P2 P3 H2.
    revert es3 H3. induction H1 as [|a b l l1 [Hk Ht] _ IHl]; intros es3 H3.
    + apply Forall2_nil_inv_l in H3 as ->. constructor.
    + apply Forall2_cons_inv_l in H3 as (c & l3 & [Hk3 Ht3] & H3 & ->). apply Forall_cons in IH as [IH1 IH].
      constructor; [split; [congruence|by eapply IH1]|by apply IHl].
Qed.

End order.

Section printing.
Context {D : Type} (strtod : list Z -> D * nat * bool) (decimal_point : Z) (fmt_17g : D -> list Z).
Abbreviation same_member := (fun a b : list Z * tree D => a.1 = b.1 /\ teq a.2 b.2).
Abbreviation printable := (printable strtod decimal_point fmt_17g).
Abbreviation print := (print fmt_17g).

Lemma printable_teq t : forall t', teq t t' -> printable t -> printable t'.
Proof.
  induction t as [|b|z|d|s|l IH|kvs IH] using tree_rect'; intros t' Ht Hp.
  1-5: apply teq_leaf_inv in Ht; by subst.
  - apply teq_arr_inv in Ht as (l' & -> & Ht). apply printable_arr in Hp. apply printable_arr.
    induction Ht as [|t t' l l' Htt _ IHl]; [constructor|]. decompose_Forall_hyps. constructor; auto.
  - apply teq_obj_inv in Ht as (es & k' & -> & Ht & P). apply printable_obj in Hp as [Hnd Hp]. apply printable_obj.
    pose proof (same_members_keys _ _ Ht) as Hk. split; [by rewrite <- P, <- Hk|]. rewrite <- P. clear Hnd P Hk.
    induction Ht as [|a b l l' [Hk Htt] _ IHl]; [constructor|]. apply Forall_cons in Hp as [[Hp1 Hp2] Hp]. apply Forall_cons in IH as [IH1 IH].
    constructor; [|by apply IHl]. split; [by rewrite <- Hk|by apply (IH1 b.2)].
Qed.

Definition member_len (flags : Z) (depth : nat) (kt : list Z * tree D) : nat :=
  (length (string_text flags kt.1) + length (JsonDump.separator flags) + length (print flags (S (S depth)) kt.2))%nat.

Lemma members_len flags depth kvs : kvs <> [] ->
  (length (print_members fmt_17g flags depth kvs) + S (length (indent_text flags (S (S depth)) true)) =
   sum_list_with (member_len flags depth) kvs + length kvs * S (length (indent_text flags (S (S depth)) true)) +
   S (length (indent_text flags (S depth) false)))%nat.
Proof.
  induction kvs as [|[k t] l IH]; intros Hne; [done|]. destruct l as [|u l].
  - cbn [print_members sum_list_with length]. rewrite !length_app. unfold member_len. cbn [fst snd length]. lia.
  - change (print_members fmt_17g flags depth ((k, t) :: u :: l)) with (string_text flags k ++ JsonDump.separator flags ++
      print flags (S (S depth)) t ++ 44 :: indent_text flags (S (S depth)) true ++ print_members fmt_17g flags depth (u :: l)).
    specialize (IH ltac:(done)). rewrite !length_app. cbn [length]. rewrite length_app.
    change (sum_list_with (member_len flags depth) ((k, t) :: u :: l)) with
      (member_len flags depth (k, t) + sum_list_with (member_len flags depth) (u :: l))%nat.
    unfold member_len at 1. cbn [fst snd length] in *. lia.
Qed.

(** The order of the members does not change the length of the text. *)
Lemma print_len_teq flags t : forall t' depth, teq t t' -> length (print flags depth t') = length (print flags depth t).
Proof.
  induction t as [|b|z|d|s|l IH|kvs IH] using tree_rect'; intros t' depth Ht.
  1-5: apply teq_leaf_inv in Ht; by subst.
  - apply teq_arr_inv in Ht as (l' & -> & Ht). destruct Ht as [|t t' l l' Ht Hl]; [done|]. rewrite !print_arr. cbn [length].
    f_equal. rewrite !length_app. f_equal. revert t t' Ht IH. induction Hl as [|u u' l l' Hu Hl IHl]; intros t t' Ht IH.
    + apply Forall_cons in IH as [IH _]. cbn [print_elems]. rewrite !length_app. by rewrite (IH t').
    + apply Forall_cons in IH as [IH1 IH].
      change (print_elems fmt_17g flags depth (t :: u :: l)) with
        (print flags (S depth) t ++ 44 :: indent_text flags (S depth) true ++ print_elems fmt_17g flags depth (u :: l)).
      change (print_elems fmt_17g flags depth (t' :: u' :: l')) with
        (print flags (S depth) t' ++ 44 :: indent_text flags (S depth) true ++ print_elems fmt_17g flags depth (u' :: l')).
      rewrite !length_app. cbn [length]. rewrite !length_app. rewrite (IH1 t'), (IHl u u') by done. done.
  - apply teq_obj_inv in Ht as (es & k' & -> & Ht & P).
    assert (sum_list_with (member_len flags depth) k' = sum_list_with (member_len flags depth) kvs) as Hsum.
    { rewrite <- P. clear P. induction Ht as [|a b l l' [Hk Htt] _ IHl]; [done|]. apply Forall_cons in IH as [IH1 IH].
      cbn [sum_list_with]. rewrite IHl by done. unfold member_len. by rewrite Hk, (IH1 b.2). }
    assert (length kvs = length k') as Hl by (by rewrite <- P; eapply Forall2_length).
    destruct kvs as [|kt kvs]; [by destruct k'|]. destruct k' as [|kt' k']; [done|]. rewrite !print_obj. cbn [length].
    f_equal. rewrite !length_app. f_equal. pose proof (members_len flags depth (kt :: kvs) ltac:(done)).
    pose proof (members_len flags depth (kt' :: k') ltac:(done)). rewrite Hl in *. lia.
Qed.

End printing.

(** ** The reader *)

Section load.
Context {X : Type} {env : var_env X} {jenv : json_env X env} {D B : Type}.
Context (funcs : Stream.ph_stream_funcs B) (rfuel : nat).
Context (inv : B -> Prop) (rest : B -> list Z) `{Hsrc : !StreamProofs.source funcs inv rest (fun _ => False)}.
Context (srefs : X -> positive -> Z) `{Henv : !VariantProofs.var_env_ok env srefs} `{Hplenty : !plenty env jenv srefs}.
Context (junk : nat -> list Z) (Hjunk : forall n, length (junk n) = n).
Context (strtod : list Z -> D * nat * bool) (decimal_point : Z).
Implicit Types v : vworld X D.

(** C4. The JSON reader accepts every text of the grammar within its limits: it
    returns a new variant with the value of the text, leaves all other variants
    as they were, keeps the reference counts exact, leaks no string, and reports
    no error. *)
Theorem json_load_accepts t x ws ws' lf fuel flags err s v roots :
  json strtod decimal_point t x -> Forall space ws -> Forall space ws' -> follows_tree t ws' -> top_ok flags t ->
  stm_at inv rest s (ws ++ x ++ ws') -> txt (ws ++ x ++ ws') -> var_wf v roots -> room (vars v) (zlen x) ->
  zlen x < 2 ^ 27 -> (length (ws ++ x ++ ws') < lf)%nat -> (length x <= fuel)%nat ->
  exists p v' s' err', ph_json_load_stream funcs rfuel strtod decimal_point junk lf fuel s flags err v =
      Ret (Some p, (v', s', err')) /\
    built srefs None 0 (p :: roots) v v' /\ means contents_of (vars v') t p /\ no_error err err'.
Proof.
  intros. destruct (json_load_ok funcs rfuel inv rest srefs junk Hjunk strtod decimal_point t x ws ws' lf fuel flags err s v roots)
    as (p & v' & s' & err' & E & Hb & _ & Hm & He & _); [done..|]. by exists p, v', s', err'.
Qed.

End load.

(** ** The writer *)

Section dump.
Context {X : Type} {env : var_env X} {D B : Type}.
Context (funcs : Stream.ph_stream_funcs B) (wfuel : nat).
Context (inv : B -> Prop) (log : B -> list Z) (cap : Z) `{Hsink : !StreamProofs.sink funcs inv log cap (fun _ => False)}.
Context (srefs : X -> positive -> Z) `{Henv : !VariantProofs.var_env_ok env srefs}.
Context (Halloc : forall n x, (mem_alloc n x).1 = true).
Context (strtod : list Z -> D * nat * bool) (decimal_point : Z) (fmt_17g : D -> list Z).
Implicit Types w : @JsonDump.dworld X D B.

(** The writer can start: its variants are well formed, and the stream works
    and has room for the text [bs]. *)
Record dump_ready (roots : list positive) (bs : list Z) w : Prop := {
  dr_wf : var_wf (JsonDump.dvars w) roots;
  dr_stm : StreamProofs.stm_ok (JsonDump.stm w);
  dr_inv : inv (Stream.cookie (JsonDump.stm w));
  dr_cap : zlen (StreamProofs.written log (JsonDump.stm w)) + zlen bs <= cap;
  dr_fuel : Stream.bufsize (JsonDump.stm w) + zlen bs < Z.of_nat wfuel;
}.

(** Everything but the stream's contents and the allocator is as before. *)
Record dumped (bs : list Z) w w' : Prop := {
  dd_vars : vars (JsonDump.dvars w') = vars (JsonDump.dvars w);
  dd_next : vnext (JsonDump.dvars w') = vnext (JsonDump.dvars w);
  dd_strs t : srefs (ext (JsonDump.dvars w')) t = srefs (ext (JsonDump.dvars w)) t;
  dd_stm : StreamProofs.stm_ok (JsonDump.stm w') /\ inv (Stream.cookie (JsonDump.stm w'));
  dd_text : StreamProofs.written log (JsonDump.stm w') = StreamProofs.written log (JsonDump.stm w) ++ bs;
}.

Lemma json_dump_ok t p fuel flags roots w :
  denotes contents_of (vars (JsonDump.dvars w)) t p -> printable strtod decimal_point fmt_17g t -> (height t <= fuel)%nat ->
  dump_ready roots (print fmt_17g flags 0 t) w ->
  exists t' w', JsonDump.ph_json_dump_stream funcs wfuel fmt_17g fuel p flags w = Ret (PH_OK, w') /\
    dumped (print fmt_17g flags 0 t') w w' /\ teq t t' /\
    (JsonDump.flag flags JsonDump.PH_JSON_SORT_KEYS = true -> sorted_tree t').
Proof.
  intros Hd Hp Hh [Hw Hs Hi Hc Hf].
  destruct (dump_value funcs wfuel inv log cap srefs Halloc fmt_17g (vars (JsonDump.dvars w)) (Stream.bufsize (JsonDump.stm w))
    strtod decimal_point (vw_body _ _ Hw) t p fuel flags 0%nat Hd Hp Hh) as (t' & Ht & Hso & Hwr).
  pose proof (print_len_teq fmt_17g flags t t' 0 Ht) as Hl.
  destruct (Hwr w) as (w' & E & [V1 V2 V3 V4] & [N1 N2] & O); [by split|by rewrite Hl|by rewrite Hl|].
  exists t', w'. split; [|done]. unfold JsonDump.ph_json_dump_stream. by step_with E.
Qed.

(** The JSON writer writes a JSON text of the value and changes no variant; the
    members of objects are in the order of their keys when the flags ask for it,
    and the text is ASCII when they ask for that. *)
Theorem json_dump_spec t p fuel flags roots w :
  denotes contents_of (vars (JsonDump.dvars w)) t p -> printable strtod decimal_point fmt_17g t -> (height t <= fuel)%nat ->
  dump_ready roots (print fmt_17g flags 0 t) w ->
  exists t' w' bs, JsonDump.ph_json_dump_stream funcs wfuel fmt_17g fuel p flags w = Ret (PH_OK, w') /\
    dumped bs w w' /\ bs = print fmt_17g flags 0 t' /\ json strtod decimal_point t' bs /\ teq t t' /\
    (JsonDump.flag flags JsonDump.PH_JSON_SORT_KEYS = true -> sorted_tree t') /\
    (JsonDump.flag flags JsonDump.PH_JSON_ENSURE_ASCII = true -> Forall (fun b => 0 < b < 128) bs).
Proof.
  intros Hd Hp Hh Hr. destruct (json_dump_ok t p fuel flags roots w Hd Hp Hh Hr) as (t' & w' & E & H1 & Ht & Hs).
  pose proof (printable_teq _ _ _ _ _ Ht Hp) as Hp'. exists t', w', (print fmt_17g flags 0 t'). split; [done|]. split; [done|]. split; [done|].
  split; [by apply print_json|]. split; [done|]. split; [done|]. eapply print_fits, Hp'.
Qed.

End dump.

(** ** Both *)

Section roundtrip.
Context {X : Type} {env : var_env X} {jenv : json_env X env} {D B B' : Type}.
Context (funcs : Stream.ph_stream_funcs B) (wfuel : nat).
Context (inv : B -> Prop) (log : B -> list Z) (cap : Z) `{Hsink : !StreamProofs.sink funcs inv log cap (fun _ => False)}.
Context (funcs' : Stream.ph_stream_funcs B') (rfuel : nat).
Context (inv' : B' -> Prop) (rest : B' -> list Z) `{Hsrc : !StreamProofs.source funcs' inv' rest (fun _ => False)}.
Context (srefs : X -> positive -> Z) `{Henv : !VariantProofs.var_env_ok env srefs} `{Hplenty : !plenty env jenv srefs}.
Context (junk : nat -> list Z) (Hjunk : forall n, length (junk n) = n).
Context (strtod : list Z -> D * nat * bool) (decimal_point : Z) (fmt_17g : D -> list Z).
Implicit Types w : @JsonDump.dworld X D B.
Implicit Types v : vworld X D.

Lemma teq_top (flags : Z) (t t' : tree D) : teq t t' -> top_ok flags t -> top_ok flags t'.
Proof. by destruct 1. Qed.
Lemma teq_follows (t t' : tree D) l : teq t t' -> follows_tree t l -> follows_tree t' l.
Proof. by destruct 1. Qed.

(** C3. Writing a value to a stream succeeds, and reading the text that was written,
    from any stream and into any well-formed world, succeeds and returns a
    variant with the same value, up to the order of the members of objects, for
    every combination of formatting flags. *)
Theorem json_roundtrip t p fuel flags roots w lf fuel' flags' err :
  denotes contents_of (vars (JsonDump.dvars w)) t p -> printable strtod decimal_point fmt_17g t -> (height t <= fuel)%nat ->
  dump_ready wfuel inv log cap roots (print fmt_17g flags 0 t) w ->
  top_ok flags' t -> follows_tree t [] -> zlen (print fmt_17g flags 0 t) < 2 ^ 27 ->
  (length (print fmt_17g flags 0 t) < lf)%nat -> (length (print fmt_17g flags 0 t) <= fuel')%nat ->
  exists w' text, JsonDump.ph_json_dump_stream funcs wfuel fmt_17g fuel p flags w = Ret (PH_OK, w') /\
    dumped inv log srefs text w w' /\
    forall s v roots', stm_at inv' rest s text -> var_wf v roots' -> room (vars v) (zlen text) ->
    exists q v' s' err', ph_json_load_stream funcs' rfuel strtod decimal_point junk lf fuel' s flags' err v =
        Ret (Some q, (v', s', err')) /\
      built srefs None 0 (q :: roots') v v' /\ means contents_of (vars v') t q /\ no_error err err'.
Proof.
  intros Hd Hp Hh Hr Htop Hfol Hlt Hlf Hf.
  destruct (json_dump_ok funcs wfuel inv log cap srefs plenty_alloc strtod decimal_point fmt_17g t p fuel flags roots w Hd Hp Hh Hr)
    as (t' & w' & E & H1 & Ht & _).
  pose proof (printable_teq _ _ _ _ _ Ht Hp) as Hp'. pose proof (print_len_teq fmt_17g flags t t' 0 Ht) as Hl.
  exists w', (print fmt_17g flags 0 t'). split; [done|]. split; [done|]. intros s v roots' Hs Hw Hm.
  destruct (json_load_ok funcs' rfuel inv' rest srefs junk Hjunk strtod decimal_point t' (print fmt_17g flags 0 t') [] [] lf fuel' flags' err s v roots')
    as (q & v' & s' & err' & E' & Hb & _ & (t2 & T2 & Hden) & Hn & _).
  - by apply print_json.
  - done.
  - done.
  - by eapply teq_follows.
  - by eapply teq_top.
  - by rewrite app_nil_r.
  - rewrite app_nil_r. eapply print_fits, Hp'.
  - done.
  - done.
  - by rewrite Hl.
  - rewrite app_nil_r. cbn [app]. by rewrite Hl.
  - by rewrite Hl.
  - exists q, v', s', err'. split; [done|]. split; [done|]. split; [|done]. exists t2. split; [by eapply teq_trans|done].
Qed.

End roundtrip.

(** ** An example *)

Definition demo_jenv : json_env (gmap positive Z) demo_env :=
  {| string_make bs x := (Some (encode bs), string_addref (var_env := demo_env) (encode bs) x) |}.

Lemma demo_json_plenty : plenty demo_env demo_jenv demo_srefs.
Proof.
  split; [done|done|]. intros bs x. eexists _, _. split; [reflexivity|]. split; [cbn; by rewrite decode_encode|].
  intros t. apply demo_env_ok.
Qed.

(** The real 15 is written as 1.5. *)
Definition demo_strtod (l : list Z) : Z * nat * bool := (15, 3%nat, false).
Definition demo_fmt (d : Z) : list Z := [49; 46; 53].
Definition demo_junk (n : nat) : list Z := replicate n 7.

Definition demo_file (l : list Z) : Stream.ph_stream StreamProofs.memfile :=
  Stream.Stm (StreamProofs.File l 0) 0 None None None None None (replicate 16 0) 16 0 false.

Lemma demo_file_at l : stm_at StreamProofs.mf_inv StreamProofs.mf_rest (demo_file l) l.
Proof.
  split; [by split|]. split; [unfold StreamProofs.mf_inv; cbn; lia|]. by split.
Qed.

Lemma demo_real : spells demo_strtod 46 (KReal 15) [49; 46; 53].
Proof.
  apply (sp_real demo_strtod 46 false [49] [46; 53] [] 15); [|constructor|constructor|done|by intros b x Hb].
  - by apply ip_digits; [|constructor].
  - unfold digit; lia.
  - constructor.
Qed.

Definition start_world : vworld (gmap positive Z) Z := VWorld statics 4 ∅.

Lemma start_wf : var_wf (env := demo_env) start_world [].
Proof.
  apply var_wf_checked.
  - apply (bool_decide_unpack _). by vm_compute.
  - done.
  - intros p v Hv. unfold start_world, statics in Hv. cbn [vars] in Hv.
    repeat (apply lookup_insert_Some in Hv as [[<- <-]|[_ Hv]]; [by split; [|unfold is_singleton, is_static; naive_solver]|]).
    apply lookup_singleton_Some in Hv as [<- <-]. by split; [|unfold is_singleton, is_static; naive_solver].
  - intros p [->|[->| ->]]; by eexists.
Qed.

(** [[true, {"k": 1.5, "abc": -7}]] *)
Definition demo_tree : tree Z := TArr [TBool true; TObj [([107], TReal 15); ([97; 98; 99], TInt (-7))]].

Lemma demo_printable : printable demo_strtod 46 demo_fmt demo_tree.
Proof.
  assert (forall l, ascii l -> zlen l < 100 -> txt l /\ zlen l < 2 ^ 32 - 4) as Hs by (intros l Hl Hn; split; [by apply ascii_txt|lia]).
  split; [done|]. split; [|done]. split; [apply (bool_decide_unpack _); by vm_compute|].
  split; [apply Hs; [by repeat constructor|done]|]. split; [eexists; split; [reflexivity|apply demo_real]|].
  split; [apply Hs; [by repeat constructor|done]|]. by split.
Qed.

Lemma json_load_accepts_witness :
  exists p v' s' err', ph_json_load_stream (jenv := demo_jenv) StreamProofs.memfile_funcs 9 demo_strtod 46 demo_junk 40 40
      (demo_file ([32] ++ print demo_fmt 0 0 demo_tree ++ [10])) 0 None start_world = Ret (Some p, (v', s', err')) /\
    built (env := demo_env) demo_srefs None 0 [p] start_world v' /\
    means (contents_of (var_env := demo_env)) (vars v') demo_tree p /\ no_error None err'.
Proof.
  pose proof demo_env_ok. pose proof demo_json_plenty.
  assert (Forall space [32] /\ Forall space [10]) as [H1 H2] by (unfold space; repeat constructor; lia).
  refine (json_load_accepts (jenv := demo_jenv) StreamProofs.memfile_funcs 9 StreamProofs.mf_inv StreamProofs.mf_rest demo_srefs
    demo_junk _ demo_strtod 46 demo_tree (print demo_fmt 0 0 demo_tree) [32] [10] 40 40 0 None _ start_world []
    (print_json demo_strtod 46 demo_fmt 0 demo_tree 0 demo_printable) H1 H2 _ _ (demo_file_at _) _ start_wf _ _ _ _).
  - apply StreamProofs.memfile_source.
  - intros n. apply length_replicate.
  - done.
  - done.
  - apply ascii_txt. apply (bool_decide_unpack _). by vm_compute.
  - intros p v Hp Hv. destruct Hp as [->|[->| ->]]; injection Hv as <-; by vm_compute.
  - by vm_compute.
  - by apply Nat.ltb_lt.
  - by apply Nat.leb_le.
Defined.

(** The array 6 of the example of variants. *)
Definition demo_array : tree Z := TArr [TInt 7; TStr [97; 98; 99]; TBool true].

Lemma demo_array_ok :
  denotes (contents_of (var_env := demo_env)) demo_vars demo_array 6 /\ printable demo_strtod 46 demo_fmt demo_array.
Proof.
  split.
  - eexists. split; [reflexivity|]. split; [by eexists|]. split; [by eexists|]. split; [by eexists|done].
  - split; [done|]. split; [|done]. split; [|done]. apply ascii_txt. by repeat constructor.
Qed.

Definition demo_dump : @JsonDump.dworld (gmap positive Z) Z StreamProofs.memfile := JsonDump.DWorld demo_world (demo_file []).

Lemma demo_dump_ready flags :
  zlen (print demo_fmt flags 0 demo_array) < 90 ->
  dump_ready (env := demo_env) 120 StreamProofs.mf_inv StreamProofs.mf_log (2 ^ 62) [6; 8; 7; 5]%positive
    (print demo_fmt flags 0 demo_array) demo_dump.
Proof.
  intros Hl. split.
  - apply demo_vars_wf.
  - by split.
  - by split.
  - change (zlen (StreamProofs.written StreamProofs.mf_log (JsonDump.stm demo_dump))) with 0. lia.
  - change (Stream.bufsize (JsonDump.stm demo_dump)) with 16. lia.
Qed.

Lemma json_dump_spec_witness :
  exists t' w' bs, JsonDump.ph_json_dump_stream (env := demo_env) StreamProofs.memfile_funcs 120 demo_fmt 2 6
      (Z.lor JsonDump.PH_JSON_SORT_KEYS JsonDump.PH_JSON_ENSURE_ASCII) demo_dump = Ret (PH_OK, w') /\
    dumped StreamProofs.mf_inv StreamProofs.mf_log demo_srefs bs demo_dump w' /\
    bs = print demo_fmt (Z.lor JsonDump.PH_JSON_SORT_KEYS JsonDump.PH_JSON_ENSURE_ASCII) 0 t' /\
    json demo_strtod 46 t' bs /\ teq demo_array t' /\
    (JsonDump.flag (Z.lor JsonDump.PH_JSON_SORT_KEYS JsonDump.PH_JSON_ENSURE_ASCII) JsonDump.PH_JSON_SORT_KEYS = true -> sorted_tree t') /\
    (JsonDump.flag (Z.lor JsonDump.PH_JSON_SORT_KEYS JsonDump.PH_JSON_ENSURE_ASCII) JsonDump.PH_JSON_ENSURE_ASCII = true ->
     Forall (fun b => 0 < b < 128) bs).
Proof.
  pose proof demo_env_ok. refine (json_dump_spec (env := demo_env) StreamProofs.memfile_funcs 120 StreamProofs.mf_inv StreamProofs.mf_log
    (2 ^ 62) demo_srefs _ demo_strtod 46 demo_fmt demo_array 6 2 _ _ demo_dump
    (proj1 demo_array_ok) (proj2 demo_array_ok) _ (demo_dump_ready _ _)).
  - apply StreamProofs.memfile_sink.
  - done.
  - by apply Nat.leb_le.
  - by vm_compute.
Defined.

Lemma json_roundtrip_witness :
  exists w' text, JsonDump.ph_json_dump_stream (env := demo_env) StreamProofs.memfile_funcs 120 demo_fmt 2 6 0 demo_dump = Ret (PH_OK, w') /\
    dumped StreamProofs.mf_inv StreamProofs.mf_log demo_srefs text demo_dump w' /\
    forall s v roots', stm_at StreamProofs.mf_inv StreamProofs.mf_rest s text -> var_wf (env := demo_env) v roots' ->
    room (vars v) (zlen text) ->
    exists q v' s' err', ph_json_load_stream (jenv := demo_jenv) StreamProofs.memfile_funcs 9 demo_strtod 46 demo_junk 40 40 s 0 None v =
        Ret (Some q, (v', s', err')) /\
      built (env := demo_env) demo_srefs None 0 (q :: roots') v v' /\
      means (contents_of (var_env := demo_env)) (vars v') demo_array q /\ no_error None err'.
Proof.
  pose proof demo_env_ok. pose proof demo_json_plenty.
  refine (json_roundtrip (jenv := demo_jenv) StreamProofs.memfile_funcs 120 StreamProofs.mf_inv StreamProofs.mf_log
    (2 ^ 62) StreamProofs.memfile_funcs 9 StreamProofs.mf_inv StreamProofs.mf_rest demo_srefs demo_junk _ demo_strtod 46 demo_fmt
    demo_array 6 2 0 _ demo_dump 40 40 0 None
    (proj1 demo_array_ok) (proj2 demo_array_ok) _ (demo_dump_ready _ _) _ _ _ _ _).
  - apply StreamProofs.memfile_sink.
  - apply StreamProofs.memfile_source.
  - intros n. apply length_replicate.
  - by apply Nat.leb_le.
  - by vm_compute.
  - done.
  - done.
  - by vm_compute.
  - by apply Nat.ltb_lt.
  - by apply Nat.leb_le.
Defined.

End JsonRoundTrip.
