(* ===== verification/VarPath.v ===== *)
(** * Paths into variants (variant/path.c)

    [ph_var_jsonpath_get] cuts a copy of the path into pieces, in place, and
    follows them from the root.  A path that is spelled from keys and indices
    leads to the value these select. *)

From Stdlib Require Import ZArith Lia.
From stdpp Require Import base numbers list gmap.
From S2P Require Import Prelude SysUtil PhString HashTable HashTableProofs StringKeys.
From S2P Require Import Variant VariantProofs VariantOps VariantGrow JsonLoad JsonDump JsonScan JsonParse JsonPrint JsonRoundTrip.

Module VarPath.
Import VariantGrow JsonScan.
Import HashTable HashTableProofs.

(** [strpbrk] on the bytes [s] from index [i] on: the index of the first byte
    in [accept]. *)
Fixpoint strpbrk (s accept : list Z) (i : nat) : option nat :=
  match s with
  | [] => None
  | b :: s => if b =? 0 then None
              else if bool_decide (b ∈ accept) then Some i
              else strpbrk s accept (S i)
  end.

Definition isspace (b : Z) : bool := (b =? 32) || ((9 <=? b) && (b <=? 13)).

(** The value of a digit or letter, 36 for other characters. *)
Definition digit_value (b : Z) : Z :=
  if (48 <=? b) && (b <=? 57) then b - 48
  else if (97 <=? b) && (b <=? 122) then b - 87
  else if (65 <=? b) && (b <=? 90) then b - 55
  else 36.

Fixpoint skip_spaces (s : list Z) : list Z :=
  match s with b :: s' => if isspace b then skip_spaces s' else s | [] => [] end.

Fixpoint base_digits (base : Z) (s : list Z) (v : Z) : Z * list Z :=
  match s with
  | b :: s' => if digit_value b <? base then base_digits base s' (base * v + digit_value b) else (v, s)
  | [] => (v, [])
  end.

(** [strtol(s, &end, 0)]: the value and what is left at [end]. *)
Definition strtol (s : list Z) : Z * list Z :=
  let '(neg, d) := match skip_spaces s with
                   | 45 :: r => (true, r)
                   | 43 :: r => (false, r)
                   | r => (false, r)
                   end in
  let '(base, d) := match d with
                    | 48 :: x :: h :: r =>
                        if ((x =? 120) || (x =? 88)) && (digit_value h <? 16) then (16, h :: r) else (8, d)
                    | 48 :: _ => (8, d)
                    | _ => (10, d)
                    end in
  match d with
  | b :: _ =>
      if digit_value b <? base then
        let '(m, e) := base_digits base d 0 in
        (Z.min (2 ^ 63 - 1) (Z.max (- 2 ^ 63) (if (neg : bool) then - m else m)), e)
      else (0, s)
  | [] => (0, s)
  end.

(** [expect]: path_delims is ".[" and array_close is "]". *)
Inductive expect_t := path_delims | array_close.
Definition chars (e : expect_t) : list Z := match e with path_delims => [46; 91] | array_close => [93] end.
Definition root_chr : Z := 36.
Definition array_open : Z := 91.
Definition sizeof_local_buf : Z := 128.

Section path.
Context {X : Type} {env : var_env X} {D : Type}.
(** The string object on the stack of [ph_var_object_get_cstr]. *)
Context (kstr : list Z -> positive).
Abbreviation VM := (M (vworld X D)).

(** The loop.  [buf] is the copy of the path with its terminator; [peek] and
    [token] are indices into it. *)
Fixpoint path_loop (fuel : nat) (buf : list Z) (peek token : option nat) (expect : expect_t) (delim : Z)
    (cursor : option positive) : VM (option positive) :=
  match peek, cursor with
  | Some pk, Some cur =>
      match buf !! pk with
      | None => fault
      | Some b =>
          if b =? 0 then ret cursor
          else
            match fuel with
            | O => fault
            | S fuel =>
                let continue buf peek delim :=
                  match expect with
                  | path_delims =>
                      c <-- (match token with
                             | Some t => v <-- load cur ;; ret (ph_var_object_get_cstr v (kstr (JsonLoad.cstr (drop t buf))))
                             | None => ret cursor
                             end) ;;
                      path_loop fuel buf peek peek (if delim =? array_open then array_close else path_delims) delim c
                  | array_close =>
                      match token with
                      | None => fault
                      | Some t =>
                          let '(idx, e) := strtol (JsonLoad.cstr (drop t buf)) in
                          match e with
                          | _ :: _ => ret None
                          | [] => v <-- load cur ;;
                                  path_loop fuel buf peek None path_delims delim (ph_var_array_get v (u32 (u64 idx)))
                          end
                      end
                  end in
                match strpbrk (drop pk buf) (chars expect) pk with
                | Some q =>
                    match token with
                    | None => if negb (q =? pk)%nat then ret None
                              else continue (<[q := 0]> buf) (Some (S q)) (buf !!! q)
                    | Some _ => continue (<[q := 0]> buf) (Some (S q)) (buf !!! q)
                    end
                | None =>
                    match expect, token with
                    | path_delims, Some _ => continue buf None delim
                    | _, _ => ret None
                    end
                end
            end
      end
  | _, _ => ret cursor
  end.

(** [path] is a C string; a long one is copied with [strdup], which fails if
    [strdup_ok] is false. *)
Definition ph_var_jsonpath_get (strdup_ok : bool) (var : option positive) (path : option (list Z)) : VM (option positive) :=
  match var, path with
  | Some var, Some (r :: path') =>
      if negb (r =? root_chr) then ret None
      else
        let pathlen := u32 (zlen (r :: path')) in
        let buf := (r :: path') ++ [0] in
        if (if pathlen <? sizeof_local_buf - 1 then zlen buf <=? sizeof_local_buf else strdup_ok) then
          path_loop (length buf) buf (Some 1%nat) None path_delims 0 (Some var)
        else fault
  | _, _ => ret None
  end.


(** ** What a path selects *)

Inductive step_t := SKey (k : list Z) | SIndex (i : Z).

(** The value of the first member with the key. *)
Definition tree_get (k : list Z) (kvs : list (list Z * tree D)) : option (tree D) :=
  snd <$> List.find (fun kt => bool_decide (k = kt.1)) kvs.

Definition select (t : tree D) (s : step_t) : option (tree D) :=
  match s, t with
  | SKey k, TObj kvs => tree_get k kvs
  | SIndex i, TArr ts => ts !! Z.to_nat i
  | _, _ => None
  end.

Fixpoint walk (t : tree D) (steps : list step_t) : option (tree D) :=
  match steps with
  | [] => Some t
  | s :: steps => t ← select t s; walk t steps
  end.

(** The text of the steps behind the root. *)
Definition step_text (s : step_t) : list Z :=
  match s with SKey k => 46 :: k | SIndex i => 91 :: JsonDump.dec_digits 10 i ++ [93] end.
Definition steps_text (steps : list step_t) : list Z := mjoin (step_text <$> steps).

(** Keys of a path are not empty and have no '.', '[' or NUL. *)
Definition step_ok (s : step_t) : Prop :=
  match s with
  | SKey k => k <> [] /\ Forall (fun b => b <> 0 /\ b <> 46 /\ b <> 91) k
  | SIndex i => 0 <= i < 2 ^ 32
  end.

Lemma strpbrk_app s accept i c r :
  Forall (fun b => b <> 0 /\ b ∉ accept) s -> c <> 0 -> c ∈ accept -> strpbrk (s ++ c :: r) accept i = Some (i + length s)%nat.
Proof.
  intros Hs Hc Ha. revert i. induction Hs as [|b s [Hb Hn] _ IH]; intros i; cbn [strpbrk app length].
  - rewrite (proj2 (Z.eqb_neq c 0)), bool_decide_eq_true_2 by done. f_equal. lia.
  - rewrite (proj2 (Z.eqb_neq b 0)), bool_decide_eq_false_2, IH by done. f_equal. lia.
Qed.

Lemma strpbrk_none s accept i : Forall (fun b => b <> 0 /\ b ∉ accept) s -> strpbrk (s ++ [0]) accept i = None.
Proof.
  intros Hs. revert i. induction Hs as [|b s [Hb Hn] _ IH]; intros i; cbn [strpbrk app]; [done|].
  by rewrite (proj2 (Z.eqb_neq b 0)), bool_decide_eq_false_2, IH by done.
Qed.

Lemma cstr_cut s r : Forall (fun b => b <> 0) s -> JsonLoad.cstr (s ++ 0 :: r) = s.
Proof. induction 1 as [|b s Hb _ IH]; [done|]. cbn. rewrite (proj2 (Z.eqb_neq b 0)) by done. by rewrite IH. Qed.

(** [strtol] reads decimal digits. *)
Lemma base_digits_ok ds v : Forall digit ds -> base_digits 10 ds v = (fold_left (fun v c => 10 * v + (c - 48)) ds v, []).
Proof.
  intros Hds. revert v. induction Hds as [|d ds Hd _ IH]; intros v; [done|]. cbn [base_digits fold_left]. unfold digit in Hd.
  assert (digit_value d = d - 48) as -> by (unfold digit_value; by rewrite (proj2 (Z.leb_le 48 d)), (proj2 (Z.leb_le d 57)) by lia).
  by rewrite (proj2 (Z.ltb_lt _ _)), IH by lia.
Qed.

Lemma strtol_ok ds : int_part ds -> decimal ds < 2 ^ 63 -> strtol ds = (decimal ds, []).
Proof.
  intros Hi Hlt. destruct Hi as [|d ds Hd Hds]; [done|]. assert (Forall digit (d :: ds)) as Hall by (constructor; [unfold digit; lia|done]).
  assert (forall l v, Forall digit l -> 0 <= v -> 0 <= fold_left (fun v c => 10 * v + (c - 48)) l v) as Hpos.
  { intros l v Hl. revert v. induction Hl as [|c l Hc _ IH]; intros v Hv; [done|]. cbn. apply IH. unfold digit in Hc. lia. }
  specialize (Hpos (d :: ds) 0 Hall ltac:(lia)). unfold decimal in Hlt.
  assert (digit_value d <? 10 = true) as Hdv.
  { unfold digit_value. rewrite (proj2 (Z.leb_le 48 d)), (proj2 (Z.leb_le d 57)) by lia. cbn [andb]. apply Z.ltb_lt. lia. }
  pose proof (base_digits_ok (d :: ds) 0 Hall) as Hb.
  assert (d = 49 \/ d = 50 \/ d = 51 \/ d = 52 \/ d = 53 \/ d = 54 \/ d = 55 \/ d = 56 \/ d = 57) as Hc by lia.
  repeat destruct Hc as [->|Hc]; [..|subst d]; unfold strtol; cbn [skip_spaces isspace Z.eqb Z.leb orb andb Z.compare Pos.eqb Pos.compare Pos.compare_cont].
  all: rewrite Hdv, Hb; unfold decimal; f_equal; lia.
Qed.

Context (Hkstr : forall k, contents_of (kstr k) = k).
Abbreviation denotes := (denotes contents_of).
Implicit Types w : vworld X D.

(** [q] is the variant with the value [r], or there is none. *)
Definition reaches (h : gmap positive (ph_variant D)) (r : option (tree D)) (q : option positive) : Prop :=
  match r, q with Some t, Some q => denotes h t q | None, None => True | _, _ => False end.

Lemma denotes_kind (h : gmap positive (ph_variant D)) t p v : denotes h t p -> h !! p = Some v ->
  match t, body v with
  | TObj _, PH_VAR_OBJECT _ | TArr _, PH_VAR_ARRAY _ _ => True
  | TObj _, _ | TArr _, _ | _, PH_VAR_OBJECT _ | _, PH_VAR_ARRAY _ _ => False
  | _, _ => True
  end.
Proof.
  intros Hd Hp. destruct t; [..|apply denotes_arr in Hd as (u & al & ps & Hu & Hb & _)|apply denotes_obj in Hd as (u & o & Hu & Hb & _)].
  1-5: destruct Hd as (u & Hu & Hb); rewrite Hp in Hu; injection Hu as <-; try case_match; by destruct (body v).
  all: rewrite Hp in Hu; injection Hu as <-; by rewrite Hb.
Qed.

(** Looking up a key. *)
Lemma key_reaches w roots t p v k :
  var_wf w roots -> denotes (vars w) t p -> vars w !! p = Some v ->
  reaches (vars w) (select t (SKey k)) (ph_var_object_get_cstr (X := X) v (kstr k)).
Proof.
  intros Hw Hd Hp. pose proof (denotes_kind _ _ _ _ Hd Hp) as Hk. unfold ph_var_object_get_cstr.
  destruct t as [| | | | | |kvs]; cbn [select];
    try (unfold ph_var_object_get; destruct (body v); done).
  apply denotes_obj in Hd as (u & o & Hu & Hb & Hall). rewrite Hp in Hu. injection Hu as <-. rewrite (object_get_dict w roots p v o _ Hw Hp Hb).
  unfold dict, dict_of, tree_get. cbn [table oval_ht]. clear Hb Hk.
  induction Hall as [|kt e kvs es [Hk Hm] _ IH]; [done|]. cbn [List.find].
  rewrite keq_contents, Hkstr, Hk. destruct (bool_decide (k = kt.1)); [done|apply IH].
Qed.

Lemma index_reaches w t p v i :
  denotes (vars w) t p -> vars w !! p = Some v -> 0 <= i ->
  reaches (vars w) (select t (SIndex i)) (ph_var_array_get v i).
Proof.
  intros Hd Hp Hi. pose proof (denotes_kind _ _ _ _ Hd Hp) as Hk. unfold ph_var_array_get.
  destruct t as [| | | | |ts|]; cbn [select]; try (by destruct (body v)).
  apply denotes_arr in Hd as (u & al & ps & Hu & Hb & Hall). rewrite Hp in Hu. injection Hu as <-. rewrite Hb.
  pose proof (Forall2_length _ _ _ Hall) as Hl. case_bool; zbool.
  - by rewrite (lookup_ge_None_2 ts) by lia.
  - destruct (lookup_lt_is_Some_2 ts (Z.to_nat i)) as [t Ht]; [lia|].
    destruct (Forall2_lookup_l _ _ _ _ _ Hall Ht) as (q & Hq & Hdq). by rewrite Ht, Hq.
Qed.

(** What comes behind the first character of a step. *)
Definition step_open (s : step_t) : Z := match s with SKey _ => 46 | SIndex _ => 91 end.
Definition step_body (s : step_t) : list Z := match s with SKey k => k | SIndex i => JsonDump.dec_digits 10 i ++ [93] end.
Definition step_expect (s : step_t) : expect_t := match s with SKey _ => path_delims | SIndex _ => array_close end.

Lemma steps_text_cons s steps : steps_text (s :: steps) = step_open s :: step_body s ++ steps_text steps.
Proof. by destruct s. Qed.

Lemma expect_open s : (if step_open s =? array_open then array_close else path_delims) = step_expect s.
Proof. by destruct s. Qed.

Lemma open_ok s : step_open s <> 0 /\ step_open s ∈ chars path_delims.
Proof. destruct s; cbn; set_solver. Qed.

Lemma open_here s r i : strpbrk (step_open s :: r) (chars path_delims) i = Some i.
Proof. destruct (open_ok s). rewrite (strpbrk_app [] _ i (step_open s) r) by done. cbn. f_equal. lia. Qed.

Lemma insert_middle {A} (pre : list A) (b c : A) r : <[length pre := c]> (pre ++ b :: r) = pre ++ c :: r.
Proof. by rewrite insert_app_r_alt, Nat.sub_diag by lia. Qed.

Lemma path_loop_null fuel buf pk tok e d w : path_loop fuel buf pk tok e d None w = Ret (None, w).
Proof. by destruct fuel, pk. Qed.

Lemma load_then {A C} w p v (g : ph_variant D -> C) (f : C -> VM A) :
  vars w !! p = Some v -> (c <-- (v <-- load p ;; ret (g v)) ;; f c) w = f (g v) w.
Proof. intros Hv. unfold bind. by rewrite (load_eq w p v Hv). Qed.

(** The loop behind [pre], inside the step [s]. *)
Definition inside_ok w (s : step_t) (steps : list step_t) : Prop :=
  forall fuel pre cur t, denotes (vars w) t cur -> (length (step_body s) + length (steps_text steps) <= fuel)%nat ->
  exists q, path_loop fuel (pre ++ step_body s ++ steps_text steps ++ [0]) (Some (length pre)) (Some (length pre))
      (step_expect s) (step_open s) (Some cur) w = Ret (q, w) /\
    reaches (vars w) (t ← select t s; walk t steps) q.

(** The loop between two steps. *)
Definition between_ok w (steps : list step_t) : Prop :=
  forall fuel pre cur t d, denotes (vars w) t cur -> (length (steps_text steps) <= fuel)%nat ->
  exists q, path_loop fuel (pre ++ steps_text steps ++ [0]) (Some (length pre)) None path_delims d (Some cur) w = Ret (q, w) /\
    reaches (vars w) (walk t steps) q.

Lemma denotes_live (h : gmap positive (ph_variant D)) t p : denotes h t p -> exists v, h !! p = Some v.
Proof. destruct t; intros (v & Hv & _); by exists v. Qed.

Lemma between_step w steps : (forall s steps', steps = s :: steps' -> inside_ok w s steps') -> between_ok w steps.
Proof.
  intros Hin fuel pre cur t d Hd Hf. destruct steps as [|s steps].
  - exists (Some cur). cbn [steps_text fmap list_fmap mjoin list_join app]. split; [|done].
    destruct fuel; cbn [path_loop]; by rewrite list_lookup_middle.
  - rewrite steps_text_cons in *. cbn [length app] in *. rewrite length_app in Hf.
    destruct fuel as [|fuel]; [lia|]. cbn [path_loop]. rewrite list_lookup_middle by done.
    assert (step_open s =? 0 = false) as -> by (by destruct s).
    rewrite drop_app_length, open_here, Nat.eqb_refl. cbn [negb].
    rewrite list_lookup_total_middle, insert_middle by done. rewrite expect_open.
    destruct (Hin s steps eq_refl fuel (pre ++ [0]) cur t Hd) as (q & E & Hq); [lia|].
    exists q. split; [|done]. unfold bind, ret. rewrite length_app in E. cbn [length] in E.
    rewrite Nat.add_1_r, <- !app_assoc in E. rewrite <- app_assoc. exact E.
Qed.

(** A key up to the next step, or to the end. *)
Lemma inside_key w roots k steps :
  var_wf w roots -> step_ok (SKey k) -> (forall s steps', steps = s :: steps' -> inside_ok w s steps') ->
  inside_ok w (SKey k) steps.
Proof.
  intros Hw [Hne Hk] Hin fuel pre cur t Hd Hf. cbn [step_body step_expect] in *.
  destruct (denotes_live _ _ _ Hd) as [v Hv]. pose proof (key_reaches w roots t cur v k Hw Hd Hv) as Hr.
  assert (Forall (fun b => b <> 0) k) as Hnz by (eapply Forall_impl; [exact Hk|]; by intros b [H _]).
  assert (Forall (fun b => b <> 0 /\ b ∉ chars path_delims) k) as Hkd.
  { eapply Forall_impl; [exact Hk|]. cbn. intros b (H1 & H2 & H3). split; [done|]. set_solver. }
  destruct k as [|b k]; [done|]. destruct fuel as [|fuel]; [cbn [length] in Hf; lia|]. cbn [path_loop].
  rewrite <- app_comm_cons, list_lookup_middle by done. assert (b <> 0) as Hb by (by inversion Hnz).
  rewrite (proj2 (Z.eqb_neq b 0)), drop_app_length, app_comm_cons by done.
  destruct steps as [|s steps].
  - cbn [steps_text fmap list_fmap mjoin list_join app]. rewrite app_comm_cons, strpbrk_none by done.
    rewrite (load_then w cur v _ _ Hv), cstr_cut by done.
    exists (ph_var_object_get_cstr (X := X) v (kstr (b :: k))). split; [by destruct fuel|].
    cbn [walk]. by destruct (select t _).
  - rewrite steps_text_cons in *. destruct (open_ok s) as [Ho1 Ho2].
    rewrite <- !app_comm_cons, (app_comm_cons k _ b), (strpbrk_app (b :: k)) by done.
    rewrite <- (length_app pre (b :: k)), app_assoc, list_lookup_total_middle, insert_middle, expect_open by done.
    rewrite (load_then w cur v _ _ Hv), <- app_assoc, drop_app_length, cstr_cut by done.
    destruct (ph_var_object_get_cstr v _) as [c|], (select t (SKey (b :: k))) as [t'|]; try done.
    2:{ exists None. by rewrite path_loop_null. }
    destruct (Hin s steps eq_refl fuel (pre ++ (b :: k) ++ [0]) c t' Hr) as (q & E & Hq).
    { cbn [length] in Hf. rewrite length_app in Hf. lia. }
    exists q. split; [|done]. replace (length (pre ++ (b :: k) ++ [0])) with (S (length (pre ++ b :: k))) in E.
    2:{ rewrite (app_assoc pre), (length_app _ [0]). cbn [length]. lia. }
    rewrite <- !app_assoc in E. rewrite <- !app_assoc. exact E.
Qed.

(** An index up to the bracket. *)
Lemma inside_index w i steps :
  step_ok (SIndex i) -> between_ok w steps -> inside_ok w (SIndex i) steps.
Proof.
  intros Hi Hbt fuel pre cur t Hd Hf. cbn [step_body step_expect step_ok] in *.
  destruct (JsonPrint.dec_digits_ok 10 i) as (Hip & Hdec & _ & _); [change (10 ^ Z.of_nat 10) with 10000000000; lia|lia|].
  set (ds := JsonDump.dec_digits 10 i) in *. destruct (int_part_digits ds Hip) as [Hds Hne].
  assert (Forall (fun b => b <> 0) ds) as Hnz by (eapply Forall_impl; [exact Hds|]; unfold digit; cbn; lia).
  assert (Forall (fun b => b <> 0 /\ b ∉ chars array_close) ds) as Hkd.
  { eapply Forall_impl; [exact Hds|]. unfold digit. cbn. intros b Hb. split; [lia|].
    intros ->%list_elem_of_singleton. lia. }
  destruct (denotes_live _ _ _ Hd) as [v Hv]. pose proof (index_reaches w t cur v i Hd Hv ltac:(lia)) as Hr.
  rewrite !length_app in Hf. cbn [length] in Hf. destruct fuel as [|fuel]; [lia|]. cbn [path_loop].
  clearbody ds. destruct ds as [|b ds]; [done|]. rewrite <- !app_assoc, <- app_comm_cons, list_lookup_middle by done.
  assert (b <> 0) as Hb by (by inversion Hnz). rewrite (proj2 (Z.eqb_neq b 0)), drop_app_length, app_comm_cons by done.
  change ([93] ++ steps_text steps ++ [0]) with (93 :: steps_text steps ++ [0]).
  assert (strpbrk ((b :: ds) ++ 93 :: steps_text steps ++ [0]) (chars array_close) (length pre) = Some (length pre + length (b :: ds))%nat)
    as -> by (apply strpbrk_app; [done|done|by left]).
  rewrite <- (length_app pre (b :: ds)), app_assoc, list_lookup_total_middle, insert_middle by done.
  rewrite <- app_assoc, drop_app_length, cstr_cut, strtol_ok, Hdec by (done || lia).
  unfold bind at 1. rewrite (load_eq w cur v Hv). rewrite (wrapU_small 64), (wrapU_small 32) by lia.
  destruct (ph_var_array_get v i) as [c|], (select t (SIndex i)) as [t'|]; try done.
  2:{ exists None. by rewrite path_loop_null. }
  destruct (Hbt fuel (pre ++ (b :: ds) ++ [0]) c t' 93 Hr) as (q & E & Hq); [lia|].
  exists q. split; [|done]. replace (length (pre ++ (b :: ds) ++ [0])) with (S (length (pre ++ b :: ds))) in E.
  2:{ rewrite (app_assoc pre), (length_app _ [0]). cbn [length]. lia. }
  rewrite <- !app_assoc in E. exact E.
Qed.

Lemma inside_all w roots steps : var_wf w roots -> Forall step_ok steps ->
  forall s, step_ok s -> inside_ok w s steps.
Proof.
  intros Hw. induction 1 as [|s' steps Hs' Hs IH]; intros s Hok.
  all: destruct s as [k|i].
  - by eapply inside_key.
  - apply inside_index; [done|]. by apply between_step.
  - eapply inside_key; [done|done|]. intros s steps2 [= <- <-]. by apply IH.
  - apply inside_index; [done|]. apply between_step. intros s steps2 [= <- <-]. by apply IH.
Qed.

Lemma jsonpath_ok w roots t p steps strdup_ok :
  var_wf w roots -> denotes (vars w) t p -> Forall step_ok steps -> zlen (steps_text steps) < 2 ^ 32 - 1 ->
  (126 <= zlen (steps_text steps) -> strdup_ok = true) ->
  exists q, ph_var_jsonpath_get strdup_ok (Some p) (Some (root_chr :: steps_text steps)) w = Ret (q, w) /\
    reaches (vars w) (walk t steps) q.
Proof.
  intros Hw Hd Hs Hlen Hdup. unfold ph_var_jsonpath_get. rewrite Z.eqb_refl. cbn [negb].
  cbn [length]. rewrite (wrapU_small 32) by lia.
  assert ((if Z.of_nat (S (length (steps_text steps))) <? sizeof_local_buf - 1
    then zlen ((root_chr :: steps_text steps) ++ [0]) <=? sizeof_local_buf else strdup_ok) = true) as ->.
  { unfold sizeof_local_buf. destruct (Z.ltb_spec (Z.of_nat (S (length (steps_text steps)))) (128 - 1)).
    - rewrite length_app. cbn [length]. apply Z.leb_le. lia.
    - apply Hdup. lia. }
  assert (between_ok w steps) as Hbt.
  { apply between_step. intros s steps' ->. apply Forall_cons in Hs as [Hs1 Hs2]. by eapply inside_all. }
  destruct (Hbt (length ((root_chr :: steps_text steps) ++ [0])) [root_chr] p t 0 Hd) as (q & E & Hq).
  { rewrite length_app. cbn [length]. lia. }
  by exists q.
Qed.

(** C29. A path of keys and indexes selects in a variant exactly the part that the
    same steps select in its value, or nothing if they do not apply, without
    changing any variant; the loop over the path terminates. *)
Theorem jsonpath_selects w roots t p steps strdup_ok :
  var_wf w roots -> denotes (vars w) t p -> Forall step_ok steps -> zlen (steps_text steps) < 2 ^ 32 - 1 ->
  (126 <= zlen (steps_text steps) -> strdup_ok = true) ->
  exists q, ph_var_jsonpath_get strdup_ok (Some p) (Some (root_chr :: steps_text steps)) w = Ret (q, w) /\
    reaches (vars w) (walk t steps) q.
Proof. by apply jsonpath_ok. Qed.

End path.

(** ** Paths do not depend on the order of members *)

Section order.
Context {D : Type}.
Implicit Types t : tree D.

(** No object has a key twice. *)
Fixpoint nodup_tree t : Prop :=
  match t with
  | TArr l => (fix all (l : list (tree D)) : Prop := match l with [] => True | t :: l => nodup_tree t /\ all l end) l
  | TObj kvs =>
      NoDup kvs.*1 /\
      (fix all (l : list (list Z * tree D)) : Prop := match l with [] => True | (_, t) :: l => nodup_tree t /\ all l end) kvs
  | _ => True
  end.

Lemma nodup_arr l : nodup_tree (TArr l) <-> Forall nodup_tree l.
Proof. cbn. induction l as [|t l IH]; [done|]. by rewrite Forall_cons, <- IH. Qed.
Lemma nodup_obj kvs : nodup_tree (TObj kvs) <-> NoDup kvs.*1 /\ Forall (fun kt => nodup_tree kt.2) kvs.
Proof. cbn. apply and_iff_compat_l. induction kvs as [|[k t] l IH]; [done|]. by rewrite Forall_cons, <- IH. Qed.

(** The values of JSON texts are such. *)
Lemma json_nodup (strtod : list Z -> D * nat * bool) decimal_point t x : JsonParse.json strtod decimal_point t x -> nodup_tree t.
Proof.
  revert t x. apply (JsonParse.json_mind D strtod decimal_point (fun t _ => nodup_tree t) (fun l _ => Forall nodup_tree l)
    (fun kvs _ => Forall (fun kt => nodup_tree kt.2) kvs)); try done.
  - intros l x _ Hl. by apply nodup_arr.
  - intros ws Hws. split; [constructor|done].
  - intros kvs x _ Hall Hnd. by apply nodup_obj.
  - intros ws t x ws' _ _ Ht _. by constructor.
  - intros ws t x ws' l y _ _ Ht _ _ Hl. by constructor.
  - intros ws k kx ws1 ws2 t x ws3 _ _ _ _ _ Ht _. by constructor.
  - intros ws k kx ws1 ws2 t x ws3 kvs y _ _ _ _ _ Ht _ _ Hl. by constructor.
Qed.

Lemma tree_get_map k (kvs : list (list Z * tree D)) : tree_get k kvs = (list_to_map kvs : gmap (list Z) (tree D)) !! k.
Proof.
  unfold tree_get. induction kvs as [|[k' t] kvs IH]; [done|]. cbn [List.find list_to_map foldr fst snd].
  case_bool_decide as Hk; [subst; by rewrite lookup_insert_eq|by rewrite lookup_insert_ne, <- IH].
Qed.

Definition oteq (a b : option (tree D)) : Prop := match a, b with Some t, Some t' => teq t t' | None, None => True | _, _ => False end.

Lemma select_teq t t' s : nodup_tree t -> teq t t' -> oteq (select t s) (select t' s).
Proof.
  intros Hn Ht. destruct t as [| | | | |l|kvs].
  1-5: apply JsonRoundTrip.teq_leaf_inv in Ht; subst; by destruct s.
  - apply JsonRoundTrip.teq_arr_inv in Ht as (l' & -> & Hl). destruct s as [k|i]; [done|]. cbn [select].
    destruct (l !! Z.to_nat i) as [t|] eqn:E.
    + destruct (Forall2_lookup_l _ _ _ _ _ Hl E) as (t' & -> & Htt). done.
    + apply Forall2_length in Hl. apply lookup_ge_None in E. by rewrite lookup_ge_None_2 by lia.
  - apply JsonRoundTrip.teq_obj_inv in Ht as (es & kvs' & -> & Hl & Hp). destruct s as [k|i]; [|done]. cbn [select].
    apply nodup_obj in Hn as [Hn _]. rewrite (JsonRoundTrip.same_members_keys _ _ Hl) in Hn.
    assert (tree_get k kvs' = tree_get k es) as -> by (by rewrite !tree_get_map, (list_to_map_proper es kvs')).
    clear Hp Hn. unfold tree_get. induction Hl as [|a b l l' [Hk Ht] _ IH]; [done|]. cbn [List.find]. rewrite Hk.
    by destruct (bool_decide (k = b.1)).
Qed.

Lemma select_nodup t s t' : nodup_tree t -> select t s = Some t' -> nodup_tree t'.
Proof.
  intros Hn. destruct s as [k|i], t as [| | | | |l|kvs]; try done; cbn [select].
  - apply nodup_obj in Hn as [_ Hn]. unfold tree_get. intros E.
    destruct (List.find _ kvs) as [kt|] eqn:F; [|done]. injection E as <-. apply List.find_some in F as [F _].
    rewrite Forall_forall in Hn. apply Hn. by apply list_elem_of_In.
  - apply nodup_arr in Hn. intros E. by eapply Forall_lookup_1.
Qed.

Lemma walk_teq steps : forall t t', nodup_tree t -> teq t t' -> oteq (walk t steps) (walk t' steps).
Proof.
  induction steps as [|s steps IH]; intros t t' Hn Ht; [done|]. cbn [walk]. pose proof (select_teq t t' s Hn Ht) as Hs.
  destruct (select t s) as [a|] eqn:E, (select t' s) as [b|]; try done. cbn. apply IH; [by eapply select_nodup|done].
Qed.

End order.

(** ** Examples *)

Definition demo_kstr (k : list Z) : positive := encode k.
Lemma demo_kstr_ok k : contents_of (var_env := demo_env) (demo_kstr k) = k.
Proof. cbn. unfold demo_kstr. by rewrite decode_encode. Qed.

Lemma jsonpath_selects_witness :
  exists q, ph_var_jsonpath_get (env := demo_env) demo_kstr true (Some 6%positive) (Some (root_chr :: steps_text [SIndex 1])) demo_world =
      Ret (q, demo_world) /\
    reaches (env := demo_env) demo_vars (walk JsonRoundTrip.demo_array [SIndex 1]) q.
Proof.
  refine (jsonpath_selects (env := demo_env) demo_kstr demo_kstr_ok demo_world [6; 8; 7; 5]%positive JsonRoundTrip.demo_array 6
    [SIndex 1] true demo_vars_wf (proj1 JsonRoundTrip.demo_array_ok) _ _ _).
  - by repeat constructor.
  - by vm_compute.
  - done.
Defined.

(** Paths the grammar does not have: an empty index selects element 0, an index
    wraps at 32 bits, and a delimiter at the end is ignored. *)
Theorem jsonpath_lenient :
  let at_path path := ph_var_jsonpath_get (env := demo_env) demo_kstr true (Some 6%positive) (Some path) demo_world in
  at_path [36; 91; 93] = Ret (Some 4%positive, demo_world) /\
  at_path [36; 91; 52; 50; 57; 52; 57; 54; 55; 50; 57; 55; 93] = Ret (Some 5%positive, demo_world) /\
  at_path [36; 46] = Ret (Some 6%positive, demo_world).
Proof. split; [|split]; by vm_compute. Qed.

End VarPath.
