(* ===== verification/Config.v ===== *)
(** * Configuration (config.c)

    The global configuration is a variant that the module keeps a reference to.
    A query follows a path into it and leaves no trace. *)

From Stdlib Require Import ZArith Lia.
From stdpp Require Import base numbers list gmap.
From S2P Require Import Prelude SysUtil PhString HashTable HashTableProofs StringKeys Stream StreamProofs.
From S2P Require Import Variant VariantProofs VariantOps VariantGrow JsonLoad JsonLexProofs VariantBuild JsonScan JsonParse JsonDump JsonPrint.
From S2P Require Import JsonDumpProofs JsonRoundTrip VarPath.

Module Config.
Export VariantGrow.
Import JsonLoad.

Section config.
Context {X : Type} {env : var_env X} {jenv : json_env X env} {D : Type}.
(** As in [VarPath]. *)
Context (kstr : list Z -> positive) (strdup_ok : bool).

(** The variants, and the static variable [global_config]. *)
Record cworld := CWorld { cvars : vworld X D; global_config : option positive }.
Abbreviation CM := (M cworld).

Definition on_vars {A} (f : M (vworld X D) A) : CM A := fun c =>
  match f (cvars c) with
  | Ret (a, v) => Ret (a, CWorld v (global_config c))
  | Panic => Panic
  | Fault => Fault
  end.

Definition ph_config_set_global (cfg : positive) : CM unit :=
  on_vars (ph_var_addref cfg) ;;;
  c <-- get ;;
  modify (fun c => CWorld (cvars c) (Some cfg)) ;;;
  match global_config c with
  | Some old => on_vars (ph_var_delref old)
  | None => ret tt
  end.

Definition ph_config_get_global : CM positive :=
  c <-- get ;;
  match global_config c with
  | Some ref => on_vars (ph_var_addref ref) ;;; ret ref
  | None => on_vars ph_var_null
  end.

Definition ph_config_query (query : list Z) : CM (option positive) :=
  g <-- ph_config_get_global ;;
  val <-- on_vars (VarPath.ph_var_jsonpath_get kstr strdup_ok (Some g) (Some query)) ;;
  (match val with Some p => on_vars (ph_var_addref p) | None => ret tt end) ;;;
  on_vars (ph_var_delref g) ;;;
  ret val.

Definition ph_config_query_int (query : list Z) (defval : Z) : CM Z :=
  v <-- ph_config_query query ;;
  match v with
  | None => ret defval
  | Some p =>
      u <-- on_vars (load p) ;;
      let retval := match body u with PH_VAR_INTEGER z => z | _ => defval end in
      on_vars (ph_var_delref p) ;;; ret retval
  end.

Definition ph_config_query_double (query : list Z) (defval : D) : CM D :=
  v <-- ph_config_query query ;;
  match v with
  | None => ret defval
  | Some p =>
      u <-- on_vars (load p) ;;
      let retval := match body u with PH_VAR_REAL d => d | _ => defval end in
      on_vars (ph_var_delref p) ;;; ret retval
  end.

(** The string of the variant at the path, with a reference of its own. *)
Definition queried_string (query : list Z) : CM (option positive) :=
  v <-- ph_config_query query ;;
  match v with
  | None => ret None
  | Some p =>
      u <-- on_vars (load p) ;;
      retval <-- (match body u with
                  | PH_VAR_STRING k => on_vars (do_ext (string_addref k)) ;;; ret (Some k)
                  | _ => ret None
                  end) ;;
      on_vars (ph_var_delref p) ;;; ret retval
  end.

Definition ph_config_query_string (query : list Z) (defval : option positive) : CM (option positive) :=
  r <-- queried_string query ;;
  match r, defval with
  | None, Some k => on_vars (do_ext (string_addref k)) ;;; ret (Some k)
  | _, _ => ret r
  end.

Definition ph_config_query_string_cstr (query : list Z) (defval : option (list Z)) : CM (option positive) :=
  r <-- queried_string query ;;
  match r, defval with
  | None, Some s =>
      v <-- on_vars (ph_var_string_make_cstr s) ;;
      match v with
      | None => fault
      | Some p =>
          u <-- on_vars (load p) ;;
          (match body u with
           | PH_VAR_STRING k => on_vars (do_ext (string_addref k)) ;;; on_vars (ph_var_delref p) ;;; ret (Some k)
           | _ => fault
           end)
      end
  | _, _ => ret r
  end.

(** [getenv("PHENOM_CONFIG_FILE")], [access] and [ph_stm_file_open] are
    parameters, and [err0] is what the error record on the stack holds; the
    message that is logged is not modelled. *)
Context {B : Type} (funcs : Stream.ph_stream_funcs B) (rfuel : nat).
Context (strtod : list Z -> D * nat * bool) (decimal_point : Z) (junk : nat -> list Z).
Context (getenv : option (list Z)) (readable : list Z -> bool) (file_open : list Z -> option (Stream.ph_stream B)).
Context (err0 : ph_var_err).

Definition ph_config_load_config_file (lf fuel : nat) (config_path : option (list Z)) : CM bool :=
  let path := match config_path with
              | Some p => Some p
              | None => match getenv with
                        | Some (b :: p) => if readable (b :: p) then Some (b :: p) else None
                        | e => e
                        end
              end in
  match path with
  | None => ret false
  | Some path =>
      match file_open path with
      | None => ret false
      | Some stm => fun c =>
          match ph_json_load_stream funcs rfuel strtod decimal_point junk lf fuel stm 0 (Some err0) (cvars c) with
          | Panic => Panic
          | Fault => Fault
          | Ret (v, (w, stm, _)) =>
              match Stream.ph_stm_close funcs rfuel stm with
              | Panic => Panic
              | Fault => Fault
              | Ret _ =>
                  match v with
                  | None => Ret (false, CWorld w (global_config c))
                  | Some p => (ph_config_set_global p ;;; on_vars (ph_var_delref p) ;;; ret true) (CWorld w (global_config c))
                  end
              end
          end
      end
  end.

End config.

Section refs.
Context {X : Type} {env : var_env X} {D : Type}.
Abbreviation denotes := (denotes contents_of).
Abbreviation reaches := (VarPath.reaches (D := D)).
Implicit Types w : vworld X D.
Implicit Types c : @cworld X D.

(** ** References that come and go *)

Definition count (n : Z) (v : ph_variant D) : ph_variant D := Var (vref v + n) (body v).
Definition bump (n : Z) (p : positive) w : vworld X D := set_vars (alter (count n) p) w.

Definition same_bodies (h h' : gmap positive (ph_variant D)) : Prop :=
  forall q v, h !! q = Some v -> exists v', h' !! q = Some v' /\ body v' = body v.

Lemma bump_bodies n p w : same_bodies (vars w) (vars (bump n p w)) /\ same_bodies (vars (bump n p w)) (vars w).
Proof.
  split; intros q v Hq; cbn in *; destruct (decide (q = p)) as [->|Hne].
  - rewrite lookup_alter_eq, Hq. by eexists.
  - rewrite lookup_alter_ne by done. by exists v.
  - rewrite lookup_alter_eq in Hq. destruct (vars w !! p) as [u|]; [|done]. injection Hq as <-. by exists u.
  - rewrite lookup_alter_ne in Hq by done. by exists v.
Qed.

Lemma denotes_bodies h h' t p : same_bodies h h' -> denotes h t p -> denotes h' t p.
Proof. intros Hb. by apply (denotes_frame contents_of h h' (fun _ => True)); [|intros q v _; apply Hb|]. Qed.

Lemma reaches_bodies h h' r q : same_bodies h h' -> reaches h r q -> reaches h' r q.
Proof. destruct r, q; try done. apply denotes_bodies. Qed.

Lemma addref_bump p w v : vars w !! p = Some v -> 0 <= vref v + 1 < 2 ^ 31 -> ph_var_addref p w = Ret (tt, bump 1 p w).
Proof.
  intros Hp Hv. unfold ph_var_addref. unfold bind. rewrite (load_eq w p v Hp). unfold store, modify, bump, set_vars. cbn.
  unfold ph_refcnt_add. rewrite wrapS_small by lia. do 3 f_equal. apply map_eq. intros q.
  destruct (decide (q = p)) as [->|Hne]; [by rewrite lookup_insert_eq, lookup_alter_eq, Hp|].
  by rewrite lookup_insert_ne, lookup_alter_ne by done.
Qed.

(** Releasing a reference that is not the last. *)
Lemma delref_bump p w v : vars w !! p = Some v -> 1 < vref v < 2 ^ 31 -> ph_var_delref p w = Ret (tt, bump (-1) p w).
Proof.
  intros Hp Hv. unfold ph_var_delref. cbn [delref_loop]. unfold bind at 1. rewrite (load_eq w p v Hp).
  unfold ph_refcnt_del. rewrite wrapS_small by lia. rewrite (proj2 (Z.eqb_neq _ _)) by lia. cbn [negb].
  unfold store, modify, bump, set_vars, bind, ret. cbn. do 3 f_equal. apply map_eq. intros q.
  destruct (decide (q = p)) as [->|Hne]; [by rewrite lookup_insert_eq, lookup_alter_eq, Hp|].
  by rewrite lookup_insert_ne, lookup_alter_ne by done.
Qed.

Lemma bump_lookup n p q w v : vars w !! q = Some v ->
  vars (bump n p w) !! q = Some (if decide (q = p) then count n v else v).
Proof. intros Hq. cbn. case_decide as Hp; [subst; by rewrite lookup_alter_eq, Hq|by rewrite lookup_alter_ne]. Qed.

Lemma bump_undo p w : bump (-1) p (bump 1 p w) = w.
Proof.
  destruct w as [h n x]. unfold bump, set_vars. cbn. f_equal. apply map_eq. intros q.
  destruct (decide (q = p)) as [->|Hne]; [|by rewrite !lookup_alter_ne].
  rewrite !lookup_alter_eq. destruct (h !! p) as [v|]; [|done]. cbn. destruct v. unfold count. cbn. do 2 f_equal. lia.
Qed.

Lemma bump_comm m n p q w : bump m p (bump n q w) = bump n q (bump m p w).
Proof.
  destruct w as [h k x]. unfold bump, set_vars. cbn. f_equal. destruct (decide (p = q)) as [->|Hne]; [|by apply alter_alter_ne].
  rewrite !alter_alter_eq. apply alter_ext. intros v _. unfold count. cbn. f_equal. lia.
Qed.

(** ** Queries *)

(** No count is close to its maximum. *)
Definition roomy w : Prop := forall p v, vars w !! p = Some v -> vref v + 2 < 2 ^ 31.

(** The configuration is well formed: its variant is one of the roots, and it
    has the value [t]; without one the value is null. *)
Record config_ok c (roots : list positive) (t : tree D) : Prop := {
  co_wf : var_wf (cvars c) (option_list (global_config c) ++ roots);
  co_room : roomy (cvars c);
  co_value : match global_config c with Some g => denotes (vars (cvars c)) t g | None => t = TNull end;
}.

Lemma wf_ref w roots p v : var_wf w roots -> vars w !! p = Some v -> 0 < vref v.
Proof. intros Hw Hp. by destruct (rc_live _ _ _ (vw_rc _ _ Hw) p v ltac:(set_solver) Hp) as [_ []]. Qed.

Lemma wf_bump w roots p v : var_wf w roots -> vars w !! p = Some v -> vref v + 1 < 2 ^ 31 -> var_wf (bump 1 p w) (p :: roots).
Proof.
  intros Hw Hp Hlt. pose proof (var_wf_addref w roots p v Hw Hp Hlt) as H.
  assert (bump 1 p w = set_vars <[p := Var (vref v + 1) (body v)]> w) as ->; [|done].
  unfold bump, set_vars. by rewrite (alter_alt_Some (count 1) (vars w) p v Hp).
Qed.

Lemma on_vars_eq {A} (f : M (vworld X D) A) w w' gl a : f w = Ret (a, w') -> on_vars f (CWorld w gl) = Ret (a, CWorld w' gl).
Proof. intros E. unfold on_vars. cbn. by rewrite E. Qed.

(** The root of a query, with a reference. *)
Lemma get_global_ok w gl roots t : config_ok (CWorld w gl) roots t ->
  exists g v, ph_config_get_global (CWorld w gl) = Ret (g, CWorld (bump 1 g w) gl) /\ vars w !! g = Some v /\ denotes (vars w) t g.
Proof.
  intros [Hw Hroom Hv]. cbn [cvars global_config] in *. unfold ph_config_get_global. destruct gl as [g|].
  - destruct (VarPath.denotes_live _ _ _ Hv) as [v Hp]. pose proof (wf_ref _ _ _ _ Hw Hp). specialize (Hroom g v Hp).
    exists g, v. split; [|done]. step. cbn [global_config]. step_with (on_vars_eq _ w _ (Some g) _ (addref_bump g w v Hp ltac:(lia))). done.
  - subst t. destruct (rc_static_live _ _ _ (vw_rc _ _ Hw) (or_intror (or_intror eq_refl) : is_static null_variant)) as [v Hp].
    pose proof (wf_ref _ _ _ _ Hw Hp). specialize (Hroom _ v Hp).
    exists null_variant, v. split; [|split; [done|]].
    + step. cbn [global_config]. apply on_vars_eq. unfold ph_var_null. by step_with (addref_bump _ w v Hp ltac:(lia)).
    + exists v. split; [done|]. by rewrite (vw_static _ _ Hw null_variant v) by (done || by right; right).
Qed.

End refs.

Section query.
Context {X : Type} {env : var_env X} {D : Type}.
Context (kstr : list Z -> positive) (strdup_ok : bool).
Context (Hkstr : forall k, contents_of (kstr k) = k).
Abbreviation reaches := (VarPath.reaches (D := D)).
Implicit Types w : vworld X D.

(** A path to the steps that can be copied. *)
Record path_ok (query : list Z) (steps : list VarPath.step_t) : Prop := {
  po_text : query = VarPath.root_chr :: VarPath.steps_text steps;
  po_steps : Forall VarPath.step_ok steps;
  po_len : zlen (VarPath.steps_text steps) < 2 ^ 32 - 1;
  po_copy : 126 <= zlen (VarPath.steps_text steps) -> strdup_ok = true;
}.

(** The variant a path leads to, with a reference. *)
Lemma query_ok w gl roots t query steps :
  config_ok (CWorld w gl) roots t -> path_ok query steps ->
  exists q, ph_config_query kstr strdup_ok query (CWorld w gl) =
      Ret (q, CWorld (match q with Some p => bump 1 p w | None => w end) gl) /\
    reaches (vars w) (VarPath.walk t steps) q.
Proof.
  intros Hok [-> Hs Hl Hc]. destruct (get_global_ok w gl roots t Hok) as (g & vg & E1 & Hg & Hd).
  destruct Hok as [Hw Hroom _]. cbn [cvars] in *. pose proof (wf_ref _ _ _ _ Hw Hg) as Hg0. pose proof (Hroom g vg Hg) as Hg2.
  destruct (bump_bodies 1 g w) as [B1 B2].
  destruct (VarPath.jsonpath_ok kstr Hkstr (bump 1 g w) (g :: option_list gl ++ roots) t g steps strdup_ok) as (q & E2 & Hq);
    [eapply wf_bump; [exact Hw|exact Hg|lia]|by eapply denotes_bodies|done|done|done|].
  exists q. apply (reaches_bodies _ (vars w)) in Hq; [|done]. split; [|done].
  unfold ph_config_query. step_with E1. step_with (on_vars_eq _ _ _ gl _ E2).
  destruct q as [p|].
  - assert (exists v, vars w !! p = Some v) as [v Hp].
    { destruct (VarPath.walk t steps) as [t'|]; [|done]. by eapply VarPath.denotes_live. }
    pose proof (wf_ref _ _ _ _ Hw Hp). pose proof (Hroom p v Hp).
    pose proof (bump_lookup 1 g p w v Hp) as Hp1.
    assert (0 <= vref (if decide (p = g) then count 1 v else v) + 1 < 2 ^ 31) as Hb1 by (case_decide; cbn; lia).
    step_with (on_vars_eq _ _ _ gl _ (addref_bump p (bump 1 g w) _ Hp1 Hb1)).
    pose proof (bump_lookup 1 g g w vg Hg) as Hgg. rewrite decide_True in Hgg by done.
    pose proof (bump_lookup 1 p g _ _ Hgg) as Hg1.
    assert (1 < vref (if decide (g = p) then count 1 (count 1 vg) else count 1 vg) < 2 ^ 31) as Hb2 by (case_decide; cbn; lia).
    step_with (on_vars_eq _ _ _ gl _ (delref_bump g _ _ Hg1 Hb2)).
    by rewrite bump_comm, bump_undo.
  - step. pose proof (bump_lookup 1 g g w vg Hg) as Hg1. rewrite decide_True in Hg1 by done.
    step_with (on_vars_eq _ _ _ gl _ (delref_bump g _ _ Hg1 ltac:(cbn; lia))). by rewrite bump_undo.
Qed.

Lemma query_int_ok w gl roots t query steps defval :
  config_ok (CWorld w gl) roots t -> path_ok query steps ->
  ph_config_query_int kstr strdup_ok query defval (CWorld w gl) =
    Ret (match VarPath.walk t steps with Some (TInt z) => z | _ => defval end, CWorld w gl).
Proof.
  intros Hok Hp. destruct (query_ok w gl roots t query steps Hok Hp) as (q & E & Hq). destruct Hok as [Hw Hroom _].
  unfold ph_config_query_int. step_with E. destruct q as [p|]; destruct (VarPath.walk t steps) as [t'|]; try done.
  destruct (VarPath.denotes_live _ _ _ Hq) as [v Hv]. pose proof (wf_ref _ _ _ _ Hw Hv) as H1. pose proof (Hroom p v Hv) as H2. cbn in H2.
  pose proof (bump_lookup 1 p p w v Hv) as Hv1. rewrite decide_True in Hv1 by done.
  step_with (on_vars_eq _ _ _ gl _ (load_eq _ _ _ Hv1)).
  step_with (on_vars_eq _ _ _ gl _ (delref_bump p _ _ Hv1 ltac:(cbn; lia))). rewrite bump_undo. unfold ret. do 2 f_equal.
  pose proof (VarPath.denotes_kind _ _ _ _ Hq Hv) as Hk. cbn [count body].
  destruct t'; destruct Hq as (u & Hu & Hb); rewrite Hv in Hu; injection Hu as <-; destruct (body v); try done.
  all: by destruct b.
Qed.

(** Querying the configuration for an integer returns the integer the path
    selects, or the default if it selects nothing or another type, and gives
    back all references it took. *)
Theorem config_query_int_spec w gl roots t query steps defval :
  config_ok (CWorld w gl) roots t -> path_ok query steps ->
  ph_config_query_int kstr strdup_ok query defval (CWorld w gl) =
    Ret (match VarPath.walk t steps with Some (TInt z) => z | _ => defval end, CWorld w gl).
Proof. apply query_int_ok. Qed.

End query.

(** ** Changing the configuration *)

Section change.
Context {X : Type} {env : var_env X} {D : Type}.
Abbreviation denotes := (denotes contents_of).
Implicit Types w : vworld X D.
Context (srefs : X -> positive -> Z) `{Henv : !VariantProofs.var_env_ok env srefs}.

(** [ph_var_delref], keeping a value that the remaining roots reach. *)
Lemma release_value w roots p t q :
  var_wf w (p :: roots) -> q ∈ roots -> denotes (vars w) t q ->
  exists w', ph_var_delref p w = Ret (tt, w') /\ var_wf w' roots /\ denotes (vars w') t q /\
    forall s, loose srefs ∅ w' s = loose srefs ∅ w s.
Proof.
  intros Hw Hq Hd. destruct (release_ok srefs w roots p Hw) as (w' & E & Hw' & Hs & Hl & Hx).
  exists w'. split; [done|]. split; [done|]. split; [|done].
  eapply release_keeps; [done| |by apply reach_root|done]. intros r Hr. by apply Hl.
Qed.

Lemma loose_bump n p w s : loose srefs ∅ (bump n p w) s = loose srefs ∅ w s.
Proof.
  unfold loose, bump, set_vars. cbn [ext vars]. destruct (vars w !! p) as [v|] eqn:Hp.
  - rewrite (alter_alt_Some (count n) _ p v Hp), (hsum_update _ _ _ _ _ _ Hp). cbn. case_decide; lia.
  - assert (alter (count n) p (vars w) = vars w) as ->; [|done]. apply map_eq. intros q.
    destruct (decide (q = p)) as [->|]; [by rewrite lookup_alter_eq, Hp|by rewrite lookup_alter_ne].
Qed.

Lemma set_global_ok w gl roots p v t :
  var_wf w (p :: option_list gl ++ roots) -> vars w !! p = Some v -> vref v + 1 < 2 ^ 31 -> denotes (vars w) t p ->
  exists w', ph_config_set_global p (CWorld w gl) = Ret (tt, CWorld w' (Some p)) /\
    var_wf w' (p :: p :: roots) /\ denotes (vars w') t p /\ forall s, loose srefs ∅ w' s = loose srefs ∅ w s.
Proof.
  intros Hw Hp Hlt Hd. pose proof (wf_ref _ _ _ _ Hw Hp) as H0. pose proof (wf_bump _ _ _ _ Hw Hp Hlt) as Hw1.
  destruct (bump_bodies 1 p w) as [B1 _]. pose proof (denotes_bodies _ _ _ _ B1 Hd) as Hd1.
  unfold ph_config_set_global. step_with (on_vars_eq _ _ _ gl _ (addref_bump p w v Hp ltac:(lia))). step. step.
  cbn [global_config cvars]. destruct gl as [old|]; cbn [option_list app] in *.
  - destruct (release_value (bump 1 p w) (p :: p :: roots) old t p) as (w' & E & Hw' & Hd' & Hx);
      [|by left|done|].
    { eapply var_wf_perm; [|exact Hw1]. solve_Permutation. }
    exists w'. split; [by apply on_vars_eq|]. split; [done|]. split; [done|]. intros s. by rewrite Hx, loose_bump.
  - exists (bump 1 p w). split; [done|]. split; [done|]. split; [done|]. intros s. by rewrite loose_bump.
Qed.

End change.

(** ** Loading the configuration *)

Section load.
Context {X : Type} {env : var_env X} {jenv : json_env X env} {D B : Type}.
Context (kstr : list Z -> positive) (strdup_ok : bool) (Hkstr : forall k, contents_of (kstr k) = k).
Context (funcs : Stream.ph_stream_funcs B) (rfuel : nat).
Context (inv : B -> Prop) (rest : B -> list Z) `{Hsrc : !StreamProofs.source funcs inv rest (fun _ => False)}.
Context (Hclose : forall b, inv b -> exists r b', Stream.f_close funcs b = Ret (r, b')).
Context (srefs : X -> positive -> Z) `{Henv : !VariantProofs.var_env_ok env srefs} `{Hplenty : !JsonLexProofs.plenty env jenv srefs}.
Context (junk : nat -> list Z) (Hjunk : forall n, length (junk n) = n).
Context (strtod : list Z -> D * nat * bool) (decimal_point : Z).
Context (getenv : option (list Z)) (readable : list Z -> bool) (file_open : list Z -> option (Stream.ph_stream B)).
Context (err0 : ph_var_err).
Implicit Types w : vworld X D.

Lemma close_ok s l : JsonLexProofs.stm_at inv rest s l -> exists r, Stream.ph_stm_close funcs rfuel s = Ret r.
Proof.
  intros (Hs & Hi & Hp & _). unfold Stream.ph_stm_close. step_with (StreamProofs.flush_idle funcs rfuel s Hs Hp). cbn [negb].
  destruct (Hclose _ Hi) as (r & b' & E).
  assert (exists r' s', Stream.call (Stream.f_close funcs) s = Ret (r', s')) as (r' & s' & E').
  { unfold Stream.call. rewrite E. destruct r; by do 2 eexists. }
  step_with E'. destruct r'; eexists; reflexivity.
Qed.

(** An integer found by equal paths in values that differ in the order of
    members is the same. *)
Lemma same_int (a b : option (tree D)) d :
  VarPath.oteq a b -> match a with Some (TInt z) => z | _ => d end = match b with Some (TInt z) => z | _ => d end.
Proof. destruct a as [t|], b as [t'|]; try done. intros Ht. by destruct Ht. Qed.

Lemma container_not_static w roots p (t : tree D) :
  var_wf w roots -> denotes contents_of (vars w) t p -> JsonParse.top_ok 0 t -> ~ is_static p.
Proof.
  intros Hw Hd Ht Hs. destruct (VarPath.denotes_live _ _ _ Hd) as [v Hv]. pose proof (VarPath.denotes_kind _ _ _ _ Hd Hv) as Hk.
  rewrite (vw_static _ _ Hw p v Hs Hv) in Hk. unfold static_body in Hk. unfold JsonParse.top_ok in Ht.
  destruct t; try done; by repeat case_decide.
Qed.

(** C27. Loading a configuration file with a JSON document makes it the global
    configuration, and every query for an integer then returns the integer its
    path selects in the document, or the default, and changes nothing. *)
Theorem config_file_query path s t x ws ws' lf fuel w gl roots :
  file_open path = Some s -> JsonParse.json strtod decimal_point t x -> JsonParse.top_ok 0 t ->
  Forall JsonScan.space ws -> Forall JsonScan.space ws' ->
  JsonLexProofs.stm_at inv rest s (ws ++ x ++ ws') -> JsonLexProofs.txt (ws ++ x ++ ws') ->
  var_wf w (option_list gl ++ roots) -> room (vars w) (zlen x) ->
  zlen x < 2 ^ 27 -> (length (ws ++ x ++ ws') < lf)%nat -> (length x <= fuel)%nat ->
  exists w' p, ph_config_load_config_file funcs rfuel strtod decimal_point junk getenv readable file_open err0 lf fuel
      (Some path) (CWorld w gl) = Ret (true, CWorld w' (Some p)) /\
    var_wf w' (p :: roots) /\ (forall k, loose srefs ∅ w' k = loose srefs ∅ w k) /\
    (roomy w' -> forall query steps defval, path_ok strdup_ok query steps ->
      ph_config_query_int kstr strdup_ok query defval (CWorld w' (Some p)) =
        Ret (match VarPath.walk t steps with Some (TInt z) => z | _ => defval end, CWorld w' (Some p))).
Proof.
  intros Hopen Hj Htop Hws Hws' Hs Htx Hw Hroom Hlt Hlf Hf.
  destruct (JsonParse.json_load_ok funcs rfuel inv rest srefs junk Hjunk strtod decimal_point t x ws ws' lf fuel 0 (Some err0) s w
    (option_list gl ++ roots)) as (p & w1 & s1 & e1 & E1 & Hb & Hin & (t' & Ht & Hd) & _ & l1 & Hs1); try done.
  { unfold JsonParse.top_ok in Htop. by destruct t. }
  destruct (close_ok s1 l1 Hs1) as [rc Ec].
  pose proof (JsonRoundTrip.teq_top 0 _ _ Ht Htop) as Htop'.
  assert (vnext w <= p)%positive as Hnew.
  { destruct Hin as [Hin|Hin]; [done|]. by destruct (container_not_static w1 _ p t' (VariantBuild.b_wf _ _ _ _ _ Hb) Hd Htop'). }
  destruct (VarPath.denotes_live _ _ _ Hd) as [v Hv].
  pose proof (new_root_once w w1 _ p v Hw (VariantBuild.b_wf _ _ _ _ _ Hb) (VariantBuild.b_ext _ _ _ _ _ Hb) Hnew Hv) as H1.
  destruct (set_global_ok srefs w1 gl roots p v t' (VariantBuild.b_wf _ _ _ _ _ Hb) Hv ltac:(lia) Hd) as (w2 & E2 & Hw2 & Hd2 & Hx2).
  destruct (release_value srefs w2 (p :: roots) p t' p Hw2 ltac:(by left) Hd2) as (w3 & E3 & Hw3 & Hd3 & Hx3).
  exists w3, p. split; [|split; [done|split]].
  - unfold ph_config_load_config_file. rewrite Hopen. cbn [cvars]. rewrite E1, Ec. cbn [global_config]. step_with E2.
    by step_with (on_vars_eq _ _ _ (Some p) _ E3).
  - intros k. by rewrite Hx3, Hx2, (VariantBuild.b_strs _ _ _ _ _ Hb).
  - intros Hr query steps defval Hq.
    rewrite (query_int_ok kstr strdup_ok Hkstr w3 (Some p) roots t' query steps defval); [|by split|done].
    do 2 f_equal. symmetry. apply same_int, VarPath.walk_teq; [by eapply VarPath.json_nodup|done].
Qed.

End load.

(** ** Examples *)

Definition demo_config : @cworld (gmap positive Z) Z := CWorld demo_world (Some 6%positive).
Definition demo_query : list Z := VarPath.root_chr :: VarPath.steps_text [VarPath.SIndex 0].

Lemma demo_path : path_ok true demo_query [VarPath.SIndex 0].
Proof. split; [done|by repeat constructor|by vm_compute|done]. Qed.

Lemma demo_config_ok : config_ok (env := demo_env) demo_config [8; 7; 5]%positive JsonRoundTrip.demo_array.
Proof.
  split.
  - apply demo_vars_wf.
  - intros p v Hv. change (demo_vars !! p = Some v) in Hv. unfold demo_vars in Hv. apply elem_of_list_to_map_2 in Hv.
    repeat (apply elem_of_cons in Hv as [Hv|Hv]; [injection Hv as -> ->; done|]). by apply not_elem_of_nil in Hv.
  - apply JsonRoundTrip.demo_array_ok.
Qed.

Lemma config_query_int_spec_witness :
  ph_config_query_int (env := demo_env) VarPath.demo_kstr true demo_query 99 demo_config = Ret (7, demo_config).
Proof.
  exact (config_query_int_spec (env := demo_env) VarPath.demo_kstr true VarPath.demo_kstr_ok demo_world (Some 6%positive)
    [8; 7; 5]%positive JsonRoundTrip.demo_array demo_query [VarPath.SIndex 0] 99 demo_config_ok demo_path).
Defined.

(** The file holds [JsonRoundTrip.demo_tree]. *)
Definition demo_open (path : list Z) : option (Stream.ph_stream StreamProofs.memfile) :=
  Some (JsonRoundTrip.demo_file (JsonPrint.print JsonRoundTrip.demo_fmt 0 0 JsonRoundTrip.demo_tree ++ [10])).

Lemma config_file_query_witness :
  exists w' p, ph_config_load_config_file (jenv := JsonRoundTrip.demo_jenv) StreamProofs.memfile_funcs 9 JsonRoundTrip.demo_strtod 46
      JsonRoundTrip.demo_junk None (fun _ => true) demo_open (Err 0 0 0 false None) 40 40 (Some [47]) (CWorld JsonRoundTrip.start_world None) =
      Ret (true, CWorld w' (Some p)) /\
    var_wf (env := demo_env) w' [p] /\ (forall k, loose demo_srefs ∅ w' k = loose demo_srefs ∅ JsonRoundTrip.start_world k) /\
    (roomy w' -> forall query steps defval, path_ok true query steps ->
      ph_config_query_int (env := demo_env) VarPath.demo_kstr true query defval (CWorld w' (Some p)) =
        Ret (match VarPath.walk JsonRoundTrip.demo_tree steps with Some (TInt z) => z | _ => defval end, CWorld w' (Some p))).
Proof.
  pose proof demo_env_ok. pose proof JsonRoundTrip.demo_json_plenty.
  refine (config_file_query (jenv := JsonRoundTrip.demo_jenv) VarPath.demo_kstr true VarPath.demo_kstr_ok StreamProofs.memfile_funcs 9
    StreamProofs.mf_inv StreamProofs.mf_rest _ demo_srefs JsonRoundTrip.demo_junk _ JsonRoundTrip.demo_strtod 46 None (fun _ => true)
    demo_open (Err 0 0 0 false None) [47] _ JsonRoundTrip.demo_tree (JsonPrint.print JsonRoundTrip.demo_fmt 0 0 JsonRoundTrip.demo_tree) [] [10] 40 40
    JsonRoundTrip.start_world None [] eq_refl
    (JsonPrint.print_json JsonRoundTrip.demo_strtod 46 JsonRoundTrip.demo_fmt 0 JsonRoundTrip.demo_tree 0 JsonRoundTrip.demo_printable)
    _ _ _ (JsonRoundTrip.demo_file_at _) _ JsonRoundTrip.start_wf _ _ _ _).
  - apply StreamProofs.memfile_source.
  - intros b _. by do 2 eexists.
  - intros n. apply length_replicate.
  - done.
  - constructor.
  - repeat constructor; unfold JsonScan.space; lia.
  - apply JsonPrint.ascii_txt. apply (bool_decide_unpack _). by vm_compute.
  - intros p v Hp Hv. destruct Hp as [->|[->| ->]]; injection Hv as <-; by vm_compute.
  - by vm_compute.
  - by apply Nat.ltb_lt.
  - by apply Nat.leb_le.
Defined.

End Config.
