(* ===== verification/VarPack.v ===== *)
(** * Packing and unpacking variants (variant/pack.c)

    A format string and a list of arguments describe a value to build, or the
    places to store the parts of a value in. *)

From Stdlib Require Import ZArith Lia.
From stdpp Require Import base numbers list gmap.
From S2P Require Import Prelude SysUtil PhString HashTable StringKeys Variant JsonLoad.

Module VarPack.
Export Variant.
Import JsonLoad.

(** The messages of [set_error]; those about a type carry the variant. *)
Inductive pack_msg :=
  | EmptyFormat | NullRoot | EndOfFormat | ExpectedKey (c : Z) | NullKey | NullString | UnexpectedChar (c : Z)
  | SetFailed (key : list Z) | AppendFailed | OutOfMemory | Garbage
  | WrongType (expected : Z) (var : positive) | ExpectedClose (strict c : Z) | NotFound (key : list Z)
  | OutOfRange (i : Z) | LeftUnpacked (diff : Z).

(** [ph_var_err_t]; no text is [text[0] = 0]. *)
Record pack_err := PErr { pe_line : Z; pe_column : Z; pe_position : Z; pe_text : option pack_msg }.

(** [scanner_t]; [fmt] is an offset from [start], which is a C string. *)
Record scanner_t := Scanner { start : list Z; fmt : nat; token : Z; flags : Z; line : Z; column : Z }.

Definition PH_VAR_VALIDATE_ONLY : Z := 1.
Definition PH_VAR_STRICT : Z := 2.

Section pack.
Context {X : Type} {env : var_env X} {jenv : json_env X env} {D : Type}.
(** The string object on the stack of [ph_var_object_get_cstr], and the
    conversion of an integer to a double. *)
Context (kstr : list Z -> positive) (double_of : Z -> D).

(** An argument: a C string, a string object, an [int] or [bool], an
    [int64_t], a [double], a variant, or the address of a variable. *)
Inductive va_t :=
  | VaCstr (s : option (list Z))
  | VaString (s : option positive)
  | VaInt (z : Z)
  | VaInt64 (z : Z)
  | VaDouble (d : D)
  | VaVar (p : option positive)
  | VaPtr (loc : option positive).

(** What a variable of the caller was given. *)
Inductive out_t :=
  | OString (s : positive) | OInt (z : Z) | OInt64 (z : Z) | OBool (b : bool) | ODouble (d : D) | OVar (p : positive).

Record pworld := PWorld {
  pv : vworld X D;
  scanner : scanner_t;
  args : list va_t;
  error : option pack_err;
  outs : gmap positive out_t;
}.
Abbreviation PM := (M pworld).

Definition set_pv v (w : pworld) := PWorld v (scanner w) (args w) (error w) (outs w).
Definition set_scanner s (w : pworld) := PWorld (pv w) s (args w) (error w) (outs w).
Definition set_args a (w : pworld) := PWorld (pv w) (scanner w) a (error w) (outs w).
Definition set_err e (w : pworld) := PWorld (pv w) (scanner w) (args w) e (outs w).
Definition set_outs f (w : pworld) := PWorld (pv w) (scanner w) (args w) (error w) (f (outs w)).

Definition on_vars {A} (f : M (vworld X D) A) : PM A := fun w =>
  match f (pv w) with
  | Ret (a, v) => Ret (a, set_pv v w)
  | Panic => Panic
  | Fault => Fault
  end.

Definition get_token : PM Z := w <-- get ;; ret (token (scanner w)).

(** [va_arg]: an argument of another type is [Fault]. *)
Definition next_arg : PM va_t := fun w =>
  match args w with a :: r => Ret (a, set_args r w) | [] => Fault end.
Definition arg_cstr : PM (option (list Z)) := a <-- next_arg ;; match a with VaCstr s => ret s | _ => fault end.
Definition arg_string : PM (option positive) := a <-- next_arg ;; match a with VaString s => ret s | _ => fault end.
Definition arg_int : PM Z := a <-- next_arg ;; match a with VaInt z => ret z | _ => fault end.
Definition arg_int64 : PM Z := a <-- next_arg ;; match a with VaInt64 z => ret z | _ => fault end.
Definition arg_double : PM D := a <-- next_arg ;; match a with VaDouble d => ret d | _ => fault end.
Definition arg_var : PM (option positive) := a <-- next_arg ;; match a with VaVar p => ret p | _ => fault end.
Definition arg_ptr : PM (option positive) := a <-- next_arg ;; match a with VaPtr l => ret l | _ => fault end.

Definition scanner_init (fl : Z) (f : list Z) : scanner_t := Scanner f 0 0 fl 1 0.

Definition is_ignored (c : Z) : bool := (c =? 32) || (c =? 9) || (c =? 10) || (c =? 44) || (c =? 58).

(** The loop of [next_token] over the bytes [s] at offset [t]. *)
Fixpoint skip_ignored (s : list Z) (t : nat) (line column : Z) : option (Z * nat * Z * Z) :=
  match s with
  | [] => None
  | c :: s =>
      if is_ignored c then
        if c =? 10 then skip_ignored s (S t) (line + 1) 1 else skip_ignored s (S t) line (column + 1)
      else Some (c, t, line, column)
  end.

(** Reading behind the terminator is [Fault]. *)
Definition next_token : PM unit := fun w =>
  let s := scanner w in
  match skip_ignored (drop (fmt s) (start s ++ [0])) (fmt s) (line s) (column s + 1) with
  | None => Fault
  | Some (c, t, l, col) => Ret (tt, set_scanner (Scanner (start s) (S t) c (flags s) l col) w)
  end.

Definition set_error (m : pack_msg) : PM unit := fun w =>
  match error w with
  | Some e =>
      match pe_text e with
      | Some _ => Ret (tt, w)
      | None => let s := scanner w in
                Ret (tt, set_err (Some (PErr (line s) (column s) (Z.of_nat (fmt s)) (Some m))) w)
      end
  | None => Ret (tt, w)
  end.

(** [set_error] and a null result. *)
Definition failed {A} (m : pack_msg) (a : A) : PM A := set_error m ;;; ret a.

(** ** Packing *)

Definition char_z : Z := 122.
Definition char_s : Z := 115.
Definition char_S : Z := 83.
Definition char_n : Z := 110.
Definition char_b : Z := 98.
Definition char_i : Z := 105.
Definition char_I : Z := 73.
Definition char_f : Z := 102.
Definition char_F : Z := 70.
Definition char_o : Z := 111.
Definition char_O : Z := 79.

(** A pointer used without a check, as those of the containers and of 'O' are. *)
Definition the (p : option positive) : PM positive := of_option p.

(** [pack], with the loops of [pack_object] and [pack_array]; [None] is NULL. *)
Fixpoint pack (fuel : nat) : PM (option positive) :=
  match fuel with
  | O => fault
  | S fuel =>
      k <-- get_token ;;
      if k =? c_lbrace then
        object <-- on_vars (ph_var_object 8) ;;
        next_token ;;;
        pack_object fuel object
      else if k =? c_lbracket then
        array <-- on_vars (ph_var_array 8) ;;
        next_token ;;;
        pack_array fuel array
      else if k =? char_z then
        str <-- arg_cstr ;;
        match str with
        | None => failed NullString None
        | Some s => on_vars (ph_var_string_make_cstr s)
        end
      else if k =? char_s then str <-- arg_string ;; on_vars (ph_var_string_claim str)
      else if k =? char_S then str <-- arg_string ;; on_vars (ph_var_string_make str)
      else if k =? char_n then p <-- on_vars ph_var_null ;; ret (Some p)
      else if k =? char_b then z <-- arg_int ;; p <-- on_vars (ph_var_bool (negb (z =? 0))) ;; ret (Some p)
      else if k =? char_i then z <-- arg_int ;; on_vars (ph_var_int z)
      else if k =? char_I then z <-- arg_int64 ;; on_vars (ph_var_int z)
      else if k =? char_f then d <-- arg_double ;; on_vars (ph_var_double d)
      else if k =? char_O then v <-- arg_var ;; p <-- the v ;; on_vars (ph_var_addref p) ;;; ret v
      else if k =? char_o then arg_var
      else failed (UnexpectedChar k) None
  end
with pack_object (fuel : nat) (object : option positive) : PM (option positive) :=
  match fuel with
  | O => fault
  | S fuel =>
      let error_exit := p <-- the object ;; on_vars (ph_var_delref p) ;;; ret None in
      k <-- get_token ;;
      if k =? c_rbrace then ret object
      else if k =? 0 then set_error EndOfFormat ;;; error_exit
      else if negb (k =? char_s) then set_error (ExpectedKey k) ;;; error_exit
      else
        key <-- arg_cstr ;;
        match key with
        | None => set_error NullKey ;;; error_exit
        | Some key =>
            next_token ;;;
            value <-- pack fuel ;;
            match value with
            | None => error_exit
            | Some value =>
                p <-- the object ;;
                res <-- on_vars (ph_var_object_set_claim_cstr p key value) ;;
                match res with
                | PH_OK => next_token ;;; pack_object fuel object
                | _ => set_error (SetFailed key) ;;; error_exit
                end
            end
        end
  end
with pack_array (fuel : nat) (array : option positive) : PM (option positive) :=
  match fuel with
  | O => fault
  | S fuel =>
      let error_exit := p <-- the array ;; on_vars (ph_var_delref p) ;;; ret None in
      k <-- get_token ;;
      if k =? c_rbracket then ret array
      else if k =? 0 then set_error EndOfFormat ;;; error_exit
      else
        value <-- pack fuel ;;
        match value with
        | None => error_exit
        | Some value =>
            p <-- the array ;;
            res <-- on_vars (ph_var_array_append_claim p value) ;;
            match res with
            | PH_OK => next_token ;;; pack_array fuel array
            | _ => set_error AppendFailed ;;; error_exit
            end
        end
  end.

(** The error record as the entry points set it up. *)
Definition clear_error (e : option pack_err) : option pack_err :=
  match e with Some _ => Some (PErr (-1) (-1) 0 None) | None => None end.
Definition error_text (m : pack_msg) (e : option pack_err) : option pack_err :=
  match e with Some e => Some (PErr (pe_line e) (pe_column e) (pe_position e) (Some m)) | None => None end.

Definition run_pack (fuel : nat) : PM (option positive) :=
  next_token ;;;
  value <-- pack fuel ;;
  match value with
  | None => ret None
  | Some value =>
      next_token ;;;
      k <-- get_token ;;
      if k =? 0 then ret (Some value)
      else on_vars (ph_var_delref value) ;;; failed Garbage None
  end.

(** The variant, the variants afterwards and the error. *)
Definition ph_var_vpack (fuel : nat) (err : option pack_err) (f : option (list Z)) (ap : list va_t) (v : vworld X D) :
    outcome (option positive * (vworld X D * option pack_err)) :=
  let err := clear_error err in
  match f with
  | Some (c :: r) =>
      match run_pack fuel (PWorld v (scanner_init 0 (c :: r)) ap err ∅) with
      | Ret (p, w) => Ret (p, (pv w, error w))
      | Panic => Panic
      | Fault => Fault
      end
  | _ => Ret (None, (v, error_text EmptyFormat err))
  end.

(** ** Unpacking *)

Definition flag_set (f : Z) : PM bool := w <-- get ;; ret (negb (Z.land (flags (scanner w)) f =? 0)).

Definition load_var (p : positive) : PM (ph_variant D) := on_vars (load p).

(** Is the root, if there is one, of a type that satisfies [ok]? *)
Definition check_type (root : option positive) (ok : ph_variant_body D -> bool) : PM bool :=
  match root with
  | None => ret true
  | Some p => v <-- load_var p ;; ret (ok (body v))
  end.

(** [*target = o], unless only the type is checked or there is no root. *)
Definition assign (root : option positive) (o : ph_variant_body D -> out_t) : PM bool :=
  validate <-- flag_set PH_VAR_VALIDATE_ONLY ;;
  if (validate : bool) then ret true
  else
    target <-- arg_ptr ;;
    match root with
    | None => ret true
    | Some p =>
        v <-- load_var p ;;
        match target with
        | None => fault
        | Some loc => modify (set_outs <[loc := o (body v)]>) ;;; ret true
        end
    end.

Definition is_object (b : ph_variant_body D) : bool := match b with PH_VAR_OBJECT _ => true | _ => false end.
Definition is_array (b : ph_variant_body D) : bool := match b with PH_VAR_ARRAY _ _ => true | _ => false end.
Definition is_string (b : ph_variant_body D) : bool := match b with PH_VAR_STRING _ => true | _ => false end.
Definition is_int (b : ph_variant_body D) : bool := match b with PH_VAR_INTEGER _ => true | _ => false end.
Definition is_boolean (b : ph_variant_body D) : bool := match b with PH_VAR_TRUE | PH_VAR_FALSE => true | _ => false end.
Definition is_double (b : ph_variant_body D) : bool := match b with PH_VAR_REAL _ => true | _ => false end.
Definition is_null (b : ph_variant_body D) : bool := match b with PH_VAR_NULL => true | _ => false end.

Definition int_val (b : ph_variant_body D) : Z := match b with PH_VAR_INTEGER z => z | _ => 0 end.
Definition bool_val (b : ph_variant_body D) : bool := match b with PH_VAR_TRUE => true | _ => false end.

(** Check the type, then store. *)
Definition unpack_scalar (root : option positive) (c : Z) (ok : ph_variant_body D -> bool)
    (o : ph_variant_body D -> out_t) : PM bool :=
  t <-- check_type root ok ;;
  if negb t then (match root with Some p => set_error (WrongType c p) | None => ret tt end) ;;; ret false
  else assign root o.

Definition unpack_string (root : option positive) (k : Z) : PM bool :=
  t <-- check_type root is_string ;;
  if negb t then (match root with Some p => set_error (WrongType char_s p) | None => ret tt end) ;;; ret false
  else
    validate <-- flag_set PH_VAR_VALIDATE_ONLY ;;
    if (validate : bool) then ret true
    else
      target <-- arg_ptr ;;
      match target with
      | None => failed NullString false
      | Some loc =>
          match root with
          | None => ret true
          | Some p =>
              v <-- load_var p ;;
              match body v with
              | PH_VAR_STRING s =>
                  modify (set_outs <[loc := OString s]>) ;;;
                  (if k =? char_S then on_vars (do_ext (string_addref s)) else ret tt) ;;;
                  ret true
              | _ => fault
              end
          end
      end.

Definition unpack_value_starters : list Z := [123; 91; 115; 105; 73; 98; 102; 70; 79; 111; 110].

Definition double_val (b : ph_variant_body D) : D :=
  match b with PH_VAR_REAL d => d | b => double_of (int_val b) end.

(** [unpack], with the loops of [unpack_object] and [unpack_array]; [strict]
    is 1 after '!' and -1 after '*'.  False is an error. *)
Fixpoint unpack (fuel : nat) (root : option positive) : PM bool :=
  match fuel with
  | O => fault
  | S fuel =>
      k <-- get_token ;;
      if k =? c_lbrace then
        t <-- check_type root is_object ;;
        if negb t then (match root with Some p => set_error (WrongType c_lbrace p) | None => ret tt end) ;;; ret false
        else
          n <-- (match root with Some p => v <-- load_var p ;; ret (ph_var_object_size v) | None => ret 0 end) ;;
          key_set <-- on_vars (ph_var_object n) ;;
          match key_set with
          | None => failed OutOfMemory false
          | Some key_set =>
              next_token ;;;
              r <-- unpack_object fuel root key_set 0 ;;
              on_vars (ph_var_delref key_set) ;;;
              ret r
          end
      else if k =? c_lbracket then
        t <-- check_type root is_array ;;
        if negb t then (match root with Some p => set_error (WrongType c_lbracket p) | None => ret tt end) ;;; ret false
        else next_token ;;; unpack_array fuel root 0 0
      else if (k =? char_s) || (k =? char_S) then unpack_string root k
      else if k =? char_i then unpack_scalar root k is_int (fun b => OInt (s32 (int_val b)))
      else if k =? char_I then unpack_scalar root k is_int (fun b => OInt64 (int_val b))
      else if k =? char_b then unpack_scalar root k is_boolean (fun b => OBool (bool_val b))
      else if k =? char_f then unpack_scalar root k is_double (fun b => ODouble (double_val b))
      else if k =? char_F then unpack_scalar root k (fun b => is_double b || is_int b) (fun b => ODouble (double_val b))
      else if (k =? char_O) || (k =? char_o) then
        validate <-- flag_set PH_VAR_VALIDATE_ONLY ;;
        (match root with
         | Some p => if (k =? char_O) && negb validate then on_vars (ph_var_addref p) else ret tt
         | None => ret tt
         end) ;;;
        assign root (fun _ => OVar (default 1%positive root))
      else if k =? char_n then
        t <-- check_type root is_null ;;
        if negb t then (match root with Some p => set_error (WrongType k p) | None => ret tt end) ;;; ret false
        else ret true
      else failed (UnexpectedChar k) false
  end
with unpack_object (fuel : nat) (root : option positive) (key_set : positive) (strict : Z) : PM bool :=
  match fuel with
  | O => fault
  | S fuel =>
      k <-- get_token ;;
      if k =? c_rbrace then
        match root with
        | Some p =>
            if strict =? 1 then
              ks <-- load_var key_set ;; v <-- load_var p ;;
              if ph_var_object_size ks =? ph_var_object_size v then ret true
              else failed (LeftUnpacked (u32 (ph_var_object_size v - ph_var_object_size ks))) false
            else ret true
        | None => ret true
        end
      else if negb (strict =? 0) then failed (ExpectedClose strict k) false
      else if k =? 0 then failed EndOfFormat false
      else if (k =? 33) || (k =? 42) then next_token ;;; unpack_object fuel root key_set (if k =? 33 then 1 else -1)
      else if negb (k =? char_s) then failed (ExpectedKey k) false
      else
        key <-- arg_cstr ;;
        match key with
        | None => failed NullKey false
        | Some key =>
            next_token ;;;
            k <-- get_token ;;
            let opt := k =? 63 in
            (if opt then next_token else ret tt) ;;;
            value <-- (match root with
                       | None => ret None
                       | Some p => v <-- load_var p ;; ret (ph_var_object_get_cstr v (kstr key))
                       end) ;;
            let missing := match root, value with Some _, None => negb opt | _, _ => false end in
            if missing then failed (NotFound key) false
            else
              ok <-- unpack fuel value ;;
              if negb ok then ret false
              else
                nul <-- on_vars ph_var_null ;;
                on_vars (ph_var_object_set_claim_cstr key_set key nul) ;;;
                next_token ;;;
                unpack_object fuel root key_set strict
        end
  end
with unpack_array (fuel : nat) (root : option positive) (i strict : Z) : PM bool :=
  match fuel with
  | O => fault
  | S fuel =>
      k <-- get_token ;;
      if k =? c_rbracket then
        s <-- flag_set PH_VAR_STRICT ;;
        let strict := if (strict =? 0) && s then 1 else strict in
        match root with
        | Some p =>
            if strict =? 1 then
              v <-- load_var p ;;
              if i =? ph_var_array_size v then ret true
              else failed (LeftUnpacked (u32 (ph_var_array_size v - i))) false
            else ret true
        | None => ret true
        end
      else if negb (strict =? 0) then failed (ExpectedClose strict k) false
      else if k =? 0 then failed EndOfFormat false
      else if (k =? 33) || (k =? 42) then next_token ;;; unpack_array fuel root i (if k =? 33 then 1 else -1)
      else if negb (bool_decide (k ∈ unpack_value_starters)) then failed (UnexpectedChar k) false
      else
        value <-- (match root with
                   | None => ret None
                   | Some p => v <-- load_var p ;; ret (ph_var_array_get v i)
                   end) ;;
        match root, value with
        | Some _, None => failed (OutOfRange i) false
        | _, _ =>
            ok <-- unpack fuel value ;;
            if negb ok then ret false
            else next_token ;;; unpack_array fuel root (u32 (i + 1)) strict
        end
  end.

Definition run_unpack (fuel : nat) (root : positive) : PM ph_result_t :=
  next_token ;;;
  ok <-- unpack fuel (Some root) ;;
  if negb ok then ret PH_ERR
  else
    next_token ;;;
    k <-- get_token ;;
    if k =? 0 then ret PH_OK else failed Garbage PH_ERR.

(** The result, the variants afterwards, the error and the variables. *)
Definition ph_var_vunpack (fuel : nat) (root : option positive) (err : option pack_err) (fl : Z) (f : option (list Z))
    (ap : list va_t) (v : vworld X D) (o : gmap positive out_t) :
    outcome (ph_result_t * (vworld X D * option pack_err * gmap positive out_t)) :=
  let err := clear_error err in
  match root with
  | None => Ret (PH_ERR, (v, error_text NullRoot err, o))
  | Some root =>
      match f with
      | Some (c :: r) =>
          match run_unpack fuel root (PWorld v (scanner_init fl (c :: r)) ap err o) with
          | Ret (res, w) => Ret (res, (pv w, error w, outs w))
          | Panic => Panic
          | Fault => Fault
          end
      | _ => Ret (PH_ERR, (v, error_text EmptyFormat err, o))
      end
  end.

End pack.
End VarPack.
