(* ===== verification/VarPackProofs.v ===== *)
(** * Packing builds the value the format describes *)

From Stdlib Require Import ZArith Lia.
From stdpp Require Import base numbers list gmap.
From S2P Require Import Prelude SysUtil PhString HashTable HashTableProofs StringKeys.
From S2P Require Import Variant VariantProofs VariantOps VariantGrow JsonLoad JsonLexProofs VariantBuild JsonRoundTrip VarPack.

Module VarPackProofs.
Export VariantBuild.
Import JsonLoad JsonLexProofs.
Import VarPack.

(** Compare format characters. *)
Ltac chars := cbv [char_z char_s char_S char_n char_b char_i char_I char_f char_F char_o char_O];
  cbn [Z.eqb Pos.eqb negb orb].

(** ** Formats *)

Abbreviation ign := (Forall (fun c => is_ignored c = true)).
Abbreviation nonzero := (Forall (fun b : Z => b <> 0)).

Section formats.
Context {X : Type} {env : var_env X} {D : Type}.
Abbreviation va := (va_t (D := D)).

(** The format and the arguments that pack the value; the lists of elements and
    members go up to the closing bracket. *)
Inductive packs : tree D -> list Z -> list va -> Prop :=
  | pk_z s : nonzero s -> packs (TStr s) [char_z] [VaCstr (Some s)]
  | pk_S k : packs (TStr (contents_of k)) [char_S] [VaString (Some k)]
  | pk_n : packs TNull [char_n] []
  | pk_b z : packs (TBool (negb (z =? 0))) [char_b] [VaInt z]
  | pk_i z : packs (TInt z) [char_i] [VaInt z]
  | pk_I z : packs (TInt z) [char_I] [VaInt64 z]
  | pk_f d : packs (TReal d) [char_f] [VaDouble d]
  | pk_arr l f a : packs_elems l f a -> packs (TArr l) (91 :: f) a
  | pk_obj kvs f a : packs_members kvs f a -> NoDup kvs.*1 -> packs (TObj kvs) (123 :: f) a
with packs_elems : list (tree D) -> list Z -> list va -> Prop :=
  | pe_end g : ign g -> packs_elems [] (g ++ [93]) []
  | pe_cons g t f a l f' a' : ign g -> packs t f a -> packs_elems l f' a' -> packs_elems (t :: l) (g ++ f ++ f') (a ++ a')
with packs_members : list (list Z * tree D) -> list Z -> list va -> Prop :=
  | pm_end g : ign g -> packs_members [] (g ++ [125]) []
  | pm_cons g k g' t f a kvs f' a' : ign g -> ign g' -> nonzero k -> packs t f a -> packs_members kvs f' a' ->
      packs_members ((k, t) :: kvs) (g ++ char_s :: g' ++ f ++ f') (VaCstr (Some k) :: a ++ a').
End formats.

Scheme packs_mind := Minimality for packs Sort Prop
  with packs_elems_mind := Minimality for packs_elems Sort Prop
  with packs_members_mind := Minimality for packs_members Sort Prop.
Combined Scheme packs_all_ind from packs_mind, packs_elems_mind, packs_members_mind.

Section scan.
Context {X : Type} {D : Type}.
Implicit Types w : @pworld X D.

(** The scanner is before the rest [l] of the format. *)
Definition at_fmt (s : scanner_t) (l : list Z) : Prop := drop (fmt s) (start s) = l /\ (fmt s <= length (start s))%nat.

Lemma skip_ignored_ok g c l t ln col :
  ign g -> is_ignored c = false ->
  exists ln' col', skip_ignored (g ++ c :: l) t ln col = Some (c, (t + length g)%nat, ln', col').
Proof.
  intros Hg Hc. revert t ln col. induction Hg as [|b g Hb _ IH]; intros t ln col; cbn [app skip_ignored length].
  - rewrite Hc, Nat.add_0_r. by do 2 eexists.
  - rewrite Hb, <- Nat.add_succ_comm. destruct (b =? 10); apply IH.
Qed.

(** [next_token] takes the next character that is not ignored. *)
Lemma next_token_ok w g c l :
  at_fmt (scanner w) (g ++ c :: l) -> ign g -> is_ignored c = false ->
  exists s', next_token w = Ret (tt, set_scanner s' w) /\ at_fmt s' l /\ token s' = c /\ flags s' = flags (scanner w).
Proof.
  intros [Hd Hl] Hg Hc. unfold next_token. rewrite drop_app_le, Hd, <- app_assoc, <- app_comm_cons by done.
  destruct (skip_ignored_ok g c (l ++ [0]) (fmt (scanner w)) (line (scanner w)) (column (scanner w) + 1) Hg Hc) as (ln & col & ->).
  eexists. split; [reflexivity|]. split; [|done]. cbn [at_fmt fmt start].
  assert (length (drop (fmt (scanner w)) (start (scanner w))) = length (g ++ c :: l)) as Hlen by (by rewrite Hd).
  rewrite length_drop, length_app in Hlen. cbn [length] in Hlen. split; cbn; [|lia].
  replace (S (fmt (scanner w) + length g)) with (fmt (scanner w) + (length g + 1))%nat by lia.
  rewrite <- drop_drop, Hd, <- drop_drop, drop_app_length. done.
Qed.

Lemma next_token_end w g :
  at_fmt (scanner w) g -> ign g ->
  exists s', next_token w = Ret (tt, set_scanner s' w) /\ token s' = 0.
Proof.
  intros [Hd Hl] Hg. unfold next_token. rewrite drop_app_le, Hd by done.
  destruct (skip_ignored_ok g 0 [] (fmt (scanner w)) (line (scanner w)) (column (scanner w) + 1) Hg eq_refl) as (ln & col & ->).
  by eexists.
Qed.

Lemma on_pv_ok {A} (f : M (vworld X D) A) w a v' : f (pv w) = Ret (a, v') -> on_vars f w = Ret (a, set_pv v' w).
Proof. intros E. unfold on_vars. by rewrite E. Qed.

(** Taking an argument. *)
Definition taken w r : @pworld X D := set_args r w.
Lemma arg_cstr_ok w s r : args w = VaCstr s :: r -> arg_cstr w = Ret (s, taken w r).
Proof. intros E. unfold arg_cstr, bind, next_arg. by rewrite E. Qed.
Lemma arg_string_ok w s r : args w = VaString s :: r -> arg_string w = Ret (s, taken w r).
Proof. intros E. unfold arg_string, bind, next_arg. by rewrite E. Qed.
Lemma arg_int_ok w z r : args w = VaInt z :: r -> arg_int w = Ret (z, taken w r).
Proof. intros E. unfold arg_int, bind, next_arg. by rewrite E. Qed.
Lemma arg_int64_ok w z r : args w = VaInt64 z :: r -> arg_int64 w = Ret (z, taken w r).
Proof. intros E. unfold arg_int64, bind, next_arg. by rewrite E. Qed.
Lemma arg_double_ok w d r : args w = VaDouble d :: r -> arg_double w = Ret (d, taken w r).
Proof. intros E. unfold arg_double, bind, next_arg. by rewrite E. Qed.
Lemma arg_ptr_ok w p r : args w = VaPtr p :: r -> arg_ptr w = Ret (p, taken w r).
Proof. intros E. unfold arg_ptr, bind, next_arg. by rewrite E. Qed.

End scan.

Section pack.
Context {X : Type} {env : var_env X} {jenv : json_env X env} {D : Type}.
Context (srefs : X -> positive -> Z) `{Henv : !VariantProofs.var_env_ok env srefs} `{Hplenty : !plenty env jenv srefs}.
Abbreviation means := (means contents_of).
Abbreviation built := (built srefs).
Implicit Types w : @pworld X D.

(** From [w] to [w'] the format was consumed up to [l] and the arguments up to
    [ar]. *)
Record consumed w w' (l : list Z) (ar : list va_t) : Prop := {
  cs_at : at_fmt (scanner w') l;
  cs_args : args w' = ar;
  cs_error : error w' = error w;
  cs_outs : outs w' = outs w;
}.

Lemma consumed_trans w1 w2 w3 l l' ar ar' : consumed w1 w2 l ar -> consumed w2 w3 l' ar' -> consumed w1 w3 l' ar'.
Proof. intros [_ _ E1 O1] [H1 H2 E2 O2]. split; congruence || done. Qed.

Definition packed (t : tree D) (m : Z) (roots : list positive) w (l : list Z) (ar : list va_t)
    (r : outcome (option positive * pworld)) : Prop :=
  exists p w', r = Ret (Some p, w') /\ consumed w w' l ar /\ built None m (p :: roots) (pv w) (pv w') /\
    inside (vnext (pv w)) p /\ means (vars (pv w')) t p.

(** [pack], the first character of the format having been read. *)
Definition pack_ok (t : tree D) (f : list Z) (a : list va_t) : Prop :=
  exists c f', f = c :: f' /\ is_ignored c = false /\ c <> 93 /\ c <> 125 /\ c <> 0 /\
  forall fuel w roots m l ar,
  token (scanner w) = c -> at_fmt (scanner w) (f' ++ l) -> args w = a ++ ar -> var_wf (pv w) roots ->
  room (vars (pv w)) (m + zlen f) -> 0 <= m -> zlen f < 2 ^ 27 -> (length f <= fuel)%nat ->
  packed t m roots w l ar (pack fuel w).

Lemma packed_static p t m roots w l ar :
  is_static p -> (forall h u, h !! p = Some u -> body u = static_body p -> denotes contents_of h t p) ->
  var_wf (pv w) roots -> room (vars (pv w)) (m + 1) -> 0 <= m -> at_fmt (scanner w) l -> args w = ar ->
  packed t m roots w l ar ((q <-- on_vars (ph_var_addref p ;;; ret p) ;; ret (Some q)) w).
Proof.
  intros Hp Hd Hw Hr Hm Hl Ha. destruct (addref_static (srefs := srefs) (pv w) roots p m Hw Hp Hr Hm) as (v' & E & Hb & u & Hu & Hbu).
  step_with (on_pv_ok _ w _ _ E). exists p, (set_pv v' w). split; [done|]. split; [by split|]. split; [done|].
  split; [by right|]. exists t. split; [constructor|]. by apply (Hd _ u).
Qed.

Lemma packed_new b t m roots w l ar :
  refs_in b = [] -> ~ is_singleton b -> body_ok (X := X) b -> strs_in b = [] ->
  (forall h p, h !! p = Some (Var 1 b) -> denotes contents_of h t p) ->
  var_wf (pv w) roots -> room (vars (pv w)) m -> at_fmt (scanner w) l -> args w = ar ->
  packed t m roots w l ar (on_vars (new_var b) w).
Proof.
  intros H1 H2 H3 H4 Hd Hw Hr Hl Ha. destruct (new_var_some (pv w) roots b m Hw H1 H2 H3 H4 Hr) as (v' & E & Hb & Hv & _).
  rewrite (on_pv_ok _ w _ _ E). exists (vnext (pv w)), (set_pv v' w). split; [done|]. split; [by split|]. split; [done|].
  split; [left; lia|]. exists t. split; [constructor|]. apply Hd. cbn. by rewrite Hv, lookup_insert_eq.
Qed.

(** Strings: a copy of a C string, and another reference. *)
Lemma packed_cstr s m roots w l ar :
  nonzero s -> var_wf (pv w) roots -> room (vars (pv w)) m -> at_fmt (scanner w) l -> args w = ar ->
  packed (TStr s) m roots w l ar (on_vars (ph_var_string_make_cstr s) w).
Proof.
  intros Hnz Hw Hr Hl Ha. destruct (string_variant (pv w) roots s m Hw Hr) as (k & x & v' & E & E' & Hb & Hv & Hc).
  assert (ph_var_string_make_cstr s (pv w) = Ret (Some (vnext (pv w)), v')) as E2.
  { unfold ph_var_string_make_cstr. rewrite (cstr_all s Hnz).
    assert (on_ext (string_make s) (pv w) = Ret (Some k, set_ext x (pv w))) as E1 by (unfold on_ext; by rewrite E).
    step_with E1. by step_with E'. }
  rewrite (on_pv_ok _ w _ _ E2). exists (vnext (pv w)), (set_pv v' w). split; [done|]. split; [by split|]. split; [done|].
  split; [left; lia|]. exists (TStr s). split; [constructor|]. cbn. rewrite Hv, lookup_insert_eq. eexists. by split.
Qed.

Lemma packed_string k m roots w l ar :
  var_wf (pv w) roots -> room (vars (pv w)) m -> at_fmt (scanner w) l -> args w = ar ->
  packed (TStr (contents_of k)) m roots w l ar (on_vars (ph_var_string_make (Some k)) w).
Proof.
  intros Hw Hr Hl Ha. destruct (string_make_variant (pv w) roots k m Hw Hr) as (v' & E & Hb & Hv).
  rewrite (on_pv_ok _ w _ _ E). exists (vnext (pv w)), (set_pv v' w). split; [done|]. split; [by split|]. split; [done|].
  split; [left; lia|]. exists (TStr (contents_of k)). split; [constructor|]. cbn. rewrite Hv, lookup_insert_eq. eexists. by split.
Qed.

Ltac pack_char := eexists _, []; do 5 (split; [done|]); intros fuel w roots m l ar Htok Hat Hargs Hw Hr Hm _ Hf;
  (destruct fuel as [|fuel]; [cbn in Hf; lia|]); cbn [app length] in *;
  cbn [pack]; step; rewrite Htok; chars; change (Z.of_nat 1) with 1 in Hr;
  assert (room (vars (pv w)) m) by (eapply room_le; [exact Hr|lia]).

(** Taking arguments first. *)
Lemma packed_taken t m roots w r l ar f : packed t m roots (taken w r) l ar f -> packed t m roots w l ar f.
Proof. intros (p & w' & E & [H1 H2 H3 H4] & Hb). exists p, w'. split; [done|]. split; [by split|done]. Qed.

Lemma pack_leaf t f a : packs t f a -> match t with TArr _ | TObj _ => True | _ => pack_ok t f a end.
Proof.
  intros [s Hs|k| |z|z|z|d|l f' a' H|kvs f' a' H Hn]; try done; pack_char.
  - step_with (arg_cstr_ok w _ _ Hargs). by apply (packed_taken _ _ _ _ ar), packed_cstr.
  - step_with (arg_string_ok w _ _ Hargs). by apply (packed_taken _ _ _ _ ar), packed_string.
  - apply (packed_static null_variant); [by right; right| |done..]. intros h u Hu Hb. exists u. by rewrite Hb.
  - step_with (arg_int_ok w _ _ Hargs). apply (packed_taken _ _ _ _ ar). unfold ph_var_bool.
    destruct (negb (z =? 0)).
    + apply (packed_static bool_true_variant); [by left| |done..]. intros h u Hu Hb. exists u. by rewrite Hb.
    + apply (packed_static bool_false_variant); [by right; left| |done..]. intros h u Hu Hb. exists u. by rewrite Hb.
  - step_with (arg_int_ok w _ _ Hargs). apply (packed_taken _ _ _ _ ar). apply (packed_new (PH_VAR_INTEGER z)); try done.
    + unfold is_singleton. naive_solver.
    + intros h p Hp. eexists. by split.
  - step_with (arg_int64_ok w _ _ Hargs). apply (packed_taken _ _ _ _ ar). apply (packed_new (PH_VAR_INTEGER z)); try done.
    + unfold is_singleton. naive_solver.
    + intros h p Hp. eexists. by split.
  - step_with (arg_double_ok w _ _ Hargs). apply (packed_taken _ _ _ _ ar). apply (packed_new (PH_VAR_REAL d)); try done.
    + unfold is_singleton. naive_solver.
    + intros h p Hp. eexists. by split.
Qed.

(** ** Arrays *)

(** The rest of an array, up to the bracket. *)
Definition pack_elems_ok (us : list (tree D)) (f : list Z) (a : list va_t) : Prop :=
  forall fuel w arr ts ps roots m l ar,
  at_fmt (scanner w) (f ++ l) -> args w = a ++ ar -> var_wf (pv w) (arr :: roots) -> arr_holds arr (vars (pv w)) ts ps ->
  room (vars (pv w)) (m + zlen f) -> 0 <= m -> zlen ps + zlen f < 2 ^ 27 -> (length f <= fuel)%nat ->
  exists w' ps', (next_token ;;; pack_array fuel (Some arr)) w = Ret (Some arr, w') /\ consumed w w' l ar /\
    built (Some arr) m (arr :: roots) (pv w) (pv w') /\ arr_holds arr (vars (pv w')) (ts ++ us) ps'.

Lemma pack_elems_end g : ign g -> pack_elems_ok [] (g ++ [93]) [].
Proof.
  intros Hg fuel w arr ts ps roots m l ar Hat Ha Hw Hh Hm H0 Hlt Hf. rewrite <- app_assoc in Hat.
  destruct (next_token_ok w g 93 l Hat Hg eq_refl) as (s' & E & Hat' & Htok & _). rewrite length_app in *. cbn [length] in *.
  destruct fuel as [|fuel]; [lia|]. exists (set_scanner s' w), ps. split; [|split; [by split|split]].
  - step_with E. cbn [pack_array]. step. cbn [scanner set_scanner]. rewrite Htok. done.
  - apply built_weaken, built_refl; [done|]. eapply room_le; [done|lia].
  - by rewrite app_nil_r.
Qed.

Lemma arr_older arr (v : vworld X D) ts ps roots : var_wf v (arr :: roots) -> arr_holds arr (vars v) ts ps -> (arr < vnext v)%positive.
Proof. intros Hw Hh. destruct (ah_cell _ _ _ _ Hh) as (u & al & Hu & _). by apply (vw_fresh _ _ Hw arr u). Qed.

Lemma pack_elems_cons g t f a us f' a' :
  ign g -> pack_ok t f a -> pack_elems_ok us f' a' -> (1 <= length f')%nat -> pack_elems_ok (t :: us) (g ++ f ++ f') (a ++ a').
Proof.
  intros Hg (c & f0 & -> & Hc & H93 & _ & Hc0 & Hp) He Hf' fuel w arr ts ps roots m l ar Hat Ha Hw Hh Hm H0 Hlt Hf.
  rewrite !length_app in *. cbn [length] in *. rewrite <- !app_assoc, <- app_comm_cons in Hat.
  destruct (next_token_ok w g c _ Hat Hg Hc) as (s1 & E1 & Hat1 & Htok & _). set (w1 := set_scanner s1 w) in *.
  destruct fuel as [|fuel]; [lia|]. rewrite <- app_assoc in Ha.
  destruct (Hp fuel w1 (arr :: roots) (m + zlen f') (f' ++ l) (a' ++ ar)) as (p & w2 & E2 & C2 & B2 & Hin & Hme);
    [done|done|done|done|eapply room_le; [exact Hm|cbn [length]; lia]|lia|cbn [length]; lia|cbn [length]; lia|].
  pose proof (arr_older _ _ _ _ _ Hw Hh) as Hlt2. pose proof (arr_holds_extends _ _ (pv w1) _ _ _ Hh (b_ext _ _ _ _ _ B2) Hw) as Hh2.
  destruct (append_built arr p t (vnext (pv w)) (m + zlen f') roots (pv w2) ts ps) as (v3 & E3 & B3 & Hh3);
    [apply B2|done|apply B2|done|done|done|apply B2|lia|].
  destruct (He fuel (set_pv v3 w2) arr (ts ++ [t]) (ps ++ [p]) roots m l ar) as (w4 & ps' & E4 & C4 & B4 & Hh4);
    [apply C2|apply C2|apply B3|done|apply B3|done|rewrite length_app; cbn [length]; lia|lia|].
  exists w4, ps'. split; [|split; [|split]].
  - step_with E1. cbn [pack_array]. step. change (token (scanner w1)) with (token s1). rewrite Htok.
    rewrite (proj2 (Z.eqb_neq c 93)), (proj2 (Z.eqb_neq c 0)) by done. step_with E2. step.
    step_with (on_pv_ok _ w2 _ _ E3). exact E4.
  - destruct C2 as [_ _ C2e C2o]. destruct C4 as [C4a C4b C4e C4o]. split; [done|done|by rewrite C4e|by rewrite C4o].
  - eapply built_trans; [|exact B4|by intros b [= <-]]. eapply built_trans; [by apply built_weaken|exact B3|by intros b [= <-]].
  - by rewrite <- app_assoc in Hh4.
Qed.

Lemma pack_arr us f a : pack_elems_ok us f a -> pack_ok (TArr us) (91 :: f) a.
Proof.
  intros He. exists 91, f. do 5 (split; [done|]). intros fuel w roots m l ar Htok Hat Hargs Hw Hr H0 Hlt Hf.
  cbn [length] in *. destruct fuel as [|fuel]; [lia|].
  destruct (array_start (pv w) roots (m + zlen f) Hw) as (v1 & E1 & B1 & Hh1); [eapply room_le; [exact Hr|lia]|].
  destruct (He fuel (set_pv v1 w) (vnext (pv w)) [] [] roots m l ar) as (w2 & ps' & E2 & C2 & B2 & Hh2);
    [done|done|apply B1|done|apply B1|done|cbn [length]; lia|lia|].
  exists (vnext (pv w)), w2. split; [|split; [|split; [|split; [left; lia|by eapply arr_done]]]].
  - cbn [pack]. step. rewrite Htok. cbn [Z.eqb Pos.eqb]. step_with (on_pv_ok _ w _ _ E1). exact E2.
  - destruct C2 as [C2a C2b C2e C2o]. by split.
  - eapply (built_whole (vnext (pv w))); [exact B1|exact B2|done|by eapply fresh_none|by eapply arr_closed].
Qed.

(** ** Objects *)

Definition pack_members_ok (us : list (list Z * tree D)) (f : list Z) (a : list va_t) : Prop :=
  forall fuel w obj kvs es roots m l ar,
  NoDup (kvs ++ us).*1 ->
  at_fmt (scanner w) (f ++ l) -> args w = a ++ ar -> var_wf (pv w) (obj :: roots) -> obj_holds obj (vars (pv w)) kvs es ->
  room (vars (pv w)) (m + zlen f) -> 0 <= m -> zlen es + zlen f < 2 ^ 27 -> (length f <= fuel)%nat ->
  exists w' es', (next_token ;;; pack_object fuel (Some obj)) w = Ret (Some obj, w') /\ consumed w w' l ar /\
    built (Some obj) m (obj :: roots) (pv w) (pv w') /\ obj_holds obj (vars (pv w')) (kvs ++ us) es'.

Lemma pack_members_end g : ign g -> pack_members_ok [] (g ++ [125]) [].
Proof.
  intros Hg fuel w obj kvs es roots m l ar _ Hat Ha Hw Hh Hm H0 Hlt Hf. rewrite <- app_assoc in Hat.
  destruct (next_token_ok w g 125 l Hat Hg eq_refl) as (s' & E & Hat' & Htok & _). rewrite length_app in *. cbn [length] in *.
  destruct fuel as [|fuel]; [lia|]. exists (set_scanner s' w), es. split; [|split; [by split|split]].
  - step_with E. cbn [pack_object]. step. cbn [scanner set_scanner]. rewrite Htok. done.
  - apply built_weaken, built_refl; [done|]. eapply room_le; [done|lia].
  - by rewrite app_nil_r.
Qed.

Lemma obj_older obj (v : vworld X D) kvs es roots : var_wf v (obj :: roots) -> obj_holds obj (vars v) kvs es -> (obj < vnext v)%positive.
Proof. intros Hw Hh. destruct (oh_cell _ _ _ _ Hh) as (u & o & Hu & _). by apply (vw_fresh _ _ Hw obj u). Qed.

Lemma pack_members_cons g k g' t f a us f' a' :
  ign g -> ign g' -> nonzero k -> pack_ok t f a -> pack_members_ok us f' a' -> (1 <= length f')%nat ->
  pack_members_ok ((k, t) :: us) (g ++ char_s :: g' ++ f ++ f') (VaCstr (Some k) :: a ++ a').
Proof.
  intros Hg Hg' Hk (c & f0 & -> & Hc & _ & _ & _ & Hp) He Hf' fuel w obj kvs es roots m l ar Hnd Hat Ha Hw Hh Hm H0 Hlt Hf.
  rewrite length_app in *. cbn [length] in *. rewrite !length_app in *. cbn [length] in *.
  rewrite <- app_assoc, <- app_comm_cons, <- app_assoc in Hat.
  destruct (next_token_ok w g char_s _ Hat Hg eq_refl) as (s1 & E1 & Hat1 & Htok1 & _).
  assert (args (set_scanner s1 w) = VaCstr (Some k) :: a ++ a' ++ ar) as Ha1.
  { cbn. rewrite Ha. by rewrite <- app_comm_cons, app_assoc. }
  pose proof (arg_cstr_ok _ _ _ Ha1) as E2. set (w2 := taken _ _) in E2.
  rewrite <- app_assoc, <- app_comm_cons in Hat1.
  destruct (next_token_ok w2 g' c _ Hat1 Hg' Hc) as (s3 & E3 & Hat3 & Htok3 & _). set (w3 := set_scanner s3 w2) in *.
  destruct fuel as [|fuel]; [lia|].
  destruct (Hp fuel w3 (obj :: roots) (m + zlen f') (f' ++ l) (a' ++ ar)) as (p & w4 & E4 & C4 & B4 & Hin & Hme);
    [done|done|done|done|eapply room_le; [exact Hm|cbn [length]; lia]|lia|cbn [length]; lia|cbn [length]; lia|].
  pose proof (obj_older _ _ _ _ _ Hw Hh) as Hlt2. pose proof (obj_holds_extends _ _ (pv w3) _ _ _ Hh (b_ext _ _ _ _ _ B4) Hw) as Hh4.
  destruct (nodup_next _ _ _ _ Hnd) as [Hnk Hnd'].
  destruct (set_cstr_built obj k p t (vnext (pv w)) (m + zlen f') roots (pv w4) kvs es) as (v5 & key & E5 & B5 & Hh5);
    [apply B4|done|apply B4|done|done|done|apply B4|lia|done|done|].
  destruct (He fuel (set_pv v5 w4) obj (kvs ++ [(k, t)]) (es ++ [(key, p)]) roots m l ar) as (w6 & es' & E6 & C6 & B6 & Hh6);
    [done|apply C4|apply C4|apply B5|done|apply B5|done|rewrite length_app; cbn [length]; lia|lia|].
  exists w6, es'. split; [|split; [|split]].
  - step_with E1. cbn [pack_object]. step. change (token (scanner (set_scanner s1 w))) with (token s1). rewrite Htok1. chars.
    step_with E2. step_with E3. step_with E4. step. step_with (on_pv_ok _ w4 _ _ E5). exact E6.
  - destruct C4 as [_ _ C4e C4o]. destruct C6 as [C6a C6b C6e C6o]. split; [done|done|by rewrite C6e|by rewrite C6o].
  - eapply built_trans; [|exact B6|by intros b [= <-]]. eapply built_trans; [by apply built_weaken|exact B5|by intros b [= <-]].
  - by rewrite <- app_assoc in Hh6.
Qed.

Lemma pack_obj us f a : pack_members_ok us f a -> NoDup us.*1 -> pack_ok (TObj us) (123 :: f) a.
Proof.
  intros He Hnd. exists 123, f. do 5 (split; [done|]). intros fuel w roots m l ar Htok Hat Hargs Hw Hr H0 Hlt Hf.
  cbn [length] in *. destruct fuel as [|fuel]; [lia|].
  destruct (object_start (pv w) roots (m + zlen f) 8 Hw) as (v1 & E1 & B1 & Hh1); [eapply room_le; [exact Hr|lia]|lia|].
  destruct (He fuel (set_pv v1 w) (vnext (pv w)) [] [] roots m l ar) as (w2 & es' & E2 & C2 & B2 & Hh2);
    [done|done|done|apply B1|done|apply B1|done|cbn [length]; lia|lia|].
  exists (vnext (pv w)), w2. split; [|split; [|split; [|split; [left; lia|by eapply obj_done]]]].
  - cbn [pack]. step. rewrite Htok. cbn [Z.eqb Pos.eqb]. step_with (on_pv_ok _ w _ _ E1). exact E2.
  - destruct C2 as [C2a C2b C2e C2o]. by split.
  - eapply (built_whole (vnext (pv w))); [exact B1|exact B2|done|by eapply fresh_none|by eapply obj_closed].
Qed.

(** ** Values *)

Lemma packs_ok t f a : packs t f a -> pack_ok t f a.
Proof.
  revert t f a. apply (packs_mind X env D pack_ok (fun l f a => pack_elems_ok l f a /\ (1 <= length f)%nat)
    (fun kvs f a => pack_members_ok kvs f a /\ (1 <= length f)%nat)).
  - intros s Hs. by apply (pack_leaf (TStr s)), pk_z.
  - intros k. by apply (pack_leaf (TStr _)), pk_S.
  - by apply (pack_leaf TNull), pk_n.
  - intros z. by apply (pack_leaf (TBool _)), pk_b.
  - intros z. by apply (pack_leaf (TInt z)), pk_i.
  - intros z. by apply (pack_leaf (TInt z)), pk_I.
  - intros d. by apply (pack_leaf (TReal d)), pk_f.
  - intros l f a _ [He _]. by apply pack_arr.
  - intros kvs f a _ [He _] Hn. by apply pack_obj.
  - intros g Hg. split; [by apply pack_elems_end|]. rewrite length_app. cbn. lia.
  - intros g t f a l f' a' Hg _ Ht _ [He Hl]. split; [by apply pack_elems_cons|]. rewrite !length_app. lia.
  - intros g Hg. split; [by apply pack_members_end|]. rewrite length_app. cbn. lia.
  - intros g k g' t f a kvs f' a' Hg Hg' Hk _ Ht _ [He Hl]. split; [by apply pack_members_cons|]. rewrite length_app. cbn. lia.
Qed.

Lemma vpack_ok t f a g g' ar fuel err (v : vworld X D) roots m :
  packs t f a -> ign g -> ign g' -> var_wf v roots -> room (vars v) (m + zlen f) -> 0 <= m -> zlen f < 2 ^ 27 -> (length f <= fuel)%nat ->
  exists p v', ph_var_vpack fuel err (Some (g ++ f ++ g')) (a ++ ar) v = Ret (Some p, (v', clear_error err)) /\
    built None m (p :: roots) v v' /\ inside (vnext v) p /\ means (vars v') t p.
Proof.
  intros Hpk Hg Hg' Hw Hm H0 Hlt Hf. destruct (packs_ok t f a Hpk) as (c & f0 & -> & Hc & _ & _ & _ & Hp).
  assert (exists b r, g ++ (c :: f0) ++ g' = b :: r) as (b & r & Hbr) by (destruct g; by do 2 eexists).
  unfold ph_var_vpack. rewrite Hbr. set (w0 := PWorld v (scanner_init 0 (b :: r)) (a ++ ar) (clear_error err) ∅).
  assert (at_fmt (scanner w0) (g ++ c :: f0 ++ g')) as Hat0 by (split; [by cbn; rewrite <- Hbr|cbn; lia]).
  destruct (next_token_ok w0 g c (f0 ++ g') Hat0 Hg Hc) as (s1 & E1 & Hat1 & Htok1 & _).
  destruct (Hp fuel (set_scanner s1 w0) roots m g' ar) as (p & w2 & E2 & C2 & B2 & Hin & Hme);
    [done..|].
  destruct (next_token_end w2 g' (cs_at _ _ _ _ C2) Hg') as (s3 & E3 & Htok3).
  exists p, (pv w2). split; [|done]. unfold run_pack.
  assert ((next_token ;;; value <-- pack fuel ;;
    match value with
    | None => ret None
    | Some value => next_token ;;; k <-- get_token ;;
        if k =? 0 then ret (Some value) else on_vars (ph_var_delref value) ;;; failed Garbage None
    end) w0 = Ret (Some p, set_scanner s3 w2)) as ->.
  { step_with E1. step_with E2. step_with E3. step. change (token (scanner (set_scanner s3 w2))) with (token s3). by rewrite Htok3. }
  change (error (set_scanner s3 w2)) with (error w2). by rewrite (cs_error _ _ _ _ C2).
Qed.

(** Packing a format of the grammar returns a new variant with the value the
    format and the arguments describe, leaves all other variants as they were,
    keeps the reference counts exact and leaks no string. *)
Theorem pack_builds t f a g g' ar fuel err (v : vworld X D) roots :
  packs t f a -> ign g -> ign g' -> var_wf v roots -> room (vars v) (zlen f) -> zlen f < 2 ^ 27 -> (length f <= fuel)%nat ->
  exists p v', ph_var_vpack fuel err (Some (g ++ f ++ g')) (a ++ ar) v = Ret (Some p, (v', clear_error err)) /\
    built None 0 (p :: roots) v v' /\ means (vars v') t p.
Proof.
  intros Hpk Hg Hg' Hw Hm Hlt Hf. destruct (vpack_ok t f a g g' ar fuel err v roots 0) as (p & v' & E & Hb & _ & Hme); [done..|].
  by exists p, v'.
Qed.

End pack.

(** ** An example *)

(** [{s:[i,z],s:b}] with "k", 5, "ab", "l" and 1. *)
Definition demo_tree : tree Z := TObj [([107], TArr [TInt 5; TStr [97; 98]]); ([108], TBool true)].
Definition demo_format : list Z := [123; 115; 58; 91; 105; 44; 122; 93; 44; 115; 58; 98; 125].
Definition demo_args : list (va_t (D := Z)) := [VaCstr (Some [107]); VaInt 5; VaCstr (Some [97; 98]); VaCstr (Some [108]); VaInt 1].

Lemma demo_packs : packs (env := demo_env) demo_tree demo_format demo_args.
Proof.
  apply (pk_obj [([107], TArr [TInt 5; TStr [97; 98]]); ([108], TBool true)]);
    [|apply (bool_decide_unpack _); by vm_compute].
  apply (pm_cons [] [107] [58] _ [91; 105; 44; 122; 93] [VaInt 5; VaCstr (Some [97; 98])] _ [44; 115; 58; 98; 125]
    [VaCstr (Some [108]); VaInt 1]); [by repeat constructor..| |].
  - apply pk_arr. apply (pe_cons [] _ [105] [VaInt 5] _ [44; 122; 93] [VaCstr (Some [97; 98])]); [done|apply pk_i|].
    apply (pe_cons [44] _ [122] [VaCstr (Some [97; 98])] _ [93] []); [by repeat constructor|apply pk_z; by repeat constructor|].
    by apply (pe_end []).
  - apply (pm_cons [44] [108] [58] _ [98] [VaInt 1] _ [125] []); [by repeat constructor..|apply (pk_b 1)|].
    by apply (pm_end []).
Qed.

Lemma pack_builds_witness :
  exists p v', ph_var_vpack (jenv := JsonRoundTrip.demo_jenv) 20 None (Some ([32] ++ demo_format ++ [])) (demo_args ++ []) JsonRoundTrip.start_world =
      Ret (Some p, (v', None)) /\
    built (env := demo_env) demo_srefs None 0 [p] JsonRoundTrip.start_world v' /\ means (contents_of (var_env := demo_env)) (vars v') demo_tree p.
Proof.
  pose proof demo_env_ok. pose proof JsonRoundTrip.demo_json_plenty.
  refine (pack_builds (jenv := JsonRoundTrip.demo_jenv) demo_srefs demo_tree demo_format demo_args [32] [] [] 20 None JsonRoundTrip.start_world []
    demo_packs _ _ JsonRoundTrip.start_wf _ _ _).
  - by repeat constructor.
  - done.
  - intros p v Hp Hv. destruct Hp as [->|[->| ->]]; injection Hv as <-; by vm_compute.
  - by vm_compute.
  - by apply Nat.leb_le.
Defined.

End VarPackProofs.
