(* ===== verification/VarUnpack.v ===== *)
(** * Unpacking stores the parts of a value the format names *)

From Stdlib Require Import ZArith Lia.
From stdpp Require Import base numbers list gmap.
From S2P Require Import Prelude SysUtil PhString HashTable HashTableProofs StringKeys.
From S2P Require Import Variant VariantProofs VariantOps VariantGrow JsonLoad JsonLexProofs VariantBuild JsonRoundTrip VarPath.
From S2P Require Import VarPack VarPackProofs.

Module VarUnpack.
Export VarPackProofs.
Import JsonLoad JsonLexProofs HashTableProofs.
Import VarPack VarPath.

(** ** What is stored *)

(** The value for a variable: a number, a string with these bytes, or the variant
    with this value. *)
Inductive want_t (D : Type) :=
  | WVal (o : out_t (D := D))
  | WStr (s : list Z)
  | WVar (t : tree D).
Arguments WVal {D} o.
Arguments WStr {D} s.
Arguments WVar {D} t.

Section formats.
Context {X : Type} {env : var_env X} {D : Type} (double_of : Z -> D).
Abbreviation va := (va_t (D := D)).
Abbreviation want_t := (want_t D).

(** What a format character reads from a value, if the value has its type. *)
Definition reads (c : Z) (t : tree D) : option want_t :=
  if c =? char_s then match t with TStr s => Some (WStr s) | _ => None end
  else if c =? char_i then match t with TInt z => Some (WVal (OInt (s32 z))) | _ => None end
  else if c =? char_I then match t with TInt z => Some (WVal (OInt64 z)) | _ => None end
  else if c =? char_b then match t with TBool b => Some (WVal (OBool b)) | _ => None end
  else if c =? char_f then match t with TReal d => Some (WVal (ODouble d)) | _ => None end
  else if c =? char_F then
    match t with TReal d => Some (WVal (ODouble d)) | TInt z => Some (WVal (ODouble (double_of z))) | _ => None end
  else if c =? char_o then Some (WVar t)
  else None.
Definition scalars : list Z := [char_s; char_i; char_I; char_b; char_f; char_F; char_o].

(** The flags of the call. *)
Context (validate strict : bool).

Definition slot (l : positive) : list va := if validate then [] else [VaPtr (Some l)].
Definition stores (r : option (tree D)) (c : Z) (l : positive) : list (positive * want_t) :=
  if validate then [] else match r ≫= reads c with Some w => [(l, w)] | None => [] end.

(** The format and the arguments that unpack a value, and what is stored where;
    without a value ([None]) the format is skipped.  [seen] are the keys named so far, [i]
    is the number of elements. *)
Inductive unpacks : option (tree D) -> list Z -> list va -> list (positive * want_t) -> Prop :=
  | up_scalar r c l : c ∈ scalars -> (forall t, r = Some t -> is_Some (reads c t)) -> unpacks r [c] (slot l) (stores r c l)
  | up_null r : r = None \/ r = Some TNull -> unpacks r [char_n] [] []
  | up_arr ts f a ws : unpacks_elems ts 0 f a ws -> unpacks (TArr <$> ts) (91 :: f) a ws
  | up_obj kvs f a ws : unpacks_members kvs [] f a ws -> (forall l, kvs = Some l -> zlen l <= 2 ^ 27) ->
      unpacks (TObj <$> kvs) (123 :: f) a ws
with unpacks_elems : option (list (tree D)) -> nat -> list Z -> list va -> list (positive * want_t) -> Prop :=
  | ue_end ts i g : ign g -> (forall l, ts = Some l -> strict = true -> i = length l) -> unpacks_elems ts i (g ++ [93]) [] []
  | ue_all ts i g g' : ign g -> ign g' -> (forall l, ts = Some l -> i = length l) -> unpacks_elems ts i (g ++ 33 :: g' ++ [93]) [] []
  | ue_some ts i g g' : ign g -> ign g' -> unpacks_elems ts i (g ++ 42 :: g' ++ [93]) [] []
  | ue_cons ts i r g f a ws f' a' ws' : ign g -> (forall l, ts = Some l -> is_Some (l !! i)) -> r = ts ≫= lookup i ->
      unpacks r f a ws -> unpacks_elems ts (S i) f' a' ws' -> unpacks_elems ts i (g ++ f ++ f') (a ++ a') (ws ++ ws')
with unpacks_members : option (list (list Z * tree D)) -> list (list Z) -> list Z -> list va -> list (positive * want_t) -> Prop :=
  | um_end kvs seen g : ign g -> unpacks_members kvs seen (g ++ [125]) [] []
  | um_all kvs seen g g' : ign g -> ign g' -> (forall l, kvs = Some l -> length seen = length l) ->
      unpacks_members kvs seen (g ++ 33 :: g' ++ [125]) [] []
  | um_some kvs seen g g' : ign g -> ign g' -> unpacks_members kvs seen (g ++ 42 :: g' ++ [125]) [] []
  | um_cons kvs seen r g k g' opt f a ws f' a' ws' : ign g -> ign g' -> (opt = [] \/ exists g'', opt = 63 :: g'' /\ ign g'') ->
      nonzero k -> k ∉ seen -> r = kvs ≫= tree_get k -> (forall l, kvs = Some l -> r = None -> opt <> []) ->
      unpacks r f a ws -> unpacks_members kvs (seen ++ [k]) f' a' ws' ->
      unpacks_members kvs seen (g ++ char_s :: g' ++ opt ++ f ++ f') (VaCstr (Some k) :: a ++ a') (ws ++ ws').

(** The variable gets what is wanted. *)
Definition granted (h : gmap positive (ph_variant D)) (w : want_t) (o : out_t) : Prop :=
  match w with
  | WVal o' => o = o'
  | WStr s => exists k, o = OString k /\ contents_of k = s
  | WVar t => exists q, o = OVar q /\ means contents_of h t q
  end.

Inductive puts (h : gmap positive (ph_variant D)) : list (positive * want_t) -> gmap positive (out_t (D := D)) -> gmap positive (out_t (D := D)) -> Prop :=
  | puts_nil m : puts h [] m m
  | puts_cons l w o ws m m' : granted h w o -> puts h ws (<[l := o]> m) m' -> puts h ((l, w) :: ws) m m'.

Lemma puts_app h ws ws' m m' m'' : puts h ws m m' -> puts h ws' m' m'' -> puts h (ws ++ ws') m m''.
Proof. induction 1; intros; [done|]. cbn. econstructor; eauto. Qed.
End formats.

Scheme unpacks_mind := Minimality for unpacks Sort Prop
  with unpacks_elems_mind := Minimality for unpacks_elems Sort Prop
  with unpacks_members_mind := Minimality for unpacks_members Sort Prop.

Section unpack.
Context {X : Type} {env : var_env X} {jenv : json_env X env} {D : Type}.
Context {srefs : X -> positive -> Z} `{Henv : !VariantProofs.var_env_ok env srefs} `{Hplenty : !plenty env jenv srefs}.
Context (kstr : list Z -> positive) (double_of : Z -> D) (Hkstr : forall k, contents_of (kstr k) = k).
Context (fl : Z) (v0 : vworld X D) (roots0 : list positive) (Hw0 : var_wf v0 roots0).
Implicit Types w : @pworld X D.
Abbreviation quiet := (quiet srefs).
Abbreviation built := (built srefs).
Abbreviation reaches := (reaches (env := env) (vars v0)).
Abbreviation puts := (puts (env := env) (vars v0)).

Definition validating : bool := negb (Z.land fl PH_VAR_VALIDATE_ONLY =? 0).
Definition strictly : bool := negb (Z.land fl PH_VAR_STRICT =? 0).

(** The variants of [v0] are still there. *)
Definition kept (h : gmap positive (ph_variant D)) : Prop :=
  forall q u, vars v0 !! q = Some u -> exists u', h !! q = Some u' /\ body u' = body u.

(** From [w] to [w'] the format and the arguments were consumed. *)
Record used w w' (l : list Z) (ar : list va_t) : Prop := {
  us_at : at_fmt (scanner w') l;
  us_args : args w' = ar;
  us_error : error w' = error w;
  us_flags : flags (scanner w') = fl;
}.

Lemma used_scanner w s l ar : at_fmt s l -> args w = ar -> flags s = fl -> used w (set_scanner s w) l ar.
Proof. by split. Qed.

Lemma used_from w1 w w' l ar : used w1 w' l ar -> error w1 = error w -> used w w' l ar.
Proof. intros [H1 H2 H3 H4] E. split; congruence || done. Qed.

Lemma load_var_ok w p u : vars (pv w) !! p = Some u -> load_var p w = Ret (u, w).
Proof. intros Hu. unfold load_var, on_vars. rewrite (load_eq _ p u Hu). by destruct w. Qed.

Lemma flag_ok w f : flags (scanner w) = fl -> flag_set f w = Ret (negb (Z.land fl f =? 0), w).
Proof. intros <-. done. Qed.

(** The root in the variants at hand. *)
Lemma root_body t p w : kept (vars (pv w)) -> denotes contents_of (vars v0) t p ->
  exists u u0, vars (pv w) !! p = Some u /\ vars v0 !! p = Some u0 /\ body u = body u0.
Proof.
  intros Hk Hd. destruct (denotes_live _ _ _ Hd) as [u0 Hu0]. destruct (Hk p u0 Hu0) as (u & Hu & Hb). by exists u, u0.
Qed.

(** ** Scalars *)

Definition unpack_ok (r : option (tree D)) (f : list Z) (a : list va_t) (ws : list (positive * want_t D)) : Prop :=
  exists c f', f = c :: f' /\ is_ignored c = false /\ c ∈ unpack_value_starters /\
  forall fuel w roots l ar root,
  token (scanner w) = c -> at_fmt (scanner w) (f' ++ l) -> args w = a ++ ar -> flags (scanner w) = fl ->
  var_wf (pv w) roots -> kept (vars (pv w)) -> reaches r root ->
  room (vars (pv w)) (zlen f) -> zlen f < 2 ^ 27 -> (length f <= fuel)%nat ->
  exists w', unpack kstr double_of fuel root w = Ret (true, w') /\ quiet (pv w) (pv w') /\ used w w' l ar /\
    puts ws (outs w) (outs w').

(** A scalar was stored, if there is a root. *)
Definition scalar_done (r : option (tree D)) (c : Z) (l : positive) (ar : list va_t) w (res : outcome (bool * pworld)) : Prop :=
  exists w', res = Ret (true, w') /\ pv w' = pv w /\ scanner w' = scanner w /\ args w' = ar /\ error w' = error w /\
    puts (stores double_of validating r c l) (outs w) (outs w').

Lemma assign_ok r root w l ar c o :
  flags (scanner w) = fl -> args w = slot validating l ++ ar -> kept (vars (pv w)) -> reaches r root ->
  (forall t p u, r = Some t -> root = Some p -> denotes contents_of (vars v0) t p -> vars v0 !! p = Some u ->
    exists wt, reads double_of c t = Some wt /\ granted (env := env) (vars v0) wt (o (body u))) ->
  scalar_done r c l ar w (assign root o w).
Proof.
  intros Hf Ha Hk Hr Ho. unfold assign, scalar_done, stores. unfold slot in Ha.
  step_with (flag_ok w PH_VAR_VALIDATE_ONLY Hf). fold validating. destruct validating.
  { exists w. by repeat (split; [done|]); constructor. }
  step_with (arg_ptr_ok w _ _ Ha). destruct r as [t|], root as [p|]; try done.
  - destruct (root_body t p w Hk Hr) as (u & u0 & Hu & Hu0 & Hb). step_with (load_var_ok (taken w ar) p u Hu).
    destruct (Ho t p u0) as (wt & Hwt & Hg); [done..|]. eexists. split; [reflexivity|]. do 4 (split; [done|]).
    cbn [mbind option_bind]. rewrite Hwt, Hb. econstructor; [done|]. constructor.
  - exists (taken w ar). by repeat (split; [done|]); constructor.
Qed.

Lemma check_ok r root w ok :
  kept (vars (pv w)) -> reaches r root ->
  (forall t p u, r = Some t -> denotes contents_of (vars v0) t p -> vars v0 !! p = Some u -> ok (body u) = true) ->
  check_type root ok w = Ret (true, w).
Proof.
  intros Hk Hr Ho. unfold check_type. destruct r as [t|], root as [p|]; try done.
  destruct (root_body t p w Hk Hr) as (u & u0 & Hu & Hu0 & Hb). step_with (load_var_ok w p u Hu). by rewrite Hb, (Ho t p u0).
Qed.

Lemma scalar_ok r root w l ar c ok o :
  flags (scanner w) = fl -> args w = slot validating l ++ ar -> kept (vars (pv w)) -> reaches r root ->
  (forall t p u, r = Some t -> denotes contents_of (vars v0) t p -> vars v0 !! p = Some u ->
    ok (body u) = true /\ exists wt, reads double_of c t = Some wt /\ granted (env := env) (vars v0) wt (o (body u))) ->
  scalar_done r c l ar w (unpack_scalar root c ok o w).
Proof.
  intros Hf Ha Hk Hr Ho. unfold unpack_scalar. assert (check_type root ok w = Ret (true, w)) as E.
  { eapply check_ok; [done|done|]. intros t p u Ht Hd Hu. by apply (Ho t p u). }
  step_with E. apply assign_ok; [done|done|done|done|]. intros t p u Ht _ Hd Hu. by apply (Ho t p u).
Qed.

Lemma string_ok r root w l ar :
  flags (scanner w) = fl -> args w = slot validating l ++ ar -> kept (vars (pv w)) -> reaches r root ->
  (forall t, r = Some t -> is_Some (reads double_of char_s t)) ->
  scalar_done r char_s l ar w (unpack_string root char_s w).
Proof.
  intros Hf Ha Hk Hr Ho. unfold unpack_string, scalar_done, stores. unfold slot in Ha.
  assert (forall t p u, r = Some t -> denotes contents_of (vars v0) t p -> vars v0 !! p = Some u ->
    exists k, body u = PH_VAR_STRING k /\ t = TStr (contents_of k)) as Hs.
  { intros t p u Ht Hd Hu. destruct (Ho t Ht) as [wt Hwt]. destruct t as [| | | |s| |]; try done.
    destruct Hd as (u' & Hu' & Hb). rewrite Hu in Hu'. injection Hu' as <-. destruct (body u) as [| |k| | | | |]; try done. exists k. by rewrite Hb. }
  assert (check_type root is_string w = Ret (true, w)) as E.
  { eapply check_ok; [done|done|]. intros t p u Ht Hd Hu. destruct (Hs t p u Ht Hd Hu) as (k & -> & _). done. }
  step_with E. cbn [negb]. step_with (flag_ok w PH_VAR_VALIDATE_ONLY Hf). fold validating. destruct validating.
  { exists w. by repeat (split; [done|]); constructor. }
  step_with (arg_ptr_ok w _ _ Ha). destruct r as [t|], root as [p|]; try done.
  - destruct (root_body t p w Hk Hr) as (u & u0 & Hu & Hu0 & Hb). step_with (load_var_ok (taken w ar) p u Hu).
    destruct (Hs t p u0) as (k & Hb0 & ->); [done..|]. rewrite Hb, Hb0. eexists. split; [reflexivity|]. do 4 (split; [done|]).
    cbn. econstructor; [|constructor]. by exists k.
  - exists (taken w ar). by repeat (split; [done|]); constructor.
Qed.

Lemma unpack_scalar_ok r c l :
  c ∈ scalars -> (forall t, r = Some t -> is_Some (reads double_of c t)) ->
  unpack_ok r [c] (slot validating l) (stores double_of validating r c l).
Proof.
  intros Hc Hr. exists c, []. split; [done|].
  assert (forall fuel w ar root, token (scanner w) = c -> args w = slot validating l ++ ar -> flags (scanner w) = fl ->
    kept (vars (pv w)) -> reaches r root -> scalar_done r c l ar w (unpack kstr double_of (S fuel) root w)) as H.
  { intros fuel w ar root Htok Ha Hf Hk Hrt. cbn [unpack]. step. rewrite Htok.
    unfold scalars in Hc. set_unfold in Hc.
    assert (forall t p u, r = Some t -> denotes contents_of (vars v0) t p -> vars v0 !! p = Some u -> exists wt,
       reads double_of c t = Some wt /\ denotes contents_of (vars v0) t p /\ exists u', vars v0 !! p = Some u' /\ u' = u) as Hrd.
    { intros t p u Ht Hd Hu. destruct (Hr t Ht) as [wt Hwt]. exists wt. split; [done|]. split; [done|]. by exists u. }
    destruct Hc as [->|[->|[->|[->|[->|[->|[->|[]]]]]]]]; chars.
    1: by apply string_ok.
    6:{ step_with (flag_ok w PH_VAR_VALIDATE_ONLY Hf). destruct root as [p|]; step; (apply assign_ok; [done|done|done|done|]);
        intros t q u -> Hq Hd Hu; [injection Hq as <-|done]; exists (WVar t); (split; [done|]); exists p; (split; [done|]); exists t; (split; [constructor|done]). }
    all: apply scalar_ok; try done; intros t p u Ht Hd Hu; destruct (Hrd t p u Ht Hd Hu) as (wt & Hwt & Hd' & u' & Hu' & ->);
      destruct t; try done; destruct Hd' as (u2 & Hu2 & Hb); rewrite Hu in Hu2; injection Hu2 as <-;
      try case_match; destruct (body u); try done; subst; (split; [done|]); eexists; (split; [reflexivity|done]). }
  split; [unfold scalars in Hc; set_unfold in Hc; naive_solver|].
  split; [unfold scalars, unpack_value_starters in *; set_unfold in Hc; set_unfold; cbv [char_s char_i char_I char_b char_f char_F char_o] in *; naive_solver|].
  intros fuel w roots l' ar root Htok Hat Ha Hf Hw Hk Hrt _ _ Hfu. destruct fuel as [|fuel]; [cbn in Hfu; lia|].
  destruct (H fuel w ar root) as (w' & E & Hpv & Hsc & Har & Her & Hp); [done..|].
  exists w'. split; [done|]. split; [rewrite Hpv; apply quiet_refl|]. split; [|done]. split; rewrite ?Hsc; done.
Qed.

Lemma unpack_null_ok r : r = None \/ r = Some TNull -> unpack_ok r [char_n] [] [].
Proof.
  intros Hr. exists char_n, []. split; [done|]. split; [done|]. split; [unfold unpack_value_starters; set_solver|].
  intros fuel w roots l ar root Htok Hat Ha Hf Hw Hk Hrt _ _ Hfu. destruct fuel as [|fuel]; [cbn in Hfu; lia|].
  exists w. split; [|split; [apply quiet_refl|split; [by split|constructor]]].
  cbn [unpack]. step. rewrite Htok. chars. assert (check_type root is_null w = Ret (true, w)) as E; [|by step_with E].
  eapply check_ok; [done|done|]. intros t p u Ht Hd Hu. destruct Hr as [->| ->]; [done|]. injection Ht as <-.
  destruct Hd as (u2 & Hu2 & Hb). rewrite Hu in Hu2. injection Hu2 as <-. by destruct (body u).
Qed.

(** ** Arrays *)

Definition unpack_elems_ok (ts : option (list (tree D))) (i : nat) (f : list Z) (a : list va_t) (ws : list (positive * want_t D)) : Prop :=
  forall fuel w roots l ar root,
  at_fmt (scanner w) (f ++ l) -> args w = a ++ ar -> flags (scanner w) = fl -> var_wf (pv w) roots -> kept (vars (pv w)) ->
  reaches (TArr <$> ts) root -> room (vars (pv w)) (zlen f) -> Z.of_nat i + zlen f < 2 ^ 27 -> (length f <= fuel)%nat ->
  exists w', (next_token ;;; unpack_array kstr double_of fuel root (Z.of_nat i) 0) w = Ret (true, w') /\ quiet (pv w) (pv w') /\
    used w w' l ar /\ puts ws (outs w) (outs w').

Lemma array_size ts p w : kept (vars (pv w)) -> denotes contents_of (vars v0) (TArr ts) p ->
  exists u, vars (pv w) !! p = Some u /\ ph_var_array_size u = zlen ts.
Proof.
  intros Hk Hd. destruct (root_body _ p w Hk Hd) as (u & u0 & Hu & Hu0 & Hb). exists u. split; [done|].
  apply denotes_arr in Hd as (u1 & al & ps & Hu1 & Hb1 & Hall). rewrite Hu0 in Hu1. injection Hu1 as <-.
  unfold ph_var_array_size. rewrite Hb, Hb1. by rewrite (Forall2_length _ _ _ Hall).
Qed.

Lemma array_end ts i fuel w root str :
  token (scanner w) = 93 -> flags (scanner w) = fl -> kept (vars (pv w)) -> reaches (TArr <$> ts) root ->
  (forall l, ts = Some l -> str = 1 \/ str = 0 /\ strictly = true -> i = length l) ->
  unpack_array kstr double_of (S fuel) root (Z.of_nat i) str w = Ret (true, w).
Proof.
  intros Htok Hf Hk Hr Hi. cbn [unpack_array]. step. rewrite Htok. cbn [Z.eqb Pos.eqb].
  step_with (flag_ok w PH_VAR_STRICT Hf). fold strictly. destruct ts as [ts|], root as [p|]; try done.
  destruct (array_size ts p w Hk Hr) as (u & Hu & Hs). specialize (Hi ts eq_refl).
  destruct (Z.eqb_spec (if (str =? 0) && strictly then 1 else str) 1) as [H1|]; [|done].
  step_with (load_var_ok w p u Hu). rewrite Hs, Hi, Z.eqb_refl; [done|].
  destruct (Z.eqb_spec str 0) as [->|]; [|by left]. destruct strictly; [by right|by left].
Qed.

Lemma elems_end ts i g : ign g -> (forall l, ts = Some l -> strictly = true -> i = length l) -> unpack_elems_ok ts i (g ++ [93]) [] [].
Proof.
  intros Hg Hi fuel w roots l ar root Hat Ha Hf Hw Hk Hr _ _ Hfu. rewrite <- app_assoc in Hat. rewrite length_app in Hfu.
  destruct fuel as [|fuel]; [cbn in Hfu; lia|].
  destruct (next_token_ok w g 93 l Hat Hg eq_refl) as (s' & E & Hat' & Htok & Hfl). exists (set_scanner s' w).
  split; [|split; [apply quiet_refl|split; [apply used_scanner; [done|done|congruence]|constructor]]].
  step_with E. apply (array_end ts); [done|by rewrite <- Hf|done|done|]. intros l' Hl [?|[_ ?]]; [lia|auto].
Qed.

Lemma elems_mark ts i g g' c :
  ign g -> ign g' -> c = 33 \/ c = 42 -> (forall l, ts = Some l -> c = 33 -> i = length l) ->
  unpack_elems_ok ts i (g ++ c :: g' ++ [93]) [] [].
Proof.
  intros Hg Hg' Hc Hi fuel w roots l ar root Hat Ha Hf Hw Hk Hr _ _ Hfu. rewrite <- app_assoc, <- app_comm_cons, <- app_assoc in Hat.
  rewrite length_app in Hfu. cbn [length] in Hfu. rewrite length_app in Hfu. cbn [length] in Hfu. destruct fuel as [|[|fuel]]; [lia|lia|].
  assert (is_ignored c = false) as Hci by (by destruct Hc as [-> | ->]).
  destruct (next_token_ok w g c _ Hat Hg Hci) as (s1 & E1 & Hat1 & Htok1 & Hfl1). set (w1 := set_scanner s1 w) in *.
  destruct (next_token_ok w1 g' 93 l Hat1 Hg' eq_refl) as (s2 & E2 & Hat2 & Htok2 & Hfl2). exists (set_scanner s2 w1).
  assert (flags s2 = fl) by (change (flags s2 = flags s1) in Hfl2; congruence).
  split; [|split; [apply quiet_refl|split; [apply (used_scanner w); [done..]|constructor]]].
  assert (unpack_array kstr double_of (S fuel) root (Z.of_nat i) (if c =? 33 then 1 else -1) (set_scanner s2 w1) =
    Ret (true, set_scanner s2 w1)) as E3.
  { apply (array_end ts); [done|done|done|done|]. intros l' Hl Hs. apply Hi; [done|].
    destruct Hc as [->| ->]; [done|]. cbn in Hs. lia. }
  step_with E1. destruct fuel; unfold unpack_array; fold (unpack_array (X := X) (D := D) kstr double_of); step;
    change (token (scanner w1)) with (token s1); rewrite Htok1;
    destruct Hc as [->| ->]; cbn [Z.eqb Pos.eqb negb orb]; step_with E2; exact E3.
Qed.

Lemma starter_ok c : c ∈ unpack_value_starters -> c <> 93 /\ c <> 125 /\ c <> 0 /\ c <> 33 /\ c <> 42 /\ c <> 63.
Proof. unfold unpack_value_starters. intros Hc. set_unfold in Hc. naive_solver. Qed.

Lemma used_trans w1 w2 w3 l l' ar ar' : used w1 w2 l ar -> used w2 w3 l' ar' -> used w1 w3 l' ar'.
Proof. intros [_ _ E1 _] [H1 H2 E2 F2]. split; congruence || done. Qed.

Lemma quiet_kept v v' : quiet v v' -> kept (vars v) -> kept (vars v').
Proof. intros [-> _ _]. done. Qed.

Lemma elem_at_ok ts i w root :
  kept (vars (pv w)) -> reaches (TArr <$> ts) root -> (forall l, ts = Some l -> is_Some (l !! i)) ->
  exists value, (match root with None => ret None | Some p => v <-- load_var p ;; ret (ph_var_array_get v (Z.of_nat i)) end) w =
      Ret (value, w) /\ reaches (ts ≫= lookup i) value.
Proof.
  intros Hk Hr Hi. destruct ts as [ts|], root as [p|]; try done; [|by exists None].
  destruct (root_body _ p w Hk Hr) as (u & u0 & Hu & Hu0 & Hb). exists (ph_var_array_get u (Z.of_nat i)).
  split; [by step_with (load_var_ok w p u Hu)|].
  pose proof (index_reaches v0 (TArr ts) p u0 (Z.of_nat i) Hr Hu0 ltac:(lia)) as H. cbn [select] in H. rewrite Nat2Z.id in H.
  unfold ph_var_array_get in *. by rewrite Hb.
Qed.

Lemma elems_cons ts i r g f a ws f' a' ws' :
  ign g -> (forall l, ts = Some l -> is_Some (l !! i)) -> r = ts ≫= lookup i ->
  unpack_ok r f a ws -> unpack_elems_ok ts (S i) f' a' ws' -> (1 <= length f')%nat -> unpack_elems_ok ts i (g ++ f ++ f') (a ++ a') (ws ++ ws').
Proof.
  intros Hg Hi -> (c & f0 & -> & Hc & Hst & Hp) He Hl' fuel w roots l ar root Hat Ha Hf Hw Hk Hr Hm Hlt Hfu.
  rewrite !length_app in *. cbn [length] in *. rewrite <- !app_assoc, <- app_comm_cons in Hat. rewrite <- app_assoc in Ha.
  destruct (next_token_ok w g c _ Hat Hg Hc) as (s1 & E1 & Hat1 & Htok1 & Hfl1). set (w1 := set_scanner s1 w) in *.
  destruct fuel as [|fuel]; [lia|]. destruct (elem_at_ok ts i w1 root) as (value & E2 & Hv); [done..|].
  destruct (Hp fuel w1 roots (f' ++ l) (a' ++ ar) value) as (w3 & E3 & Q3 & U3 & P3);
    [done|done|done|by rewrite <- Hf|done|done|done|eapply room_le; [exact Hm|cbn [length]; lia]|cbn [length]; lia|cbn [length]; lia|].
  destruct (He fuel w3 roots l ar root) as (w4 & E4 & Q4 & U4 & P4);
    [apply U3|apply U3|apply U3|by eapply quiet_wf|by eapply quiet_kept|done|rewrite (q_vars _ _ Q3); eapply room_le; [exact Hm|lia]|lia|lia|].
  exists w4. split; [|split; [by eapply quiet_trans|split; [apply (used_from w1); [by eapply used_trans|done]|by eapply puts_app]]].
  step_with E1. cbn [unpack_array]. step. change (token (scanner w1)) with (token s1). rewrite Htok1.
  destruct (starter_ok c Hst) as (H1 & _ & H3 & H4 & H5 & _). do 4 (rewrite (proj2 (Z.eqb_neq c _)) by done).
  rewrite bool_decide_eq_true_2 by done. cbn [negb orb]. change (negb (0 =? 0)) with false. cbv iota.
  step_with E2. replace (u32 (Z.of_nat i + 1)) with (Z.of_nat (S i)) by (rewrite wrapU_small; lia).
  assert ((ok <-- unpack kstr double_of fuel value ;;
    (if negb ok then ret false else next_token ;;; unpack_array kstr double_of fuel root (Z.of_nat (S i)) 0)) w1 = Ret (true, w4)) as E5.
  { step_with E3. exact E4. }
  destruct ts as [ts|], root as [p|]; try done. destruct value; [done|]. destruct (Hi ts eq_refl) as [t Ht]. cbn in Hv. by rewrite Ht in Hv.
Qed.

Lemma unpack_arr_ok ts f a ws : unpack_elems_ok ts 0 f a ws -> unpack_ok (TArr <$> ts) (91 :: f) a ws.
Proof.
  intros He. exists 91, f. split; [done|]. split; [done|]. split; [unfold unpack_value_starters; set_solver|].
  intros fuel w roots l ar root Htok Hat Ha Hf Hw Hk Hr Hm Hlt Hfu. cbn [length] in *. destruct fuel as [|fuel]; [lia|].
  destruct (He fuel w roots l ar root) as (w' & E & Q & U & P); [done|done|done|done|done|done|eapply room_le; [exact Hm|lia]|lia|lia|].
  exists w'. split; [|done]. cbn [unpack]. step. rewrite Htok. cbn [Z.eqb Pos.eqb].
  assert (check_type root is_array w = Ret (true, w)) as E2; [|by step_with E2].
  eapply check_ok; [done|done|]. intros t p u Ht Hd Hu. destruct ts as [ts|]; [|done]. injection Ht as <-.
  apply denotes_arr in Hd as (u1 & al & ps & Hu1 & Hb1 & _). rewrite Hu in Hu1. injection Hu1 as <-. by rewrite Hb1.
Qed.

(** ** Objects *)

Definition nulls (seen : list (list Z)) : list (list Z * tree D) := (fun k => (k, TNull)) <$> seen.

(** The keys [seen] are in the set of keys, which was made in the state [v1]. *)
Definition unpack_members_ok (kvs : option (list (list Z * tree D))) (seen : list (list Z)) (f : list Z) (a : list va_t)
    (ws : list (positive * want_t D)) : Prop :=
  forall fuel w v1 roots es l ar root,
  at_fmt (scanner w) (f ++ l) -> args w = a ++ ar -> flags (scanner w) = fl -> var_wf v1 roots -> kept (vars v1) ->
  reaches (TObj <$> kvs) root -> built None (zlen f) (vnext v1 :: roots) v1 (pv w) ->
  obj_holds (vnext v1) (vars (pv w)) (nulls seen) es -> zlen seen + zlen f < 2 ^ 27 -> (length f <= fuel)%nat ->
  exists w', (next_token ;;; unpack_object kstr double_of fuel root (vnext v1) 0) w = Ret (true, w') /\
    built None 0 (vnext v1 :: roots) v1 (pv w') /\ used w w' l ar /\ puts ws (outs w) (outs w').

Lemma built_kept a m roots v v' : built a m roots v v' -> a = None -> kept (vars v) -> kept (vars v').
Proof.
  intros Hb -> Hk q u Hu. destruct (Hk q u Hu) as (u1 & Hu1 & Hb1).
  destruct (ex_old _ _ _ _ (b_ext _ _ _ _ _ Hb) q u1) as (u2 & Hu2 & Hb2); [done|done|]. exists u2. by rewrite Hb2.
Qed.

Lemma built_less m m' roots (v v' : vworld X D) : built None m roots v v' -> m' <= m -> built None m' roots v v'.
Proof. intros [H1 H2 H3 H4 H5] Hm. split; [done|done|done|by eapply room_le|done]. Qed.

Lemma object_size kvs p w roots : var_wf (pv w) roots -> kept (vars (pv w)) -> denotes contents_of (vars v0) (TObj kvs) p ->
  exists u, vars (pv w) !! p = Some u /\ ph_var_object_size u = zlen kvs.
Proof.
  intros Hw Hk Hd. destruct (root_body _ p w Hk Hd) as (u & u0 & Hu & Hu0 & Hb). exists u. split; [done|].
  apply denotes_obj in Hd as (u1 & o & Hu1 & Hb1 & Hall). rewrite Hu0 in Hu1. injection Hu1 as <-.
  pose proof (vw_body _ _ Hw p u Hu) as Hok. unfold ph_var_object_size. rewrite Hb, Hb1 in *. cbn in Hok.
  pose proof (wf_nelems _ _ _ Hok) as Hne. change (o_nelems o = zlen (entries (o_table o))) in Hne.
  by rewrite Hne, (Forall2_length _ _ _ Hall).
Qed.

Lemma nulls_length obj h seen es : obj_holds obj h (nulls seen) es -> length es = length seen.
Proof. intros H. pose proof (Forall2_length _ _ _ (oh_means _ _ _ _ H)) as E. unfold nulls in E. by rewrite length_fmap in E. Qed.

Lemma key_set_size obj seen es (v : vworld X D) roots : var_wf v roots -> obj_holds obj (vars v) (nulls seen) es ->
  exists u, vars v !! obj = Some u /\ ph_var_object_size u = zlen seen.
Proof.
  intros Hw Hh. pose proof (nulls_length _ _ _ _ Hh) as Hl. destruct (oh_cell _ _ _ _ Hh) as (u & o & Hu & Hb & Hp & _).
  exists u. split; [done|]. pose proof (vw_body _ _ Hw obj u Hu) as Hok. unfold ph_var_object_size. rewrite Hb in *. cbn in Hok.
  pose proof (wf_nelems _ _ _ Hok) as Hne. change (o_nelems o = zlen (entries (o_table o))) in Hne. rewrite Hne, <- Hl.
  by rewrite (Permutation_length Hp).
Qed.

Lemma object_end kvs seen fuel w v1 roots m es root str :
  token (scanner w) = 125 -> var_wf v1 roots -> kept (vars v1) -> reaches (TObj <$> kvs) root ->
  built None m (vnext v1 :: roots) v1 (pv w) -> obj_holds (vnext v1) (vars (pv w)) (nulls seen) es ->
  (forall l, kvs = Some l -> str = 1 -> length seen = length l) ->
  unpack_object kstr double_of (S fuel) root (vnext v1) str w = Ret (true, w).
Proof.
  intros Htok Hw Hk Hr Hb Hh Hi. cbn [unpack_object]. step. rewrite Htok. cbn [Z.eqb Pos.eqb].
  destruct kvs as [kvs|], root as [p|]; try done. destruct (Z.eqb_spec str 1) as [->|]; [|done].
  destruct (key_set_size _ _ _ _ _ (b_wf _ _ _ _ _ Hb) Hh) as (uk & Huk & Hsk).
  destruct (object_size kvs p w _ (b_wf _ _ _ _ _ Hb) (built_kept _ _ _ _ _ Hb eq_refl Hk) Hr) as (u & Hu & Hs).
  step_with (load_var_ok w _ uk Huk). step_with (load_var_ok w p u Hu). by rewrite Hsk, Hs, (Hi kvs eq_refl eq_refl), Z.eqb_refl.
Qed.

Lemma members_end kvs seen g : ign g -> unpack_members_ok kvs seen (g ++ [125]) [] [].
Proof.
  intros Hg fuel w v1 roots es l ar root Hat Ha Hf Hw Hk Hr Hb Hh _ Hfu. rewrite <- app_assoc in Hat. rewrite length_app in Hfu.
  destruct fuel as [|fuel]; [cbn in Hfu; lia|].
  destruct (next_token_ok w g 125 l Hat Hg eq_refl) as (s' & E & Hat' & Htok & Hfl). exists (set_scanner s' w).
  split; [|split; [by eapply built_less; [exact Hb|lia]|split; [apply used_scanner; [done|done|congruence]|constructor]]].
  step_with E. by eapply object_end.
Qed.

Lemma members_mark kvs seen g g' c :
  ign g -> ign g' -> c = 33 \/ c = 42 -> (forall l, kvs = Some l -> c = 33 -> length seen = length l) ->
  unpack_members_ok kvs seen (g ++ c :: g' ++ [125]) [] [].
Proof.
  intros Hg Hg' Hc Hi fuel w v1 roots es l ar root Hat Ha Hf Hw Hk Hr Hb Hh _ Hfu. rewrite <- app_assoc, <- app_comm_cons, <- app_assoc in Hat.
  rewrite length_app in Hfu. cbn [length] in Hfu. rewrite length_app in Hfu. cbn [length] in Hfu. destruct fuel as [|[|fuel]]; [lia|lia|].
  assert (is_ignored c = false) as Hci by (by destruct Hc as [-> | ->]).
  destruct (next_token_ok w g c _ Hat Hg Hci) as (s1 & E1 & Hat1 & Htok1 & Hfl1). set (w1 := set_scanner s1 w) in *.
  destruct (next_token_ok w1 g' 125 l Hat1 Hg' eq_refl) as (s2 & E2 & Hat2 & Htok2 & Hfl2). exists (set_scanner s2 w1).
  assert (flags s2 = fl) by (change (flags s2 = flags s1) in Hfl2; congruence).
  split; [|split; [by eapply built_less; [exact Hb|lia]|split; [apply (used_scanner w); done|constructor]]].
  assert (unpack_object kstr double_of (S fuel) root (vnext v1) (if c =? 33 then 1 else -1) (set_scanner s2 w1) =
    Ret (true, set_scanner s2 w1)) as E3.
  { eapply object_end; [done|done|done|done|exact Hb|exact Hh|]. intros l' Hl Hs. apply Hi; [done|].
    destruct Hc as [->| ->]; [done|]. cbn in Hs. lia. }
  step_with E1. destruct fuel; unfold unpack_object; fold (unpack_object (X := X) (D := D) kstr double_of); step;
    change (token (scanner w1)) with (token s1); rewrite Htok1;
    destruct Hc as [->| ->]; cbn [Z.eqb Pos.eqb negb orb]; step_with E2; exact E3.
Qed.

(** The key, an optional mark and the first character of the value. *)
Lemma value_token w g' opt c l :
  at_fmt (scanner w) (g' ++ opt ++ c :: l) -> ign g' -> (opt = [] \/ exists g'', opt = 63 :: g'' /\ ign g'') ->
  is_ignored c = false -> c <> 63 -> flags (scanner w) = fl ->
  exists s b, at_fmt s l /\ token s = c /\ flags s = fl /\ (b = false -> opt = []) /\
    forall (F : bool -> M (@pworld X D) bool),
      (next_token ;;; k <-- get_token ;; (if k =? 63 then next_token else ret tt) ;;; F (k =? 63)) w = F b (set_scanner s w).
Proof.
  intros Hat Hg' Hopt Hc Hq Hf. destruct Hopt as [->|(g'' & -> & Hg'')].
  - destruct (next_token_ok w g' c l Hat Hg' Hc) as (s & E & Hat' & Htok & Hfl). exists s, false.
    split; [done|]. split; [done|]. split; [congruence|]. split; [done|]. intros F. step_with E. step.
    change (token (scanner (set_scanner s w))) with (token s). rewrite Htok, (proj2 (Z.eqb_neq c 63)) by done. by step.
  - destruct (next_token_ok w g' 63 _ Hat Hg' eq_refl) as (s1 & E1 & Hat1 & Htok1 & Hfl1).
    destruct (next_token_ok (set_scanner s1 w) g'' c l Hat1 Hg'' Hc) as (s & E & Hat' & Htok & Hfl). exists s, true.
    split; [done|]. split; [done|]. split; [change (flags s = flags s1) in Hfl; congruence|]. split; [done|]. intros F.
    step_with E1. step. change (token (scanner (set_scanner s1 w))) with (token s1). rewrite Htok1. cbn [Z.eqb Pos.eqb]. by step_with E.
Qed.

Lemma member_at_ok kvs k w root :
  kept (vars (pv w)) -> reaches (TObj <$> kvs) root ->
  exists value, (match root with None => ret None | Some p => v <-- load_var p ;; ret (ph_var_object_get_cstr v (kstr k)) end) w =
      Ret (value, w) /\ reaches (kvs ≫= tree_get k) value.
Proof.
  intros Hk Hr. destruct kvs as [kvs|], root as [p|]; try done; [|by exists None].
  destruct (root_body _ p w Hk Hr) as (u & u0 & Hu & Hu0 & Hb). exists (ph_var_object_get_cstr (X := X) u (kstr k)).
  split; [by step_with (load_var_ok w p u Hu)|].
  pose proof (key_reaches kstr Hkstr v0 roots0 (TObj kvs) p u0 k Hw0 Hr Hu0) as H. cbn [select] in H.
  unfold ph_var_object_get_cstr, ph_var_object_get in *. by rewrite Hb.
Qed.

(** Remembering a key. *)
Lemma key_noted v1 roots (v : vworld X D) seen es k m :
  var_wf v1 roots -> built None (m + 1) (vnext v1 :: roots) v1 v -> obj_holds (vnext v1) (vars v) (nulls seen) es ->
  k ∉ seen -> nonzero k -> zlen seen < 2 ^ 27 -> 0 <= m ->
  exists v2 v3 key, ph_var_null v = Ret (null_variant, v2) /\
    ph_var_object_set_claim_cstr (vnext v1) k null_variant v2 = Ret (PH_OK, v3) /\
    built None m (vnext v1 :: roots) v1 v3 /\ obj_holds (vnext v1) (vars v3) (nulls (seen ++ [k])) (es ++ [(key, null_variant)]).
Proof.
  intros Hw Hb Hh Hk Hnz Hlt Hm. assert (is_static null_variant) as Hst by (by right; right).
  destruct (addref_static (srefs := srefs) v (vnext v1 :: roots) null_variant m (b_wf _ _ _ _ _ Hb) Hst (b_room _ _ _ _ _ Hb) Hm)
    as (v2 & E2 & Hb2 & u & Hu & Hbu).
  pose proof (obj_older _ _ _ _ _ (b_wf _ _ _ _ _ Hb) Hh) as Hold.
  pose proof (obj_holds_extends _ _ v _ _ _ Hh (b_ext _ _ _ _ _ Hb2) (b_wf _ _ _ _ _ Hb)) as Hh2.
  destruct (set_cstr_built (vnext v1) k null_variant TNull (Pos.succ (vnext v1)) m roots v2 (nulls seen) es) as (v3 & key & E3 & Hb3 & Hh3).
  - apply Hb2.
  - done.
  - apply Hh2.
  - by right.
  - lia.
  - exists TNull. split; [constructor|]. exists u. by rewrite Hbu.
  - apply Hb2.
  - rewrite (nulls_length _ _ _ _ Hh). lia.
  - unfold nulls. rewrite <- list_fmap_compose. cbn. by rewrite list_fmap_id.
  - done.
  - exists v2, v3, key. split; [exact E2|]. split; [exact E3|]. unfold nulls. rewrite fmap_app. split; [|exact Hh3].
    eapply (built_whole (vnext v1) m m); [|exact Hb3|done|by eapply fresh_none|by eapply obj_closed].
    eapply built_trans; [exact Hb|exact Hb2|done].
Qed.

Lemma members_cons kvs seen r g k g' opt f a ws f' a' ws' :
  ign g -> ign g' -> (opt = [] \/ exists g'', opt = 63 :: g'' /\ ign g'') ->
  nonzero k -> k ∉ seen -> r = kvs ≫= tree_get k -> (forall l, kvs = Some l -> r = None -> opt <> []) ->
  unpack_ok r f a ws -> unpack_members_ok kvs (seen ++ [k]) f' a' ws' -> (1 <= length f')%nat ->
  unpack_members_ok kvs seen (g ++ char_s :: g' ++ opt ++ f ++ f') (VaCstr (Some k) :: a ++ a') (ws ++ ws').
Proof.
  intros Hg Hg' Hopt Hnz Hks -> Hmiss (c & f0 & -> & Hc & Hst & Hp) He Hl' fuel w v1 roots es l ar root Hat Ha Hf Hw Hk Hr Hb Hh Hlt Hfu.
  destruct (starter_ok c Hst) as (_ & _ & _ & _ & _ & H63).
  rewrite length_app in *. cbn [length] in *. rewrite !length_app in *. cbn [length] in *.
  rewrite <- app_assoc, <- app_comm_cons, <- !app_assoc, <- app_comm_cons in Hat.
  destruct (next_token_ok w g char_s _ Hat Hg eq_refl) as (s1 & E1 & Hat1 & Htok1 & Hfl1).
  assert (args (set_scanner s1 w) = VaCstr (Some k) :: a ++ a' ++ ar) as Ha1.
  { cbn. rewrite Ha. by rewrite <- app_comm_cons, app_assoc. }
  pose proof (arg_cstr_ok _ _ _ Ha1) as E2. set (w2 := taken _ _) in E2.
  destruct (value_token w2 g' opt c _ Hat1 Hg' Hopt Hc H63) as (s3 & b & Hat3 & Htok3 & Hfl3 & Hbo & E3); [by rewrite <- Hf|].
  set (w3 := set_scanner s3 w2) in *. pose proof (built_kept _ _ _ _ _ Hb eq_refl Hk) as Hk3.
  destruct (member_at_ok kvs k w3 root Hk3 Hr) as (value & E4 & Hv). destruct fuel as [|fuel]; [lia|].
  destruct (Hp fuel w3 (vnext v1 :: roots) (f' ++ l) (a' ++ ar) value) as (w5 & E5 & Q5 & U5 & P5);
    [done|done|done|done|apply Hb|done|done|eapply room_le; [apply Hb|cbn [length]; lia]|cbn [length]; lia|cbn [length]; lia|].
  pose proof (built_quiet _ _ _ _ _ _ Hb Q5) as Hb5.
  destruct (key_noted v1 roots (pv w5) seen es k (zlen f') Hw) as (v6 & v7 & key & E6 & E7 & Hb7 & Hh7);
    [eapply built_less; [exact Hb5|lia]|by rewrite (q_vars _ _ Q5)|done|done|lia|lia|].
  destruct (He fuel (set_pv v7 (set_pv v6 w5)) v1 roots (es ++ [(key, null_variant)]) l ar root) as (w8 & E8 & Hb8 & U8 & P8);
    [apply U5|apply U5|apply U5|done|done|done|exact Hb7|exact Hh7|rewrite length_app; cbn [length]; lia|lia|].
  exists w8. split; [|split; [done|split; [|by eapply puts_app]]].
  - step_with E1. cbn [unpack_object]. step. change (token (scanner (set_scanner s1 w))) with (token s1). rewrite Htok1.
    chars. cbn [Z.eqb Pos.eqb negb orb]. step_with E2.
    transitivity ((value <-- (match root with None => ret None | Some p => v <-- load_var p ;; ret (ph_var_object_get_cstr v (kstr k)) end) ;;
      if (match root, value with Some _, None => negb b | _, _ => false end) then failed (NotFound k) false
      else ok <-- unpack kstr double_of fuel value ;;
           if negb ok then ret false
           else nul <-- on_vars ph_var_null ;; on_vars (ph_var_object_set_claim_cstr (vnext v1) k nul) ;;;
                next_token ;;; unpack_object kstr double_of fuel root (vnext v1) 0) w3); [exact (E3 (fun b => _))|]. step_with E4.
    assert (match root, value with Some _, None => negb b | _, _ => false end = false) as Hnm.
    { destruct kvs as [kvs|], root as [p|], value; try done. destruct b; [done|]. exfalso. apply (Hmiss kvs eq_refl); [|by apply Hbo].
      by destruct (Some kvs ≫= tree_get k). }
    rewrite Hnm. step_with E5. cbn [negb]. step_with (on_pv_ok _ w5 _ _ E6). step_with (on_pv_ok _ (set_pv v6 w5) _ _ E7). exact E8.
  - destruct U5 as [_ _ Ue _]. destruct U8 as [Va Vb Ve Vf]. split; [done|done|by rewrite Ve|done].
Qed.

Lemma unpack_obj_ok kvs f a ws :
  unpack_members_ok kvs [] f a ws -> (forall l, kvs = Some l -> zlen l <= 2 ^ 27) -> unpack_ok (TObj <$> kvs) (123 :: f) a ws.
Proof.
  intros He Hsz. exists 123, f. split; [done|]. split; [done|]. split; [unfold unpack_value_starters; set_solver|].
  intros fuel w roots l ar root Htok Hat Ha Hf Hw Hk Hr Hm Hlt Hfu. cbn [length] in *. destruct fuel as [|fuel]; [lia|].
  assert (exists n, (match root with Some p => v <-- load_var p ;; ret (ph_var_object_size v) | None => ret 0 end) w = Ret (n, w) /\
    0 <= n <= 2 ^ 27) as (n & En & Hn).
  { destruct kvs as [kvs|], root as [p|]; try done; [|by exists 0].
    destruct (object_size kvs p w _ Hw Hk Hr) as (u & Hu & Hs). exists (ph_var_object_size u).
    split; [by step_with (load_var_ok w p u Hu)|]. rewrite Hs. pose proof (Hsz kvs eq_refl). lia. }
  destruct (object_start (pv w) roots (zlen f) n Hw) as (v1 & E1 & B1 & Hh1); [eapply room_le; [exact Hm|lia]|done|].
  destruct (He fuel (set_pv v1 w) (pv w) roots [] l ar root) as (w2 & E2 & B2 & U2 & P2);
    [done|done|done|done|done|done|exact B1|exact Hh1|cbn; lia|lia|].
  destruct (temporary 0 roots (pv w) (pv w2) (vnext (pv w)) Hw B2) as (v3 & E3 & Q3).
  exists (set_pv v3 w2). split; [|split; [done|split; [|done]]].
  - cbn [unpack]. step. rewrite Htok. cbn [Z.eqb Pos.eqb]. assert (check_type root is_object w = Ret (true, w)) as E0.
    { eapply check_ok; [done|done|]. intros t p u Ht Hd Hu. destruct kvs as [kvs|]; [|done]. injection Ht as <-.
      apply denotes_obj in Hd as (u1 & o & Hu1 & Hb1 & _). rewrite Hu in Hu1. injection Hu1 as <-. by rewrite Hb1. }
    step_with E0. cbn [negb]. step_with En. step_with (on_pv_ok _ w _ _ E1).
    transitivity ((r <-- (next_token ;;; unpack_object kstr double_of fuel root (vnext (pv w)) 0) ;;
      on_vars (ph_var_delref (vnext (pv w))) ;;; ret r) (set_pv v1 w)).
    { unfold bind. by destruct (next_token (set_pv v1 w)) as [[[] ?]| |]. }
    step_with E2. by step_with (on_pv_ok _ w2 _ _ E3).
  - by destruct U2.
Qed.

(** ** Values *)

Abbreviation unpacks := (unpacks double_of validating strictly).

Lemma unpacks_ok r f a ws : unpacks r f a ws -> unpack_ok r f a ws.
Proof.
  revert r f a ws. apply (unpacks_mind D double_of validating strictly unpack_ok
    (fun ts i f a ws => unpack_elems_ok ts i f a ws /\ (1 <= length f)%nat)
    (fun kvs seen f a ws => unpack_members_ok kvs seen f a ws /\ (1 <= length f)%nat)).
  - intros. by apply unpack_scalar_ok.
  - intros. by apply unpack_null_ok.
  - intros ts f a ws _ [He _]. by apply unpack_arr_ok.
  - intros kvs f a ws _ [He _] Hs. by apply unpack_obj_ok.
  - intros. split; [by apply elems_end|]. rewrite length_app. cbn. lia.
  - intros. split; [by apply elems_mark; auto|]. rewrite length_app. cbn. lia.
  - intros. split; [by apply elems_mark; auto|]. rewrite length_app. cbn. lia.
  - intros ts i r g f a ws f' a' ws' Hg Hi Hr _ Hu _ [He Hl]. split; [by eapply elems_cons|]. rewrite !length_app. lia.
  - intros. split; [by apply members_end|]. rewrite length_app. cbn. lia.
  - intros. split; [by apply members_mark; auto|]. rewrite length_app. cbn. lia.
  - intros. split; [by apply members_mark; auto|]. rewrite length_app. cbn. lia.
  - intros kvs seen r g k g' opt f a ws f' a' ws' Hg Hg' Ho Hk Hs Hr Hm _ Hu _ [He Hl].
    split; [by eapply members_cons|]. rewrite !length_app. cbn. lia.
Qed.

Lemma vunpack_ok t p f a ws g g' ar fuel err o :
  unpacks (Some t) f a ws -> denotes contents_of (vars v0) t p -> ign g -> ign g' ->
  room (vars v0) (zlen f) -> zlen f < 2 ^ 27 -> (length f <= fuel)%nat ->
  exists v' o', ph_var_vunpack kstr double_of fuel (Some p) err fl (Some (g ++ f ++ g')) (a ++ ar) v0 o =
      Ret (PH_OK, (v', clear_error err, o')) /\ quiet v0 v' /\ puts ws o o'.
Proof.
  intros Hu Hd Hg Hg' Hm Hlt Hf. destruct (unpacks_ok _ _ _ _ Hu) as (c & f0 & -> & Hc & _ & Hp).
  assert (exists b r, g ++ (c :: f0) ++ g' = b :: r) as (b & r & Hbr) by (destruct g; by do 2 eexists).
  unfold ph_var_vunpack. rewrite Hbr. set (w0 := PWorld v0 (scanner_init fl (b :: r)) (a ++ ar) (clear_error err) o).
  assert (at_fmt (scanner w0) (g ++ c :: f0 ++ g')) as Hat0 by (split; [by cbn; rewrite <- Hbr|cbn; lia]).
  destruct (next_token_ok w0 g c (f0 ++ g') Hat0 Hg Hc) as (s1 & E1 & Hat1 & Htok1 & Hfl1).
  destruct (Hp fuel (set_scanner s1 w0) roots0 g' ar (Some p)) as (w2 & E2 & Q2 & U2 & P2);
    [done|done|done|done|done|intros q u Hq; by exists u|done|done|done|done|].
  destruct (next_token_end w2 g' (us_at _ _ _ _ U2) Hg') as (s3 & E3 & Htok3).
  exists (pv w2), (outs w2). split; [|done].
  assert (run_unpack kstr double_of fuel p w0 = Ret (PH_OK, set_scanner s3 w2)) as ->.
  { unfold run_unpack. step_with E1. step_with E2. cbn [negb]. step_with E3. step.
    change (token (scanner (set_scanner s3 w2))) with (token s3). by rewrite Htok3. }
  change (error (set_scanner s3 w2)) with (error w2). by rewrite (us_error _ _ _ _ U2).
Qed.

(** Unpacking a value with a format that fits it, with optional keys, strictness
    marks, skipped parts and validation only, returns PH_OK without an error,
    stores what the format names, and the temporary set of keys leaves no trace
    in variants or strings. *)
Theorem unpack_stores t p f a ws g g' ar fuel err o :
  unpacks (Some t) f a ws -> denotes contents_of (vars v0) t p -> ign g -> ign g' ->
  room (vars v0) (zlen f) -> zlen f < 2 ^ 27 -> (length f <= fuel)%nat ->
  exists v' o', ph_var_vunpack kstr double_of fuel (Some p) err fl (Some (g ++ f ++ g')) (a ++ ar) v0 o =
      Ret (PH_OK, (v', clear_error err, o')) /\ quiet v0 v' /\ puts ws o o'.
Proof. apply vunpack_ok. Qed.

End unpack.

(** ** Unpacking what was packed *)

Section order.
Context {D : Type} (double_of : Z -> D) (validate strict : bool).
Abbreviation unpacks := (unpacks double_of validate strict).
Abbreviation unpacks_elems := (unpacks_elems double_of validate strict).
Abbreviation unpacks_members := (unpacks_members double_of validate strict).

(** The same wants, the variants up to the order of members. *)
Definition wsim (a b : positive * want_t D) : Prop :=
  a.1 = b.1 /\ match a.2, b.2 with WVar t, WVar t' => teq t t' | x, y => x = y end.

Definition onodup (r : option (tree D)) : Prop := forall t, r = Some t -> nodup_tree t.

Lemma reads_teq c t t' : teq t t' ->
  match reads double_of c t, reads double_of c t' with
  | Some (WVar t1), Some (WVar t2) => teq t1 t2
  | x, y => x = y
  end.
Proof.
  intros Ht. pose proof (JsonRoundTrip.teq_leaf_inv _ _ Ht) as Hl. unfold reads.
  destruct t; subst; repeat (case_match; try done); simplify_eq; try done;
    (apply JsonRoundTrip.teq_arr_inv in Ht as (? & ? & ?) || apply JsonRoundTrip.teq_obj_inv in Ht as (? & ? & ? & ?)); done.
Qed.

Lemma oteq_arr (ts : option (list (tree D))) r' : oteq (TArr <$> ts) r' -> exists ts', r' = TArr <$> ts' /\
  (forall l, ts = Some l -> exists l', ts' = Some l' /\ Forall2 teq l l') /\ (ts = None -> ts' = None).
Proof.
  destruct ts as [l|], r' as [t|]; try done; cbn; intros H.
  - apply JsonRoundTrip.teq_arr_inv in H as (l' & -> & Hl). exists (Some l'). split; [done|]. split; [|done].
    intros ? [= <-]. by exists l'.
  - by exists None.
Qed.

Lemma oteq_obj (kvs : option (list (list Z * tree D))) r' : oteq (TObj <$> kvs) r' -> exists kvs', r' = TObj <$> kvs' /\
  (forall l, kvs = Some l -> exists l', kvs' = Some l' /\ length l = length l') /\ (kvs = None -> kvs' = None).
Proof.
  destruct kvs as [l|], r' as [t|]; try done; cbn; intros H.
  - apply JsonRoundTrip.teq_obj_inv in H as (es & l' & -> & Hl & Hp). exists (Some l'). split; [done|]. split; [|done].
    intros ? [= <-]. exists l'. split; [done|]. by rewrite (Forall2_length _ _ _ Hl), (Permutation_length Hp).
  - by exists None.
Qed.

Lemma elem_teq ts ts' i :
  oteq (TArr <$> ts) (TArr <$> ts') -> onodup (TArr <$> ts) -> oteq (ts ≫= lookup i) (ts' ≫= lookup i) /\ onodup (ts ≫= lookup i).
Proof.
  destruct ts as [l|], ts' as [l'|]; try done; cbn. intros Ht Hn. specialize (Hn (TArr l) eq_refl).
  pose proof (select_teq _ _ (SIndex (Z.of_nat i)) Hn Ht) as Hs. cbn [select] in Hs. rewrite Nat2Z.id in Hs. split; [done|].
  intros t E. apply (select_nodup (TArr l) (SIndex (Z.of_nat i))); [done|]. cbn [select]. by rewrite Nat2Z.id.
Qed.

Lemma member_teq kvs kvs' k :
  oteq (TObj <$> kvs) (TObj <$> kvs') -> onodup (TObj <$> kvs) -> oteq (kvs ≫= tree_get k) (kvs' ≫= tree_get k) /\ onodup (kvs ≫= tree_get k).
Proof.
  destruct kvs as [l|], kvs' as [l'|]; try done; cbn. intros Ht Hn. specialize (Hn (TObj l) eq_refl).
  split; [exact (select_teq _ _ (SKey k) Hn Ht)|]. intros t E. by apply (select_nodup (TObj l) (SKey k)).
Qed.

(** A format that unpacks a value unpacks it in any order of its members. *)
Lemma unpacks_teq r f a ws : unpacks r f a ws ->
  forall r', oteq r r' -> onodup r -> exists ws', unpacks r' f a ws' /\ Forall2 wsim ws ws'.
Proof.
  revert r f a ws. apply (unpacks_mind D double_of validate strict
    (fun r f a ws => forall r', oteq r r' -> onodup r -> exists ws', unpacks r' f a ws' /\ Forall2 wsim ws ws')
    (fun ts i f a ws => forall ts', oteq (TArr <$> ts) (TArr <$> ts') -> onodup (TArr <$> ts) ->
      exists ws', unpacks_elems ts' i f a ws' /\ Forall2 wsim ws ws')
    (fun kvs seen f a ws => forall kvs', oteq (TObj <$> kvs) (TObj <$> kvs') -> onodup (TObj <$> kvs) ->
      exists ws', unpacks_members kvs' seen f a ws' /\ Forall2 wsim ws ws')).
  - intros r c l Hc Hr r' Ht _. exists (stores double_of validate r' c l). split.
    + constructor; [done|]. intros t' ->. destruct r as [t|]; [|done]. pose proof (reads_teq c _ _ Ht) as H.
      destruct (Hr t eq_refl) as [x Hx]. rewrite Hx in H. destruct (reads double_of c t'); [done|by destruct x].
    + unfold stores. destruct validate; [constructor|]. destruct r as [t|], r' as [t'|]; try done. cbn.
      pose proof (reads_teq c _ _ Ht) as H. destruct (Hr t eq_refl) as [x E]. rewrite E in *.
      destruct (reads double_of c t') as [y|]; [|by destruct x]. constructor; [|constructor]. split; [done|]. cbn. destruct x, y; congruence.
  - intros r Hr r' Ht _. exists []. split; [|constructor]. constructor. destruct Hr as [->| ->], r' as [t'|]; try done; [by left|right].
    by rewrite (JsonRoundTrip.teq_leaf_inv _ _ Ht).
  - intros ts f a ws _ IH r' Ht Hn. destruct (oteq_arr ts r' Ht) as (ts' & -> & _). destruct (IH ts' Ht Hn) as (ws' & H1 & H2).
    exists ws'. split; [by constructor|done].
  - intros kvs f a ws _ IH Hs r' Ht Hn. destruct (oteq_obj kvs r' Ht) as (kvs' & -> & H1 & H0).
    destruct (IH kvs' Ht Hn) as (ws' & H2 & H3). exists ws'. split; [|done]. constructor; [done|]. intros l ->.
    destruct kvs as [l0|]; [|by specialize (H0 eq_refl)]. destruct (H1 l0 eq_refl) as (l1 & [= <-] & Hl). specialize (Hs l0 eq_refl). lia.
  - intros ts i g Hg Hi ts' Ht _. exists []. split; [|constructor]. constructor; [done|]. intros l' -> Hst.
    destruct ts as [l|]; [|done]. rewrite (Hi l eq_refl Hst). apply JsonRoundTrip.teq_arr_inv in Ht as (? & [= <-] & H). by eapply Forall2_length.
  - intros ts i g g' Hg Hg' Hi ts' Ht _. exists []. split; [|constructor]. constructor; [done|done|]. intros l' ->.
    destruct ts as [l|]; [|done]. rewrite (Hi l eq_refl). apply JsonRoundTrip.teq_arr_inv in Ht as (? & [= <-] & H). by eapply Forall2_length.
  - intros ts i g g' Hg Hg' ts' Ht _. exists []. split; [by constructor|constructor].
  - intros ts i r g f a ws f' a' ws' Hg Hi -> _ IHr _ IHe ts' Ht Hn. destruct (elem_teq ts ts' i Ht Hn) as [He Hne].
    destruct (IHr _ He Hne) as (ws1 & H1 & S1). destruct (IHe ts' Ht Hn) as (ws2 & H2 & S2). exists (ws1 ++ ws2).
    split; [|by apply Forall2_app]. eapply ue_cons; [done| |done|done|done]. intros l' ->. destruct ts as [l|]; [|done].
    destruct (Hi l eq_refl) as [t Et]. cbn in He. rewrite Et in He. by destruct (l' !! i).
  - intros kvs seen g Hg kvs' Ht _. exists []. split; [by constructor|constructor].
  - intros kvs seen g g' Hg Hg' Hi kvs' Ht _. exists []. split; [|constructor]. constructor; [done|done|]. intros l' ->.
    destruct kvs as [l|]; [|done]. rewrite (Hi l eq_refl). destruct (oteq_obj (Some l) _ Ht) as (k' & Hk' & H & _).
    destruct (H l eq_refl) as (l2 & -> & ->). injection Hk' as <-. done.
  - intros kvs seen g g' Hg Hg' kvs' Ht _. exists []. split; [by constructor|constructor].
  - intros kvs seen r g k g' opt f a ws f' a' ws' Hg Hg' Ho Hk Hs -> Hm _ IHr _ IHe kvs' Ht Hn.
    destruct (member_teq kvs kvs' k Ht Hn) as [He Hne].
    destruct (IHr _ He Hne) as (ws1 & H1 & S1). destruct (IHe kvs' Ht Hn) as (ws2 & H2 & S2). exists (ws1 ++ ws2).
    split; [|by apply Forall2_app]. eapply um_cons; [done|done|done|done|done|done| |done|done].
    intros l' -> Hnone. destruct kvs as [l|]; [|done]. apply (Hm l eq_refl). rewrite Hnone in He. by destruct (Some l ≫= tree_get k).
Qed.

End order.

Lemma puts_sim {X D} {env : var_env X} (h : gmap positive (ph_variant D)) ws ws' m m' :
  Forall2 wsim ws ws' -> puts (env := env) h ws' m m' -> puts (env := env) h ws m m'.
Proof.
  intros Hs. revert m. induction Hs as [|[l x] [l' y] ws ws' [Hl Hxy] _ IH]; intros m Hp; [done|]. cbn in Hl, Hxy. subst l'.
  inversion Hp as [|l2 w2 o2 ws2 m2 m2' Hg Hp2]; subst. apply puts_cons with o2; [|by apply IH].
  destruct x, y; try done; try (by simplify_eq). destruct Hg as (q & -> & t' & Ht & Hd). exists q. split; [done|]. exists t'.
  split; [by eapply JsonRoundTrip.teq_trans|done].
Qed.

Section roundtrip.
Context {X : Type} {env : var_env X} {jenv : json_env X env} {D : Type}.
Context {srefs : X -> positive -> Z} `{Henv : !VariantProofs.var_env_ok env srefs} `{Hplenty : !plenty env jenv srefs}.
Context (kstr : list Z -> positive) (double_of : Z -> D) (Hkstr : forall k, contents_of (kstr k) = k).

Lemma packs_nodup t f (a : list (va_t (D := D))) : packs (env := env) t f a -> nodup_tree t.
Proof.
  revert t f a. apply (packs_mind X env D (fun t _ _ => nodup_tree t) (fun l _ _ => Forall nodup_tree l)
    (fun kvs _ _ => Forall (fun kt => nodup_tree kt.2) kvs)); try done.
  - intros l f a _ Hl. by apply nodup_arr.
  - intros kvs f a _ Hl Hn. by apply nodup_obj.
  - intros. by constructor.
  - intros. by constructor.
Qed.

End roundtrip.

(** ** Examples *)

Definition demo_double (z : Z) : Z := 10 * z.
Abbreviation demo_unpacks := (unpacks demo_double (validating 0) (strictly 0)).

Lemma demo_scalar r c l a ws :
  bool_decide (c ∈ scalars) = true -> match r with Some t => is_Some (reads demo_double c t) | None => True end ->
  slot (validating 0) l = a -> stores demo_double (validating 0) r c l = ws -> demo_unpacks r [c] a ws.
Proof. intros Hc Hr <- <-. constructor; [by apply (bool_decide_eq_true_1 _)|]. by intros t ->. Qed.

(** [[isb!]] *)
Lemma demo_array_unpacks :
  demo_unpacks (Some JsonRoundTrip.demo_array) [91; 105; 115; 98; 33; 93] [VaPtr (Some 1%positive); VaPtr (Some 2%positive); VaPtr (Some 3%positive)]
    [(1%positive, WVal (OInt 7)); (2%positive, WStr [97; 98; 99]); (3%positive, WVal (OBool true))].
Proof.
  apply (up_arr _ _ _ (Some [TInt 7; TStr [97; 98; 99]; TBool true])).
  eapply (ue_cons _ _ _ _ 0 _ [] [105] [VaPtr (Some 1%positive)] [(1%positive, WVal (OInt 7))] [115; 98; 33; 93]);
    [done|by intros l [= <-]; eexists|reflexivity|by apply (demo_scalar _ 105 1); [|eexists| |]|].
  eapply (ue_cons _ _ _ _ 1 _ [] [115] [VaPtr (Some 2%positive)] [(2%positive, WStr [97; 98; 99])] [98; 33; 93]);
    [done|by intros l [= <-]; eexists|reflexivity|by apply (demo_scalar _ 115 2); [|eexists| |]|].
  eapply (ue_cons _ _ _ _ 2 _ [] [98] [VaPtr (Some 3%positive)] [(3%positive, WVal (OBool true))] [33; 93] [] []);
    [done|by intros l [= <-]; eexists|reflexivity|by apply (demo_scalar _ 98 3); [|eexists| |]|].
  apply (ue_all _ _ _ _ 3 [] []); [done|done|]. by intros l [= <-].
Qed.

Lemma unpack_stores_witness :
  exists v' o', ph_var_vunpack (env := demo_env) (jenv := JsonRoundTrip.demo_jenv) demo_kstr demo_double 20 (Some 6%positive) None 0
      (Some ([] ++ [91; 105; 115; 98; 33; 93] ++ [])) ([VaPtr (Some 1%positive); VaPtr (Some 2%positive); VaPtr (Some 3%positive)] ++ [])
      demo_world ∅ = Ret (PH_OK, (v', None, o')) /\ quiet demo_srefs demo_world v' /\
    puts (env := demo_env) demo_vars [(1%positive, WVal (OInt 7)); (2%positive, WStr [97; 98; 99]); (3%positive, WVal (OBool true))] ∅ o'.
Proof.
  pose proof demo_env_ok. pose proof JsonRoundTrip.demo_json_plenty.
  refine (unpack_stores (jenv := JsonRoundTrip.demo_jenv) demo_kstr demo_double demo_kstr_ok 0 demo_world [6; 8; 7; 5]%positive demo_vars_wf
    JsonRoundTrip.demo_array 6 _ _ _ [] [] [] 20 None ∅ demo_array_unpacks (proj1 JsonRoundTrip.demo_array_ok) _ _ _ _ _).
  - constructor.
  - constructor.
  - intros p v Hp Hv. destruct Hp as [->|[->| ->]]; injection Hv as <-; by vm_compute.
  - by vm_compute.
  - by apply Nat.leb_le.
Defined.

(** [{s:[is],s:b!}] *)
Definition demo_unpack_format : list Z := [123; 115; 91; 105; 115; 93; 115; 98; 33; 125].
Definition demo_unpack_args : list (va_t (D := Z)) :=
  [VaCstr (Some [107]); VaPtr (Some 1%positive); VaPtr (Some 2%positive); VaCstr (Some [108]); VaPtr (Some 3%positive)].
Definition demo_wants : list (positive * want_t Z) :=
  [(1%positive, WVal (OInt 5)); (2%positive, WStr [97; 98]); (3%positive, WVal (OBool true))].

Lemma demo_unpack_ok : demo_unpacks (Some demo_tree) demo_unpack_format demo_unpack_args demo_wants.
Proof.
  apply (up_obj _ _ _ (Some [([107], TArr [TInt 5; TStr [97; 98]]); ([108], TBool true)])); [|intros l [= <-]; by vm_compute].
  apply (um_cons _ _ _ _ [] (Some (TArr [TInt 5; TStr [97; 98]])) [] [107] [] [] [91; 105; 115; 93]
    [VaPtr (Some 1%positive); VaPtr (Some 2%positive)] [(1%positive, WVal (OInt 5)); (2%positive, WStr [97; 98])] [115; 98; 33; 125]
    [VaCstr (Some [108]); VaPtr (Some 3%positive)] [(3%positive, WVal (OBool true))]);
    [done|done|by left|by repeat constructor|set_solver|reflexivity|done| |].
  - apply (up_arr _ _ _ (Some [TInt 5; TStr [97; 98]])).
    eapply (ue_cons _ _ _ _ 0 _ [] [105] [VaPtr (Some 1%positive)] [(1%positive, WVal (OInt 5))] [115; 93]);
      [done|by intros l [= <-]; eexists|reflexivity|by apply (demo_scalar _ 105 1); [|eexists| |]|].
    eapply (ue_cons _ _ _ _ 1 _ [] [115] [VaPtr (Some 2%positive)] [(2%positive, WStr [97; 98])] [93] [] []);
      [done|by intros l [= <-]; eexists|reflexivity|by apply (demo_scalar _ 115 2); [|eexists| |]|].
    by apply (ue_end _ _ _ _ 2 []); [|intros l [= <-]].
  - apply (um_cons _ _ _ _ [[107]] (Some (TBool true)) [] [108] [] [] [98] [VaPtr (Some 3%positive)] [(3%positive, WVal (OBool true))]
      [33; 125] [] []); [done|done|by left|by repeat constructor| |reflexivity|done| |].
    + intros H. apply (bool_decide_pack _) in H. by vm_compute in H.
    + by apply (demo_scalar _ 98 3); [|eexists| |].
    + apply (um_all _ _ _ _ _ [] []); [done|done|]. by intros l [= <-].
Qed.


(** An absent optional key counts as a member that was unpacked: with ! the
    object {a: 1} is accepted by a format that only asks for b, while without
    any key it is refused. *)
Theorem unpack_strict_counts :
  exists p v1, ph_var_vpack (jenv := JsonRoundTrip.demo_jenv) 20 None (Some [123; 115; 105; 125]) [VaCstr (Some [97]); VaInt 1] JsonRoundTrip.start_world =
      Ret (Some p, (v1, None)) /\
    (exists v2, ph_var_vunpack (env := demo_env) (jenv := JsonRoundTrip.demo_jenv) demo_kstr demo_double 20 (Some p) None 0
      (Some [123; 115; 63; 105; 33; 125]) [VaCstr (Some [98]); VaPtr (Some 1%positive)] v1 ∅ = Ret (PH_OK, (v2, None, ∅))) /\
    (exists v2 e, ph_var_vunpack (env := demo_env) (jenv := JsonRoundTrip.demo_jenv) demo_kstr demo_double 20 (Some p) (Some e) 0
      (Some [123; 33; 125]) [] v1 ∅ = Ret (PH_ERR, (v2, Some (PErr 1 3 3 (Some (LeftUnpacked 1))), ∅))).
Proof.
  eexists _, _. split; [by vm_compute|]. split; [eexists; by vm_compute|]. eexists _, (PErr 0 0 0 None). by vm_compute.
Qed.

End VarUnpack.
