(* ===== verification/Printf.v ===== *)
(** * Formatted printing (vprintf.c)

    [ph_vprintf_core] walks over a format and hands the pieces of the output
    to a print function.  The loop of the conversion specification is
    [rflag], the integer and floating conversions are [number] and
    [fp_begin], [emit] is the part behind the switch. *)

From Stdlib Require Import ZArith Lia.
From stdpp Require Import base numbers list gmap.
From S2P Require Import Prelude SysUtil.

Module Printf.

Definition INT_MAX : Z := 2 ^ 31 - 1.
Definition INT_MIN : Z := - 2 ^ 31.

Definition to_digit (c : Z) : Z := c - 48.
Definition is_digit (c : Z) : bool := u32 (to_digit c) <=? 9.
Definition to_char (n : Z) : Z := n + 48.

Definition ALT : Z := 0x0001.
Definition LADJUST : Z := 0x0004.
Definition LONGINT : Z := 0x0010.
Definition LLONGINT : Z := 0x0020.
Definition SHORTINT : Z := 0x0040.
Definition ZEROPAD : Z := 0x0080.
Definition FPT : Z := 0x0100.
Definition PTRINT : Z := 0x0200.
Definition SIZEINT : Z := 0x0400.
Definition CHARINT : Z := 0x0800.
Definition MAXINT : Z := 0x1000.
Definition has (fl f : Z) : bool := negb (Z.land fl f =? 0).

Definition PADSIZE : Z := 16.
Definition STATIC_ARG_TBL_SIZE : Z := 8.
Definition DEFPREC : Z := 6.

(** [APPEND_DIGIT]; [None] is an overflow. *)
Definition APPEND_DIGIT (val dig : Z) : option Z :=
  if INT_MAX / 10 <? val then None
  else if INT_MAX - to_digit dig <? val * 10 then None
  else Some (val * 10 + to_digit dig).

(** The arguments.  [VaInt] is passed as an [int], [VaLong] as one of the
    integer types of 64 bits; [VaStr] is a [char *] to these bytes of readable
    memory, [VaString] a [ph_string_t *], [VaPtr] another pointer, [VaArgs] a
    [va_list *], [VaOut] the address of an integer variable. *)
Inductive va_t (D : Type) :=
  | VaInt (z : Z)
  | VaLong (z : Z)
  | VaDouble (d : D)
  | VaStr (s : option (list Z))
  | VaString (s : option (list Z))
  | VaPtr (a : Z)
  | VaArgs (l : list (va_t D))
  | VaOut (loc : positive).
Arguments VaInt {D} z.
Arguments VaLong {D} z.
Arguments VaDouble {D} d.
Arguments VaStr {D} s.
Arguments VaString {D} s.
Arguments VaPtr {D} a.
Arguments VaArgs {D} l.
Arguments VaOut {D} loc.

(** The type ids of the argument table. *)
Inductive ty :=
  | T_UNUSED | T_SHORT | T_U_SHORT | TP_SHORT | T_INT | T_U_INT | TP_INT | T_LONG | T_U_LONG | TP_LONG
  | T_LLONG | T_U_LLONG | TP_LLONG | T_DOUBLE | TP_CHAR | TP_VOID | T_PTRINT | TP_PTRINT | T_SIZEINT
  | T_SSIZEINT | TP_SSIZEINT | T_MAXINT | T_MAXUINT | TP_MAXINT | T_CHAR | T_U_CHAR.

(** The string at [s]: up to the first zero. *)
Fixpoint strlen (s : list Z) : option Z :=
  match s with
  | [] => None
  | b :: s => if b =? 0 then Some 0 else Z.succ <$> strlen s
  end.

(** [memchr(cp, 0, n)]: is there a zero in the first [n] bytes, and where;
    [None] if memory ends before. *)
Fixpoint memchr0 (s : list Z) (n : nat) : option (option Z) :=
  match n with
  | O => Some None
  | S n => match s with
           | [] => None
           | b :: s => if b =? 0 then Some (Some 0) else o ← memchr0 s n; Some (option_map Z.succ o)
           end
  end.

Fixpoint prefixb (p s : list Z) : bool :=
  match p, s with
  | [], _ => true
  | a :: p, b :: s => (a =? b) && prefixb p s
  | _, _ => false
  end.

(** [strstr]: the bytes before the first occurrence. *)
Fixpoint strstr (s p : list Z) : option (list Z) :=
  if prefixb p s then Some []
  else match s with [] => None | b :: s => cons b <$> strstr s p end.

(** The digits of [x] in front of [buf]. *)
Fixpoint digits_before (fuel : nat) (digit : Z -> Z) (base x : Z) (buf : list Z) : list Z :=
  match fuel with
  | O => buf
  | S fuel =>
      let buf := digit (x mod base) :: buf in
      if x / base =? 0 then buf else digits_before fuel digit base (x / base) buf
  end.

Definition xdig (upper : bool) (n : Z) : Z := if n <? 10 then n + 48 else if upper then n + 55 else n + 87.

(** [exponent]: the exponent field. *)
Definition exponent (expval fmtch : Z) : list Z :=
  let sign := if expval <? 0 then 45 else 43 in
  let expval := Z.abs expval in
  if 9 <? expval then fmtch :: sign :: digits_before 6 to_char 10 expval []
  else if (fmtch =? 101) || (fmtch =? 69) then [fmtch; sign; 48; to_char expval]
  else [fmtch; sign; to_char expval].

Section core.
Context {P D MB : Type}.
Abbreviation va := (va_t D).

(** [mbrtowc] of the C library: the number of bytes or a number that is not
    positive, the character and the next conversion state. *)
Context (mbrtowc : list Z -> MB -> Z * Z * MB) (mb0 : MB).
(** [ph_dtoa] (dtoa.c): the digits, the decimal exponent and the sign, or NULL;
    the text of an error number; the named formatters that are registered; the
    size of a page, and whether [mmap] succeeds. *)
Context (dtoa : D -> Z -> Z -> option (list Z * Z * bool)) (strerror : Z -> list Z).
Context (formatters : list Z -> option (Z -> M P Z)) (pagesize : Z) (mmap_ok : bool).

(** [struct ph_vprintf_funcs] *)
Record ph_vprintf_funcs := Funcs { print : list Z -> M P bool; flush : option (M P bool) }.
Context (print_funcs : ph_vprintf_funcs).

(** The local variables that live as long as the call, and what it can change:
    [print_arg] and the variables of %n. *)
Record pst := PSt {
  parg : P;
  outs : gmap positive Z;
  fmt : nat;
  ps : MB;
  argtable : option (list (option va));
  nextarg : Z;
  ap : list va;
  retval : Z;
}.
Definition set_parg x s := PSt x (outs s) (fmt s) (ps s) (argtable s) (nextarg s) (ap s) (retval s).
Definition set_outs x s := PSt (parg s) x (fmt s) (ps s) (argtable s) (nextarg s) (ap s) (retval s).
Definition set_fmt x s := PSt (parg s) (outs s) x (ps s) (argtable s) (nextarg s) (ap s) (retval s).
Definition set_ps x s := PSt (parg s) (outs s) (fmt s) x (argtable s) (nextarg s) (ap s) (retval s).
Definition set_argtable x s := PSt (parg s) (outs s) (fmt s) (ps s) x (nextarg s) (ap s) (retval s).
Definition set_nextarg x s := PSt (parg s) (outs s) (fmt s) (ps s) (argtable s) x (ap s) (retval s).
Definition set_ap x s := PSt (parg s) (outs s) (fmt s) (ps s) (argtable s) (nextarg s) x (retval s).
Definition set_ret x s := PSt (parg s) (outs s) (fmt s) (ps s) (argtable s) (nextarg s) (ap s) x.

(** The labels of the function: [done], [error] after a failed print, [error]
    without one, and [overflow]. *)
Inductive exit_t := Done | PrintError | NoMemory | Overflow.

(** Code that can jump to one of them. *)
Definition XM (A : Type) : Type := M pst (A + exit_t).
Definition xret {A} (a : A) : XM A := ret (inl a).
Definition leave {A} (e : exit_t) : XM A := ret (inr e).
Definition xbind {A B} (c : XM A) (k : A -> XM B) : XM B :=
  bind c (fun r => match r with inl a => k a | inr e => ret (inr e) end).
Definition xlift {A} (c : M pst A) : XM A := a <-- c ;; xret a.
Definition xmod (f : pst -> pst) : XM unit := xlift (modify f).
Definition xget {A} (f : pst -> A) : XM A := xlift (s <-- get ;; ret (f s)).
Definition xoverflow {A} (o : option A) : XM A := match o with Some a => xret a | None => leave Overflow end.
Local Notation "x <~ c ;; k" := (xbind c (fun x => k)) (at level 100, c at next level, right associativity).
Local Notation "c ~; k" := (xbind c (fun _ => k)) (at level 100, right associativity).

Definition on_arg {A} (f : M P A) : M pst A := fun s =>
  match f (parg s) with
  | Ret (a, p) => Ret (a, set_parg p s)
  | Panic => Panic
  | Fault => Fault
  end.

(** [PRINT] *)
Definition PRINT (bs : list Z) : XM unit :=
  match bs with
  | [] => xret tt
  | _ => ok <~ xlift (on_arg (print print_funcs bs)) ;; if (ok : bool) then xret tt else leave PrintError
  end.

(** [PAD]: chunks of [PADSIZE]. *)
Fixpoint PAD_loop (fuel : nat) (n with_ : Z) : XM unit :=
  match fuel with
  | O => xlift fault
  | S fuel =>
      if PADSIZE <? n then PRINT (replicate (Z.to_nat PADSIZE) with_) ~; PAD_loop fuel (n - PADSIZE) with_
      else PRINT (replicate (Z.to_nat n) with_)
  end.
Definition PAD (howmany with_ : Z) : XM unit :=
  if 0 <? howmany then PAD_loop (Z.to_nat howmany) howmany with_ else xret tt.

(** [PRINTANDPAD] of the bytes [p]. *)
Definition PRINTANDPAD (p : list Z) (len with_ : Z) : XM unit :=
  let n2 := MIN (zlen p) len in
  PRINT (take (Z.to_nat n2) p) ~; PAD (len - (if 0 <? n2 then n2 else 0)) with_.

(** The character at [fmt], which includes the terminator, and advancing. *)
Definition fmt_at (fmt0 : list Z) (i : nat) : XM Z :=
  k <~ xget fmt ;; xlift (of_option ((fmt0 ++ [0]) !! (k + i)%nat)).
Definition next_ch (fmt0 : list Z) : XM Z :=
  c <~ fmt_at fmt0 0 ;; xmod (fun s => set_fmt (S (fmt s)) s) ~; xret c.
Definition skip (n : nat) : XM unit := xmod (fun s => set_fmt (fmt s + n)%nat s).
Definition rest_of (fmt0 : list Z) : XM (list Z) := xget (fun s => drop (fmt s) fmt0).

(** ** Positional arguments: [__find_arguments] *)

(** [__grow_type_table]: the first time the old table is overwritten with the
    new one, not the other way round. *)
Definition grow_type_table (table : list ty) : option (list ty) :=
  let size := zlen table in
  let newsize := if size * 2 <? pagesize then pagesize else size * 2 in
  if negb mmap_ok then None
  else if size =? STATIC_ARG_TBL_SIZE then Some (replicate (Z.to_nat newsize) T_UNUSED)
  else Some (table ++ replicate (Z.to_nat (newsize - size)) T_UNUSED).

Record fst_ := Find { f_table : list ty; f_max : Z; f_next : Z; f_fmt : nat }.

(** [ADDTYPE]; an index outside of the table is [Fault]. *)
Definition ADDTYPE (t : ty) (f : fst_) : outcome fst_ :=
  match (if zlen (f_table f) <=? f_next f then grow_type_table (f_table f) else Some (f_table f)) with
  | None => Fault
  | Some table =>
      if f_next f <? zlen table
      then Ret (Find (<[Z.to_nat (f_next f) := t]> table) (MAX (f_next f) (f_max f)) (f_next f + 1) (f_fmt f))
      else Fault
  end.

Definition ADDSARG (fl : Z) : ty :=
  if has fl MAXINT then T_MAXINT else if has fl PTRINT then T_PTRINT else if has fl SIZEINT then T_SSIZEINT
  else if has fl LLONGINT then T_LLONG else if has fl LONGINT then T_LONG else if has fl SHORTINT then T_SHORT
  else if has fl CHARINT then T_CHAR else T_INT.
Definition ADDUARG (fl : Z) : ty :=
  if has fl MAXINT then T_MAXUINT else if has fl PTRINT then T_PTRINT else if has fl SIZEINT then T_SIZEINT
  else if has fl LLONGINT then T_U_LLONG else if has fl LONGINT then T_U_LONG else if has fl SHORTINT then T_U_SHORT
  else if has fl CHARINT then T_U_CHAR else T_U_INT.
Definition ADDPTR (fl : Z) : ty :=
  if has fl LLONGINT then TP_LLONG else if has fl LONGINT then TP_LONG else if has fl SHORTINT then TP_SHORT
  else if has fl PTRINT then TP_PTRINT else if has fl SIZEINT then TP_SSIZEINT else if has fl MAXINT then TP_MAXINT
  else TP_INT.

(** The digits at offset [i]: their value, which may overflow, and the offset
    behind them. *)
Fixpoint digits_at (s : list Z) (n : Z) (i : nat) : option (Z * nat) :=
  match s with
  | c :: s => if is_digit c then n ← APPEND_DIGIT n c; digits_at s n (S i) else Some (n, i)
  | [] => Some (n, i)
  end.
Fixpoint skip_digits (s : list Z) (i : nat) : nat :=
  match s with c :: s => if is_digit c then skip_digits s (S i) else i | [] => i end.

Definition f_at (f0 : list Z) (i : nat) : option Z := (f0 ++ [0]) !! i.
Definition with_fmt (i : nat) (f : fst_) : fst_ := Find (f_table f) (f_max f) (f_next f) i.
Definition with_next (n : Z) (f : fst_) : fst_ := Find (f_table f) (f_max f) n (f_fmt f).

(** The result: a table, [goto overflow], or a fault. *)
Definition FR : Type := outcome (option fst_).

(** [ADDASTER] *)
Definition ADDASTER (f0 : list Z) (f : fst_) : FR :=
  match digits_at (drop (f_fmt f) f0) 0 (f_fmt f) with
  | None => Ret None
  | Some (n2, i) =>
      if bool_decide (f_at f0 i = Some 36) then
        match ADDTYPE T_INT (with_next n2 f) with
        | Ret f' => Ret (Some (with_fmt (S i) (with_next (f_next f) f')))
        | _ => Fault
        end
      else match ADDTYPE T_INT f with Ret f' => Ret (Some f') | _ => Fault end
  end.

(** The loop of [__find_arguments] over a conversion specification; [cont] is the
    rest of the format. *)
Fixpoint find_rflag (fuel : nat) (f0 : list Z) (ch fl : Z) (f : fst_) (cont : fst_ -> FR) : FR :=
  match fuel with
  | O => Fault
  | S fuel =>
      let rflag fl f :=
        match f_at f0 (f_fmt f) with
        | None => Fault
        | Some c => find_rflag fuel f0 c fl (with_fmt (S (f_fmt f)) f) cont
        end in
      let add t := match ADDTYPE t f with Ret f => cont f | _ => Fault end in
      if (ch =? 32) || (ch =? 35) || (ch =? 39) || (ch =? 45) || (ch =? 43) || (ch =? 48) then rflag fl f
      else if ch =? 42 then
        match ADDASTER f0 f with Ret (Some f) => rflag fl f | r => r end
      else if ch =? 46 then
        match f_at f0 (f_fmt f) with
        | None => Fault
        | Some c =>
            if c =? 42 then match ADDASTER f0 (with_fmt (S (f_fmt f)) f) with Ret (Some f) => rflag fl f | r => r end
            else
              let i := skip_digits (drop (f_fmt f) f0) (f_fmt f) in
              match f_at f0 i with
              | None => Fault
              | Some c => find_rflag fuel f0 c fl (with_fmt (S i) f) cont
              end
        end
      else if (49 <=? ch) && (ch <=? 57) then
        match digits_at (ch :: drop (f_fmt f) f0) 0 (f_fmt f - 1) with
        | None => Ret None
        | Some (n, i) =>
            match f_at f0 i with
            | None => Fault
            | Some c =>
                if c =? 36 then rflag fl (with_next n (with_fmt (S i) f))
                else find_rflag fuel f0 c fl (with_fmt (S i) f) cont
            end
        end
      else if ch =? 104 then
        if bool_decide (f_at f0 (f_fmt f) = Some 104) then rflag (Z.lor fl CHARINT) (with_fmt (S (f_fmt f)) f)
        else rflag (Z.lor fl SHORTINT) f
      else if ch =? 108 then
        if bool_decide (f_at f0 (f_fmt f) = Some 108) then rflag (Z.lor fl LLONGINT) (with_fmt (S (f_fmt f)) f)
        else rflag (Z.lor fl LONGINT) f
      else if ch =? 113 then rflag (Z.lor fl LLONGINT) f
      else if ch =? 116 then rflag (Z.lor fl PTRINT) f
      else if ch =? 122 then rflag (Z.lor fl SIZEINT) f
      else if ch =? 99 then add T_INT
      else if ch =? 68 then add (ADDSARG (Z.lor fl LONGINT))
      else if (ch =? 100) || (ch =? 105) then add (ADDSARG fl)
      else if (ch =? 97) || (ch =? 65) || (ch =? 101) || (ch =? 69) || (ch =? 102) || (ch =? 70) || (ch =? 103) || (ch =? 71)
      then add T_DOUBLE
      else if ch =? 110 then add (ADDPTR fl)
      else if (ch =? 79) || (ch =? 85) then add (ADDUARG (Z.lor fl LONGINT))
      else if (ch =? 111) || (ch =? 117) || (ch =? 88) || (ch =? 120) then add (ADDUARG fl)
      else if ch =? 112 then add TP_VOID
      else if ch =? 115 then add TP_CHAR
      else if ch =? 0 then Ret (Some f)
      else cont f
  end.

(** The text up to the next special character: the offset and the last result
    of [mbrtowc]; [None] behind the end of the format. *)
Fixpoint scan_text (fuel : nat) (f0 : list Z) (special : Z -> bool) (i : nat) (m : MB) : option (nat * Z * MB) :=
  match fuel with
  | O => None
  | S fuel =>
      match drop i (f0 ++ [0]) with
      | [] => None
      | bs =>
          let '(n, wc, m) := mbrtowc bs m in
          if n <=? 0 then Some (i, n, m)
          else if special wc then Some ((i + Z.to_nat n - 1)%nat, n, m)
          else scan_text fuel f0 special (i + Z.to_nat n) m
      end
  end.

Fixpoint find_loop (fuel : nat) (f0 : list Z) (m : MB) (f : fst_) : FR :=
  match fuel with
  | O => Fault
  | S fuel =>
      match scan_text (S (length f0)) f0 (fun wc => wc =? 37) (f_fmt f) m with
      | None => Fault
      | Some (i, n, m) =>
          if n <=? 0 then Ret (Some f)
          else match f_at f0 (S i) with
               | None => Fault
               | Some c => find_rflag (S (length f0)) f0 c 0 (with_fmt (S (S i)) f) (find_loop fuel f0 m)
               end
      end
  end.

(** [va_arg] for an entry of the type table; [Some None] leaves the entry of
    the argument table as it is. *)
Definition fetch (t : ty) (l : list va) : option (option va * list va) :=
  match t, l with
  | (T_MAXINT | T_MAXUINT), l => Some (None, l)
  | (T_UNUSED | T_CHAR | T_U_CHAR | T_SHORT | T_U_SHORT | T_INT | T_U_INT), VaInt z :: l => Some (Some (VaInt z), l)
  | (T_LONG | T_U_LONG | T_LLONG | T_U_LLONG | T_PTRINT | T_SIZEINT | T_SSIZEINT), VaLong z :: l => Some (Some (VaLong z), l)
  | T_DOUBLE, VaDouble d :: l => Some (Some (VaDouble d), l)
  | TP_CHAR, VaStr s :: l => Some (Some (VaStr s), l)
  | TP_VOID, (VaPtr _ | VaString _ | VaArgs _) as a :: l => Some (Some a, l)
  | (TP_SHORT | TP_INT | TP_LONG | TP_LLONG | TP_PTRINT | TP_SSIZEINT | TP_MAXINT), VaOut p :: l => Some (Some (VaOut p), l)
  | _, _ => None
  end.

Fixpoint fetch_all (ts : list ty) (l : list va) : option (list (option va)) :=
  match ts with
  | [] => Some []
  | t :: ts => '(a, l) ← fetch t l; cons a <$> fetch_all ts l
  end.

(** The argument table, indexed by the number of the argument; it has no entries
    if [mmap] failed. *)
Definition find_arguments (f0 : list Z) (l : list va) : outcome (list (option va)) :=
  match find_loop (S (length f0)) f0 mb0 (Find (replicate (Z.to_nat STATIC_ARG_TBL_SIZE) T_UNUSED) 0 1 0) with
  | Ret (Some f) =>
      if (STATIC_ARG_TBL_SIZE <=? f_max f) && negb mmap_ok then Ret []
      else
        match fetch_all (take (Z.to_nat (f_max f)) (drop 1 (f_table f))) l with
        | Some cells => Ret (None :: cells ++ replicate (Z.to_nat (STATIC_ARG_TBL_SIZE - 1) - length cells) None)
        | None => Fault
        end
  | Ret None => Ret (replicate (Z.to_nat STATIC_ARG_TBL_SIZE) None)
  | Panic => Panic
  | Fault => Fault
  end.

(** ** Arguments *)

(** [GETARG]: from the table, once it was built, or the next one. *)
Definition get_arg : XM va := fun s =>
  let s' := set_nextarg (nextarg s + 1) s in
  match argtable s with
  | Some table =>
      match (if 0 <=? nextarg s then mjoin (table !! Z.to_nat (nextarg s)) else None) with
      | Some a => Ret (inl a, s')
      | None => Fault
      end
  | None => match ap s with a :: l => Ret (inl a, set_ap l s') | [] => Fault end
  end.

(** An argument of another type is [Fault]. *)
Definition arg_int : XM Z := a <~ get_arg ;; match a with VaInt z => xret (s32 z) | _ => xlift fault end.
Definition arg_long : XM Z := a <~ get_arg ;; match a with VaLong z => xret (s64 z) | _ => xlift fault end.
Definition arg_double : XM D := a <~ get_arg ;; match a with VaDouble d => xret d | _ => xlift fault end.
Definition arg_str : XM (option (list Z)) := a <~ get_arg ;; match a with VaStr x => xret x | _ => xlift fault end.
Definition arg_string : XM (option (list Z)) := a <~ get_arg ;; match a with VaString x => xret x | _ => xlift fault end.
Definition arg_ptr : XM Z := a <~ get_arg ;; match a with VaPtr x => xret x | _ => xlift fault end.
Definition arg_args : XM (list va) := a <~ get_arg ;; match a with VaArgs x => xret x | _ => xlift fault end.
Definition arg_out : XM positive := a <~ get_arg ;; match a with VaOut x => xret x | _ => xlift fault end.

Definition is_long (fl : Z) : bool :=
  has fl MAXINT || has fl LLONGINT || has fl LONGINT || has fl PTRINT || has fl SIZEINT.
Definition SARG (fl : Z) : XM Z :=
  if is_long fl then arg_long
  else z <~ arg_int ;;
       xret (if has fl SHORTINT then wrapS 16 z else if has fl CHARINT then wrapS 8 z else z).
Definition UARG (fl : Z) : XM Z :=
  if is_long fl then z <~ arg_long ;; xret (u64 z)
  else z <~ arg_int ;;
       xret (if has fl SHORTINT then wrapU 16 z else if has fl CHARINT then wrapU 8 z else u32 z).

(** The argument table is built when the first position is met. *)
Definition need_table (fmt0 : list Z) (args0 : list va) : XM unit :=
  t <~ xget argtable ;;
  match t with
  | Some _ => xret tt
  | None =>
      match find_arguments fmt0 args0 with
      | Ret table => xmod (set_argtable (Some table))
      | Panic => xlift panic
      | Fault => xlift fault
      end
  end.

Definition GETASTER (fmt0 : list Z) (args0 : list va) : XM Z :=
  k <~ xget fmt ;;
  r <~ xoverflow (digits_at (drop k fmt0) 0 k) ;;
  let '(n2, i) := r in
  if bool_decide (f_at fmt0 i = Some 36) then
    hold <~ xget nextarg ;;
    need_table fmt0 args0 ~;
    xmod (set_nextarg n2) ~;
    val <~ arg_int ;;
    xmod (set_nextarg hold) ~;
    xmod (set_fmt (S i)) ~;
    xret val
  else arg_int.

(** ** Conversions *)

(** The variables of one conversion; no sign and no prefix are 0. *)
Record conv := Conv { flags : Z; width : Z; prec : Z; sign : Z; ox1 : Z }.
Definition with_flags x c := Conv x (width c) (prec c) (sign c) (ox1 c).
Definition with_width x c := Conv (flags c) x (prec c) (sign c) (ox1 c).
Definition with_prec x c := Conv (flags c) (width c) x (sign c) (ox1 c).
Definition with_sign x c := Conv (flags c) (width c) (prec c) x (ox1 c).
Definition with_ox1 x c := Conv (flags c) (width c) (prec c) (sign c) x.
Definition add_flag f c := with_flags (Z.lor (flags c) f) c.
Definition drop_flag f c := with_flags (Z.ldiff (flags c) f) c.

(** What is printed: the string or number [cp] of [size] places and the minimum
    number [dprec] of digits; for a floating point number the digits, with the
    exponent, the exponent character and its field. *)
Record field := Field { cp : list Z; size : Z; dprec : Z; fp : option (Z * Z * list Z) }.
Definition bytes_field (bs : list Z) : field := Field bs (zlen bs) 0 None.

Inductive base_t := OCT | DEC | HEX (upper : bool).

Definition number_digits (b : base_t) (alt : bool) (umax : Z) : list Z :=
  match b with
  | OCT =>
      let ds := digits_before 64 to_char 8 umax [] in
      match ds with
      | d :: _ => if alt && negb (d =? 48) then 48 :: ds else ds
      | [] => ds
      end
  | DEC => digits_before 64 to_char 10 umax []
  | HEX upper => digits_before 64 (xdig upper) 16 umax []
  end.

(** The label [number]. *)
Definition number (umax : Z) (b : base_t) (c : conv) : XM (option (conv * field)) :=
  let p := prec c in
  let c := if 0 <=? p then drop_flag ZEROPAD c else c in
  let ds := if negb (umax =? 0) || negb (p =? 0) then number_digits b (has (flags c) ALT) umax else [] in
  if 100 <? zlen ds then xlift panic
  else xret (Some (c, Field ds (zlen ds) p None)).

(** The label [fp_begin]. *)
Definition fp_begin (ch expchar : Z) (c : conv) : XM (option (conv * field)) :=
  let c := if prec c <? 0 then with_prec DEFPREC c else c in
  d <~ arg_double ;;
  match dtoa d (if negb (expchar =? 0) then 2 else 3) (prec c) with
  | None => leave NoMemory
  | Some (ds, expt, signflag) =>
      let c := if (signflag : bool) then with_sign 45 c else c in
      if expt =? 9999 then
        let c := drop_flag ZEROPAD c in
        if bool_decide (ds !! 0%nat = Some 78)
        then xret (Some (with_sign 0 c, bytes_field (if 97 <=? ch then [110; 97; 110] else [78; 65; 78])))
        else xret (Some (c, bytes_field (if 97 <=? ch then [105; 110; 102] else [73; 78; 70])))
      else
        let c := add_flag FPT c in
        let ndig := zlen ds in
        let alt := has (flags c) ALT in
        let '(c, expchar) :=
          if (ch =? 103) || (ch =? 71) then
            if (-4 <? expt) && (expt <=? prec c) then
              let p := if alt then prec c - expt else ndig - expt in
              (with_prec (if p <? 0 then 0 else p) c, 0)
            else if alt then (c, expchar) else (with_prec ndig c, expchar)
          else (c, expchar) in
        if negb (expchar =? 0) then
          let es := exponent (expt - 1) expchar in
          let size := zlen es + prec c + (if (1 <? prec c) || alt then 1 else 0) in
          xret (Some (c, Field ds size 0 (Some (expt, expchar, es))))
        else
          let size := (if 0 <? expt then expt else 1) + (if negb (prec c =? 0) || alt then prec c + 1 else 0) in
          xret (Some (c, Field ds size 0 (Some (expt, 0, []))))
  end.

Definition null_text : list Z := [40; 110; 117; 108; 108; 41].

(** %s *)
Definition string_field (c : conv) : XM (option (conv * field)) :=
  x <~ arg_str ;;
  let mem := match x with Some m => m | None => null_text ++ [0] end in
  n <~ (if 0 <=? prec c then
          r <~ xlift (of_option (memchr0 mem (Z.to_nat (prec c)))) ;;
          xret (match r with Some n => n | None => prec c end)
        else
          len <~ xlift (of_option (strlen mem)) ;;
          if INT_MAX <? len then leave Overflow else xret len) ;;
  xret (Some (with_sign 0 c, bytes_field (take (Z.to_nat n) mem))).

(** %n: the variable has the size the flags say. *)
Definition store_count (fl : Z) : XM (option (conv * field)) :=
  p <~ arg_out ;;
  r <~ xget retval ;;
  let v := if has fl LLONGINT || has fl LONGINT then r
           else if has fl SHORTINT then wrapS 16 r
           else if has fl CHARINT then wrapS 8 r else r in
  xmod (fun s => set_outs (<[p := v]> (outs s)) s) ~;
  xret None.

(** The conversion characters. *)
Definition convert (ch : Z) (c : conv) : XM (option (conv * field)) :=
  let unsigned u b c := number u b (with_sign 0 c) in
  if ch =? 99 then z <~ arg_int ;; xret (Some (with_sign 0 c, bytes_field [wrapU 8 z]))
  else if (ch =? 68) || (ch =? 100) || (ch =? 105) then
    let c := if ch =? 68 then add_flag LONGINT c else c in
    z <~ SARG (flags c) ;;
    if z <? 0 then number (u64 (- z)) DEC (with_sign 45 c) else number (u64 z) DEC c
  else if (ch =? 101) || (ch =? 69) then
    fp_begin ch ch (with_prec (if prec c <? 0 then DEFPREC + 1 else prec c + 1) c)
  else if (ch =? 102) || (ch =? 70) then fp_begin ch 0 c
  else if (ch =? 103) || (ch =? 71) then fp_begin ch (ch - 2) (if prec c =? 0 then with_prec 1 c else c)
  else if ch =? 110 then store_count (flags c)
  else if (ch =? 79) || (ch =? 111) then
    let c := if ch =? 79 then add_flag LONGINT c else c in
    u <~ UARG (flags c) ;; unsigned u OCT c
  else if ch =? 112 then p <~ arg_ptr ;; unsigned (u64 p) (HEX false) (with_ox1 120 c)
  else if ch =? 115 then string_field c
  else if (ch =? 85) || (ch =? 117) then
    let c := if ch =? 85 then add_flag LONGINT c else c in
    u <~ UARG (flags c) ;; unsigned u DEC c
  else if (ch =? 88) || (ch =? 120) then
    u <~ UARG (flags c) ;;
    unsigned u (HEX (ch =? 88)) (if has (flags c) ALT && negb (u =? 0) then with_ox1 ch c else c)
  else if ch =? 0 then leave Done
  else xret (Some (with_sign 0 c, bytes_field [ch])).

(** The labels [rflag] and [reswitch]: the conversion and its field, or nothing
    to print. *)
Fixpoint reswitch (fuel : nat) (fmt0 : list Z) (args0 : list va) (ch : Z) (c : conv) : XM (option (conv * field)) :=
  match fuel with
  | O => xlift fault
  | S fuel =>
      let rflag c := ch <~ next_ch fmt0 ;; reswitch fuel fmt0 args0 ch c in
      if ch =? 32 then rflag (if sign c =? 0 then with_sign 32 c else c)
      else if ch =? 35 then rflag (add_flag ALT c)
      else if ch =? 39 then rflag c
      else if ch =? 42 then
        w <~ GETASTER fmt0 args0 ;;
        if 0 <=? w then rflag (with_width w c)
        else if w =? INT_MIN then leave Overflow
        else rflag (add_flag LADJUST (with_width (- w) c))
      else if ch =? 45 then rflag (add_flag LADJUST c)
      else if ch =? 43 then rflag (with_sign 43 c)
      else if ch =? 46 then
        ch <~ fmt_at fmt0 0 ;;
        if ch =? 42 then
          skip 1 ~;
          n <~ GETASTER fmt0 args0 ;;
          rflag (with_prec (if n <? 0 then -1 else n) c)
        else
          k <~ xget fmt ;;
          r <~ xoverflow (digits_at (drop k fmt0) 0 k) ;;
          let '(n, i) := r in
          ch <~ xlift (of_option (f_at fmt0 i)) ;;
          xmod (set_fmt (S i)) ~;
          if ch =? 36 then xmod (set_nextarg n) ~; need_table fmt0 args0 ~; rflag c
          else reswitch fuel fmt0 args0 ch (with_prec n c)
      else if ch =? 48 then rflag (add_flag ZEROPAD c)
      else if (49 <=? ch) && (ch <=? 57) then
        k <~ xget fmt ;;
        r <~ xoverflow (digits_at (drop (k - 1) fmt0) 0 (k - 1)) ;;
        let '(n, i) := r in
        ch <~ xlift (of_option (f_at fmt0 i)) ;;
        xmod (set_fmt (S i)) ~;
        if ch =? 36 then xmod (set_nextarg n) ~; need_table fmt0 args0 ~; rflag c
        else reswitch fuel fmt0 args0 ch (with_width n c)
      else if ch =? 104 then
        x <~ fmt_at fmt0 0 ;;
        if x =? 104 then skip 1 ~; rflag (add_flag CHARINT c) else rflag (add_flag SHORTINT c)
      else if ch =? 106 then rflag (add_flag MAXINT c)
      else if ch =? 108 then
        x <~ fmt_at fmt0 0 ;;
        if x =? 108 then skip 1 ~; rflag (add_flag LLONGINT c) else rflag (add_flag LONGINT c)
      else if ch =? 113 then rflag (add_flag LLONGINT c)
      else if ch =? 116 then rflag (add_flag PTRINT c)
      else if ch =? 122 then rflag (add_flag SIZEINT c)
      else convert ch c
  end.

(** ** Output *)

(** The fragments of a floating point number. *)
Definition emit_float (c : conv) (ds : list Z) (expt expchar : Z) (es : list Z) : XM unit :=
  let alt := has (flags c) ALT in
  if expchar =? 0 then
    if expt <=? 0 then
      PRINT [48] ~;
      (if negb (prec c =? 0) || alt then PRINT [46] else xret tt) ~;
      PAD (- expt) 48 ~;
      PRINTANDPAD ds (prec c + expt) 48
    else
      PRINTANDPAD ds expt 48 ~;
      (if negb (prec c =? 0) || alt then PRINT [46] else xret tt) ~;
      PRINTANDPAD (drop (Z.to_nat expt) ds) (prec c) 48
  else
    match ds with
    | [] => xlift fault
    | d :: ds' =>
        (if (1 <? prec c) || alt then PRINT [d; 46] ~; PRINT ds' ~; PAD (prec c - zlen ds) 48 else PRINT [d]) ~;
        PRINT es
    end.

Definition emit (c : conv) (f : field) : XM unit :=
  let realsz := (if size f <? dprec f then dprec f else size f) + (if sign c =? 0 then 0 else 1) + (if ox1 c =? 0 then 0 else 2) in
  let adj := Z.land (flags c) (Z.lor LADJUST ZEROPAD) in
  (if adj =? 0 then PAD (width c - realsz) 32 else xret tt) ~;
  (if sign c =? 0 then xret tt else PRINT [sign c]) ~;
  (if ox1 c =? 0 then xret tt else PRINT [48; ox1 c]) ~;
  (if adj =? ZEROPAD then PAD (width c - realsz) 48 else xret tt) ~;
  PAD (dprec f - size f) 48 ~;
  (match fp f with
   | None => PRINT (cp f)
   | Some (expt, expchar, es) => emit_float c (cp f) expt expchar es
   end) ~;
  (if has (flags c) LADJUST then PAD (width c - realsz) 32 else xret tt) ~;
  let w := if width c <? realsz then realsz else width c in
  r <~ xget retval ;;
  if INT_MAX - r <? w then leave Overflow else xmod (set_ret (r + w)).

(** ** The extensions *)

Definition add_ret (n : Z) : XM unit := xmod (fun s => set_ret (s32 (retval s + n)) s).

(** A sequence that is none of them: the character is printed as it is. *)
Definition literal (fmt0 : list Z) : XM unit :=
  ch <~ fmt_at fmt0 0 ;; PRINT [ch] ~; skip 1.

(** What follows a backtick; [nested] is the recursive call. *)
Definition special (nested : list Z -> list va -> XM Z) (fmt0 : list Z) : XM unit :=
  c1 <~ fmt_at fmt0 1 ;;
  if c1 =? 96 then PRINT [96] ~; skip 2
  else if negb (c1 =? 80) then literal fmt0
  else
    c2 <~ fmt_at fmt0 2 ;;
    r <~ rest_of fmt0 ;;
    let tail := drop 3 r in
    if c2 =? 123 then
      skip 3 ~;
      match strstr tail [58; 37; 112; 125] with
      | None => literal fmt0
      | Some name =>
          object <~ arg_ptr ;;
          (match formatters name with
           | Some func => n <~ xlift (on_arg (func object)) ;; add_ret n
           | None => PRINT [73; 78; 86; 65; 76; 73; 68; 58] ~; PRINT name ~; add_ret (8 + zlen name)
           end) ~;
          skip (length name + 4)
      end
    else if c2 =? 101 then
      if prefixb [37; 100] tail then
        err <~ arg_int ;;
        skip 5 ~; PRINT (strerror err) ~; add_ret (zlen (strerror err))
      else literal fmt0
    else if c2 =? 115 then
      if prefixb [37; 112] tail then
        x <~ arg_string ;;
        match x with
        | None => PRINT null_text ~; add_ret 6
        | Some bs => skip 5 ~; PRINT bs ~; add_ret (zlen bs)
        end
      else if prefixb [37; 100; 37; 112] tail then
        n <~ arg_int ;;
        x <~ arg_string ;;
        match x with
        | None => PRINT null_text ~; add_ret 6
        | Some bs => skip 7 ~;
                     let bs := take (Z.to_nat (MIN (u32 n) (zlen bs))) bs in
                     PRINT bs ~; add_ret (zlen bs)
        end
      else literal fmt0
    else if (c2 =? 118) && prefixb [37; 115; 37; 112] tail then
      x <~ arg_str ;;
      l <~ arg_args ;;
      mem <~ xlift (of_option x) ;;
      len <~ xlift (of_option (strlen mem)) ;;
      res <~ nested (take (Z.to_nat len) mem) l ;;
      if res =? -1 then leave PrintError
      else add_ret res ~; skip 7
    else literal fmt0.

(** ** The function *)

(** The text in front of the next special character. *)
Definition text (fmt0 : list Z) : XM Z :=
  k <~ xget fmt ;;
  m <~ xget ps ;;
  r <~ xlift (of_option (scan_text (S (length fmt0)) fmt0 (fun wc => (wc =? 37) || (wc =? 96)) k m)) ;;
  let '(i, n, m) := r in
  xmod (set_fmt i) ~;
  xmod (set_ps m) ~;
  (if (i =? k)%nat then xret tt
   else
     r <~ xget retval ;;
     let m := Z.of_nat i - Z.of_nat k in
     if (m <? 0) || (INT_MAX - r <? m) then leave Overflow
     else PRINT (take (i - k) (drop k fmt0)) ~; xmod (set_ret (r + m))) ~;
  xret n.

(** The part behind the loop. *)
Definition finish (loop : XM unit) : M pst Z :=
  r <-- loop ;;
  s <-- get ;;
  match r with
  | inl _ | inr Done =>
      match flush print_funcs with
      | Some f => ok <-- on_arg f ;; ret (if (ok : bool) then retval s else -1)
      | None => ret (retval s)
      end
  | inr PrintError | inr Overflow => ret (-1)
  | inr NoMemory => ret (retval s)
  end.

Definition start (p : P) (o : gmap positive Z) (l : list va) : pst := PSt p o 0 mb0 None 1 l 0.

Fixpoint core_loop (fuel : nat) (fmt0 : list Z) (args0 : list va) : XM unit :=
  match fuel with
  | O => xlift fault
  | S fuel =>
      n <~ text fmt0 ;;
      if n <=? 0 then leave Done
      else
        ch <~ fmt_at fmt0 0 ;;
        (if ch =? 96 then
           special (fun rfmt l s =>
             match finish (core_loop fuel rfmt l) (start (parg s) (outs s) l) with
             | Ret (r, s') => Ret (inl r, set_outs (outs s') (set_parg (parg s') s))
             | Panic => Panic
             | Fault => Fault
             end) fmt0
         else
           skip 1 ~;
           ch <~ next_ch fmt0 ;;
           r <~ reswitch (4 + length fmt0) fmt0 args0 ch (Conv 0 0 (-1) 0 0) ;;
           match r with
           | Some (c, f) => emit c f
           | None => xret tt
           end) ~;
        core_loop fuel fmt0 args0
  end.

(** The result, [print_arg] and the variables of %n afterwards. *)
Definition ph_vprintf_core (fuel : nat) (fmt0 : list Z) (args0 : list va) (p : P) (o : gmap positive Z) :
    outcome (Z * (P * gmap positive Z)) :=
  match finish (core_loop fuel fmt0 args0) (start p o args0) with
  | Ret (r, s) => Ret (r, (parg s, outs s))
  | Panic => Panic
  | Fault => Fault
  end.

End core.
End Printf.
