(* ===== verification/PrintfProofs.v ===== *)
(** * What the formatted output is

    [formats] relates a format, its arguments and the text they describe;
    [printf_renders] says that this text is what is printed. *)

From Stdlib Require Import ZArith Lia.
From stdpp Require Import base numbers list gmap.
From S2P Require Import Prelude SysUtil Printf.

Module PrintfProofs.
Export Printf.

(** ** The text of a conversion *)

Definition spaces (n : Z) : list Z := replicate (Z.to_nat n) 32.
Definition zeros (n : Z) : list Z := replicate (Z.to_nat n) 48.

(** The value of decimal digits. *)
Definition dec_value (ds : list Z) : Z := fold_left (fun n c => 10 * n + (c - 48)) ds 0.

Inductive modifier := NoMod | ModHH | ModH | ModL | ModLL | ModQ | ModT | ModZ | ModJ.
Inductive convchar := Cd | Ci | Cu | Co | Cx | CX | Cc | Cs | Cp | Cpercent.

Definition mod_text (m : modifier) : list Z :=
  match m with
  | NoMod => [] | ModHH => [104; 104] | ModH => [104] | ModL => [108] | ModLL => [108; 108]
  | ModQ => [113] | ModT => [116] | ModZ => [122] | ModJ => [106]
  end.
Definition conv_text (c : convchar) : Z :=
  match c with
  | Cd => 100 | Ci => 105 | Cu => 117 | Co => 111 | Cx => 120 | CX => 88 | Cc => 99 | Cs => 115 | Cp => 112 | Cpercent => 37
  end.

(** A conversion specification: flags, digits of the width and of the precision,
    modifier and conversion. *)
Record dir := Dir { d_flags : list Z; d_width : list Z; d_prec : option (list Z); d_mod : modifier; d_conv : convchar }.

Definition prec_text (p : option (list Z)) : list Z := match p with Some ds => 46 :: ds | None => [] end.
Definition dir_text (d : dir) : list Z :=
  37 :: d_flags d ++ d_width d ++ prec_text (d_prec d) ++ mod_text (d_mod d) ++ [conv_text (d_conv d)].

Definition digit (c : Z) : Prop := 48 <= c <= 57.

Record dir_ok (d : dir) : Prop := {
  do_flags : Forall (fun c => c ∈ [32; 35; 39; 45; 43; 48]) (d_flags d);
  do_width : Forall digit (d_width d) /\ d_width d !! 0%nat <> Some 48 /\ dec_value (d_width d) <= INT_MAX;
  do_prec ds : d_prec d = Some ds -> Forall digit ds /\ dec_value ds <= INT_MAX;
}.

Section spec.
Context {D : Type}.
Abbreviation va := (va_t D).

Definition flag (d : dir) (c : Z) : bool := bool_decide (c ∈ d_flags d).

(** The integer a modifier takes from an argument. *)
Definition int_of (m : modifier) (sgn : bool) (a : va) : option Z :=
  match m, a with
  | NoMod, VaInt z => Some (if sgn then s32 z else u32 z)
  | ModHH, VaInt z => Some (if sgn then wrapS 8 z else wrapU 8 z)
  | ModH, VaInt z => Some (if sgn then wrapS 16 z else wrapU 16 z)
  | (ModL | ModLL | ModQ | ModT | ModZ | ModJ), VaLong z => Some (if sgn then s64 z else u64 z)
  | _, _ => None
  end.

(** [prefix] and [body] in a field of the width. *)
Definition layout (d : dir) (zero : bool) (prefix body : list Z) : list Z :=
  let n := dec_value (d_width d) - zlen (prefix ++ body) in
  if flag d 45 then prefix ++ body ++ spaces n
  else if zero && flag d 48 then prefix ++ zeros n ++ body
  else spaces n ++ prefix ++ body.

(** The digits of a number with at least as many as the precision says; a zero
    with precision 0 has none. *)
Definition with_precision (p : option (list Z)) (u : Z) (ds : list Z) : list Z :=
  match p with
  | None => ds
  | Some p => if (u =? 0) && (dec_value p =? 0) then [] else zeros (dec_value p - zlen ds) ++ ds
  end.

Definition sign_text (d : dir) (z : Z) : list Z :=
  if z <? 0 then [45] else if flag d 43 then [43] else if flag d 32 then [32] else [].
Definition hex_prefix (d : dir) (u x : Z) : list Z := if flag d 35 && negb (u =? 0) then [48; x] else [].

(** A number is padded with zeros only without a precision. *)
Definition number_text (d : dir) (b : base_t) (prefix : list Z) (u : Z) : list Z :=
  layout d (negb (bool_decide (is_Some (d_prec d)))) prefix (with_precision (d_prec d) u (number_digits b (flag d 35) u)).

(** The string in memory, up to a zero or the precision. *)
Definition string_text (p : option (list Z)) (mem : list Z) : option (list Z) :=
  match p with
  | None => n ← strlen mem; if n <=? INT_MAX then Some (take (Z.to_nat n) mem) else None
  | Some p => r ← memchr0 mem (Z.to_nat (dec_value p));
              Some (take (Z.to_nat (match r with Some n => n | None => dec_value p end)) mem)
  end.

(** What a conversion prints of its arguments. *)
Definition render (d : dir) (a : list va) : option (list Z) :=
  match d_conv d, a with
  | (Cd | Ci), [a] => z ← int_of (d_mod d) true a; Some (number_text d DEC (sign_text d z) (Z.abs z))
  | Cu, [a] => u ← int_of (d_mod d) false a; Some (number_text d DEC [] u)
  | Co, [a] => u ← int_of (d_mod d) false a; Some (number_text d OCT [] u)
  | Cx, [a] => u ← int_of (d_mod d) false a; Some (number_text d (HEX false) (hex_prefix d u 120) u)
  | CX, [a] => u ← int_of (d_mod d) false a; Some (number_text d (HEX true) (hex_prefix d u 88) u)
  | Cp, [VaPtr p] => Some (number_text d (HEX false) [48; 120] (u64 p))
  | Cc, [VaInt z] => Some (layout d true [] [wrapU 8 z])
  | Cs, [VaStr s] => bs ← string_text (d_prec d) (match s with Some mem => mem | None => null_text ++ [0] end); Some (layout d true [] bs)
  | Cpercent, [] => Some (layout d true [] [37])
  | _, _ => None
  end.

(** Text without special characters. *)
Definition plain : list Z -> Prop := Forall (fun b => 0 < b < 128 /\ b <> 37 /\ b <> 96).

Definition ps_text : list Z := [96; 80; 115; 37; 112].
Definition pv_text : list Z := [96; 80; 118; 37; 115; 37; 112].

(** The format [f] prints the arguments [a] as [o] in at most [k] rounds: text, a
    conversion, a string object or a nested format, and so on; [e] says whether
    a nested format may print nothing. *)
Inductive formats (e : bool) : nat -> list Z -> list va -> list Z -> Prop :=
  | fo_end s : plain s -> formats e 1 s [] s
  | fo_dir k s d a r f l o : plain s -> dir_ok d -> render d a = Some r -> formats e k f l o ->
      formats e (S k) (s ++ dir_text d ++ f) (a ++ l) (s ++ r ++ o)
  | fo_string k s bs f l o : plain s -> formats e k f l o ->
      formats e (S k) (s ++ ps_text ++ f) (VaString (Some bs) :: l) (s ++ bs ++ o)
  | fo_nested k k' s f' junk l' o' f l o : plain s -> formats e k' f' l' o' -> (o' = [] -> e = true) -> formats e k f l o ->
      formats e (S (k + k')) (s ++ pv_text ++ f) (VaStr (Some (f' ++ 0 :: junk)) :: VaArgs l' :: l) (s ++ o' ++ o).

End spec.

(** ** Printing *)

(** [mbrtowc] takes the ASCII characters one by one. *)
Class ascii_locale {MB} (mbrtowc : list Z -> MB -> Z * Z * MB) (mb0 : MB) : Prop := {
  mb_char b l : 0 < b < 128 -> mbrtowc (b :: l) mb0 = (1, b, mb0);
  mb_end l : mbrtowc (0 :: l) mb0 = (0, 0, mb0);
}.

(** The print function never fails; [R p l] says that [l] was printed so far, [F p l]
    that it was also flushed; there is room for [N] bytes, and
    [e] says whether nothing can be flushed. *)
Class printer {P} (funcs : ph_vprintf_funcs (P := P)) (R F : P -> list Z -> Prop) (N : Z) (e : bool) : Prop := {
  pr_print bs p l : R p l -> bs <> [] -> zlen (l ++ bs) <= N -> exists p', print funcs bs p = Ret (true, p') /\ R p' (l ++ bs);
  pr_flush f p l : flush funcs = Some f -> (l = [] -> e = true) -> R p l -> exists p', f p = Ret (true, p') /\ F p' l;
  pr_done p l : flush funcs = None -> R p l -> F p l;
  pr_again p l : F p l -> R p l;
}.

Section proofs.
Context {P D MB : Type}.
Context (mbrtowc : list Z -> MB -> Z * Z * MB) (mb0 : MB) `{Hmb : !ascii_locale mbrtowc mb0}.
Context (dtoa : D -> Z -> Z -> option (list Z * Z * bool)) (strerror : Z -> list Z).
Context (formatters : list Z -> option (Z -> M P Z)) (pagesize : Z) (mmap_ok : bool).
Context (funcs : ph_vprintf_funcs (P := P)) (R F : P -> list Z -> Prop) (N : Z) (e : bool) `{HR : !printer funcs R F N e}.
Abbreviation st := (pst (P := P) (D := D) (MB := MB)).
Abbreviation X := (XM (P := P) (D := D) (MB := MB)).
Abbreviation va := (va_t D).
Implicit Types s : st.
Implicit Types l : list Z.

Lemma xbind_ret {A B} (c : X A) (k : A -> X B) s a s' : c s = Ret (inl a, s') -> xbind c k s = k a s'.
Proof. intros E. unfold xbind, bind. by rewrite E. Qed.

Lemma set_parg_id s : set_parg (parg s) s = s.
Proof. by destruct s. Qed.

(** [c] prints [bs] and changes nothing else. *)
Definition puts (c : X unit) (bs : list Z) : Prop :=
  forall s l, R (parg s) l -> zlen (l ++ bs) <= N -> exists p', c s = Ret (inl tt, set_parg p' s) /\ R p' (l ++ bs).

Lemma puts_nil : puts (xret tt) [].
Proof. intros s l H _. exists (parg s). rewrite set_parg_id, app_nil_r. done. Qed.

Lemma puts_seq c c' bs bs' : puts c bs -> puts c' bs' -> puts (xbind c (fun _ => c')) (bs ++ bs').
Proof.
  intros H1 H2 s l Hl Hn. destruct (H1 s l Hl) as (p & E & Hp); [rewrite !length_app in *; lia|].
  destruct (H2 (set_parg p s) _ Hp) as (p' & E' & Hp'); [rewrite !length_app in *; lia|].
  exists p'. rewrite (xbind_ret _ _ _ _ _ E), E', app_assoc. done.
Qed.

Lemma puts_print bs : puts (PRINT funcs bs) bs.
Proof.
  intros s l Hl Hn. destruct bs as [|b bs]; [by apply puts_nil|]. destruct (pr_print (b :: bs) _ _ Hl ltac:(done) Hn) as (p & E & Hp). exists p.
  split; [|done]. unfold PRINT, xbind, xlift, on_arg, bind. by rewrite E.
Qed.

Lemma puts_pad_loop fuel n x : 0 < n -> (Z.to_nat n <= fuel)%nat -> puts (PAD_loop funcs fuel n x) (replicate (Z.to_nat n) x).
Proof.
  revert n. induction fuel as [|fuel IH]; intros n Hn Hf; [lia|]. cbn [PAD_loop]. case_bool; zbool.
  - replace (Z.to_nat n) with (Z.to_nat PADSIZE + Z.to_nat (n - PADSIZE))%nat by (unfold PADSIZE in *; lia).
    rewrite replicate_add. apply puts_seq; [apply puts_print|]. apply IH; unfold PADSIZE in *; lia.
  - apply puts_print.
Qed.

Lemma puts_pad n x : puts (PAD funcs n x) (replicate (Z.to_nat n) x).
Proof.
  unfold PAD. case_bool; zbool; [by apply puts_pad_loop|]. replace (Z.to_nat n) with O by lia. apply puts_nil.
Qed.

Lemma puts_eq c bs bs' : puts c bs -> bs = bs' -> puts c bs'.
Proof. by intros H <-. Qed.

Lemma puts_if (b : bool) c bs : puts c bs -> puts (if b then c else xret tt) (if b then bs else []).
Proof. intros H. destruct b; [done|apply puts_nil]. Qed.

Lemma puts_unless (b : bool) c bs : puts c bs -> puts (if b then xret tt else c) (if b then [] else bs).
Proof. intros H. destruct b; [apply puts_nil|done]. Qed.

(** The field behind the conversion: the padding, the prefixes and the body. *)
Definition emitted (c : conv) (f : field) : list Z :=
  let realsz := (if size f <? dprec f then dprec f else size f) + (if sign c =? 0 then 0 else 1) + (if ox1 c =? 0 then 0 else 2) in
  let adj := Z.land (flags c) (Z.lor LADJUST ZEROPAD) in
  (if adj =? 0 then spaces (width c - realsz) else []) ++ (if sign c =? 0 then [] else [sign c]) ++
  (if ox1 c =? 0 then [] else [48; ox1 c]) ++ (if adj =? ZEROPAD then zeros (width c - realsz) else []) ++
  zeros (dprec f - size f) ++ cp f ++ (if has (flags c) LADJUST then spaces (width c - realsz) else []).

Lemma puts_then {B} c bs (k : X B) s l :
  puts c bs -> R (parg s) l -> zlen (l ++ bs) <= N ->
  exists p', xbind c (fun _ => k) s = k (set_parg p' s) /\ R p' (l ++ bs).
Proof. intros H Hl Hn. destruct (H s l Hl Hn) as (p & E & Hp). exists p. by rewrite (xbind_ret _ _ _ _ _ E). Qed.

Ltac puts_step H := match goal with |- context [xbind ?c (fun _ => ?k) ?s] =>
  match goal with HRp : R _ ?l |- _ =>
  let p := fresh "p" in let E := fresh "E" in let Hp := fresh "Hp" in
  destruct (puts_then c _ k s l H HRp) as (p & E & Hp);
    [rewrite ?length_app; lia|rewrite E; clear E HRp] end end.

Definition real_size (c : conv) (f : field) : Z :=
  (if size f <? dprec f then dprec f else size f) + (if sign c =? 0 then 0 else 1) + (if ox1 c =? 0 then 0 else 2).

Lemma emit_field_ok c f s l :
  fp f = None -> R (parg s) l -> zlen (l ++ emitted c f) <= N -> retval s + Z.max (width c) (real_size c f) <= INT_MAX ->
  exists p', emit funcs c f s = Ret (inl tt, set_ret (retval s + Z.max (width c) (real_size c f)) (set_parg p' s)) /\
    R p' (l ++ emitted c f).
Proof.
  intros Hf Hl Hn Hr. unfold emit, emitted in *. rewrite Hf. fold (real_size c f) in *.
  unfold spaces, zeros in *. rewrite !length_app in Hn.
  puts_step (puts_if (Z.land (flags c) (Z.lor LADJUST ZEROPAD) =? 0) _ _ (puts_pad (width c - real_size c f) 32)).
  puts_step (puts_unless (sign c =? 0) _ _ (puts_print [sign c])).
  puts_step (puts_unless (ox1 c =? 0) _ _ (puts_print [48; ox1 c])).
  puts_step (puts_if (Z.land (flags c) (Z.lor LADJUST ZEROPAD) =? ZEROPAD) _ _ (puts_pad (width c - real_size c f) 48)).
  puts_step (puts_pad (dprec f - size f) 48).
  puts_step (puts_print (cp f)).
  puts_step (puts_if (has (flags c) LADJUST) _ _ (puts_pad (width c - real_size c f) 32)).
  eexists. split; [|match goal with H : R _ _ |- _ => rewrite <- !app_assoc in H; exact H end].
  erewrite xbind_ret by reflexivity. cbv beta. cbn [retval set_parg].
  assert ((if width c <? real_size c f then real_size c f else width c) = Z.max (width c) (real_size c f)) as ->.
  { case_bool; zbool; lia. }
  case_bool; zbool; [lia|]. reflexivity.
Qed.

(** ** Reading a conversion *)

Section parse.
Context (fmt0 : list Z) (args0 : list va).
Abbreviation reswitch := (reswitch mbrtowc mb0 dtoa pagesize mmap_ok).

(** The format from the current position on. *)
Definition at_ s l : Prop := drop (fmt s) fmt0 = l.

Lemma at_same s s' l : fmt s' = fmt s -> at_ s l -> at_ s' l.
Proof. unfold at_. by intros ->. Qed.

Lemma at_drop s n l : at_ s l -> drop (fmt s + n) fmt0 = drop n l.
Proof. intros <-. by rewrite drop_drop. Qed.

Lemma at_skip s n l : at_ s l -> at_ (set_fmt (fmt s + n) s) (drop n l).
Proof. apply at_drop. Qed.

Lemma at_char s i c l : at_ s l -> l !! i = Some c -> (fmt0 ++ [0]) !! (fmt s + i)%nat = Some c.
Proof. intros <- H. rewrite lookup_drop in H. by rewrite lookup_app_l by (by eapply lookup_lt_Some). Qed.

Lemma fmt_at_ok s i c l : at_ s l -> l !! i = Some c -> fmt_at fmt0 i s = Ret (inl c, s).
Proof.
  intros H Hc. unfold fmt_at. erewrite xbind_ret by reflexivity. unfold xlift, bind, of_option. by rewrite (at_char _ _ _ _ H Hc).
Qed.

Lemma next_ch_ok s c l : at_ s (c :: l) -> next_ch fmt0 s = Ret (inl c, set_fmt (S (fmt s)) s).
Proof.
  intros H. unfold next_ch. erewrite xbind_ret by (by apply (fmt_at_ok s 0 c (c :: l))). by erewrite xbind_ret by reflexivity.
Qed.

Lemma at_next s c l : at_ s (c :: l) -> at_ (set_fmt (S (fmt s)) s) l.
Proof. intros H. apply (at_skip s 1) in H. by rewrite Nat.add_1_r in H. Qed.

(** The label [rflag]. *)
Definition rflag fuel (c : conv) : X (option (conv * field)) := xbind (next_ch fmt0) (fun ch => reswitch fuel fmt0 args0 ch c).

Lemma rflag_eq fuel c : rflag fuel c = xbind (next_ch fmt0) (fun ch => reswitch fuel fmt0 args0 ch c).
Proof. reflexivity. Qed.

Lemma rflag_char fuel c s ch l : at_ s (ch :: l) -> rflag fuel c s = reswitch fuel fmt0 args0 ch c (set_fmt (S (fmt s)) s).
Proof. intros H. unfold rflag. by erewrite xbind_ret by (by apply next_ch_ok with l). Qed.

Definition flag_effect (c : conv) (ch : Z) : conv :=
  if ch =? 32 then (if sign c =? 0 then with_sign 32 c else c)
  else if ch =? 35 then add_flag ALT c
  else if ch =? 45 then add_flag LADJUST c
  else if ch =? 43 then with_sign 43 c
  else if ch =? 48 then add_flag ZEROPAD c
  else c.

Lemma flags_ok fs : forall c s l fuel,
  Forall (fun c => c ∈ [32; 35; 39; 45; 43; 48]) fs -> at_ s (fs ++ l) ->
  rflag (length fs + fuel) c s = rflag fuel (fold_left flag_effect fs c) (set_fmt (fmt s + length fs) s).
Proof.
  induction fs as [|ch fs IH]; intros c s l fuel Hf Hat; cbn [length].
  - rewrite Nat.add_0_r. by destruct s.
  - apply Forall_cons in Hf as [Hch Hf]. cbn [app] in Hat. rewrite (rflag_char _ c s ch (fs ++ l)) by done.
    cbn [Nat.add Printf.reswitch fold_left].
    pose proof (IH (flag_effect c ch) (set_fmt (S (fmt s)) s) l fuel Hf (at_next _ _ _ Hat)) as E. cbn [fmt set_fmt] in E.
    replace (fmt s + S (length fs))%nat with (S (fmt s) + length fs)%nat by lia. etransitivity; [|exact E].
    set_unfold in Hch. destruct Hch as [->|[->|[->|[->|[->|[->|[]]]]]]]; reflexivity.
Qed.

Lemma digit_ok c : digit c -> is_digit c = true.
Proof. unfold digit, is_digit, to_digit. intros. rewrite wrapU_small by lia. zbool. lia. Qed.
Lemma not_digit_ok c : 0 <= c < 128 -> ~ digit c -> is_digit c = false.
Proof.
  unfold digit, is_digit, to_digit, wrapU. intros Hc Hd. zbool. destruct (decide (48 <= c)).
  - rewrite Z.mod_small; lia.
  - assert ((c - 48) mod 2 ^ 32 = c - 48 + 2 ^ 32) as ->; [|lia]. symmetry. apply (Z.mod_unique _ _ (-1)); lia.
Qed.

Lemma digits_ok ds : forall n c l i,
  Forall digit ds -> 0 <= n -> fold_left (fun n c => 10 * n + (c - 48)) ds n <= INT_MAX -> 0 <= c < 128 -> ~ digit c ->
  digits_at (ds ++ c :: l) n i = Some (fold_left (fun n c => 10 * n + (c - 48)) ds n, (i + length ds)%nat).
Proof.
  induction ds as [|d ds IH]; intros n c l i Hds Hn Hmax Hc Hnd; cbn [app digits_at length fold_left].
  - rewrite not_digit_ok by done. by rewrite Nat.add_0_r.
  - apply Forall_cons in Hds as [Hd Hds]. rewrite (digit_ok d Hd). cbn [fold_left] in Hmax.
    assert (forall ds m, Forall digit ds -> 0 <= m -> m <= fold_left (fun n c => 10 * n + (c - 48)) ds m) as Hmono.
    { clear. induction ds as [|d ds IH]; intros m Hd Hm; cbn; [lia|]. apply Forall_cons in Hd as [Hd Hds]. unfold digit in Hd.
      specialize (IH (10 * m + (d - 48)) Hds ltac:(lia)). lia. }
    unfold digit in Hd. specialize (Hmono ds (10 * n + (d - 48)) Hds ltac:(lia)).
    unfold APPEND_DIGIT, to_digit. pose proof (Z.div_lt_upper_bound n (INT_MAX) 10). 
    case_bool; zbool; [unfold INT_MAX in *; change ((2 ^ 31 - 1) / 10) with 214748364 in *; lia|].
    case_bool; zbool; [lia|]. cbn [mbind option_bind]. rewrite (Z.mul_comm n 10), IH by (done || lia). f_equal. f_equal. lia.
Qed.

Lemma dec_value_nonneg ds : Forall digit ds -> 0 <= dec_value ds.
Proof.
  unfold dec_value. assert (forall n, 0 <= n -> Forall digit ds -> 0 <= fold_left (fun n c => 10 * n + (c - 48)) ds n) as H; [|auto with lia].
  induction ds as [|d ds IH]; intros n Hn Hd; [done|]. apply Forall_cons in Hd as [Hd Hds]. unfold digit in Hd. cbn. apply IH; [lia|done].
Qed.

(** A character that can follow digits. *)
Definition follows (ch : Z) : Prop := 0 <= ch < 128 /\ ~ digit ch /\ ch <> 36.

Lemma width_ok ds c s ch l fuel :
  Forall digit ds -> ds !! 0%nat <> Some 48 -> dec_value ds <= INT_MAX -> at_ s (ds ++ ch :: l) -> follows ch ->
  width c = 0 ->
  rflag (S fuel) c s = rflag (if decide (ds = []) then S fuel else fuel) (with_width (dec_value ds) c) (set_fmt (fmt s + length ds) s).
Proof.
  intros Hds H0 Hmax Hat (Hc & Hnd & H36) Hw. case_decide as Hnil.
  { subst. cbn [length dec_value fold_left]. rewrite Nat.add_0_r. assert (with_width 0 c = c) as -> by (rewrite <- Hw; by destruct c). by destruct s. }
  destruct ds as [|d ds]; [done|]. rewrite (rflag_char _ c s d (ds ++ ch :: l)) by done. pose proof Hds as Hds0.
  apply Forall_cons in Hds as [Hd Hds]. unfold digit in Hd.
  assert (d <> 48) as Hd0 by (intros ->; done). cbn [Printf.reswitch].
  do 7 (rewrite (proj2 (Z.eqb_neq d _)) by lia). rewrite (proj2 (Z.eqb_neq d 48)) by lia.
  rewrite (proj2 (Z.leb_le 49 d)), (proj2 (Z.leb_le d 57)) by lia. cbn [andb].
  erewrite xbind_ret by reflexivity. cbv beta. cbn [fmt set_fmt].
  replace (S (fmt s) - 1)%nat with (fmt s) by lia. pose proof Hat as Hat0. unfold at_ in Hat0.
  rewrite Hat0, (digits_ok (d :: ds) 0 ch l (fmt s)) by done. erewrite xbind_ret by reflexivity. cbv beta iota.
  fold (dec_value (d :: ds)).
  assert (f_at fmt0 (fmt s + length (d :: ds)) = Some ch) as Hf.
  { apply (at_char s (length (d :: ds)) ch _ Hat). by rewrite list_lookup_middle. }
  rewrite Hf. erewrite xbind_ret by reflexivity. cbv beta. erewrite xbind_ret by reflexivity. cbv beta.
  rewrite (proj2 (Z.eqb_neq ch 36)) by done. symmetry. erewrite rflag_char; [reflexivity|].
  apply (at_skip _ (length (d :: ds))) in Hat. by rewrite drop_app_length in Hat.
Qed.

Lemma prec_ok p c s ch l fuel :
  (forall ds, p = Some ds -> Forall digit ds /\ dec_value ds <= INT_MAX) -> at_ s (prec_text p ++ ch :: l) -> follows ch ->
  prec c = -1 -> ch <> 42 ->
  rflag (S fuel) c s = rflag (if p then fuel else S fuel) (with_prec (match p with Some ds => dec_value ds | None => -1 end) c)
    (set_fmt (fmt s + length (prec_text p)) s).
Proof.
  intros Hp Hat (Hc & Hnd & H36) Hw H42. destruct p as [ds|].
  2:{ cbn [length prec_text]. rewrite Nat.add_0_r. assert (with_prec (-1) c = c) as -> by (rewrite <- Hw; by destruct c). by destruct s. }
  destruct (Hp ds eq_refl) as [Hds Hmax]. cbn [prec_text app] in Hat. rewrite (rflag_char _ c s 46 (ds ++ ch :: l)) by done.
  pose proof (at_next _ _ _ Hat) as Hat1. cbn [Printf.reswitch Z.eqb Pos.eqb].
  assert (exists x, (ds ++ ch :: l) !! 0%nat = Some x /\ x <> 42) as (x & Hx & Hx42).
  { destruct ds as [|d ds]; [by exists ch|]. exists d. split; [done|]. apply Forall_cons in Hds as [Hd _]. unfold digit in Hd. lia. }
  erewrite xbind_ret by (by eapply fmt_at_ok). cbv beta. rewrite (proj2 (Z.eqb_neq x 42)) by done.
  erewrite xbind_ret by reflexivity. cbv beta. cbn [fmt set_fmt]. unfold at_ in Hat1. cbn [fmt set_fmt] in Hat1.
  rewrite Hat1, (digits_ok ds 0 ch l (S (fmt s))) by done. erewrite xbind_ret by reflexivity. cbv beta iota. fold (dec_value ds).
  assert (f_at fmt0 (S (fmt s) + length ds) = Some ch) as Hf.
  { apply (at_char (set_fmt (S (fmt s)) s) (length ds) ch _ Hat1). by rewrite list_lookup_middle. }
  rewrite Hf. erewrite xbind_ret by reflexivity. cbv beta. erewrite xbind_ret by reflexivity. cbv beta.
  rewrite (proj2 (Z.eqb_neq ch 36)) by done. symmetry. cbn [prec_text length].
  replace (fmt s + S (length ds))%nat with (S (fmt s) + length ds)%nat by lia.
  erewrite rflag_char; [reflexivity|]. apply (at_skip (set_fmt (S (fmt s)) s) (length ds)) in Hat1. by rewrite drop_app_length in Hat1.
Qed.

Definition mod_flag (m : modifier) : Z :=
  match m with
  | NoMod => 0 | ModHH => CHARINT | ModH => SHORTINT | ModL => LONGINT | ModLL => LLONGINT
  | ModQ => LLONGINT | ModT => PTRINT | ModZ => SIZEINT | ModJ => MAXINT
  end.

Lemma mod_ok m c s ch l fuel :
  at_ s (mod_text m ++ ch :: l) -> ch <> 104 -> ch <> 108 ->
  rflag (S fuel) c s = rflag (match m with NoMod => S fuel | _ => fuel end) (add_flag (mod_flag m) c) (set_fmt (fmt s + length (mod_text m)) s).
Proof.
  intros Hat H104 H108.
  assert (forall x rest, at_ s (x :: rest) -> rflag (S fuel) c s = reswitch (S fuel) fmt0 args0 x c (set_fmt (S (fmt s)) s)) as Hr
    by (intros; by eapply rflag_char).
  assert (set_fmt (fmt s + 1) s = set_fmt (S (fmt s)) s) as H1 by (f_equal; lia).
  assert (set_fmt (fmt s + 2) s = set_fmt (fmt (set_fmt (S (fmt s)) s) + 1) (set_fmt (S (fmt s)) s)) as H2
    by (replace (fmt s + 2)%nat with (S (fmt s) + 1)%nat by lia; reflexivity).
  destruct m; cbn [mod_text app length mod_flag] in *; rewrite ?H1, ?H2.
  1:{ rewrite Nat.add_0_r. assert (add_flag 0 c = c) as -> by (destruct c; unfold add_flag, with_flags; cbn; by rewrite Z.lor_0_r). by destruct s. }
  all: rewrite (Hr _ _ Hat); cbn [Printf.reswitch Z.eqb Pos.eqb andb orb Z.leb Z.compare Pos.compare Pos.compare_cont]; try reflexivity.
  all: pose proof (at_next _ _ _ Hat) as Hat1; erewrite xbind_ret by (by eapply (fmt_at_ok _ 0)); cbv beta.
  all: rewrite ?(proj2 (Z.eqb_neq ch 104)), ?(proj2 (Z.eqb_neq ch 108)) by done; try reflexivity.
Qed.

End parse.

(** ** The conversion and its field *)

(** The conversion after these flags. *)
Definition mk (a l z : bool) (sg : Z) : conv :=
  Conv (Z.lor (Z.lor (if a then ALT else 0) (if l then LADJUST else 0)) (if z then ZEROPAD else 0)) 0 (-1) sg 0.

Definition dec_in (c : Z) (fs : list Z) : bool := bool_decide (c ∈ fs).
Lemma dec_in_cons c x fs : dec_in c (x :: fs) = (x =? c) || dec_in c fs.
Proof.
  unfold dec_in. destruct (Z.eqb_spec x c) as [->|Hn]; cbn [orb].
  - by apply bool_decide_eq_true_2; left.
  - apply bool_decide_ext. rewrite elem_of_cons. naive_solver.
Qed.

Definition sign_after (fs : list Z) (sg : Z) : Z :=
  if dec_in 43 fs then 43 else if negb (sg =? 0) then sg else if dec_in 32 fs then 32 else 0.

Lemma flags_mk fs : forall (a l z : bool) sg,
  Forall (fun c => c ∈ [32; 35; 39; 45; 43; 48]) fs -> sg = 0 \/ sg = 32 \/ sg = 43 ->
  fold_left flag_effect fs (mk a l z sg) = mk (a || dec_in 35 fs) (l || dec_in 45 fs) (z || dec_in 48 fs) (sign_after fs sg).
Proof.
  induction fs as [|ch fs IH]; intros a l z sg Hfs Hsg; cbn [fold_left].
  - rewrite !orb_false_r. f_equal. unfold sign_after. cbn. by destruct Hsg as [->|[->| ->]].
  - apply Forall_cons in Hfs as [Hch Hfs]. unfold sign_after. rewrite !dec_in_cons.
    assert (exists (a' l' z' : bool) sg', flag_effect (mk a l z sg) ch = mk a' l' z' sg' /\ (sg' = 0 \/ sg' = 32 \/ sg' = 43) /\
      a' = a || (ch =? 35) /\ l' = l || (ch =? 45) /\ z' = z || (ch =? 48) /\
      sg' = if ch =? 43 then 43 else if negb (sg =? 0) then sg else if ch =? 32 then 32 else 0) as (a' & l' & z' & sg' & -> & H1 & -> & -> & -> & ->).
    { set_unfold in Hch. destruct Hch as [->|[->|[->|[->|[->|[->|[]]]]]]]; destruct Hsg as [->|[->| ->]];
        eexists _, _, _, _; (split; [|split; [|split; [reflexivity|split; [reflexivity|split; [reflexivity|reflexivity]]]]]); cbn; try lia; by destruct a, l, z. }
    rewrite IH by done. rewrite <- !orb_assoc. f_equal. unfold sign_after.
    set_unfold in Hch. destruct Hch as [->|[->|[->|[->|[->|[->|[]]]]]]]; destruct Hsg as [->|[->| ->]]; cbn; by destruct (dec_in 43 fs), (dec_in 32 fs).
Qed.

(** The conversion of a specification, before its last character. *)
Definition conv_of (d : dir) : conv :=
  let fs := d_flags d in
  Conv (Z.lor (flags (mk (dec_in 35 fs) (dec_in 45 fs) (dec_in 48 fs) 0)) (mod_flag (d_mod d)))
    (dec_value (d_width d)) (match d_prec d with Some ds => dec_value ds | None => -1 end) (sign_after fs 0) 0.

Record flag_facts (d : dir) (fl : Z) (zero : bool) : Prop := {
  ff_alt : has fl ALT = flag d 35;
  ff_left : has fl LADJUST = flag d 45;
  ff_blank : (Z.land fl (Z.lor LADJUST ZEROPAD) =? 0) = negb (flag d 45) && negb (zero && flag d 48);
  ff_zero : (Z.land fl (Z.lor LADJUST ZEROPAD) =? ZEROPAD) = negb (flag d 45) && (zero && flag d 48);
}.

Ltac by_flags d := unfold flag; fold (dec_in 35 (d_flags d)) (dec_in 45 (d_flags d)) (dec_in 48 (d_flags d));
  destruct (dec_in 35 (d_flags d)), (dec_in 45 (d_flags d)), (dec_in 48 (d_flags d)), (d_mod d); reflexivity.

Lemma conv_flags d : flag_facts d (flags (conv_of d)) true.
Proof. split; cbn [conv_of flags mk]; by_flags d. Qed.
Lemma conv_flags_nozero d : flag_facts d (Z.ldiff (flags (conv_of d)) ZEROPAD) false.
Proof. split; cbn [conv_of flags mk]; by_flags d. Qed.

Definition mod_long (m : modifier) : bool := match m with NoMod | ModHH | ModH => false | _ => true end.
Lemma conv_long d : is_long (flags (conv_of d)) = mod_long (d_mod d).
Proof. unfold is_long. cbn [conv_of flags mk]. by_flags d. Qed.
Lemma conv_short d : has (flags (conv_of d)) SHORTINT = match d_mod d with ModH => true | _ => false end.
Proof. cbn [conv_of flags mk]. by_flags d. Qed.
Lemma conv_char d : has (flags (conv_of d)) CHARINT = match d_mod d with ModHH => true | _ => false end.
Proof. cbn [conv_of flags mk]. by_flags d. Qed.

Lemma layout_ok d zero c f prefix :
  dir_ok d -> width c = dec_value (d_width d) -> flag_facts d (flags c) zero -> size f = zlen (cp f) ->
  prefix = (if sign c =? 0 then [] else [sign c]) ++ (if ox1 c =? 0 then [] else [48; ox1 c]) ->
  emitted c f = layout d zero prefix (zeros (dprec f - size f) ++ cp f) /\
  Z.max (width c) (real_size c f) = zlen (layout d zero prefix (zeros (dprec f - size f) ++ cp f)).
Proof.
  intros Hd Hw [_ F2 F3 F4] Hs ->. unfold emitted. fold (real_size c f). rewrite F2, F3, F4, Hw. unfold layout.
  set (prefix := (if sign c =? 0 then [] else [sign c]) ++ (if ox1 c =? 0 then [] else [48; ox1 c])). set (body := zeros _ ++ cp f). pose proof (dec_value_nonneg _ (proj1 (do_width d Hd))) as H0.
  assert (real_size c f = zlen (prefix ++ body)) as Hrs.
  { unfold real_size, prefix, body, zeros. rewrite !length_app, length_replicate. rewrite Hs.
    destruct (Z.ltb_spec (zlen (cp f)) (dprec f)), (sign c =? 0), (ox1 c =? 0); cbn [length]; lia. }
  rewrite Hrs. set (n := dec_value (d_width d) - zlen (prefix ++ body)). unfold spaces, zeros.
  destruct (flag d 45), zero, (flag d 48); cbn [negb andb]; (split; [unfold prefix, body; by rewrite ?app_nil_l, ?app_nil_r, <- ?app_assoc|]);
    unfold n; rewrite !length_app, length_replicate; lia.
Qed.

Lemma digits_before_length fuel digit base x buf : (length (digits_before fuel digit base x buf) <= fuel + length buf)%nat.
Proof.
  revert x buf. induction fuel as [|fuel IH]; intros x buf; cbn [digits_before]; [lia|].
  case_bool; [cbn; lia|]. specialize (IH (x / base) (digit (x mod base) :: buf)). cbn [length] in IH. lia.
Qed.

Lemma number_digits_length b alt u : zlen (number_digits b alt u) <= 65.
Proof.
  destruct b; unfold number_digits.
  - pose proof (digits_before_length 64 to_char 8 u []). case_match; [cbn; lia|]. case_match; cbn [length] in *; lia.
  - pose proof (digits_before_length 64 to_char 10 u []). cbn [length] in *. lia.
  - pose proof (digits_before_length 64 (xdig upper) 16 u []). cbn [length] in *. lia.
Qed.

Lemma xbind_assoc {A B C} (c : X A) (f : A -> X B) (g : B -> X C) s :
  xbind (xbind c f) g s = xbind c (fun a => xbind (f a) g) s.
Proof. unfold xbind, bind. by destruct (c s) as [[[a|x] s']| |]. Qed.

(** A field with the text [r]. *)
Definition field_is (c : conv) (f : field) (r : list Z) : Prop :=
  fp f = None /\ emitted c f = r /\ Z.max (width c) (real_size c f) = zlen r.

Lemma number_ok d u b sg ox s :
  dir_ok d ->
  exists c f, number u b (with_ox1 ox (with_sign sg (conv_of d))) s = Ret (inl (Some (c, f)), s) /\
    field_is c f (number_text d b ((if sg =? 0 then [] else [sg]) ++ (if ox =? 0 then [] else [48; ox])) u).
Proof.
  intros Hd. unfold number. cbn [prec with_ox1 with_sign conv_of flags].
  set (p := match d_prec d with Some ds => dec_value ds | None => -1 end).
  set (c := if 0 <=? p then _ else _).
  assert (flag_facts d (flags c) (negb (bool_decide (is_Some (d_prec d)))) /\ width c = dec_value (d_width d) /\ sign c = sg /\ ox1 c = ox)
    as (Hff & Hw & Hsg & Hox).
  { unfold c, p. destruct (d_prec d) as [ds|] eqn:Ep.
    - pose proof (dec_value_nonneg ds (proj1 (do_prec d Hd ds Ep))). rewrite (proj2 (Z.leb_le 0 (dec_value ds))) by done.
      rewrite bool_decide_eq_true_2 by done. split; [apply conv_flags_nozero|done].
    - rewrite bool_decide_eq_false_2 by (by intros [? ?]). split; [apply conv_flags|done]. }
  rewrite (ff_alt _ _ _ Hff). set (ds := if _ || _ then _ else []).
  assert (zlen ds <= 65) as Hl by (unfold ds; case_match; [apply number_digits_length|cbn; lia]).
  rewrite (proj2 (Z.ltb_ge 100 (zlen ds))) by lia. exists c, (Field ds (zlen ds) p None). split; [done|]. split; [done|].
  assert (number_text d b ((if sg =? 0 then [] else [sg]) ++ (if ox =? 0 then [] else [48; ox])) u =
    layout d (negb (bool_decide (is_Some (d_prec d)))) ((if sg =? 0 then [] else [sg]) ++ (if ox =? 0 then [] else [48; ox]))
      (zeros (p - zlen ds) ++ ds)) as ->.
  { unfold number_text. f_equal. unfold with_precision, ds, p. destruct (d_prec d) as [pd|].
    - destruct (u =? 0), (dec_value pd =? 0) eqn:E; cbn [negb orb andb]; try done. apply Z.eqb_eq in E. by rewrite E.
    - rewrite orb_true_r. unfold zeros. replace (Z.to_nat _) with O by lia. done. }
  apply layout_ok; [done|done|done|done|]. by rewrite Hsg, Hox.
Qed.

Lemma bytes_ok d bs : dir_ok d -> field_is (with_sign 0 (conv_of d)) (bytes_field bs) (layout d true [] bs).
Proof.
  intros Hd. split; [done|]. pose proof (layout_ok d true (with_sign 0 (conv_of d)) (bytes_field bs) [] Hd eq_refl (conv_flags d) eq_refl eq_refl) as H.
  cbn [dprec size cp bytes_field] in H. unfold zeros in H. replace (Z.to_nat (0 - zlen bs)) with O in H by lia. exact H.
Qed.

(** The position, and the arguments that are left. *)
Record moved s s' (n : nat) (la : list va) : Prop := {
  mv_fmt : fmt s' = (fmt s + n)%nat;
  mv_ap : ap s' = la;
  mv_table : argtable s' = None;
  mv_parg : parg s' = parg s;
  mv_outs : outs s' = outs s;
  mv_ps : ps s' = ps s;
  mv_ret : retval s' = retval s;
}.

Definition popped s (la : list va) : st := set_ap la (set_nextarg (nextarg s + 1) s).

Lemma get_arg_ok s a la : argtable s = None -> ap s = a :: la -> get_arg s = Ret (inl a, popped s la).
Proof. intros Ht Ha. unfold get_arg. by rewrite Ht, Ha. Qed.

Lemma va_int_ok s z la : argtable s = None -> ap s = VaInt z :: la -> arg_int s = Ret (inl (s32 z), popped s la).
Proof. intros Ht Ha. unfold arg_int. by rewrite (xbind_ret _ _ _ _ _ (get_arg_ok s _ la Ht Ha)). Qed.
Lemma va_long_ok s z la : argtable s = None -> ap s = VaLong z :: la -> arg_long s = Ret (inl (s64 z), popped s la).
Proof. intros Ht Ha. unfold arg_long. by rewrite (xbind_ret _ _ _ _ _ (get_arg_ok s _ la Ht Ha)). Qed.
Lemma va_str_ok s x la : argtable s = None -> ap s = VaStr x :: la -> arg_str s = Ret (inl x, popped s la).
Proof. intros Ht Ha. unfold arg_str. by rewrite (xbind_ret _ _ _ _ _ (get_arg_ok s _ la Ht Ha)). Qed.
Lemma va_string_ok s x la : argtable s = None -> ap s = VaString x :: la -> arg_string s = Ret (inl x, popped s la).
Proof. intros Ht Ha. unfold arg_string. by rewrite (xbind_ret _ _ _ _ _ (get_arg_ok s _ la Ht Ha)). Qed.
Lemma va_ptr_ok s x la : argtable s = None -> ap s = VaPtr x :: la -> arg_ptr s = Ret (inl x, popped s la).
Proof. intros Ht Ha. unfold arg_ptr. by rewrite (xbind_ret _ _ _ _ _ (get_arg_ok s _ la Ht Ha)). Qed.
Lemma va_args_ok s x la : argtable s = None -> ap s = VaArgs x :: la -> arg_args s = Ret (inl x, popped s la).
Proof. intros Ht Ha. unfold arg_args. by rewrite (xbind_ret _ _ _ _ _ (get_arg_ok s _ la Ht Ha)). Qed.

Lemma wrapS_wrap w w' x : 0 < w <= w' -> wrapS w (wrapS w' x) = wrapS w x.
Proof.
  intros Hw. apply wrapS_eq_iff; [lia|]. destruct (proj1 (wrapS_eq_iff w' (wrapS w' x) x ltac:(lia))) as [k Hk].
  - rewrite (wrapS_small w' (wrapS w' x)); [done|lia|]. apply wrapS_bound. lia.
  - exists (k * 2 ^ (w' - w)). rewrite Hk, <- Z.mul_assoc, <- Z.pow_add_r by lia. do 3 f_equal. lia.
Qed.

Lemma wrapU_wrapS w w' x : 0 < w <= w' -> wrapU w (wrapS w' x) = wrapU w x.
Proof.
  intros Hw. destruct (proj1 (wrapS_eq_iff w' (wrapS w' x) x ltac:(lia))) as [k Hk].
  - rewrite (wrapS_small w' (wrapS w' x)); [done|lia|]. apply wrapS_bound. lia.
  - rewrite Hk. unfold wrapU. replace (2 ^ w') with (2 ^ (w' - w) * 2 ^ w) by (rewrite <- Z.pow_add_r by lia; f_equal; lia).
    by rewrite Z.mul_assoc, Z_mod_plus_full.
Qed.

Lemma SARG_ok d s a la z :
  int_of (d_mod d) true a = Some z -> argtable s = None -> ap s = a :: la -> SARG (flags (conv_of d)) s = Ret (inl z, popped s la).
Proof.
  intros Hz Ht Ha. unfold SARG. rewrite conv_long, conv_short, conv_char.
  destruct (d_mod d), a; try done; injection Hz as <-; cbn [mod_long];
    try (by apply va_long_ok); erewrite xbind_ret by (by apply va_int_ok); unfold xret, ret; rewrite ?wrapS_wrap by lia; done.
Qed.
Lemma UARG_ok d s a la z :
  int_of (d_mod d) false a = Some z -> argtable s = None -> ap s = a :: la -> UARG (flags (conv_of d)) s = Ret (inl z, popped s la).
Proof.
  intros Hz Ht Ha. unfold UARG. rewrite conv_long, conv_short, conv_char.
  destruct (d_mod d), a; try done; injection Hz as <-; cbn [mod_long];
    (erewrite xbind_ret by (by apply va_long_ok)) || (erewrite xbind_ret by (by apply va_int_ok)); unfold xret, ret; rewrite ?wrapU_wrapS by lia; done.
Qed.

Lemma int_of_bound m (a : va) z : int_of m true a = Some z -> - 2 ^ 63 <= z < 2 ^ 63.
Proof.
  assert (forall w y, 0 < w <= 64 -> - 2 ^ 63 <= wrapS w y < 2 ^ 63) as H.
  { intros w y Hw. pose proof (wrapS_bound w y ltac:(lia)). assert (2 ^ (w - 1) <= 2 ^ 63) by (apply Z.pow_le_mono_r; lia). lia. }
  destruct m, a as [y|y| | | | | |]; try done; intros [= <-]; apply H; lia.
Qed.

Lemma strlen_bound mem n : strlen mem = Some n -> 0 <= n < zlen mem.
Proof.
  revert n. induction mem as [|b mem IH]; intros n H; [done|]. cbn [strlen] in H. cbn [length].
  destruct (b =? 0); [injection H as <-; lia|]. destruct (strlen mem) as [m|]; [|done]. injection H as <-. specialize (IH m eq_refl). lia.
Qed.

Lemma strlen_app x y : Forall (fun b => b <> 0) x -> strlen (x ++ 0 :: y) = Some (zlen x).
Proof.
  induction 1 as [|b x Hb _ IH]; [done|]. cbn [app strlen]. rewrite (proj2 (Z.eqb_neq b 0)) by done. rewrite IH. cbn. f_equal. lia.
Qed.

Lemma memchr0_bound mem k r : memchr0 mem k = Some r ->
  match r with Some n => 0 <= n < zlen mem | None => (k <= length mem)%nat end.
Proof.
  revert mem r. induction k as [|k IH]; intros mem r H; [by destruct mem; cbn in H; simplify_eq; cbn; lia|].
  destruct mem as [|b mem]; [done|]. cbn in H. cbn [length]. destruct (b =? 0); [simplify_eq; cbn; lia|].
  destruct (memchr0 mem k) as [r'|] eqn:E; [|done]. cbn in H. simplify_eq. specialize (IH _ _ E). destruct r'; cbn; lia.
Qed.

(** The size that is computed for %s. *)
Lemma string_size_ok c mem bs p s :
  (forall ds, p = Some ds -> Forall digit ds) -> prec c = match p with Some ds => dec_value ds | None => -1 end -> string_text p mem = Some bs ->
  (if 0 <=? prec c then
     xbind (xlift (of_option (memchr0 mem (Z.to_nat (prec c))))) (fun r => xret (match r with Some n => n | None => prec c end))
   else xbind (xlift (of_option (strlen mem))) (fun len => if INT_MAX <? len then leave Overflow else xret len) : X Z) s =
    Ret (inl (zlen bs), s) /\ bs = take (length bs) mem.
Proof.
  intros Hp Hc Hs. unfold string_text in Hs. rewrite Hc. destruct p as [ds|]; cbn in Hs.
  - pose proof (dec_value_nonneg ds (Hp ds eq_refl)). rewrite (proj2 (Z.leb_le 0 (dec_value ds))) by done.
    destruct (memchr0 mem _) as [r|] eqn:E; [|done]. cbn in Hs. injection Hs as <-. pose proof (memchr0_bound _ _ _ E) as Hb.
    erewrite xbind_ret by reflexivity. rewrite length_take. destruct r as [n|].
    + rewrite Nat.min_l by lia. split; [|done]. unfold xret, ret. do 3 f_equal. lia.
    + rewrite Nat.min_l by lia. split; [|done]. unfold xret, ret. do 3 f_equal. lia.
  - cbn [Z.leb Z.compare]. destruct (strlen mem) as [n|] eqn:E; [|done]. pose proof (strlen_bound _ _ E) as Hb. cbn in Hs.
    destruct (Z.leb_spec n INT_MAX); [|done]. injection Hs as <-. erewrite xbind_ret by reflexivity. cbv beta. rewrite length_take, Nat.min_l by lia.
    rewrite (proj2 (Z.ltb_ge INT_MAX n)) by done. split; [|done]. unfold xret, ret. do 3 f_equal. lia.
Qed.

Section format.
Context (fmt0 : list Z) (args0 : list va).
Abbreviation at_ := (at_ fmt0).
Abbreviation rflag := (rflag fmt0 args0).

Ltac switch_char := cbn [Printf.reswitch]; cbn [Z.eqb Pos.eqb orb andb Z.leb Z.compare Pos.compare Pos.compare_cont];
  unfold convert; cbn [Z.eqb Pos.eqb orb andb Z.leb Z.compare Pos.compare Pos.compare_cont].

(** The last character of a conversion. *)
Lemma conv_ok d a r s l la fuel :
  dir_ok d -> render d a = Some r -> at_ s (conv_text (d_conv d) :: l) -> argtable s = None -> ap s = a ++ la ->
  exists c f s', rflag (S fuel) (conv_of d) s = Ret (inl (Some (c, f)), s') /\ moved s s' 1 la /\ field_is c f r.
Proof.
  intros Hd Hr Hat Ht Ha. erewrite rflag_char by exact Hat. set (s1 := set_fmt (S (fmt s)) s).
  assert (forall c f s', moved s1 s' 0 la -> field_is c f r -> 
    exists c0 f0 s0, Ret (inl (Some (c, f)) : option (conv * field) + exit_t, s') = Ret (inl (Some (c0, f0)), s0) /\ moved s s0 1 la /\ field_is c0 f0 r) as Hfin.
  { intros c f s' [M1 M2 M3 M4 M5 M6 M7] Hf. exists c, f, s'. split; [done|]. split; [|done]. split; try done. rewrite M1. cbn. lia. }
  assert (forall b, moved s1 (popped s1 b) 0 b) as Hpop by (intros b; split; try done; cbn; lia).
  assert (forall u b sg ox, r = number_text d b ((if sg =? 0 then [] else [sg]) ++ (if ox =? 0 then [] else [48; ox])) u ->
    exists c0 f0 s0, number u b (with_ox1 ox (with_sign sg (conv_of d))) (popped s1 la) = Ret (inl (Some (c0, f0)), s0) /\
      moved s s0 1 la /\ field_is c0 f0 r) as Hnum.
  { intros u b sg ox ->. destruct (number_ok d u b sg ox (popped s1 la) Hd) as (c & f & -> & Hf). apply Hfin; [apply Hpop|done]. }
  unfold render in Hr. destruct (d_conv d) eqn:Ec; cbn [conv_text] in *.
  1-2: destruct a as [|a [|]]; try done; destruct (int_of (d_mod d) true a) as [z|] eqn:Hz; [|done]; cbn in Hr; injection Hr as <-;
    switch_char;
    erewrite xbind_ret by (by apply SARG_ok with a); cbv beta; pose proof (int_of_bound _ _ _ Hz) as Hzb.
  1-2: destruct (Z.ltb_spec z 0) as [Hneg|Hpos];
    [replace (u64 (- z)) with (Z.abs z) by (rewrite wrapU_small; lia); apply (Hnum (Z.abs z) DEC 45 0); unfold sign_text; rewrite (proj2 (Z.ltb_lt z 0)) by done; done
    |replace (u64 z) with (Z.abs z) by (rewrite wrapU_small; lia); apply (Hnum (Z.abs z) DEC (sign_after (d_flags d) 0) 0);
     unfold sign_text, sign_after, flag; rewrite (proj2 (Z.ltb_ge z 0)) by done; fold (dec_in 43 (d_flags d)) (dec_in 32 (d_flags d));
     by destruct (dec_in 43 (d_flags d)), (dec_in 32 (d_flags d))].
  1-4: destruct a as [|a [|]]; try done; destruct (int_of (d_mod d) false a) as [z|] eqn:Hz; [|done]; cbn in Hr; injection Hr as <-;
    switch_char;
    erewrite xbind_ret by (by apply UARG_ok with a); cbv beta.
  - by apply (Hnum z DEC 0 0).
  - by apply (Hnum z OCT 0 0).
  - rewrite (ff_alt _ _ _ (conv_flags d)). destruct (flag d 35 && negb (z =? 0)) eqn:E.
    + apply (Hnum z (HEX false) 0 120). unfold hex_prefix. by rewrite E.
    + apply (Hnum z (HEX false) 0 0). unfold hex_prefix. by rewrite E.
  - rewrite (ff_alt _ _ _ (conv_flags d)). destruct (flag d 35 && negb (z =? 0)) eqn:E.
    + apply (Hnum z (HEX true) 0 88). unfold hex_prefix. by rewrite E.
    + apply (Hnum z (HEX true) 0 0). unfold hex_prefix. by rewrite E.
  - destruct a as [|[z| | | | | | |] [|]]; try done. injection Hr as <-. switch_char. erewrite xbind_ret by (by apply va_int_ok with (z := z)). cbv beta.
    rewrite wrapU_wrapS by lia. apply Hfin; [apply Hpop|by apply bytes_ok].
  - destruct a as [|[| | |x| | | |] [|]]; try done. switch_char.
    unfold string_field. erewrite xbind_ret by (by apply va_str_ok with (x := x)). cbv beta zeta.
    set (mem := match x with Some m => m | None => _ end) in *.
    destruct (string_text (d_prec d) mem) as [bs|] eqn:Es; [|done]. cbn in Hr. injection Hr as <-.
    destruct (string_size_ok (conv_of d) mem bs (d_prec d) (popped s1 la)) as [En Hbs]; [intros; by eapply do_prec|done|done|].
    erewrite xbind_ret by exact En. cbv beta. rewrite Nat2Z.id, <- Hbs. apply Hfin; [apply Hpop|by apply bytes_ok].
  - destruct a as [|[| | | | |z| |] [|]]; try done. injection Hr as <-. switch_char. erewrite xbind_ret by (by apply va_ptr_ok with (x := z)). cbv beta.
    by apply (Hnum (u64 z) (HEX false) 0 120).
  - destruct a as [|]; [|done]. injection Hr as <-. switch_char. apply Hfin; [|by apply bytes_ok].
    split; try done.
Qed.

Lemma mod_head m k l : exists ch l', mod_text m ++ conv_text k :: l = ch :: l' /\ follows ch /\ ch <> 42.
Proof. destruct m, k; cbn; do 2 eexists; (split; [reflexivity|]); unfold follows, digit; lia. Qed.

Lemma prec_head p m k l : exists ch l', prec_text p ++ mod_text m ++ conv_text k :: l = ch :: l' /\ follows ch.
Proof.
  destruct p as [ds|]; cbn [prec_text app].
  - do 2 eexists. split; [reflexivity|]. unfold follows, digit. lia.
  - destruct (mod_head m k l) as (ch & l' & E & Hf & _). by exists ch, l'.
Qed.

Lemma moved_trans s1 s2 s3 n m (la lb : list va) : moved s1 s2 n la -> moved s2 s3 m lb -> moved s1 s3 (n + m) lb.
Proof. intros [A1 A2 A3 A4 A5 A6 A7] [B1 B2 B3 B4 B5 B6 B7]. split; try congruence. rewrite B1, A1. lia. Qed.

Lemma moved_fmt s n la : argtable s = None -> ap s = la -> moved s (set_fmt (fmt s + n) s) n la.
Proof. intros Ht Ha. by split. Qed.

(** A whole conversion specification behind the percent sign. *)
Lemma spec_ok d a r s f la fuel :
  dir_ok d -> render d a = Some r -> at_ s (drop 1 (dir_text d) ++ f) -> argtable s = None -> ap s = a ++ la ->
  (length (d_flags d) + 4 <= fuel)%nat ->
  exists c fl s', rflag fuel (Conv 0 0 (-1) 0 0) s = Ret (inl (Some (c, fl)), s') /\
    moved s s' (length (dir_text d) - 1) la /\ field_is c fl r.
Proof.
  intros Hd Hr Hat Ht Ha Hf.
  assert (drop 1 (dir_text d) ++ f = d_flags d ++ d_width d ++ prec_text (d_prec d) ++ mod_text (d_mod d) ++ conv_text (d_conv d) :: f) as Htx.
  { change (drop 1 (dir_text d)) with (d_flags d ++ d_width d ++ prec_text (d_prec d) ++ mod_text (d_mod d) ++ [conv_text (d_conv d)]).
    by rewrite <- !app_assoc. }
  rewrite Htx in Hat. clear Htx.
  replace fuel with (length (d_flags d) + S (S (S (S (fuel - length (d_flags d) - 4)))))%nat by lia.
  rewrite (flags_ok fmt0 args0 (d_flags d) _ s _ _ (do_flags d Hd) Hat).
  apply (at_skip fmt0 s (length (d_flags d))) in Hat. rewrite drop_app_length in Hat.
  pose proof (flags_mk (d_flags d) false false false 0 (do_flags d Hd) ltac:(by left)) as Hmk. cbn [orb] in Hmk.
  change (Conv 0 0 (-1) 0 0) with (mk false false false 0). rewrite Hmk. set (s1 := set_fmt _ s) in *.
  destruct (do_width d Hd) as (Hw1 & Hw2 & Hw3). destruct (prec_head (d_prec d) (d_mod d) (d_conv d) f) as (ch & l' & El & Hfo).
  rewrite El in Hat. rewrite (width_ok fmt0 args0 (d_width d) _ s1 ch l') by done. rewrite <- El in Hat.
  apply (at_skip fmt0 s1 (length (d_width d))) in Hat. rewrite drop_app_length in Hat. set (s2 := set_fmt _ s1) in *.
  set (k2 := if decide (d_width d = []) then _ else _). assert (exists k, k2 = S (S (S k))) as [k3 ->] by (unfold k2; case_decide; by eexists).
  destruct (mod_head (d_mod d) (d_conv d) f) as (ch2 & l2 & El2 & Hfo2 & H42). rewrite El2 in Hat.
  rewrite (prec_ok fmt0 args0 (d_prec d) _ s2 ch2 l2) by (done || apply Hd). rewrite <- El2 in Hat.
  apply (at_skip fmt0 s2 (length (prec_text (d_prec d)))) in Hat. rewrite drop_app_length in Hat. set (s3 := set_fmt _ s2) in *.
  set (k4 := if d_prec d then _ else _). assert (exists k, k4 = S (S k)) as [k5 ->] by (unfold k4; destruct (d_prec d); by eexists).
  rewrite (mod_ok fmt0 args0 (d_mod d) _ s3 (conv_text (d_conv d)) f) by (done || by destruct (d_conv d)).
  apply (at_skip fmt0 s3 (length (mod_text (d_mod d)))) in Hat. rewrite drop_app_length in Hat. set (s4 := set_fmt _ s3) in *.
  set (k6 := match d_mod d with NoMod => _ | _ => _ end). assert (exists k, k6 = S k) as [k7 ->] by (unfold k6; destruct (d_mod d); by eexists).
  destruct (conv_ok d a r s4 f la k7) as (c & fl & s5 & E & Hmv & Hfi); [done..|]. exists c, fl, s5. split; [exact E|]. split; [|done].
  destruct Hmv as [M1 M2 M3 M4 M5 M6 M7]. split; try done. rewrite M1. cbn. rewrite !length_app. cbn. lia.
Qed.

(** ** Text *)

(** What can follow text. *)
Definition special_head (l : list Z) : Prop := match l with [] => True | c :: _ => c = 37 \/ c = 96 end.
Definition chars_left (l : list Z) : Z := match l with [] => 0 | _ => 1 end.

Lemma drop_end i : (i <= length fmt0)%nat -> drop i (fmt0 ++ [0]) = drop i fmt0 ++ [0].
Proof. intros H. by rewrite drop_app_le. Qed.

Lemma scan_text_ok x tail : forall i fuel,
  plain x -> special_head tail -> drop i fmt0 = x ++ tail -> (i <= length fmt0)%nat -> (length x < fuel)%nat ->
  scan_text mbrtowc fuel fmt0 (fun wc => (wc =? 37) || (wc =? 96)) i mb0 = Some ((i + length x)%nat, chars_left tail, mb0).
Proof.
  induction x as [|b x IH]; intros i fuel Hx Ht Hd Hi Hf; (destruct fuel as [|fuel]; [cbn in Hf; lia|]); cbn [scan_text];
    rewrite drop_end, Hd by done.
  - cbn [app length]. rewrite Nat.add_0_r. destruct tail as [|c tail]; cbn [app].
    + by rewrite mb_end.
    + cbn in Ht. rewrite mb_char by lia. cbn [Z.leb Z.compare]. assert ((c =? 37) || (c =? 96) = true) as -> by (by destruct Ht as [-> | ->]).
      cbn [chars_left]. do 3 f_equal. lia.
  - apply Forall_cons in Hx as [(Hb & Hb1 & Hb2) Hx]. cbn [app]. rewrite mb_char by done. cbn [Z.leb Z.compare].
    rewrite (proj2 (Z.eqb_neq b 37)), (proj2 (Z.eqb_neq b 96)) by done. cbn [orb length] in *.
    replace (i + Z.to_nat 1)%nat with (S i) by lia. rewrite IH; [do 3 f_equal; lia|done|done| | |lia].
    + replace (S i) with (i + 1)%nat by lia. by rewrite <- drop_drop, Hd.
    + assert (length (drop i fmt0) = length ((b :: x) ++ tail)) as Hl by (by rewrite Hd). rewrite length_drop in Hl. cbn in Hl. lia.
Qed.

Lemma at_length s l : at_ s l -> (fmt s <= length fmt0)%nat -> (fmt s + length l = length fmt0)%nat.
Proof. intros <- H. rewrite length_drop. lia. Qed.

(** A state of the loop in front of the format [f]. *)
Record ready s (f : list Z) (la : list va) (l : list Z) : Prop := {
  re_at : at_ s f;
  re_fmt : (fmt s <= length fmt0)%nat;
  re_ap : ap s = la;
  re_table : argtable s = None;
  re_ps : ps s = mb0;
  re_out : R (parg s) l;
  re_ret : 0 <= retval s;
}.

(** From [s] to [s'] the text [o] was printed and counted. *)
Record printed s s' (o : list Z) : Prop := {
  pd_ret : retval s' = retval s + zlen o;
  pd_outs : outs s' = outs s;
}.

Lemma text_ok s x tail la l :
  ready s (x ++ tail) la l -> plain x -> special_head tail -> retval s + zlen x <= INT_MAX -> zlen (l ++ x) <= N ->
  exists s', text mbrtowc funcs fmt0 s = Ret (inl (chars_left tail), s') /\ ready s' tail la (l ++ x) /\ printed s s' x.
Proof.
  intros [H1 H2 H3 H4 H5 H6 H7] Hx Ht Hr Hn. unfold text. erewrite xbind_ret by reflexivity. cbv beta. erewrite xbind_ret by reflexivity. cbv beta.
  pose proof (at_length _ _ H1 H2) as Hlen. rewrite length_app in Hlen.
  rewrite H5, (scan_text_ok x tail) by (done || lia). erewrite xbind_ret by reflexivity. cbv beta iota.
  erewrite xbind_ret by reflexivity. cbv beta. erewrite xbind_ret by reflexivity. cbv beta.
  set (s1 := set_ps mb0 (set_fmt (fmt s + length x) s)).
  assert (at_ s1 tail) as Hat1 by (apply (at_skip fmt0 s (length x)) in H1; by rewrite drop_app_length in H1).
  destruct x as [|b x].
  { cbn [length] in *. rewrite Nat.add_0_r in *. rewrite Nat.eqb_refl. erewrite xbind_ret by reflexivity. eexists. split; [reflexivity|].
    split; [|split; [cbn; lia|done]]. rewrite app_nil_r. split; try done; cbn; lia. }
  rewrite (proj2 (Nat.eqb_neq _ _)) by (cbn; lia). rewrite xbind_assoc. erewrite xbind_ret by reflexivity. cbv beta zeta. change (retval s1) with (retval s).
  replace (Z.of_nat (fmt s + length (b :: x)) - Z.of_nat (fmt s)) with (zlen (b :: x)) by lia.
  rewrite (proj2 (Z.ltb_ge (zlen (b :: x)) 0)), (proj2 (Z.ltb_ge (INT_MAX - retval s) (zlen (b :: x)))) by lia. cbn [orb].
  replace (fmt s + length (b :: x) - fmt s)%nat with (length (b :: x)) by lia. assert (drop (fmt s) fmt0 = (b :: x) ++ tail) as -> by exact H1. rewrite take_app_length.
  rewrite xbind_assoc. destruct (puts_print (b :: x) s1 l H6 Hn) as (p & E & Hp). rewrite (xbind_ret _ _ _ _ _ E).
  erewrite xbind_ret by reflexivity. eexists. split; [reflexivity|]. split; [|by split]. split; try done; cbn in *; lia.
Qed.

(** A conversion from the percent sign on. *)
Lemma dir_step_ok d a r s f la l :
  dir_ok d -> render d a = Some r -> ready s (dir_text d ++ f) (a ++ la) l -> retval s + zlen r <= INT_MAX -> zlen (l ++ r) <= N ->
  exists s', (xbind (skip 1) (fun _ => xbind (next_ch fmt0) (fun ch =>
      xbind (reswitch mbrtowc mb0 dtoa pagesize mmap_ok (4 + length fmt0) fmt0 args0 ch (Conv 0 0 (-1) 0 0)) (fun r =>
      match r with Some (c, f) => emit funcs c f | None => xret tt end)))) s = Ret (inl tt, s') /\
    ready s' f la (l ++ r) /\ printed s s' r.
Proof.
  intros Hd Hr [H1 H2 H3 H4 H5 H6 H7] Hb Hn. erewrite xbind_ret by reflexivity. cbv beta. set (s1 := set_fmt (fmt s + 1) s).
  pose proof (at_length _ _ H1 H2) as Hlen. rewrite length_app in Hlen.
  assert (length (d_flags d) + 4 <= 4 + length fmt0)%nat as Hfu by (unfold dir_text in Hlen; cbn in Hlen; rewrite !length_app in Hlen; lia).
  apply (at_skip fmt0 s 1) in H1. rewrite drop_app_le in H1 by (cbn; lia).
  destruct (spec_ok d a r s1 f la (4 + length fmt0) Hd Hr H1 H4 H3 Hfu) as (c & fl & s2 & E & [M1 M2 M3 M4 M5 M6 M7] & F1 & F2 & F3).
  rewrite rflag_eq in E. rewrite <- xbind_assoc,  (xbind_ret _ _ _ _ _ E).
  destruct (emit_field_ok c fl s2 l F1) as (p & -> & Hp); [by rewrite M4|by rewrite F2|rewrite M7, F3; exact Hb|]. rewrite F2 in Hp. rewrite F3.
  eexists. split; [reflexivity|]. split; [|split; [cbn; by rewrite M7|done]].
  apply (at_skip fmt0 s1 (length (dir_text d) - 1)) in H1. rewrite drop_app_length' in H1 by (rewrite length_drop; done).
  split; try done.
  - eapply at_same; [|exact H1]. done.
  - cbn. rewrite M1. cbn in *. lia.
  - cbn. by rewrite M6.
  - cbn. rewrite M7. cbn. lia.
Qed.

Lemma add_ret_ok n s : 0 <= retval s -> 0 <= n -> retval s + n <= INT_MAX ->
  add_ret n s = Ret (inl tt, set_ret (retval s + n) s).
Proof.
  intros H1 H2 H3. unfold add_ret. assert (s32 (retval s + n) = retval s + n) as E by (apply wrapS_small; unfold INT_MAX in *; cbn; lia).
  cbn. by rewrite E.
Qed.

Lemma rest_ok s l : at_ s l -> rest_of fmt0 s = Ret (inl l, s).
Proof. intros <-. reflexivity. Qed.

(** The string extension. *)
Lemma special_string_ok nested bs s f la l :
  ready s (ps_text ++ f) (VaString (Some bs) :: la) l -> retval s + zlen bs <= INT_MAX -> zlen (l ++ bs) <= N ->
  exists s', special strerror formatters funcs nested fmt0 s = Ret (inl tt, s') /\ ready s' f la (l ++ bs) /\ printed s s' bs.
Proof.
  intros [H1 H2 H3 H4 H5 H6 H7] Hb Hn. unfold special. pose proof (at_length _ _ H1 H2) as Hlen. cbn in Hlen.
  erewrite xbind_ret by (by eapply fmt_at_ok). cbv beta. cbn [Z.eqb Pos.eqb negb].
  erewrite xbind_ret by (by eapply fmt_at_ok). cbv beta. erewrite xbind_ret by (by apply rest_ok). cbv beta zeta.
  cbn [ps_text app drop prefixb Z.eqb Pos.eqb andb]. erewrite xbind_ret by (by apply va_string_ok with (x := Some bs)). cbv beta iota.
  erewrite xbind_ret by reflexivity. cbv beta. set (s1 := set_fmt _ _).
  destruct (puts_print bs s1 l H6 Hn) as (p & E & Hp). rewrite (xbind_ret _ _ _ _ _ E).
  rewrite add_ret_ok by (done || lia). eexists. split; [reflexivity|]. split; [|by split].
  apply (at_skip fmt0 s 5) in H1. split; try done; cbn; lia.
Qed.

(** A nested format; the nested call prints [o]. *)
Lemma special_nested_ok nested f' junk (l' : list va) o s f la l :
  ready s (pv_text ++ f) (VaStr (Some (f' ++ 0 :: junk)) :: VaArgs l' :: la) l -> retval s + zlen o <= INT_MAX ->
  Forall (fun b => b <> 0) f' ->
  (forall s1, R (parg s1) l -> exists p, nested f' l' s1 = Ret (inl (zlen o), set_parg p s1) /\ R p (l ++ o)) ->
  exists s', special strerror formatters funcs nested fmt0 s = Ret (inl tt, s') /\ ready s' f la (l ++ o) /\ printed s s' o.
Proof.
  intros [H1 H2 H3 H4 H5 H6 H7] Hb Hz Hn. unfold special. pose proof (at_length _ _ H1 H2) as Hlen. cbn in Hlen.
  erewrite xbind_ret by (by eapply fmt_at_ok). cbv beta. cbn [Z.eqb Pos.eqb negb].
  erewrite xbind_ret by (by eapply fmt_at_ok). cbv beta. erewrite xbind_ret by (by apply rest_ok). cbv beta zeta.
  cbn [pv_text app drop prefixb Z.eqb Pos.eqb andb].
  erewrite xbind_ret by (by apply va_str_ok with (x := Some (f' ++ 0 :: junk))). cbv beta.
  erewrite xbind_ret by (by apply va_args_ok with (x := l')). cbv beta. erewrite xbind_ret by reflexivity. cbv beta.
  rewrite strlen_app by done. erewrite xbind_ret by reflexivity. cbv beta. rewrite Nat2Z.id, take_app_length.
  set (s1 := popped _ _). destruct (Hn s1 H6) as (p & E & Hp). rewrite (xbind_ret _ _ _ _ _ E). cbv beta.
  rewrite (proj2 (Z.eqb_neq (zlen o) (-1))) by lia. erewrite xbind_ret by (apply add_ret_ok; done || lia).
  eexists. split; [reflexivity|]. split; [|by split].
  apply (at_skip fmt0 s 7) in H1. split; try done; cbn; lia.
Qed.

End format.

Lemma dir_nonzero d : dir_ok d -> Forall (fun b => b <> 0) (dir_text d).
Proof.
  intros [H1 (H2 & _) H3]. unfold dir_text. constructor; [done|]. rewrite !Forall_app. split_and!.
  - eapply Forall_impl; [exact H1|]. cbn. intros x Hx ->. set_solver.
  - eapply Forall_impl; [exact H2|]. unfold digit. intros x Hx ->. lia.
  - destruct (d_prec d) as [ds|]; cbn; [|done]. constructor; [done|]. eapply Forall_impl; [by apply H3|].
    unfold digit. intros x Hx ->. lia.
  - destruct (d_mod d); by repeat constructor.
  - constructor; [by destruct (d_conv d)|done].
Qed.

Lemma plain_nonzero x : plain x -> Forall (fun b => b <> 0) x.
Proof. intros H. eapply Forall_impl; [exact H|]. cbn. lia. Qed.

Lemma formats_nonzero k f (la : list va) o : formats e k f la o -> Forall (fun b => b <> 0) f.
Proof.
  induction 1; rewrite ?Forall_app; split_and?; try done; try (by apply plain_nonzero); try (by apply dir_nonzero);
    by repeat constructor.
Qed.

(** The loop. *)
Abbreviation loop := (core_loop mbrtowc mb0 dtoa strerror formatters pagesize mmap_ok funcs).

Lemma loop_step fuel fmt0 args0 s x tail la l :
  ready fmt0 s (x ++ tail) la l -> plain x -> special_head tail -> tail <> [] -> retval s + zlen x <= INT_MAX -> zlen (l ++ x) <= N ->
  exists s1, ready fmt0 s1 tail la (l ++ x) /\ printed s s1 x /\
    loop (S fuel) fmt0 args0 s = xbind (if default 0 (tail !! 0%nat) =? 96 then
           special strerror formatters funcs (fun rfmt (l : list va) s =>
             match finish funcs (loop fuel rfmt l) (start mb0 (parg s) (outs s) l) with
             | Ret (r, s') => Ret (inl r, set_outs (outs s') (set_parg (parg s') s))
             | Panic => Panic
             | Fault => Fault
             end) fmt0
         else
           xbind (skip 1) (fun _ => xbind (next_ch fmt0) (fun ch =>
             xbind (reswitch mbrtowc mb0 dtoa pagesize mmap_ok (4 + length fmt0) fmt0 args0 ch (Conv 0 0 (-1) 0 0)) (fun r =>
             match r with Some (c, f) => emit funcs c f | None => xret tt end))))
        (fun _ => loop fuel fmt0 args0) s1.
Proof.
  intros H Hx Ht Hne Hr Hn. destruct (text_ok fmt0 s x tail la l H Hx Ht Hr Hn) as (s1 & E & Hre & Hpr). exists s1. split; [done|]. split; [done|].
  cbn [core_loop]. rewrite (xbind_ret _ _ _ _ _ E). destruct tail as [|c tail]; [done|]. cbn [chars_left Z.leb Z.compare].
  erewrite xbind_ret by (eapply (fmt_at_ok fmt0); [apply Hre|reflexivity]). reflexivity.
Qed.

Lemma printed_trans s1 s2 s3 a b : printed s1 s2 a -> printed s2 s3 b -> printed s1 s3 (a ++ b).
Proof. intros [A1 A2] [B1 B2]. split; [rewrite B1, A1, length_app; lia|congruence]. Qed.

Lemma finish_ok c s s' l o : c s = Ret (inr Done, s') -> (o = [] -> e = true) -> R (parg s') (l ++ o) ->
  exists p, finish (D := D) (MB := MB) funcs c s = Ret (retval s', set_parg p s') /\ F p (l ++ o).
Proof.
  intros E He H. unfold finish, bind. rewrite E. cbn [get]. destruct (flush funcs) as [f|] eqn:Ef.
  - destruct (pr_flush f _ _ Ef ltac:(by intros [_ Ho]%app_nil; apply He) H) as (p & Ep & Hp). exists p. unfold on_arg, ret. by rewrite Ep.
  - exists (parg s'). rewrite set_parg_id. split; [done|]. by apply pr_done.
Qed.

(** The nested call: it prints [o] and returns its length. *)
Definition nested_of fuel (rfmt : list Z) (l : list va) : X Z := fun s =>
  match finish funcs (loop fuel rfmt l) (start mb0 (parg s) (outs s) l) with
  | Ret (r, s') => Ret (inl r, set_outs (outs s') (set_parg (parg s') s))
  | Panic => Panic
  | Fault => Fault
  end.

(** What a run of the loop over [f] does. *)
Definition run_ok k f (la : list va) o : Prop := forall fmt0 args0 fuel s l,
  (k <= fuel)%nat -> ready fmt0 s f la l -> retval s + zlen o <= INT_MAX -> zlen (l ++ o) <= N ->
  exists s', loop fuel fmt0 args0 s = Ret (inr Done, s') /\ printed s s' o /\ R (parg s') (l ++ o).

Lemma start_ready p ou f (la : list va) l : R p l -> ready f (start mb0 p ou la) f la l.
Proof. intros H. split; try done. cbn. lia. Qed.

Lemma nested_run k f (la : list va) o fuel s l :
  run_ok k f la o -> (k <= fuel)%nat -> zlen o <= INT_MAX -> zlen (l ++ o) <= N -> (o = [] -> e = true) -> R (parg s) l ->
  exists p, nested_of fuel f la s = Ret (inl (zlen o), set_parg p s) /\ R p (l ++ o).
Proof.
  intros H Hk Ho Hn He Hl. destruct (H f la fuel _ l Hk (start_ready (parg s) (outs s) f la l Hl)) as (s' & E & [P1 P2] & Hp); [cbn; lia|done|].
  destruct (finish_ok _ _ _ _ _ E He Hp) as (p & Ef & Hp'). exists p. unfold nested_of. rewrite Ef. cbn [parg outs set_parg].
  rewrite P1, P2. cbn [start retval outs]. split; [by destruct s|by apply pr_again].
Qed.

(** One round of the loop that prints [x] and then [r]. *)
Lemma round_ok k f la o x r tail la0 fmt0 args0 fuel s l :
  run_ok k f la o -> (S k <= fuel)%nat -> ready fmt0 s (x ++ tail) la0 l -> plain x -> special_head tail -> tail <> [] ->
  retval s + zlen (x ++ r ++ o) <= INT_MAX -> zlen (l ++ x ++ r ++ o) <= N ->
  (forall s1, ready fmt0 s1 tail la0 (l ++ x) -> retval s1 + zlen r <= INT_MAX -> zlen ((l ++ x) ++ r) <= N -> exists s2,
    (if default 0 (tail !! 0%nat) =? 96 then special strerror formatters funcs (nested_of (pred fuel)) fmt0
     else xbind (skip 1) (fun _ => xbind (next_ch fmt0) (fun ch =>
             xbind (reswitch mbrtowc mb0 dtoa pagesize mmap_ok (4 + length fmt0) fmt0 args0 ch (Conv 0 0 (-1) 0 0)) (fun r =>
             match r with Some (c, f) => emit funcs c f | None => xret tt end)))) s1 = Ret (inl tt, s2) /\
    ready fmt0 s2 f la ((l ++ x) ++ r) /\ printed s1 s2 r) ->
  exists s', loop fuel fmt0 args0 s = Ret (inr Done, s') /\ printed s s' (x ++ r ++ o) /\ R (parg s') (l ++ x ++ r ++ o).
Proof.
  intros IH Hf Hre Hx Ht Hne Hb Hn Hstep. destruct fuel as [|fuel]; [lia|]. rewrite !length_app in Hb. rewrite !length_app in Hn.
  destruct (loop_step fuel fmt0 args0 s x tail la0 l Hre Hx Ht Hne ltac:(lia) ltac:(rewrite length_app; lia)) as (s1 & Hre1 & Hp1 & ->).
  destruct (Hstep s1 Hre1) as (s2 & E & Hre2 & Hp2); [rewrite (pd_ret _ _ _ Hp1); lia|rewrite !length_app; lia|]. cbn [pred] in E.
  rewrite (xbind_ret _ _ _ _ _ E). destruct (IH fmt0 args0 fuel s2 _ ltac:(lia) Hre2) as (s3 & E3 & Hp3 & HR3).
  { rewrite (pd_ret _ _ _ Hp2), (pd_ret _ _ _ Hp1). lia. }
  { rewrite !length_app. lia. }
  exists s3. split; [exact E3|]. split; [exact (printed_trans _ _ _ _ _ Hp1 (printed_trans _ _ _ _ _ Hp2 Hp3))|].
  by rewrite <- !app_assoc in HR3.
Qed.

Lemma loop_ok k f (la : list va) o : formats e k f la o -> run_ok k f la o.
Proof.
  induction 1 as [x Hx|k x d a r f la o Hx Hd Hr _ IH|k x bs f la o Hx _ IH|k k' x f' junk l' o' f la o Hx Hf' IH' He' _ IH];
    intros fmt0 args0 fuel s l Hk Hre Hb Hn.
  - destruct fuel as [|fuel]; [lia|]. rewrite <- (app_nil_r x) in Hre. cbn [core_loop].
    destruct (text_ok fmt0 s x [] [] l Hre Hx I Hb Hn) as (s1 & E & Hre1 & Hp1). rewrite (xbind_ret _ _ _ _ _ E).
    exists s1. split; [done|]. split; [done|]. apply Hre1.
  - eapply round_ok; try done; [by left|]. intros s1 Hre1 Hb1 Hn1. by eapply dir_step_ok.
  - eapply round_ok; try done; [by right|]. intros s1 Hre1 Hb1 Hn1. by eapply special_string_ok.
  - eapply (round_ok k); try done; [lia|by right|]. intros s1 Hre1 Hb1 Hn1. eapply special_nested_ok; try done.
    + by eapply formats_nonzero.
    + intros s2 Hs2. apply (nested_run k'); try done; [lia|]. pose proof (re_ret _ _ _ _ _ Hre1). lia.
Qed.

Lemma printf_ok k f (la : list va) o fuel p ou l :
  formats e k f la o -> zlen o <= INT_MAX -> zlen (l ++ o) <= N -> (o = [] -> e = true) -> (k <= fuel)%nat -> R p l ->
  exists p', ph_vprintf_core mbrtowc mb0 dtoa strerror formatters pagesize mmap_ok funcs fuel f la p ou = Ret (zlen o, (p', ou)) /\
    F p' (l ++ o).
Proof.
  intros Hf Ho Hn He Hk Hp. destruct (loop_ok k f la o Hf f la fuel _ l Hk (start_ready p ou f la l Hp)) as (s' & E & [P1 P2] & HR'); [cbn; lia|done|].
  destruct (finish_ok _ _ _ _ _ E He HR') as (p' & Ef & Hp'). exists p'. unfold ph_vprintf_core. rewrite Ef, P1. cbn. rewrite P2. done.
Qed.


End proofs.

(** ** Examples: a print function that collects the text, the ASCII characters,
    and no floating point numbers *)

Definition collect : ph_vprintf_funcs (P := list Z) := Funcs (fun bs p => Ret (true, p ++ bs)) None.

#[export] Instance collect_printer : printer collect eq eq INT_MAX true.
Proof. split; [|done..]. intros bs p l <- _ _. by eexists. Qed.

Definition ascii_mbrtowc (s : list Z) (m : unit) : Z * Z * unit :=
  match s with
  | [] => (-2, 0, m)
  | b :: _ => if b =? 0 then (0, 0, m) else if b <? 128 then (1, b, m) else (-1, 0, m)
  end.

#[export] Instance ascii_mbrtowc_locale : ascii_locale ascii_mbrtowc tt.
Proof.
  split; [|done]. intros b l H. unfold ascii_mbrtowc. rewrite (proj2 (Z.eqb_neq b 0)), (proj2 (Z.ltb_lt b 128)) by lia. done.
Qed.

Definition demo_printf (f : list Z) (la : list (va_t unit)) : outcome (Z * (list Z * gmap positive Z)) :=
  ph_vprintf_core ascii_mbrtowc tt (fun _ _ _ => None) (fun _ => []) (fun _ => None) 4096 true collect 20 f la [] ∅.

(** "n=%05d `Ps%p!": a number, then a string object. *)
Definition demo_format : list Z := [110; 61] ++ dir_text (Dir [48] [53] None NoMod Cd) ++ [32] ++ ps_text ++ [33].
Definition demo_output : list Z := [110; 61] ++ [45; 48; 48; 52; 50] ++ [32] ++ [97; 98] ++ [33].

Lemma demo_formats e : formats (D := unit) e 3 demo_format [VaInt (-42); VaString (Some [97; 98])] demo_output.
Proof.
  apply (fo_dir e 2 [110; 61] (Dir [48] [53] None NoMod Cd) [VaInt (-42)] [45; 48; 48; 52; 50] ([32] ++ ps_text ++ [33])
    [VaString (Some [97; 98])] ([32] ++ [97; 98] ++ [33])).
  - repeat constructor; lia.
  - split; cbn; [repeat constructor|split_and!|done].
    + repeat constructor; unfold digit; lia.
    + done.
    + unfold dec_value, INT_MAX. cbn. lia.
  - reflexivity.
  - apply (fo_string e 1 [32] [97; 98] [33] [] [33]); [repeat constructor; lia|]. apply fo_end. repeat constructor; lia.
Qed.


(** A null string object prints (null) without moving behind the sequence, so
    the next argument is taken for the same sequence: with no other argument the
    access is outside of the argument list. *)
Theorem printf_null_string : demo_printf ps_text [VaString None] = Fault.
Proof. reflexivity. Qed.

(** A doubled backtick prints one character that the result does not count. *)
Theorem printf_backtick_uncounted : demo_printf [96; 96] [] = Ret (0, ([96], ∅)).
Proof. reflexivity. Qed.

(** Positional arguments up to the seventh work; the eighth grows the type
    table, which forgets the types found so far. *)
Theorem printf_eighth_argument :
  demo_printf [37; 49; 36; 115; 37; 55; 36; 100] (VaStr (Some [97; 0]) :: replicate 6 (VaInt 3)) = Ret (2, ([97; 51], ∅)) /\
  demo_printf [37; 49; 36; 115; 37; 56; 36; 100] (VaStr (Some [97; 0]) :: replicate 7 (VaInt 3)) = Fault.
Proof. vm_compute. split; reflexivity. Qed.

(** A name that is not closed loses the backtick and what follows it, and at the
    end of the format the terminator is printed and the scan goes on behind it. *)
Theorem printf_unclosed_name :
  demo_printf [96; 80; 123; 97] [] = Ret (0, ([97], ∅)) /\ demo_printf [96; 80; 123] [] = Fault.
Proof. vm_compute. split; reflexivity. Qed.

End PrintfProofs.
