(* ===== verification/PPrintf.v ===== *)
(** * Printing into a buffer, a descriptor, a string and a stream (pprintf.c)

    The print functions on top of [ph_vprintf_core]: [fixed_buf] of
    [ph_vsnprintf], [fd_buffer] of [ph_vfdprintf], [print_n_grow] of
    [ph_vasprintf] and [ph_vmtsprintf], [str_funcs] of string.c and
    [stm_funcs] of streams/write.c.  A block of memory is a list of bytes and a
    pointer into it an index; an access outside of the block is [Fault]. *)

From Stdlib Require Import ZArith Lia.
From stdpp Require Import base numbers list gmap strings.
From S2P Require Import Prelude SysUtil Counter Memory PhString Stream Printf.

Module PPrintf.
Import Printf Counter Memory PhString.

(** [memcpy] into a block. *)
Definition poke (i : Z) (bs : list Z) (mem : list Z) : outcome (list Z) :=
  if (0 <=? i) && (i + zlen bs <=? zlen mem) then Ret (splice (Z.to_nat i) bs mem) else Fault.

(** ** [ph_vsnprintf] *)

(** [struct fixed_buf], and the block the pointers point into. *)
Record fixed_buf := FixedBuf { fb_start : Z; fb_end : Z; fb_mem : list Z }.

Definition fixed_buf_print (bs : list Z) : M fixed_buf bool := fun b =>
  let avail := u32 (fb_end b - fb_start b) in
  let len := if avail <? zlen bs then avail else zlen bs in
  match poke (fb_start b) (take (Z.to_nat len) bs) (fb_mem b) with
  | Ret mem => Ret (true, FixedBuf (fb_start b + len) (fb_end b) mem)
  | _ => Fault
  end.

Definition fixed_buf_flush : M fixed_buf bool := fun b =>
  match poke (fb_start b) [0] (fb_mem b) with
  | Ret mem => Ret (true, FixedBuf (fb_start b) (fb_end b) mem)
  | _ => Fault
  end.

Definition fixed_buf_funcs : ph_vprintf_funcs := Printf.Funcs fixed_buf_print (Some fixed_buf_flush).

(** ** [ph_vfdprintf] *)

(** [struct fd_buffer]: [next] is an index of [start]; and the descriptor, with
    what the kernel keeps for it. *)
Record fd_buffer (K : Type) := FdBuffer { fd : K; fb_next : Z; fb_bytes : list Z }.
Arguments FdBuffer {K} fd fb_next fb_bytes.
Arguments fd {K} _.
Arguments fb_next {K} _.
Arguments fb_bytes {K} _.

Section fdbuf.
Context {K : Type}.
(** [write]: the number of bytes taken, or -1. *)
Context (write : K -> list Z -> Z * K).
Implicit Types b : fd_buffer K.

Definition FD_BUFSIZE : Z := 1024.

Fixpoint fd_flush_loop (fuel : nat) (cursor : Z) : M (fd_buffer K) bool := fun b =>
  match fuel with
  | O => Fault
  | S fuel =>
      if cursor <? fb_next b then
        let '(res, k) := write (fd b) (slice (Z.to_nat cursor) (Z.to_nat (fb_next b - cursor)) (fb_bytes b)) in
        let b := FdBuffer k (fb_next b) (fb_bytes b) in
        if s32 res <=? 0 then Ret (false, b) else fd_flush_loop fuel (cursor + s32 res) b
      else Ret (true, FdBuffer (fd b) 0 (fb_bytes b))
  end.

Definition fd_buf_flush : M (fd_buffer K) bool := fun b =>
  if fb_next b =? 0 then Ret (true, b) else fd_flush_loop (S (Z.to_nat (fb_next b))) 0 b.

Fixpoint fd_buf_print (fuel : nat) (bs : list Z) : M (fd_buffer K) bool :=
  match fuel with
  | O => fault
  | S fuel =>
      match bs with
      | [] => ret true
      | _ =>
          b <-- get ;;
          let avail := u32 (FD_BUFSIZE - fb_next b) in
          ok <-- (if avail =? 0 then fd_buf_flush else ret true) ;;
          if negb (ok : bool) then ret false
          else
            b <-- get ;;
            let avail := if avail =? 0 then u32 (FD_BUFSIZE - fb_next b) else avail in
            let avail := if zlen bs <? avail then zlen bs else avail in
            match poke (fb_next b) (take (Z.to_nat avail) bs) (fb_bytes b) with
            | Ret mem => put (FdBuffer (fd b) (fb_next b + avail) mem) ;;; fd_buf_print fuel (drop (Z.to_nat avail) bs)
            | _ => fault
            end
      end
  end.

Definition fd_buf_funcs : ph_vprintf_funcs := Printf.Funcs (fun bs => fd_buf_print (S (length bs)) bs) (Some fd_buf_flush).

End fdbuf.

(** ** [ph_vasprintf] and [ph_vmtsprintf] *)

(** [struct print_n_grow]; a pointer of [malloc] is a block and an offset. *)
Record print_n_grow := Grow { g_mt : Z; g_allocd : Z; g_used : Z; g_mem : ptr }.

Section grow.
Context `{HSname : ck_hs string} `{HSid : ck_hs Z}.
Context (junk : positive -> nat -> Z) (self : nat).

(** The heap of the C library with the outcomes of its next allocations, and
    the memory of memory.c. *)
Record heaps := Heaps { libc : gmap positive (list Z); libc_next : positive; libc_ok : list bool; world_ : world }.

Definition libc_realloc (p : ptr) (size : Z) : M heaps ptr := fun h =>
  let ok := default true (head (libc_ok h)) in
  let b := libc_next h in
  let fresh old := take (Z.to_nat size) old ++ (junk b <$> seq (length old) (Z.to_nat size - length old)) in
  if negb ok then Ret (None, Heaps (libc h) b (tail (libc_ok h)) (world_ h))
  else
    match p with
    | None => Ret (Some (b, 0), Heaps (<[b := fresh []]> (libc h)) (Pos.succ b) (tail (libc_ok h)) (world_ h))
    | Some (a, _) =>
        match libc h !! a with
        | Some old => Ret (Some (b, 0), Heaps (<[b := fresh old]> (delete a (libc h))) (Pos.succ b) (tail (libc_ok h)) (world_ h))
        | None => Fault
        end
    end.

Definition libc_free (p : ptr) : M heaps unit := fun h =>
  match p with
  | None => Ret (tt, h)
  | Some (a, _) =>
      match libc h !! a with
      | Some _ => Ret (tt, Heaps (delete a (libc h)) (libc_next h) (libc_ok h) (world_ h))
      | None => Fault
      end
  end.

Definition on_world {A} (c : M world A) : M heaps A := fun h =>
  match c (world_ h) with
  | Ret (a, w) => Ret (a, Heaps (libc h) (libc_next h) (libc_ok h) w)
  | Panic => Panic
  | Fault => Fault
  end.

(** [memcpy] behind the pointer: a null pointer is [Fault]. *)
Definition write_at (mt : Z) (p : ptr) (n : Z) (bs : list Z) : M heaps unit :=
  match p with
  | None => match bs with [] => ret tt | _ => fault end
  | Some (a, off) =>
      if mt =? PH_MEMTYPE_INVALID then fun h =>
        match libc h !! a with
        | Some old =>
            match poke (off + n) bs old with
            | Ret mem => Ret (tt, Heaps (<[a := mem]> (libc h)) (libc_next h) (libc_ok h) (world_ h))
            | _ => Fault
            end
        | None => Fault
        end
      else on_world (write_bytes (Some (BHeap a (off + n))) bs)
  end.

Definition GM (A : Type) : Type := M (print_n_grow * heaps) A.
Definition with_heaps {A} (c : M heaps A) : GM A := fun '(g, h) =>
  match c h with
  | Ret (a, h) => Ret (a, (g, h))
  | Panic => Panic
  | Fault => Fault
  end.

(** Make room for [len] bytes; [false] without memory. *)
Definition grow_reserve (len : Z) : GM bool :=
  let* (g, _) := get in
  let avail := u32 (g_allocd g - g_used g) in
  if avail <? len then
    let target := ph_power_2 (u32 (g_used g + len + 1)) in
    let target := if target <? 128 then 128 else target in
    revised <-- with_heaps (if g_mt g =? PH_MEMTYPE_INVALID then libc_realloc (g_mem g) target
                            else on_world (liftm (ph_mem_realloc junk self (g_mt g) (g_mem g) target))) ;;
    match revised with
    | None => ret false
    | Some _ => modify (fun '(g, h) => (Grow (g_mt g) (u32 (target - 1)) (g_used g) revised, h)) ;;; ret true
    end
  else ret true.

Definition grow_print (bs : list Z) : GM bool :=
  ok <-- grow_reserve (zlen bs) ;;
  if negb (ok : bool) then ret false
  else
    let* (g, _) := get in
    with_heaps (write_at (g_mt g) (g_mem g) (g_used g) bs) ;;;
    modify (fun '(g, h) => (Grow (g_mt g) (g_allocd g) (u32 (g_used g + zlen bs)) (g_mem g), h)) ;;;
    ret true.

Definition grow_flush : GM bool :=
  let* (g, _) := get in
  with_heaps (write_at (g_mt g) (g_mem g) (g_used g) [0]) ;;;
  ret true.

Definition grow_buf_funcs : ph_vprintf_funcs := Printf.Funcs grow_print (Some grow_flush).

(** ** The functions *)

Section functions.
Context {D MB : Type} (mbrtowc : list Z -> MB -> Z * Z * MB) (mb0 : MB).
Context (dtoa : D -> Z -> Z -> option (list Z * Z * bool)) (strerror : Z -> list Z) (pagesize : Z) (mmap_ok : bool).
Abbreviation va := (va_t D).

(** [ph_vprintf_core] with the named formatters of a print argument. *)
Definition core {P} (formatters : list Z -> option (Z -> M P Z)) (funcs : ph_vprintf_funcs) :=
  ph_vprintf_core mbrtowc mb0 dtoa strerror formatters pagesize mmap_ok funcs.

(** [buf] is the index [buf] of the block [mem]. *)
Definition ph_vsnprintf formatters (fuel : nat) (mem : list Z) (buf size : Z) (fmt : list Z) (ap : list va) (o : gmap positive Z) :
    outcome (Z * (fixed_buf * gmap positive Z)) :=
  core formatters fixed_buf_funcs fuel fmt ap (FixedBuf buf (buf + size - 1) mem) o.

Definition ph_vfdprintf {K} (write : K -> list Z -> Z * K) formatters (fuel : nat) (k : K) (uninit : list Z) (fmt : list Z) (ap : list va)
    (o : gmap positive Z) : outcome (Z * (fd_buffer K * gmap positive Z)) :=
  core formatters (fd_buf_funcs write) fuel fmt ap (FdBuffer k 0 uninit) o.

(** The result and [*strp]. *)
Definition ph_vasprintf formatters (fuel : nat) (fmt : list Z) (ap : list va) (o : gmap positive Z) : M heaps (Z * ptr * gmap positive Z) := fun h =>
  match core formatters grow_buf_funcs fuel fmt ap (Grow PH_MEMTYPE_INVALID 0 0 None, h) o with
  | Ret (ret, ((g, h), o)) =>
      if ret =? -1 then
        match libc_free (g_mem g) h with
        | Ret (_, h) => Ret ((ret, None, o), h)
        | Panic => Panic
        | Fault => Fault
        end
      else Ret ((ret, g_mem g, o), h)
  | Panic => Panic
  | Fault => Fault
  end.

(** [*strp] is not assigned when the memtype is invalid. *)
Definition ph_vmtsprintf formatters (fuel : nat) (memtype : Z) (fmt : list Z) (ap : list va) (o : gmap positive Z) :
    M heaps (Z * option ptr * gmap positive Z) := fun h =>
  if memtype =? PH_MEMTYPE_INVALID then Ret ((-1, None, o), h)
  else
    match core formatters grow_buf_funcs fuel fmt ap (Grow memtype 0 0 None, h) o with
    | Ret (ret, ((g, h), o)) =>
        if (ret =? -1) && bool_decide (is_Some (g_mem g)) then
          match on_world (liftm (ph_mem_free self memtype (g_mem g))) h with
          | Ret (_, h) => Ret ((ret, Some None, o), h)
          | Panic => Panic
          | Fault => Fault
          end
        else Ret ((ret, Some (g_mem g), o), h)
    | Panic => Panic
    | Fault => Fault
    end.

(** string.c *)
Definition str_print (str : positive) (bs : list Z) : M world bool :=
  r <-- ph_string_append_buf junk self str (Bytes bs) ;; ret (bool_decide (r = PH_OK)).
Definition str_flush : M world bool := ret true.
Definition str_funcs (str : positive) : ph_vprintf_funcs := Printf.Funcs (str_print str) (Some str_flush).
Definition ph_string_vprintf formatters (fuel : nat) (a : positive) (fmt : list Z) (ap : list va) (w : world) (o : gmap positive Z) :
    outcome (Z * (world * gmap positive Z)) :=
  core formatters (str_funcs a) fuel fmt ap w o.

Definition ph_string_make_printf formatters (fuel : nat) (mt size : Z) (fmt : list Z) (ap : list va) (o : gmap positive Z) :
    M world (option positive * gmap positive Z) :=
  str <-- ph_string_make_empty junk self mt size ;;
  match str with
  | None => ret (None, o)
  | Some str => fun w =>
      match ph_string_vprintf formatters fuel str fmt ap w o with
      | Ret (_, (w, o)) => Ret ((Some str, o), w)
      | Panic => Panic
      | Fault => Fault
      end
  end.

(** streams/write.c *)
Definition stm_flush {B} : M (Stream.ph_stream B) bool := ret true.
Definition stm_funcs {B} (funcs : Stream.ph_stream_funcs B) (wf : nat) : ph_vprintf_funcs :=
  Printf.Funcs (Stream.stm_print funcs wf) (Some stm_flush).
Definition ph_stm_vprintf {B} (funcs : Stream.ph_stream_funcs B) (wf : nat) formatters (fuel : nat) (fmt : list Z) (ap : list va)
    (o : gmap positive Z) : M (Stream.ph_stream B) (Z * gmap positive Z) :=
  Stream.ph_stm_lock ;;;
  modify (Stream.set_err 0) ;;;
  r <-- (fun stm => match core formatters (stm_funcs funcs wf) fuel fmt ap stm o with
                    | Ret (r, (stm, o)) => Ret ((r, o), stm)
                    | Panic => Panic
                    | Fault => Fault
                    end) ;;
  Stream.ph_stm_unlock ;;;
  ret r.

End functions.
End grow.
End PPrintf.
