(* ===== verification/PPrintfProofs.v ===== *)
(** * Where the printed text goes

    The print functions of pprintf.c, string.c and streams/write.c are
    [printer]s, so what [ph_vprintf_core] prints ends up in the buffer, the
    descriptor, the allocated memory or the string. *)

From Stdlib Require Import ZArith Lia.
From stdpp Require Import base numbers list gmap strings.
From S2P Require Import Prelude SysUtil Counter CounterProofs Memory MemoryProofs PhString PhStringUtf8 PhStringProofs.
From S2P Require Import Stream StreamProofs Printf PrintfProofs PPrintf.

Module PPrintfProofs.
Import Counter CounterProofs Memory MemoryProofs PhString PhStringProofs.
Export PrintfProofs PPrintf.

Lemma poke_ok i bs mem : 0 <= i -> i + zlen bs <= zlen mem -> poke i bs mem = Ret (splice (Z.to_nat i) bs mem).
Proof. intros H1 H2. unfold poke. by rewrite (proj2 (Z.leb_le 0 i)), (proj2 (Z.leb_le _ _)) by lia. Qed.

(** A write behind a prefix extends it, and leaves what is behind it alone. *)
Lemma take_splice n m (bs mem : list Z) : (n + length bs <= length mem)%nat -> m = (n + length bs)%nat ->
  take m (splice n bs mem) = take n mem ++ bs.
Proof.
  intros H ->. unfold splice. rewrite app_assoc, take_app_le by (rewrite length_app, length_take; lia).
  apply take_ge. rewrite length_app, length_take. lia.
Qed.

Lemma take_splice_before n m (bs mem : list Z) : (m <= n)%nat -> (n + length bs <= length mem)%nat ->
  take m (splice n bs mem) = take m mem.
Proof.
  intros H H2. unfold splice. rewrite take_app_le by (rewrite length_take; lia). rewrite take_take. f_equal. lia.
Qed.

Lemma drop_splice n m (bs mem : list Z) : (n + length bs <= m)%nat -> (n + length bs <= length mem)%nat ->
  drop m (splice n bs mem) = drop m mem.
Proof.
  intros H H2. unfold splice. rewrite app_assoc, drop_app_ge by (rewrite length_app, length_take; lia).
  rewrite drop_drop, length_app, length_take. f_equal. lia.
Qed.

(** ** The fixed buffer *)

Section fixed.
Context (mem0 : list Z) (off size : Z).
Context (Hoff : 0 <= off) (Hsize : 0 < size <= 2 ^ 32) (Hroom : off + size <= zlen mem0).

Record fixed_has (b : fixed_buf) (l : list Z) : Prop := {
  fh_end : fb_end b = off + size - 1;
  fh_start : fb_start b = off + Z.min (zlen l) (size - 1);
  fh_len : length (fb_mem b) = length mem0;
  fh_bytes : take (Z.to_nat (fb_start b)) (fb_mem b) = take (Z.to_nat off) mem0 ++ take (Z.to_nat (size - 1)) l;
  fh_rest : drop (Z.to_nat (off + size)) (fb_mem b) = drop (Z.to_nat (off + size)) mem0;
}.
Definition fixed_done (b : fixed_buf) (l : list Z) : Prop :=
  fixed_has b l /\ fb_mem b !! Z.to_nat (fb_start b) = Some 0.

#[export] Instance fixed_printer : printer fixed_buf_funcs fixed_has fixed_done INT_MAX true.
Proof.
  split; [| |done|by intros p l []].
  - intros bs b l [H1 H2 H3 H4 H5] _ _. cbn [print fixed_buf_funcs]. unfold fixed_buf_print.
    set (avail := u32 _). assert (avail = size - 1 - Z.min (zlen l) (size - 1)) as Hav.
    { unfold avail. rewrite H1, H2, wrapU_small; lia. }
    set (len := if avail <? zlen bs then avail else zlen bs). assert (len = Z.min avail (zlen bs)) as Hlen by (unfold len; case_bool; zbool; lia).
    assert (length (take (Z.to_nat len) bs) = Z.to_nat len) as Hll by (rewrite length_take; lia).
    rewrite poke_ok by (rewrite ?H3; lia). eexists. split; [reflexivity|]. split; cbn [fb_start fb_end fb_mem].
    + done.
    + rewrite length_app. lia.
    + rewrite length_splice; [done|lia].
    + rewrite (take_splice _ _ (take (Z.to_nat len) bs)), H4 by lia. rewrite <- app_assoc. f_equal. rewrite take_app. f_equal.
      destruct (decide (zlen l <= size - 1)).
      * rewrite Hlen. destruct (decide (avail <= zlen bs)); [f_equal; lia|]. rewrite !take_ge by lia. done.
      * replace (Z.to_nat len) with O by lia. by replace (Z.to_nat (size - 1) - length l)%nat with O by lia.
    + rewrite drop_splice by lia. done.
  - intros f b l Hf _ [H1 H2 H3 H4 H5]. injection Hf as <-. unfold fixed_buf_flush. rewrite poke_ok by (cbn; lia).
    eexists. split; [reflexivity|]. split; [split; cbn [fb_start fb_end fb_mem]|cbn [fb_start fb_mem]].
    + done.
    + done.
    + rewrite length_splice; [done|cbn; lia].
    + rewrite take_splice_before by (cbn; lia). done.
    + rewrite drop_splice by (cbn; lia). done.
    + rewrite lookup_splice_new by (cbn; lia). by rewrite Nat.sub_diag.
Qed.

Lemma fixed_result b l : fixed_done b l ->
  take (Z.to_nat off) (fb_mem b) = take (Z.to_nat off) mem0 /\
  slice (Z.to_nat off) (S (length (take (Z.to_nat (size - 1)) l))) (fb_mem b) = take (Z.to_nat (size - 1)) l ++ [0] /\
  drop (Z.to_nat (off + size)) (fb_mem b) = drop (Z.to_nat (off + size)) mem0 /\ length (fb_mem b) = length mem0.
Proof.
  intros [[H1 H2 H3 H4 H5] H6]. assert (length (take (Z.to_nat off) mem0) = Z.to_nat off) as Ho by (rewrite length_take; lia).
  set (n := length (take (Z.to_nat (size - 1)) l)). assert (Z.to_nat (fb_start b) = Z.to_nat off + n)%nat as Hst.
  { unfold n. rewrite length_take. lia. }
  rewrite Hst in *. split; [|split; [|done]].
  - apply (f_equal (take (Z.to_nat off))) in H4. rewrite take_take, take_app_length' in H4 by done. by rewrite Nat.min_l in H4 by lia.
  - unfold slice. rewrite (take_S_r _ _ 0) by (by rewrite lookup_drop). f_equal. fold (slice (Z.to_nat off) n (fb_mem b)).
    apply (f_equal (drop (Z.to_nat off))) in H4. rewrite skipn_firstn_comm, drop_app_length' in H4 by done.
    replace (Z.to_nat off + n - Z.to_nat off)%nat with n in H4 by lia. done.
Qed.
End fixed.


(** ** The buffered descriptor *)

(** [write] takes at least one byte and never fails; [W k l] says that [l] was
    written to the descriptor. *)
Class writes {K} (write : K -> list Z -> Z * K) (W : K -> list Z -> Prop) : Prop := {
  wr_ok k l bs : W k l -> bs <> [] -> exists n k', write k bs = (n, k') /\ 0 < n <= zlen bs /\ W k' (l ++ take (Z.to_nat n) bs);
}.

Section fdbuf.
Context {K : Type} (write : K -> list Z -> Z * K) (W : K -> list Z -> Prop) `{HW : !writes write W}.

Record fd_has (b : fd_buffer K) (l : list Z) : Prop := {
  fd_next : 0 <= fb_next b <= FD_BUFSIZE;
  fd_size : zlen (fb_bytes b) = FD_BUFSIZE;
  fd_sent : exists sent, W (fd b) sent /\ l = sent ++ take (Z.to_nat (fb_next b)) (fb_bytes b);
}.
Definition fd_done (b : fd_buffer K) (l : list Z) : Prop := fd_has b l /\ W (fd b) l.

Lemma fd_loop_ok fuel : forall cursor b sent,
  0 <= cursor <= fb_next b -> fb_next b <= zlen (fb_bytes b) -> zlen (fb_bytes b) = FD_BUFSIZE -> (Z.to_nat (fb_next b - cursor) < fuel)%nat -> W (fd b) sent ->
  exists k, fd_flush_loop write fuel cursor b = Ret (true, FdBuffer k 0 (fb_bytes b)) /\
    W k (sent ++ slice (Z.to_nat cursor) (Z.to_nat (fb_next b - cursor)) (fb_bytes b)).
Proof.
  induction fuel as [|fuel IH]; intros cursor b sent Hc Hn Hsz Hf Hk; [lia|]. cbn [fd_flush_loop]. case_bool; zbool.
  - set (bs := slice _ _ _). assert (length bs = Z.to_nat (fb_next b - cursor)) as Hbs by (apply length_slice; lia).
    destruct (wr_ok (fd b) sent bs Hk) as (n & k' & E1 & Hr & Hk'); [intros E0; rewrite E0 in Hbs; cbn in Hbs; lia|].
    rewrite E1. assert (s32 n = n) as -> by (apply wrapS_small; unfold FD_BUFSIZE in *; lia).
    rewrite (proj2 (Z.leb_gt n 0)) by lia.
    destruct (IH (cursor + n) (FdBuffer k' (fb_next b) (fb_bytes b)) _ ltac:(cbn; lia) Hn Hsz ltac:(cbn; lia) Hk') as (k & E2 & HWk).
    exists k. split; [exact E2|]. cbn [fb_next fb_bytes] in HWk. rewrite <- app_assoc in HWk.
    replace bs with (take (Z.to_nat n) bs ++ slice (Z.to_nat (cursor + n)) (Z.to_nat (fb_next b - (cursor + n))) (fb_bytes b)); [done|].
    rewrite <- (take_drop (Z.to_nat n) bs) at 2. f_equal. unfold bs, slice. rewrite skipn_firstn_comm, drop_drop. f_equal; [lia|]. f_equal. lia.
  - exists (fd b). split; [by replace (fb_next b) with (fb_next b) by done|]. replace (Z.to_nat (fb_next b - cursor)) with O by lia.
    unfold slice. by rewrite take_0, app_nil_r.
Qed.

Lemma fd_flush_ok b l : fd_has b l -> exists k, fd_buf_flush write b = Ret (true, FdBuffer k 0 (fb_bytes b)) /\ W k l.
Proof.
  intros [H1 H2 (sent & H3 & ->)]. unfold fd_buf_flush. case_bool; zbool.
  - exists (fd b). destruct b as [k n m]. cbn in *. subst n. rewrite take_0, app_nil_r. done.
  - destruct (fd_loop_ok (S (Z.to_nat (fb_next b))) 0 b sent) as (k & E1 & E2); try done; try lia.
    exists k. split; [done|]. by rewrite Z.sub_0_r in E2.
Qed.

Lemma fd_print_ok fuel : forall bs b l, fd_has b l -> (length bs < fuel)%nat ->
  exists b', fd_buf_print write fuel bs b = Ret (true, b') /\ fd_has b' (l ++ bs).
Proof.
  induction fuel as [|fuel IH]; intros bs b l Hb Hf; [lia|]. destruct bs as [|x bs].
  { exists b. by rewrite app_nil_r. }
  cbn [fd_buf_print]. step. pose proof (fd_next b l Hb) as Hn. unfold FD_BUFSIZE in *.
  assert (u32 (1024 - fb_next b) = 1024 - fb_next b) as -> by (apply wrapU_small; lia).
  assert (exists b1, (if 1024 - fb_next b =? 0 then fd_buf_flush write else ret true) b = Ret (true, b1) /\ fd_has b1 l /\
    (if 1024 - fb_next b =? 0 then u32 (1024 - fb_next b1) else 1024 - fb_next b) = 1024 - fb_next b1 /\ fb_next b1 < 1024) as (b1 & E1 & Hb1 & Hav & Hlt).
  { case_bool; zbool.
    - destruct (fd_flush_ok b l Hb) as (k & E1 & Hk). eexists. split; [exact E1|]. split; [|done].
      split; cbn; [unfold FD_BUFSIZE; lia|apply Hb|]. exists l. by rewrite take_0, app_nil_r.
    - exists b. split; [done|]. split; [done|]. split; [done|lia]. }
  step_with E1. cbn [negb]. step. rewrite Hav. set (n := if _ <? _ then _ else _).
  assert (n = Z.min (1024 - fb_next b1) (zlen (x :: bs))) as Hnn by (unfold n; case_bool; zbool; lia). clearbody n.
  destruct Hb1 as [N1 N2 (sent & HWs & Hl)]. unfold FD_BUFSIZE in *.
  assert (length (take (Z.to_nat n) (x :: bs)) = Z.to_nat n) as Ht by (rewrite length_take; lia).
  rewrite poke_ok by lia. step.
  destruct (IH (drop (Z.to_nat n) (x :: bs)) (FdBuffer (fd b1) (fb_next b1 + n) (splice (Z.to_nat (fb_next b1)) (take (Z.to_nat n) (x :: bs)) (fb_bytes b1)))
    (l ++ take (Z.to_nat n) (x :: bs))) as (b' & E' & Hb').
  - split; cbn [fb_next fb_bytes fd]; unfold FD_BUFSIZE; [lia|rewrite length_splice; lia|].
    exists sent. split; [done|]. rewrite (take_splice (Z.to_nat (fb_next b1))) by lia. rewrite Hl. by rewrite <- app_assoc.
  - rewrite length_drop. cbn [length] in *. lia.
  - exists b'. split; [exact E'|]. by rewrite <- app_assoc, take_drop in Hb'.
Qed.

#[export] Instance fd_printer : printer (fd_buf_funcs write) fd_has fd_done INT_MAX true.
Proof.
  split; [| |done|by intros p l []].
  - intros bs b l Hb _ _. apply fd_print_ok; [done|lia].
  - intros f b l Hf _ Hb. injection Hf as <-. destruct (fd_flush_ok b l Hb) as (k & E & Hk). eexists. split; [exact E|].
    split; [|done]. split; cbn; [unfold FD_BUFSIZE; lia|apply Hb|]. exists l. by rewrite take_0, app_nil_r.
Qed.
End fdbuf.


Section targets.
Context `{HSname : ck_hs string} `{HSid : ck_hs Z}.
Context (junk : positive -> nat -> Z) (self : nat).

(** ** Memory of the C library *)

Section grow.
Context (libc0 : gmap positive (list Z)) (next0 : positive) (w0 : world).
Context (Hfresh0 : forall a, (next0 <= a)%positive -> libc0 !! a = None).

(** The block [b] holds the text; the rest of the heap is as before. *)
Record grow_has (x : print_n_grow * heaps) (l : list Z) : Prop := {
  gh_mt : g_mt (fst x) = PH_MEMTYPE_INVALID;
  gh_used : g_used (fst x) = zlen l;
  gh_ok : Forall (fun b => b = true) (libc_ok (snd x));
  gh_world : world_ (snd x) = w0;
  gh_mem : match g_mem (fst x) with
           | None => g_allocd (fst x) = 0 /\ l = [] /\ libc (snd x) = libc0 /\ libc_next (snd x) = next0
           | Some (b, off) => off = 0 /\ g_allocd (fst x) < 2 ^ 31 /\ zlen l <= g_allocd (fst x) /\
               (next0 <= b < libc_next (snd x))%positive /\ exists bytes, libc (snd x) = <[b := bytes]> libc0 /\
               zlen bytes = g_allocd (fst x) + 1 /\ take (length l) bytes = l
           end;
}.
Definition grow_done (x : print_n_grow * heaps) (l : list Z) : Prop :=
  grow_has x l /\ exists b bytes, g_mem (fst x) = Some (b, 0) /\ libc (snd x) = <[b := bytes]> libc0 /\
    libc0 !! b = None /\ take (S (length l)) bytes = l ++ [0].

Lemma all_true_head (o : list bool) : Forall (fun b => b = true) o -> default true (head o) = true /\ Forall (fun b => b = true) (tail o).
Proof. by intros [|? ? -> ?]. Qed.

(** [realloc] of the buffer to a bigger size. *)
Lemma grow_realloc_ok g h l target : grow_has (g, h) l -> zlen l < target ->
  exists b bytes h', libc_realloc junk (g_mem g) target h = Ret (Some (b, 0), h') /\
    libc h' = <[b := bytes]> libc0 /\ (next0 <= b < libc_next h')%positive /\ zlen bytes = target /\
    take (length l) bytes = l /\ Forall (fun b => b = true) (libc_ok h') /\ world_ h' = w0.
Proof.
  intros [H1 H2 H3 H4 H5] Ht. cbn [fst snd] in *. unfold libc_realloc.
  destruct (all_true_head _ H3) as [-> Htl]. cbn [negb].
  destruct (g_mem g) as [[a off]|].
  - destruct H5 as (-> & Ha & Hl & Hb & bytes & Hh & Hbl & Hbt). rewrite Hh, lookup_insert_eq. eexists _, _, _.
    split; [reflexivity|]. cbn [libc libc_next libc_ok world_].
    split; [rewrite delete_insert_id; [reflexivity|apply Hfresh0; lia]|]. split_and!; try done; try lia.
    + rewrite length_app, length_take, length_fmap, length_seq. lia.
    + rewrite take_app_le by (rewrite length_take; lia). rewrite take_take, Nat.min_l by lia. done.
  - destruct H5 as (Ha & -> & Hh & Hn). eexists _, _, _. split; [reflexivity|]. cbn [libc libc_next libc_ok world_].
    split; [by rewrite Hh|]. split_and!; try done; try lia.
    rewrite take_nil, length_app, length_fmap, length_seq. cbn. lia.
Qed.

Lemma grow_write_ok g h l b bytes bs : grow_has (g, h) l -> g_mem g = Some (b, 0) -> libc h = <[b := bytes]> libc0 ->
  zlen l + zlen bs <= zlen bytes ->
  write_at (g_mt g) (g_mem g) (g_used g) bs h =
    Ret (tt, Heaps (<[b := splice (length l) bs bytes]> libc0) (libc_next h) (libc_ok h) (world_ h)).
Proof.
  intros [H1 H2 H3 H4 _] Hm Hb Hr. cbn [fst snd] in *. unfold write_at. rewrite Hm, H1, Z.eqb_refl, Hb, lookup_insert_eq, H2.
  rewrite poke_ok by lia. by rewrite insert_insert_eq, Z.add_0_l, Nat2Z.id.
Qed.

Lemma grow_reserve_ok g h l n : grow_has (g, h) l -> 0 < n -> zlen l + n <= INT_MAX - 1 ->
  exists g1 h1 b bytes, grow_reserve junk self n (g, h) = Ret (true, (g1, h1)) /\ grow_has (g1, h1) l /\
    g_mem g1 = Some (b, 0) /\ libc h1 = <[b := bytes]> libc0 /\ zlen l + n < zlen bytes /\ zlen bytes = g_allocd g1 + 1.
Proof.
  intros Hx Hpos Hn. unfold INT_MAX in Hn. unfold grow_reserve. step. pose proof Hx as [H1 H2 H3 H4 H5]. cbn [fst snd] in *.
  assert (u32 (g_allocd g - g_used g) = g_allocd g - zlen l) as ->.
  { rewrite H2. destruct (g_mem g) as [[a off]|]; [apply wrapU_small; lia|]. destruct H5 as (-> & -> & _). done. }
  case_bool; zbool.
  - rewrite H2, wrapU_small by lia. set (t := ph_power_2 _). destruct (ph_power_2_above (zlen l + n + 1)) as (Ht & k & Hk & Hp); [lia|]. fold t in Ht, Hp.
    assert (2 ^ k <= 2 ^ 31) by (apply Z.pow_le_mono_r; lia).
    set (target := if t <? 128 then 128 else t). assert (zlen l + n + 1 < target <= 2 ^ 31) as Htg by (unfold target; case_bool; zbool; lia).
    destruct (grow_realloc_ok g h l target Hx) as (b & bytes & h' & E1 & R1 & R2 & R3 & R4 & R5 & R6); [lia|].
    rewrite H1, Z.eqb_refl. assert (with_heaps (libc_realloc junk (g_mem g) target) (g, h) = Ret (Some (b, 0), (g, h'))) as E2
      by (unfold with_heaps; by rewrite E1).
    step_with E2. step. eexists _, h', b, bytes. split; [reflexivity|]. rewrite wrapU_small by lia. cbn [g_mem g_allocd].
    split_and!; try done; try lia. split; cbn; try done. split_and!; try done; try lia. exists bytes. split_and!; try done; lia.
  - destruct (g_mem g) as [[b off]|] eqn:Em; [|lia]. destruct H5 as (-> & Ha & Hl & Hb & bytes & Hh & Hbl & Hbt).
    exists g, h, b, bytes. split_and!; try done; lia.
Qed.

(** The block of the text is the one in the heap. *)
Lemma grow_block g h l b bytes : grow_has (g, h) l -> g_mem g = Some (b, 0) -> libc h = <[b := bytes]> libc0 ->
  zlen l <= g_allocd g < 2 ^ 31 /\ (next0 <= b < libc_next h)%positive /\ zlen bytes = g_allocd g + 1 /\ take (length l) bytes = l.
Proof.
  intros [_ _ _ _ H] Hm Hb. cbn [fst snd] in *. rewrite Hm in H. destruct H as (_ & Ha & Hl & Hbn & bytes' & Hh & Hbl & Hbt).
  rewrite Hb in Hh. apply (f_equal (lookup b)) in Hh. rewrite !lookup_insert_eq in Hh. injection Hh as <-. done.
Qed.

Lemma grow_print_ok x l bs : grow_has x l -> bs <> [] -> zlen (l ++ bs) <= INT_MAX - 1 ->
  exists x', grow_print junk self bs x = Ret (true, x') /\ grow_has x' (l ++ bs).
Proof.
  destruct x as [g h]. intros Hx Hne Hn. rewrite length_app in Hn. unfold grow_print.
  destruct (grow_reserve_ok g h l (zlen bs) Hx) as (g1 & h1 & b & bytes & E & Hx1 & Hm1 & Hb1 & Hroom & Hlen);
    [destruct bs; [done|cbn; lia]|lia|].
  step_with E. cbn [negb]. step. assert (with_heaps (write_at (g_mt g1) (g_mem g1) (g_used g1) bs) (g1, h1) =
    Ret (tt, (g1, Heaps (<[b := splice (length l) bs bytes]> libc0) (libc_next h1) (libc_ok h1) (world_ h1)))) as E2.
  { unfold with_heaps. erewrite grow_write_ok by (done || lia). done. }
  step_with E2. step. eexists. split; [reflexivity|]. destruct (grow_block _ _ _ _ _ Hx1 Hm1 Hb1) as (Ha & Hbn & _ & Hbt).
  destruct Hx1 as [H1 H2 H3 H4 _]. unfold INT_MAX in Hn.
  split; cbn [fst snd g_mt g_used g_allocd g_mem libc libc_ok libc_next world_] in *; try done.
  - rewrite H2, wrapU_small, length_app; lia.
  - rewrite Hm1. split_and!; try done; try lia; [rewrite length_app; lia|]. eexists. split; [done|].
    rewrite length_splice by lia. split; [done|]. rewrite (take_splice (length l)) by (rewrite ?length_app; lia). by rewrite Hbt.
Qed.

#[export] Instance grow_printer : printer (grow_buf_funcs junk self) grow_has grow_done (INT_MAX - 1) false.
Proof.
  split; [| |done|by intros p l []].
  - intros bs x l Hx Hne Hn. by apply grow_print_ok.
  - intros f [g h] l Hf Hne Hx. injection Hf as <-. pose proof Hx as [H1 H2 H3 H4 H5]. cbn [fst snd] in *.
    destruct (g_mem g) as [[b off]|] eqn:Em; [|destruct H5 as (_ & Hl & _); by specialize (Hne Hl)].
    destruct H5 as (-> & Ha & Hl & Hb & bytes & Hh & Hbl & Hbt). unfold grow_flush. step.
    assert (with_heaps (write_at (g_mt g) (g_mem g) (g_used g) [0]) (g, h) =
      Ret (tt, (g, Heaps (<[b := splice (length l) [0] bytes]> libc0) (libc_next h) (libc_ok h) (world_ h)))) as E2.
    { unfold with_heaps. erewrite grow_write_ok by (done || (cbn; lia)). done. }
    step_with E2. eexists. split; [reflexivity|]. split.
    + split; cbn [fst snd libc libc_ok libc_next world_]; try done. rewrite Em. split_and!; try done; try lia.
      eexists. split; [done|]. rewrite length_splice by (cbn; lia). split; [done|]. rewrite take_splice_before by (cbn; lia). done.
    + cbn [fst snd libc]. eexists b, _. split; [done|]. split; [reflexivity|]. split; [apply Hfresh0; lia|].
      rewrite (take_splice (length l)) by (cbn; lia). by rewrite Hbt.
Qed.
End grow.

(** ** A string with a fixed buffer *)

Section static_string.
Context (str : positive) (cs : list Z) (A : Z) (HA : 0 <= A < 2 ^ 30).

(** The string holds as much of the old contents and the text as fits. *)
Definition static_has (w : world) (l : list Z) : Prop := exists s p m i,
  strs w !! str = Some s /\ room w s p m i /\ mt s = PH_STRING_STATIC /\ alloc s = A /\ 0 <= len s <= A /\
  str_contents s m i = take (Z.to_nat A) (cs ++ l).

Lemma contents_length w s p m i : room w s p m i -> 0 <= len s <= alloc s -> zlen (str_contents s m i) = len s.
Proof. intros (_ & _ & Hi & Hr) Hl. unfold str_contents. rewrite length_slice; lia. Qed.

Lemma static_print_ok w l bs : static_has w l -> zlen bs <= 2 ^ 30 ->
  exists w', ph_string_append_buf junk self str (Bytes bs) w = Ret (PH_OK, w') /\ static_has w' (l ++ bs).
Proof.
  intros (s & p & m & i & Hs & Hr & Hmt & Hal & Hlen & Hc) Hn.
  pose proof (contents_length w s p m i Hr ltac:(lia)) as Hcl. rewrite Hc, length_take in Hcl.
  set (n := Z.min (zlen bs) (A - len s)).
  assert (ph_string_append_buf junk self str (Bytes bs) w = append_copy str (Bytes bs) n w) as ->.
  { unfold ph_string_append_buf. step_with (load_str_eq w str s Hs). rewrite source_len_eq, wrapU_small by lia.
    rewrite Hmt, Hal. rewrite (Z.eqb_refl PH_STRING_STATIC).
    case_bool; zbool; f_equal; [rewrite wrapU_small|]; lia. }
  destruct (append_copy_eq self w str s p m i bs n Hs Hr) as (w' & m' & E & Hstr & Hr' & Hc' & _); [lia..|].
  exists w'. split; [exact E|]. eexists _, p, m', i. rewrite Hstr, lookup_insert_eq. split; [done|]. split; [exact Hr'|].
  split; [done|]. split; [done|]. split; [cbn; lia|]. rewrite Hc', Hc, app_assoc, (take_app (cs ++ l)). f_equal.
  rewrite length_app in *. destruct (decide (zlen (cs ++ l) <= A)) as [Hd|Hd]; rewrite length_app in Hd.
  - destruct (decide (zlen bs <= A - len s)); [rewrite !take_ge; [done|lia|lia]|]. f_equal. lia.
  - replace (Z.to_nat n) with O by lia. by replace (Z.to_nat A - (length cs + length l))%nat with O by lia.
Qed.

#[export] Instance static_printer : printer (str_funcs junk self str) static_has static_has (2 ^ 30) true.
Proof.
  split; [| |done|done].
  - intros bs w l Hw _ Hn. rewrite length_app in Hn. destruct (static_print_ok w l bs Hw ltac:(lia)) as (w' & E & Hw').
    exists w'. split; [|done]. cbn [print str_funcs]. unfold str_print. by step_with E.
  - intros f w l Hf _ Hw. injection Hf as <-. by exists w.
Qed.
End static_string.
End targets.


(** ** A stream whose implementation does not fail *)

Section stream.
Context {B : Type} (funcs : Stream.ph_stream_funcs B) (inv : B -> Prop) (log : B -> list Z) (cap : Z).
Context `{Hsink : !StreamProofs.sink funcs inv log cap (fun _ => False)}.
Context (wf : nat) (bz : Z) (old : list Z) (N : Z).
Context (Hfuel : bz + N < Z.of_nat wf) (Hcap : zlen old + N <= cap).

Record stm_has (s : Stream.ph_stream B) (l : list Z) : Prop := {
  sh_ptrs : StreamProofs.ptrs_ok s;
  sh_inv : inv (Stream.cookie s);
  sh_locked : Stream.locked s = true;
  sh_size : Stream.bufsize s = bz;
  sh_written : StreamProofs.written log s = old ++ l;
}.

#[export] Instance stm_printer : printer (stm_funcs funcs wf) stm_has stm_has N true.
Proof.
  split; [| |done|done].
  - intros bs s l [H1 H2 H3 H4 H5] Hne Hn. rewrite length_app in Hn. cbn [print stm_funcs]. unfold Stream.stm_print.
    pose proof (StreamProofs.pending_bound s H1) as Hp.
    destruct (StreamProofs.do_write_ok funcs inv log cap (fun _ => False) wf s bs H1 H2) as (ok & n & s' & E & Hp' & Hi' & Hl' & Hb' & Hres);
      [rewrite H5, length_app; lia|lia|].
    step_with E. unfold StreamProofs.write_result in Hres. destruct ok; [|by destruct Hres as (_ & _ & [_ []] & _)].
    destruct Hres as (m & -> & Hm & Hm0 & Hwr & _ & Hf). destruct (decide (m < zlen bs)) as [Hlt|Hge]; [by destruct (Hf Hlt) as [_ []]|].
    assert (m = zlen bs) as -> by lia. rewrite Z.eqb_refl. cbn [andb]. exists s'. split; [done|].
    split; [done|done|by rewrite Hl'|by rewrite Hb'|]. rewrite Hwr, H5, Nat2Z.id, firstn_all. by rewrite app_assoc.
  - intros f s l Hf _ Hs. injection Hf as <-. by exists s.
Qed.
End stream.


(** ** The functions *)

Section functions.
Context {D MB : Type} (mbrtowc : list Z -> MB -> Z * Z * MB) (mb0 : MB) `{Hmb : !ascii_locale mbrtowc mb0}.
Context (dtoa : D -> Z -> Z -> option (list Z * Z * bool)) (strerror : Z -> list Z) (pagesize : Z) (mmap_ok : bool).
Context `{HSname : ck_hs string} `{HSid : ck_hs Z} (junk : positive -> nat -> Z) (self : nat).
Abbreviation va := (va_t D).
Implicit Types ou : gmap positive Z.

Lemma snprintf_ok forms k fuel mem buf size f (la : list va) o ou :
  formats true k f la o -> zlen o <= INT_MAX -> (k <= fuel)%nat ->
  0 <= buf -> 0 < size <= 2 ^ 32 -> buf + size <= zlen mem ->
  exists b, ph_vsnprintf mbrtowc mb0 dtoa strerror pagesize mmap_ok forms fuel mem buf size f la ou = Ret (zlen o, (b, ou)) /\
    take (Z.to_nat buf) (fb_mem b) = take (Z.to_nat buf) mem /\
    slice (Z.to_nat buf) (S (length (take (Z.to_nat (size - 1)) o))) (fb_mem b) = take (Z.to_nat (size - 1)) o ++ [0] /\
    drop (Z.to_nat (buf + size)) (fb_mem b) = drop (Z.to_nat (buf + size)) mem /\ length (fb_mem b) = length mem.
Proof.
  intros Hf Ho Hk Hb Hs Hr. pose proof (fixed_printer mem buf size Hb Hs Hr).
  destruct (printf_ok mbrtowc mb0 dtoa strerror forms pagesize mmap_ok fixed_buf_funcs (fixed_has mem buf size) (fixed_done mem buf size)
    INT_MAX true k f la o fuel (FixedBuf buf (buf + size - 1) mem) ou []) as (b & E & Hd); try done.
  { split; cbn; [done|lia|done| |done]. by rewrite take_nil, app_nil_r. }
  exists b. split; [exact E|]. apply (fixed_result mem buf size Hb Hs Hr b o Hd).
Qed.

(** C11. Printing into a buffer of at least one byte returns the length of the whole
    text, leaves the text cut to the size and a terminating zero in the buffer,
    and writes no byte in front of it or behind it. *)
Theorem snprintf_bounds forms k fuel mem buf size f (la : list va) o ou :
  formats true k f la o -> zlen o <= INT_MAX -> (k <= fuel)%nat ->
  0 <= buf -> 0 < size <= 2 ^ 32 -> buf + size <= zlen mem ->
  exists b, ph_vsnprintf mbrtowc mb0 dtoa strerror pagesize mmap_ok forms fuel mem buf size f la ou = Ret (zlen o, (b, ou)) /\
    take (Z.to_nat buf) (fb_mem b) = take (Z.to_nat buf) mem /\
    slice (Z.to_nat buf) (S (length (take (Z.to_nat (size - 1)) o))) (fb_mem b) = take (Z.to_nat (size - 1)) o ++ [0] /\
    drop (Z.to_nat (buf + size)) (fb_mem b) = drop (Z.to_nat (buf + size)) mem /\ length (fb_mem b) = length mem.
Proof. apply snprintf_ok. Qed.

(** Printing to a descriptor that takes at least one byte of every write writes
    the whole text, in order, in whatever portions it takes. *)
Theorem fdprintf_writes {K} (write : K -> list Z -> Z * K) W `{!writes write W} forms fd0 l0 uninit k fuel f (la : list va) o ou :
  formats true k f la o -> zlen (l0 ++ o) <= INT_MAX -> (k <= fuel)%nat -> zlen uninit = FD_BUFSIZE -> W fd0 l0 ->
  exists b, ph_vfdprintf mbrtowc mb0 dtoa strerror pagesize mmap_ok write forms fuel fd0 uninit f la ou = Ret (zlen o, (b, ou)) /\
    W (fd b) (l0 ++ o).
Proof.
  intros Hf Ho Hk Hu Hw.
  destruct (printf_ok mbrtowc mb0 dtoa strerror forms pagesize mmap_ok (fd_buf_funcs write) (fd_has W) (fd_done W)
    INT_MAX true k f la o fuel (FdBuffer fd0 0 uninit) ou l0) as (b & E & [_ Hd]); try done.
  { rewrite length_app in Ho. lia. }
  { split; cbn; [unfold FD_BUFSIZE; lia|done|]. exists l0. by rewrite take_0, app_nil_r. }
  by exists b.
Qed.

(** Printing a text that is not empty into new memory returns its length and a
    block that was not in use, which holds the text and a terminating zero
    however often it grew, and changes nothing else on the heap. *)
Theorem asprintf_allocates forms h k fuel f (la : list va) o ou :
  formats false k f la o -> o <> [] -> zlen o < INT_MAX -> (k <= fuel)%nat ->
  Forall (fun b => b = true) (libc_ok h) -> (forall a, (libc_next h <= a)%positive -> libc h !! a = None) ->
  exists b bytes h', ph_vasprintf junk self mbrtowc mb0 dtoa strerror pagesize mmap_ok forms fuel f la ou h = Ret ((zlen o, Some (b, 0), ou), h') /\
    libc h !! b = None /\ libc h' = <[b := bytes]> (libc h) /\ take (S (length o)) bytes = o ++ [0] /\ world_ h' = world_ h.
Proof.
  intros Hf Hne Ho Hk Hok Hfr. pose proof (grow_printer junk self (libc h) (libc_next h) (world_ h) Hfr).
  destruct (printf_ok mbrtowc mb0 dtoa strerror forms pagesize mmap_ok (grow_buf_funcs junk self)
    (grow_has (libc h) (libc_next h) (world_ h)) (grow_done (libc h) (libc_next h) (world_ h))
    (INT_MAX - 1) false k f la o fuel (Grow PH_MEMTYPE_INVALID 0 0 None, h) ou []) as ([g h'] & E & Hg & b & bytes & H1 & H2 & H3 & H4); try done.
  { lia. } { cbn. lia. }
  exists b, bytes, h'. cbn [fst snd app] in *. unfold ph_vasprintf, core. rewrite E. rewrite (proj2 (Z.eqb_neq _ _)) by lia.
  rewrite H1. split_and!; try done. apply (gh_world _ _ _ _ _ Hg).
Qed.

(** Printing into a string with a fixed buffer appends as much of the text as
    fits and returns the length of the whole text. *)
Theorem string_printf_truncates forms str s p m i w k fuel f (la : list va) o ou :
  formats true k f la o -> zlen o <= 2 ^ 30 -> (k <= fuel)%nat ->
  strs w !! str = Some s -> room w s p m i -> mt s = PH_STRING_STATIC -> 0 <= len s <= alloc s -> alloc s < 2 ^ 30 ->
  exists w' s' p' m' i', ph_string_vprintf junk self mbrtowc mb0 dtoa strerror pagesize mmap_ok forms fuel str f la w ou =
      Ret (zlen o, (w', ou)) /\
    strs w' !! str = Some s' /\ room w' s' p' m' i' /\ alloc s' = alloc s /\
    str_contents s' m' i' = take (Z.to_nat (alloc s)) (str_contents s m i ++ o).
Proof.
  intros Hf Ho Hk Hs Hr Hmt Hl Ha. pose proof (static_printer junk self str (str_contents s m i) (alloc s) ltac:(lia)).
  destruct (printf_ok mbrtowc mb0 dtoa strerror forms pagesize mmap_ok (str_funcs junk self str)
    (static_has str (str_contents s m i) (alloc s)) (static_has str (str_contents s m i) (alloc s))
    (2 ^ 30) true k f la o fuel w ou []) as (w' & E & s' & p' & m' & i' & H1 & H2 & _ & H4 & _ & H6); try done.
  { unfold INT_MAX. lia. }
  { exists s, p, m, i. split_and!; try done; try lia. rewrite app_nil_r, take_ge; [done|].
    pose proof (contents_length w s p m i Hr Hl). lia. }
  by exists w', s', p', m', i'.
Qed.

(** Printing to a stream whose implementation does not fail appends the text to
    what was written, within one lock. *)
Theorem stm_printf_writes {B} (funcs : Stream.ph_stream_funcs B) inv log cap
    `{!StreamProofs.sink funcs inv log cap (fun _ => False)} forms s wf k fuel f (la : list va) o ou :
  formats true k f la o -> zlen o <= INT_MAX -> (k <= fuel)%nat -> StreamProofs.stm_ok s -> inv (Stream.cookie s) ->
  Stream.bufsize s + zlen o < Z.of_nat wf -> zlen (StreamProofs.written log s) + zlen o <= cap ->
  exists s', ph_stm_vprintf mbrtowc mb0 dtoa strerror pagesize mmap_ok funcs wf forms fuel f la ou s = Ret ((zlen o, ou), s') /\
    StreamProofs.stm_ok s' /\ inv (Stream.cookie s') /\ StreamProofs.written log s' = StreamProofs.written log s ++ o.
Proof.
  intros Hf Ho Hk [Hok Hlk] Hi Hw Hc. unfold ph_stm_vprintf. step_with (StreamProofs.lock_eq s Hlk). step.
  set (s1 := Stream.set_err 0 _). pose proof (stm_printer funcs inv log cap wf (Stream.bufsize s) (StreamProofs.written log s) (zlen o) Hw Hc).
  destruct (printf_ok mbrtowc mb0 dtoa strerror forms pagesize mmap_ok (stm_funcs funcs wf)
    (stm_has inv log (Stream.bufsize s) (StreamProofs.written log s)) (stm_has inv log (Stream.bufsize s) (StreamProofs.written log s))
    (zlen o) true k f la o fuel s1 ou []) as (s2 & E & [G1 G2 G3 G4 G5]); try done.
  { split; try done; [by apply StreamProofs.ptrs_ok_err, StreamProofs.ptrs_ok_lock|]. by rewrite app_nil_r. }
  eexists. split.
  - erewrite bind_ret by (unfold core; rewrite E; reflexivity). cbv beta. erewrite bind_ret by (by apply StreamProofs.unlock_eq). reflexivity.
  - split; [|done]. split; [by apply StreamProofs.ptrs_ok_lock|done].
Qed.
End functions.


(** ** Examples *)

Definition demo_args : list (va_t unit) := [VaInt (-42); VaString (Some [97; 98])].
Abbreviation demo_dtoa := (fun (_ : unit) (_ _ : Z) => @None (list Z * Z * bool)).
Abbreviation demo_strerror := (fun _ : Z => @nil Z).
Abbreviation no_forms := (fun _ => None).

Lemma demo_output_small n : 11 <= n -> zlen demo_output <= n.
Proof. done. Qed.

(** Eight bytes in the middle of a block of ten. *)
Definition demo_block : list Z := replicate 10 1.

Lemma snprintf_bounds_witness :
  exists b, ph_vsnprintf ascii_mbrtowc tt demo_dtoa demo_strerror 4096 true no_forms 20 demo_block 1 8 demo_format demo_args ∅ =
      Ret (11, (b, ∅)) /\
    take 1 (fb_mem b) = [1] /\ slice 1 8 (fb_mem b) = take 7 demo_output ++ [0] /\ drop 9 (fb_mem b) = [1] /\ length (fb_mem b) = 10%nat.
Proof.
  refine (snprintf_bounds ascii_mbrtowc tt demo_dtoa demo_strerror 4096 true no_forms 3 20 demo_block 1 8 demo_format demo_args
    demo_output ∅ (demo_formats true) _ _ _ _ _); [by vm_compute|lia|lia|lia|by vm_compute].
Defined.

(** A descriptor that takes up to three bytes at a time. *)
Definition demo_write (k : list Z) (bs : list Z) : Z * list Z := (Z.min 3 (zlen bs), k ++ take 3 bs).

#[export] Instance demo_writes : writes demo_write eq.
Proof.
  split. intros k l bs <- Hne. eexists _, _. split; [reflexivity|]. assert (0 < zlen bs) by (destruct bs; [done|cbn; lia]).
  split; [lia|]. f_equal. destruct (decide (3 <= zlen bs)); [f_equal; lia|]. rewrite !take_ge by lia. done.
Qed.

Lemma fdprintf_writes_witness :
  exists b, ph_vfdprintf ascii_mbrtowc tt demo_dtoa demo_strerror 4096 true demo_write no_forms 20 [] (replicate 1024 0)
    demo_format demo_args ∅ = Ret (11, (b, ∅)) /\ fd b = demo_output.
Proof.
  refine (fdprintf_writes ascii_mbrtowc tt demo_dtoa demo_strerror 4096 true demo_write eq no_forms [] [] (replicate 1024 0) 3 20
    demo_format demo_args demo_output ∅ (demo_formats true) _ _ _ _); [by vm_compute|lia|by vm_compute|done].
Defined.

Definition demo_heaps : heaps := Heaps ∅ 1 [] demo_world.

Lemma asprintf_allocates_witness :
  exists b bytes h', ph_vasprintf MemoryProofs.demo_junk 0 ascii_mbrtowc tt demo_dtoa demo_strerror 4096 true no_forms 20
      demo_format demo_args ∅ demo_heaps = Ret ((11, Some (b, 0), ∅), h') /\
    libc demo_heaps !! b = None /\ libc h' = <[b := bytes]> (libc demo_heaps) /\ take 12 bytes = demo_output ++ [0] /\
    world_ h' = world_ demo_heaps.
Proof.
  refine (asprintf_allocates ascii_mbrtowc tt demo_dtoa demo_strerror 4096 true MemoryProofs.demo_junk 0 no_forms demo_heaps 3 20
    demo_format demo_args demo_output ∅ (demo_formats false) _ _ _ _ _); [discriminate|by vm_compute|lia|constructor|].
  intros a _. apply lookup_empty.
Defined.

Lemma string_printf_truncates_witness :
  exists w' s' p' m' i', ph_string_vprintf MemoryProofs.demo_junk 0 ascii_mbrtowc tt demo_dtoa demo_strerror 4096 true no_forms 20 2
      demo_format demo_args demo_world ∅ = Ret (11, (w', ∅)) /\
    strs w' !! 2%positive = Some s' /\ room w' s' p' m' i' /\ alloc s' = 2 /\ str_contents s' m' i' = [1; 110].
Proof.
  refine (string_printf_truncates ascii_mbrtowc tt demo_dtoa demo_strerror 4096 true MemoryProofs.demo_junk 0 no_forms 2 demo_stack
    _ _ _ demo_world 3 20 demo_format demo_args demo_output ∅ (demo_formats true) _ _ eq_refl (sw_room _ _ _ _ _ demo_stack_wf) eq_refl _ _);
    [by vm_compute|lia|by vm_compute|by vm_compute].
Defined.

Lemma stm_printf_writes_witness :
  exists s', ph_stm_vprintf ascii_mbrtowc tt demo_dtoa demo_strerror 4096 true StreamProofs.memfile_funcs 20 no_forms 20
      demo_format demo_args ∅ StreamProofs.demo_stm = Ret ((11, ∅), s') /\
    StreamProofs.stm_ok s' /\ StreamProofs.mf_inv (Stream.cookie s') /\ StreamProofs.written StreamProofs.mf_log s' = demo_output.
Proof.
  refine (stm_printf_writes ascii_mbrtowc tt demo_dtoa demo_strerror 4096 true StreamProofs.memfile_funcs StreamProofs.mf_inv
    StreamProofs.mf_log (2 ^ 62) no_forms StreamProofs.demo_stm 20 3 20 demo_format demo_args demo_output ∅ (demo_formats true) _ _
    (proj1 StreamProofs.demo_stm_ok) (proj2 StreamProofs.demo_stm_ok) _ _);
    [apply StreamProofs.memfile_sink|by vm_compute|lia|by vm_compute|by vm_compute].
Defined.

(** With size 0 the buffer is taken for an unlimited one: the text and its
    terminator are written. *)
Theorem snprintf_size_zero :
  ph_vsnprintf (D := unit) ascii_mbrtowc tt demo_dtoa demo_strerror 4096 true no_forms 20 [1; 1; 1; 1] 1 0 [97; 98] [] ∅ =
    Ret (2, (FixedBuf 3 0 [1; 97; 98; 0], ∅)).
Proof. reflexivity. Qed.

(** Printing nothing into new memory stores the terminator through a null
    pointer. *)
Theorem asprintf_empty :
  ph_vasprintf (D := unit) MemoryProofs.demo_junk 0 ascii_mbrtowc tt demo_dtoa demo_strerror 4096 true no_forms 20 [] [] ∅ demo_heaps = Fault.
Proof. reflexivity. Qed.

End PPrintfProofs.
