(* ===== verification/Hook.v ===== *)
(** * Hooks (hook.c, hook.h)

    A hook point has a head with an array of items in the order of their
    priority.  Registering and unregistering replace the head under the write
    lock and defer freeing the old one, so that an invocation walks over the
    head it loaded without a lock.  [system] adds the threads that are inside
    an invocation; [step] interleaves them with changes and with the deferred
    work of the epoch. *)

From Stdlib Require Import ZArith Lia.
From stdpp Require Import base numbers list gmap sets.
From S2P Require Import Prelude SysUtil.

Module Hook.

(** [struct ph_hook_item]; a function and a closure are addresses. *)
Record ph_hook_item := Item { closure : Z; func : Z; pri : Z; unreg : option Z }.

#[export] Instance ph_hook_item_eq_dec : EqDecision ph_hook_item.
Proof. solve_decision. Defined.

(** [struct ph_hook_point_head]: the cells that were allocated. *)
Record ph_hook_point_head := Head { nitems : Z; items : list ph_hook_item }.

(** What [ph_thread_epoch_defer] was asked to do: [free_head] of a head, or
    [call_unreg] of a [struct ph_hook_item_free]. *)
Inductive deferred_t :=
  | FreeHead (b : positive)
  | CallUnreg (c f u : Z).

(** A deferred call waits for the sections that were active; [d_head] is the
    head whose replacement caused it. *)
Record deferred_call := Deferred { d_what : deferred_t; d_head : positive; d_wait : gset nat }.

Record hworld := HWorld {
  hook_hash : gmap (list Z) positive;
  points : gmap positive (option positive);
  heads : gmap positive ph_hook_point_head;
  hfresh : positive;
  active : gset nat;
  deferred : list deferred_call;
  unregs : list (Z * Z * Z);
  oracle : list bool;
}.
Definition set_hash x w := HWorld x (points w) (heads w) (hfresh w) (active w) (deferred w) (unregs w) (oracle w).
Definition set_points x w := HWorld (hook_hash w) x (heads w) (hfresh w) (active w) (deferred w) (unregs w) (oracle w).
Definition set_heads x w := HWorld (hook_hash w) (points w) x (hfresh w) (active w) (deferred w) (unregs w) (oracle w).
Definition set_hfresh x w := HWorld (hook_hash w) (points w) (heads w) x (active w) (deferred w) (unregs w) (oracle w).
Definition set_active x w := HWorld (hook_hash w) (points w) (heads w) (hfresh w) x (deferred w) (unregs w) (oracle w).
Definition set_deferred x w := HWorld (hook_hash w) (points w) (heads w) (hfresh w) (active w) x (unregs w) (oracle w).
Definition set_unregs x w := HWorld (hook_hash w) (points w) (heads w) (hfresh w) (active w) (deferred w) x (oracle w).
Definition set_oracle x w := HWorld (hook_hash w) (points w) (heads w) (hfresh w) (active w) (deferred w) (unregs w) x.

(** Does the next allocation succeed? *)
Definition mem_ok : M hworld bool := fun w =>
  match oracle w with
  | [] => Ret (true, w)
  | b :: o => Ret (b, set_oracle o w)
  end.

(** ** The order of the items *)

Definition compare_item (A B : ph_hook_item) : Z :=
  let diff := pri A - pri B in
  if negb (diff =? 0) then s32 diff
  else
    let diff := func A - func B in
    if negb (diff =? 0) then s32 diff
    else s32 (closure A - closure B).

(** ** Hook points *)

(** The part of [ph_hook_point_get] under the read lock, and under the write
    lock; the table is the dictionary it implements. *)
Definition get_read (name : list Z) : M hworld (option positive) := fun w => Ret (hook_hash w !! name, w).

Definition get_write (name : list Z) : M hworld (option positive) :=
  hp <-- get_read name ;;
  match hp with
  | Some hp => ret (Some hp)
  | None =>
      ok <-- mem_ok ;;
      if (ok : bool) then
        w <-- get ;;
        let hp := hfresh w in
        put (set_points (<[hp := None]> (points w)) (set_hfresh (Pos.succ hp) w)) ;;;
        ok <-- mem_ok ;;
        if (ok : bool) then
          modify (fun w => set_hash (<[name := hp]> (hook_hash w)) w) ;;; ret (Some hp)
        else modify (fun w => set_points (delete hp (points w)) w) ;;; ret None
      else ret None
  end.

Definition ph_hook_point_get (name : list Z) (create : bool) : M hworld (option positive) :=
  hp <-- get_read name ;;
  match hp with
  | Some hp => ret (Some hp)
  | None => if create then get_write name else ret None
  end.

(** A string object is made only to create the point, and its allocation is not
    tested. *)
Definition ph_hook_point_get_cstr (name : list Z) (create : bool) : M hworld (option positive) :=
  (if create then ok <-- mem_ok ;; if (ok : bool) then ret tt else fault else ret tt) ;;;
  ph_hook_point_get name create.

(** ** Changes *)

Section changes.
(** [qsort] of the C library. *)
Context (qsort : (ph_hook_item -> ph_hook_item -> Z) -> list ph_hook_item -> list ph_hook_item).
(** What is in memory that was not written. *)
Context (junk : ph_hook_item).

Definition load_head (b : positive) : M hworld ph_hook_point_head := w <-- get ;; of_option (heads w !! b).
Definition load_point (hp : positive) : M hworld (option positive) := w <-- get ;; of_option (points w !! hp).

(** [ph_thread_epoch_defer] *)
Definition ph_thread_epoch_defer (what : deferred_t) (b : positive) : M hworld unit :=
  modify (fun w => set_deferred (deferred w ++ [Deferred what b (active w)]) w).

(** The write that publishes a head. *)
Definition publish (hp : positive) (h : ph_hook_point_head) : M hworld unit := fun w =>
  let b := hfresh w in
  Ret (tt, set_points (<[hp := Some b]> (points w)) (set_heads (<[b := h]> (heads w)) (set_hfresh (Pos.succ b) w))).

(** [memcpy] into the items of a new head. *)
Definition copy_items (i : nat) (src cells : list ph_hook_item) : M hworld (list ph_hook_item) :=
  if (i + length src <=? length cells)%nat then ret (splice i src cells) else fault.

(** The first [n] items of a head. *)
Definition read_items (h : ph_hook_point_head) (i n : Z) : M hworld (list ph_hook_item) :=
  if (0 <=? i) && (0 <=? n) && (i + n <=? zlen (items h)) then ret (slice (Z.to_nat i) (Z.to_nat n) (items h)) else fault.

Definition do_register (hp : positive) (f c p : Z) (u : option Z) : M hworld ph_result_t :=
  old <-- load_point hp ;;
  old_head <-- (match old with Some b => h <-- load_head b ;; ret (Some h) | None => ret None end) ;;
  let num_items := match old_head with Some h => nitems h | None => 0 end in
  ok <-- mem_ok ;;
  if negb (ok : bool) then ret PH_ERR
  else
    let cells := replicate (Z.to_nat (1 + num_items)) junk in
    let n := wrapU 16 (num_items + 1) in
    cells <-- (match old_head with
               | Some h => src <-- read_items h 0 (nitems h) ;; copy_items 0 src cells
               | None => ret cells
               end) ;;
    cells <-- copy_items (Z.to_nat num_items) [Item c f p u] cells ;;
    let cells := qsort compare_item (take (Z.to_nat n) cells) ++ drop (Z.to_nat n) cells in
    publish hp (Head n cells) ;;;
    (match old with Some b => ph_thread_epoch_defer (FreeHead b) b | None => ret tt end) ;;;
    ret PH_OK.

(** The loop that looks for the item. *)
Fixpoint find_item (f c : Z) (l : list ph_hook_item) (off : Z) : option Z :=
  match l with
  | [] => None
  | i :: l => if (func i =? f) && (closure i =? c) then Some off else find_item f c l (off + 1)
  end.

(** The items of a new head without the one at [off]. *)
Definition remove_item (h : ph_hook_point_head) (off : Z) : M hworld (list ph_hook_item) :=
  let cells := replicate (Z.to_nat (nitems h)) junk in
  before <-- read_items h 0 off ;;
  cells <-- (if off =? 0 then ret cells else copy_items 0 before cells) ;;
  after <-- read_items h (off + 1) (nitems h - (off + 1)) ;;
  if off + 1 <=? nitems h then copy_items (Z.to_nat off) after cells else ret cells.

Definition do_unregister (hp : positive) (f c : Z) : M hworld ph_result_t :=
  old <-- load_point hp ;;
  match old with
  | None => ret PH_ERR
  | Some b =>
      h <-- load_head b ;;
      all <-- read_items h 0 (nitems h) ;;
      match find_item f c all 0 with
      | None => ret PH_ERR
      | Some off =>
          ok <-- mem_ok ;;
          if negb (ok : bool) then ret PH_ERR
          else
            i <-- of_option (all !! Z.to_nat off) ;;
            ok <-- (match unreg i with Some _ => mem_ok | None => ret true end) ;;
            if negb (ok : bool) then ret PH_ERR
            else
              cells <-- remove_item h off ;;
              publish hp (Head (wrapU 16 (nitems h - 1)) cells) ;;;
              ph_thread_epoch_defer (FreeHead b) b ;;;
              (match unreg i with
               | Some u => ph_thread_epoch_defer (CallUnreg (closure i) (func i) u) b
               | None => ret tt
               end) ;;;
              ret PH_OK
      end
  end.

Definition with_point (hp : option positive) (k : positive -> M hworld ph_result_t) : M hworld ph_result_t :=
  match hp with Some hp => k hp | None => ret PH_ERR end.

Definition ph_hook_register (name : list Z) (f c p : Z) (u : option Z) : M hworld ph_result_t :=
  hp <-- ph_hook_point_get name true ;; with_point hp (fun hp => do_register hp f c p u).
Definition ph_hook_register_cstr (name : list Z) (f c p : Z) (u : option Z) : M hworld ph_result_t :=
  hp <-- ph_hook_point_get_cstr name true ;; with_point hp (fun hp => do_register hp f c p u).
Definition ph_hook_unregister (name : list Z) (f c : Z) : M hworld ph_result_t :=
  hp <-- ph_hook_point_get name true ;; with_point hp (fun hp => do_unregister hp f c).
Definition ph_hook_unregister_cstr (name : list Z) (f c : Z) : M hworld ph_result_t :=
  hp <-- ph_hook_point_get_cstr name true ;; with_point hp (fun hp => do_unregister hp f c).

End changes.

(** [free_head]: freeing a head that is not there is [Fault]. *)
Definition free_head (b : positive) : M hworld unit :=
  h <-- load_head b ;; modify (fun w => set_heads (delete b (heads w)) w).

(** [call_unreg]: the calls are recorded. *)
Definition call_unreg (c f u : Z) : M hworld unit := modify (fun w => set_unregs (unregs w ++ [(u, c, f)]) w).

Definition run_deferred (d : deferred_t) : M hworld unit :=
  match d with FreeHead b => free_head b | CallUnreg c f u => call_unreg c f u end.

(** ** Invocations *)

(** [ph_hook_invoke_inner]: a handler gets its closure and the arguments; it can
    do anything, and says whether it stopped the invocation. *)
Section invoke.
Context (call : Z -> Z -> list Z -> M hworld bool).

Fixpoint invoke_loop (fuel : nat) (b : positive) (n : Z) (args : list Z) : M hworld unit :=
  match fuel with
  | O => fault
  | S fuel =>
      h <-- load_head b ;;
      if n <? nitems h then
        i <-- of_option (items h !! Z.to_nat n) ;;
        stopped <-- call (func i) (closure i) args ;;
        if (stopped : bool) then ret tt else invoke_loop fuel b (n + 1) args
      else ret tt
  end.

Definition ph_hook_invoke_inner (hp : positive) (args : list Z) : M hworld unit :=
  head <-- load_point hp ;;
  match head with
  | None => ret tt
  | Some b => h <-- load_head b ;; invoke_loop (S (Z.to_nat (nitems h))) b 0 args
  end.

Definition PH_HOOK_MAX_VARGS : Z := 16.

(** [args] has 16 elements; the assertion is not compiled in with [ndebug]. *)
Definition ph_hook_invokev (ndebug : bool) (hp : positive) (nargs : Z) (ap : list Z) : M hworld unit :=
  if negb ndebug && negb (nargs <? PH_HOOK_MAX_VARGS) then panic
  else if (zlen ap <? nargs) || (PH_HOOK_MAX_VARGS <? nargs) then fault
  else ph_hook_invoke_inner hp (take (Z.to_nat nargs) ap).
Definition ph_hook_invoke_vargs (ndebug : bool) (hp : positive) (nargs : Z) (ap : list Z) : M hworld unit := ph_hook_invokev ndebug hp nargs ap.
End invoke.

(** ** Threads *)

(** A thread inside an invocation: the head it loaded, the items that were there,
    the index and the calls it made. *)
Record reader := Reader { r_head : option positive; r_items : list ph_hook_item; r_n : Z; r_calls : list (Z * Z); r_done : bool }.

Record system := System { world_ : hworld; readers : gmap nat reader }.

(** One access of an invocation to the head it walks over. *)
Definition reader_step (w : hworld) (r : reader) (stopped : bool) : outcome reader :=
  match r_head r with
  | None => Ret (Reader None (r_items r) (r_n r) (r_calls r) true)
  | Some b =>
      match heads w !! b with
      | None => Fault
      | Some h =>
          if r_n r <? nitems h then
            match items h !! Z.to_nat (r_n r) with
            | None => Fault
            | Some i => Ret (Reader (Some b) (r_items r) (r_n r + 1) (r_calls r ++ [(func i, closure i)]) stopped)
            end
          else Ret (Reader (Some b) (r_items r) (r_n r) (r_calls r) true)
      end
  end.

(** The head an invocation loads. *)
Definition reader_start (w : hworld) (hp : positive) : option reader :=
  match points w !! hp with
  | None => None
  | Some None => Some (Reader None [] 0 [] false)
  | Some (Some b) => h ← heads w !! b; Some (Reader (Some b) (take (Z.to_nat (nitems h)) (items h)) 0 [] false)
  end.

(** The end of a section: nothing waits for it any more. *)
Definition section_end (t : nat) (w : hworld) : hworld :=
  set_active (active w ∖ {[t]})
    (set_deferred ((fun d => Deferred (d_what d) (d_head d) (d_wait d ∖ {[t]})) <$> deferred w) w).

(** A step of the system.  Changes are atomic, since they hold the write lock; the
    epoch runs a deferred call when no section it waits for is left. *)
Inductive step (qsort : (ph_hook_item -> ph_hook_item -> Z) -> list ph_hook_item -> list ph_hook_item) (junk : ph_hook_item) :
    system -> system -> Prop :=
  | step_register name f c p u r w w' rs :
      ph_hook_register qsort junk name f c p u w = Ret (r, w') ->
      step qsort junk (System w rs) (System w' rs)
  | step_unregister name f c r w w' rs :
      ph_hook_unregister junk name f c w = Ret (r, w') ->
      step qsort junk (System w rs) (System w' rs)
  | step_begin t hp r w rs :
      rs !! t = None -> reader_start w hp = Some r ->
      step qsort junk (System w rs) (System (set_active ({[t]} ∪ active w) w) (<[t := r]> rs))
  | step_call t r r' stopped w rs :
      rs !! t = Some r -> r_done r = false -> reader_step w r stopped = Ret r' ->
      step qsort junk (System w rs) (System w (<[t := r']> rs))
  | step_end t r w rs :
      rs !! t = Some r -> r_done r = true ->
      step qsort junk (System w rs) (System (section_end t w) (delete t rs))
  | step_reclaim l1 d l2 w w' rs :
      deferred w = l1 ++ d :: l2 -> d_wait d = ∅ ->
      run_deferred (d_what d) (set_deferred (l1 ++ l2) w) = Ret (tt, w') ->
      step qsort junk (System w rs) (System w' rs).

(** What a system that has started can reach. *)
Inductive reachable qsort junk : system -> Prop :=
  | reach_start o : reachable qsort junk (System (HWorld ∅ ∅ ∅ 1 ∅ [] [] o) ∅)
  | reach_step s s' : reachable qsort junk s -> step qsort junk s s' -> reachable qsort junk s'.

End Hook.
