(* ===== verification/HookProofs.v ===== *)
(** * Hooks run in order, and never over freed memory

    The order of the items, what registering and unregistering do to them, and
    the invariant of the interleaved system. *)

From Stdlib Require Import ZArith Lia Sorting.Sorted.
From stdpp Require Import base numbers list gmap sets.
From S2P Require Import Prelude SysUtil Hook.

Module HookProofs.
Export Hook.

(** ** The order *)

(** [qsort] rearranges the array, and sorts it by a comparison that is total
    and transitive on its elements. *)
Class qsort_ok (qsort : (ph_hook_item -> ph_hook_item -> Z) -> list ph_hook_item -> list ph_hook_item) : Prop := {
  qs_perm cmp l : qsort cmp l ≡ₚ l;
  qs_sorted cmp l :
    (forall a b, a ∈ l -> b ∈ l -> cmp a b <= 0 \/ cmp b a <= 0) ->
    (forall a b c, a ∈ l -> b ∈ l -> c ∈ l -> cmp a b <= 0 -> cmp b c <= 0 -> cmp a c <= 0) ->
    StronglySorted (fun a b => cmp a b <= 0) (qsort cmp l);
}.

(** By priority, then function, then closure. *)
Definition item_le (a b : ph_hook_item) : Prop :=
  pri a < pri b \/ pri a = pri b /\ (func a < func b \/ func a = func b /\ closure a <= closure b).

(** Priorities have 8 bits, and the addresses are within 2 GiB of each other. *)
Definition near (l : list ph_hook_item) : Prop := forall a b, a ∈ l -> b ∈ l ->
  - 2 ^ 7 <= pri a < 2 ^ 7 /\ - 2 ^ 31 <= func a - func b < 2 ^ 31 /\ - 2 ^ 31 <= closure a - closure b < 2 ^ 31.

Lemma compare_item_le a b : - 2 ^ 31 <= pri a - pri b < 2 ^ 31 -> - 2 ^ 31 <= func a - func b < 2 ^ 31 ->
  - 2 ^ 31 <= closure a - closure b < 2 ^ 31 -> compare_item a b <= 0 <-> item_le a b.
Proof.
  intros H1 H2 H3. unfold compare_item, item_le. rewrite !wrapS_small by (cbn; lia). repeat (case_bool; zbool); lia.
Qed.

Lemma near_compare l a b : near l -> a ∈ l -> b ∈ l -> compare_item a b <= 0 <-> item_le a b.
Proof.
  intros H Ha Hb. destruct (H a b Ha Hb) as (P1 & F & C). destruct (H b a Hb Ha) as (P2 & _). apply compare_item_le; lia.
Qed.

Section proofs.
Context (qsort : (ph_hook_item -> ph_hook_item -> Z) -> list ph_hook_item -> list ph_hook_item) `{HQ : !qsort_ok qsort}.
Context (junk : ph_hook_item).
Implicit Types w : hworld.

Lemma qsort_near l : near l -> StronglySorted item_le (qsort compare_item l).
Proof.
  intros H. assert (StronglySorted (fun a b => compare_item a b <= 0) (qsort compare_item l)) as Hs.
  { apply qs_sorted.
    - intros a b Ha Hb. rewrite (near_compare l a b), (near_compare l b a) by done. unfold item_le. lia.
    - intros a b c Ha Hb Hc. rewrite (near_compare l a b), (near_compare l b c), (near_compare l a c) by done. unfold item_le. lia. }
  assert (forall x, x ∈ qsort compare_item l -> x ∈ l) as Hin by (intros x; by rewrite (qs_perm compare_item l)).
  induction Hs as [|a m Hs IH Hall]; [constructor|]. constructor.
  - apply IH. intros x Hx. apply Hin. by right.
  - rewrite Forall_forall in *. intros x Hx. apply (near_compare l); [done|apply Hin; by left|apply Hin; by right|by apply Hall].
Qed.

(** ** Changes *)

Definition head_ok (h : ph_hook_point_head) : Prop := 0 <= nitems h < 2 ^ 16 /\ nitems h <= zlen (items h).
Definition head_items (h : ph_hook_point_head) : list ph_hook_item := take (Z.to_nat (nitems h)) (items h).

(** The items of a point. *)
Definition items_at w (o : option positive) : list ph_hook_item :=
  match o with Some b => from_option head_items [] (heads w !! b) | None => [] end.

(** The effect of replacing a head. *)
Definition swap (hp : positive) (h : ph_hook_point_head) (ds : list deferred_call) w : hworld :=
  set_deferred (deferred w ++ ds)
    (set_points (<[hp := Some (hfresh w)]> (points w)) (set_heads (<[hfresh w := h]> (heads w)) (set_hfresh (Pos.succ (hfresh w)) w))).

Definition point_ok w (hp : positive) (old : option positive) : Prop :=
  points w !! hp = Some old /\ forall b, old = Some b -> exists h, heads w !! b = Some h /\ head_ok h.

Lemma load_point_eq w hp old : points w !! hp = Some old -> load_point hp w = Ret (old, w).
Proof. intros H. unfold load_point. step. by rewrite H. Qed.
Lemma load_head_eq w b h : heads w !! b = Some h -> load_head b w = Ret (h, w).
Proof. intros H. unfold load_head. step. by rewrite H. Qed.
Lemma mem_ok_eq w : exists ok o, mem_ok w = Ret (ok, set_oracle o w) /\ (ok = false -> false ∈ oracle w) /\ (forall x, x ∈ o -> x ∈ oracle w).
Proof.
  unfold mem_ok. destruct (oracle w) as [|b o] eqn:E.
  - exists true, []. split; [|done]. destruct w; cbn in E; by subst.
  - exists b, o. split; [reflexivity|]. split; [intros ->; by left|]. intros x Hx. by right.
Qed.
Lemma read_items_eq h i n w : 0 <= i -> 0 <= n -> i + n <= zlen (items h) ->
  read_items h i n w = Ret (slice (Z.to_nat i) (Z.to_nat n) (items h), w).
Proof. intros. unfold read_items. by rewrite (proj2 (Z.leb_le 0 i)), (proj2 (Z.leb_le 0 n)), (proj2 (Z.leb_le _ _)) by lia. Qed.
Lemma copy_items_eq i src cells w : (i + length src <= length cells)%nat -> copy_items i src cells w = Ret (splice i src cells, w).
Proof. intros. unfold copy_items. by rewrite (proj2 (Nat.leb_le _ _)). Qed.

Lemma head_items_length h : head_ok h -> length (head_items h) = Z.to_nat (nitems h).
Proof. intros [H1 H2]. unfold head_items. rewrite length_take. lia. Qed.

(** A change that failed for want of memory changes nothing. *)
Definition no_memory (w w' : hworld) : Prop := false ∈ oracle w /\ exists o, w' = set_oracle o w.

(** Registering: the items are the old ones and the new one, sorted, and the old
    head is to be freed. *)
Lemma register_ok w hp old f c p u :
  point_ok w hp old ->
  exists r w', do_register qsort junk hp f c p u w = Ret (r, w') /\
    ((r = PH_ERR /\ no_memory w w') \/
     r = PH_OK /\ exists o h, w' = set_oracle o (swap hp h (match old with Some b => [Deferred (FreeHead b) b (active w)] | None => [] end) w) /\
       head_ok h /\ (zlen (items_at w old) < 65535 -> head_items h = qsort compare_item (items_at w old ++ [Item c f p u])) /\
       (zlen (items_at w old) = 65535 -> nitems h = 0)).
Proof.
  intros [Hp Hold]. unfold do_register. step_with (load_point_eq w hp old Hp).
  set (l := items_at w old). set (n := zlen l).
  assert (exists oh, (match old with Some b => h <-- load_head b ;; ret (Some h) | None => ret None end) w = Ret (oh, w) /\
    match oh with Some h => nitems h | None => 0 end = n /\ 0 <= n < 65536 /\
    forall w1 cells, (length l <= length cells)%nat -> (match oh with
               | Some h => src <-- read_items h 0 (nitems h) ;; copy_items 0 src cells
               | None => ret cells end) w1 = Ret (splice 0 l cells, w1)) as (oh & E1 & E2 & Hn & E3).
  { destruct old as [b|].
    - destruct (Hold b eq_refl) as (h & Hh & Hok). exists (Some h). pose proof (head_items_length h Hok) as Hl. destruct Hok as [Ho1 Ho2].
      assert (l = head_items h) as Hlh by (unfold l, items_at; by rewrite Hh). step_with (load_head_eq w b h Hh).
      unfold n. rewrite Hlh. split; [done|]. split; [lia|]. split; [lia|]. intros w1 cells Hc. erewrite bind_ret by (apply read_items_eq; lia). cbv beta.
      unfold slice. cbn [Z.to_nat drop]. fold (head_items h). by apply copy_items_eq.
    - exists None. split; [done|]. split; [done|]. split; [unfold n, l; cbn; lia|]. intros w1 cells Hc. done. }
  step_with E1. rewrite E2. destruct (mem_ok_eq w) as (ok & o & Em & Hf & _). step_with Em. set (w1 := set_oracle o w).
  destruct ok; cbn [negb].
  2:{ eexists _, _. split; [reflexivity|]. left. split; [done|]. split; [by apply Hf|by exists o]. }
  set (cells := replicate _ junk). assert (length cells = S (length l)) as Hcl by (unfold cells; rewrite length_replicate; lia).
  erewrite bind_ret by (apply E3; lia). cbv beta. assert (length (splice 0 l cells) = S (length l)) as Hc1 by (rewrite length_splice; lia).
  erewrite bind_ret by (apply copy_items_eq; cbn [length]; lia). cbv beta zeta.
  set (cells2 := splice (Z.to_nat n) [Item c f p u] (splice 0 l cells)).
  assert (cells2 = l ++ [Item c f p u]) as ->.
  { unfold cells2, n. rewrite Nat2Z.id. unfold splice at 1. rewrite (drop_ge (splice 0 l cells)) by (cbn [length]; lia).
    rewrite app_nil_r. f_equal. change (splice 0 l cells) with (l ++ drop (length l) cells). by rewrite take_app_length. }
  set (k := wrapU 16 (n + 1)). set (h := Head k _).
  assert (head_ok h) as Hh.
  { pose proof (wrapU_bound 16 (n + 1) ltac:(lia)) as Hk. fold k in Hk. split; [done|]. cbn [nitems items h].
    rewrite length_app, (Permutation_length (qs_perm _ _)), <- length_app, take_drop, length_app. cbn [length].
    unfold k, wrapU. pose proof (Z.mod_le (n + 1) (2 ^ 16)). lia. }
  assert (exists w', (publish hp h ;;; match old with Some b => ph_thread_epoch_defer (FreeHead b) b | None => ret tt end) w1 = Ret (tt, w') /\
     w' = set_oracle o (swap hp h (match old with Some b => [Deferred (FreeHead b) b (active w)] | None => [] end) w)) as (w' & E4 & Hw').
  { eexists. split; [|reflexivity]. destruct old; [reflexivity|]. unfold swap, publish, bind, ret. rewrite app_nil_r. reflexivity. }
  eexists _, w'. split.
  { unfold bind in E4 |- *. destruct (publish hp h w1) as [[a w2]| |]; [|done|done].
    destruct (match old with Some b => ph_thread_epoch_defer (FreeHead b) b | None => ret tt end w2) as [[a2 w3]| |]; [|done|done].
    injection E4 as _ ->. reflexivity. }
  right. split; [done|]. exists o, h. split; [done|]. split; [done|]. split.
  - intros Hlt. unfold head_items, h, k. cbn [nitems items]. rewrite wrapU_small by lia.
    assert (length (l ++ [Item c f p u]) = Z.to_nat (n + 1)) as Hfull by (rewrite length_app; cbn [length]; lia).
    rewrite (take_ge (l ++ [Item c f p u])) by lia. apply take_app_length'. rewrite (Permutation_length (qs_perm _ _)). lia.
  - intros Heq. unfold h, k. cbn [nitems]. by rewrite Heq.
Qed.

(** Is [i] the item that is looked for? *)
Definition matches (f c : Z) (i : ph_hook_item) : Prop := func i = f /\ closure i = c.

Lemma find_item_ok f c l : forall off,
  match find_item f c l off with
  | None => Forall (fun i => ~ matches f c i) l
  | Some k => exists l1 i l2, l = l1 ++ i :: l2 /\ k = off + zlen l1 /\ matches f c i /\ Forall (fun i => ~ matches f c i) l1
  end.
Proof.
  induction l as [|i l IH]; intros off; cbn [find_item]; [done|]. destruct ((func i =? f) && (closure i =? c)) eqn:E; zbool.
  - exists [], i, l. split; [done|]. split; [cbn; lia|]. done.
  - assert (~ matches f c i) as Hn by (intros [<- <-]; by rewrite !Z.eqb_refl in E).
    specialize (IH (off + 1)). destruct (find_item f c l (off + 1)) as [k|].
    + destruct IH as (l1 & j & l2 & -> & -> & Hj & Hl1). exists (i :: l1), j, l2. split; [done|]. split; [cbn; lia|]. split; [done|by constructor].
    + by constructor.
Qed.

(** The new head of [do_unregister], without the item at [l1]. *)
Lemma remove_cells (l1 l2 : list ph_hook_item) (i : ph_hook_item) h :
  head_items h = l1 ++ i :: l2 -> head_ok h ->
  exists cells', (forall w, remove_item junk h (zlen l1) w = Ret (cells', w)) /\
    take (length l1 + length l2) cells' = l1 ++ l2 /\ zlen cells' = nitems h.
Proof.
  intros Hl Hok. set (cells := replicate (Z.to_nat (nitems h)) junk). pose proof (head_items_length h Hok) as Hn. rewrite Hl, length_app in Hn. cbn [length] in Hn. destruct Hok as [H1 H2].
  assert (length cells = Z.to_nat (nitems h)) as Hc by (unfold cells; apply length_replicate).
  assert (slice 0 (length l1) (items h) = l1) as Hb.
  { unfold slice. rewrite drop_0. unfold head_items in Hl. apply (f_equal (take (length l1))) in Hl. rewrite take_app_length, take_take in Hl.
    by rewrite Nat.min_l in Hl by lia. }
  assert (slice (length l1 + 1) (Z.to_nat (nitems h - (zlen l1 + 1))) (items h) = l2) as Ha.
  { unfold slice, head_items in *. apply (f_equal (drop (length l1 + 1))) in Hl. rewrite skipn_firstn_comm in Hl.
    assert (drop (length l1 + 1) (l1 ++ i :: l2) = l2) as Hd by (rewrite <- drop_drop, drop_app_length; done).
    rewrite Hd in Hl. rewrite <- Hl. f_equal. lia. }
  exists (splice (length l1) l2 (splice 0 l1 cells)). split; [|split].
  - intros w. unfold remove_item. fold cells. erewrite bind_ret by (apply read_items_eq; lia). cbv beta. rewrite Nat2Z.id. change (Z.to_nat 0) with 0%nat. rewrite Hb.
    assert ((if zlen l1 =? 0 then ret cells else copy_items 0 l1 cells) w = Ret (splice 0 l1 cells, w)) as E.
    { case_bool; zbool; [destruct l1; [done|cbn in E; lia]|]. by apply copy_items_eq; lia. }
    step_with E. erewrite bind_ret by (apply read_items_eq; lia). cbv beta.
    replace (Z.to_nat (zlen l1 + 1)) with (length l1 + 1)%nat by lia. rewrite Ha. rewrite (proj2 (Z.leb_le _ _)) by lia.
    apply copy_items_eq. rewrite length_splice; lia.
  - unfold splice at 1. rewrite app_assoc, take_app_le by (rewrite length_app, length_take, length_splice; lia).
    change (splice 0 l1 cells) with (l1 ++ drop (length l1) cells). rewrite take_app_length. apply take_ge. rewrite length_app. lia.
  - rewrite !length_splice; rewrite ?length_splice; lia.
Qed.

(** The deferred calls of removing the item [i] from the head [b]. *)
Definition removal w (b : positive) (i : ph_hook_item) : list deferred_call :=
  Deferred (FreeHead b) b (active w) ::
  match unreg i with Some u => [Deferred (CallUnreg (closure i) (func i) u) b (active w)] | None => [] end.

Lemma unregister_ok w hp old f c :
  point_ok w hp old ->
  exists r w', do_unregister junk hp f c w = Ret (r, w') /\
    ((r = PH_ERR /\ (no_memory w w' \/ w' = w /\ Forall (fun i => ~ matches f c i) (items_at w old))) \/
     r = PH_OK /\ exists o h b l1 i l2, w' = set_oracle o (swap hp h (removal w b i) w) /\ head_ok h /\ old = Some b /\
       items_at w old = l1 ++ i :: l2 /\ matches f c i /\ Forall (fun i => ~ matches f c i) l1 /\ head_items h = l1 ++ l2).
Proof.
  intros [Hp Hold]. unfold do_unregister. step_with (load_point_eq w hp old Hp). destruct old as [b|].
  2:{ eexists _, _. split; [reflexivity|]. left. split; [done|]. right. split; [done|constructor]. }
  destruct (Hold b eq_refl) as (h & Hh & Hok). step_with (load_head_eq w b h Hh). pose proof Hok as [Hn1 Hn2].
  erewrite bind_ret by (apply read_items_eq; lia). cbv beta. change (slice (Z.to_nat 0) (Z.to_nat (nitems h)) (items h)) with (head_items h).
  assert (items_at w (Some b) = head_items h) as Hit by (cbn; by rewrite Hh). rewrite Hit.
  pose proof (find_item_ok f c (head_items h) 0) as Hfi. destruct (find_item f c (head_items h) 0) as [off|].
  2:{ eexists _, _. split; [reflexivity|]. left. split; [done|]. right. done. }
  destruct Hfi as (l1 & i & l2 & Hl & -> & Hm & Hl1). rewrite Z.add_0_l.
  destruct (mem_ok_eq w) as (ok & o & Em & Hf & Ho). step_with Em. destruct ok; cbn [negb].
  2:{ eexists _, _. split; [reflexivity|]. left. split; [done|]. left. split; [by apply Hf|by exists o]. }
  rewrite Nat2Z.id, Hl, list_lookup_middle by done. step.
  assert (exists ok2 o2, (match unreg i with Some _ => mem_ok | None => ret true end) (set_oracle o w) = Ret (ok2, set_oracle o2 w) /\ (ok2 = false -> false ∈ oracle w))
    as (ok2 & o2 & Em2 & Hf2).
  { destruct (unreg i); [|by exists true, o]. destruct (mem_ok_eq (set_oracle o w)) as (ok2 & o2 & E2 & F2 & _).
    exists ok2, o2. split; [exact E2|]. intros ->. apply Ho. by apply F2. }
  step_with Em2. destruct ok2; cbn [negb].
  2:{ eexists _, _. split; [reflexivity|]. left. split; [done|]. left. split; [by apply Hf2|by exists o2]. }
  destruct (remove_cells l1 l2 i h Hl Hok) as (cells' & Ec & Hc1 & Hc2).
  pose proof (head_items_length h Hok) as Hlen. rewrite Hl, length_app in Hlen. cbn [length] in Hlen.
  set (h' := Head (wrapU 16 (nitems h - 1)) cells').
  step_with (Ec (set_oracle o2 w)). exists PH_OK, (set_oracle o2 (swap hp h' (removal w b i) w)). split.
  { unfold removal. destruct (unreg i); cbn; rewrite <- ?app_assoc; reflexivity. }
  right. split; [reflexivity|]. exists o2, h', b, l1, i, l2. split; [done|].
  assert (wrapU 16 (nitems h - 1) = nitems h - 1) as Hw by (apply wrapU_small; lia).
  split; [split; cbn [nitems items h']; rewrite Hw; lia|]. split_and!; try done.
  unfold head_items, h'. cbn [nitems items]. rewrite Hw. rewrite <- Hc1. f_equal. lia.
Qed.

(** ** The invariant of the system *)

(** The heads that are to be freed. *)
Definition to_free (d : deferred_call) : option positive := match d_what d with FreeHead b => Some b | CallUnreg _ _ _ => None end.

(** What a thread has done so far: the calls of the first items of the head it
    loaded. *)
Definition reader_ok (r : reader) : Prop :=
  0 <= r_n r <= zlen (r_items r) /\ r_calls r = (fun i => (func i, closure i)) <$> take (Z.to_nat (r_n r)) (r_items r).

Record inv (s : system) : Prop := {
  iv_fresh b : is_Some (heads (world_ s) !! b) -> (b < hfresh (world_ s))%positive;
  iv_point hp : is_Some (points (world_ s) !! hp) -> (hp < hfresh (world_ s))%positive;
  iv_hash n hp : hook_hash (world_ s) !! n = Some hp -> is_Some (points (world_ s) !! hp);
  iv_head hp b : points (world_ s) !! hp = Some (Some b) -> exists h, heads (world_ s) !! b = Some h /\ head_ok h;
  iv_inj hp hp' b : points (world_ s) !! hp = Some (Some b) -> points (world_ s) !! hp' = Some (Some b) -> hp = hp';
  iv_old d : d ∈ deferred (world_ s) -> (d_head d < hfresh (world_ s))%positive /\ forall hp, points (world_ s) !! hp <> Some (Some (d_head d));
  iv_free d b : d ∈ deferred (world_ s) -> to_free d = Some b -> d_head d = b /\ is_Some (heads (world_ s) !! b);
  iv_nodup : NoDup (omap to_free (deferred (world_ s)));
  iv_active : active (world_ s) = dom (readers s);
  iv_reader t r b : readers s !! t = Some r -> r_head r = Some b -> exists h, heads (world_ s) !! b = Some h /\ head_ok h /\ head_items h = r_items r /\
    ((exists hp, points (world_ s) !! hp = Some (Some b)) \/ exists d, d ∈ deferred (world_ s) /\ to_free d = Some b);
  iv_waits t r d : readers s !! t = Some r -> d ∈ deferred (world_ s) -> r_head r = Some (d_head d) -> t ∈ d_wait d;
  iv_calls t r : readers s !! t = Some r -> reader_ok r;
  iv_names n n' hp : hook_hash (world_ s) !! n = Some hp -> hook_hash (world_ s) !! n' = Some hp -> n = n';
}.

Lemma inv_oracle o w rs : inv (System w rs) -> inv (System (set_oracle o w) rs).
Proof. intros []. by split. Qed.

Lemma inv_point_ok w rs hp old : inv (System w rs) -> points w !! hp = Some old -> point_ok w hp old.
Proof. intros H Hp. split; [done|]. intros b ->. by apply (iv_head _ H hp b). Qed.

(** Replacing a head, with deferred calls that wait for all who could use it. *)
Lemma inv_swap w rs hp old h ds :
  inv (System w rs) -> points w !! hp = Some old -> head_ok h ->
  match old with
  | None => ds = []
  | Some b => omap to_free ds = [b] /\ Forall (fun d => d_head d = b /\ d_wait d = active w) ds
  end -> inv (System (swap hp h ds w) rs).
Proof.
  intros [F1 F2 F3 F4 F5 F6 F7 F8 F9 F10 F11 F12 F13] Hp Hh Hds. cbn [world_ readers] in *.
  set (nb := hfresh w). assert (heads w !! nb = None) as Hnb.
  { destruct (heads w !! nb) eqn:E; [|done]. assert (nb < nb)%positive by (apply F1; by rewrite E). lia. }
  assert (forall b, is_Some (heads w !! b) -> b <> nb) as Hne by (intros b [x Hx] ->; by rewrite Hnb in Hx).
  assert (forall d, d ∈ ds -> exists b, old = Some b /\ d_head d = b /\ d_wait d = active w) as Hd1.
  { intros d Hd. destruct old as [b|]; [|subst ds; by apply elem_of_nil in Hd]. destruct Hds as [_ Hall]. rewrite Forall_forall in Hall.
    exists b. split; [done|]. by apply Hall. }
  assert (forall b, old = Some b -> is_Some (heads w !! b)) as Hold by (intros b ->; destruct (F4 _ _ Hp) as (h0 & -> & _); by eexists).
  split; cbn [world_ readers swap set_deferred set_points set_heads set_hfresh heads points hfresh hook_hash deferred active] in *; fold nb.
  - intros b Hb. destruct (decide (b = nb)) as [->|Hn]; [lia|]. rewrite lookup_insert_ne in Hb by done. specialize (F1 b Hb). unfold nb. lia.
  - intros q Hq. destruct (decide (q = hp)) as [->|Hn]; [|rewrite lookup_insert_ne in Hq by done; specialize (F2 q Hq); unfold nb; lia].
    specialize (F2 hp ltac:(by rewrite Hp)). unfold nb. lia.
  - intros n q Hq. specialize (F3 n q Hq). destruct (decide (q = hp)) as [->|Hn]; [rewrite lookup_insert_eq|rewrite lookup_insert_ne by done]; done.
  - intros q b Hq. destruct (decide (q = hp)) as [->|Hn].
    + rewrite lookup_insert_eq in Hq. injection Hq as <-. exists h. by rewrite lookup_insert_eq.
    + rewrite lookup_insert_ne in Hq by done. destruct (F4 q b Hq) as (h0 & Hb & Hok). exists h0. rewrite lookup_insert_ne; [done|].
      intros <-. by rewrite Hnb in Hb.
  - assert (forall q, q <> hp -> points w !! q = Some (Some nb) -> False) as Hno.
    { intros q _ Hq. destruct (F4 q nb Hq) as (h0 & Hb & _). by rewrite Hnb in Hb. }
    intros q q' b Hq Hq'. destruct (decide (q = hp)) as [->|Hn], (decide (q' = hp)) as [->|Hn']; try done.
    + rewrite lookup_insert_eq in Hq. injection Hq as <-. rewrite lookup_insert_ne in Hq' by done. by destruct (Hno q').
    + rewrite lookup_insert_eq in Hq'. injection Hq' as <-. rewrite lookup_insert_ne in Hq by done. by destruct (Hno q).
    + rewrite lookup_insert_ne in Hq, Hq' by done. by apply (F5 q q' b).
  - intros d Hd. apply elem_of_app in Hd as [Hd|Hd].
    + destruct (F6 d Hd) as [Hlt Hnp]. split; [lia|]. intros q. destruct (decide (q = hp)) as [->|Hn].
      * rewrite lookup_insert_eq. intros [= E]. unfold nb in E. lia.
      * rewrite lookup_insert_ne by done. apply Hnp.
    + destruct (Hd1 d Hd) as (b & Ho & <- & _). specialize (F1 _ (Hold _ Ho)). split; [lia|]. intros q. destruct (decide (q = hp)) as [->|Hn].
      * rewrite lookup_insert_eq. intros [= E]. unfold nb in E. lia.
      * rewrite lookup_insert_ne by done. intros Hq. subst old. by apply Hn, (F5 q hp (d_head d)).
  - intros d b Hd Hf. apply elem_of_app in Hd as [Hd|Hd].
    + destruct (F7 d b Hd Hf) as [E Hs]. split; [done|]. rewrite lookup_insert_ne; [done|]. intros <-. by rewrite Hnb in Hs; destruct Hs.
    + destruct (Hd1 d Hd) as (b' & Ho & E & _). subst old. destruct Hds as [Hom _]. assert (b ∈ omap to_free ds) as Hin by (apply list_elem_of_omap; by exists d).
      rewrite Hom in Hin. apply list_elem_of_singleton in Hin as ->. split; [done|]. rewrite lookup_insert_ne; [by apply Hold|].
      intros <-. destruct (Hold nb eq_refl) as [x Hx]. by rewrite Hnb in Hx.
  - rewrite omap_app. destruct old as [b|]; [|subst ds; cbn; by rewrite app_nil_r]. destruct Hds as [-> _]. apply NoDup_app. split; [done|].
    split; [|apply NoDup_singleton]. intros x Hx Hx2. apply list_elem_of_singleton in Hx2 as ->. apply list_elem_of_omap in Hx as (d & Hd & Hf).
    destruct (F7 d b Hd Hf) as [Eb _]. destruct (F6 d Hd) as [_ Hnp]. by apply (Hnp hp); rewrite Eb.
  - done.
  - intros t r b Hr Hb. destruct (F10 t r b Hr Hb) as (h0 & Hh0 & Hok & Hi & Hwhere). exists h0.
    assert (b <> nb) as Hbn by (apply Hne; by rewrite Hh0). split; [by rewrite lookup_insert_ne|]. split; [done|]. split; [done|].
    destruct Hwhere as [[q Hq]|(d & Hd & Hf)]; [|right; exists d; split; [by apply elem_of_app; left|done]].
    destruct (decide (q = hp)) as [->|Hn]; [|left; exists q; by rewrite lookup_insert_ne].
    right. assert (old = Some b) as -> by congruence. destruct Hds as [Hom _]. assert (b ∈ omap to_free ds) as Hin by (rewrite Hom; by left).
    apply list_elem_of_omap in Hin as (d & Hd & Hf). exists d. split; [by apply elem_of_app; right|done].
  - intros t r d Hr Hd Hb. apply elem_of_app in Hd as [Hd|Hd]; [by apply (F11 t r d)|]. destruct (Hd1 d Hd) as (b & _ & _ & ->).
    rewrite F9. apply elem_of_dom. by eexists.
  - done.
  - done.
Qed.

(** A new point. *)
Definition new_point (name : list Z) w : hworld :=
  set_hash (<[name := hfresh w]> (hook_hash w)) (set_points (<[hfresh w := None]> (points w)) (set_hfresh (Pos.succ (hfresh w)) w)).

Lemma point_get_ok w rs name :
  inv (System w rs) ->
  exists r w', ph_hook_point_get name true w = Ret (r, w') /\ inv (System w' rs) /\ heads w' = heads w /\ deferred w' = deferred w /\
    active w' = active w /\ unregs w' = unregs w /\
    match r with
    | Some hp => hook_hash w' !! name = Some hp /\
        (hook_hash w !! name = Some hp /\ w' = w \/ hook_hash w !! name = None /\ exists o, w' = set_oracle o (new_point name w) /\ hp = hfresh w)
    | None => hook_hash w' = hook_hash w /\ hook_hash w !! name = None /\ false ∈ oracle w
    end /\ (forall hp x, points w !! hp = Some x -> points w' !! hp = Some x).
Proof.
  intros Hi. unfold ph_hook_point_get. unfold get_read at 1. step. destruct (hook_hash w !! name) as [hp|] eqn:En.
  { exists (Some hp), w. split; [done|]. split; [done|]. split_and!; try done. by left. }
  unfold get_write, get_read. step. rewrite En. destruct (mem_ok_eq w) as (ok & o & Em & Hf & Ho). step_with Em.
  assert (forall hp, is_Some (points w !! hp) -> hp <> hfresh w) as Hnew by (intros q Hq ->; pose proof (iv_point _ Hi (hfresh w) Hq); cbn in *; lia).
  assert (points w !! hfresh w = None) as Hfp by (destruct (points w !! hfresh w) eqn:E; [|done]; by destruct (Hnew (hfresh w) ltac:(by rewrite E))).
  assert (inv (System (set_points (<[hfresh w := None]> (points w)) (set_hfresh (Pos.succ (hfresh w)) w)) rs)) as Hi1.
  { destruct Hi as [F1 F2 F3 F4 F5 F6 F7 F8 F9 F10 F11 F12 F13].
    assert (forall q b, <[hfresh w := None]> (points w) !! q = Some (Some b) -> points w !! q = Some (Some b)) as Hback.
    { intros q b. destruct (decide (q = hfresh w)) as [->|Hn]; [by rewrite lookup_insert_eq|by rewrite lookup_insert_ne]. }
    split; cbn [world_ readers set_points set_hfresh heads points hfresh hook_hash deferred active] in *; try done.
    - intros b Hb. specialize (F1 b Hb). lia.
    - intros q Hq. destruct (decide (q = hfresh w)) as [->|Hn]; [lia|]. rewrite lookup_insert_ne in Hq by done. specialize (F2 q Hq). lia.
    - intros n q Hq. specialize (F3 n q Hq). rewrite lookup_insert_ne; [done|]. intros <-. by destruct (Hnew (hfresh w) F3).
    - intros q b Hq. by apply (F4 q b), Hback.
    - intros q q' b Hq Hq'. apply (F5 q q' b); by apply Hback.
    - intros d Hd. destruct (F6 d Hd) as [Hlt Hnp]. split; [lia|]. intros q Hq. by apply (Hnp q), Hback.
    - intros t r b Hr Hb. destruct (F10 t r b Hr Hb) as (h0 & Hh0 & Hok & Hit & Hwhere). exists h0. split_and!; try done.
      destruct Hwhere as [[q Hq]|Hw]; [left|by right]. exists q. rewrite lookup_insert_ne; [done|]. intros <-. by rewrite Hfp in Hq. }
  destruct ok.
  2:{ exists None, (set_oracle o w). split; [done|]. split; [by apply inv_oracle|]. split_and!; try done. by apply Hf. }
  cbv iota. step. step. cbn [hfresh set_oracle].
  match goal with |- context [bind mem_ok _ ?x] => destruct (mem_ok_eq x) as (ok2 & o2 & Em2 & Hf2 & _) end. erewrite bind_ret by exact Em2. cbv beta.
  destruct ok2.
  - eexists (Some (hfresh w)), _. split; [reflexivity|]. cbn. split_and!; try done.
    + apply (inv_oracle o2) in Hi1. destruct Hi1 as [F1 F2 F3 F4 F5 F6 F7 F8 F9 F10 F11 F12 F13]. split;
        cbn [world_ readers set_points set_hfresh set_hash set_oracle heads points hfresh hook_hash deferred active] in *; try done.
      * intros n q. destruct (decide (n = name)) as [->|Hn]; [rewrite lookup_insert_eq; intros [= <-]; by rewrite lookup_insert_eq|].
        rewrite lookup_insert_ne by done. apply F3.
      * assert (forall n, hook_hash w !! n = Some (hfresh w) -> False) as Hno by (intros n Hq; by destruct (Hnew _ (iv_hash _ Hi n _ Hq))).
        intros n n' q Hq Hq'. apply lookup_insert_Some in Hq as [[E1 E2]|[Hn Hq]], Hq' as [[E3 E4]|[Hn' Hq']];
          [congruence|destruct (Hno n'); congruence|destruct (Hno n); congruence|by apply (F13 n n' q)].
    + by rewrite lookup_insert_eq.
    + right. split; [done|]. by exists o2.
    + intros q x Hq. rewrite lookup_insert_ne; [done|]. intros <-. by rewrite Hfp in Hq.
  - exists None, (set_oracle o2 (set_hfresh (Pos.succ (hfresh w)) w)). split.
    { unfold modify, bind, ret. cbn. rewrite delete_insert_id by done. reflexivity. }
    split; [|split_and!; try done].
    + apply inv_oracle. destruct Hi as [F1 F2 F3 F4 F5 F6 F7 F8 F9 F10 F11 F12 F13]. split; try done; cbn in *.
      * intros b Hb. specialize (F1 b Hb). lia.
      * intros b Hb. specialize (F2 b Hb). lia.
      * intros d Hd. destruct (F6 d Hd) as [Hlt Hnp]. split; [lia|done].
    + apply Ho. by apply Hf2.
Qed.

Lemma register_inv w rs name f c p u r w' :
  inv (System w rs) -> ph_hook_register qsort junk name f c p u w = Ret (r, w') -> inv (System w' rs).
Proof.
  intros Hi. unfold ph_hook_register. destruct (point_get_ok w rs name Hi) as (hp & w1 & E & Hi1 & _ & _ & _ & _ & Hr & _). step_with E.
  destruct hp as [hp|]; cbn [with_point]; [|by intros [= <- <-]]. destruct (iv_hash _ Hi1 name hp (proj1 Hr)) as [old Hp]. cbn in Hp.
  destruct (register_ok w1 hp old f c p u (inv_point_ok _ _ _ _ Hi1 Hp)) as (r1 & w2 & -> & [[-> [_ [o ->]]]|[-> (o & h & -> & Hh & _)]]);
    intros [= <- <-]; [by apply inv_oracle|]. apply inv_oracle. eapply inv_swap; try done. destruct old as [b|]; [|done].
  split; [done|by repeat constructor].
Qed.

Lemma unregister_inv w rs name f c r w' :
  inv (System w rs) -> ph_hook_unregister junk name f c w = Ret (r, w') -> inv (System w' rs).
Proof.
  intros Hi. unfold ph_hook_unregister. destruct (point_get_ok w rs name Hi) as (hp & w1 & E & Hi1 & _ & _ & _ & _ & Hr & _). step_with E.
  destruct hp as [hp|]; cbn [with_point]; [|by intros [= <- <-]]. destruct (iv_hash _ Hi1 name hp (proj1 Hr)) as [old Hp]. cbn in Hp.
  destruct (unregister_ok w1 hp old f c (inv_point_ok _ _ _ _ Hi1 Hp)) as (r1 & w2 & -> & [[-> [[_ [o ->]]|[-> _]]]|[-> (o & h & b & l1 & i & l2 & -> & Hh & -> & _)]]);
    intros [= <- <-]; [by apply inv_oracle|done|]. apply inv_oracle. eapply inv_swap; try done.
  unfold removal. destruct (unreg i); (split; [done|by repeat constructor]).
Qed.

Lemma begin_inv w rs t hp r :
  inv (System w rs) -> rs !! t = None -> reader_start w hp = Some r ->
  inv (System (set_active ({[t]} ∪ active w) w) (<[t := r]> rs)).
Proof.
  intros [F1 F2 F3 F4 F5 F6 F7 F8 F9 F10 F11 F12 F13] Ht Hs. cbn [world_ readers] in *.
  assert (reader_ok r /\ forall b, r_head r = Some b -> points w !! hp = Some (Some b) /\ exists h, heads w !! b = Some h /\ head_ok h /\ head_items h = r_items r)
    as [Hrk Hrb].
  { unfold reader_start in Hs. destruct (points w !! hp) as [[b|]|] eqn:Ep; [| |done].
    - destruct (F4 hp b Ep) as (h & Hh & Hok). rewrite Hh in Hs. cbn in Hs. injection Hs as <-. split; [split; [cbn; lia|done]|].
      intros b' [= <-]. split; [done|]. by exists h.
    - injection Hs as <-. split; [split; [cbn; lia|done]|]. done. }
  split; cbn [world_ readers set_active heads points hfresh hook_hash deferred active] in *; try done.
  - rewrite dom_insert_L, F9. done.
  - intros t' r' b Hr Hb. destruct (decide (t' = t)) as [->|Hn].
    + rewrite lookup_insert_eq in Hr. injection Hr as <-. destruct (Hrb b Hb) as (Hp & h & Hh & Hok & Hit). exists h. split_and!; try done. left. by exists hp.
    + rewrite lookup_insert_ne in Hr by done. by apply (F10 t' r' b).
  - intros t' r' d Hr Hd Hb. destruct (decide (t' = t)) as [->|Hn].
    + rewrite lookup_insert_eq in Hr. injection Hr as <-. destruct (Hrb _ Hb) as [Hp _]. by destruct (proj2 (F6 d Hd) hp).
    + rewrite lookup_insert_ne in Hr by done. by apply (F11 t' r' d).
  - intros t' r' Hr. destruct (decide (t' = t)) as [->|Hn]; [rewrite lookup_insert_eq in Hr; by injection Hr as <-|].
    rewrite lookup_insert_ne in Hr by done. by apply (F12 t' r').
Qed.

(** A thread takes the next item of the head it loaded. *)
Lemma reader_step_ok w rs t r stopped :
  inv (System w rs) -> rs !! t = Some r ->
  exists r', reader_step w r stopped = Ret r' /\ r_head r' = r_head r /\ r_items r' = r_items r /\ reader_ok r' /\
    (r_done r' = true -> stopped = true \/ r_n r' = zlen (r_items r') \/ r_head r = None).
Proof.
  intros [F1 F2 F3 F4 F5 F6 F7 F8 F9 F10 F11 F12 F13] Hr. cbn [world_ readers] in *. pose proof (F12 t r Hr) as [Hn Hc]. unfold reader_step.
  destruct (r_head r) as [b|] eqn:Eb.
  2:{ eexists. split; [reflexivity|]. split_and!; try done. intros _. by right; right. }
  destruct (F10 t r b Hr Eb) as (h & -> & Hok & Hit & _). pose proof (head_items_length h Hok) as Hl. rewrite Hit in Hl. destruct Hok as [Ho1 Ho2].
  case_bool; zbool.
  - assert (exists i, items h !! Z.to_nat (r_n r) = Some i) as [i Hi] by (apply lookup_lt_is_Some; lia).
    rewrite Hi. eexists. split; [reflexivity|]. split; [done|]. split; [done|]. split; [|by left].
    split; cbn [r_n r_items r_calls]; [lia|]. replace (Z.to_nat (r_n r + 1)) with (S (Z.to_nat (r_n r))) by lia.
    erewrite take_S_r; [rewrite fmap_app; by rewrite <- Hc|]. rewrite <- Hit. unfold head_items. rewrite lookup_take_lt by lia. exact Hi.
  - eexists. split; [reflexivity|]. split_and!; try done. intros _. right. left. cbn. lia.
Qed.

Lemma call_inv w rs t r r' stopped :
  inv (System w rs) -> rs !! t = Some r -> reader_step w r stopped = Ret r' -> inv (System w (<[t := r']> rs)).
Proof.
  intros Hi Hr Hs. destruct (reader_step_ok w rs t r stopped Hi Hr) as (r0 & E & Hh & Hit & Hok & _). rewrite Hs in E. injection E as <-.
  destruct Hi as [F1 F2 F3 F4 F5 F6 F7 F8 F9 F10 F11 F12 F13].
  split; cbn [world_ readers] in *; try done.
  - rewrite dom_insert_lookup_L by (by eexists). done.
  - intros t' x b Hx Hb. destruct (decide (t' = t)) as [->|Hn]; [|rewrite lookup_insert_ne in Hx by done; by apply (F10 t' x b)].
    rewrite lookup_insert_eq in Hx. injection Hx as <-. rewrite Hh in Hb. rewrite Hit. by apply (F10 t r b).
  - intros t' x d Hx Hd Hb. destruct (decide (t' = t)) as [->|Hn]; [|rewrite lookup_insert_ne in Hx by done; by apply (F11 t' x d)].
    rewrite lookup_insert_eq in Hx. injection Hx as <-. rewrite Hh in Hb. by apply (F11 t r d).
  - intros t' x Hx. destruct (decide (t' = t)) as [->|Hn]; [|rewrite lookup_insert_ne in Hx by done; by apply (F12 t' x)].
    rewrite lookup_insert_eq in Hx. by injection Hx as <-.
Qed.

Definition unwait (t : nat) (d : deferred_call) : deferred_call := Deferred (d_what d) (d_head d) (d_wait d ∖ {[t]}).

Lemma omap_unwait t (l : list deferred_call) : omap to_free (unwait t <$> l) = omap to_free l.
Proof.
  induction l as [|d l IH]; [done|]. cbn. rewrite <- IH. done.
Qed.

Lemma end_inv w rs t : inv (System w rs) -> inv (System (section_end t w) (delete t rs)).
Proof.
  intros [F1 F2 F3 F4 F5 F6 F7 F8 F9 F10 F11 F12 F13].
  split; cbn [world_ readers section_end set_active set_deferred heads points hfresh hook_hash deferred active] in *; try done; fold (unwait t).
  - intros d Hd. apply list_elem_of_fmap in Hd as (d0 & -> & Hd). by apply (F6 d0).
  - intros d b Hd Hf. apply list_elem_of_fmap in Hd as (d0 & -> & Hd). by apply (F7 d0 b).
  - by rewrite omap_unwait.
  - by rewrite dom_delete_L, F9.
  - intros t' r b Hr Hb. apply lookup_delete_Some in Hr as [Hne Hr]. destruct (F10 t' r b Hr Hb) as (h & Hh & Hok & Hit & Hw). exists h. split_and!; try done.
    destruct Hw as [?|(d & Hd & Hf)]; [by left|right]. exists (unwait t d). split; [by apply list_elem_of_fmap_2|done].
  - intros t' r d Hr Hd Hb. apply lookup_delete_Some in Hr as [Hne Hr]. apply list_elem_of_fmap in Hd as (d0 & -> & Hd).
    cbn. apply elem_of_difference. split; [by apply (F11 t' r d0)|]. by apply not_elem_of_singleton.
  - intros t' r Hr. apply lookup_delete_Some in Hr as [_ Hr]. by apply (F12 t' r).
Qed.

(** A deferred call that waits for nobody runs, and nobody uses the old head. *)
Lemma reclaim_ok w rs l1 d l2 :
  inv (System w rs) -> deferred w = l1 ++ d :: l2 -> d_wait d = ∅ ->
  (forall t r, rs !! t = Some r -> r_head r <> Some (d_head d)) /\
  exists w', run_deferred (d_what d) (set_deferred (l1 ++ l2) w) = Ret (tt, w') /\ inv (System w' rs).
Proof.
  intros [F1 F2 F3 F4 F5 F6 F7 F8 F9 F10 F11 F12 F13] Hl Hw. cbn [world_ readers] in *.
  assert (d ∈ deferred w) as Hd by (rewrite Hl; apply elem_of_app; right; by left).
  assert (forall x, x ∈ l1 ++ l2 -> x ∈ deferred w) as Hsub by (intros x; rewrite Hl, !elem_of_app, elem_of_cons; tauto).
  assert (forall t r, rs !! t = Some r -> r_head r <> Some (d_head d)) as Hno.
  { intros t r Hr Hb. pose proof (F11 t r d Hr Hd Hb) as Hin. rewrite Hw in Hin. by apply not_elem_of_empty in Hin. }
  split; [done|]. assert (omap to_free (deferred w) = omap to_free l1 ++ (match to_free d with Some b => [b] | None => [] end) ++ omap to_free l2) as Hom.
  { rewrite Hl, omap_app. cbn. by destruct (to_free d). }
  rewrite Hom in F8. destruct (d_what d) as [b|c f u] eqn:Ed; cbn [run_deferred].
  - assert (to_free d = Some b) as Hf by (unfold to_free; by rewrite Ed). destruct (F7 d b Hd Hf) as [Ehd [h Hh]]. rewrite Hf in F8.
    eexists. split; [unfold free_head; erewrite bind_ret by (by apply load_head_eq); reflexivity|].
    assert (forall x, x ∈ l1 ++ l2 -> to_free x <> Some b) as Hother.
    { intros x Hx Hfx. apply elem_of_app in Hx as [Hx|Hx]; apply NoDup_app in F8 as (_ & N2 & N3).
      - apply (N2 b); [apply list_elem_of_omap; by exists x|apply elem_of_app; left; by left].
      - apply NoDup_app in N3 as (_ & N4 & _). apply (N4 b); [by left|apply list_elem_of_omap; by exists x]. }
    split; cbn [world_ readers set_heads set_deferred heads points hfresh hook_hash deferred active] in *; try done.
    + intros x Hx. apply F1. destruct Hx as [y Hy]. apply lookup_delete_Some in Hy as [_ Hy]. by eexists.
    + intros hp x Hp. destruct (F4 hp x Hp) as (h0 & Hx & Hok). exists h0. split; [|done]. rewrite lookup_delete_ne; [done|].
      intros <-. destruct (F6 d Hd) as [_ Hnp]. by apply (Hnp hp); rewrite Ehd.
    + intros x Hx. by apply F6, Hsub.
    + intros x y Hx Hy. destruct (F7 x y (Hsub x Hx) Hy) as [E1 E2]. split; [done|]. rewrite lookup_delete_ne; [done|].
      intros ->. by apply (Hother x Hx).
    + rewrite omap_app. apply NoDup_app in F8 as (N1 & N2 & N3). apply NoDup_app in N3 as (_ & _ & N5). apply NoDup_app. split; [done|].
      split; [|done]. intros x Hx Hx2. apply (N2 x Hx), elem_of_app. by right.
    + intros t r x Hr Hx. destruct (F10 t r x Hr Hx) as (h0 & Hh0 & Hok & Hit & Hwh). assert (x <> b) as Hxb by (intros ->; by apply (Hno t r Hr); rewrite Ehd).
      exists h0. split; [by rewrite lookup_delete_ne|]. split_and!; try done. destruct Hwh as [?|(d0 & Hd0 & Hf0)]; [by left|right]. exists d0. split; [|done].
      rewrite Hl in Hd0. apply elem_of_app in Hd0 as [Hd0|Hd0]; [by apply elem_of_app; left|]. apply elem_of_cons in Hd0 as [->|Hd0]; [congruence|].
      by apply elem_of_app; right.
    + intros t r x Hr Hx. by apply (F11 t r x Hr), Hsub.
  - eexists. split; [reflexivity|]. assert (to_free d = None) as Hf by (unfold to_free; by rewrite Ed). rewrite Hf in F8. cbn [app] in F8.
    split; cbn [world_ readers set_unregs set_deferred heads points hfresh hook_hash deferred active] in *; try done.
    + intros x Hx. by apply F6, Hsub.
    + intros x y Hx Hy. by apply (F7 x y (Hsub x Hx)).
    + by rewrite omap_app.
    + intros t r x Hr Hx. destruct (F10 t r x Hr Hx) as (h0 & Hh0 & Hok & Hit & Hwh). exists h0. split_and!; try done.
      destruct Hwh as [?|(d0 & Hd0 & Hf0)]; [by left|right]. exists d0. split; [|done]. rewrite Hl in Hd0.
      apply elem_of_app in Hd0 as [Hd0|Hd0]; [by apply elem_of_app; left|]. apply elem_of_cons in Hd0 as [->|Hd0]; [congruence|]. by apply elem_of_app; right.
    + intros t r x Hr Hx. by apply (F11 t r x Hr), Hsub.
Qed.

Lemma reachable_inv s : reachable qsort junk s -> inv s.
Proof.
  induction 1 as [o|s s' _ IH Hstep].
  - split; cbn; try done; try (intros; by rewrite lookup_empty in *); try (by intros ? [? ?]); try (by intros ? ?%elem_of_nil); try set_solver.
    constructor.
  - destruct Hstep as [name f c p u r w w' rs E|name f c r w w' rs E|t hp r w rs E1 E2|t r r' b w rs E1 E2 E3|t r w rs E1 E2|l1 d l2 w w' rs E1 E2 E3].
    + by eapply register_inv.
    + by eapply unregister_inv.
    + by eapply begin_inv.
    + by eapply call_inv.
    + by apply end_inv.
    + destruct (reclaim_ok w rs l1 d l2 IH E1 E2) as (_ & w2 & E4 & Hi). rewrite E3 in E4. by injection E4 as <-.
Qed.

(** ** The theorems *)

(** The items of the hook with this name. *)
Definition hook_items w (name : list Z) : list ph_hook_item :=
  from_option (fun hp => from_option (items_at w) [] (points w !! hp)) [] (hook_hash w !! name).

Lemma hook_items_at w name hp o : hook_hash w !! name = Some hp -> points w !! hp = Some o -> hook_items w name = items_at w o.
Proof. intros H1 H2. unfold hook_items. rewrite H1. cbn. by rewrite H2. Qed.

Lemma hook_items_oracle o w name : hook_items (set_oracle o w) name = hook_items w name.
Proof. done. Qed.

(** Replacing the head of one point changes the items of its name only. *)
Lemma hook_items_swap w rs name hp old h ds :
  inv (System w rs) -> hook_hash w !! name = Some hp -> points w !! hp = Some old ->
  hook_items (swap hp h ds w) name = head_items h /\ forall n, n <> name -> hook_items (swap hp h ds w) n = hook_items w n.
Proof.
  intros Hi Hn Hp. split.
  - erewrite (hook_items_at _ name hp); [|exact Hn|cbn; apply lookup_insert_eq]. cbn. by rewrite lookup_insert_eq.
  - intros n Hne. unfold hook_items. cbn [swap set_deferred set_points set_heads set_hfresh hook_hash points].
    destruct (hook_hash w !! n) as [q|] eqn:En; [|done]. cbn [from_option].
    assert (q <> hp) as Hq by (intros ->; by apply Hne, (iv_names _ Hi n name hp)). rewrite lookup_insert_ne by done.
    destruct (points w !! q) as [[b|]|] eqn:Eq; [|done|done]. cbn. rewrite lookup_insert_ne; [done|]. intros <-.
    destruct (iv_head _ Hi q _ Eq) as (h0 & Hb & _). pose proof (iv_fresh _ Hi _ ltac:(by eexists)) as Hlt. cbn in Hlt. lia.
Qed.

(** Creating a point changes no items. *)
Lemma hook_items_get w rs name hp w' :
  inv (System w rs) -> ph_hook_point_get name true w = Ret (hp, w') -> forall n, hook_items w' n = hook_items w n.
Proof.
  intros Hi E. destruct (point_get_ok w rs name Hi) as (r & w1 & E1 & Hi1 & Hh & _ & _ & _ & Hr & Hp). rewrite E in E1. injection E1 as <- <-.
  intros n. unfold hook_items. assert (forall o, items_at w' o = items_at w o) as Hit by (intros [b|]; [cbn; by rewrite Hh|done]).
  destruct (hook_hash w' !! n) as [q|] eqn:Eq.
  - destruct hp as [hp|]; [|destruct Hr as (Hha & _); rewrite Hha in Eq; rewrite Eq; cbn;
      destruct (iv_hash _ Hi n q Eq) as [x Hx]; cbn in Hx; rewrite Hx, (Hp q x Hx); apply Hit].
    destruct Hr as [_ [[_ ->]|(Hnone & o & -> & ->)]]; [by rewrite Eq|]. cbn in Eq. destruct (decide (n = name)) as [->|Hne].
    + rewrite lookup_insert_eq in Eq. injection Eq as <-. rewrite Hnone. cbn. by rewrite lookup_insert_eq.
    + rewrite lookup_insert_ne in Eq by done. rewrite Eq. cbn. destruct (iv_hash _ Hi n q Eq) as [x Hx]. cbn in Hx. rewrite Hx.
      apply Hp in Hx. cbn in Hx. rewrite Hx. apply Hit.
  - destruct hp as [hp|]; [|destruct Hr as (Hha & _); rewrite Hha in Eq; by rewrite Eq].
    destruct Hr as [_ [[_ ->]|(Hnone & o & -> & ->)]]; [by rewrite Eq|]. cbn in Eq. apply lookup_insert_None in Eq as [Eq _]. by rewrite Eq.
Qed.

Lemma hook_mem_plenty w : oracle w = [] -> mem_ok w = Ret (true, w).
Proof. intros H. unfold mem_ok. by rewrite H. Qed.

(** With memory the point is there, and there is still memory. *)
Lemma point_get_oracle w name : oracle w = [] -> forall hp w', ph_hook_point_get name true w = Ret (hp, w') -> is_Some hp /\ oracle w' = [].
Proof.
  intros H hp w'. unfold ph_hook_point_get. unfold get_read at 1. step. destruct (hook_hash w !! name) as [q|] eqn:En; [by intros [= <- <-]|].
  unfold get_write, get_read. step. rewrite En. step_with (hook_mem_plenty w H). step. step.
  erewrite bind_ret by (by apply hook_mem_plenty). cbv beta iota. by intros [= <- <-].
Qed.

Lemma hook_register_ok w rs name f c p u :
  inv (System w rs) ->
  exists r w', ph_hook_register qsort junk name f c p u w = Ret (r, w') /\ inv (System w' rs) /\
    (r = PH_ERR /\ (forall n, hook_items w' n = hook_items w n) \/
     r = PH_OK /\ (forall n, n <> name -> hook_items w' n = hook_items w n) /\
       (zlen (hook_items w name) < 65535 -> hook_items w' name = qsort compare_item (hook_items w name ++ [Item c f p u])) /\
       (zlen (hook_items w name) = 65535 -> hook_items w' name = [])) /\
    (oracle w = [] -> r = PH_OK).
Proof.
  intros Hi. assert (exists x, ph_hook_register qsort junk name f c p u w = x) as [x Ex] by (by eexists). pose proof Ex as Ex2. unfold ph_hook_register in Ex.
  destruct (point_get_ok w rs name Hi) as (hp & w1 & E & Hi1 & _ & _ & _ & _ & Hr & _). pose proof (hook_items_get w rs name hp w1 Hi E) as Hit.
  rewrite (bind_ret _ _ _ _ _ E) in Ex. destruct hp as [hp|]; cbn [with_point] in Ex.
  2:{ subst x. exists PH_ERR, w1. split; [done|]. split; [done|]. split; [by left|]. destruct Hr as (_ & _ & Hf). intros Ho. rewrite Ho in Hf. by apply elem_of_nil in Hf. }
  destruct (iv_hash _ Hi1 name hp (proj1 Hr)) as [old Hp]. cbn in Hp. pose proof (hook_items_at w1 name hp old (proj1 Hr) Hp) as Hat.
  destruct (register_ok w1 hp old f c p u (inv_point_ok _ _ _ _ Hi1 Hp)) as (r1 & w2 & E2 & Hcase). rewrite E2 in Ex. subst x.
  exists r1, w2. split; [done|]. split; [exact (register_inv _ _ _ _ _ _ _ _ _ Hi Ex2)|]. split.
  - destruct Hcase as [(-> & _ & o & ->)|(-> & o & h & -> & Hh & Hs & Hz)]; [left|right].
    + split; [done|]. exact Hit.
    + destruct (hook_items_swap w1 rs name hp old h (match old with Some b => [Deferred (FreeHead b) b (active w1)] | None => [] end) Hi1 (proj1 Hr) Hp) as [S1 S2].
      split; [done|]. rewrite !hook_items_oracle, S1, <- (Hit name), Hat. split; [|split; [done|]].
      * intros n Hn. by rewrite hook_items_oracle, S2, Hit.
      * intros Hl. unfold head_items. by rewrite (Hz Hl).
  - intros Ho. destruct Hcase as [(-> & [Hf _])|(-> & _)]; [|done]. assert (oracle w1 = []) as Ho1.
    { destruct Hr as [_ [[_ ->]|(_ & o & -> & _)]]; [done|]. destruct (point_get_oracle w name Ho _ _ E) as [_ ->]. done. }
    rewrite Ho1 in Hf. by apply elem_of_nil in Hf.
Qed.

(** C13. Registering a handler under a name, which creates the hook if needed, adds
    exactly it and keeps the handlers in ascending order of priority, and of
    function and closure among equals, if their addresses are within 2 GiB; no
    other hook changes, and without memory nothing does. *)
Theorem hook_register_sorted w rs name f c p u :
  inv (System w rs) -> zlen (hook_items w name) < 65535 -> near (hook_items w name ++ [Item c f p u]) ->
  exists r w', ph_hook_register qsort junk name f c p u w = Ret (r, w') /\ inv (System w' rs) /\
    (r = PH_ERR /\ (forall n, hook_items w' n = hook_items w n) \/
     r = PH_OK /\ (forall n, n <> name -> hook_items w' n = hook_items w n) /\
       hook_items w' name ≡ₚ hook_items w name ++ [Item c f p u] /\ StronglySorted item_le (hook_items w' name)) /\
    (oracle w = [] -> r = PH_OK).
Proof.
  intros Hi Hl Hn. destruct (hook_register_ok w rs name f c p u Hi) as (r & w' & E & Hi' & Hc & Ho). exists r, w'.
  split; [done|]. split; [done|]. split; [|done]. destruct Hc as [?|(-> & H1 & H2 & _)]; [by left|right]. split; [done|]. split; [done|].
  rewrite (H2 Hl). split; [apply qs_perm|by apply qsort_near].
Qed.

(** The number of handlers has 16 bits: registering one more than 65535 loses
    all of them. *)
Theorem hook_count_wraps w rs name f c p u :
  inv (System w rs) -> zlen (hook_items w name) = 65535 -> oracle w = [] ->
  exists w', ph_hook_register qsort junk name f c p u w = Ret (PH_OK, w') /\ hook_items w' name = [].
Proof.
  intros Hi Hl Ho. destruct (hook_register_ok w rs name f c p u Hi) as (r & w' & E & _ & Hc & Hok). rewrite (Hok Ho) in *. exists w'.
  split; [done|]. destruct Hc as [[? _]|(_ & _ & _ & Hz)]; [done|by apply Hz].
Qed.

(** Unregistering removes the first handler with the function and the closure
    and nothing else, and defers freeing the old head and one call of its
    unregister function; it is refused without a change when there is no such
    handler or no memory. *)
Theorem hook_unregister_removes w rs name f c :
  inv (System w rs) ->
  exists r w', ph_hook_unregister junk name f c w = Ret (r, w') /\ inv (System w' rs) /\
    (r = PH_ERR /\ (forall n, hook_items w' n = hook_items w n) /\ deferred w' = deferred w /\
       (oracle w = [] -> Forall (fun i => ~ matches f c i) (hook_items w name)) \/
     r = PH_OK /\ (forall n, n <> name -> hook_items w' n = hook_items w n) /\
       exists l1 i l2 b, hook_items w name = l1 ++ i :: l2 /\ matches f c i /\ hook_items w' name = l1 ++ l2 /\
         deferred w' = deferred w ++ removal w b i).
Proof.
  intros Hi. assert (exists x, ph_hook_unregister junk name f c w = x) as [x Ex] by (by eexists). pose proof Ex as Ex2. unfold ph_hook_unregister in Ex.
  destruct (point_get_ok w rs name Hi) as (hp & w1 & E & Hi1 & _ & Hde & Hac & _ & Hr & _). pose proof (hook_items_get w rs name hp w1 Hi E) as Hit.
  rewrite (bind_ret _ _ _ _ _ E) in Ex. destruct hp as [hp|]; cbn [with_point] in Ex.
  2:{ subst x. exists PH_ERR, w1. split; [done|]. split; [done|]. left. split_and!; try done. intros Ho. destruct (point_get_oracle w name Ho _ _ E) as [[? ?] _]. done. }
  destruct (iv_hash _ Hi1 name hp (proj1 Hr)) as [old Hp]. cbn in Hp. pose proof (hook_items_at w1 name hp old (proj1 Hr) Hp) as Hat.
  destruct (unregister_ok w1 hp old f c (inv_point_ok _ _ _ _ Hi1 Hp)) as (r1 & w2 & E2 & Hcase). rewrite E2 in Ex. subst x.
  exists r1, w2. split; [done|]. split; [exact (unregister_inv _ _ _ _ _ _ _ Hi Ex2)|].
  destruct Hcase as [(-> & [(Hf & o & ->)|(-> & Hno)])|(-> & o & h & b & l1 & i & l2 & -> & Hh & -> & Hl & Hm & _ & Hh2)].
  - left. split_and!; try done. intros Ho. destruct (point_get_oracle w name Ho _ _ E) as [_ Ho1]. rewrite Ho1 in Hf. by apply elem_of_nil in Hf.
  - left. split_and!; try done. intros _. by rewrite <- Hit, Hat.
  - right. split; [done|]. destruct (hook_items_swap w1 rs name hp (Some b) h (removal w1 b i) Hi1 (proj1 Hr) Hp) as [S1 S2]. split.
    + intros n Hn. by rewrite hook_items_oracle, S2, Hit.
    + exists l1, i, l2, b. rewrite hook_items_oracle, S1, <- (Hit name), Hat. split_and!; try done. cbn. unfold removal. by rewrite Hde, Hac.
Qed.

(** C12. In every state that interleaved registrations, unregistrations, invocations
    and deferred calls can reach, an invocation accesses only memory that has
    not been freed and has called the items of the head it loaded in their
    order, each once; a deferred call that waits for nobody runs without an
    error, frees nothing twice, and happens when no invocation walks over the
    replaced head any more. *)
Theorem hook_invocations_safe s :
  reachable qsort junk s ->
  (forall t r stopped, readers s !! t = Some r ->
    reader_ok r /\ exists r', reader_step (world_ s) r stopped = Ret r' /\ reader_ok r' /\ r_items r' = r_items r /\
      (r_done r' = true -> stopped = true \/ r_n r' = zlen (r_items r') \/ r_head r = None)) /\
  (forall l1 d l2, deferred (world_ s) = l1 ++ d :: l2 -> d_wait d = ∅ ->
    (forall t r, readers s !! t = Some r -> r_head r <> Some (d_head d)) /\
    exists w', run_deferred (d_what d) (set_deferred (l1 ++ l2) (world_ s)) = Ret (tt, w')).
Proof.
  intros H. apply reachable_inv in H. destruct s as [w rs]. split.
  - intros t r stopped Hr. split; [by apply (iv_calls _ H t r)|].
    destruct (reader_step_ok w rs t r stopped H Hr) as (r' & E & _ & Hit & Hok & Hd). by exists r'.
  - intros l1 d l2 Hl Hd. destruct (reclaim_ok w rs l1 d l2 H Hl Hd) as (Hno & w' & E & _). split; [done|by exists w'].
Qed.

(** A thread that found no hook and waited for the write lock gets the hook
    another thread has created meanwhile. *)
Theorem hook_point_race w name hp w1 w2 :
  get_write name w = Ret (Some hp, w1) -> hook_hash w2 = hook_hash w1 -> get_write name w2 = Ret (Some hp, w2).
Proof.
  intros H1 H2. unfold get_write, get_read. step. rewrite H2. assert (hook_hash w1 !! name = Some hp) as ->; [|done].
  revert H1. unfold get_write, get_read. step. destruct (hook_hash w !! name) as [q|] eqn:En; [intros [= <- <-]; done|].
  destruct (mem_ok_eq w) as (ok & o & Em & _). step_with Em. destruct ok; [|done]. step. step.
  match goal with |- context [bind mem_ok _ ?x] => destruct (mem_ok_eq x) as (ok2 & o2 & Em2 & _) end. erewrite bind_ret by exact Em2. cbv beta.
  destruct ok2; [|done]. intros [= <- <-]. cbn. apply lookup_insert_eq.
Qed.

Lemma invoke_loop_ok call fuel : forall b n args w h,
  (forall f c w1, exists st w2, call f c args w1 = Ret (st, w2) /\ heads w1 ⊆ heads w2) ->
  heads w !! b = Some h -> head_ok h -> 0 <= n -> (Z.to_nat (nitems h - n) < fuel)%nat ->
  exists w', invoke_loop call fuel b n args w = Ret (tt, w').
Proof.
  induction fuel as [|fuel IH]; intros b n args w h Hcall Hb Hok Hn Hf; [lia|]. cbn [invoke_loop]. step_with (load_head_eq w b h Hb).
  case_bool; zbool; [|by exists w]. destruct Hok as [Ho1 Ho2].
  assert (exists i, items h !! Z.to_nat n = Some i) as [i Hi] by (apply lookup_lt_is_Some; lia).
  rewrite Hi. step. destruct (Hcall (func i) (closure i) w) as (st & w2 & Ec & Hsub). step_with Ec. destruct st; [by exists w2|].
  apply (IH b (n + 1) args w2 h Hcall); [by eapply lookup_weaken|done|lia|lia].
Qed.

(** An invocation returns for all handlers that return and free no head,
    whatever they register or unregister meanwhile. *)
Theorem hook_invoke_returns call w rs hp args o :
  inv (System w rs) -> points w !! hp = Some o ->
  (forall f c w1, exists st w2, call f c args w1 = Ret (st, w2) /\ heads w1 ⊆ heads w2) ->
  exists w', ph_hook_invoke_inner call hp args w = Ret (tt, w').
Proof.
  intros Hi Hp Hcall. unfold ph_hook_invoke_inner. step_with (load_point_eq w hp o Hp). destruct o as [b|]; [|by exists w].
  destruct (iv_head _ Hi hp b Hp) as (h & Hb & Hok). step_with (load_head_eq w b h Hb). apply (invoke_loop_ok call _ b 0 args w h); try done; lia.
Qed.

End proofs.

(** ** A sort, and examples *)

Fixpoint ins (cmp : ph_hook_item -> ph_hook_item -> Z) (a : ph_hook_item) (l : list ph_hook_item) : list ph_hook_item :=
  match l with
  | [] => [a]
  | b :: l' => if cmp a b <=? 0 then a :: l else b :: ins cmp a l'
  end.
Fixpoint isort (cmp : ph_hook_item -> ph_hook_item -> Z) (l : list ph_hook_item) : list ph_hook_item :=
  match l with [] => [] | a :: l => ins cmp a (isort cmp l) end.

Lemma ins_perm cmp a l : ins cmp a l ≡ₚ a :: l.
Proof. induction l as [|b l IH]; cbn; [done|]. case_bool; [done|]. rewrite IH. constructor. Qed.

Lemma isort_perm cmp l : isort cmp l ≡ₚ l.
Proof. induction l as [|a l IH]; cbn; [done|]. by rewrite ins_perm, IH. Qed.

Lemma ins_sorted cmp a l :
  (forall x y, x ∈ a :: l -> y ∈ a :: l -> cmp x y <= 0 \/ cmp y x <= 0) ->
  (forall x y z, x ∈ a :: l -> y ∈ a :: l -> z ∈ a :: l -> cmp x y <= 0 -> cmp y z <= 0 -> cmp x z <= 0) ->
  StronglySorted (fun x y => cmp x y <= 0) l -> StronglySorted (fun x y => cmp x y <= 0) (ins cmp a l).
Proof.
  intros Ht Htr Hs. induction Hs as [|b l Hs IH Hall]; cbn; [by repeat constructor|]. rewrite Forall_forall in Hall. case_bool; zbool.
  - constructor; [by constructor; [|apply Forall_forall]|]. constructor; [done|]. apply Forall_forall. intros x Hx.
    apply (Htr a b x); [by left|by right; left|by right; right|done|by apply Hall].
  - constructor.
    + apply IH; intros; [apply Ht|eapply Htr]; try done; set_solver.
    + apply Forall_forall. intros x Hx. rewrite ins_perm in Hx. apply elem_of_cons in Hx as [->|Hx]; [|by apply Hall].
      destruct (Ht b a); [by right; left|by left|done|lia].
Qed.

#[export] Instance isort_ok : qsort_ok isort.
Proof.
  split; [apply isort_perm|]. intros cmp l Ht Htr. induction l as [|a l IH]; cbn; [constructor|].
  assert (forall x, x ∈ a :: isort cmp l -> x ∈ a :: l) as Hin by (intros x; by rewrite isort_perm).
  apply ins_sorted.
  - intros x y Hx Hy. apply Ht; by apply Hin.
  - intros x y z Hx Hy Hz. apply Htr; by apply Hin.
  - apply IH; intros; [apply Ht|eapply Htr]; try done; by right.
Qed.

Definition junk_item : ph_hook_item := Item 0 0 0 None.
Definition demo_start : hworld := HWorld ∅ ∅ ∅ 1 ∅ [] [] [].

(** The hook "h" with two items. *)
Definition demo_name : list Z := [104].
Definition run {A} (c : M hworld A) (w : hworld) : hworld := match c w with Ret (_, w) => w | _ => w end.
Definition demo_first : hworld := run (ph_hook_register isort junk_item demo_name 200 2 (-3) None) demo_start.
Definition demo_hooks : hworld := run (ph_hook_register isort junk_item demo_name 100 1 5 (Some 9)) demo_first.

Lemma demo_hooks_reachable : reachable isort junk_item (System demo_hooks ∅).
Proof.
  apply (reach_step _ _ (System demo_first ∅)); [apply (reach_step _ _ (System demo_start ∅)); [apply reach_start|]|].
  - apply (step_register _ _ demo_name 200 2 (-3) None PH_OK). vm_compute. reflexivity.
  - apply (step_register _ _ demo_name 100 1 5 (Some 9) PH_OK). vm_compute. reflexivity.
Qed.

Lemma demo_hooks_inv : inv (System demo_hooks ∅).
Proof. apply (reachable_inv isort junk_item), demo_hooks_reachable. Qed.

Lemma demo_items : hook_items demo_hooks demo_name = [Item 2 200 (-3) None; Item 1 100 5 (Some 9)].
Proof. reflexivity. Qed.

Lemma hook_register_sorted_witness :
  exists r w', ph_hook_register isort junk_item demo_name 150 7 0 None demo_hooks = Ret (r, w') /\
    hook_items w' demo_name = [Item 2 200 (-3) None; Item 7 150 0 None; Item 1 100 5 (Some 9)].
Proof.
  destruct (hook_register_sorted isort junk_item demo_hooks ∅ demo_name 150 7 0 None demo_hooks_inv) as (r & w' & E & _).
  - vm_compute. reflexivity.
  - rewrite demo_items. intros a b Ha Hb. repeat (apply elem_of_cons in Ha as [->|Ha]); try (by apply elem_of_nil in Ha);
      repeat (apply elem_of_cons in Hb as [->|Hb]); try (by apply elem_of_nil in Hb); cbn; lia.
  - exists r, w'. split; [exact E|]. revert E. vm_compute. intros E. injection E as <- <-. reflexivity.
Defined.

Lemma hook_unregister_removes_witness :
  exists r w', ph_hook_unregister junk_item demo_name 100 1 demo_hooks = Ret (r, w') /\ hook_items w' demo_name = [Item 2 200 (-3) None].
Proof.
  destruct (hook_unregister_removes junk_item demo_hooks ∅ demo_name 100 1 demo_hooks_inv) as (r & w' & E & _).
  exists r, w'. split; [exact E|]. revert E. vm_compute. intros E. injection E as <- <-. reflexivity.
Defined.

(** A thread has called the first item when the second is unregistered: the old
    head is still there for it. *)
Definition demo_reader : reader := Reader (Some 3%positive) [Item 2 200 (-3) None; Item 1 100 5 (Some 9)] 1 [(200, 2)] false.
Definition demo_begun : reader := Reader (Some 3%positive) [Item 2 200 (-3) None; Item 1 100 5 (Some 9)] 0 [] false.
Definition demo_race : system :=
  System (run (ph_hook_unregister junk_item demo_name 100 1) (set_active {[0%nat]} demo_hooks)) {[0%nat := demo_reader]}.

Lemma demo_race_reachable : reachable isort junk_item demo_race.
Proof.
  apply (reach_step _ _ (System (set_active {[0%nat]} demo_hooks) {[0%nat := demo_reader]}));
    [|apply (step_unregister _ _ demo_name 100 1 PH_OK); vm_compute; reflexivity].
  apply (reach_step _ _ (System (set_active {[0%nat]} demo_hooks) {[0%nat := demo_begun]})).
  - apply (reach_step _ _ (System demo_hooks ∅)); [apply demo_hooks_reachable|].
    change (set_active {[0%nat]} demo_hooks) with (set_active ({[0%nat]} ∪ active demo_hooks) demo_hooks).
    apply (step_begin _ _ 0%nat 1%positive); [done|vm_compute; reflexivity].
  - assert ({[0%nat := demo_reader]} = <[0%nat := demo_reader]> ({[0%nat := demo_begun]} : gmap nat reader)) as -> by reflexivity.
    apply (step_call _ _ 0%nat demo_begun demo_reader false); [reflexivity|reflexivity|vm_compute; reflexivity].
Qed.

Lemma hook_invocations_safe_witness :
  exists r', reader_step (world_ demo_race) demo_reader false = Ret r' /\ reader_ok r' /\ r_items r' = r_items demo_reader.
Proof.
  destruct (hook_invocations_safe isort junk_item demo_race demo_race_reachable) as [H _].
  destruct (H 0%nat demo_reader false eq_refl) as (_ & r' & E & Hok & Hi & _). exists r'. split; [exact E|]. split; [exact Hok|exact Hi].
Defined.

(** The comparison cuts the difference of addresses to 32 bits: three handlers
    with distant closures are each before the next. *)
Theorem hook_order_cyclic :
  let a := Item 0 1 0 None in let b := Item 0x60000000 1 0 None in let c := Item 0xC0000000 1 0 None in
  compare_item a b < 0 /\ compare_item b c < 0 /\ 0 < compare_item a c.
Proof. vm_compute. done. Qed.

(** Creating a hook by its C name uses the string object without testing that it
    was allocated. *)
Theorem hook_cstr_no_memory name w o : oracle w = false :: o -> ph_hook_point_get_cstr name true w = Fault.
Proof. intros H. unfold ph_hook_point_get_cstr, mem_ok, bind. by rewrite H. Qed.

End HookProofs.
