(* ===== verification/ConfigQuery.v ===== *)
(** * Queries with a format (config.c)

    [ph_config_queryf_int] prints its query into a buffer on the stack with
    [ph_vsnprintf] and asks [ph_config_query_int]. *)

From Stdlib Require Import ZArith Lia.
From stdpp Require Import base numbers list gmap strings.
From S2P Require Import Prelude SysUtil PhString HashTable HashTableProofs StringKeys Variant VariantProofs VariantOps VariantGrow.
From S2P Require Import JsonLoad JsonDump JsonRoundTrip VarPath Config Printf PrintfProofs PPrintf PPrintfProofs.

Module ConfigQuery.
Import PPrintfProofs Config.

(** The C string at the start of a block. *)
Definition c_string (mem : list Z) : option (list Z) := n ← strlen mem; Some (take (Z.to_nat n) mem).

Section queryf.
Context {X : Type} {env : var_env X} {V : Type}.
Context (kstr : list Z -> positive) (strdup_ok : bool).
Context {D MB : Type} (mbrtowc : list Z -> MB -> Z * Z * MB) (mb0 : MB).
Context (dtoa : D -> Z -> Z -> option (list Z * Z * bool)) (strerror : Z -> list Z) (pagesize : Z) (mmap_ok : bool).
Context (forms : list Z -> option (Z -> M fixed_buf Z)).

Definition EXPANDED : Z := 1024.

(** [stack] is what the buffer holds before; variables of %n are not looked at
    again. *)
Definition ph_config_queryf_int (fuel : nat) (stack : list Z) (defval : Z) (query : list Z) (ap : list (va_t D)) : M (@cworld X V) Z :=
  match ph_vsnprintf mbrtowc mb0 dtoa strerror pagesize mmap_ok forms fuel stack 0 EXPANDED query ap ∅ with
  | Ret (len, (b, _)) =>
      if EXPANDED - 1 <=? u32 len then panic
      else expanded <-- of_option (c_string (fb_mem b)) ;; ph_config_query_int kstr strdup_ok expanded defval
  | Panic => panic
  | Fault => fault
  end.
End queryf.

Section proofs.
Context {X : Type} {env : var_env X} {V : Type}.
Context (kstr : list Z -> positive) (strdup_ok : bool) (Hkstr : forall k, contents_of (kstr k) = k).
Context {D MB : Type} (mbrtowc : list Z -> MB -> Z * Z * MB) (mb0 : MB) `{Hmb : !ascii_locale mbrtowc mb0}.
Context (dtoa : D -> Z -> Z -> option (list Z * Z * bool)) (strerror : Z -> list Z) (pagesize : Z) (mmap_ok : bool).
Context (forms : list Z -> option (Z -> M fixed_buf Z)).

Lemma dec_digits_nonzero fuel : forall n, 0 <= n -> Forall (fun b => b <> 0) (JsonDump.dec_digits fuel n).
Proof.
  induction fuel as [|fuel IH]; intros n Hn; cbn [JsonDump.dec_digits]; [constructor|]. case_bool; zbool; [by repeat constructor; lia|].
  apply Forall_app. split; [apply IH; apply Z.div_pos; lia|]. constructor; [|done]. pose proof (Z.mod_pos_bound n 10). lia.
Qed.

Lemma steps_nonzero steps : Forall VarPath.step_ok steps -> Forall (fun b => b <> 0) (VarPath.steps_text steps).
Proof.
  unfold VarPath.steps_text. induction 1 as [|st steps Hst _ IH]; [constructor|]. cbn. apply Forall_app. split; [|done].
  destruct st as [k|i]; cbn [VarPath.step_text].
  - destruct Hst as [_ Hk]. constructor; [done|]. eapply Forall_impl; [exact Hk|]. by intros b (H & _).
  - constructor; [done|]. apply Forall_app. split; [|by repeat constructor].
    apply dec_digits_nonzero. apply Hst.
Qed.

(** C28. A query with a format is expanded into a buffer and answered with the
    integer that the expanded path selects in the configuration, or the default. *)
Theorem config_queryf_expands k fuel stack f la o w gl roots (t : tree V) steps defval :
  formats (D := D) true k f la o -> (k <= fuel)%nat -> zlen o < EXPANDED - 1 -> zlen stack = EXPANDED ->
  config_ok (CWorld w gl) roots t -> path_ok strdup_ok o steps ->
  ph_config_queryf_int (env := env) kstr strdup_ok mbrtowc mb0 dtoa strerror pagesize mmap_ok forms fuel stack defval f la (CWorld w gl) =
    Ret (match VarPath.walk t steps with Some (TInt z) => z | _ => defval end, CWorld w gl).
Proof.
  intros Hf Hk Ho Hst Hc Hp. unfold ph_config_queryf_int, EXPANDED in *.
  destruct (snprintf_ok mbrtowc mb0 dtoa strerror pagesize mmap_ok forms k fuel stack 0 1024 f la o ∅ Hf) as (b & E & _ & Hb & _);
    [unfold INT_MAX; lia|done|lia|lia|lia|].
  rewrite E. rewrite (wrapU_small 32) by lia. rewrite (proj2 (Z.leb_gt _ _)) by lia.
  assert (c_string (fb_mem b) = Some o) as ->.
  { rewrite (take_ge o) in Hb by lia. change (Z.to_nat 0) with 0%nat in Hb. unfold slice in Hb. rewrite drop_0 in Hb.
    rewrite <- (take_drop (S (length o)) (fb_mem b)), Hb, <- app_assoc. unfold c_string. cbn [app].
    rewrite strlen_app; [cbn; by rewrite Nat2Z.id, take_app_length|]. rewrite (po_text _ _ _ Hp). constructor; [done|].
    apply steps_nonzero, Hp. }
  step. by apply (query_int_ok kstr strdup_ok Hkstr w gl roots t).
Qed.
End proofs.

(** "$[%d]" and 0: the first element of the array. *)
Definition demo_index : list Z := [36; 91] ++ dir_text (Dir [] [] None NoMod Cd) ++ [93].

Lemma demo_index_formats : formats (D := unit) true 2 demo_index [VaInt 0] demo_query.
Proof.
  apply (fo_dir true 1 [36; 91] (Dir [] [] None NoMod Cd) [VaInt 0] [48] [93] [] [93]).
  - repeat constructor; lia.
  - split; cbn; [constructor|split_and!; [constructor|done|by vm_compute]|done].
  - reflexivity.
  - apply fo_end. repeat constructor; lia.
Qed.

Lemma config_queryf_expands_witness :
  ph_config_queryf_int (env := demo_env) VarPath.demo_kstr true ascii_mbrtowc tt (fun (_ : unit) _ _ => None) (fun _ => []) 4096 true (fun _ => None)
    20 (replicate 1024 7) 99 demo_index [VaInt 0] demo_config = Ret (7, demo_config).
Proof.
  refine (config_queryf_expands (env := demo_env) VarPath.demo_kstr true VarPath.demo_kstr_ok ascii_mbrtowc tt (fun (_ : unit) _ _ => None)
    (fun _ => []) 4096 true (fun _ => None) 2 20 (replicate 1024 7) demo_index [VaInt 0] demo_query demo_world (Some 6%positive)
    [8; 7; 5]%positive JsonRoundTrip.demo_array [VarPath.SIndex 0] 99 demo_index_formats _ _ _ demo_config_ok demo_path);
    [lia|by vm_compute|by vm_compute].
Defined.
End ConfigQuery.
