(* ===== verification/Pool.v ===== *)
(** * Thread pools (job.c, job.h)

    A pool has a ring per preferred thread and one that the other threads
    share; producers enqueue jobs, workers look through the rings and sleep when
    they find nothing.  [do_set_pool] and [pop_job] are the whole functions, with
    the time spent asleep as an argument; [step] interleaves producers and
    workers, a ring operation or a counter at a time.  The counters are integers
    without a width; a ring's initialization is one step, as under the lock of
    the shared ring, and a producer's thread is any thread (a callback's too). *)

From Stdlib Require Import ZArith Lia.
From stdpp Require Import base numbers list gmap.
From S2P Require Import Prelude SysUtil.

Module Pool.

Definition MAX_RINGS : nat := 63.

(** The rings of concurrency kit: bounded queues. *)
Class ck_ring := {
  ring : Type;
  ck_ring_init : Z -> ring;
  ck_ring_enqueue_spmc : ring -> Z -> option ring;
  ck_ring_dequeue_spmc : ring -> option (Z * ring);
  ring_items : ring -> list Z;
  ring_size : ring -> Z;
}.

Section pool.
Context `{CR : ck_ring}.

(** [struct ph_thread_pool]: [rings] has the rings whose buffer is allocated,
    [used_rings] is a set of 64 bits; each wait has the number of threads waiting
    and the counter of its futex.  [run_loop] is [_ph_run_loop]. *)
Record ph_thread_pool := TPool {
  rings : gmap nat ring;
  used_rings : Z;
  max_queue_len : Z;
  c_waiting : Z;
  c_fut : Z;
  p_waiting : Z;
  p_fut : Z;
  stop : bool;
  num_workers : Z;
  disp : Z;
  consumer_sleep : Z;
  producer_sleep : Z;
  num_pending : Z;
  run_loop : bool;
}.
Definition set_rings x p := TPool x (used_rings p) (max_queue_len p) (c_waiting p) (c_fut p) (p_waiting p) (p_fut p) (stop p) (num_workers p) (disp p) (consumer_sleep p) (producer_sleep p) (num_pending p) (run_loop p).
Definition set_used x p := TPool (rings p) x (max_queue_len p) (c_waiting p) (c_fut p) (p_waiting p) (p_fut p) (stop p) (num_workers p) (disp p) (consumer_sleep p) (producer_sleep p) (num_pending p) (run_loop p).
Definition set_cwait w f p := TPool (rings p) (used_rings p) (max_queue_len p) w f (p_waiting p) (p_fut p) (stop p) (num_workers p) (disp p) (consumer_sleep p) (producer_sleep p) (num_pending p) (run_loop p).
Definition set_pwait w f p := TPool (rings p) (used_rings p) (max_queue_len p) (c_waiting p) (c_fut p) w f (stop p) (num_workers p) (disp p) (consumer_sleep p) (producer_sleep p) (num_pending p) (run_loop p).
Definition set_stop x p := TPool (rings p) (used_rings p) (max_queue_len p) (c_waiting p) (c_fut p) (p_waiting p) (p_fut p) x (num_workers p) (disp p) (consumer_sleep p) (producer_sleep p) (num_pending p) (run_loop p).
Definition set_workers x p := TPool (rings p) (used_rings p) (max_queue_len p) (c_waiting p) (c_fut p) (p_waiting p) (p_fut p) (stop p) x (disp p) (consumer_sleep p) (producer_sleep p) (num_pending p) (run_loop p).
Definition count_disp n p := TPool (rings p) (used_rings p) (max_queue_len p) (c_waiting p) (c_fut p) (p_waiting p) (p_fut p) (stop p) (num_workers p) (disp p + n) (consumer_sleep p) (producer_sleep p) (num_pending p) (run_loop p).
Definition count_csleep n p := TPool (rings p) (used_rings p) (max_queue_len p) (c_waiting p) (c_fut p) (p_waiting p) (p_fut p) (stop p) (num_workers p) (disp p) (consumer_sleep p + n) (producer_sleep p) (num_pending p) (run_loop p).
Definition count_psleep n p := TPool (rings p) (used_rings p) (max_queue_len p) (c_waiting p) (c_fut p) (p_waiting p) (p_fut p) (stop p) (num_workers p) (disp p) (consumer_sleep p) (producer_sleep p + n) (num_pending p) (run_loop p).
Definition count_pending n p := TPool (rings p) (used_rings p) (max_queue_len p) (c_waiting p) (c_fut p) (p_waiting p) (p_fut p) (stop p) (num_workers p) (disp p) (consumer_sleep p) (producer_sleep p) (num_pending p + n) (run_loop p).
Definition set_run x p := TPool (rings p) (used_rings p) (max_queue_len p) (c_waiting p) (c_fut p) (p_waiting p) (p_fut p) (stop p) (num_workers p) (disp p) (consumer_sleep p) (producer_sleep p) (num_pending p) x.

Abbreviation PM := (M ph_thread_pool).

Definition bucket_of (tid : nat) : nat := if (tid <? MAX_RINGS)%nat then tid else MAX_RINGS.

Definition init_ring (bucket : nat) (p : ph_thread_pool) : ph_thread_pool :=
  let ring_size := MAX 4 (ph_power_2 (max_queue_len p)) in
  set_used (u64 (Z.lor (used_rings p) (Z.shiftl 1 (Z.of_nat bucket))))
    (set_rings (<[bucket := ck_ring_init ring_size]> (rings p)) p).

(** [should_init_ring], and the initialization. *)
Definition need_ring (bucket : nat) (p : ph_thread_pool) : ph_thread_pool :=
  match rings p !! bucket with Some _ => p | None => init_ring bucket p end.

(** A ring whose buffer is not allocated is not used: [Fault]. *)
Definition enqueue (bucket : nat) (job : Z) : PM bool := fun p =>
  match rings p !! bucket with
  | None => Fault
  | Some r => match ck_ring_enqueue_spmc r job with
              | Some r => Ret (true, set_rings (<[bucket := r]> (rings p)) p)
              | None => Ret (false, p)
              end
  end.

Definition dequeue (bucket : nat) : PM (option Z) := fun p =>
  match rings p !! bucket with
  | None => Fault
  | Some r => match ck_ring_dequeue_spmc r with
              | Some (job, r) => Ret (Some job, set_rings (<[bucket := r]> (rings p)) p)
              | None => Ret (None, p)
              end
  end.

Definition wake_consumer (p : ph_thread_pool) : ph_thread_pool := set_cwait (c_waiting p) (c_fut p + 1) p.
Definition wake_producer (p : ph_thread_pool) : ph_thread_pool := set_pwait (p_waiting p) (p_fut p + 1) p.

(** [should_wake_pool] and [wake_pool] of the consumers. *)
Definition maybe_wake_consumer (p : ph_thread_pool) : ph_thread_pool := if c_waiting p =? 0 then p else wake_consumer p.
Definition maybe_wake_producer (p : ph_thread_pool) : ph_thread_pool := if p_waiting p =? 0 then p else wake_producer p.

(** ** The functions *)

(** [wait_pool]: what happens while the thread is asleep is [asleep], which says
    whether it was woken. *)
Definition wait_consumer (asleep : PM bool) : PM bool :=
  modify (fun p => set_cwait (c_waiting p + 1) (c_fut p) p) ;;;
  woke <-- asleep ;;
  modify (fun p => set_cwait (c_waiting p - 1) (c_fut p) p) ;;;
  ret woke.
Definition wait_producer (asleep : PM bool) : PM bool :=
  modify (fun p => set_pwait (p_waiting p + 1) (p_fut p) p) ;;;
  woke <-- asleep ;;
  modify (fun p => set_pwait (p_waiting p - 1) (p_fut p) p) ;;;
  ret woke.

(** [__builtin_ffsll], from 0 on. *)
Fixpoint ffs_from (n i : nat) (bits : Z) : option nat :=
  match n with
  | O => None
  | S n => if Z.testbit bits (Z.of_nat i) then Some i else ffs_from n (S i) bits
  end.
Definition ffsll (bits : Z) : option nat := ffs_from 64 0 bits.

Definition clear_bit (bits : Z) (i : nat) : Z := Z.ldiff bits (Z.shiftl 1 (Z.of_nat i)).

(** The loop over the other rings. *)
Fixpoint scan_rings (fuel : nat) (bits : Z) : PM (option Z) :=
  match fuel with
  | O => fault
  | S fuel =>
      match ffsll bits with
      | None => ret None
      | Some i =>
          job <-- dequeue i ;;
          match job with
          | Some job => ret (Some job)
          | None => scan_rings fuel (clear_bit bits i)
          end
      end
  end.

(** [pop_job] *)
Fixpoint pop_job (fuel : nat) (asleep : PM bool) (mybucket : nat) : PM (option Z) :=
  match fuel with
  | O => fault
  | S fuel =>
      job <-- dequeue mybucket ;;
      match job with
      | Some job => ret (Some job)
      | None =>
          p <-- get ;;
          job <-- scan_rings 65 (clear_bit (used_rings p) mybucket) ;;
          match job with
          | Some job => ret (Some job)
          | None =>
              modify (count_csleep 1) ;;;
              wait_consumer asleep ;;;
              p <-- get ;;
              if negb (run_loop p) then ret None else pop_job fuel asleep mybucket
          end
      end
  end.

(** The loops of [do_set_pool]; the two branches differ in the lock only. *)
Fixpoint enqueue_loop (fuel : nat) (asleep : PM bool) (bucket : nat) (job : Z) : PM unit :=
  match fuel with
  | O => fault
  | S fuel =>
      ok <-- enqueue bucket job ;;
      if (ok : bool) then ret tt
      else
        modify (count_psleep 1) ;;;
        wait_producer asleep ;;;
        enqueue_loop fuel asleep bucket job
  end.

Definition do_set_pool (fuel : nat) (asleep : PM bool) (tid : nat) (job : Z) : PM unit :=
  modify (count_pending 1) ;;;
  modify (need_ring (bucket_of tid)) ;;;
  enqueue_loop fuel asleep (bucket_of tid) job ;;;
  modify maybe_wake_consumer.

(** One round of the loop of [worker_thread]; [callback] runs a job.  The result
    says whether the loop goes on. *)
Definition worker_round (fuel : nat) (asleep : PM bool) (callback : Z -> PM unit) (my_bucket : nat) : PM bool :=
  p <-- get ;;
  if negb (run_loop p) then ret false
  else
    job <-- pop_job fuel asleep my_bucket ;;
    match job with
    | None => p <-- get ;; ret (negb (stop p))
    | Some job =>
        modify (count_pending (-1)) ;;;
        callback job ;;;
        modify (count_disp 1) ;;;
        modify maybe_wake_producer ;;;
        ret true
    end.

(** The end of [worker_thread]. *)
Definition worker_exit (p : ph_thread_pool) : ph_thread_pool := maybe_wake_consumer (set_workers (num_workers p - 1) p).

(** The loop of [worker_thread], and its end. *)
Fixpoint worker_loop (rounds fuel : nat) (asleep : PM bool) (callback : Z -> PM unit) (my_bucket : nat) : PM unit :=
  match rounds with
  | O => fault
  | S rounds =>
      go <-- worker_round fuel asleep callback my_bucket ;;
      if (go : bool) then worker_loop rounds fuel asleep callback my_bucket else modify worker_exit
  end.

Definition ph_thread_pool_signal_stop (p : ph_thread_pool) : ph_thread_pool := maybe_wake_consumer (set_stop true p).

(** ** Threads *)

(** Where a thread is.  A producer has counted its job ([PTry]), found the ring
    full ([PFull]), is about to sleep or asleep ([PInc], [PAsleep]), or has
    enqueued it ([PWake]).  A worker is at the top of its loop ([WTop]), in front
    of its own ring ([WOwn]), in the loop over the others ([WScan]), has found
    nothing ([WIdle]), is about to sleep or asleep ([WInc], [WAsleep]), has a job
    ([WGot]), is running it ([WRun]) or has left the loop ([WLeave]). *)
Inductive thread :=
  | PTry (b : nat) (job : Z)
  | PFull (b : nat) (job : Z)
  | PInc (b : nat) (job : Z)
  | PAsleep (b : nat) (job v : Z)
  | PWake
  | WTop (b : nat)
  | WOwn (b : nat)
  | WScan (b : nat) (bits : Z)
  | WIdle (b : nat)
  | WInc (b : nat)
  | WAsleep (b : nat) (v : Z)
  | WGot (b : nat) (job : Z)
  | WRun (b : nat) (job : Z)
  | WLeave.

(** The pool, its threads, and what has happened: the jobs submitted, the jobs
    that entered and left each ring, and those that were run. *)
Record system := System {
  pool : ph_thread_pool;
  threads : list thread;
  submitted : list Z;
  entered : list (nat * Z);
  left_ : list (nat * Z);
  ran : list Z;
}.

(** What a thread does next, without the history: the pool, the thread
    afterwards, and the job that entered or left a ring, or was run. *)
Inductive event := Quiet | Enter (b : nat) (job : Z) | Leave (b : nat) (job : Z) | Done (job : Z).

Inductive thread_step : ph_thread_pool -> thread -> event -> ph_thread_pool -> option thread -> Prop :=
  | ts_enqueue b j p p' : enqueue b j p = Ret (true, p') -> thread_step p (PTry b j) (Enter b j) p' (Some PWake)
  | ts_full b j p p' : enqueue b j p = Ret (false, p') -> thread_step p (PTry b j) Quiet (count_psleep 1 p') (Some (PFull b j))
  | ts_p_inc b j p : thread_step p (PFull b j) Quiet (set_pwait (p_waiting p + 1) (p_fut p) p) (Some (PInc b j))
  | ts_p_sleep b j p : thread_step p (PInc b j) Quiet p (Some (PAsleep b j (p_fut p)))
  | ts_p_woken b j v p : thread_step p (PAsleep b j v) Quiet (set_pwait (p_waiting p - 1) (p_fut p) p) (Some (PTry b j))
  | ts_p_wake p : thread_step p PWake Quiet (maybe_wake_consumer p) None
  | ts_top b p : run_loop p = true -> thread_step p (WTop b) Quiet p (Some (WOwn b))
  | ts_top_exit b p : run_loop p = false -> thread_step p (WTop b) Quiet p (Some WLeave)
  | ts_own b j p p' : dequeue b p = Ret (Some j, p') -> thread_step p (WOwn b) (Leave b j) p' (Some (WGot b j))
  | ts_own_none b p p' : dequeue b p = Ret (None, p') -> thread_step p (WOwn b) Quiet p' (Some (WScan b (clear_bit (used_rings p) b)))
  | ts_scan b bits i j p p' : ffsll bits = Some i -> dequeue i p = Ret (Some j, p') -> thread_step p (WScan b bits) (Leave i j) p' (Some (WGot b j))
  | ts_scan_none b bits i p p' : ffsll bits = Some i -> dequeue i p = Ret (None, p') -> thread_step p (WScan b bits) Quiet p' (Some (WScan b (clear_bit bits i)))
  | ts_scan_end b bits p : ffsll bits = None -> thread_step p (WScan b bits) Quiet (count_csleep 1 p) (Some (WIdle b))
  | ts_w_inc b p : thread_step p (WIdle b) Quiet (set_cwait (c_waiting p + 1) (c_fut p) p) (Some (WInc b))
  | ts_w_sleep b p : thread_step p (WInc b) Quiet p (Some (WAsleep b (c_fut p)))
  | ts_w_woken b v p : run_loop p = true -> thread_step p (WAsleep b v) Quiet (set_cwait (c_waiting p - 1) (c_fut p) p) (Some (WOwn b))
  | ts_w_halt b v p : run_loop p = false -> thread_step p (WAsleep b v) Quiet (set_cwait (c_waiting p - 1) (c_fut p) p)
      (Some (if stop p then WLeave else WTop b))
  | ts_exit p : thread_step p WLeave Quiet (worker_exit p) None
  | ts_got b j p : thread_step p (WGot b j) Quiet (count_pending (-1) p) (Some (WRun b j))
  | ts_run b j p : thread_step p (WRun b j) (Done j) (maybe_wake_producer (count_disp 1 p)) (Some (WTop b)).

Definition note (e : event) (p : ph_thread_pool) (ts : list thread) (s : system) : system :=
  match e with
  | Quiet => System p ts (submitted s) (entered s) (left_ s) (ran s)
  | Enter b j => System p ts (submitted s) (entered s ++ [(b, j)]) (left_ s) (ran s)
  | Leave b j => System p ts (submitted s) (entered s) (left_ s ++ [(b, j)]) (ran s)
  | Done j => System p ts (submitted s) (entered s) (left_ s) (ran s ++ [j])
  end.

(** A step of the system: a thread moves, a job is submitted, a worker starts, the
    pool or the process is told to stop. *)
Inductive step : system -> system -> Prop :=
  | step_thread l1 t l2 e p' t' s :
      threads s = l1 ++ t :: l2 -> thread_step (pool s) t e p' t' ->
      step s (note e p' (l1 ++ option_list t' ++ l2) s)
  | step_submit tid job s :
      step s (System (need_ring (bucket_of tid) (count_pending 1 (pool s))) (threads s ++ [PTry (bucket_of tid) job])
        (submitted s ++ [job]) (entered s) (left_ s) (ran s))
  | step_worker tid s :
      step s (System (need_ring (bucket_of tid) (set_workers (num_workers (pool s) + 1) (pool s))) (threads s ++ [WTop (bucket_of tid)])
        (submitted s) (entered s) (left_ s) (ran s))
  | step_signal s : step s (System (ph_thread_pool_signal_stop (pool s)) (threads s) (submitted s) (entered s) (left_ s) (ran s))
  | step_halt s : step s (System (set_run false (pool s)) (threads s) (submitted s) (entered s) (left_ s) (ran s)).

Definition new_pool (queue_len : Z) : ph_thread_pool := TPool ∅ 0 queue_len 0 0 0 0 false 0 0 0 0 0 true.

Inductive reachable (queue_len : Z) : system -> Prop :=
  | reach_start : reachable queue_len (System (new_pool queue_len) [] [] [] [] [])
  | reach_step s s' : reachable queue_len s -> step s s' -> reachable queue_len s'.

End pool.

(** ** Collectors *)

Definition MAX_COLLECTORS : Z := 128.

Record collectors := Collectors { next_collector_id : Z; collector_funcs : list (option Z) }.

Definition ph_job_collector_register (func : Z) : M collectors ph_result_t :=
  c <-- get ;;
  if MAX_COLLECTORS <=? next_collector_id c then ret PH_ERR
  else
    let slot := next_collector_id c in
    modify (fun c => Collectors (wrapU 8 (next_collector_id c + 1)) (collector_funcs c)) ;;;
    c <-- get ;;
    if MAX_COLLECTORS <=? next_collector_id c then ret PH_ERR
    else
      modify (fun c => Collectors (next_collector_id c) (<[Z.to_nat slot := Some func]> (collector_funcs c))) ;;;
      ret PH_OK.

(** The functions that are called; a null pointer is [Fault]. *)
Definition ph_job_collector_call : M collectors (list Z) :=
  c <-- get ;;
  match mapM (M := option) id (take (Z.to_nat (next_collector_id c)) (collector_funcs c)) with
  | Some l => ret l
  | None => fault
  end.

End Pool.
