(* ===== verification/PoolProofs.v ===== *)
(** * Proofs about thread pools (job.c)

    Against the laws of a bounded ring, an invariant of every interleaving of
    producers and workers: no job is lost or run twice, each ring is first in,
    first out, every ring a thread looks at has a buffer, and the counters count;
    then what [pop_job] and [do_set_pool] do when no other thread runs. *)

From Stdlib Require Import ZArith Lia.
From stdpp Require Import base numbers list gmap.
From S2P Require Import Prelude SysUtil Pool.

Module PoolProofs.
Import Pool.

(** What is relied on of a ring: a ring of [n] slots holds [n - 1] entries. *)
Class ring_laws (CR : ck_ring) := {
  init_items n : ring_items (ck_ring_init n) = [];
  init_size n : ring_size (ck_ring_init n) = n;
  enqueue_some r j r' : ck_ring_enqueue_spmc r j = Some r' ->
    ring_items r' = ring_items r ++ [j] /\ ring_size r' = ring_size r /\ zlen (ring_items r) + 1 < ring_size r;
  enqueue_none r j : ck_ring_enqueue_spmc r j = None -> ring_size r <= zlen (ring_items r) + 1;
  dequeue_some r j r' : ck_ring_dequeue_spmc r = Some (j, r') ->
    ring_items r = j :: ring_items r' /\ ring_size r' = ring_size r;
  dequeue_none r : ck_ring_dequeue_spmc r = None -> ring_items r = [];
}.

Section proofs.
Context {CR : ck_ring} {RL : ring_laws CR}.

(** ** The rings of a pool *)

Definition items (p : ph_thread_pool) (b : nat) : list Z :=
  match rings p !! b with Some r => ring_items r | None => [] end.

Definition BUCKETS : list nat := seq 0 64.
Definition queued (p : ph_thread_pool) : list Z := concat (items p <$> BUCKETS).

Definition ring_slots (p : ph_thread_pool) : Z := MAX 4 (ph_power_2 (max_queue_len p)).

Lemma ring_slots_min p : 4 <= ring_slots p.
Proof. unfold ring_slots. rewrite MAX_max. lia. Qed.

Record rings_ok (p : ph_thread_pool) : Prop := {
  ro_used b : Z.testbit (used_rings p) (Z.of_nat b) = bool_decide (is_Some (rings p !! b));
  ro_bucket b : is_Some (rings p !! b) -> (b < 64)%nat;
  ro_size b r : rings p !! b = Some r -> ring_size r = ring_slots p /\ zlen (ring_items r) < ring_slots p;
}.

Lemma bucket_of_lt tid : (bucket_of tid < 64)%nat.
Proof. unfold bucket_of, MAX_RINGS. destruct (Nat.ltb_spec tid 63); lia. Qed.

Lemma u64_testbit z i : 0 <= i < 64 -> Z.testbit (u64 z) i = Z.testbit z i.
Proof. intros. unfold wrapU. by rewrite Z.mod_pow2_bits_low by lia. Qed.

Lemma need_ring_ok b p : (b < 64)%nat -> rings_ok p -> rings_ok (need_ring b p).
Proof.
  intros Hb [Hu Hl Hp]. unfold need_ring. destruct (rings p !! b) eqn:E; [done|]. unfold init_ring. split; cbn.
  - intros i. destruct (decide (i < 64)%nat) as [Hi|Hi].
    + rewrite u64_testbit by lia. rewrite Z.lor_spec, Hu, Z.shiftl_spec by lia. destruct (decide (i = b)) as [->|Hn].
      * rewrite Z.sub_diag, lookup_insert_eq, orb_true_r. by rewrite bool_decide_eq_true_2.
      * rewrite lookup_insert_ne by done.
        assert (Z.testbit 1 (Z.of_nat i - Z.of_nat b) = false) as ->; [|by rewrite orb_false_r].
        destruct (Z.lt_total (Z.of_nat i - Z.of_nat b) 0) as [H|[H|H]]; [by apply Z.testbit_neg_r|lia|by apply Z.bits_above_log2; cbn; lia].
    + rewrite lookup_insert_ne by lia. unfold wrapU. rewrite Z.mod_pow2_bits_high by lia.
      symmetry. apply bool_decide_eq_false_2. intros H. by apply Hl in H.
  - intros i [r H]. destruct (decide (i = b)) as [->|Hn]; [done|]. rewrite lookup_insert_ne in H by done. by apply Hl.
  - intros i r H. destruct (decide (i = b)) as [->|Hn]; [|rewrite lookup_insert_ne in H by done; by eapply Hp].
    rewrite lookup_insert_eq in H. injection H as <-. rewrite init_size, init_items. split; [done|].
    pose proof (ring_slots_min p). cbn. unfold ring_slots in *. cbn. lia.
Qed.

Lemma need_ring_present b p : is_Some (rings (need_ring b p) !! b).
Proof. unfold need_ring. destruct (rings p !! b) eqn:E; [by rewrite E|]. cbn. by rewrite lookup_insert_eq. Qed.

Lemma need_ring_mono b p i : is_Some (rings p !! i) -> is_Some (rings (need_ring b p) !! i).
Proof.
  intros H. unfold need_ring. destruct (rings p !! b) eqn:E; [done|]. cbn.
  destruct (decide (i = b)) as [->|]; [by rewrite lookup_insert_eq|by rewrite lookup_insert_ne].
Qed.

Lemma need_ring_items b p i : items (need_ring b p) i = items p i.
Proof.
  unfold need_ring, items. destruct (rings p !! b) eqn:E; [done|]. cbn. destruct (decide (i = b)) as [->|].
  - by rewrite lookup_insert_eq, E, init_items.
  - by rewrite lookup_insert_ne.
Qed.

(** What a ring operation does: other fields are as they were. *)
Inductive ring_change (b : nat) (f : list Z -> list Z -> Prop) (p : ph_thread_pool) : ph_thread_pool -> Prop :=
  | ring_change_intro r r' : rings p !! b = Some r -> f (ring_items r) (ring_items r') ->
      ring_size r' = ring_size r -> zlen (ring_items r') < Z.max (ring_size r) (zlen (ring_items r) + 1) -> ring_change b f p (set_rings (<[b := r']> (rings p)) p).

Lemma enqueue_true b j p p' : enqueue b j p = Ret (true, p') -> ring_change b (fun l l' => l' = l ++ [j]) p p'.
Proof.
  unfold enqueue. destruct (rings p !! b) as [r|] eqn:E; [|done]. destruct (ck_ring_enqueue_spmc r j) as [r'|] eqn:Er; intros [= <-].
  apply enqueue_some in Er as (Hi & Hs & Hl). econstructor; eauto. rewrite Hi, length_app. cbn. lia.
Qed.

Lemma enqueue_false b j p p' : enqueue b j p = Ret (false, p') ->
  p' = p /\ exists r, rings p !! b = Some r /\ ring_size r <= zlen (ring_items r) + 1.
Proof.
  unfold enqueue. destruct (rings p !! b) as [r|] eqn:E; [|done]. destruct (ck_ring_enqueue_spmc r j) as [r'|] eqn:Er; intros [= <-].
  split; [done|]. exists r. split; [done|]. by apply enqueue_none in Er.
Qed.

Lemma dequeue_Some b j p p' : dequeue b p = Ret (Some j, p') -> ring_change b (fun l l' => l = j :: l') p p'.
Proof.
  unfold dequeue. destruct (rings p !! b) as [r|] eqn:E; [|done]. destruct (ck_ring_dequeue_spmc r) as [[j' r']|] eqn:Er; intros [= <- <-].
  apply dequeue_some in Er as [Hi Hs]. econstructor; eauto. rewrite Hi. cbn. lia.
Qed.

Lemma dequeue_None b p p' : dequeue b p = Ret (None, p') -> p' = p /\ items p b = [].
Proof.
  unfold dequeue, items. destruct (rings p !! b) as [r|] eqn:E; [|done]. destruct (ck_ring_dequeue_spmc r) as [[j' r']|] eqn:Er; intros [= <-].
  split; [done|]. by apply dequeue_none.
Qed.

Lemma dequeue_total b p : is_Some (rings p !! b) -> exists x, dequeue b p = Ret x.
Proof. intros [r E]. unfold dequeue. rewrite E. destruct (ck_ring_dequeue_spmc r) as [[]|]; eauto. Qed.

Lemma enqueue_total b j p : is_Some (rings p !! b) -> exists x, enqueue b j p = Ret x.
Proof. intros [r E]. unfold enqueue. rewrite E. destruct (ck_ring_enqueue_spmc r j); eauto. Qed.

Lemma ring_change_present b f p p' i : ring_change b f p p' -> is_Some (rings p' !! i) <-> is_Some (rings p !! i).
Proof.
  intros [r r' E _ _ _]. cbn. destruct (decide (i = b)) as [->|]; [|by rewrite lookup_insert_ne].
  rewrite lookup_insert_eq, E. split; eauto.
Qed.

Lemma ring_change_ok b f p p' : ring_change b f p p' -> rings_ok p -> rings_ok p'.
Proof.
  intros H [Hu Hl Hp]. pose proof (fun i => ring_change_present b f p p' i H) as Hi.
  assert (used_rings p' = used_rings p) as Eu by (by destruct H). split.
  - intros i. rewrite Eu, Hu. apply bool_decide_ext. by rewrite Hi.
  - intros i. rewrite Hi. apply Hl.
  - destruct H as [r r' E _ Hs Hlen]. cbn. intros i r1. destruct (Hp b r E) as [H1 H2]. destruct (decide (i = b)) as [->|].
    + rewrite lookup_insert_eq. intros [= <-]. unfold ring_slots in *. cbn. lia.
    + rewrite lookup_insert_ne by done. apply Hp.
Qed.

Lemma ring_change_items b f p p' : ring_change b f p p' ->
  f (items p b) (items p' b) /\ forall i, i <> b -> items p' i = items p i.
Proof.
  intros [r r' E Hf _ _]. unfold items. cbn. rewrite E, lookup_insert_eq. split; [done|]. intros i Hi. by rewrite lookup_insert_ne.
Qed.

(** ** The interleavings *)

Definition waiting (t : thread) : list Z :=
  match t with PTry _ j | PFull _ j | PInc _ j | PAsleep _ j _ => [j] | _ => [] end.
Definition got (t : thread) : list Z := match t with WGot _ j => [j] | _ => [] end.
Definition running (t : thread) : list Z := match t with WRun _ j => [j] | _ => [] end.

Definition c_sleeper (t : thread) : Z := match t with WInc _ | WAsleep _ _ => 1 | _ => 0 end.
Definition p_sleeper (t : thread) : Z := match t with PInc _ _ | PAsleep _ _ _ => 1 | _ => 0 end.
Definition worker (t : thread) : Z :=
  match t with PTry _ _ | PFull _ _ | PInc _ _ | PAsleep _ _ _ | PWake => 0 | _ => 1 end.

(** The rings a thread will look at have buffers. *)
Definition thread_ok (p : ph_thread_pool) (t : thread) : Prop :=
  match t with
  | PTry b _ | PFull b _ | PInc b _ | PAsleep b _ _ => is_Some (rings p !! b)
  | WTop b | WOwn b | WIdle b | WInc b | WAsleep b _ | WGot b _ | WRun b _ => is_Some (rings p !! b)
  | WScan b bits => is_Some (rings p !! b) /\ forall i, (i < 64)%nat -> Z.testbit bits (Z.of_nat i) = true -> is_Some (rings p !! i)
  | PWake | WLeave => True
  end.

(** The jobs of one ring in a history. *)
Definition on (b : nat) (h : list (nat * Z)) : list Z := (filter (fun e => e.1 = b) h).*2.

Record counted (s : system) : Prop := {
  co_pending : num_pending (pool s) + zlen (ran s) + zsum (fun t => zlen (running t)) (threads s) = zlen (submitted s);
  co_disp : disp (pool s) = zlen (ran s);
  co_c : c_waiting (pool s) = zsum c_sleeper (threads s);
  co_p : p_waiting (pool s) = zsum p_sleeper (threads s);
  co_w : num_workers (pool s) = zsum worker (threads s);
}.

Record accounted (s : system) : Prop := {
  ac_entered : submitted s ≡ₚ (threads s ≫= waiting) ++ (entered s).*2;
  ac_left : (left_ s).*2 ≡ₚ (threads s ≫= got) ++ (threads s ≫= running) ++ ran s;
  ac_fifo b : on b (entered s) = on b (left_ s) ++ items (pool s) b;
  ac_ebuckets : Forall (fun e => (e.1 < 64)%nat) (entered s);
  ac_lbuckets : Forall (fun e => (e.1 < 64)%nat) (left_ s);
}.

Record safe (s : system) : Prop := {
  sa_rings : rings_ok (pool s);
  sa_threads : Forall (thread_ok (pool s)) (threads s);
}.

Record invariant (s : system) : Prop := {
  in_safe : safe s;
  in_accounted : accounted s;
  in_counted : counted s;
}.

(** *** The rings *)

Lemma thread_ok_mono p p' t : (forall i, is_Some (rings p !! i) -> is_Some (rings p' !! i)) -> thread_ok p t -> thread_ok p' t.
Proof. intros H. destruct t; cbn; auto. intros [? ?]; auto. Qed.

Lemma ffs_from_spec n : forall i bits k, ffs_from n i bits = Some k -> (k < i + n)%nat /\ Z.testbit bits (Z.of_nat k) = true.
Proof.
  induction n as [|n IH]; intros i bits k H; cbn in H; [done|]. case_bool; simplify_eq; [split; [lia|done]|].
  apply IH in H as [? ?]. split; [lia|done].
Qed.

Lemma ffsll_spec bits k : ffsll bits = Some k -> (k < 64)%nat /\ Z.testbit bits (Z.of_nat k) = true.
Proof. intros H. apply ffs_from_spec in H as [? ?]. split; [lia|done]. Qed.

Lemma clear_bit_spec bits b i : Z.testbit (clear_bit bits b) (Z.of_nat i) = Z.testbit bits (Z.of_nat i) && negb (bool_decide (i = b)).
Proof.
  unfold clear_bit. rewrite Z.ldiff_spec, Z.shiftl_spec by lia. f_equal. f_equal. destruct (decide (i = b)) as [->|Hn].
  - rewrite Z.sub_diag. by rewrite bool_decide_eq_true_2.
  - rewrite bool_decide_eq_false_2 by done.
    destruct (Z.lt_total (Z.of_nat i - Z.of_nat b) 0) as [H|[H|H]]; [by apply Z.testbit_neg_r|lia|by apply Z.bits_above_log2; cbn; lia].
Qed.

(** The fields [rings_ok] is about. *)
Definition same_rings (p p' : ph_thread_pool) : Prop :=
  rings p' = rings p /\ used_rings p' = used_rings p /\ max_queue_len p' = max_queue_len p.

Lemma same_rings_ok p p' : same_rings p p' -> rings_ok p -> rings_ok p'.
Proof. intros (Hr & Hu & Hm) [H1 H2 H3]. split; unfold ring_slots; intros; rewrite ?Hu, ?Hr, ?Hm in *; eauto. Qed.

Lemma wake_consumer_rings p : same_rings p (maybe_wake_consumer p).
Proof. unfold maybe_wake_consumer. by case_bool. Qed.
Lemma wake_producer_rings p : same_rings p (maybe_wake_producer p).
Proof. unfold maybe_wake_producer. by case_bool. Qed.

(** How the rings of a pool change at a step of a thread: a ring's contents, or
    not at all. *)
Definition event_rings (e : event) (p p' : ph_thread_pool) : Prop :=
  match e with
  | Enter b j => ring_change b (fun l l' => l' = l ++ [j]) p p'
  | Leave b j => ring_change b (fun l l' => l = j :: l') p p'
  | _ => same_rings p p'
  end.

Lemma thread_step_rings p t e p' t' : thread_step p t e p' t' -> event_rings e p p'.
Proof.
  pose proof (wake_consumer_rings p). pose proof (wake_producer_rings (count_disp 1 p)).
  pose proof (wake_consumer_rings (set_workers (num_workers p - 1) p)).
  destruct 1; cbn [event_rings]; try done; try (by apply enqueue_true); try (by apply dequeue_Some);
    try (match goal with H : enqueue _ _ _ = _ |- _ => apply enqueue_false in H as [-> _]
                       | H : dequeue _ _ = _ |- _ => apply dequeue_None in H as [-> _] end; done).
Qed.

Lemma event_rings_ok e p p' : event_rings e p p' -> rings_ok p -> rings_ok p'.
Proof.
  destruct e; cbn; eauto using same_rings_ok, ring_change_ok.
Qed.

Lemma event_rings_present e p p' i : event_rings e p p' -> is_Some (rings p' !! i) <-> is_Some (rings p !! i).
Proof. destruct e; cbn; try (intros [Hr _]; by rewrite Hr); intros H; by eapply ring_change_present. Qed.

Lemma thread_step_ok p t e p' t' : thread_step p t e p' t' -> rings_ok p -> thread_ok p t -> Forall (thread_ok p) (option_list t').
Proof.
  assert (forall t, thread_ok p t -> Forall (thread_ok p) (option_list (Some t))) as L1 by (intros; by repeat constructor).
  destruct 1; intros Hok Ht; try (apply L1; first [exact I | exact Ht | cbn in *; tauto]); try (by constructor).
  - apply L1. split; [done|]. intros i Hi. rewrite clear_bit_spec. intros [Hb _]%andb_true_iff.
    rewrite (ro_used p Hok) in Hb. by apply bool_decide_eq_true in Hb.
  - apply L1. destruct Ht as [Hb Ht]. split; [done|]. intros k Hk. rewrite clear_bit_spec. intros [? _]%andb_true_iff. auto.
  - apply L1. by destruct (stop p).
Qed.

Lemma safe_grow s b p ts sub en le ra : (b < 64)%nat -> same_rings (pool s) p ->
  (is_Some (rings (need_ring b p) !! b) -> Forall (thread_ok (need_ring b p)) ts) -> safe s ->
  safe (System (need_ring b p) (threads s ++ ts) sub en le ra).
Proof.
  intros Hb Hs Hts [Hr Ht]. split; cbn.
  - apply need_ring_ok; [done|]. by eapply same_rings_ok.
  - apply Forall_app. split; [|apply Hts, need_ring_present]. eapply Forall_impl; [exact Ht|]. intros t. apply thread_ok_mono.
    intros i. destruct Hs as (<- & _). apply need_ring_mono.
Qed.

Lemma note_pool e p ts s : pool (note e p ts s) = p /\ threads (note e p ts s) = ts /\ submitted (note e p ts s) = submitted s.
Proof. by destruct e. Qed.

Lemma safe_step s s' : step s s' -> safe s -> safe s'.
Proof.
  destruct 1 as [l1 t l2 e p' t' s El Hst|tid job s|tid s|s|s]; intros Hs.
  - destruct Hs as [Hr Ht]. rewrite El in Ht. apply Forall_app in Ht as [Ht1 Ht2]. apply Forall_cons in Ht2 as [Htt Ht2].
    destruct (note_pool e p' (l1 ++ option_list t' ++ l2) s) as (Ep & Et & _). pose proof (thread_step_rings _ _ _ _ _ Hst) as Her.
    split; rewrite Ep; [by eapply event_rings_ok|]. rewrite Et.
    assert (forall l, Forall (thread_ok (pool s)) l -> Forall (thread_ok p') l) as Hm.
    { intros l Hl. eapply Forall_impl; [exact Hl|]. intros. eapply thread_ok_mono; [|done]. intros i. by apply (event_rings_present e). }
    rewrite !Forall_app. split_and!; apply Hm; [done| |done]. by eapply thread_step_ok.
  - apply safe_grow; auto using bucket_of_lt; done.
  - apply safe_grow; auto using bucket_of_lt; done.
  - pose proof (wake_consumer_rings (set_stop true (pool s)) : same_rings (pool s) _) as W. destruct Hs as [Hr Ht].
    split; [by eapply same_rings_ok|]. eapply Forall_impl; [exact Ht|]. intros t. apply thread_ok_mono. cbn.
    unfold ph_thread_pool_signal_stop. by destruct W as (-> & _).
  - destruct Hs as [[H1 H2 H3] Ht]. by split; [split|].
Qed.

(** *** The histories *)

Lemma on_app b h h' : on b (h ++ h') = on b h ++ on b h'.
Proof. unfold on. by rewrite filter_app, fmap_app. Qed.

Lemma on_single b b' j : on b [(b', j)] = if decide (b' = b) then [j] else [].
Proof. unfold on. rewrite filter_cons. cbn. by destruct (decide _). Qed.

Lemma on_cons b b' j h : on b ((b', j) :: h) = (if decide (b' = b) then [j] else []) ++ on b h.
Proof. unfold on. rewrite filter_cons. cbn. by destruct (decide _). Qed.

(** What a thread carries, before and after its step. *)
Definition carries (e : event) (t : thread) (l : list thread) : Prop :=
  match e with
  | Quiet => (l ≫= waiting) = waiting t /\ (l ≫= got) ++ (l ≫= running) = got t ++ running t
  | Enter b j => waiting t = [j] /\ (l ≫= waiting) = [] /\ got t ++ running t = [] /\ (l ≫= got) ++ (l ≫= running) = []
  | Leave b j => waiting t = [] /\ (l ≫= waiting) = [] /\ got t ++ running t = [] /\ (l ≫= got) ++ (l ≫= running) = [j]
  | Done j => waiting t = [] /\ (l ≫= waiting) = [] /\ got t ++ running t = [j] /\ (l ≫= got) ++ (l ≫= running) = []
  end.

Lemma thread_step_carries p t e p' t' : thread_step p t e p' t' -> carries e t (option_list t').
Proof. destruct 1; cbn; try done. by destruct (stop p). Qed.

Definition event_bucket (e : event) : nat := match e with Enter b _ | Leave b _ => b | _ => 0%nat end.

Lemma thread_step_bucket p t e p' t' : thread_step p t e p' t' -> rings_ok p -> (event_bucket e < 64)%nat.
Proof.
  intros H Hok. pose proof (thread_step_rings _ _ _ _ _ H) as Hr. destruct e as [|b j|b j|j]; cbn; try lia;
    destruct Hr; by eapply (ro_bucket p Hok).
Qed.

Lemma fifo_step e p p' ts s : event_rings e p p' -> p = pool s ->
  (forall b, on b (entered s) = on b (left_ s) ++ items p b) ->
  forall b, on b (entered (note e p' ts s)) = on b (left_ (note e p' ts s)) ++ items p' b.
Proof.
  intros He -> Hf b. destruct e as [|b' j|b' j|j]; cbn [note entered left_ event_rings] in *.
  1, 4: destruct He as [Hr _]; rewrite Hf; unfold items; by rewrite Hr.
  all: apply ring_change_items in He as [Hb Hi]; rewrite on_app, on_single, Hf; destruct (decide (b' = b)) as [->|Hn];
    rewrite ?app_nil_r; [rewrite Hb, <- app_assoc; done|by rewrite Hi by done].
Qed.

Lemma bind_mid {A B} (f : A -> list B) l1 t l2 : (l1 ++ t :: l2) ≫= f ≡ₚ f t ++ ((l1 ++ l2) ≫= f).
Proof. rewrite !bind_app. cbn. rewrite app_assoc, (Permutation_app_comm _ (f t)). by rewrite <- app_assoc. Qed.
Lemma bind_mid_list {A B} (f : A -> list B) l1 l l2 : (l1 ++ l ++ l2) ≫= f ≡ₚ (l ≫= f) ++ ((l1 ++ l2) ≫= f).
Proof. rewrite !bind_app. rewrite !app_assoc, (Permutation_app_comm _ (l ≫= f)). done. Qed.

Lemma accounted_thread s l1 t l2 e p' t' : threads s = l1 ++ t :: l2 -> thread_step (pool s) t e p' t' -> rings_ok (pool s) ->
  accounted s -> accounted (note e p' (l1 ++ option_list t' ++ l2) s).
Proof.
  intros El Hst Hok [He Hl Hf Hb Hb']. pose proof (thread_step_carries _ _ _ _ _ Hst) as Hc.
  pose proof (thread_step_bucket _ _ _ _ _ Hst Hok) as Hlt. pose proof (thread_step_rings _ _ _ _ _ Hst) as Hr.
  destruct (note_pool e p' (l1 ++ option_list t' ++ l2) s) as (Ep & Et & Es).
  rewrite El in He, Hl. rewrite !bind_mid in Hl. rewrite bind_mid in He.
  split; rewrite ?Ep, ?Et, ?Es, ?bind_mid_list; [| |by eapply fifo_step|by destruct e; cbn; rewrite ?Forall_app; auto..].
  - rewrite He. destruct e as [|b j|b j|j]; cbn in *; destruct_and!; rewrite ?fmap_app; cbn;
      repeat match goal with H : waiting _ = _ |- _ => rewrite H | H : _ ≫= waiting = _ |- _ => rewrite H end; cbn; try done.
    rewrite app_assoc. by rewrite <- Permutation_cons_append.
  - assert (forall A B C D : list Z, A ++ B ++ C ++ D ≡ₚ (A ++ C) ++ B ++ D) as Hsw.
    { intros. rewrite <- (app_assoc A C). apply Permutation_app_head. rewrite !app_assoc. apply Permutation_app_tail, Permutation_app_comm. }
    rewrite <- !app_assoc, Hsw in Hl. rewrite <- !app_assoc, Hsw.
    destruct e as [|b j|b j|j]; cbn in *; destruct_and!; rewrite ?fmap_app; cbn;
      repeat match goal with H : ?x ++ ?y = _ |- _ => rewrite H in * end; cbn in *; try done.
    + rewrite Hl. by rewrite <- Permutation_cons_append.
    + rewrite Hl. rewrite !app_assoc. by rewrite <- Permutation_cons_append.
Qed.

Lemma accounted_step s s' : step s s' -> safe s -> accounted s -> accounted s'.
Proof.
  destruct 1 as [l1 t l2 e p' t' s El Hst|tid job s|tid s|s|s]; intros Hs Ha.
  - apply accounted_thread with t; auto. apply Hs.
  - destruct Ha as [He Hl Hf Hb Hb']. split; cbn [pool threads submitted entered left_ ran];
      rewrite ?bind_app; cbn [mbind list_bind waiting got running app]; rewrite ?app_nil_r; auto.
    + rewrite He, <- !app_assoc. apply Permutation_app_head. by rewrite <- Permutation_cons_append.
    + intros b. rewrite need_ring_items. apply Hf.
  - destruct Ha as [He Hl Hf Hb Hb']. split; cbn [pool threads submitted entered left_ ran];
      rewrite ?bind_app; cbn [mbind list_bind waiting got running app]; rewrite ?app_nil_r; auto.
    intros b. rewrite need_ring_items. apply Hf.
  - destruct Ha as [He Hl Hf Hb Hb']. split; auto. intros b. cbn [pool entered left_]. rewrite Hf. f_equal. unfold items, ph_thread_pool_signal_stop.
    by destruct (wake_consumer_rings (set_stop true (pool s))) as (-> & _).
  - by destruct Ha.
Qed.

(** *** The counters *)

Definition started (e : event) : Z := match e with Done _ => 1 | _ => 0 end.

Lemma thread_step_counts p t e p' t' : thread_step p t e p' t' ->
  let l := option_list t' in
  num_pending p' + started e + zsum (fun t => zlen (running t)) l = num_pending p + zlen (running t) /\
  disp p' = disp p + started e /\
  c_waiting p' - zsum c_sleeper l = c_waiting p - c_sleeper t /\
  p_waiting p' - zsum p_sleeper l = p_waiting p - p_sleeper t /\
  num_workers p' - zsum worker l = num_workers p - worker t.
Proof.
  destruct 1; cbn;
    try (match goal with H : enqueue _ _ _ = Ret (true, _) |- _ => apply enqueue_true in H; destruct H
                       | H : enqueue _ _ _ = _ |- _ => apply enqueue_false in H as [-> _]
                       | H : dequeue _ _ = Ret (Some _, _) |- _ => apply dequeue_Some in H; destruct H
                       | H : dequeue _ _ = _ |- _ => apply dequeue_None in H as [-> _] end);
    unfold worker_exit, maybe_wake_consumer, maybe_wake_producer; repeat case_bool; cbn; lia.
Qed.

Lemma need_ring_counts b p : let p' := need_ring b p in
  num_pending p' = num_pending p /\ disp p' = disp p /\ c_waiting p' = c_waiting p /\ p_waiting p' = p_waiting p /\ num_workers p' = num_workers p.
Proof. unfold need_ring. by destruct (rings p !! b). Qed.

Lemma zsum_cons {A} (f : A -> Z) a l : zsum f (a :: l) = f a + zsum f l.
Proof. done. Qed.

Lemma counted_step s s' : step s s' -> counted s -> counted s'.
Proof.
  destruct 1 as [l1 t l2 e p' t' s El Hst|tid job s|tid s|s|s]; intros [H1 H2 H3 H4 H5].
  - apply thread_step_counts in Hst as (D1 & D2 & D3 & D4 & D5). cbv zeta in *.
    rewrite El, zsum_app, zsum_cons in H1, H3, H4, H5.
    destruct e; split; cbn [note pool threads submitted ran started] in *; rewrite ?zsum_app, ?length_app; cbn [length]; lia.
  - destruct (need_ring_counts (bucket_of tid) (count_pending 1 (pool s))) as (N1 & N2 & N3 & N4 & N5).
    split; cbn [pool threads submitted ran]; rewrite ?zsum_app, ?length_app, ?N1, ?N2, ?N3, ?N4, ?N5; cbn; lia.
  - destruct (need_ring_counts (bucket_of tid) (set_workers (num_workers (pool s) + 1) (pool s))) as (N1 & N2 & N3 & N4 & N5).
    split; cbn [pool threads submitted ran]; rewrite ?zsum_app, ?length_app, ?N1, ?N2, ?N3, ?N4, ?N5; cbn; lia.
  - unfold ph_thread_pool_signal_stop, maybe_wake_consumer. split; cbn [pool threads submitted ran]; case_bool; cbn [num_pending disp c_waiting p_waiting num_workers wake_consumer set_cwait set_stop]; lia.
  - by split.
Qed.

Lemma reachable_invariant len s : reachable len s -> invariant s.
Proof.
  induction 1 as [|s s' _ [H1 H2 H3] Hs].
  - split; split; cbn; try done; try (by constructor). split; cbn; [intros b; by rewrite Z.bits_0, bool_decide_eq_false_2|by intros b []|by intros b r].
  - split; [by eapply safe_step|by eapply accounted_step|by eapply counted_step].
Qed.

(** *** What holds at every point of every interleaving *)

Lemma on_split h : Forall (fun e : nat * Z => (e.1 < 64)%nat) h -> h.*2 ≡ₚ concat ((fun b => on b h) <$> BUCKETS).
Proof.
  induction 1 as [|[b j] h Hb _ IH].
  - unfold BUCKETS. by induction (seq 0 64).
  - cbn in Hb. cbn [fmap list_fmap snd]. rewrite IH.
    assert (b ∈ BUCKETS) as Hin by (apply elem_of_seq; lia). pose proof (NoDup_seq 0 64 : NoDup BUCKETS) as Hnd.
    clear IH Hb. revert Hin Hnd. generalize BUCKETS. intros l Hin Hnd. induction Hnd as [|b' l Hn Hnd IHl]; [by apply not_elem_of_nil in Hin|].
    cbn [fmap list_fmap concat]. rewrite on_cons. apply elem_of_cons in Hin as [->|Hin].
    + rewrite decide_True by done. cbn. apply Permutation_cons; [done|]. apply Permutation_app_head.
      replace ((fun b => on b ((b', j) :: h)) <$> l) with ((fun b => on b h) <$> l); [done|].
      apply list_fmap_ext. intros i x Hx. rewrite on_cons, decide_False; [done|].
      intros ->. by apply Hn, (list_elem_of_lookup_2 _ i).
    + rewrite decide_False by (intros ->; done). cbn [app]. rewrite <- IHl by done. by rewrite <- Permutation_middle.
Qed.

Lemma concat_app_perm {A} (f g : A -> list Z) l : concat ((fun b => f b ++ g b) <$> l) ≡ₚ concat (f <$> l) ++ concat (g <$> l).
Proof.
  induction l as [|b l IH]; [done|]. cbn. rewrite IH, <- !app_assoc. apply Permutation_app_head.
  rewrite !app_assoc. apply Permutation_app_tail, Permutation_app_comm.
Qed.

Lemma accounted_queued s : accounted s -> (entered s).*2 ≡ₚ (left_ s).*2 ++ queued (pool s).
Proof.
  intros [_ _ Hf Hb Hb']. rewrite (on_split (entered s)), (on_split (left_ s)) by done. unfold queued.
  rewrite <- concat_app_perm. erewrite list_fmap_ext; [done|]. intros i b _. apply Hf.
Qed.


(** In every interleaving, the jobs that entered a ring are those that left it
    followed by those that are in it, in order: each ring is first in, first
    out. *)
Theorem pool_rings_fifo len s b : reachable len s -> on b (entered s) = on b (left_ s) ++ items (pool s) b.
Proof. intros [_ Ha _]%reachable_invariant. apply Ha. Qed.

Lemma thread_step_total p t : rings_ok p -> thread_ok p t -> exists e p' t', thread_step p t e p' t'.
Proof.
  intros Hok Ht. destruct t as [b j|b j|b j|b j v| |b|b|b bits|b|b|b v|b j|b j|]; cbn in Ht; try (by eauto using thread_step).
  - destruct (enqueue_total b j p Ht) as [[[] p'] E]; eauto using thread_step.
  - destruct (run_loop p) eqn:E; eauto using thread_step.
  - destruct (dequeue_total b p Ht) as [[[j|] p'] E]; eauto using thread_step.
  - destruct (ffsll bits) as [i|] eqn:E; [|eauto using thread_step]. pose proof (ffsll_spec _ _ E) as [Hi Hb].
    destruct (dequeue_total i p) as [[[j|] p'] E']; [by apply Ht|eauto using thread_step..].
  - destruct (run_loop p) eqn:E; eauto using thread_step.
Qed.



(** num_pending counts the jobs submitted and not yet started, disp those that
    were run; the waiters count the threads about to sleep or asleep, and
    num_workers the workers. *)
Theorem pool_counters_count len s : reachable len s ->
  num_pending (pool s) = zlen (threads s ≫= waiting) + zlen (queued (pool s)) + zlen (threads s ≫= got) /\
  disp (pool s) = zlen (ran s) /\ c_waiting (pool s) = zsum c_sleeper (threads s) /\
  p_waiting (pool s) = zsum p_sleeper (threads s) /\ num_workers (pool s) = zsum worker (threads s).
Proof.
  intros [_ Ha [H1 H2 H3 H4 H5]]%reachable_invariant. split_and!; try done.
  pose proof (Permutation_length (ac_entered _ Ha)) as L1. pose proof (Permutation_length (ac_left _ Ha)) as L2.
  pose proof (Permutation_length (accounted_queued _ Ha)) as L3. rewrite length_app in L1, L3. rewrite !length_app in L2.
  assert (zsum (fun t => zlen (running t)) (threads s) = zlen (threads s ≫= running)) as L4.
  { clear. induction (threads s) as [|t l IH]; [done|]. rewrite zsum_cons, IH. cbn. rewrite length_app. lia. }
  lia.
Qed.

(** ** Schedules *)

(** [step] as a function of a choice. *)
Inductive move := Thread (i : nat) | Submit (tid : nat) (job : Z) | Worker (tid : nat) | Signal | Halt.

Definition thread_next (p : ph_thread_pool) (t : thread) : option (event * ph_thread_pool * option thread) :=
  match t with
  | PTry b j => match enqueue b j p with
                | Ret (true, p) => Some (Enter b j, p, Some PWake)
                | Ret (false, p) => Some (Quiet, count_psleep 1 p, Some (PFull b j))
                | _ => None
                end
  | PFull b j => Some (Quiet, set_pwait (p_waiting p + 1) (p_fut p) p, Some (PInc b j))
  | PInc b j => Some (Quiet, p, Some (PAsleep b j (p_fut p)))
  | PAsleep b j v => Some (Quiet, set_pwait (p_waiting p - 1) (p_fut p) p, Some (PTry b j))
  | PWake => Some (Quiet, maybe_wake_consumer p, None)
  | WTop b => Some (Quiet, p, Some (if run_loop p then WOwn b else WLeave))
  | WOwn b => match dequeue b p with
              | Ret (Some j, p') => Some (Leave b j, p', Some (WGot b j))
              | Ret (None, p') => Some (Quiet, p', Some (WScan b (clear_bit (used_rings p) b)))
              | _ => None
              end
  | WScan b bits =>
      match ffsll bits with
      | None => Some (Quiet, count_csleep 1 p, Some (WIdle b))
      | Some i => match dequeue i p with
                  | Ret (Some j, p') => Some (Leave i j, p', Some (WGot b j))
                  | Ret (None, p') => Some (Quiet, p', Some (WScan b (clear_bit bits i)))
                  | _ => None
                  end
      end
  | WIdle b => Some (Quiet, set_cwait (c_waiting p + 1) (c_fut p) p, Some (WInc b))
  | WInc b => Some (Quiet, p, Some (WAsleep b (c_fut p)))
  | WAsleep b v => Some (Quiet, set_cwait (c_waiting p - 1) (c_fut p) p,
                         Some (if run_loop p then WOwn b else if stop p then WLeave else WTop b))
  | WGot b j => Some (Quiet, count_pending (-1) p, Some (WRun b j))
  | WRun b j => Some (Done j, maybe_wake_producer (count_disp 1 p), Some (WTop b))
  | WLeave => Some (Quiet, worker_exit p, None)
  end.

Lemma thread_next_step p t e p' t' : thread_next p t = Some (e, p', t') -> thread_step p t e p' t'.
Proof.
  destruct t; cbn [thread_next]; intros H;
    repeat match type of H with
    | context [match ?x with _ => _ end] => let E := fresh "E" in destruct x eqn:E; try done
    end; injection H as <- <- <-; eauto using thread_step.
  all: pose proof (ts_w_halt b v p E) as X; by rewrite E0 in X.
Qed.

Definition move_next (m : move) (s : system) : option system :=
  match m with
  | Thread i =>
      t ← threads s !! i;
      '(e, p', t') ← thread_next (pool s) t;
      Some (note e p' (take i (threads s) ++ option_list t' ++ drop (S i) (threads s)) s)
  | Submit tid job => Some (System (need_ring (bucket_of tid) (count_pending 1 (pool s))) (threads s ++ [PTry (bucket_of tid) job])
        (submitted s ++ [job]) (entered s) (left_ s) (ran s))
  | Worker tid => Some (System (need_ring (bucket_of tid) (set_workers (num_workers (pool s) + 1) (pool s))) (threads s ++ [WTop (bucket_of tid)])
        (submitted s) (entered s) (left_ s) (ran s))
  | Signal => Some (System (ph_thread_pool_signal_stop (pool s)) (threads s) (submitted s) (entered s) (left_ s) (ran s))
  | Halt => Some (System (set_run false (pool s)) (threads s) (submitted s) (entered s) (left_ s) (ran s))
  end.

Lemma move_next_step m s s' : move_next m s = Some s' -> step s s'.
Proof.
  destruct m; cbn [move_next]; intros H; try (injection H as <-; by constructor).
  apply bind_Some in H as (t & Ht & H). apply bind_Some in H as ([[e p'] t'] & Hn & H). injection H as <-.
  apply step_thread with t; [by rewrite take_drop_middle|by apply thread_next_step].
Qed.

Fixpoint play (ms : list move) (s : system) : option system :=
  match ms with [] => Some s | m :: ms => s ← move_next m s; play ms s end.

Lemma play_reachable len ms : forall s s', reachable len s -> play ms s = Some s' -> reachable len s'.
Proof.
  induction ms as [|m ms IH]; intros s s' Hr H; cbn in H; [by injection H as <-|].
  apply bind_Some in H as (s1 & H1 & H). eapply IH; [|exact H]. eapply reach_step; [exact Hr|]. by apply (move_next_step m).
Qed.

(** ** The functions alone *)

(** Where [pop_job] finds a job: the thread's own ring, else the first of the
    others that has one. *)
Definition full_ring (p : ph_thread_pool) (bits : Z) (i : nat) : bool :=
  Z.testbit bits (Z.of_nat i) && negb (bool_decide (items p i = [])).
Definition finds (p : ph_thread_pool) (b : nat) : option nat :=
  if bool_decide (items p b = []) then List.find (full_ring p (clear_bit (used_rings p) b)) BUCKETS else Some b.

Lemma find_seq f i n : forall a, (a <= i < a + n)%nat -> f i = true -> (forall k, (a <= k < i)%nat -> f k = false) ->
  List.find f (seq a n) = Some i.
Proof.
  induction n as [|n IH]; intros a Hi Hf Hk; [lia|]. cbn. destruct (decide (a = i)) as [->|]; [by rewrite Hf|].
  rewrite Hk by lia. apply IH; [lia|done|]. intros. apply Hk. lia.
Qed.

Lemma find_all_false (f : nat -> bool) l : (forall k, k ∈ l -> f k = false) -> List.find f l = None.
Proof. induction l as [|a l IH]; intros H; [done|]. cbn. rewrite H by set_solver. apply IH. set_solver. Qed.

Lemma find_same (f g : nat -> bool) l : (forall k, f k = g k) -> List.find f l = List.find g l.
Proof. intros H. induction l as [|a l IH]; [done|]. cbn. by rewrite H, IH. Qed.

Lemma ffs_from_least n : forall i bits k, ffs_from n i bits = Some k -> forall m, (i <= m < k)%nat -> Z.testbit bits (Z.of_nat m) = false.
Proof.
  induction n as [|n IH]; intros i bits k H m Hm; cbn in H; [done|]. case_bool; simplify_eq; [lia|].
  destruct (decide (m = i)) as [->|]; [done|]. eapply IH; [done|]. lia.
Qed.

Lemma ffs_from_none n : forall i bits, ffs_from n i bits = None -> forall m, (i <= m < i + n)%nat -> Z.testbit bits (Z.of_nat m) = false.
Proof.
  induction n as [|n IH]; intros i bits H m Hm; cbn in H; [lia|]. case_bool; simplify_eq.
  destruct (decide (m = i)) as [->|]; [done|]. eapply IH; [done|]. lia.
Qed.

Lemma dequeue_cases b p : is_Some (rings p !! b) ->
  if bool_decide (items p b = []) then dequeue b p = Ret (None, p)
  else exists j p', dequeue b p = Ret (Some j, p') /\ ring_change b (fun l l' => l = j :: l') p p'.
Proof.
  intros Hb. destruct (dequeue_total b p Hb) as [[[j|] p'] E].
  - pose proof (dequeue_Some _ _ _ _ E) as Hc. pose proof (ring_change_items _ _ _ _ Hc) as [Hi _].
    rewrite Hi. rewrite bool_decide_eq_false_2 by done. eauto.
  - apply dequeue_None in E as E'. destruct E' as [-> Hi]. by rewrite Hi.
Qed.

Lemma scan_rings_ok fuel : forall k bits p, (65 <= fuel + k)%nat -> (k <= 64)%nat ->
  (forall i, (i < k)%nat -> Z.testbit bits (Z.of_nat i) = false) ->
  (forall i, (i < 64)%nat -> Z.testbit bits (Z.of_nat i) = true -> is_Some (rings p !! i)) ->
  match List.find (full_ring p bits) BUCKETS with
  | Some i => exists j p', scan_rings fuel bits p = Ret (Some j, p') /\ ring_change i (fun l l' => l = j :: l') p p'
  | None => scan_rings fuel bits p = Ret (None, p)
  end.
Proof.
  induction fuel as [|fuel IH]; intros k bits p Hf Hk Hlow Hr; [lia|]. cbn [scan_rings].
  destruct (ffsll bits) as [i|] eqn:E.
  - pose proof (ffsll_spec _ _ E) as [Hi Hb]. pose proof (ffs_from_least _ _ _ _ E) as Hl.
    assert (k <= i)%nat as Hki. { destruct (decide (i < k)%nat) as [H|]; [|lia]. rewrite Hlow in Hb by done. done. }
    pose proof (dequeue_cases i p (Hr i Hi Hb)) as Hd. case_bool_decide as Hit.
    + step_with Hd. specialize (IH (S i) (clear_bit bits i) p ltac:(lia) ltac:(lia)).
      rewrite (find_same _ (full_ring p bits)) in IH.
      * apply IH; [|intros m Hm; rewrite clear_bit_spec; intros [? _]%andb_true_iff; by apply Hr].
        intros m Hm. rewrite clear_bit_spec. destruct (decide (m = i)) as [->|]; [by rewrite bool_decide_eq_true_2, andb_false_r|].
        rewrite Hl by lia. done.
      * intros m. unfold full_ring. rewrite clear_bit_spec. destruct (decide (m = i)) as [->|Hn].
        -- by rewrite (bool_decide_eq_true_2 (items p i = [])), !andb_false_r.
        -- by rewrite (bool_decide_eq_false_2 (m = i)), andb_true_r.
    + destruct Hd as (j & p' & Hd & Hc). unfold BUCKETS. rewrite (find_seq _ i); [|lia| |].
      * exists j, p'. split; [by step_with Hd|done].
      * unfold full_ring. by rewrite Hb, bool_decide_eq_false_2.
      * intros m Hm. unfold full_ring. by rewrite Hl by lia.
  - rewrite find_all_false; [done|]. intros m Hm. apply elem_of_seq in Hm. unfold full_ring. by rewrite (ffs_from_none _ _ _ E) by lia.
Qed.

Lemma pop_job_ok fuel asleep b p : rings_ok p -> is_Some (rings p !! b) ->
  match finds p b with
  | Some i => exists j p', pop_job (S fuel) asleep b p = Ret (Some j, p') /\ ring_change i (fun l l' => l = j :: l') p p'
  | None => pop_job (S fuel) asleep b p =
      (wait_consumer asleep ;;; p <-- get ;; if negb (run_loop p) then ret None else pop_job fuel asleep b) (count_csleep 1 p)
  end.
Proof.
  intros Hok Hb. unfold finds. pose proof (dequeue_cases b p Hb) as Hd. cbn [pop_job]. case_bool_decide as Hit.
  - step_with Hd. step.
    assert (forall i, (i < 64)%nat -> Z.testbit (clear_bit (used_rings p) b) (Z.of_nat i) = true -> is_Some (rings p !! i)) as Hbits.
    { intros m _. rewrite clear_bit_spec. intros [H _]%andb_true_iff. rewrite (ro_used _ Hok) in H. by apply bool_decide_eq_true in H. }
    pose proof (scan_rings_ok 65 0 (clear_bit (used_rings p) b) p ltac:(lia) ltac:(lia) ltac:(lia) Hbits) as Hs.
    destruct (List.find _ _) as [i|].
    + destruct Hs as (j & p' & Hs & Hc). exists j, p'. split; [by step_with Hs|done].
    + step_with Hs. by step.
  - destruct Hd as (j & p' & Hd & Hc). exists j, p'. split; [by step_with Hd|done].
Qed.

Lemma finds_none p b : rings_ok p -> finds p b = None -> queued p = [].
Proof.
  intros Hok. unfold finds. case_bool_decide as Hb; [|done]. intros Hf. unfold queued. apply concat_nil_Forall, Forall_fmap, Forall_forall.
  intros k Hk. cbn. apply list_elem_of_In in Hk. pose proof (find_none _ _ Hf k Hk) as H. unfold full_ring in H.
  rewrite clear_bit_spec, (ro_used _ Hok) in H. destruct (decide (k = b)) as [->|Hn]; [done|].
  rewrite (bool_decide_eq_false_2 (k = b)), andb_true_r in H by done.
  apply andb_false_iff in H as [H|H]; [|by apply negb_false_iff, bool_decide_eq_true in H].
  apply bool_decide_eq_false in H. unfold items. by destruct (rings p !! k) eqn:E; [destruct H; eauto|].
Qed.

Lemma queued_leave b j p p' : (b < 64)%nat -> ring_change b (fun l l' => l = j :: l') p p' -> queued p ≡ₚ j :: queued p'.
Proof.
  intros Hb [Hi Ho]%ring_change_items. unfold queued. assert (b ∈ BUCKETS) as Hin by (apply elem_of_seq; lia).
  pose proof (NoDup_seq 0 64 : NoDup BUCKETS) as Hnd. apply list_elem_of_split in Hin as (l1 & l2 & El). rewrite El in *.
  apply NoDup_app in Hnd as (_ & Hd1 & Hd2). apply NoDup_cons in Hd2 as [Hd2 _].
  rewrite !fmap_app, !concat_app. cbn [fmap list_fmap concat]. rewrite Hi.
  assert (items p <$> l1 = items p' <$> l1) as ->.
  { apply list_fmap_ext. intros i x Hx. symmetry. apply Ho. intros ->. apply (Hd1 b); [by eapply list_elem_of_lookup_2|set_solver]. }
  assert (items p <$> l2 = items p' <$> l2) as ->.
  { apply list_fmap_ext. intros i x Hx. symmetry. apply Ho. intros ->. by apply Hd2, (list_elem_of_lookup_2 _ i). }
  by rewrite Permutation_middle.
Qed.

(** C16. When a job is queued in any ring, pop_job returns without sleeping: the
    first job of the own ring if it has one, otherwise of the first used ring
    that has one; the other rings are unchanged. *)
Theorem pop_job_finds fuel asleep b p : rings_ok p -> is_Some (rings p !! b) -> queued p <> [] ->
  exists i j p', finds p b = Some i /\ pop_job (S fuel) asleep b p = Ret (Some j, p') /\
    items p i = j :: items p' i /\ (forall k, k <> i -> items p' k = items p k) /\ queued p ≡ₚ j :: queued p'.
Proof.
  intros Hok Hb Hq. pose proof (pop_job_ok fuel asleep b p Hok Hb) as Hp. destruct (finds p b) as [i|] eqn:E; [|by apply finds_none in E].
  destruct Hp as (j & p' & Hp & Hc). exists i, j, p'. pose proof (ring_change_items _ _ _ _ Hc) as [H1 H2]. split_and!; auto.
  apply (queued_leave i); [|done]. destruct Hc. by eapply (ro_bucket _ Hok).
Qed.

Lemma need_ring_other b p : max_queue_len (need_ring b p) = max_queue_len p /\ c_fut (need_ring b p) = c_fut p.
Proof. unfold need_ring. by destruct (rings p !! b). Qed.

Lemma enqueue_loop_room fuel asleep b job p : rings_ok p -> is_Some (rings p !! b) -> zlen (items p b) + 1 < ring_slots p ->
  exists p', enqueue_loop (S fuel) asleep b job p = Ret (tt, p') /\ ring_change b (fun l l' => l' = l ++ [job]) p p'.
Proof.
  intros Hok [r Hr] Hlen. destruct (enqueue_total b job p) as [[[] p'] E]; [by eauto| |].
  - exists p'. split; [cbn [enqueue_loop]; by step_with E|]. by apply enqueue_true.
  - apply enqueue_false in E as [-> (r' & Hr' & Hfull)]. rewrite Hr in Hr'. simplify_eq.
    destruct (ro_size _ Hok b r' Hr) as [Hs _]. unfold items in Hlen. rewrite Hr in Hlen. lia.
Qed.

Lemma enqueue_loop_full fuel asleep b job p r : rings p !! b = Some r -> ring_size r <= zlen (ring_items r) + 1 ->
  enqueue_loop (S fuel) asleep b job p = (wait_producer asleep ;;; enqueue_loop fuel asleep b job) (count_psleep 1 p).
Proof.
  intros Hr Hfull. cbn [enqueue_loop]. assert (enqueue b job p = Ret (false, p)) as E.
  { unfold enqueue. rewrite Hr. destruct (ck_ring_enqueue_spmc r job) eqn:E; [|done]. apply enqueue_some in E as (_ & _ & ?). lia. }
  step_with E. by step.
Qed.

(** With room in the ring, do_set_pool appends the job to the ring of the
    thread, counts it as pending and wakes a consumer when one waits. *)
Theorem set_pool_appends fuel asleep tid job p : rings_ok p -> zlen (items p (bucket_of tid)) + 1 < ring_slots p ->
  exists p', do_set_pool (S fuel) asleep tid job p = Ret (tt, p') /\ rings_ok p' /\
    items p' (bucket_of tid) = items p (bucket_of tid) ++ [job] /\
    (forall k, k <> bucket_of tid -> items p' k = items p k) /\
    num_pending p' = num_pending p + 1 /\ c_fut p' = c_fut p + (if c_waiting p =? 0 then 0 else 1).
Proof.
  intros Hok Hlen. pose proof (bucket_of_lt tid) as Hb. set (b := bucket_of tid) in *.
  assert (rings_ok (need_ring b (count_pending 1 p))) as Hok1 by (apply need_ring_ok; [done|]; by apply (same_rings_ok p)).
  pose proof (need_ring_items b (count_pending 1 p)) as Hit. pose proof (need_ring_present b (count_pending 1 p)) as Hr.
  destruct (need_ring_other b (count_pending 1 p)) as [Hm N6].
  destruct (need_ring_counts b (count_pending 1 p)) as (N1 & _ & N3 & _).
  unfold do_set_pool. fold b. step. step. set (p1 := need_ring b (count_pending 1 p)) in *.
  destruct (enqueue_loop_room fuel asleep b job p1) as (p2 & He & Hc); [done..| |].
  { rewrite Hit. unfold ring_slots in *. by rewrite Hm. }
  pose proof (ring_change_items _ _ _ _ Hc) as [H1 H2]. step_with He. unfold modify. eexists. split; [reflexivity|].
  pose proof (wake_consumer_rings p2) as W. pose proof (ring_change_ok _ _ _ _ Hc Hok1) as Hok2.
  assert (forall k, items (maybe_wake_consumer p2) k = items p2 k) as Hw by (intros k; unfold items; by destruct W as (-> & _)).
  split_and!; [by eapply same_rings_ok|by rewrite Hw, H1, Hit|intros k Hk; by rewrite Hw, H2, Hit| |];
    destruct Hc; unfold maybe_wake_consumer; cbn; rewrite N3; cbn; case_bool; cbn; cbn in *; lia.
Qed.

(** A worker that runs jobs which leave the pool alone, and is told to stop when it
    has nothing to do. *)
Definition halt_asleep : M ph_thread_pool bool := modify (set_run false) ;;; ret false.

Lemma worker_round_job fuel asleep callback b p : rings_ok p -> is_Some (rings p !! b) -> run_loop p = true -> queued p <> [] ->
  (forall j p, callback j p = Ret (tt, p)) ->
  exists j p', worker_round (S fuel) asleep callback b p = Ret (true, p') /\ rings_ok p' /\ is_Some (rings p' !! b) /\ run_loop p' = true /\
    queued p ≡ₚ j :: queued p' /\ disp p' = disp p + 1 /\ num_pending p' = num_pending p - 1 /\ num_workers p' = num_workers p.
Proof.
  intros Hok Hb Hrun Hq Hcb. pose proof (pop_job_ok fuel asleep b p Hok Hb) as Hp.
  destruct (finds p b) as [i|] eqn:E; [|by apply finds_none in E]. destruct Hp as (j & p1 & Hp & Hc).
  assert (i < 64)%nat as Hi by (destruct Hc; by eapply (ro_bucket _ Hok)).
  pose proof (queued_leave i j p p1 Hi Hc) as Hqp. pose proof (ring_change_ok _ _ _ _ Hc Hok) as Hok1.
  apply (ring_change_present _ _ _ _ b) in Hc as Hb1. set (p2 := count_disp 1 (count_pending (-1) p1)).
  pose proof (wake_producer_rings p2 : same_rings p1 _) as W.
  exists j, (maybe_wake_producer p2). split.
  { unfold worker_round. step. rewrite Hrun. cbn [negb]. step_with Hp. step. step_with (Hcb j (count_pending (-1) p1)). step. by step. }
  destruct W as (Wr & Wu & Wm). split_and!; [by eapply same_rings_ok|by rewrite Wr, Hb1| | | | |].
  all: try (unfold p2, maybe_wake_producer; destruct Hc; cbn; case_bool; cbn; first [done | lia]).
Qed.

Lemma worker_round_idle fuel callback b p : rings_ok p -> is_Some (rings p !! b) -> run_loop p = true -> queued p = [] ->
  exists p', worker_round (S fuel) halt_asleep callback b p = Ret (negb (stop p), p') /\ run_loop p' = false /\
    queued p' = [] /\ disp p' = disp p /\ num_pending p' = num_pending p /\ num_workers p' = num_workers p.
Proof.
  intros Hok Hb Hrun Hq. pose proof (pop_job_ok fuel halt_asleep b p Hok Hb) as Hp. destruct (finds p b) as [i|] eqn:E.
  { destruct Hp as (j & p' & _ & Hc). assert (i < 64)%nat as Hi by (destruct Hc; by eapply (ro_bucket _ Hok)).
    pose proof (queued_leave i j p p' Hi Hc) as H. rewrite Hq in H. by apply Permutation_nil_l in H. }
  unfold worker_round. eexists. split; [|shelve]. step. rewrite Hrun. cbn [negb].
  erewrite bind_ret; [|rewrite Hp; reflexivity]. cbv beta iota. reflexivity. Unshelve. by split_and!.
Qed.

Lemma worker_loop_off rounds fuel asleep callback b p : run_loop p = false ->
  worker_loop (S rounds) fuel asleep callback b p = Ret (tt, worker_exit p).
Proof. intros H. cbn [worker_loop]. unfold worker_round. by rewrite (bind_ret _ _ p false p) by (step; by rewrite H). Qed.

Lemma queued_rings p p' : rings p' = rings p -> queued p' = queued p.
Proof. intros H. unfold queued. f_equal. apply list_fmap_ext. intros i x _. unfold items. by rewrite H. Qed.

Lemma worker_loop_drains fuel callback b rounds : (forall j p, callback j p = Ret (tt, p)) ->
  forall p, rings_ok p -> is_Some (rings p !! b) -> run_loop p = true -> (length (queued p) + 1 < rounds)%nat ->
  exists p', worker_loop rounds (S fuel) halt_asleep callback b p = Ret (tt, p') /\ queued p' = [] /\
    disp p' = disp p + zlen (queued p) /\ num_pending p' = num_pending p - zlen (queued p) /\ num_workers p' = num_workers p - 1.
Proof.
  intros Hcb. induction rounds as [|rounds IH]; intros p Hok Hb Hrun Hn; [lia|]. cbn [worker_loop].
  destruct (decide (queued p = [])) as [Hq|Hq].
  - destruct (worker_round_idle fuel callback b p) as (p1 & E & Hrun1 & Hq1 & Hd & Hp & Hw); auto. step_with E.
    exists (worker_exit p1). split.
    { destruct (stop p); cbn [negb]; [done|]. destruct rounds as [|rounds]; [lia|]. by apply worker_loop_off. }
    destruct (wake_consumer_rings (set_workers (num_workers p1 - 1) p1)) as (W & _). rewrite Hq. cbn [length].
    split; [rewrite <- Hq1; by apply (queued_rings p1 (worker_exit p1))|]. unfold worker_exit, maybe_wake_consumer. case_bool; cbn; lia.
  - destruct (worker_round_job fuel halt_asleep callback b p) as (j & p1 & E & Hok1 & Hb1 & Hrun1 & Hqp & Hd & Hp & Hw); auto.
    step_with E. pose proof (Permutation_length Hqp) as Hl. cbn [length] in Hl.
    destruct (IH p1) as (p' & E' & Hq' & Hd' & Hp' & Hw'); auto; [lia|]. exists p'. split; [done|]. split; [done|]. lia.
Qed.


Lemma pop_job_none fuel asleep b : forall p p', pop_job fuel asleep b p = Ret (None, p') -> run_loop p' = false.
Proof.
  induction fuel as [|fuel IH]; intros p p' H; [done|]. cbn [pop_job] in H. binv H. destruct a as [j|]; [done|].
  binv H. binv H. destruct a0 as [j|]; [done|]. binv H. binv H. binv H. injection E4 as <- <-.
  destruct (run_loop s3) eqn:Er; cbn in H; [by eapply IH|]. by injection H as <-.
Qed.

(** A worker leaves its loop only when the whole process has been told to stop:
    stopping one pool has no effect while the scheduler runs. *)
Theorem stop_needs_halt fuel asleep callback b p p' :
  worker_round fuel asleep callback b p = Ret (false, p') -> run_loop p' = false.
Proof.
  unfold worker_round. intros H. binv H. injection E as <- <-. destruct (run_loop p) eqn:Er; cbn in H; [|by injection H as <-].
  binv H. destruct a as [j|].
  - binv H. binv H. binv H. binv H. done.
  - apply pop_job_none in E. binv H. injection E0 as <- <-. by injection H as _ <-.
Qed.

(** A ring that is initialized a second time, as by a worker that tested the
    shared ring without the lock, loses the job that was queued in between. *)
Theorem init_ring_race b j p : rings_ok p -> (b < 64)%nat -> rings p !! b = None ->
  exists p', enqueue b j (need_ring b p) = Ret (true, p') /\ items p' b = [j] /\ items (init_ring b p') b = [].
Proof.
  intros Hok Hb Hn. pose proof (need_ring_ok b p Hb Hok) as Hok1. pose proof (need_ring_present b p) as Hp.
  pose proof (need_ring_items b p b) as Hi. unfold items in Hi at 2. rewrite Hn in Hi.
  pose proof (ring_slots_min (need_ring b p)).
  destruct (enqueue_total b j (need_ring b p) Hp) as [[[] p'] E]; [| |..].
  - exists p'. split; [done|]. apply enqueue_true, ring_change_items in E as [E _]. rewrite Hi in E. split; [done|].
    unfold items, init_ring. cbn. by rewrite lookup_insert_eq, init_items.
  - apply enqueue_false in E as [_ (r & Hr & Hf)]. destruct (ro_size _ Hok1 b r Hr) as [Hs _].
    unfold items in Hi. rewrite Hr in Hi. rewrite Hi in Hf. cbn in Hf. lia.
Qed.

End proofs.

(** ** Collectors *)

Definition collectors_ok (c : collectors) : Prop :=
  0 <= next_collector_id c < 128 /\ length (collector_funcs c) = 128%nat /\
  Forall is_Some (take (Z.to_nat (next_collector_id c)) (collector_funcs c)).

(** A registered collector is called, after those that were registered before. *)
Theorem collector_registered func c : collectors_ok c -> next_collector_id c < 127 ->
  exists c', ph_job_collector_register func c = Ret (PH_OK, c') /\ collectors_ok c' /\
    forall l, ph_job_collector_call c = Ret (l, c) -> ph_job_collector_call c' = Ret (l ++ [func], c').
Proof.
  intros (Hn & Hlen & Hall) Hlt. unfold ph_job_collector_register, MAX_COLLECTORS in *. step.
  rewrite (proj2 (Z.leb_gt _ _)) by lia. step. step. cbn [next_collector_id]. rewrite (wrapU_small 8) by lia.
  rewrite (proj2 (Z.leb_gt _ _)) by lia. step. eexists. split; [reflexivity|].
  set (n := next_collector_id c) in *. assert (Z.to_nat (n + 1) = S (Z.to_nat n)) as En by lia.
  assert (take (S (Z.to_nat n)) (<[Z.to_nat n:=Some func]> (collector_funcs c)) = take (Z.to_nat n) (collector_funcs c) ++ [Some func]) as Et.
  { erewrite take_S_r; [|apply list_lookup_insert_eq; lia]. by rewrite take_insert_ge. }
  split.
  - unfold collectors_ok. cbn. rewrite En, Et, length_insert. split; [lia|]. split; [done|]. apply Forall_app. split; [done|]. repeat constructor. eauto.
  - intros l. unfold ph_job_collector_call. cbn. rewrite En, Et. fold n. intros H.
    destruct (mapM id (take (Z.to_nat n) (collector_funcs c))) as [l'|] eqn:E; [|done]. injection H as <-.
    assert (mapM id (take (Z.to_nat n) (collector_funcs c) ++ [Some func]) = Some (l' ++ [func])) as ->; [|done].
    apply mapM_Some. apply mapM_Some in E. apply Forall2_app; [done|]. by constructor.
Qed.

(** The 128th registration fails, but is counted: the next call of the
    collectors goes through a null pointer. *)
Theorem collector_last_faults func c : collectors_ok c -> next_collector_id c = 127 -> collector_funcs c !! 127%nat = Some None ->
  exists c', ph_job_collector_register func c = Ret (PH_ERR, c') /\ ph_job_collector_call c' = Fault.
Proof.
  intros (Hn & Hlen & Hall) Hlt Hnull. unfold ph_job_collector_register, MAX_COLLECTORS in *. step. rewrite Hlt. change (128 <=? 127) with false. cbv iota.
  step. step.
  cbn [next_collector_id]. rewrite Hlt. change (128 <=? u8 (127 + 1)) with true. cbv iota. eexists. split; [reflexivity|]. unfold ph_job_collector_call. cbn.
  destruct (mapM id _) as [l|] eqn:E; [|done]. apply mapM_Some in E.
  change (Z.to_nat (u8 (127 + 1))) with 128%nat in E.
  assert (take 128 (collector_funcs c) !! 127%nat = Some None) as H by (rewrite lookup_take_lt; [done|lia]).
  destruct (Forall2_lookup_l _ _ _ _ _ E H) as (y & _ & Hy). done.
Qed.

(** ** A ring *)

#[export] Instance list_ring : ck_ring := {|
  ring := Z * list Z;
  ck_ring_init n := (n, []);
  ck_ring_enqueue_spmc r j := if zlen r.2 + 1 <? r.1 then Some (r.1, r.2 ++ [j]) else None;
  ck_ring_dequeue_spmc r := match r.2 with [] => None | j :: l => Some (j, (r.1, l)) end;
  ring_items r := r.2;
  ring_size r := r.1;
|}.

#[export] Instance list_ring_laws : ring_laws list_ring.
Proof.
  split; cbn; try done.
  - intros r j r'. case_bool; [|done]. intros [= <-]. cbn. zbool. auto with lia.
  - intros r j. case_bool; [done|]. intros _. zbool. lia.
  - intros [n [|j l]] j' r'; [done|]. by intros [= <- <-].
  - by intros [n [|j l]].
Qed.

(** Two workers and three jobs: one has been run, one is running, one is queued. *)
Definition busy_moves : list move :=
  [Worker 0; Worker 70; Submit 1 7; Submit 70 8; Thread 2; Thread 3; Submit 1 9; Thread 4; Thread 0; Thread 0; Thread 0; Thread 0; Thread 0;
   Thread 1; Thread 1; Thread 1].
Definition start : system := System (CR := list_ring) (new_pool 4) [] [] [] [] [].
Definition busy : system := default start (play busy_moves start).

Lemma busy_reachable : reachable (CR := list_ring) 4 busy.
Proof. apply (play_reachable 4 busy_moves start); [constructor|vm_compute; reflexivity]. Qed.

Lemma busy_rings : rings_ok (pool busy).
Proof. apply (reachable_invariant _ _ busy_reachable). Qed.


Lemma pool_rings_fifo_witness :
  on 1 (entered busy) = [7; 9] /\ on 1 (left_ busy) = [7] /\ on 1 (entered busy) = on 1 (left_ busy) ++ items (pool busy) 1.
Proof. do 2 (split; [vm_compute; reflexivity|]). apply (pool_rings_fifo 4 busy). exact busy_reachable. Defined.



Lemma pop_job_finds_witness : exists i j p', finds (pool busy) 0 = Some i /\ pop_job 1 (ret true) 0 (pool busy) = Ret (Some j, p') /\
    items (pool busy) i = j :: items p' i /\ (forall k, k <> i -> items p' k = items (pool busy) k) /\ queued (pool busy) ≡ₚ j :: queued p'.
Proof.
  apply (pop_job_finds 0 (ret true) 0 (pool busy)); [exact busy_rings|vm_compute; by eexists|by vm_compute].
Defined.


(** A worker that found nothing and has not yet counted itself as waiting is not
    woken by a job that arrives then: it sleeps with a job in the queue until
    its wait times out. *)
Theorem consumer_wakeup_lost : exists s v, reachable (CR := list_ring) 4 s /\ threads s = [WAsleep 0 v] /\ v = c_fut (pool s) /\
  queued (pool s) = [7] /\ run_loop (pool s) = true.
Proof.
  set (ms := [Worker 0; Thread 0; Thread 0; Thread 0; Submit 1 7; Thread 1; Thread 1; Thread 0; Thread 0]).
  exists (default start (play ms start)), 0. split; [|vm_compute; auto].
  apply (play_reachable 4 ms start); [constructor|vm_compute; reflexivity].
Qed.

End PoolProofs.
