(* ===== verification/Queue.v ===== *)
(** * Intrusive lists and queues (queue.h)

    A head and an entry have the same layout: the first word is a pointer to an
    element, the second the address of a word that holds such a pointer.  Addresses
    of first words are [cell]s; the memory maps them to the two words.  Lists that
    have no second word do not use it. *)

From Stdlib Require Import ZArith Lia.
From stdpp Require Import base numbers list gmap.
From S2P Require Import Prelude.

Module Queue.

(** [&head->first] and [&elm->field.next]. *)
Inductive cell := CHead (head : positive) | CNext (elm : positive).

#[export] Instance cell_eq_dec : EqDecision cell.
Proof. solve_decision. Defined.
#[export] Instance cell_countable : Countable cell.
Proof.
  refine (inj_countable' (fun c => match c with CHead h => inl h | CNext e => inr e end)
    (fun x => match x with inl h => CHead h | inr e => CNext e end) _). by intros [].
Defined.

Record qmem := QMem { word1 : gmap cell (option positive); word2 : gmap cell cell }.

(** Reading and writing the words at an address; [Fault] where there is no object. *)
Definition load (c : cell) : M qmem (option positive) := fun m => match word1 m !! c with Some v => Ret (v, m) | None => Fault end.
Definition store (c : cell) (v : option positive) : M qmem unit := fun m =>
  match word1 m !! c with Some _ => Ret (tt, QMem (<[c := v]> (word1 m)) (word2 m)) | None => Fault end.
Definition load2 (c : cell) : M qmem cell := fun m => match word2 m !! c with Some v => Ret (v, m) | None => Fault end.
Definition store2 (c v : cell) : M qmem unit := fun m =>
  match word2 m !! c with Some _ => Ret (tt, QMem (word1 m) (<[c := v]> (word2 m))) | None => Fault end.
Definition deref (p : option positive) : M qmem positive := of_option p.

(** [PH_SLIST_NEXT] and the like, of a pointer. *)
Definition NEXT (p : option positive) : M qmem (option positive) := e <-- deref p ;; load (CNext e).

(** The walk of the removals: the element whose successor is [elm]. *)
Fixpoint find_prev (fuel : nat) (curelm : option positive) (elm : positive) : M qmem positive :=
  match fuel with
  | O => fault
  | S fuel =>
      c <-- deref curelm ;;
      n <-- load (CNext c) ;;
      if bool_decide (n = Some elm) then ret c else find_prev fuel n elm
  end.

(** [FOREACH]: the elements in the order of the visits. *)
Fixpoint foreach (fuel : nat) (var : option positive) (body : positive -> M qmem unit) : M qmem unit :=
  match fuel with
  | O => fault
  | S fuel =>
      match var with
      | None => ret tt
      | Some v => body v ;;; next <-- load (CNext v) ;; foreach fuel next body
      end
  end.

(** [FOREACH_SAFE]: the successor is read before the body runs. *)
Fixpoint foreach_safe (fuel : nat) (var : option positive) (body : positive -> M qmem unit) : M qmem unit :=
  match fuel with
  | O => fault
  | S fuel =>
      match var with
      | None => ret tt
      | Some v => tvar <-- load (CNext v) ;; body v ;;; foreach_safe fuel tvar body
      end
  end.

(** ** Singly-linked lists *)

Definition PH_SLIST_EMPTY (head : positive) : M qmem bool := p <-- load (CHead head) ;; ret (bool_decide (p = None)).
Definition PH_SLIST_INIT (head : positive) : M qmem unit := store (CHead head) None.
Definition PH_SLIST_INSERT_AFTER (slistelm elm : positive) : M qmem unit :=
  n <-- load (CNext slistelm) ;; store (CNext elm) n ;;; store (CNext slistelm) (Some elm).
Definition PH_SLIST_INSERT_HEAD (head elm : positive) : M qmem unit :=
  n <-- load (CHead head) ;; store (CNext elm) n ;;; store (CHead head) (Some elm).
Definition PH_SLIST_REMOVE_AFTER (elm : positive) : M qmem unit :=
  n <-- load (CNext elm) ;; nn <-- NEXT n ;; store (CNext elm) nn.
Definition PH_SLIST_REMOVE_HEAD (head : positive) : M qmem unit :=
  f <-- load (CHead head) ;; n <-- NEXT f ;; store (CHead head) n.
Definition PH_SLIST_REMOVE (fuel : nat) (head elm : positive) : M qmem unit :=
  f <-- load (CHead head) ;;
  if bool_decide (f = Some elm) then PH_SLIST_REMOVE_HEAD head
  else curelm <-- find_prev fuel f elm ;; PH_SLIST_REMOVE_AFTER curelm.
Definition PH_SLIST_SWAP (head1 head2 : positive) : M qmem unit :=
  swap_first <-- load (CHead head1) ;;
  f <-- load (CHead head2) ;;
  store (CHead head1) f ;;; store (CHead head2) swap_first.

(** ** Singly-linked tail queues *)

Definition PH_STAILQ_EMPTY (head : positive) : M qmem bool := p <-- load (CHead head) ;; ret (bool_decide (p = None)).
Definition PH_STAILQ_INIT (head : positive) : M qmem unit := store (CHead head) None ;;; store2 (CHead head) (CHead head).
Definition PH_STAILQ_CONCAT (head1 head2 : positive) : M qmem unit :=
  e <-- PH_STAILQ_EMPTY head2 ;;
  if (e : bool) then ret tt
  else
    l1 <-- load2 (CHead head1) ;; f2 <-- load (CHead head2) ;; store l1 f2 ;;;
    l2 <-- load2 (CHead head2) ;; store2 (CHead head1) l2 ;;;
    PH_STAILQ_INIT head2.
Definition PH_STAILQ_INSERT_AFTER (head tqelm elm : positive) : M qmem unit :=
  n <-- load (CNext tqelm) ;;
  store (CNext elm) n ;;;
  (if bool_decide (n = None) then store2 (CHead head) (CNext elm) else ret tt) ;;;
  store (CNext tqelm) (Some elm).
Definition PH_STAILQ_INSERT_HEAD (head elm : positive) : M qmem unit :=
  n <-- load (CHead head) ;;
  store (CNext elm) n ;;;
  (if bool_decide (n = None) then store2 (CHead head) (CNext elm) else ret tt) ;;;
  store (CHead head) (Some elm).
Definition PH_STAILQ_INSERT_TAIL (head elm : positive) : M qmem unit :=
  store (CNext elm) None ;;;
  l <-- load2 (CHead head) ;; store l (Some elm) ;;;
  store2 (CHead head) (CNext elm).
(** The element that contains the last word. *)
Definition PH_STAILQ_LAST (head : positive) : M qmem (option positive) :=
  e <-- PH_STAILQ_EMPTY head ;;
  if (e : bool) then ret None
  else l <-- load2 (CHead head) ;; match l with CNext e => ret (Some e) | CHead _ => fault end.
Definition PH_STAILQ_REMOVE_HEAD (head : positive) : M qmem unit :=
  f <-- load (CHead head) ;; n <-- NEXT f ;;
  store (CHead head) n ;;;
  if bool_decide (n = None) then store2 (CHead head) (CHead head) else ret tt.
Definition PH_STAILQ_REMOVE_AFTER (head elm : positive) : M qmem unit :=
  n <-- load (CNext elm) ;; nn <-- NEXT n ;;
  store (CNext elm) nn ;;;
  if bool_decide (nn = None) then store2 (CHead head) (CNext elm) else ret tt.
Definition PH_STAILQ_REMOVE (fuel : nat) (head elm : positive) : M qmem unit :=
  f <-- load (CHead head) ;;
  if bool_decide (f = Some elm) then PH_STAILQ_REMOVE_HEAD head
  else curelm <-- find_prev fuel f elm ;; PH_STAILQ_REMOVE_AFTER head curelm.
Definition PH_STAILQ_SWAP (head1 head2 : positive) : M qmem unit :=
  swap_first <-- load (CHead head1) ;;
  swap_last <-- load2 (CHead head1) ;;
  f <-- load (CHead head2) ;; store (CHead head1) f ;;;
  l <-- load2 (CHead head2) ;; store2 (CHead head1) l ;;;
  store (CHead head2) swap_first ;;;
  store2 (CHead head2) swap_last ;;;
  e <-- PH_STAILQ_EMPTY head1 ;; (if (e : bool) then store2 (CHead head1) (CHead head1) else ret tt) ;;;
  e <-- PH_STAILQ_EMPTY head2 ;; if (e : bool) then store2 (CHead head2) (CHead head2) else ret tt.

(** ** Lists *)

Definition PH_LIST_INIT (head : positive) : M qmem unit := store (CHead head) None.
Definition PH_LIST_INSERT_AFTER (listelm elm : positive) : M qmem unit :=
  n <-- load (CNext listelm) ;;
  store (CNext elm) n ;;;
  match n with Some n => store2 (CNext n) (CNext elm) | None => ret tt end ;;;
  store (CNext listelm) (Some elm) ;;;
  store2 (CNext elm) (CNext listelm).
Definition PH_LIST_INSERT_BEFORE (listelm elm : positive) : M qmem unit :=
  p <-- load2 (CNext listelm) ;; store2 (CNext elm) p ;;;
  store (CNext elm) (Some listelm) ;;;
  p <-- load2 (CNext listelm) ;; store p (Some elm) ;;;
  store2 (CNext listelm) (CNext elm).
Definition PH_LIST_INSERT_HEAD (head elm : positive) : M qmem unit :=
  n <-- load (CHead head) ;;
  store (CNext elm) n ;;;
  match n with Some n => store2 (CNext n) (CNext elm) | None => ret tt end ;;;
  store (CHead head) (Some elm) ;;;
  store2 (CNext elm) (CHead head).
Definition PH_LIST_REMOVE (elm : positive) : M qmem unit :=
  n <-- load (CNext elm) ;;
  match n with Some n => p <-- load2 (CNext elm) ;; store2 (CNext n) p | None => ret tt end ;;;
  p <-- load2 (CNext elm) ;; n <-- load (CNext elm) ;; store p n.
Definition PH_LIST_SWAP (head1 head2 : positive) : M qmem unit :=
  swap_tmp <-- load (CHead head1) ;;
  f <-- load (CHead head2) ;; store (CHead head1) f ;;;
  store (CHead head2) swap_tmp ;;;
  f1 <-- load (CHead head1) ;; match f1 with Some e => store2 (CNext e) (CHead head1) | None => ret tt end ;;;
  f2 <-- load (CHead head2) ;; match f2 with Some e => store2 (CNext e) (CHead head2) | None => ret tt end.

(** ** Tail queues *)

Definition PH_TAILQ_EMPTY (head : positive) : M qmem bool := p <-- load (CHead head) ;; ret (bool_decide (p = None)).
Definition PH_TAILQ_INIT (head : positive) : M qmem unit := store (CHead head) None ;;; store2 (CHead head) (CHead head).
Definition PH_TAILQ_CONCAT (head1 head2 : positive) : M qmem unit :=
  e <-- PH_TAILQ_EMPTY head2 ;;
  if (e : bool) then ret tt
  else
    l1 <-- load2 (CHead head1) ;; f2 <-- load (CHead head2) ;; store l1 f2 ;;;
    f2 <-- load (CHead head2) ;; e <-- deref f2 ;; l1 <-- load2 (CHead head1) ;; store2 (CNext e) l1 ;;;
    l2 <-- load2 (CHead head2) ;; store2 (CHead head1) l2 ;;;
    PH_TAILQ_INIT head2.
Definition PH_TAILQ_INSERT_AFTER (head listelm elm : positive) : M qmem unit :=
  n <-- load (CNext listelm) ;;
  store (CNext elm) n ;;;
  match n with Some n => store2 (CNext n) (CNext elm) | None => store2 (CHead head) (CNext elm) end ;;;
  store (CNext listelm) (Some elm) ;;;
  store2 (CNext elm) (CNext listelm).
Definition PH_TAILQ_INSERT_BEFORE (listelm elm : positive) : M qmem unit :=
  p <-- load2 (CNext listelm) ;; store2 (CNext elm) p ;;;
  store (CNext elm) (Some listelm) ;;;
  p <-- load2 (CNext listelm) ;; store p (Some elm) ;;;
  store2 (CNext listelm) (CNext elm).
Definition PH_TAILQ_INSERT_HEAD (head elm : positive) : M qmem unit :=
  n <-- load (CHead head) ;;
  store (CNext elm) n ;;;
  match n with Some n => store2 (CNext n) (CNext elm) | None => store2 (CHead head) (CNext elm) end ;;;
  store (CHead head) (Some elm) ;;;
  store2 (CNext elm) (CHead head).
Definition PH_TAILQ_INSERT_TAIL (head elm : positive) : M qmem unit :=
  store (CNext elm) None ;;;
  l <-- load2 (CHead head) ;; store2 (CNext elm) l ;;;
  l <-- load2 (CHead head) ;; store l (Some elm) ;;;
  store2 (CHead head) (CNext elm).
(** The last word's address is taken for that of a head: its second word is the
    address of the word in front. *)
Definition PH_TAILQ_LAST (head : positive) : M qmem (option positive) := l <-- load2 (CHead head) ;; p <-- load2 l ;; load p.
Definition PH_TAILQ_PREV (elm : positive) : M qmem (option positive) := l <-- load2 (CNext elm) ;; p <-- load2 l ;; load p.
Definition PH_TAILQ_REMOVE (head elm : positive) : M qmem unit :=
  n <-- load (CNext elm) ;;
  p <-- load2 (CNext elm) ;;
  match n with Some n => store2 (CNext n) p | None => store2 (CHead head) p end ;;;
  p <-- load2 (CNext elm) ;; n <-- load (CNext elm) ;; store p n.
Definition PH_TAILQ_SWAP (head1 head2 : positive) : M qmem unit :=
  swap_first <-- load (CHead head1) ;;
  swap_last <-- load2 (CHead head1) ;;
  f <-- load (CHead head2) ;; store (CHead head1) f ;;;
  l <-- load2 (CHead head2) ;; store2 (CHead head1) l ;;;
  store (CHead head2) swap_first ;;;
  store2 (CHead head2) swap_last ;;;
  f1 <-- load (CHead head1) ;;
  match f1 with Some e => store2 (CNext e) (CHead head1) | None => store2 (CHead head1) (CHead head1) end ;;;
  f2 <-- load (CHead head2) ;;
  match f2 with Some e => store2 (CNext e) (CHead head2) | None => store2 (CHead head2) (CHead head2) end.

End Queue.
