(* ===== verification/QueueProofs.v ===== *)
(** * Proofs about intrusive lists and queues (queue.h)

    A chain of words represents a list of elements; inserting and removing an
    element at any place are two lemmas on chains, and each macro is one of them.
    The theorems say that the macros refine operations on lists and leave memory
    outside of the elements alone. *)

From Stdlib Require Import ZArith Lia.
From stdpp Require Import base numbers list gmap.
From S2P Require Import Prelude Queue.

Module QueueProofs.
Import Queue.

(** ** Chains *)

Fixpoint seg (m : qmem) (c : cell) (l : list positive) : Prop :=
  match l with [] => True | e :: l => word1 m !! c = Some (Some e) /\ seg m (CNext e) l end.
Definition end_cell (c : cell) (l : list positive) : cell := from_option CNext c (last l).
Definition chain (m : qmem) (c : cell) (l : list positive) : Prop := seg m c l /\ word1 m !! end_cell c l = Some None.
(** The second words: each element has the address of the word that points to it. *)
Fixpoint back (m : qmem) (c : cell) (l : list positive) : Prop :=
  match l with [] => True | e :: l => word2 m !! CNext e = Some c /\ back m (CNext e) l end.

Lemma end_cell_cons c e l : end_cell c (e :: l) = end_cell (CNext e) l.
Proof. unfold end_cell. rewrite last_cons. by destruct (last l). Qed.
Lemma end_cell_app c l1 l2 : end_cell c (l1 ++ l2) = end_cell (end_cell c l1) l2.
Proof. unfold end_cell. rewrite last_app. by destruct (last l2). Qed.
Lemma end_cell_snoc c l e : end_cell c (l ++ [e]) = CNext e.
Proof. by rewrite end_cell_app. Qed.

Lemma end_cell_in c l : end_cell c l = c \/ exists e, e ∈ l /\ end_cell c l = CNext e.
Proof.
  unfold end_cell. destruct (last l) as [e|] eqn:E; [|by left]. right. exists e. split; [|done].
  apply last_Some in E as [l' ->]. set_solver.
Qed.

Lemma end_cell_ne_next h l e : e ∉ l -> end_cell (CHead h) l <> CNext e.
Proof. intros He. destruct (end_cell_in (CHead h) l) as [->|(x & Hx & ->)]; [done|]. intros [= ->]. done. Qed.

Lemma seg_app m c l1 l2 : seg m c (l1 ++ l2) <-> seg m c l1 /\ seg m (end_cell c l1) l2.
Proof.
  revert c. induction l1 as [|e l1 IH]; intros c; cbn [app seg]; [by split; [|intros [_ ?]]|].
  rewrite IH, end_cell_cons. tauto.
Qed.
Lemma back_app m c l1 l2 : back m c (l1 ++ l2) <-> back m c l1 /\ back m (end_cell c l1) l2.
Proof.
  revert c. induction l1 as [|e l1 IH]; intros c; cbn [app back]; [by split; [|intros [_ ?]]|].
  rewrite IH, end_cell_cons. tauto.
Qed.
Lemma chain_app m c l1 l2 : chain m c (l1 ++ l2) <-> seg m c l1 /\ chain m (end_cell c l1) l2.
Proof. unfold chain. rewrite seg_app, end_cell_app. tauto. Qed.
Lemma chain_cons m c e l : chain m c (e :: l) <-> word1 m !! c = Some (Some e) /\ chain m (CNext e) l.
Proof. unfold chain. rewrite end_cell_cons. cbn. tauto. Qed.

Lemma chain_head m c l : chain m c l -> word1 m !! c = Some (head l).
Proof. destruct l as [|e l]; [by intros [_ ?]|]. by intros [? _]%chain_cons. Qed.

(** A segment does not depend on its last word. *)
Lemma seg_ext m m' c l : NoDup l -> (forall e, e ∈ l -> CNext e <> c) ->
  (word1 m' !! c = word1 m !! c \/ l = []) -> (forall e, e ∈ l -> CNext e <> end_cell c l -> word1 m' !! CNext e = word1 m !! CNext e) ->
  seg m c l -> seg m' c l.
Proof.
  revert c. induction l as [|e l IH]; intros c Hnd Hc [H0|H0] Hl; try done. apply NoDup_cons in Hnd as [He Hnd].
  cbn [seg]. intros [H1 H2]. split; [by rewrite H0|]. rewrite end_cell_cons in Hl. apply IH; auto.
  - intros x Hx [= ->]. done.
  - destruct l as [|y l]; [by right|left]. apply Hl; [set_solver|]. rewrite end_cell_cons.
    destruct (end_cell_in (CNext y) l) as [->|(x & Hx & ->)]; intros [= ->]; set_solver.
  - intros x Hx. apply Hl. set_solver.
Qed.

Lemma chain_move m m' c c' l : chain m c l -> word1 m' !! c' = word1 m !! c ->
  (forall e, e ∈ l -> word1 m' !! CNext e = word1 m !! CNext e) -> chain m' c' l.
Proof.
  revert c c'. induction l as [|e l IH]; intros c c' Hch H0 Hl.
  - destruct Hch as [_ H]. split; [done|]. cbn in *. congruence.
  - apply chain_cons in Hch as [H1 H2]. apply chain_cons. split; [congruence|]. apply (IH (CNext e)); [done| |]; intros; apply Hl; set_solver.
Qed.

Lemma back_ext m m' c l : (forall e, e ∈ l -> word2 m' !! CNext e = word2 m !! CNext e) -> back m c l -> back m' c l.
Proof.
  revert c. induction l as [|e l IH]; intros c Hl; [done|]. cbn [back]. intros [H1 H2]. split; [rewrite Hl by set_solver; done|].
  apply IH; [|done]. intros x Hx. apply Hl. set_solver.
Qed.

(** ** Representations *)

Definition links (m : qmem) (h : positive) (l : list positive) : Prop := chain m (CHead h) l /\ NoDup l.
Definition tail (m : qmem) (h : positive) (l : list positive) : Prop := word2 m !! CHead h = Some (end_cell (CHead h) l).

Definition slist := links.
Definition stailq (m : qmem) (h : positive) (l : list positive) : Prop := links m h l /\ tail m h l.
Definition dlist (m : qmem) (h : positive) (l : list positive) : Prop := links m h l /\ back m (CHead h) l.
Definition tailq (m : qmem) (h : positive) (l : list positive) : Prop := links m h l /\ back m (CHead h) l /\ tail m h l.

(** Memory outside of a head and elements is as it was. *)
Definition frame (h : positive) (l : list positive) (m m' : qmem) : Prop :=
  (forall c, c <> CHead h -> (forall e, e ∈ l -> c <> CNext e) -> word1 m' !! c = word1 m !! c /\ word2 m' !! c = word2 m !! c).

Lemma seg_upto m m' h l1 : NoDup l1 -> seg m (CHead h) l1 ->
  (forall c, c <> end_cell (CHead h) l1 -> (c = CHead h \/ exists x, x ∈ l1 /\ c = CNext x) -> word1 m' !! c = word1 m !! c) ->
  seg m' (CHead h) l1.
Proof.
  intros Hnd Hs Hm. apply (seg_ext m); auto.
  - destruct l1 as [|x l1]; [by right|left]. apply Hm; [|by left]. rewrite end_cell_cons.
    destruct (end_cell_in (CNext x) l1) as [->|(y & _ & ->)]; done.
  - intros e He Hne. apply Hm; [done|]. right. eauto.
Qed.

(** An element is put in after [l1]: the word there points to it. *)
Lemma links_insert m m' h l1 l2 e : links m h (l1 ++ l2) -> e ∉ l1 ++ l2 ->
  word1 m' !! end_cell (CHead h) l1 = Some (Some e) -> word1 m' !! CNext e = Some (head l2) ->
  (forall c, c <> end_cell (CHead h) l1 -> c <> CNext e -> word1 m' !! c = word1 m !! c) ->
  links m' h (l1 ++ e :: l2).
Proof.
  intros [Hc Hnd] He H1 H2 Hm. apply chain_app in Hc as [Hs Hc]. apply NoDup_app in Hnd as (Hn1 & Hd & Hn2). split.
  - apply chain_app. split.
    + apply (seg_upto m); auto. intros c Hne [->|(x & Hx & ->)]; apply Hm; try done. intros [= ->]. set_solver.
    + apply chain_cons. split; [done|]. apply (chain_move m _ _ _ _ Hc); [by rewrite H2, (chain_head _ _ _ Hc)|].
      intros x Hx. apply Hm; [|intros [= ->]; set_solver]. apply not_eq_sym, end_cell_ne_next. set_solver.
  - apply NoDup_app. split; [done|]. split; [set_solver|]. apply NoDup_cons. set_solver.
Qed.

(** The element after [l1] is taken out. *)
Lemma links_remove m m' h l1 l2 e : links m h (l1 ++ e :: l2) ->
  word1 m' !! end_cell (CHead h) l1 = Some (head l2) ->
  (forall c, c <> end_cell (CHead h) l1 -> word1 m' !! c = word1 m !! c) ->
  links m' h (l1 ++ l2).
Proof.
  intros [Hc Hnd] H1 Hm. apply chain_app in Hc as [Hs Hc]. apply chain_cons in Hc as [_ Hc].
  apply NoDup_app in Hnd as (Hn1 & Hd & Hn2). apply NoDup_cons in Hn2 as [He Hn2]. split.
  - apply chain_app. split; [apply (seg_upto m); auto|].
    apply (chain_move m _ _ _ _ Hc); [by rewrite H1, (chain_head _ _ _ Hc)|].
    intros x Hx. apply Hm, not_eq_sym, end_cell_ne_next. set_solver.
  - apply NoDup_app. set_solver.
Qed.

Lemma back_insert m m' h l1 l2 e : back m (CHead h) (l1 ++ l2) -> NoDup (l1 ++ l2) -> e ∉ l1 ++ l2 ->
  word2 m' !! CNext e = Some (end_cell (CHead h) l1) ->
  (forall y, head l2 = Some y -> word2 m' !! CNext y = Some (CNext e)) ->
  (forall x, x ∈ l1 ++ l2 -> Some x <> head l2 -> word2 m' !! CNext x = word2 m !! CNext x) ->
  back m' (CHead h) (l1 ++ e :: l2).
Proof.
  intros [Hb1 Hb2]%back_app (Hn1 & Hd & Hn2)%NoDup_app He H1 H2 Hm. apply back_app. split.
  - apply (back_ext m); [|done]. intros x Hx. apply Hm; [set_solver|]. intros Hy. symmetry in Hy. apply head_Some in Hy as [l' ->]. set_solver.
  - cbn [back]. split; [done|]. destruct l2 as [|y l2]; [done|]. cbn [back] in *. split; [by apply H2|]. destruct Hb2 as [_ Hb2].
    apply (back_ext m); [|done]. intros x Hx. apply Hm; [set_solver|]. intros [= ->]. by apply NoDup_cons in Hn2 as [? _].
Qed.

Lemma back_remove m m' h l1 l2 e : back m (CHead h) (l1 ++ e :: l2) -> NoDup (l1 ++ e :: l2) ->
  (forall y, head l2 = Some y -> word2 m' !! CNext y = Some (end_cell (CHead h) l1)) ->
  (forall x, x ∈ l1 ++ l2 -> Some x <> head l2 -> word2 m' !! CNext x = word2 m !! CNext x) ->
  back m' (CHead h) (l1 ++ l2).
Proof.
  intros [Hb1 Hb2]%back_app (Hn1 & Hd & Hn2)%NoDup_app H2 Hm. apply back_app. split.
  - apply (back_ext m); [|done]. intros x Hx. apply Hm; [set_solver|]. intros Hy. symmetry in Hy. apply head_Some in Hy as [l' ->]. set_solver.
  - destruct l2 as [|y l2]; [done|]. cbn [back] in *. split; [by apply H2|]. destruct Hb2 as (_ & _ & Hb2).
    apply (back_ext m); [|done]. intros x Hx. apply Hm; [set_solver|]. intros [= ->]. apply NoDup_cons in Hn2 as [_ Hn2].
    by apply NoDup_cons in Hn2 as [? _].
Qed.

Lemma tail_insert m m' h l1 l2 e : tail m h (l1 ++ l2) ->
  word2 m' !! CHead h = (if l2 is [] then Some (CNext e) else word2 m !! CHead h) -> tail m' h (l1 ++ e :: l2).
Proof.
  unfold tail. intros H ->. destruct l2 as [|y l2]; [by rewrite end_cell_snoc|]. rewrite H, !end_cell_app. f_equal.
Qed.
Lemma tail_remove m m' h l1 l2 e : tail m h (l1 ++ e :: l2) ->
  word2 m' !! CHead h = (if l2 is [] then Some (end_cell (CHead h) l1) else word2 m !! CHead h) -> tail m' h (l1 ++ l2).
Proof.
  unfold tail. intros H ->. destruct l2 as [|y l2]; [by rewrite app_nil_r|]. rewrite H, !end_cell_app. f_equal.
Qed.

(** ** Running the macros *)

Lemma load_ok c v m : word1 m !! c = Some v -> load c m = Ret (v, m).
Proof. unfold load. by intros ->. Qed.
Lemma load2_ok c v m : word2 m !! c = Some v -> load2 c m = Ret (v, m).
Proof. unfold load2. by intros ->. Qed.
Lemma store_ok c v m : is_Some (word1 m !! c) -> store c v m = Ret (tt, QMem (<[c := v]> (word1 m)) (word2 m)).
Proof. unfold store. by intros [? ->]. Qed.
Lemma store2_ok c v m : is_Some (word2 m !! c) -> store2 c v m = Ret (tt, QMem (word1 m) (<[c := v]> (word2 m))).
Proof. unfold store2. by intros [? ->]. Qed.

Lemma qbind_assoc {A B C} (c : M qmem A) (f : A -> M qmem B) (g : B -> M qmem C) m :
  bind (bind c f) g m = bind c (fun x => bind (f x) g) m.
Proof. unfold bind. by destruct (c m) as [[]| |]. Qed.

(** Look a word up behind the stores. *)
Ltac qlook :=
  cbn [word1 word2];
  repeat first [ rewrite lookup_insert_eq | rewrite lookup_insert_ne by first [done | congruence] ];
  first [ eassumption | reflexivity | by eexists | eauto; fail ].
Ltac qstep :=
  lazymatch goal with
  | |- context [bool_decide (None = None)] => rewrite bool_decide_eq_true_2 by done
  | |- context [bool_decide (Some _ = None)] => rewrite bool_decide_eq_false_2 by done
  | |- bind (load ?c) _ ?m = _ => erewrite bind_ret by (apply load_ok; qlook)
  | |- bind (load2 ?c) _ ?m = _ => erewrite bind_ret by (apply load2_ok; qlook)
  | |- bind (store ?c _) _ ?m = _ => erewrite bind_ret by (apply store_ok; qlook)
  | |- bind (store2 ?c _) _ ?m = _ => erewrite bind_ret by (apply store2_ok; qlook)
  | |- bind (ret _) _ _ = _ => erewrite bind_ret by reflexivity
  | |- bind (deref (Some _)) _ _ = _ => erewrite bind_ret by reflexivity
  | |- bind (bind _ _) _ _ = _ => rewrite qbind_assoc
  | |- store _ _ _ = _ => rewrite store_ok by qlook
  | |- store2 _ _ _ = _ => rewrite store2_ok by qlook
  end; cbv beta iota.
Ltac qrun := repeat qstep; reflexivity.

(** The words an element needs. *)
Definition node (m : qmem) (e : positive) : Prop := is_Some (word1 m !! CNext e) /\ is_Some (word2 m !! CNext e).

(** What is known in front of an insertion after [l1] or a removal there. *)
Lemma place_insert m h l1 l2 e : links m h (l1 ++ l2) -> e ∉ l1 ++ l2 ->
  word1 m !! end_cell (CHead h) l1 = Some (head l2) /\ end_cell (CHead h) l1 <> CNext e.
Proof. intros [[_ Hc]%chain_app _] He. split; [by apply chain_head|]. apply end_cell_ne_next. set_solver. Qed.

Lemma place_remove m h l1 l2 e : links m h (l1 ++ e :: l2) ->
  word1 m !! end_cell (CHead h) l1 = Some (Some e) /\ word1 m !! CNext e = Some (head l2) /\ end_cell (CHead h) l1 <> CNext e.
Proof.
  intros [[_ Hc]%chain_app Hnd]. apply chain_cons in Hc as [H1 H2]. split; [done|]. split; [by apply chain_head|].
  apply end_cell_ne_next. apply NoDup_app in Hnd as (_ & Hd & _). set_solver.
Qed.

Lemma frame_end h (l : list positive) c l1 : c <> CHead h -> (forall e, e ∈ l -> c <> CNext e) -> (forall x, x ∈ l1 -> x ∈ l) -> c <> end_cell (CHead h) l1.
Proof. intros H1 H2 H3. destruct (end_cell_in (CHead h) l1) as [->|(x & Hx & ->)]; auto. Qed.

(** [frame] for a state reached by stores to the word in front and to elements. *)
Ltac framed l1 e :=
  let c := fresh "c" in let Hc := fresh "Hc" in let Hl := fresh "Hl" in
  intros c Hc Hl; pose proof (frame_end _ _ _ l1 Hc Hl ltac:(set_solver)); pose proof (Hl e ltac:(set_solver));
  try match goal with H : word2 _ !! CNext ?y = _ |- _ => pose proof (Hl y ltac:(set_solver)) end; split; qlook.

(** *** Single links *)

Lemma slist_insert_at m h l1 l2 e : slist m h (l1 ++ l2) -> e ∉ l1 ++ l2 -> node m e ->
  exists m', (n <-- load (end_cell (CHead h) l1) ;; store (CNext e) n ;;; store (end_cell (CHead h) l1) (Some e)) m = Ret (tt, m') /\
    slist m' h (l1 ++ e :: l2) /\ frame h (e :: l1 ++ l2) m m'.
Proof.
  intros Hs He [Hn1 Hn2]. destruct (place_insert _ _ _ _ _ Hs He) as [Hp Hne]. eexists. split; [qrun|]. split; [|framed l1 e].
  apply (links_insert m); try done; intros; qlook.
Qed.

Lemma slist_remove_at m h l1 l2 e : slist m h (l1 ++ e :: l2) ->
  exists m', (n <-- load (end_cell (CHead h) l1) ;; nn <-- NEXT n ;; store (end_cell (CHead h) l1) nn) m = Ret (tt, m') /\
    slist m' h (l1 ++ l2) /\ frame h (l1 ++ e :: l2) m m'.
Proof.
  intros Hs. destruct (place_remove _ _ _ _ _ Hs) as (Hp & He & Hne). eexists. split; [unfold NEXT; qrun|]. split; [|framed l1 e].
  apply (links_remove m _ _ _ _ e); try done; intros; qlook.
Qed.

Lemma stailq_insert_at m h l1 l2 e : stailq m h (l1 ++ l2) -> e ∉ l1 ++ l2 -> node m e ->
  exists m', (n <-- load (end_cell (CHead h) l1) ;; store (CNext e) n ;;;
      (if bool_decide (n = None) then store2 (CHead h) (CNext e) else ret tt) ;;; store (end_cell (CHead h) l1) (Some e)) m = Ret (tt, m') /\
    stailq m' h (l1 ++ e :: l2) /\ frame h (e :: l1 ++ l2) m m'.
Proof.
  intros [Hs Ht] He [Hn1 Hn2]. destruct (place_insert _ _ _ _ _ Hs He) as [Hp Hne]. unfold tail in Ht.
  destruct l2 as [|y l2]; cbn [head] in Hp; (eexists; split; [qrun|]); (split; [split|framed l1 e]);
    try (apply (links_insert m); try done; intros; qlook); apply (tail_insert m); try done; qlook.
Qed.

Lemma stailq_remove_at m h l1 l2 e : stailq m h (l1 ++ e :: l2) ->
  exists m', (n <-- load (end_cell (CHead h) l1) ;; nn <-- NEXT n ;; store (end_cell (CHead h) l1) nn ;;;
      if bool_decide (nn = None) then store2 (CHead h) (end_cell (CHead h) l1) else ret tt) m = Ret (tt, m') /\
    stailq m' h (l1 ++ l2) /\ frame h (l1 ++ e :: l2) m m'.
Proof.
  intros [Hs Ht]. destruct (place_remove _ _ _ _ _ Hs) as (Hp & He & Hne). unfold tail in Ht.
  destruct l2 as [|y l2]; cbn [head] in He; (eexists; split; [unfold NEXT; qrun|]); (split; [split|framed l1 e]);
    try (apply (links_remove m _ _ _ _ e); try done; intros; qlook); apply (tail_remove m _ _ _ _ e); try done; qlook.
Qed.

Lemma stailq_insert_tail m h l e : stailq m h l -> e ∉ l -> node m e ->
  exists m', PH_STAILQ_INSERT_TAIL h e m = Ret (tt, m') /\ stailq m' h (l ++ [e]) /\ frame h (e :: l) m m'.
Proof.
  intros [Hs Ht] He [Hn1 Hn2]. pose proof Hs as Hs'. rewrite <- (app_nil_r l) in Hs', He.
  destruct (place_insert _ _ _ _ _ Hs' He) as [Hp Hne]. unfold tail in Ht. eexists. split; [unfold PH_STAILQ_INSERT_TAIL; qrun|].
  split; [split|framed l e].
  - apply (links_insert m); try done; intros; qlook.
  - apply (tail_insert m); [by rewrite app_nil_r|]. qlook.
Qed.

(** *** Double links *)

Lemma back_place m h l1 y l2 : back m (CHead h) (l1 ++ y :: l2) -> word2 m !! CNext y = Some (end_cell (CHead h) l1).
Proof. intros [_ [H _]]%back_app. done. Qed.

Lemma dlist_insert_at m h l1 l2 e : dlist m h (l1 ++ l2) -> e ∉ l1 ++ l2 -> node m e ->
  exists m', (n <-- load (end_cell (CHead h) l1) ;; store (CNext e) n ;;;
      match n with Some n => store2 (CNext n) (CNext e) | None => ret tt end ;;;
      store (end_cell (CHead h) l1) (Some e) ;;; store2 (CNext e) (end_cell (CHead h) l1)) m = Ret (tt, m') /\
    dlist m' h (l1 ++ e :: l2) /\ frame h (e :: l1 ++ l2) m m'.
Proof.
  intros [Hs Hb] He [Hn1 Hn2]. destruct (place_insert _ _ _ _ _ Hs He) as [Hp Hne].
  destruct l2 as [|y l2]; cbn [head] in Hp.
  - eexists. split; [qrun|]. split; [split|framed l1 e].
    + apply (links_insert m); try done; intros; qlook.
    + apply (back_insert m); try done; [apply Hs|qlook|]. intros x Hx _. assert (x <> e) by set_solver. qlook.
  - pose proof (back_place _ _ _ _ _ Hb) as Hy. assert (y <> e) by set_solver.
    eexists. split; [qrun|]. split; [split|framed l1 e].
    + apply (links_insert m); try done; intros; qlook.
    + apply (back_insert m); try done; [apply Hs|qlook|intros z [= <-]; qlook|].
      intros x Hx Hxy. assert (x <> e) by set_solver. assert (x <> y) by (intros ->; by apply Hxy). qlook.
Qed.

(** [INSERT_BEFORE] of both kinds is the same; the head's second word is not touched. *)
Lemma dlist_insert_before m h l1 x l2 e : dlist m h (l1 ++ x :: l2) -> e ∉ l1 ++ x :: l2 -> node m e ->
  exists m', PH_LIST_INSERT_BEFORE x e m = Ret (tt, m') /\ dlist m' h (l1 ++ e :: x :: l2) /\ frame h (e :: l1 ++ x :: l2) m m' /\
    word2 m' !! CHead h = word2 m !! CHead h.
Proof.
  intros [Hs Hb] He [Hn1 Hn2]. destruct (place_insert _ _ _ _ _ Hs He) as [Hp Hne]. cbn [head] in Hp.
  pose proof (back_place _ _ _ _ _ Hb) as Hy. assert (x <> e) by set_solver.
  eexists. split; [unfold PH_LIST_INSERT_BEFORE; qrun|]. split; [split|split; [framed l1 e|qlook]].
  - apply (links_insert m); try done; intros; qlook.
  - apply (back_insert m); try done; [apply Hs|qlook|intros z [= <-]; qlook|].
    intros z Hz Hzx. assert (z <> e) by set_solver. assert (z <> x) by (intros ->; by apply Hzx). qlook.
Qed.

Lemma dlist_remove m h l1 l2 e : dlist m h (l1 ++ e :: l2) ->
  exists m', PH_LIST_REMOVE e m = Ret (tt, m') /\ dlist m' h (l1 ++ l2) /\ frame h (l1 ++ e :: l2) m m'.
Proof.
  intros [Hs Hb]. destruct (place_remove _ _ _ _ _ Hs) as (Hp & He & Hne). pose proof (back_place _ _ _ _ _ Hb) as Hq.
  assert (NoDup (l1 ++ e :: l2)) as Hnd by apply Hs. unfold PH_LIST_REMOVE.
  destruct l2 as [|y l2]; cbn [head] in He.
  - eexists. split; [qrun|]. split; [split|framed l1 e].
    + apply (links_remove m _ _ _ _ e); try done; intros; qlook.
    + apply (back_remove m _ _ _ _ e); done.
  - assert (back m (CHead h) ((l1 ++ [e]) ++ y :: l2)) as Hy by (by rewrite <- app_assoc). apply back_place in Hy. rewrite end_cell_snoc in Hy.
    assert (e <> y) by (intros ->; apply NoDup_app in Hnd as (_ & _ & [? _]%NoDup_cons); set_solver).
    eexists. split; [qrun|]. split; [split|framed l1 e].
    + apply (links_remove m _ _ _ _ e); try done; intros; qlook.
    + apply (back_remove m _ _ _ _ e); try done; [intros z [= <-]; qlook|].
      intros z Hz Hzx. assert (z <> y) by (intros ->; by apply Hzx). qlook.
Qed.

Lemma tailq_insert_at m h l1 l2 e : tailq m h (l1 ++ l2) -> e ∉ l1 ++ l2 -> node m e ->
  exists m', (n <-- load (end_cell (CHead h) l1) ;; store (CNext e) n ;;;
      match n with Some n => store2 (CNext n) (CNext e) | None => store2 (CHead h) (CNext e) end ;;;
      store (end_cell (CHead h) l1) (Some e) ;;; store2 (CNext e) (end_cell (CHead h) l1)) m = Ret (tt, m') /\
    tailq m' h (l1 ++ e :: l2) /\ frame h (e :: l1 ++ l2) m m'.
Proof.
  intros (Hs & Hb & Ht) He [Hn1 Hn2]. destruct (place_insert _ _ _ _ _ Hs He) as [Hp Hne]. pose proof Ht as Ht'. unfold tail in Ht'.
  destruct l2 as [|y l2]; cbn [head] in Hp.
  - eexists. split; [qrun|]. split; [split_and!|framed l1 e].
    + apply (links_insert m); try done; intros; qlook.
    + apply (back_insert m); try done; [apply Hs|qlook|]. intros x Hx _. assert (x <> e) by set_solver. qlook.
    + apply (tail_insert m); [done|qlook].
  - pose proof (back_place _ _ _ _ _ Hb) as Hy. assert (y <> e) by set_solver.
    eexists. split; [qrun|]. split; [split_and!|framed l1 e].
    + apply (links_insert m); try done; intros; qlook.
    + apply (back_insert m); try done; [apply Hs|qlook|intros z [= <-]; qlook|].
      intros x Hx Hxy. assert (x <> e) by set_solver. assert (x <> y) by (intros ->; by apply Hxy). qlook.
    + apply (tail_insert m); [done|qlook].
Qed.

Lemma tailq_insert_tail m h l e : tailq m h l -> e ∉ l -> node m e ->
  exists m', PH_TAILQ_INSERT_TAIL h e m = Ret (tt, m') /\ tailq m' h (l ++ [e]) /\ frame h (e :: l) m m'.
Proof.
  intros (Hs & Hb & Ht) He [Hn1 Hn2]. rewrite <- (app_nil_r l) in Hs, Hb, Ht, He.
  destruct (place_insert _ _ _ _ _ Hs He) as [Hp Hne]. pose proof Ht as Ht'. unfold tail in Ht'. rewrite app_nil_r in Ht'.
  eexists. split; [unfold PH_TAILQ_INSERT_TAIL; qrun|]. rewrite app_nil_r in He. split; [split_and!|framed l e].
  - apply (links_insert m); try done; [by rewrite app_nil_r|intros; qlook..].
  - apply (back_insert m); try done; [apply Hs|by rewrite app_nil_r|qlook|]. rewrite app_nil_r. intros x Hx _. assert (x <> e) by set_solver. qlook.
  - apply (tail_insert m); [done|qlook].
Qed.

Lemma tailq_remove m h l1 l2 e : tailq m h (l1 ++ e :: l2) ->
  exists m', PH_TAILQ_REMOVE h e m = Ret (tt, m') /\ tailq m' h (l1 ++ l2) /\ frame h (l1 ++ e :: l2) m m'.
Proof.
  intros (Hs & Hb & Ht). destruct (place_remove _ _ _ _ _ Hs) as (Hp & He & Hne). pose proof (back_place _ _ _ _ _ Hb) as Hq.
  assert (NoDup (l1 ++ e :: l2)) as Hnd by apply Hs. pose proof Ht as Ht'. unfold tail in Ht'. unfold PH_TAILQ_REMOVE.
  destruct l2 as [|y l2]; cbn [head] in He.
  - eexists. split; [qrun|]. split; [split_and!|framed l1 e].
    + apply (links_remove m _ _ _ _ e); try done; intros; qlook.
    + apply (back_remove m _ _ _ _ e); try done. intros; qlook.
    + apply (tail_remove m _ _ _ _ e); [done|qlook].
  - assert (back m (CHead h) ((l1 ++ [e]) ++ y :: l2)) as Hy by (by rewrite <- app_assoc). apply back_place in Hy. rewrite end_cell_snoc in Hy.
    assert (e <> y) by (intros ->; apply NoDup_app in Hnd as (_ & _ & [? _]%NoDup_cons); set_solver).
    eexists. split; [qrun|]. split; [split_and!|framed l1 e].
    + apply (links_remove m _ _ _ _ e); try done; intros; qlook.
    + apply (back_remove m _ _ _ _ e); try done; [intros z [= <-]; qlook|].
      intros z Hz Hzx. assert (z <> y) by (intros ->; by apply Hzx). qlook.
    + apply (tail_remove m _ _ _ _ e); [done|qlook].
Qed.

(** ** Operations on lists, and the macros that refine them *)

Inductive qop :=
  | Init
  | InsertHead (e : positive)
  | InsertTail (e : positive)
  | InsertAfter (x e : positive)
  | InsertBefore (x e : positive)
  | RemoveHead
  | RemoveAfter (x : positive)
  | Remove (e : positive).

(** The list at an element: what is in front, and what is behind. *)
Fixpoint split_at (x : positive) (l : list positive) : option (list positive * list positive) :=
  match l with
  | [] => None
  | y :: l => if decide (y = x) then Some ([], l) else '(l1, l2) ← split_at x l; Some (y :: l1, l2)
  end.

Definition list_op (op : qop) (l : list positive) : option (list positive) :=
  match op with
  | Init => Some []
  | InsertHead e => Some (e :: l)
  | InsertTail e => Some (l ++ [e])
  | InsertAfter x e => '(l1, l2) ← split_at x l; Some (l1 ++ x :: e :: l2)
  | InsertBefore x e => '(l1, l2) ← split_at x l; Some (l1 ++ e :: x :: l2)
  | RemoveHead => match l with [] => None | _ :: l => Some l end
  | RemoveAfter x => '(l1, l2) ← split_at x l; match l2 with [] => None | _ :: l2 => Some (l1 ++ x :: l2) end
  | Remove e => '(l1, l2) ← split_at e l; Some (l1 ++ l2)
  end.

Definition inserted (op : qop) : list positive :=
  match op with InsertHead e | InsertTail e | InsertAfter _ e | InsertBefore _ e => [e] | _ => [] end.

(** An inserted element is an object that is not in the list. *)
Definition ready (m : qmem) (op : qop) (l : list positive) : Prop := forall e, e ∈ inserted op -> e ∉ l /\ node m e.

Definition slist_exec (fuel : nat) (h : positive) (op : qop) : option (M qmem unit) :=
  match op with
  | Init => Some (PH_SLIST_INIT h)
  | InsertHead e => Some (PH_SLIST_INSERT_HEAD h e)
  | InsertAfter x e => Some (PH_SLIST_INSERT_AFTER x e)
  | RemoveHead => Some (PH_SLIST_REMOVE_HEAD h)
  | RemoveAfter x => Some (PH_SLIST_REMOVE_AFTER x)
  | Remove e => Some (PH_SLIST_REMOVE fuel h e)
  | InsertTail _ | InsertBefore _ _ => None
  end.
Definition stailq_exec (fuel : nat) (h : positive) (op : qop) : option (M qmem unit) :=
  match op with
  | Init => Some (PH_STAILQ_INIT h)
  | InsertHead e => Some (PH_STAILQ_INSERT_HEAD h e)
  | InsertTail e => Some (PH_STAILQ_INSERT_TAIL h e)
  | InsertAfter x e => Some (PH_STAILQ_INSERT_AFTER h x e)
  | RemoveHead => Some (PH_STAILQ_REMOVE_HEAD h)
  | RemoveAfter x => Some (PH_STAILQ_REMOVE_AFTER h x)
  | Remove e => Some (PH_STAILQ_REMOVE fuel h e)
  | InsertBefore _ _ => None
  end.
Definition dlist_exec (h : positive) (op : qop) : option (M qmem unit) :=
  match op with
  | Init => Some (PH_LIST_INIT h)
  | InsertHead e => Some (PH_LIST_INSERT_HEAD h e)
  | InsertAfter x e => Some (PH_LIST_INSERT_AFTER x e)
  | InsertBefore x e => Some (PH_LIST_INSERT_BEFORE x e)
  | Remove e => Some (PH_LIST_REMOVE e)
  | InsertTail _ | RemoveHead | RemoveAfter _ => None
  end.
Definition tailq_exec (h : positive) (op : qop) : option (M qmem unit) :=
  match op with
  | Init => Some (PH_TAILQ_INIT h)
  | InsertHead e => Some (PH_TAILQ_INSERT_HEAD h e)
  | InsertTail e => Some (PH_TAILQ_INSERT_TAIL h e)
  | InsertAfter x e => Some (PH_TAILQ_INSERT_AFTER h x e)
  | InsertBefore x e => Some (PH_TAILQ_INSERT_BEFORE x e)
  | Remove e => Some (PH_TAILQ_REMOVE h e)
  | RemoveHead | RemoveAfter _ => None
  end.

Lemma split_at_app x l l1 l2 : split_at x l = Some (l1, l2) -> l = l1 ++ x :: l2.
Proof.
  revert l1. induction l as [|y l IH]; intros l1 H; cbn in H; [done|]. destruct (decide (y = x)) as [->|]; [by simplify_eq|].
  apply bind_Some in H as ([l1' l2'] & E & H). simplify_eq. cbn. f_equal. by apply IH.
Qed.

Lemma find_prev_ok m c l1 x e l2 fuel : chain m c (l1 ++ x :: e :: l2) -> NoDup (l1 ++ x :: e :: l2) -> (length l1 < fuel)%nat ->
  find_prev fuel (head (l1 ++ [x])) e m = Ret (x, m).
Proof.
  revert c fuel. induction l1 as [|y l1 IH]; intros c fuel Hc Hnd Hf; destruct fuel as [|fuel]; try (cbn in Hf; lia); cbn [find_prev head app].
  - apply chain_cons in Hc as [_ Hc]. apply chain_cons in Hc as [Hx _]. cbn [app]. repeat qstep.
    by rewrite bool_decide_eq_true_2.
  - cbn [app] in *. apply chain_cons in Hc as [_ Hc]. apply NoDup_cons in Hnd as [_ Hnd]. pose proof (chain_head _ _ _ Hc) as Hh. repeat qstep.
    replace (head (l1 ++ x :: e :: l2)) with (head (l1 ++ [x])) in * by (by destruct l1).
    rewrite bool_decide_eq_false_2; [apply (IH (CNext y)); auto; cbn in Hf; lia|].
    intros He. apply NoDup_app in Hnd as (_ & Hd & [Hn _]%NoDup_cons).
    destruct l1 as [|z l1]; cbn in He; simplify_eq; set_solver.
Qed.

Lemma frame_mono h l l' m m' : frame h l m m' -> (forall e, e ∈ l -> e ∈ l') -> frame h l' m m'.
Proof. intros H Hs c Hc Hl. apply H; auto. Qed.

Lemma links_nil m h : word1 m !! CHead h = Some None -> links m h [].
Proof. intros H. split; [by split|apply NoDup_nil_2]. Qed.

(** The removals that walk: at the head, or after the element in front. *)
Lemma remove_walk m h l1 l2 e fuel (A : M qmem unit) (B : positive -> M qmem unit) r :
  links m h (l1 ++ e :: l2) -> (length (l1 ++ e :: l2) <= fuel)%nat ->
  (l1 = [] -> A m = r) -> (forall l0 x, l1 = l0 ++ [x] -> B x m = r) ->
  (f <-- load (CHead h) ;; if bool_decide (f = Some e) then A else c <-- find_prev fuel f e ;; B c) m = r.
Proof.
  intros [Hc Hnd] Hf HA HB. pose proof (chain_head _ _ _ Hc) as Hh. qstep. destruct l1 as [|x l0 _] using rev_ind.
  - cbn [head app]. rewrite bool_decide_eq_true_2 by done. by apply HA.
  - assert (head ((l0 ++ [x]) ++ e :: l2) <> Some e) as Hne.
    { apply NoDup_app in Hnd as (_ & Hd & _). intros He. destruct l0; cbn in He; simplify_eq; apply (Hd e); set_solver. }
    rewrite bool_decide_eq_false_2 by done. rewrite <- app_assoc in Hc, Hnd. cbn [app] in Hc, Hnd.
    rewrite !length_app in Hf. cbn in Hf.
    replace (head ((l0 ++ [x]) ++ e :: l2)) with (head (l0 ++ [x])) by (by destruct l0).
    erewrite bind_ret by (apply (find_prev_ok m _ l0 x e l2 fuel Hc Hnd); lia). by apply (HB l0).
Qed.

(** A result of one of the lemmas above, for the same list written differently. *)
Ltac placed H := let m' := fresh "m'" in destruct H as (m' & ?E & ?Hq & ?Hfr);
  exists m'; split; [exact E|split; [by simplify_list_eq|eapply frame_mono; [exact Hfr|set_solver]]].

Ltac split_op :=
  repeat match goal with
  | H : (_ ≫= _) = Some _ |- _ => apply bind_Some in H as ([? ?] & ?Es & H)
  | H : split_at _ _ = Some _ |- _ => apply split_at_app in H as ->
  | H : ready _ _ _ |- _ => let Hi := fresh "Hi" in let Hn := fresh "Hn" in destruct (H _ ltac:(apply list_elem_of_singleton; reflexivity)) as [Hi Hn]; clear H
  end; simplify_eq.

(** C19. Every operation of singly-linked tail queues that changes one refines the
    operation on lists: it returns, the words in memory represent the new list
    and its last element, and words outside of the queue are unchanged. *)
Theorem stailq_refines m h l op l' fuel c : stailq m h l -> list_op op l = Some l' -> ready m op l ->
  stailq_exec fuel h op = Some c -> (length l <= fuel)%nat ->
  exists m', c m = Ret (tt, m') /\ stailq m' h l' /\ frame h (inserted op ++ l) m m'.
Proof.
  intros Hq Hop Hr Hc Hf. destruct op as [|e|e|x e|x e| |x|e]; cbn in Hop, Hc; simplify_eq.
  - (* Init *) destruct Hq as [[Hch Hnd] Ht]. pose proof (chain_head _ _ _ Hch) as Hh. unfold tail in Ht.
    eexists. split; [unfold PH_STAILQ_INIT; qrun|]. split; [split; [apply links_nil; qlook|unfold tail; qlook]|].
    intros c Hc _. split; qlook.
  - split_op. placed (stailq_insert_at m h [] l e Hq Hi Hn).
  - split_op. placed (stailq_insert_tail m h l e Hq Hi Hn).
  - split_op. rewrite (cons_middle x l0 l1), app_assoc in Hq, Hi.
    pose proof (stailq_insert_at m h (l0 ++ [x]) l1 e Hq Hi Hn) as H. rewrite end_cell_snoc in H. placed H.
  - destruct l as [|e l]; [done|]. simplify_eq. placed (stailq_remove_at m h [] l' e Hq).
  - split_op. destruct l1 as [|y l1]; [done|]. simplify_eq. rewrite (cons_middle x l0), app_assoc in Hq.
    pose proof (stailq_remove_at m h (l0 ++ [x]) l1 y Hq) as H. rewrite end_cell_snoc in H. placed H.
  - split_op. destruct (stailq_remove_at m h l0 l1 e Hq) as (m' & E & Hq' & Hfr). exists m'. split; [|done].
    apply (remove_walk m h l0 l1); [apply Hq|done|intros ->; exact E|intros l2 x ->; by rewrite end_cell_snoc in E].
Qed.

(** Every operation of singly-linked lists that changes one refines the
    operation on lists. *)
Theorem slist_refines m h l op l' fuel c : slist m h l -> list_op op l = Some l' -> ready m op l ->
  slist_exec fuel h op = Some c -> (length l <= fuel)%nat ->
  exists m', c m = Ret (tt, m') /\ slist m' h l' /\ frame h (inserted op ++ l) m m'.
Proof.
  intros Hq Hop Hr Hc Hf. destruct op as [|e|e|x e|x e| |x|e]; cbn in Hop, Hc; simplify_eq.
  - destruct Hq as [Hch Hnd]. pose proof (chain_head _ _ _ Hch) as Hh.
    eexists. split; [unfold PH_SLIST_INIT; qrun|]. split; [apply links_nil; qlook|]. intros c Hc _. split; qlook.
  - split_op. placed (slist_insert_at m h [] l e Hq Hi Hn).
  - split_op. rewrite (cons_middle x l0 l1), app_assoc in Hq, Hi.
    pose proof (slist_insert_at m h (l0 ++ [x]) l1 e Hq Hi Hn) as H. rewrite end_cell_snoc in H. placed H.
  - destruct l as [|e l]; [done|]. simplify_eq. placed (slist_remove_at m h [] l' e Hq).
  - split_op. destruct l1 as [|y l1]; [done|]. simplify_eq. rewrite (cons_middle x l0), app_assoc in Hq.
    pose proof (slist_remove_at m h (l0 ++ [x]) l1 y Hq) as H. rewrite end_cell_snoc in H. placed H.
  - split_op. destruct (slist_remove_at m h l0 l1 e Hq) as (m' & E & Hq' & Hfr). exists m'. split; [|done].
    apply (remove_walk m h l0 l1); [apply Hq|done|intros ->; exact E|intros l2 x ->; by rewrite end_cell_snoc in E].
Qed.

(** Every operation of doubly-linked lists that changes one refines the
    operation on lists, with the links in both directions. *)
Theorem dlist_refines m h l op l' c : dlist m h l -> list_op op l = Some l' -> ready m op l -> dlist_exec h op = Some c ->
  exists m', c m = Ret (tt, m') /\ dlist m' h l' /\ frame h (inserted op ++ l) m m'.
Proof.
  intros Hq Hop Hr Hc. destruct op as [|e|e|x e|x e| |x|e]; cbn in Hop, Hc; simplify_eq.
  - destruct Hq as [[Hch Hnd] _]. pose proof (chain_head _ _ _ Hch) as Hh.
    eexists. split; [unfold PH_LIST_INIT; qrun|]. split; [split; [apply links_nil; qlook|done]|]. intros c Hc _. split; qlook.
  - split_op. placed (dlist_insert_at m h [] l e Hq Hi Hn).
  - split_op. rewrite (cons_middle x l0 l1), app_assoc in Hq, Hi.
    pose proof (dlist_insert_at m h (l0 ++ [x]) l1 e Hq Hi Hn) as H. rewrite end_cell_snoc in H. placed H.
  - split_op. destruct (dlist_insert_before m h l0 x l1 e Hq Hi Hn) as (m' & E & Hq' & Hfr & _). exists m'. auto.
  - split_op. placed (dlist_remove m h l0 l1 e Hq).
Qed.

(** C20. Every operation of doubly-linked tail queues that changes one refines the
    operation on lists, with the links in both directions and the last element. *)
Theorem tailq_refines m h l op l' c : tailq m h l -> list_op op l = Some l' -> ready m op l -> tailq_exec h op = Some c ->
  exists m', c m = Ret (tt, m') /\ tailq m' h l' /\ frame h (inserted op ++ l) m m'.
Proof.
  intros Hq Hop Hr Hc. destruct op as [|e|e|x e|x e| |x|e]; cbn in Hop, Hc; simplify_eq.
  - destruct Hq as ([Hch Hnd] & _ & Ht). pose proof (chain_head _ _ _ Hch) as Hh. unfold tail in Ht.
    eexists. split; [unfold PH_TAILQ_INIT; qrun|]. split; [split_and!; [apply links_nil; qlook|done|unfold tail; qlook]|].
    intros c Hc _. split; qlook.
  - split_op. placed (tailq_insert_at m h [] l e Hq Hi Hn).
  - split_op. placed (tailq_insert_tail m h l e Hq Hi Hn).
  - split_op. rewrite (cons_middle x l0 l1), app_assoc in Hq, Hi.
    pose proof (tailq_insert_at m h (l0 ++ [x]) l1 e Hq Hi Hn) as H. rewrite end_cell_snoc in H. placed H.
  - split_op. destruct Hq as (Hs & Hb & Ht). destruct (dlist_insert_before m h l0 x l1 e (conj Hs Hb) Hi Hn) as (m' & E & [Hs' Hb'] & Hfr & Hw).
    exists m'. split; [exact E|]. split; [|exact Hfr]. split_and!; auto. by apply (tail_insert m).
  - split_op. placed (tailq_remove m h l0 l1 e Hq).
Qed.

(** ** Two queues, traversals *)

Lemma links_rehead m m' h h' l : links m h l -> word1 m' !! CHead h' = word1 m !! CHead h ->
  (forall e, e ∈ l -> word1 m' !! CNext e = word1 m !! CNext e) -> links m' h' l.
Proof. intros [Hc Hnd] H1 H2. split; [|done]. by apply (chain_move m _ _ _ _ Hc). Qed.

Lemma back_rehead m m' h h' l : back m (CHead h) l -> NoDup l -> (forall y, head l = Some y -> word2 m' !! CNext y = Some (CHead h')) ->
  (forall e, e ∈ l -> Some e <> head l -> word2 m' !! CNext e = word2 m !! CNext e) -> back m' (CHead h') l.
Proof.
  intros Hb Hnd H1 H2. destruct l as [|y l]; [done|]. cbn [back] in *. split; [by apply H1|]. apply NoDup_cons in Hnd as [Hy _].
  apply (back_ext m); [|apply Hb]. intros e He. apply H2; [set_solver|]. intros [= ->]. done.
Qed.

Lemma tail_rehead m m' h h' l : word2 m' !! CHead h' = (if l is [] then Some (CHead h') else word2 m !! CHead h) ->
  tail m h l -> tail m' h' l.
Proof. unfold tail. intros -> H. destruct l as [|y l]; [done|]. by rewrite H, !end_cell_cons. Qed.

(** Swapping two singly-linked tail queues exchanges the lists they represent. *)
Theorem stailq_swap m h1 h2 l1 l2 : h1 <> h2 -> stailq m h1 l1 -> stailq m h2 l2 ->
  exists m', PH_STAILQ_SWAP h1 h2 m = Ret (tt, m') /\ stailq m' h1 l2 /\ stailq m' h2 l1.
Proof.
  intros Hne [Hs1 Ht1] [Hs2 Ht2]. pose proof (chain_head _ _ _ (proj1 Hs1)) as H1. pose proof (chain_head _ _ _ (proj1 Hs2)) as H2.
  pose proof Ht1 as T1. pose proof Ht2 as T2. unfold tail in T1, T2.
  unfold PH_STAILQ_SWAP, PH_STAILQ_EMPTY. destruct l1 as [|x1 l1], l2 as [|x2 l2]; cbn [head] in H1, H2; (eexists; split; [qrun|]);
    split; (split; [eapply links_rehead; [eassumption|qlook|intros; qlook]|eapply tail_rehead; [|eassumption]; qlook]).
Qed.

(** Swapping two lists exchanges the lists they represent. *)
Theorem dlist_swap m h1 h2 l1 l2 : h1 <> h2 -> l1 ## l2 -> dlist m h1 l1 -> dlist m h2 l2 ->
  exists m', PH_LIST_SWAP h1 h2 m = Ret (tt, m') /\ dlist m' h1 l2 /\ dlist m' h2 l1.
Proof.
  intros Hne Hd [Hs1 Hb1] [Hs2 Hb2]. pose proof (chain_head _ _ _ (proj1 Hs1)) as H1. pose proof (chain_head _ _ _ (proj1 Hs2)) as H2.
  assert (forall h l y, back m (CHead h) l -> head l = Some y -> is_Some (word2 m !! CNext y)) as Hy.
  { intros h l y Hb Hh. destruct l as [|z l]; cbn in *; simplify_eq. destruct Hb as [-> _]. eauto. }
  pose proof (fun y => Hy h1 l1 y Hb1) as Hy1. pose proof (fun y => Hy h2 l2 y Hb2) as Hy2. clear Hy.
  unfold PH_LIST_SWAP. destruct (head l1) as [x1|] eqn:E1, (head l2) as [x2|] eqn:E2;
    try specialize (Hy1 _ eq_refl); try specialize (Hy2 _ eq_refl);
    try (assert (x1 <> x2) by (apply head_Some in E1 as [? ->]; apply head_Some in E2 as [? ->]; set_solver));
    try (assert (x1 ∉ l2) by (apply head_Some in E1 as [? ->]; set_solver)); try (assert (x2 ∉ l1) by (apply head_Some in E2 as [? ->]; set_solver));
    (eexists; split; [qrun|]);
    split; (split; [eapply links_rehead; [eassumption|qlook|intros; qlook]|
      eapply back_rehead; [eassumption|apply Hs1 || apply Hs2|rewrite ?E1, ?E2; intros ? [= <-]; qlook|
        rewrite ?E1, ?E2; intros z Hz Hzn; try (assert (z <> x1) by (first [congruence | set_solver])); try (assert (z <> x2) by (first [congruence | set_solver])); qlook]]).
Qed.

(** Swapping two tail queues exchanges the lists they represent. *)
Theorem tailq_swap m h1 h2 l1 l2 : h1 <> h2 -> l1 ## l2 -> tailq m h1 l1 -> tailq m h2 l2 ->
  exists m', PH_TAILQ_SWAP h1 h2 m = Ret (tt, m') /\ tailq m' h1 l2 /\ tailq m' h2 l1.
Proof.
  intros Hne Hd (Hs1 & Hb1 & Ht1) (Hs2 & Hb2 & Ht2). pose proof (chain_head _ _ _ (proj1 Hs1)) as H1. pose proof (chain_head _ _ _ (proj1 Hs2)) as H2.
  pose proof Ht1 as T1. pose proof Ht2 as T2. unfold tail in T1, T2. unfold PH_TAILQ_SWAP.
  destruct l1 as [|x1 l1], l2 as [|x2 l2]; cbn [head] in H1, H2;
    try (assert (x1 <> x2) by set_solver); try (destruct Hb1 as [B1 Hb1']); try (destruct Hb2 as [B2 Hb2']);
    (eexists; split; [qrun|]);
    split; (split_and!; [eapply links_rehead; [eassumption|qlook|intros; qlook]| |eapply tail_rehead; [|eassumption]; qlook]);
    first [exact I
      | eapply back_rehead; [split; eassumption|apply Hs1 || apply Hs2|intros ? [= <-]; qlook|
        intros z Hz Hzn; try (assert (z <> x1) by (first [by intros ->; apply Hzn | set_solver]));
          try (assert (z <> x2) by (first [by intros ->; apply Hzn | set_solver])); qlook]].
Qed.

Lemma links_concat m m' h1 h2 l1 l2 : links m h1 l1 -> links m h2 l2 -> l1 ## l2 ->
  word1 m' !! end_cell (CHead h1) l1 = word1 m !! CHead h2 ->
  (forall c, c <> end_cell (CHead h1) l1 -> c <> CHead h2 -> word1 m' !! c = word1 m !! c) -> h1 <> h2 -> links m' h1 (l1 ++ l2).
Proof.
  intros [Hc1 Hn1] [Hc2 Hn2] Hd H1 H2 Hne. split; [|apply NoDup_app; set_solver]. apply chain_app. split.
  - apply (seg_upto m); [done|apply Hc1|]. intros c Hc [->|(x & Hx & ->)]; apply H2; congruence.
  - apply (chain_move m _ _ _ _ Hc2); [done|]. intros e He. apply H2; [|done]. apply not_eq_sym, end_cell_ne_next. set_solver.
Qed.

Lemma end_cell_ne_head h h' l : h <> h' -> end_cell (CHead h) l <> CHead h'.
Proof. intros Hne. destruct (end_cell_in (CHead h) l) as [->|(x & _ & ->)]; congruence. Qed.

Lemma tail_append h1 h2 l1 l2 : l2 <> [] -> end_cell (CHead h1) (l1 ++ l2) = end_cell (CHead h2) l2.
Proof. intros H. rewrite end_cell_app. destruct l2 as [|y l2]; [done|]. by rewrite !end_cell_cons. Qed.

(** Concatenation appends the second queue to the first and leaves the second
    empty. *)
Theorem stailq_concat m h1 h2 l1 l2 : h1 <> h2 -> l1 ## l2 -> stailq m h1 l1 -> stailq m h2 l2 ->
  exists m', PH_STAILQ_CONCAT h1 h2 m = Ret (tt, m') /\ stailq m' h1 (l1 ++ l2) /\ stailq m' h2 [].
Proof.
  intros Hne Hd Hq1 Hq2. pose proof Hq1 as [Hs1 Ht1]. pose proof Hq2 as [Hs2 Ht2].
  pose proof (chain_head _ _ _ (proj1 Hs2)) as H2. pose proof (end_cell_ne_head h1 h2 l1 Hne) as Hc.
  pose proof (proj2 (proj1 Hs1)) as He1. unfold tail in Ht1, Ht2. unfold PH_STAILQ_CONCAT, PH_STAILQ_EMPTY, PH_STAILQ_INIT.
  destruct l2 as [|x2 l2]; cbn [head] in H2; (eexists; split; [qrun|]).
  - by rewrite app_nil_r.
  - split; (split; [|unfold tail; rewrite ?(tail_append h1 h2) by done; qlook]).
    + apply (links_concat m _ h1 h2); try done; [qlook|]. intros; qlook.
    + apply links_nil. qlook.
Qed.

(** Concatenation appends the second queue to the first and leaves the second
    empty. *)
Theorem tailq_concat m h1 h2 l1 l2 : h1 <> h2 -> l1 ## l2 -> tailq m h1 l1 -> tailq m h2 l2 ->
  exists m', PH_TAILQ_CONCAT h1 h2 m = Ret (tt, m') /\ tailq m' h1 (l1 ++ l2) /\ tailq m' h2 [].
Proof.
  intros Hne Hd Hq1 Hq2. pose proof Hq1 as (Hs1 & Hb1 & Ht1). pose proof Hq2 as (Hs2 & Hb2 & Ht2).
  pose proof (chain_head _ _ _ (proj1 Hs2)) as H2. pose proof (end_cell_ne_head h1 h2 l1 Hne) as Hc.
  pose proof (proj2 (proj1 Hs1)) as He1. unfold tail in Ht1, Ht2. unfold PH_TAILQ_CONCAT, PH_TAILQ_EMPTY, PH_TAILQ_INIT.
  destruct l2 as [|x2 l2]; cbn [head] in H2; [eexists; split; [qrun|by rewrite app_nil_r]|].
  pose proof Hb2 as [B2 Hb2']. eexists. split; [qrun|].
  split; (split_and!; [| |unfold tail; rewrite ?(tail_append h1 h2) by done; qlook]); [| |apply links_nil; qlook|done].
  - apply (links_concat m _ h1 h2); try done; [qlook|]. intros; qlook.
  - apply back_app. split.
    + apply (back_ext m); [|done]. intros e He. assert (e <> x2) by set_solver. qlook.
    + cbn [back]. split; [qlook|]. apply (back_ext m); [|done]. intros e He.
      assert (e <> x2) by (intros ->; destruct Hs2 as [_ [? _]%NoDup_cons]; done). qlook.
Qed.

Lemma load_last m h l : tailq m h l -> (c <-- load2 (end_cell (CHead h) l) ;; load c) m = Ret (last l, m).
Proof.
  intros (Hs & Hb & Ht). destruct l as [|e l _] using rev_ind.
  - cbn. unfold tail in Ht. pose proof (proj2 (proj1 Hs)) as H. cbn in H, Ht. erewrite bind_ret by (by apply load2_ok). by apply load_ok.
  - rewrite end_cell_snoc, last_snoc. pose proof (back_place _ _ _ _ _ Hb) as H. erewrite bind_ret by (by apply load2_ok).
    apply load_ok. by destruct (place_remove m h l [] e Hs) as (? & _).
Qed.

(** The last element, and the one in front of an element, are found through the
    second words, also at the head. *)
Theorem tailq_last_prev m h l1 e l2 : tailq m h (l1 ++ e :: l2) ->
  PH_TAILQ_LAST h m = Ret (last (l1 ++ e :: l2), m) /\ PH_TAILQ_PREV e m = Ret (last l1, m).
Proof.
  intros Hq. pose proof Hq as (Hs & Hb & Ht). split.
  - unfold PH_TAILQ_LAST. erewrite bind_ret by (apply load2_ok, Ht). by apply load_last.
  - unfold PH_TAILQ_PREV. erewrite bind_ret by (apply load2_ok, (back_place _ _ _ _ _ Hb)). destruct l1 as [|x l1 _] using rev_ind.
    + cbn. erewrite bind_ret by (apply load2_ok, Ht). apply load_ok. apply Hs.
    + rewrite end_cell_snoc, last_snoc. assert (back m (CHead h) (l1 ++ x :: e :: l2)) as Hb' by (by rewrite <- app_assoc in Hb).
      erewrite bind_ret by (apply load2_ok, (back_place _ _ _ _ _ Hb')). apply load_ok. rewrite <- app_assoc in Hs.
      by destruct (place_remove m h l1 (e :: l2) x Hs) as (? & _).
Qed.

(** The last element is found through the second word of the head. *)
Theorem stailq_last m h l : stailq m h l -> PH_STAILQ_LAST h m = Ret (last l, m).
Proof.
  intros [Hs Ht]. pose proof (chain_head _ _ _ (proj1 Hs)) as H. unfold PH_STAILQ_LAST, PH_STAILQ_EMPTY, tail in *.
  destruct l as [|e l _] using rev_ind; [cbn in H; by repeat qstep|]. rewrite end_cell_snoc in Ht. rewrite last_snoc.
  repeat qstep. rewrite bool_decide_eq_false_2 by (destruct l; done). by qstep.
Qed.

(** The safe traversal whose body removes the element at hand empties the queue. *)
Theorem stailq_drain m h l fuel : stailq m h l -> (length l <= fuel)%nat ->
  exists m', foreach_safe (S (length l)) (head l) (PH_STAILQ_REMOVE fuel h) m = Ret (tt, m') /\ stailq m' h [] /\ frame h l m m'.
Proof.
  revert m. induction l as [|e l IH]; intros m Hq Hf.
  - exists m. split; [done|]. split; [done|]. by intros c _ _.
  - destruct (stailq_remove_at m h [] l e Hq) as (m1 & E & Hq1 & Hf1).
    destruct (IH m1 Hq1) as (m' & E' & Hq' & Hf'); [cbn in Hf; lia|]. exists m'. split.
    + cbn [length foreach_safe head]. pose proof (place_remove m h [] l e (proj1 Hq)) as (_ & Hn & _).
      erewrite bind_ret by (by apply load_ok).
      erewrite bind_ret; [exact E'|]. apply (remove_walk m h [] l); [apply Hq|done|intros _; exact E|]. intros l0 x Hx. by destruct l0.
    + split; [done|]. intros c Hc Hl. destruct (Hf1 c Hc) as [<- <-]; [set_solver|]. apply Hf'; set_solver.
Qed.

(** Inserting the last element once more makes it its own successor. *)
Theorem stailq_insert_twice m h l e : stailq m h (l ++ [e]) ->
  exists m', PH_STAILQ_INSERT_TAIL h e m = Ret (tt, m') /\ word1 m' !! CNext e = Some (Some e).
Proof.
  intros [Hs Ht]. destruct (place_remove m h l [] e Hs) as (_ & He & _). unfold tail in Ht. rewrite end_cell_snoc in Ht.
  eexists. split; [unfold PH_STAILQ_INSERT_TAIL; qrun|qlook].
Qed.

(** A queue of the elements 2 and 3, and an element 4 that is not in it. *)
Definition demo : qmem := QMem
  (list_to_map [(CHead 1, Some 2%positive); (CNext 2, Some 3%positive); (CNext 3, None); (CNext 4, None)])
  (list_to_map [(CHead 1, CNext 3); (CNext 2, CHead 1); (CNext 3, CNext 2); (CNext 4, CHead 9)]).

Lemma demo_tailq : tailq demo 1 [2%positive; 3%positive].
Proof.
  split; [split; [by vm_compute|]|by vm_compute].
  apply NoDup_cons_2; [by intros ?%list_elem_of_singleton|]. apply NoDup_singleton.
Qed.

Lemma demo_node : node demo 4.
Proof. split; vm_compute; eauto. Qed.

Lemma stailq_refines_witness : exists m', PH_STAILQ_INSERT_AFTER 1 3 4 demo = Ret (tt, m') /\ stailq m' 1 [2; 3; 4]%positive /\
  frame 1 ([4%positive] ++ [2; 3]%positive) demo m'.
Proof.
  apply (stailq_refines demo 1 [2; 3]%positive (InsertAfter 3 4) [2; 3; 4]%positive 2 (PH_STAILQ_INSERT_AFTER 1 3 4));
    [split; apply demo_tailq|reflexivity| |reflexivity|reflexivity].
  intros e ->%list_elem_of_singleton. split; [by vm_compute; intros H; repeat (apply elem_of_cons in H as [?|H]; [done|]); apply not_elem_of_nil in H|exact demo_node].
Defined.

Lemma dlist_refines_witness : exists m', PH_LIST_REMOVE 2 demo = Ret (tt, m') /\ dlist m' 1 [3%positive] /\ frame 1 ([] ++ [2; 3]%positive) demo m'.
Proof.
  apply (dlist_refines demo 1 [2; 3]%positive (Remove 2) [3%positive] (PH_LIST_REMOVE 2));
    [split; apply demo_tailq|reflexivity|by intros e ?%not_elem_of_nil|reflexivity].
Defined.

Lemma tailq_refines_witness : exists m', PH_TAILQ_REMOVE 1 3 demo = Ret (tt, m') /\ tailq m' 1 [2%positive] /\ frame 1 ([] ++ [2; 3]%positive) demo m'.
Proof.
  apply (tailq_refines demo 1 [2; 3]%positive (Remove 3) [2%positive] (PH_TAILQ_REMOVE 1 3));
    [exact demo_tailq|reflexivity|by intros e ?%not_elem_of_nil|reflexivity].
Defined.

End QueueProofs.
