(* ===== verification/Nbio.v ===== *)
(** * The scheduler of non-blocking I/O (nbio/common.c, nbio/epoll.c, job.c)

    Jobs with their timers, emitters with a timer wheel and a kernel queue each,
    and the thread that runs.  The wheel is that of TimerWheel, thread pools those
    of Pool; epoll is an interface, and what jobs do when they are dispatched is a
    parameter. *)

From Stdlib Require Import ZArith Lia.
From stdpp Require Import base numbers list gmap.
From S2P Require Import Prelude TimerWheel Pool.

Module Nbio.
Import TimerWheel.

Definition PH_IOMASK_NONE : Z := 0.
Definition PH_IOMASK_READ : Z := 1.
Definition PH_IOMASK_WRITE : Z := 2.
Definition PH_IOMASK_ERR : Z := 4.
Definition PH_IOMASK_TIME : Z := 8.
Definition PH_IOMASK_WAKEUP : Z := 16.

(** The constants of <sys/epoll.h> and <errno.h>. *)
Definition EPOLLIN : Z := 1.
Definition EPOLLOUT : Z := 4.
Definition EPOLLERR : Z := 8.
Definition EPOLLHUP : Z := 16.
Definition EPOLLONESHOT : Z := 2 ^ 30.
Definition EPOLL_CTL_ADD : Z := 1.
Definition EPOLL_CTL_DEL : Z := 2.
Definition EPOLL_CTL_MOD : Z := 3.
Definition ENOENT : Z := 2.
Definition EEXIST : Z := 17.
Definition DEFAULT_POLL_MASK : Z := Z.lor (Z.lor EPOLLHUP EPOLLERR) EPOLLONESHOT.

(** A kernel queue: the events and the pointer registered for a descriptor, and
    [epoll_ctl], whose result is 0 or the error. *)
Class epoll_api := {
  kq : Type;
  interest : kq -> Z -> option (Z * positive);
  epoll_ctl : Z -> Z -> Z * positive -> kq -> Z * kq;
}.

(** [struct ph_job]; the timer is in [timers], under the same address.  [freed]
    says that [epoch_entry.function] is set; [job_pool] is the pool. *)
Record ph_job := Job {
  in_apply : bool;
  mask : Z;
  kmask : Z;
  emitter_affinity : Z;
  fd : Z;
  n_wakeups_pending : Z;
  freed : bool;
  job_pool : option positive;
}.
Definition set_in_apply x j := Job x (mask j) (kmask j) (emitter_affinity j) (fd j) (n_wakeups_pending j) (freed j) (job_pool j).
Definition set_masks m k j := Job (in_apply j) m k (emitter_affinity j) (fd j) (n_wakeups_pending j) (freed j) (job_pool j).
Definition set_wakeups n j := Job (in_apply j) (mask j) (kmask j) (emitter_affinity j) (fd j) n (freed j) (job_pool j).
Definition set_freed x j := Job (in_apply j) (mask j) (kmask j) (emitter_affinity j) (fd j) (n_wakeups_pending j) x (job_pool j).
Definition set_job_pool x j := Job (in_apply j) (mask j) (kmask j) (emitter_affinity j) (fd j) (n_wakeups_pending j) (freed j) x.

(** The functions that are queued to an emitter. *)
Inductive affine_func := DoWakeup | UserFunc (f : Z).
Record ph_nbio_affine_job := AJob { aj_func : affine_func; aj_code : Z; aj_arg : positive }.

(** [ph_thread_t], as far as it is used here. *)
Record ph_thread := Thread {
  tid : nat;
  is_worker : Z;
  is_emitter : option nat;
  th_now : timeval;
  refresh_time : bool;
  pending_nbio : list positive;
  pending_pool : list positive;
}.

Section nbio.
Context `{EP : epoll_api} `{CR : Pool.ck_ring}.

(** [struct ph_nbio_emitter]; [affine_ping] is the number of bytes in the pipe.
    The last three are its counters. *)
Record emitter := Emitter {
  em_wheel : ph_timerwheel_t;
  em_timer_job : positive;
  em_affine_job : positive;
  last_dispatch : timeval;
  io_fd : kq;
  affine_jobs : list ph_nbio_affine_job;
  affine_ping : Z;
  n_dispatched : Z;
  n_ticks : Z;
  n_busy : Z;
}.
Definition set_em_wheel x e := Emitter x (em_timer_job e) (em_affine_job e) (last_dispatch e) (io_fd e) (affine_jobs e) (affine_ping e) (n_dispatched e) (n_ticks e) (n_busy e).
Definition set_last_dispatch x e := Emitter (em_wheel e) (em_timer_job e) (em_affine_job e) x (io_fd e) (affine_jobs e) (affine_ping e) (n_dispatched e) (n_ticks e) (n_busy e).
Definition set_io_fd x e := Emitter (em_wheel e) (em_timer_job e) (em_affine_job e) (last_dispatch e) x (affine_jobs e) (affine_ping e) (n_dispatched e) (n_ticks e) (n_busy e).
Definition set_affine x p e := Emitter (em_wheel e) (em_timer_job e) (em_affine_job e) (last_dispatch e) (io_fd e) x p (n_dispatched e) (n_ticks e) (n_busy e).
Definition count_em d t b e := Emitter (em_wheel e) (em_timer_job e) (em_affine_job e) (last_dispatch e) (io_fd e) (affine_jobs e) (affine_ping e) (n_dispatched e + d) (n_ticks e + t) (n_busy e + b).

(** [emitters] is null until the scheduler is initialized and after it ended;
    [clock] is what [gettimeofday] says; [gc_job] is the scheduler's own. *)
Record nbio := NBIO {
  jobs : gmap positive ph_job;
  job_timers : gmap positive ph_timerwheel_timer;
  emitters : option (list emitter);
  me : ph_thread;
  pools : gmap positive Pool.ph_thread_pool;
  clock : timeval;
  max_sleep_tv : timeval;
  gc_job : positive;
}.
Definition set_jobs x s := NBIO x (job_timers s) (emitters s) (me s) (pools s) (clock s) (max_sleep_tv s) (gc_job s).
Definition set_timers x s := NBIO (jobs s) x (emitters s) (me s) (pools s) (clock s) (max_sleep_tv s) (gc_job s).
Definition set_emitters x s := NBIO (jobs s) (job_timers s) x (me s) (pools s) (clock s) (max_sleep_tv s) (gc_job s).
Definition set_me x s := NBIO (jobs s) (job_timers s) (emitters s) x (pools s) (clock s) (max_sleep_tv s) (gc_job s).
Definition set_pools x s := NBIO (jobs s) (job_timers s) (emitters s) (me s) x (clock s) (max_sleep_tv s) (gc_job s).
Definition set_time now refresh t := Thread (tid t) (is_worker t) (is_emitter t) now refresh (pending_nbio t) (pending_pool t).
Definition set_pending n p t := Thread (tid t) (is_worker t) (is_emitter t) (th_now t) (refresh_time t) n p.

Abbreviation NM := (M nbio).

Definition load_job (job : positive) : NM ph_job := s <-- get ;; of_option (jobs s !! job).
Definition alter_job (job : positive) (f : ph_job -> ph_job) : NM unit :=
  j <-- load_job job ;; modify (fun s => set_jobs (<[job := f j]> (jobs s)) s).
Definition load_emitter (i : nat) : NM emitter := s <-- get ;; of_option (es ← emitters s; es !! i).
Definition alter_emitter (i : nat) (f : emitter -> emitter) : NM unit :=
  e <-- load_emitter i ;;
  modify (fun s => set_emitters ((fun es => <[i := f e]> es) <$> emitters s) s).

(** ** Time *)

Definition timerisset (tv : timeval) : bool := negb (tv_sec tv =? 0) || negb (tv_usec tv =? 0).

Definition ph_time_now : NM timeval :=
  s <-- get ;;
  let t := me s in
  if (is_worker t =? 0) || refresh_time t || negb (timerisset (th_now t))
  then modify (fun s => set_me (set_time (clock s) false (me s)) s) ;;; s <-- get ;; ret (th_now (me s))
  else ret (th_now t).

(** ** Emitters *)

(** The index of the emitter; the modulus of an empty array is not defined. *)
Definition emitter_for_affinity (n : Z) : NM nat :=
  s <-- get ;;
  match emitters s with
  | Some ((_ :: _) as es) => ret (Z.to_nat (n mod zlen es))
  | _ => fault
  end.
Definition emitter_for_job (job : positive) : NM nat := j <-- load_job job ;; emitter_for_affinity (emitter_affinity j).

Definition ph_nbio_emitter_for_job (job : positive) : NM (option nat) :=
  s <-- get ;;
  match emitters s with
  | None => ret None
  | Some _ => i <-- emitter_for_job job ;; ret (Some i)
  end.

Definition ph_thread_emitter_affinity : NM Z :=
  s <-- get ;; match is_emitter (me s) with None => ret 0 | Some i => ret (Z.of_nat i) end.

(** An operation of the timer wheel of an emitter on the timer of a job. *)
Definition on_wheel {A} (i : nat) (f : world -> A * world) : NM A :=
  e <-- load_emitter i ;;
  s <-- get ;;
  let '(a, w) := f (World (em_wheel e) (job_timers s)) in
  alter_emitter i (set_em_wheel (wheel w)) ;;;
  modify (set_timers (timers w)) ;;;
  ret a.

(** ** epoll *)

Definition want_mask (mask : Z) : Z :=
  let m := Z.land mask (Z.lor PH_IOMASK_READ PH_IOMASK_WRITE) in
  if m =? Z.lor PH_IOMASK_READ PH_IOMASK_WRITE then Z.lor (Z.lor EPOLLIN EPOLLOUT) DEFAULT_POLL_MASK
  else if m =? PH_IOMASK_READ then Z.lor EPOLLIN DEFAULT_POLL_MASK
  else if m =? PH_IOMASK_WRITE then Z.lor EPOLLOUT DEFAULT_POLL_MASK
  else 0.

(** [epoll_ctl] on the queue of an emitter. *)
Definition ctl (i : nat) (op fd : Z) (evt : Z * positive) : NM Z :=
  e <-- load_emitter i ;;
  let '(errno, k) := epoll_ctl op fd evt (io_fd e) in
  alter_emitter i (set_io_fd k) ;;;
  ret errno.

(** [emitter] may be null.  A result that is not 0 is -1 with that error. *)
Definition ph_nbio_emitter_apply_io_mask (emitter : option nat) (job : positive) (m : Z) : NM ph_result_t :=
  j <-- load_job job ;;
  if fd j =? -1 then ret PH_OK
  else
    let want := want_mask m in
    res <-- (if want =? 0 then
               alter_job job (set_masks 0 0) ;;;
               i <-- of_option emitter ;;
               res <-- ctl i EPOLL_CTL_DEL (fd j) (0, job) ;;
               ret (if res =? ENOENT then 0 else res)
             else
               let op := if kmask j =? 0 then EPOLL_CTL_ADD else EPOLL_CTL_MOD in
               alter_job job (set_masks m want) ;;;
               i <-- of_option emitter ;;
               res <-- ctl i op (fd j) (want, job) ;;
               res <-- (if (res =? EEXIST) && (op =? EPOLL_CTL_ADD) then ctl i EPOLL_CTL_MOD (fd j) (want, job)
                        else if (res =? ENOENT) && (op =? EPOLL_CTL_MOD) then ctl i EPOLL_CTL_ADD (fd j) (want, job)
                        else ret res) ;;
               ret (if res =? EEXIST then 0 else res)) ;;
    if (res : Z) =? 0 then ret PH_OK else panic.

Definition ph_job_get_kmask (job : positive) : NM Z :=
  j <-- load_job job ;;
  let k := Z.land (kmask j) (Z.lor (Z.lor EPOLLIN EPOLLOUT) (Z.lor EPOLLERR EPOLLHUP)) in
  ret (if k =? EPOLLIN then PH_IOMASK_READ
       else if k =? EPOLLOUT then PH_IOMASK_WRITE
       else if k =? Z.lor EPOLLIN EPOLLOUT then Z.lor PH_IOMASK_READ PH_IOMASK_WRITE
       else 0).

(** The mask an event is dispatched with. *)
Definition event_mask (events : Z) : Z :=
  let k := Z.land events (Z.lor (Z.lor EPOLLIN EPOLLOUT) (Z.lor EPOLLERR EPOLLHUP)) in
  if k =? EPOLLIN then PH_IOMASK_READ
  else if k =? EPOLLOUT then PH_IOMASK_WRITE
  else if k =? Z.lor EPOLLIN EPOLLOUT then Z.lor PH_IOMASK_READ PH_IOMASK_WRITE
  else PH_IOMASK_ERR.

(** ** Jobs *)

Definition ph_job_init (job : positive) : NM ph_result_t :=
  modify (fun s => set_timers (<[job := Timer None (Timeval 0 0) PH_TIMER_DISABLED]> (job_timers s))
    (set_jobs (<[job := Job false 0 0 0 (-1) 0 false None]> (jobs s)) s)) ;;;
  ret PH_OK.

Definition set_timer_due (job : positive) (tv : timeval) : NM unit :=
  modify (fun s => set_timers (<[job := set_due tv (job_timers s !!! job)]> (job_timers s)) s).

(** Enable the timer if a time is set, and apply the mask. *)
Definition apply_nbio (i : nat) (job : positive) (m : Z) : NM ph_result_t :=
  s <-- get ;;
  (if timerisset (due (job_timers s !!! job)) then on_wheel i (ph_timerwheel_enable job) ;;; ret tt else ret tt) ;;;
  ph_nbio_emitter_apply_io_mask (Some i) job m.

(** A job has one link: in a list, it cannot be put into another. *)
Definition insert_pending (job : positive) (f : ph_thread -> ph_thread) : NM unit :=
  s <-- get ;;
  if bool_decide (job ∈ pending_nbio (me s) ++ pending_pool (me s)) then fault else modify (set_me (f (me s))).

Definition ph_job_set_nbio (job : positive) (m : Z) (timeout : option timeval) : NM ph_result_t :=
  i <-- emitter_for_job job ;;
  j <-- load_job job ;;
  if freed j then panic
  else
    alter_job job (set_job_pool None) ;;;
    alter_job job (fun j => set_masks m (kmask j) j) ;;;
    on_wheel i (ph_timerwheel_remove job) ;;;
    set_timer_due job (default (Timeval 0 0) timeout) ;;;
    s <-- get ;;
    if (is_worker (me s) =? 0) || bool_decide (is_emitter (me s) = Some i)
    then apply_nbio i job m ;;; ret PH_OK
    else
      j <-- load_job job ;;
      if in_apply j then ret PH_OK
      else
        alter_job job (set_in_apply true) ;;;
        insert_pending job (fun t => set_pending (pending_nbio t ++ [job]) (pending_pool t) t) ;;;
        ret PH_OK.

Definition ph_job_set_nbio_timeout_in (job : positive) (m : Z) (interval : timeval) : NM ph_result_t :=
  now <-- ph_time_now ;; ph_job_set_nbio job m (Some (timeradd now interval)).
Definition ph_job_set_timer_at (job : positive) (abstime : timeval) : NM ph_result_t :=
  ph_job_set_nbio job PH_IOMASK_TIME (Some abstime).
Definition ph_job_set_timer_in (job : positive) (interval : timeval) : NM ph_result_t :=
  now <-- ph_time_now ;; ph_job_set_nbio job PH_IOMASK_TIME (Some (timeradd now interval)).
Definition ph_job_clear_timer (job : positive) : NM ph_result_t := ph_job_set_nbio job 0 None.
Definition ph_job_set_timer_in_ms (job : positive) (interval : Z) : NM ph_result_t :=
  let sec := interval / 1000 in
  ph_job_set_timer_in job (Timeval sec ((interval - sec * 1000) * 1000)).

(** ** Deferred items *)

Section deferred.
Context (fuel : nat) (asleep : M Pool.ph_thread_pool bool).

Definition _ph_job_set_pool_immediate (job : positive) : NM unit :=
  j <-- load_job job ;;
  p <-- of_option (job_pool j) ;;
  s <-- get ;;
  pool <-- of_option (pools s !! p) ;;
  match Pool.do_set_pool fuel asleep (tid (me s)) (Zpos job) pool with
  | Ret (_, pool) => modify (fun s => set_pools (<[p := pool]> (pools s)) s)
  | Panic => panic
  | Fault => fault
  end.

(** The lists are emptied element by element; the bodies of the loops add nothing to
    them. *)
Definition process_nbio (job : positive) : NM unit :=
  modify (fun s => set_me (set_pending (filter (fun x => x <> job) (pending_nbio (me s))) (pending_pool (me s)) (me s)) s) ;;;
  alter_job job (set_in_apply false) ;;;
  i <-- emitter_for_job job ;;
  j <-- load_job job ;;
  alter_job job (fun j => set_masks 0 (kmask j) j) ;;;
  apply_nbio i job (mask j) ;;;
  ret tt.

Definition process_pool (job : positive) : NM unit :=
  modify (fun s => set_me (set_pending (pending_nbio (me s)) (filter (fun x => x <> job) (pending_pool (me s))) (me s)) s) ;;;
  _ph_job_set_pool_immediate job.

Fixpoint for_all (l : list positive) (f : positive -> NM unit) : NM unit :=
  match l with [] => ret tt | x :: l => f x ;;; for_all l f end.

Definition process_deferred : NM unit :=
  s <-- get ;; for_all (pending_pool (me s)) process_pool ;;;
  s <-- get ;; for_all (pending_nbio (me s)) process_nbio.

Definition ph_job_have_deferred_items : NM bool :=
  s <-- get ;; ret (negb (bool_decide (pending_nbio (me s) = [])) || negb (bool_decide (pending_pool (me s) = []))).

Definition ph_job_set_pool_immediate (job pool : positive) : NM ph_result_t :=
  alter_job job (set_job_pool (Some pool)) ;;; _ph_job_set_pool_immediate job ;;; ret PH_OK.
Definition ph_job_set_pool (job pool : positive) : NM ph_result_t :=
  alter_job job (set_job_pool (Some pool)) ;;;
  s <-- get ;;
  (if is_worker (me s) =? 0 then _ph_job_set_pool_immediate job
   else insert_pending job (fun t => set_pending (pending_nbio t) (pending_pool t ++ [job]) t)) ;;;
  ret PH_OK.

(** ** Dispatch *)

(** What the callbacks of jobs and the queued functions do. *)
Context (callback : positive -> Z -> NM unit) (user_func : Z -> Z -> positive -> NM unit) (collectors : NM unit).

Definition ph_nbio_emitter_dispatch_immediate (i : nat) (job : positive) (why : Z) : NM unit :=
  j <-- load_job job ;;
  if freed j then ret tt
  else
    res <-- (if why =? PH_IOMASK_TIME then ret PH_OK else on_wheel i (ph_timerwheel_remove job)) ;;
    if bool_decide (res = PH_BUSY) then alter_emitter i (count_em 0 0 1)
    else
      alter_emitter i (count_em 1 0 0) ;;;
      e <-- load_emitter i ;;
      s <-- get ;;
      (if bool_decide (job = em_timer_job e) || bool_decide (job = gc_job s) then ret tt
       else now <-- ph_time_now ;; alter_emitter i (set_last_dispatch now)) ;;;
      callback job why.

Definition ph_job_collector_emitter_call (i : nat) : NM unit :=
  now <-- ph_time_now ;;
  e <-- load_emitter i ;;
  s <-- get ;;
  if negb (timercmp_lt now (timeradd (last_dispatch e) (max_sleep_tv s)))
  then alter_emitter i (set_last_dispatch now) ;;; collectors
  else ret tt.

Definition before_dispatch_timer (i : nat) (job : positive) : NM bool :=
  j <-- load_job job ;;
  (if fd j =? -1 then ret PH_OK else ph_nbio_emitter_apply_io_mask (Some i) job 0) ;;;
  ret true.
Definition dispatch_timer (i : nat) (job : positive) : NM unit := ph_nbio_emitter_dispatch_immediate i job PH_IOMASK_TIME.

(** *** Functions queued to an emitter *)

(** The bytes a pipe holds, of Linux. *)
Definition PIPE_CAPACITY : Z := 65536.

(** A pipe takes a byte unless it is full, which is not an error here. *)
Definition ph_pingfd_ping (i : nat) : NM ph_result_t :=
  alter_emitter i (fun e => set_affine (affine_jobs e) (if affine_ping e <? PIPE_CAPACITY then affine_ping e + 1 else affine_ping e) e) ;;;
  ret PH_OK.

(** Reads of up to 64 bytes until one is short. *)
Fixpoint consume_loop (fuel : nat) (res avail : Z) : option (Z * Z) :=
  match fuel with
  | O => None
  | S fuel =>
      let n := Z.min 64 avail in
      if n <=? 0 then Some (res, avail)
      else if n =? 64 then consume_loop fuel (u32 (res + n)) (avail - n)
      else Some (u32 (res + n), avail - n)
  end.
Definition ph_pingfd_consume_all (i : nat) : NM Z :=
  e <-- load_emitter i ;;
  r <-- of_option (consume_loop 1026 0 (affine_ping e)) ;;
  alter_emitter i (set_affine (affine_jobs e) r.2) ;;;
  ret r.1.

Definition ph_nbio_queue_affine_func (alloc_ok : bool) (affinity : Z) (func : affine_func) (code : Z) (arg : positive) : NM ph_result_t :=
  if negb alloc_ok then ret PH_NOMEM
  else
    i <-- emitter_for_affinity affinity ;;
    e <-- load_emitter i ;;
    let need_ping := bool_decide (affine_jobs e = []) in
    alter_emitter i (fun e => set_affine (affine_jobs e ++ [AJob func code arg]) (affine_ping e) e) ;;;
    (if need_ping then ph_pingfd_ping i ;;; ret tt else ret tt) ;;;
    ret PH_OK.

Definition do_wakeup (job : positive) : NM unit :=
  alter_job job (fun j => set_wakeups (u32 (n_wakeups_pending j - 1)) j) ;;;
  s <-- get ;;
  i <-- of_option (is_emitter (me s)) ;;
  ph_nbio_emitter_dispatch_immediate i job PH_IOMASK_WAKEUP.

Definition run_affine (a : ph_nbio_affine_job) : NM unit :=
  match aj_func a with DoWakeup => do_wakeup (aj_arg a) | UserFunc f => user_func f (aj_code a) (aj_arg a) end.

Fixpoint run_affine_jobs (l : list ph_nbio_affine_job) : NM unit :=
  match l with [] => ret tt | a :: l => run_affine a ;;; run_affine_jobs l end.

Definition ph_nbio_process_affine_jobs (i : nat) : NM unit :=
  n <-- ph_pingfd_consume_all i ;;
  if n =? 0 then ret tt
  else
    e <-- load_emitter i ;;
    alter_emitter i (fun e => set_affine [] (affine_ping e) e) ;;;
    run_affine_jobs (affine_jobs e).

Definition ph_job_wakeup (alloc_ok : bool) (job : positive) : NM ph_result_t :=
  j <-- load_job job ;;
  if freed j then ret PH_BUSY
  else
    alter_job job (fun j => set_wakeups (u32 (n_wakeups_pending j + 1)) j) ;;;
    res <-- ph_nbio_queue_affine_func alloc_ok (emitter_affinity j) DoWakeup 0 job ;;
    (if bool_decide (res = PH_OK) then ret tt
     else alter_job job (fun j => set_wakeups (u32 (n_wakeups_pending j - 1)) j)) ;;;
    ret res.

Definition affine_dispatch (i : nat) (job : positive) : NM unit :=
  ph_nbio_process_affine_jobs i ;;; ph_job_set_nbio job PH_IOMASK_READ None ;;; ret tt.

(** *** The event loop *)

(** One event of a wakeup. *)
Definition run_event (i : nat) (evt : Z * positive) : NM unit :=
  let '(events, job) := evt in
  j <-- load_job job ;;
  if mask j =? 0 then ret tt
  else
    alter_job job (fun j => set_masks (mask j) DEFAULT_POLL_MASK j) ;;;
    ph_nbio_emitter_dispatch_immediate i job (event_mask events) ;;;
    d <-- ph_job_have_deferred_items ;;
    if (d : bool) then process_deferred else ret tt.

Fixpoint run_events (i : nat) (evts : list (Z * positive)) : NM unit :=
  match evts with [] => ret tt | evt :: evts => run_event i evt ;;; run_events i evts end.

(** One round of [ph_nbio_emitter_run]; [n] is the result of [epoll_wait] and its
    events, or the error. *)
Definition emitter_round (i : nat) (n : option (list (Z * positive))) : NM unit :=
  modify (fun s => set_me (set_time (th_now (me s)) true (me s)) s) ;;;
  match n with
  | None => ph_job_collector_emitter_call i
  | Some [] => ret tt
  | Some evts => run_events i evts ;;; ph_job_collector_emitter_call i
  end.
End deferred.

(** ** Release *)

(** [deferred_job_free]: whether the job is freed now or deferred again; [dtor] is
    its destructor. *)
Definition deferred_job_free (dtor : positive -> NM unit) (job : positive) : NM bool :=
  target_emitter <-- ph_nbio_emitter_for_job job ;;
  j <-- load_job job ;;
  if (0 <? n_wakeups_pending j) || in_apply j then ret false
  else
    match target_emitter with Some i => on_wheel i (ph_timerwheel_remove job) ;;; ret tt | None => ret tt end ;;;
    dtor job ;;;
    modify (fun s => set_timers (delete job (job_timers s)) (set_jobs (delete job (jobs s)) s)) ;;;
    ret true.

Definition ph_job_free (job : positive) : NM unit :=
  target_emitter <-- ph_nbio_emitter_for_job job ;;
  j <-- load_job job ;;
  if freed j then panic
  else
    match target_emitter with Some i => on_wheel i (ph_timerwheel_remove job) ;;; ret tt | None => ret tt end ;;;
    ph_nbio_emitter_apply_io_mask target_emitter job 0 ;;;
    alter_job job (set_freed true).

End nbio.
End Nbio.
