(* ===== verification/NbioProofs.v ===== *)
(** * Proofs about the scheduler of non-blocking I/O

    Against the documented behaviour of epoll: what applying a mask does to the
    kernel queue and the job, what scheduling a job does at once and deferred, when
    a job is dispatched, and when it is released. *)

From Stdlib Require Import ZArith Lia.
From stdpp Require Import base numbers list gmap.
From S2P Require Import Prelude TimerWheel Pool PoolProofs Nbio.

Module NbioProofs.
Import TimerWheel Nbio.

(** What is relied on of epoll.  [pollable] says that the descriptor is open, can be
    waited for, and that there is room for it. *)
Class epoll_laws (EP : epoll_api) := {
  pollable : kq -> Z -> Prop;
  registers (k : kq) (fd : Z) (v : option (Z * positive)) (k' : kq) : Prop :=
    interest k' fd = v /\ (forall fd', fd' <> fd -> interest k' fd' = interest k fd') /\ (forall fd', pollable k fd' -> pollable k' fd');
  ctl_add k fd evt : pollable k fd -> interest k fd = None ->
    exists k', epoll_ctl EPOLL_CTL_ADD fd evt k = (0, k') /\ registers k fd (Some evt) k';
  ctl_add_exists k fd evt x : interest k fd = Some x -> epoll_ctl EPOLL_CTL_ADD fd evt k = (EEXIST, k);
  ctl_mod k fd evt x : pollable k fd -> interest k fd = Some x ->
    exists k', epoll_ctl EPOLL_CTL_MOD fd evt k = (0, k') /\ registers k fd (Some evt) k';
  ctl_mod_none k fd evt : pollable k fd -> interest k fd = None -> epoll_ctl EPOLL_CTL_MOD fd evt k = (ENOENT, k);
  ctl_del k fd evt x : pollable k fd -> interest k fd = Some x ->
    exists k', epoll_ctl EPOLL_CTL_DEL fd evt k = (0, k') /\ registers k fd None k';
  ctl_del_none k fd evt : pollable k fd -> interest k fd = None -> epoll_ctl EPOLL_CTL_DEL fd evt k = (ENOENT, k);
}.

Section proofs.
Context {EP : epoll_api} {EL : epoll_laws EP} {CR : Pool.ck_ring}.

Implicit Types s : nbio.

(** ** Objects *)

Definition has_emitter s (i : nat) (e : emitter) : Prop := exists es, emitters s = Some es /\ es !! i = Some e.
Definition put_job (job : positive) (j : ph_job) s : nbio := set_jobs (<[job := j]> (jobs s)) s.
Definition put_emitter (i : nat) (e : emitter) s : nbio := set_emitters ((fun es => <[i := e]> es) <$> emitters s) s.

Lemma load_job_ok job j s : jobs s !! job = Some j -> load_job job s = Ret (j, s).
Proof. intros H. unfold load_job. step. by rewrite H. Qed.
Lemma alter_job_ok job f j s : jobs s !! job = Some j -> alter_job job f s = Ret (tt, put_job job (f j) s).
Proof. intros H. unfold alter_job. by rewrite (bind_ret _ _ _ _ _ (load_job_ok _ _ _ H)). Qed.
Lemma load_emitter_ok i e s : has_emitter s i e -> load_emitter i s = Ret (e, s).
Proof. intros (es & H1 & H2). unfold load_emitter. step. rewrite H1. cbn. by rewrite H2. Qed.
Lemma alter_emitter_ok i f e s : has_emitter s i e -> alter_emitter i f s = Ret (tt, put_emitter i (f e) s).
Proof. intros H. unfold alter_emitter. by rewrite (bind_ret _ _ _ _ _ (load_emitter_ok _ _ _ H)). Qed.

Lemma has_emitter_put i e e' s : has_emitter s i e -> has_emitter (put_emitter i e' s) i e'.
Proof. intros (es & H1 & H2). exists (<[i := e']> es). cbn. rewrite H1. split; [done|]. apply list_lookup_insert_eq. by eapply lookup_lt_Some. Qed.
Lemma put_emitter_twice i e e' s : put_emitter i e (put_emitter i e' s) = put_emitter i e s.
Proof. unfold put_emitter, set_emitters. cbn. f_equal. destruct (emitters s); cbn; [|done]. by rewrite list_insert_insert_eq. Qed.
Lemma put_job_twice job j j' s : put_job job j (put_job job j' s) = put_job job j s.
Proof. unfold put_job, set_jobs. cbn. by rewrite insert_insert_eq. Qed.
Lemma put_emitter_same i e s : has_emitter s i e -> put_emitter i e s = s.
Proof. intros (es & H1 & H2). unfold put_emitter, set_emitters. rewrite H1. cbn. rewrite list_insert_id by done. rewrite <- H1. by destruct s. Qed.

Lemma ctl_ok i op fd evt e s : has_emitter s i e ->
  ctl i op fd evt s = Ret ((epoll_ctl op fd evt (io_fd e)).1, put_emitter i (set_io_fd (epoll_ctl op fd evt (io_fd e)).2 e) s).
Proof.
  intros H. unfold ctl. rewrite (bind_ret _ _ _ _ _ (load_emitter_ok _ _ _ H)).
  destruct (epoll_ctl _ _ _ _) as [errno k]. by rewrite (bind_ret _ _ _ _ _ (alter_emitter_ok _ _ _ _ H)).
Qed.

(** ** Masks *)

(** The state after a mask was applied. *)
Definition applied (i : nat) (e : emitter) (job : positive) (j : ph_job) (m : Z) (k : kq) s : nbio :=
  put_emitter i (set_io_fd k e) (put_job job (set_masks (if want_mask m =? 0 then 0 else m) (want_mask m) j) s).

Lemma has_emitter_job s i e job j : has_emitter s i e -> has_emitter (put_job job j s) i e.
Proof. done. Qed.

(** The calls of [epoll_ctl] for a mask that is not empty: one, or a second with the
    other operation. *)
Lemma ctl_register i e op fd evt s : has_emitter s i e -> pollable (io_fd e) fd -> op = EPOLL_CTL_ADD \/ op = EPOLL_CTL_MOD ->
  exists k, (res <-- ctl i op fd evt ;;
     res <-- (if (res =? EEXIST) && (op =? EPOLL_CTL_ADD) then ctl i EPOLL_CTL_MOD fd evt
              else if (res =? ENOENT) && (op =? EPOLL_CTL_MOD) then ctl i EPOLL_CTL_ADD fd evt else ret res) ;;
     ret (if res =? EEXIST then 0 else res)) s = Ret (0, put_emitter i (set_io_fd k e) s) /\ registers (io_fd e) fd (Some evt) k.
Proof.
  intros He Hp Hop. assert (has_emitter (put_emitter i (set_io_fd (io_fd e) e) s) i e) as He'.
  { replace (set_io_fd (io_fd e) e) with e by (by destruct e). by apply (has_emitter_put i e). }
  destruct (interest (io_fd e) fd) as [x|] eqn:Ei; destruct Hop as [-> | ->].
  1: destruct (ctl_mod _ fd evt x Hp Ei) as (k & Ek & Hk).
  2: destruct (ctl_mod _ fd evt x Hp Ei) as (k & Ek & Hk).
  3, 4: destruct (ctl_add _ fd evt Hp Ei) as (k & Ek & Hk).
  all: exists k; split; [|done]; rewrite (bind_ret _ _ _ _ _ (ctl_ok i _ fd evt e s He)).
  - rewrite (ctl_add_exists _ fd evt x Ei). cbn -[ctl put_emitter ret].
    rewrite (bind_ret _ _ _ _ _ (ctl_ok i _ fd evt e _ He')), Ek, put_emitter_twice. done.
  - by rewrite Ek.
  - by rewrite Ek.
  - rewrite (ctl_mod_none _ fd evt Hp Ei). cbn -[ctl put_emitter ret].
    rewrite (bind_ret _ _ _ _ _ (ctl_ok i _ fd evt e _ He')), Ek, put_emitter_twice. done.
Qed.

Lemma ctl_unregister i e fd evt s : has_emitter s i e -> pollable (io_fd e) fd ->
  exists k, (res <-- ctl i EPOLL_CTL_DEL fd evt ;; ret (if res =? ENOENT then 0 else res)) s = Ret (0, put_emitter i (set_io_fd k e) s) /\
    registers (io_fd e) fd None k.
Proof.
  intros He Hp. destruct (interest (io_fd e) fd) as [x|] eqn:Ei.
  - destruct (ctl_del _ fd evt x Hp Ei) as (k & Ek & Hk). exists k. split; [|done].
    by rewrite (bind_ret _ _ _ _ _ (ctl_ok i _ fd evt e s He)), Ek.
  - exists (io_fd e). split; [|by split]. by rewrite (bind_ret _ _ _ _ _ (ctl_ok i _ fd evt e s He)), (ctl_del_none _ fd evt Hp Ei).
Qed.

Lemma apply_io_mask_spec i e job j m s : has_emitter s i e -> jobs s !! job = Some j -> fd j <> -1 -> pollable (io_fd e) (fd j) ->
  exists k, ph_nbio_emitter_apply_io_mask (Some i) job m s = Ret (PH_OK, applied i e job j m k s) /\
    registers (io_fd e) (fd j) (if want_mask m =? 0 then None else Some (want_mask m, job)) k.
Proof.
  intros He Hj Hfd Hp. unfold ph_nbio_emitter_apply_io_mask, applied. rewrite (bind_ret _ _ _ _ _ (load_job_ok _ _ _ Hj)).
  rewrite (proj2 (Z.eqb_neq _ _) Hfd). destruct (want_mask m =? 0) eqn:Ew.
  - apply Z.eqb_eq in Ew. rewrite Ew.
    destruct (ctl_unregister i e (fd j) (0, job) (put_job job (set_masks 0 0 j) s) He Hp) as (k & Ek & Hk). exists k. split; [|done].
    erewrite bind_ret; [|erewrite bind_ret by (by apply alter_job_ok); erewrite bind_ret by reflexivity; exact Ek]. done.
  - destruct (ctl_register i e (if kmask j =? 0 then EPOLL_CTL_ADD else EPOLL_CTL_MOD) (fd j) (want_mask m, job)
      (put_job job (set_masks m (want_mask m) j) s) He Hp) as (k & Ek & Hk); [case_bool; auto|].
    exists k. split; [|done].
    erewrite bind_ret; [|erewrite bind_ret by (by apply alter_job_ok); erewrite bind_ret by reflexivity; exact Ek]. done.
Qed.

(** Applying a mask does not fail for a descriptor that can be polled, whatever
    was registered for it: afterwards the events of the mask are registered with
    the job, or none. *)
Theorem apply_io_mask_registers i e job j m s : has_emitter s i e -> jobs s !! job = Some j -> fd j <> -1 -> pollable (io_fd e) (fd j) ->
  exists k, ph_nbio_emitter_apply_io_mask (Some i) job m s = Ret (PH_OK, applied i e job j m k s) /\
    interest k (fd j) = (if want_mask m =? 0 then None else Some (want_mask m, job)) /\
    (forall fd', fd' <> fd j -> interest k fd' = interest (io_fd e) fd').
Proof. intros He Hj Hfd Hp. destruct (apply_io_mask_spec i e job j m s) as (k & E & H1 & H2 & _); eauto. Qed.

(** ** Computations that do not depend on the thread *)

Definition ignores_me {A} (c : M nbio A) : Prop := forall t s,
  c (set_me t s) = match c s with Ret (a, s') => Ret (a, set_me t s') | Panic => Panic | Fault => Fault end.

Lemma im_ret {A} (a : A) : ignores_me (ret a).
Proof. done. Qed.
Lemma im_bind {A B} (c : M nbio A) (k : A -> M nbio B) : ignores_me c -> (forall a, ignores_me (k a)) -> ignores_me (bind c k).
Proof. intros Hc Hk t s. unfold bind. rewrite Hc. destruct (c s) as [[a s']| |]; try done. apply Hk. Qed.
Lemma im_of_option {A} (o : option A) : ignores_me (of_option o).
Proof. by destruct o. Qed.
Lemma im_load_job job : ignores_me (load_job job).
Proof. intros t s. unfold load_job, bind, get. cbn. by destruct (jobs s !! job). Qed.
Lemma im_alter_job job f : ignores_me (alter_job job f).
Proof. apply im_bind; [apply im_load_job|done]. Qed.
Lemma im_load_emitter i : ignores_me (load_emitter i).
Proof. intros t s. unfold load_emitter, bind, get. cbn. by destruct (emitters s ≫= _). Qed.
Lemma im_alter_emitter i f : ignores_me (alter_emitter i f).
Proof. apply im_bind; [apply im_load_emitter|done]. Qed.
Lemma im_panic {A} : ignores_me (@panic nbio A).
Proof. done. Qed.
Lemma im_if {A} (b : bool) (c d : M nbio A) : ignores_me c -> ignores_me d -> ignores_me (if b then c else d).
Proof. by destruct b. Qed.
Create HintDb nbio.
#[local] Hint Resolve im_ret im_bind im_of_option im_load_job im_alter_job im_load_emitter im_alter_emitter im_panic im_if : nbio.

Lemma im_on_wheel {A} i (f : world -> A * world) : ignores_me (on_wheel i f).
Proof.
  intros t s. unfold on_wheel, alter_emitter, load_emitter, bind, get, of_option, modify, ret. cbn.
  destruct (emitters s) as [es|] eqn:Es; cbn; [|done]. destruct (es !! i) as [e|] eqn:Ei; [|done]. cbn. destruct (f _) as [a w].
  change (emitters (set_me t s)) with (emitters s). rewrite Es. cbn. by rewrite Ei.
Qed.
Lemma im_ctl i op fd evt : ignores_me (ctl i op fd evt).
Proof. apply im_bind; [apply im_load_emitter|]. intros e. destruct (epoll_ctl _ _ _ _). auto with nbio. Qed.
#[local] Hint Resolve im_on_wheel im_ctl : nbio.
Lemma im_apply_io_mask e job m : ignores_me (ph_nbio_emitter_apply_io_mask e job m).
Proof. unfold ph_nbio_emitter_apply_io_mask. repeat (first [apply im_bind | apply im_if | intros ? | apply im_ret]; auto with nbio). Qed.
#[local] Hint Resolve im_apply_io_mask : nbio.
Lemma im_apply_nbio i job m : ignores_me (apply_nbio i job m).
Proof.
  intros t s. unfold apply_nbio. rewrite !(bind_ret get _ _ _ _ eq_refl). cbn [job_timers set_me].
  match goal with |- ?c (set_me t s) = _ => assert (ignores_me c) as H; [|apply H] end. auto 10 with nbio.
Qed.

(** ** Scheduling *)

Lemma on_wheel_ok {A} i (f : world -> A * world) e s : has_emitter s i e ->
  let r := f (World (em_wheel e) (job_timers s)) in
  on_wheel i f s = Ret (r.1, set_timers (timers r.2) (put_emitter i (set_em_wheel (wheel r.2) e) s)).
Proof.
  intros He. cbv zeta. unfold on_wheel. rewrite (bind_ret _ _ _ _ _ (load_emitter_ok _ _ _ He)). step.
  destruct (f _) as [a w]. rewrite (bind_ret _ _ _ _ _ (alter_emitter_ok _ _ _ _ He)). by step.
Qed.

(** The state [ph_job_set_nbio] leaves before the mask is applied or deferred. *)
Definition prepared (i : nat) (e : emitter) (job : positive) (j : ph_job) (m : Z) (timeout : option timeval) s : nbio :=
  let w := (ph_timerwheel_remove job (World (em_wheel e) (job_timers s))).2 in
  set_timers (<[job := set_due (default (Timeval 0 0) timeout) (timers w !!! job)]> (timers w))
    (put_emitter i (set_em_wheel (wheel w) e) (put_job job (set_masks m (kmask j) (set_job_pool None j)) s)).

Record schedulable s (i : nat) (e : emitter) (job : positive) (j : ph_job) : Prop := {
  sc_job : jobs s !! job = Some j;
  sc_emitter : has_emitter s i e;
  sc_target : emitter_for_job job s = Ret (i, s);
  sc_live : freed j = false;
}.

Lemma set_nbio_prepared i e job j m timeout s : schedulable s i e job j ->
  ph_job_set_nbio job m timeout s =
    (s <-- get ;;
     if (is_worker (me s) =? 0) || bool_decide (is_emitter (me s) = Some i) then apply_nbio i job m ;;; ret PH_OK
     else if in_apply j then ret PH_OK
     else alter_job job (set_in_apply true) ;;;
          insert_pending job (fun t => set_pending (pending_nbio t ++ [job]) (pending_pool t) t) ;;; ret PH_OK)
    (prepared i e job j m timeout s).
Proof.
  intros [Hj He Ht Hl]. unfold ph_job_set_nbio. rewrite (bind_ret _ _ _ _ _ Ht), (bind_ret _ _ _ _ _ (load_job_ok _ _ _ Hj)), Hl.
  rewrite (bind_ret _ _ _ _ _ (alter_job_ok _ _ _ _ Hj)).
  erewrite bind_ret by (apply alter_job_ok; cbn; by rewrite lookup_insert_eq). rewrite put_job_twice.
  erewrite bind_ret by (apply (on_wheel_ok i _ e); exact He). step. cbn [job_timers set_timers timers put_emitter put_job set_emitters set_jobs].
  match goal with |- _ ?x = _ => change x with (prepared i e job j m timeout s) end.
  rewrite !(bind_ret get _ _ _ _ eq_refl). case_bool; [done|].
  erewrite bind_ret; [|apply load_job_ok; unfold prepared; cbn; by rewrite lookup_insert_eq]. done.
Qed.

Lemma prepared_job i e job j m t s : jobs (prepared i e job j m t s) !! job = Some (set_masks m (kmask j) (set_job_pool None j)).
Proof. unfold prepared. cbn. by rewrite lookup_insert_eq. Qed.

Lemma bind_same {A B} (c d : M nbio A) (k : A -> M nbio B) s s' : c s = d s' -> bind c k s = bind d k s'.
Proof. intros H. unfold bind. by rewrite H. Qed.

(** The mask a job has does not matter when one is applied. *)
Lemma apply_io_mask_ignores e job j m x s : jobs s !! job = Some j -> fd j <> -1 ->
  ph_nbio_emitter_apply_io_mask e job m (put_job job (set_masks x (kmask j) j) s) = ph_nbio_emitter_apply_io_mask e job m s.
Proof.
  intros Hj Hfd. unfold ph_nbio_emitter_apply_io_mask.
  erewrite (bind_ret _ _ (put_job _ _ _)) by (apply load_job_ok; cbn; by rewrite lookup_insert_eq).
  rewrite (bind_ret _ _ _ _ _ (load_job_ok _ _ _ Hj)). cbn [fd set_masks kmask]. rewrite (proj2 (Z.eqb_neq _ _) Hfd).
  apply bind_same. case_bool.
  - erewrite (bind_ret (alter_job _ _) _ (put_job _ _ _)) by (apply alter_job_ok; cbn; by rewrite lookup_insert_eq).
    by rewrite (bind_ret _ _ _ _ _ (alter_job_ok _ _ _ _ Hj)), put_job_twice.
  - erewrite (bind_ret (alter_job _ _) _ (put_job _ _ _)) by (apply alter_job_ok; cbn; by rewrite lookup_insert_eq).
    by rewrite (bind_ret _ _ _ _ _ (alter_job_ok _ _ _ _ Hj)), put_job_twice.
Qed.

Lemma apply_nbio_ignores i e job j m x s : jobs s !! job = Some j -> has_emitter s i e -> fd j <> -1 ->
  apply_nbio i job m (put_job job (set_masks x (kmask j) j) s) = apply_nbio i job m s.
Proof.
  intros Hj He Hfd. unfold apply_nbio. rewrite !(bind_ret get _ _ _ _ eq_refl). cbn [job_timers put_job set_jobs]. case_bool.
  - erewrite (bind_ret _ _ (put_job _ _ _)) by (erewrite bind_ret by (apply (on_wheel_ok i _ e); exact He); reflexivity).
    erewrite (bind_ret _ _ s) by (erewrite bind_ret by (by apply (on_wheel_ok i _ e)); reflexivity).
    cbv zeta. cbn [job_timers put_job set_jobs]. set (w := (ph_timerwheel_enable job _).2).
    exact (apply_io_mask_ignores (Some i) job j m x (set_timers (timers w) (put_emitter i (set_em_wheel (wheel w) e) s)) Hj Hfd).
  - rewrite !(bind_ret (ret tt) _ _ _ _ eq_refl). by apply apply_io_mask_ignores.
Qed.

Lemma emitter_for_job_ok job j i e es s s' : jobs s !! job = Some j -> emitters s = Some es -> es !! i = Some e ->
  emitter_for_job job s = Ret (i, s) -> (exists es', emitters s' = Some es' /\ length es' = length es) ->
  (exists j', jobs s' !! job = Some j' /\ emitter_affinity j' = emitter_affinity j) -> emitter_for_job job s' = Ret (i, s').
Proof.
  intros Hj Hes Hi Ht (es' & Hes' & Hlen) (j' & Hj' & Ha). unfold emitter_for_job, emitter_for_affinity in *.
  rewrite (bind_ret _ _ _ _ _ (load_job_ok _ _ _ Hj)) in Ht. rewrite (bind_ret _ _ _ _ _ (load_job_ok _ _ _ Hj')), Ha.
  rewrite !(bind_ret get _ _ _ _ eq_refl) in *. rewrite Hes in Ht. rewrite Hes'. destruct es as [|x es]; [done|]. destruct es' as [|x' es']; [done|].
  rewrite Hlen. injection Ht as Ht. unfold ret. do 2 f_equal. exact Ht.
Qed.

Lemma set_me_same s : set_me (me s) s = s.
Proof. by destruct s. Qed.

Lemma im_me {A} (c : M nbio A) s a s' : ignores_me c -> c s = Ret (a, s') -> me s' = me s.
Proof. intros Hc E. specialize (Hc (me s) s). rewrite set_me_same, E in Hc. injection Hc as ->. done. Qed.

(** What is queued when a mask is deferred. *)
Definition queued (i : nat) (e : emitter) (job : positive) (j : ph_job) (m : Z) (timeout : option timeval) s : nbio :=
  set_me (set_pending (pending_nbio (me s) ++ [job]) (pending_pool (me s)) (me s))
    (put_job job (set_in_apply true (set_masks m (kmask j) (set_job_pool None j))) (prepared i e job j m timeout s)).

Lemma set_nbio_deferred i e job j m timeout s : schedulable s i e job j -> in_apply j = false ->
  is_worker (me s) <> 0 -> is_emitter (me s) <> Some i -> job ∉ pending_nbio (me s) ++ pending_pool (me s) ->
  ph_job_set_nbio job m timeout s = Ret (PH_OK, queued i e job j m timeout s).
Proof.
  intros Hsc Hia Hw He Hnp. rewrite (set_nbio_prepared i e job j m timeout s Hsc), (bind_ret get _ _ _ _ eq_refl).
  change (me (prepared i e job j m timeout s)) with (me s). rewrite (proj2 (Z.eqb_neq _ _) Hw), bool_decide_eq_false_2, Hia by done. cbn [orb].
  erewrite bind_ret by (apply alter_job_ok, prepared_job). unfold insert_pending.
  erewrite bind_ret by (rewrite (bind_ret get _ _ _ _ eq_refl); rewrite bool_decide_eq_false_2 by exact Hnp; reflexivity). done.
Qed.

Lemma process_nbio_one i e job j s0 s : schedulable s0 i e job j ->
  (exists es es', emitters s0 = Some es /\ emitters s = Some es' /\ length es' = length es) ->
  forall jj, jobs s !! job = Some jj -> emitter_affinity jj = emitter_affinity j ->
  process_nbio job s = (apply_nbio i job (mask jj) ;;; ret tt)
    (set_me (set_pending (filter (fun x => x <> job) (pending_nbio (me s))) (pending_pool (me s)) (me s))
       (put_job job (set_masks 0 (kmask jj) (set_in_apply false jj)) s)).
Proof.
  intros [H1 (es0 & E0 & Hi) H3 H4] (es & es' & E1 & E2 & Hlen) jj Hjj Ha. simplify_eq. unfold process_nbio. step.
  erewrite bind_ret by (apply alter_job_ok; exact Hjj).
  erewrite bind_ret.
  2: { eapply (emitter_for_job_ok job j i e es0 s0); eauto. eexists. cbn. by rewrite lookup_insert_eq. }
  erewrite bind_ret by (apply load_job_ok; cbn; by rewrite lookup_insert_eq).
  erewrite bind_ret by (apply alter_job_ok; cbn; by rewrite lookup_insert_eq). rewrite put_job_twice. done.
Qed.

Lemma process_deferred_one fuel asleep i e job j m timeout s : schedulable s i e job j -> in_apply j = false -> fd j <> -1 ->
  pending_nbio (me s) = [] -> pending_pool (me s) = [] ->
  process_deferred fuel asleep (queued i e job j m timeout s) = (apply_nbio i job m ;;; ret tt) (prepared i e job j m timeout s).
Proof.
  intros Hsc Hia Hfd Hpn Hpp. unfold process_deferred. rewrite (bind_ret get _ _ _ _ eq_refl).
  unfold queued at 1. cbn [me set_me pending_pool set_pending]. rewrite Hpp. cbn [for_all]. step. rewrite (bind_ret get _ _ _ _ eq_refl).
  unfold queued at 1. cbn [me set_me pending_nbio set_pending]. rewrite Hpn. cbn [for_all app].
  set (jj := set_masks m (kmask j) (set_job_pool None j)). set (p := prepared i e job j m timeout s).
  pose proof Hsc as [_ (es & Hes & Hi) _ _].
  assert (process_nbio job (queued i e job j m timeout s) = (apply_nbio i job m ;;; ret tt) (put_job job (set_masks 0 (kmask jj) jj) p)) as Hp.
  { rewrite (process_nbio_one i e job j s _ Hsc) with (jj := set_in_apply true jj).
    - f_equal. unfold queued. fold jj p. cbn [me set_me pending_nbio pending_pool set_pending]. rewrite Hpn, Hpp. cbn [app].
      rewrite filter_cons_False by (intros H; by apply H). cbn [filter list_filter].
      replace (set_in_apply false (set_in_apply true jj)) with jj by (unfold jj; destruct j; cbn in *; by subst).
      unfold put_job, set_jobs. cbn. rewrite insert_insert_eq. unfold set_me. cbn. f_equal. destruct (me s). cbn in *. by subst.
    - exists es. eexists. split; [done|]. unfold queued, prepared. cbn. rewrite Hes. cbn. split; [done|]. apply length_insert.
    - unfold queued. cbn. by rewrite lookup_insert_eq.
    - done. }
  unfold bind at 1. rewrite Hp. unfold bind. rewrite (apply_nbio_ignores i (set_em_wheel (wheel (ph_timerwheel_remove job (World (em_wheel e) (job_timers s))).2) e) job jj).
  - by destruct (apply_nbio i job m p) as [[[] s']| |].
  - apply prepared_job.
  - exists (<[i := set_em_wheel (wheel (ph_timerwheel_remove job (World (em_wheel e) (job_timers s))).2) e]> es). unfold p, prepared. cbn.
    rewrite Hes. split; [done|]. apply list_lookup_insert_eq. by eapply lookup_lt_Some.
  - done.
Qed.


(** A timer that is not being dispatched, and enabled only in a list. *)
Definition timer_quiet (t : ph_timerwheel_timer) : Prop :=
  enable t <> PH_TIMER_LOCKED /\ (list_of t = None -> enable t = PH_TIMER_DISABLED).

Lemma lookup_alter_timer f id w : timers (alter_timer f id w) !!! id = f (timers w !!! id).
Proof. unfold alter_timer, set_timer. cbn. by rewrite lookup_total_insert_eq. Qed.
Lemma list_remove_timers id w : timers (list_remove id w) = timers w.
Proof. unfold list_remove. by destruct (list_of _). Qed.

Lemma remove_quiet id w : timer_quiet (timers w !!! id) ->
  (ph_timerwheel_remove id w).1 <> PH_BUSY /\ enable (timers (ph_timerwheel_remove id w).2 !!! id) = PH_TIMER_DISABLED /\
  list_of (timers (ph_timerwheel_remove id w).2 !!! id) = None.
Proof.
  intros [Hl Hd]. unfold ph_timerwheel_remove. destruct (list_of (timers w !!! id)) as [l|] eqn:El; [|by split_and!; auto].
  unfold ph_timerwheel_disable. destruct (enable (timers w !!! id)) eqn:Ee; [| |done]; 
    rewrite (bool_decide_eq_true_2 (PH_OK = PH_OK)) by done; cbn -[alter_timer list_remove];
    (split; [done|]); rewrite !lookup_alter_timer, list_remove_timers; [|rewrite lookup_alter_timer]; by cbn.
Qed.

Lemma enable_disabled id w : enable (timers w !!! id) = PH_TIMER_DISABLED -> list_of (timers w !!! id) = None ->
  (ph_timerwheel_enable id w).1 = PH_OK /\ enable (timers (ph_timerwheel_enable id w).2 !!! id) = PH_TIMER_ENABLED /\
  is_Some (list_of (timers (ph_timerwheel_enable id w).2 !!! id)).
Proof.
  intros He Hl. unfold ph_timerwheel_enable. rewrite bool_decide_eq_true_2 by done. cbn [negb].
  rewrite lookup_alter_timer. cbn [set_enable list_of]. rewrite Hl. cbn -[alter_timer list_remove link_timer]. split; [done|].
  rewrite !lookup_alter_timer. cbn [set_enable enable list_of]. split; [done|].
  unfold link_timer. destruct (compute_list _ _) as [sl d]. cbn. rewrite lookup_total_insert_eq. cbn. eauto.
Qed.

Lemma set_nbio_spec i e job j m timeout s : schedulable s i e job j -> fd j <> -1 ->
  is_worker (me s) = 0 \/ is_emitter (me s) = Some i -> pollable (io_fd e) (fd j) -> timer_quiet (job_timers s !!! job) ->
  exists s' e' j', ph_job_set_nbio job m timeout s = Ret (PH_OK, s') /\ has_emitter s' i e' /\ jobs s' !! job = Some j' /\
    interest (io_fd e') (fd j) = (if want_mask m =? 0 then None else Some (want_mask m, job)) /\
    (forall fd', fd' <> fd j -> interest (io_fd e') fd' = interest (io_fd e) fd') /\
    kmask j' = want_mask m /\ job_pool j' = None /\
    enable (job_timers s' !!! job) =
      (if timerisset (default (Timeval 0 0) timeout) then PH_TIMER_ENABLED else PH_TIMER_DISABLED).
Proof.
  intros Hsc Hfd Hme Hp Hq. rewrite (set_nbio_prepared i e job j m timeout s Hsc), (bind_ret get _ _ _ _ eq_refl).
  change (me (prepared i e job j m timeout s)) with (me s).
  assert ((is_worker (me s) =? 0) || bool_decide (is_emitter (me s) = Some i) = true) as ->.
  { apply orb_true_iff. rewrite Z.eqb_eq, bool_decide_eq_true. done. }
  pose proof (prepared_job i e job j m timeout s) as Hjp. pose proof Hsc as [_ Hem _ _].
  destruct (remove_quiet job (World (em_wheel e) (job_timers s)) Hq) as (_ & Hdis & Hnol).
  set (w := (ph_timerwheel_remove job (World (em_wheel e) (job_timers s))).2) in *.
  set (p := prepared i e job j m timeout s) in *. set (jj := set_masks m (kmask j) (set_job_pool None j)) in *.
  assert (has_emitter p i (set_em_wheel (wheel w) e)) as Hep by (by apply (has_emitter_put i e)).
  assert (job_timers p !!! job = set_due (default (Timeval 0 0) timeout) (timers w !!! job)) as Htp by (unfold p, prepared; cbn; by rewrite lookup_total_insert_eq).
  assert (exists s1 e1, (if timerisset (due (job_timers p !!! job)) then on_wheel i (ph_timerwheel_enable job) ;;; ret tt else ret tt) p = Ret (tt, s1) /\
    has_emitter s1 i e1 /\ io_fd e1 = io_fd e /\ jobs s1 = jobs p /\
    enable (job_timers s1 !!! job) = (if timerisset (default (Timeval 0 0) timeout) then PH_TIMER_ENABLED else PH_TIMER_DISABLED))
    as (s1 & e1 & E1 & He1 & Hk1 & Hj1 & Ht1).
  { rewrite Htp. cbn [due set_due]. destruct (timerisset _).
    - pose proof (enable_disabled job (World (em_wheel (set_em_wheel (wheel w) e)) (job_timers p))) as He.
      cbn [timers] in He. rewrite Htp in He. destruct He as (_ & Hen & _); [done..|].
      eexists _, _. split; [by rewrite (bind_ret _ _ _ _ _ (on_wheel_ok i (ph_timerwheel_enable job) _ p Hep))|].
      split; [apply (has_emitter_put i _ _ p Hep)|]. by split_and!.
    - exists p, (set_em_wheel (wheel w) e). split_and!; auto. by rewrite Htp. }
  destruct (apply_io_mask_spec i e1 job jj m s1) as (k & E2 & Hr & Hro & _); [done|by rewrite Hj1|done|by rewrite Hk1|].
  eexists _, _, _. split.
  { erewrite bind_ret; [reflexivity|]. unfold apply_nbio. rewrite (bind_ret get _ _ _ _ eq_refl), (bind_ret _ _ _ _ _ E1). exact E2. }
  unfold applied. split; [apply (has_emitter_put i e1); exact He1|]. split; [cbn; by rewrite lookup_insert_eq|].
  split; [exact Hr|]. split; [intros fd' Hf; rewrite <- Hk1; by apply Hro|]. by split_and!.
Qed.

(** C5. On the thread of its emitter, or outside of the scheduler, scheduling a job
    registers exactly the events of its mask with the kernel, whatever was
    registered before and without touching other descriptors, and starts its
    timer exactly when a time is given. *)
Theorem set_nbio_schedules i e job j m timeout s : schedulable s i e job j -> fd j <> -1 ->
  is_worker (me s) = 0 \/ is_emitter (me s) = Some i -> pollable (io_fd e) (fd j) -> timer_quiet (job_timers s !!! job) ->
  exists s' e' j', ph_job_set_nbio job m timeout s = Ret (PH_OK, s') /\ has_emitter s' i e' /\ jobs s' !! job = Some j' /\
    interest (io_fd e') (fd j) = (if want_mask m =? 0 then None else Some (want_mask m, job)) /\
    (forall fd', fd' <> fd j -> interest (io_fd e') fd' = interest (io_fd e) fd') /\
    kmask j' = want_mask m /\ job_pool j' = None /\
    enable (job_timers s' !!! job) =
      (if timerisset (default (Timeval 0 0) timeout) then PH_TIMER_ENABLED else PH_TIMER_DISABLED).
Proof. apply set_nbio_spec. Qed.

(** ** Dispatch *)

Section dispatch.
Context (callback : positive -> Z -> M nbio unit) (user_func : Z -> Z -> positive -> M nbio unit).
Abbreviation dispatch := (ph_nbio_emitter_dispatch_immediate callback).

Lemma time_now_ok s : exists tv t, ph_time_now s = Ret (tv, set_me t s) /\ pending_nbio t = pending_nbio (me s) /\ is_emitter t = is_emitter (me s).
Proof.
  unfold ph_time_now. rewrite (bind_ret get _ _ _ _ eq_refl). case_bool.
  - step. step. eexists _, _. by split.
  - exists (th_now (me s)), (me s). by rewrite set_me_same.
Qed.

(** A job that is being freed is not dispatched. *)
Theorem dispatch_freed i job j why s : jobs s !! job = Some j -> freed j = true -> dispatch i job why s = Ret (tt, s).
Proof. intros Hj Hf. unfold ph_nbio_emitter_dispatch_immediate. by rewrite (bind_ret _ _ _ _ _ (load_job_ok _ _ _ Hj)), Hf. Qed.

(** A job whose timer is being dispatched is not dispatched for another reason;
    the conflict is counted. *)
Theorem dispatch_timer_wins i e job j why s : jobs s !! job = Some j -> freed j = false -> has_emitter s i e -> why <> PH_IOMASK_TIME ->
  is_Some (list_of (job_timers s !!! job)) -> enable (job_timers s !!! job) = PH_TIMER_LOCKED ->
  dispatch i job why s = Ret (tt, put_emitter i (count_em 0 0 1 e) s).
Proof.
  intros Hj Hf He Hw [l Hl] Hk. unfold ph_nbio_emitter_dispatch_immediate. rewrite (bind_ret _ _ _ _ _ (load_job_ok _ _ _ Hj)), Hf.
  rewrite (proj2 (Z.eqb_neq _ _) Hw).
  assert (on_wheel i (ph_timerwheel_remove job) s = Ret (PH_BUSY, s)) as E.
  { rewrite (on_wheel_ok i _ e) by done. unfold ph_timerwheel_remove, ph_timerwheel_disable. cbn [timers]. rewrite Hl, Hk.
    rewrite bool_decide_eq_false_2 by done. cbn. replace (set_em_wheel (em_wheel e) e) with e by (by destruct e).
    rewrite put_emitter_same by done. by destruct s. }
  rewrite (bind_ret _ _ _ _ _ E), bool_decide_eq_true_2 by done. by apply alter_emitter_ok.
Qed.

(** C7. A job that is not being freed and whose timer is not being dispatched is
    dispatched once: its timer is stopped unless it is the reason, the dispatch
    is counted, and its callback runs. *)
Theorem dispatch_calls_back i e job j why s : jobs s !! job = Some j -> freed j = false -> has_emitter s i e ->
  (why = PH_IOMASK_TIME \/ timer_quiet (job_timers s !!! job)) ->
  exists s' e', dispatch i job why s = callback job why s' /\ jobs s' = jobs s /\ has_emitter s' i e' /\ io_fd e' = io_fd e /\
    n_dispatched e' = n_dispatched e + 1 /\ n_busy e' = n_busy e /\ pending_nbio (me s') = pending_nbio (me s) /\
    (why <> PH_IOMASK_TIME -> enable (job_timers s' !!! job) = PH_TIMER_DISABLED).
Proof.
  intros Hj Hf He Hw. unfold ph_nbio_emitter_dispatch_immediate. rewrite (bind_ret _ _ _ _ _ (load_job_ok _ _ _ Hj)), Hf.
  assert (exists r s1 e1, (if why =? PH_IOMASK_TIME then ret PH_OK else on_wheel i (ph_timerwheel_remove job)) s = Ret (r, s1) /\ r <> PH_BUSY /\
    jobs s1 = jobs s /\ has_emitter s1 i e1 /\ io_fd e1 = io_fd e /\ n_dispatched e1 = n_dispatched e /\ n_busy e1 = n_busy e /\ me s1 = me s /\
    (why <> PH_IOMASK_TIME -> enable (job_timers s1 !!! job) = PH_TIMER_DISABLED)) as (r & s1 & e1 & E1 & Hr & Hj1 & He1 & Hk1 & Hd1 & Hb1 & Hm1 & Ht1).
  { destruct (why =? PH_IOMASK_TIME) eqn:Ew; zbool.
    - exists PH_OK, s, e. by split_and!.
    - destruct Hw as [|Hq]; [done|]. destruct (remove_quiet job (World (em_wheel e) (job_timers s)) Hq) as (Hr & Hd & _).
      eexists _, _, _. split; [by apply on_wheel_ok|]. split; [done|]. split; [done|]. split; [by apply (has_emitter_put i e)|]. by split_and!. }
  rewrite (bind_ret _ _ _ _ _ E1), bool_decide_eq_false_2 by done.
  rewrite (bind_ret _ _ _ _ _ (alter_emitter_ok i _ e1 s1 He1)). pose proof (has_emitter_put i e1 (count_em 1 0 0 e1) s1 He1) as He2.
  rewrite (bind_ret _ _ _ _ _ (load_emitter_ok _ _ _ He2)), (bind_ret get _ _ _ _ eq_refl).
  set (s2 := put_emitter i (count_em 1 0 0 e1) s1) in *. case_bool.
  - exists s2, (count_em 1 0 0 e1). split; [done|]. cbn. rewrite Hm1. split_and!; auto; lia.
  - destruct (time_now_ok s2) as (tv & t & Et & Hp & _). exists (put_emitter i (set_last_dispatch tv (count_em 1 0 0 e1)) (set_me t s2)).
    exists (set_last_dispatch tv (count_em 1 0 0 e1)). split.
    { erewrite bind_ret; [reflexivity|]. rewrite (bind_ret _ _ _ _ _ Et). by apply alter_emitter_ok. }
    cbn. rewrite Hp. cbn. rewrite Hm1. split_and!; auto; try lia. apply (has_emitter_put i (count_em 1 0 0 e1)). exact He2.
Qed.

(** ** Functions queued to an emitter *)

Lemma consume_loop_ok fuel : forall res avail, 0 <= avail -> 0 <= res -> res + avail < 2 ^ 32 -> avail < 64 * Z.of_nat fuel ->
  consume_loop fuel res avail = Some (res + avail, 0).
Proof.
  induction fuel as [|fuel IH]; intros res avail Ha Hr Hs Hf; [lia|]. cbn [consume_loop]. case_bool; zbool; [do 2 f_equal; lia|].
  case_bool; zbool; rewrite (wrapU_small 32) by lia; [rewrite IH by lia|]; do 2 f_equal; lia.
Qed.

(** All bytes of the pipe are consumed and counted. *)
Theorem pingfd_consumes_all i e s : has_emitter s i e -> 0 <= affine_ping e <= PIPE_CAPACITY ->
  ph_pingfd_consume_all i s = Ret (affine_ping e, put_emitter i (set_affine (affine_jobs e) 0 e) s).
Proof.
  unfold PIPE_CAPACITY. intros He Hp. unfold ph_pingfd_consume_all. rewrite (bind_ret _ _ _ _ _ (load_emitter_ok _ _ _ He)).
  rewrite (consume_loop_ok 1026 0 (affine_ping e)) by lia. step. cbn [fst snd].
  by rewrite (bind_ret _ _ _ _ _ (alter_emitter_ok i _ e s He)).
Qed.

(** When the pipe was written, the emitter takes the queue and runs its
    functions in order. *)
Theorem affine_jobs_run_in_order i e s : has_emitter s i e -> 0 < affine_ping e <= PIPE_CAPACITY ->
  ph_nbio_process_affine_jobs callback user_func i s =
    run_affine_jobs callback user_func (affine_jobs e) (put_emitter i (set_affine [] 0 e) s).
Proof.
  intros He Hp. unfold ph_nbio_process_affine_jobs. erewrite bind_ret by (apply (pingfd_consumes_all i e); [done|lia]).
  rewrite (proj2 (Z.eqb_neq _ _)) by lia. pose proof (has_emitter_put i e (set_affine (affine_jobs e) 0 e) s He) as He1.
  rewrite (bind_ret _ _ _ _ _ (load_emitter_ok _ _ _ He1)), (bind_ret _ _ _ _ _ (alter_emitter_ok i _ _ _ He1)), put_emitter_twice. done.
Qed.

Lemma affinity_same a i s s' : emitter_for_affinity a s = Ret (i, s) -> emitters s' = emitters s -> emitter_for_affinity a s' = Ret (i, s').
Proof.
  unfold emitter_for_affinity, bind, get, ret. intros H ->. destruct (emitters s) as [[|x es]|]; try done. injection H as H. do 2 f_equal. exact H.
Qed.

(** A wakeup counts itself and queues the dispatch of the job, with a byte in
    the pipe when the queue was empty; without memory nothing changes. *)
Theorem wakeup_queues alloc_ok job j i e s : jobs s !! job = Some j -> freed j = false -> has_emitter s i e ->
  emitter_for_affinity (emitter_affinity j) s = Ret (i, s) -> 0 <= n_wakeups_pending j < 2 ^ 32 - 1 ->
  ph_job_wakeup alloc_ok job s =
    (if alloc_ok
     then Ret (PH_OK, put_emitter i (set_affine (affine_jobs e ++ [AJob DoWakeup 0 job])
            (if bool_decide (affine_jobs e = []) then (if affine_ping e <? PIPE_CAPACITY then affine_ping e + 1 else affine_ping e) else affine_ping e) e)
            (put_job job (set_wakeups (n_wakeups_pending j + 1) j) s))
     else Ret (PH_NOMEM, s)).
Proof.
  intros Hj Hf He Ht Hn. unfold ph_job_wakeup. rewrite (bind_ret _ _ _ _ _ (load_job_ok _ _ _ Hj)), Hf.
  rewrite (bind_ret _ _ _ _ _ (alter_job_ok _ _ _ _ Hj)), (wrapU_small 32) by lia.
  set (s1 := put_job job (set_wakeups (n_wakeups_pending j + 1) j) s). unfold ph_nbio_queue_affine_func. destruct alloc_ok; cbn [negb].
  - assert (emitter_for_affinity (emitter_affinity j) s1 = Ret (i, s1)) as Ht1.
    { by apply (affinity_same _ _ s). }
    assert (has_emitter s1 i e) as He1 by done.
    pose proof (has_emitter_put i e (set_affine (affine_jobs e ++ [AJob DoWakeup 0 job]) (affine_ping e) e) s1 He1) as He2.
    set (q := affine_jobs e ++ [AJob DoWakeup 0 job]) in *.
    set (n := if bool_decide (affine_jobs e = []) then if affine_ping e <? PIPE_CAPACITY then affine_ping e + 1 else affine_ping e else affine_ping e).
    assert ((if bool_decide (affine_jobs e = []) then ph_pingfd_ping i ;;; ret tt else ret tt) (put_emitter i (set_affine q (affine_ping e) e) s1) =
      Ret (tt, put_emitter i (set_affine q n e) s1)) as Ep.
    { unfold n. case_bool; [|done]. unfold ph_pingfd_ping. erewrite bind_ret; [reflexivity|].
      erewrite bind_ret by (apply alter_emitter_ok; exact He2). by rewrite put_emitter_twice. }
    erewrite bind_ret; [|rewrite (bind_ret _ _ _ _ _ Ht1), (bind_ret _ _ _ _ _ (load_emitter_ok _ _ _ He1)),
      (bind_ret _ _ _ _ _ (alter_emitter_ok i _ e s1 He1)), (bind_ret _ _ _ _ _ Ep); reflexivity].
    by rewrite bool_decide_eq_true_2.
  - step. rewrite bool_decide_eq_false_2 by done. erewrite bind_ret.
    2: { apply alter_job_ok. unfold s1. cbn. by rewrite lookup_insert_eq. }
    unfold s1. rewrite put_job_twice. cbn [n_wakeups_pending set_wakeups]. rewrite (wrapU_small 32) by lia.
    replace (n_wakeups_pending j + 1 - 1) with (n_wakeups_pending j) by lia.
    replace (set_wakeups (n_wakeups_pending j) (set_wakeups (n_wakeups_pending j + 1) j)) with j by (by destruct j).
    unfold ret. do 2 f_equal. unfold put_job, set_jobs. rewrite insert_id by done. by destruct s.
Qed.
End dispatch.

(** ** The mask of the kernel *)

Lemma want_mask_cases m : want_mask m = 0 \/ exists x, want_mask m = Z.lor x DEFAULT_POLL_MASK /\ (x = EPOLLIN \/ x = EPOLLOUT \/ x = Z.lor EPOLLIN EPOLLOUT).
Proof. unfold want_mask. cbv zeta. repeat case_bool; eauto 10. Qed.

(** The mask reported for a job is empty, whatever mask was applied. *)
Theorem get_kmask_says_nothing i e job j m s : has_emitter s i e -> jobs s !! job = Some j -> fd j <> -1 -> pollable (io_fd e) (fd j) ->
  exists s', (ph_nbio_emitter_apply_io_mask (Some i) job m ;;; ph_job_get_kmask job) s = Ret (0, s').
Proof.
  intros He Hj Hfd Hp. destruct (apply_io_mask_spec i e job j m s He Hj Hfd Hp) as (k & E & _).
  rewrite (bind_ret _ _ _ _ _ E). unfold ph_job_get_kmask, applied. erewrite bind_ret by (apply load_job_ok; cbn; by rewrite lookup_insert_eq).
  cbn [kmask set_masks]. destruct (want_mask_cases m) as [->|(x & -> & [->|[->| ->]])]; eexists; reflexivity.
Qed.

(** ** Release *)

(** Freeing a job with a descriptor after the emitters are gone goes through a
    null pointer. *)
Theorem job_free_after_end job j s : emitters s = None -> jobs s !! job = Some j -> freed j = false -> fd j <> -1 -> ph_job_free job s = Fault.
Proof.
  intros He Hj Hf Hfd. unfold ph_job_free, ph_nbio_emitter_for_job.
  erewrite bind_ret by (rewrite (bind_ret get _ _ _ _ eq_refl), He; reflexivity).
  rewrite (bind_ret _ _ _ _ _ (load_job_ok _ _ _ Hj)), Hf. step.
  assert (ph_nbio_emitter_apply_io_mask None job 0 s = Fault) as E; [|unfold bind; by rewrite E].
  unfold ph_nbio_emitter_apply_io_mask. rewrite (bind_ret _ _ _ _ _ (load_job_ok _ _ _ Hj)), (proj2 (Z.eqb_neq _ _) Hfd). cbv zeta.
  change (want_mask 0 =? 0) with true. cbv iota.
  assert (forall (k : Z -> M nbio ph_result_t) (c : nat -> M nbio Z), (r <-- (alter_job job (set_masks 0 0) ;;; i <-- of_option None ;; c i) ;; k r) s = Fault) as H.
  { intros k c. unfold bind at 1. by rewrite (bind_ret _ _ _ _ _ (alter_job_ok _ _ _ _ Hj)). }
  apply H.
Qed.

Lemma emitter_for_job_some job i s : emitter_for_job job s = Ret (i, s) -> is_Some (emitters s) -> ph_nbio_emitter_for_job job s = Ret (Some i, s).
Proof. intros Ht [es Hes]. unfold ph_nbio_emitter_for_job. rewrite (bind_ret get _ _ _ _ eq_refl), Hes. by rewrite (bind_ret _ _ _ _ _ Ht). Qed.

(** Freeing a job stops its timer, removes its descriptor from the kernel queue
    and keeps it from being dispatched. *)
Theorem job_free_turns_off i e job j s : schedulable s i e job j -> fd j <> -1 -> pollable (io_fd e) (fd j) -> timer_quiet (job_timers s !!! job) ->
  exists s' e' j', ph_job_free job s = Ret (tt, s') /\ has_emitter s' i e' /\ jobs s' !! job = Some j' /\ freed j' = true /\
    interest (io_fd e') (fd j) = None /\ enable (job_timers s' !!! job) = PH_TIMER_DISABLED /\
    (forall callback why, ph_nbio_emitter_dispatch_immediate callback i job why s' = Ret (tt, s')).
Proof.
  intros [Hj He Ht Hl] Hfd Hp Hq. pose proof He as (es & Hes & _). unfold ph_job_free.
  rewrite (bind_ret _ _ _ _ _ (emitter_for_job_some job i s Ht ltac:(eauto))), (bind_ret _ _ _ _ _ (load_job_ok _ _ _ Hj)), Hl.
  destruct (remove_quiet job (World (em_wheel e) (job_timers s)) Hq) as (_ & Hd & _).
  erewrite bind_ret by (erewrite bind_ret by (by apply (on_wheel_ok i _ e)); reflexivity).
  set (w := (ph_timerwheel_remove job _).2) in *. set (s1 := set_timers (timers w) _).
  assert (has_emitter s1 i (set_em_wheel (wheel w) e)) as He1 by (by apply (has_emitter_put i e)).
  destruct (apply_io_mask_spec i (set_em_wheel (wheel w) e) job j 0 s1) as (k & E & Hr & _ & _); auto.
  rewrite (bind_ret _ _ _ _ _ E). unfold applied. eexists _, _, _. split; [apply alter_job_ok; cbn; by rewrite lookup_insert_eq|].
  split; [apply (has_emitter_put i (set_em_wheel (wheel w) e)); exact He1|]. split; [cbn; by rewrite lookup_insert_eq|].
  split; [done|]. split; [exact Hr|]. split; [exact Hd|].
  intros callback why. eapply dispatch_freed; [cbn; by rewrite lookup_insert_eq|done].
Qed.

(** A job with a wakeup that is queued, or with a deferred mask, is not
    released. *)
Theorem deferred_free_waits dtor i e job j s : schedulable s i e job j \/ emitters s = None /\ jobs s !! job = Some j ->
  0 < n_wakeups_pending j \/ in_apply j = true -> deferred_job_free dtor job s = Ret (false, s).
Proof.
  intros Hs Hw. unfold deferred_job_free. assert (exists t, ph_nbio_emitter_for_job job s = Ret (t, s) /\ jobs s !! job = Some j) as (t & E & Hj).
  { destruct Hs as [[Hj (es & He & _) Ht _]|[He Hj]]; [exists (Some i); split; [|done]; apply emitter_for_job_some; eauto|].
    exists None. split; [|done]. unfold ph_nbio_emitter_for_job. by rewrite (bind_ret get _ _ _ _ eq_refl), He. }
  rewrite (bind_ret _ _ _ _ _ E), (bind_ret _ _ _ _ _ (load_job_ok _ _ _ Hj)).
  assert ((0 <? n_wakeups_pending j) || in_apply j = true) as ->; [|done]. apply orb_true_iff. rewrite Z.ltb_lt. done.
Qed.

End proofs.

(** ** A kernel queue *)

#[export] Instance gmap_epoll : epoll_api := {|
  kq := gmap Z (Z * positive);
  interest k fd := k !! fd;
  epoll_ctl op fd evt k :=
    match k !! fd with
    | None => if op =? EPOLL_CTL_ADD then (0, <[fd := evt]> k) else (ENOENT, k)
    | Some _ => if op =? EPOLL_CTL_ADD then (EEXIST, k) else if op =? EPOLL_CTL_MOD then (0, <[fd := evt]> k) else (0, delete fd k)
    end;
|}.

#[export] Instance gmap_epoll_laws : epoll_laws gmap_epoll.
Proof.
  refine {| pollable _ _ := True |}; cbn; intros; repeat match goal with H : _ !! _ = _ |- _ => rewrite H end; cbn; try done;
    (eexists; split; [reflexivity|]); (split; [by simplify_map_eq|]); (split; [|done]); intros; by simplify_map_eq.
Defined.

(** Two emitters, and a job for descriptor 5 that belongs to the second; the thread
    that runs is a worker of a pool. *)
Definition demo_emitter : emitter (EP := gmap_epoll) :=
  Emitter (ph_timerwheel_init (Timeval 1000 0) 100) 8 9 (Timeval 1000 0) ∅ [] 0 0 0 0.
Definition demo_job : ph_job := Job false 0 0 1 5 0 false None.
Definition demo_thread : ph_thread := Thread 7 3 None (Timeval 1000 0) false [] [].
Definition demo_state (t : ph_thread) : nbio (EP := gmap_epoll) (CR := PoolProofs.PoolProofs.list_ring) :=
  NBIO {[ 1%positive := demo_job ]} ∅ (Some [demo_emitter; demo_emitter]) t ∅ (Timeval 1000 0) (Timeval 5 0) 10.

Lemma demo_schedulable t : schedulable (demo_state t) 1 demo_emitter 1 demo_job.
Proof. split; [reflexivity|by eexists|reflexivity|reflexivity]. Qed.

Lemma apply_io_mask_registers_witness :
  exists k, ph_nbio_emitter_apply_io_mask (Some 1%nat) 1 PH_IOMASK_READ (demo_state demo_thread) =
      Ret (PH_OK, applied 1 demo_emitter 1 demo_job PH_IOMASK_READ k (demo_state demo_thread)) /\
    interest k 5 = Some (Z.lor EPOLLIN DEFAULT_POLL_MASK, 1%positive) /\ (forall fd', fd' <> 5 -> interest k fd' = interest (io_fd demo_emitter) fd').
Proof. apply (apply_io_mask_registers 1 demo_emitter 1 demo_job PH_IOMASK_READ); [by eexists|reflexivity|done|exact I]. Defined.


Lemma set_nbio_schedules_witness : exists s' e' j',
  ph_job_set_nbio 1 PH_IOMASK_READ (Some (Timeval 1010 0)) (demo_state (Thread 2 1 (Some 1%nat) (Timeval 1000 0) false [] [])) = Ret (PH_OK, s') /\
    has_emitter s' 1 e' /\ jobs s' !! 1%positive = Some j' /\
    interest (io_fd e') 5 = (if want_mask PH_IOMASK_READ =? 0 then None else Some (want_mask PH_IOMASK_READ, 1%positive)) /\
    (forall fd', fd' <> 5 -> interest (io_fd e') fd' = interest (io_fd demo_emitter) fd') /\
    kmask j' = want_mask PH_IOMASK_READ /\ job_pool j' = None /\
    enable (job_timers s' !!! 1%positive) = (if timerisset (default (Timeval 0 0) (Some (Timeval 1010 0))) then PH_TIMER_ENABLED else PH_TIMER_DISABLED).
Proof.
  apply (set_nbio_schedules 1 demo_emitter 1 demo_job PH_IOMASK_READ (Some (Timeval 1010 0)));
    [apply demo_schedulable|done|by right|exact I|split; by vm_compute].
Defined.

Lemma dispatch_calls_back_witness : exists s' e',
  ph_nbio_emitter_dispatch_immediate (fun _ _ => ret tt) 1 1 PH_IOMASK_READ (demo_state demo_thread) = ret tt s' /\
    jobs s' = jobs (demo_state demo_thread) /\ has_emitter s' 1 e' /\ io_fd e' = io_fd demo_emitter /\
    n_dispatched e' = n_dispatched demo_emitter + 1 /\ n_busy e' = n_busy demo_emitter /\
    pending_nbio (me s') = pending_nbio (me (demo_state demo_thread)) /\
    (PH_IOMASK_READ <> PH_IOMASK_TIME -> enable (job_timers s' !!! 1%positive) = PH_TIMER_DISABLED).
Proof.
  apply (dispatch_calls_back (fun _ _ => ret tt) 1 demo_emitter 1 demo_job PH_IOMASK_READ (demo_state demo_thread));
    [reflexivity|reflexivity|by eexists|right; split; by vm_compute].
Defined.

End NbioProofs.
