(* ===== verification/AffineQueue.v ===== *)
(** * Functions queued to an emitter (nbio/common.c, pingfd.c)

    Any number of threads run [ph_nbio_queue_affine_func], the emitter's thread runs
    [ph_nbio_process_affine_jobs]; they share the queue, which a lock protects, and
    a pipe.  [step] interleaves them: a section under the lock, a write to the pipe
    and a read from it are one step each.  Functions are numbers, and are taken to
    be run as soon as the emitter comes to them. *)

From Stdlib Require Import ZArith Lia.
From stdpp Require Import base numbers list sets.
From S2P Require Import Prelude.

Module AffineQueue.

(** A thread that queues a function: in front of the lock, or with the pipe still to
    be written. *)
Inductive producer := PInsert (f : Z) | PPing.

(** The emitter: waiting, reading the pipe (having read something or not), about to
    take the queue, and running what it took. *)
Inductive consumer := CWait | CDrain (read : bool) | CTake | CRun (l : list Z).

Record state := State {
  queue : list Z;
  pipe : Z;
  producers : list producer;
  emitter : consumer;
  inserted : list Z;
  ran : list Z;
}.

Section affine.
(** The bytes the pipe holds. *)
Context (capacity : Z).

(** The section under the lock: the thread goes on to the pipe when the queue was
    empty. *)
Definition insert (f : Z) (s : state) : state * option producer :=
  (State (queue s ++ [f]) (pipe s) (producers s) (emitter s) (inserted s ++ [f]) (ran s),
   if bool_decide (queue s = []) then Some PPing else None).

Definition ping (s : state) : state :=
  State (queue s) (if pipe s <? capacity then pipe s + 1 else pipe s) (producers s) (emitter s) (inserted s) (ran s).

(** A read of up to 64 bytes; after a short one the loop ends. *)
Definition read_pipe (read : bool) (s : state) : state :=
  let n := Z.min 64 (pipe s) in
  let next := if n <=? 0 then (if read then CTake else CWait) else if n =? 64 then CDrain true else CTake in
  State (queue s) (pipe s - n) (producers s) next (inserted s) (ran s).

Definition take_queue (s : state) : state := State [] (pipe s) (producers s) (CRun (queue s)) (inserted s) (ran s).

Definition run_next (l : list Z) (s : state) : state :=
  match l with
  | [] => State (queue s) (pipe s) (producers s) CWait (inserted s) (ran s)
  | f :: l => State (queue s) (pipe s) (producers s) (CRun l) (inserted s) (ran s ++ [f])
  end.

Definition set_producers (ps : list producer) (s : state) : state := State (queue s) (pipe s) ps (emitter s) (inserted s) (ran s).
Definition set_emitter (c : consumer) (s : state) : state := State (queue s) (pipe s) (producers s) c (inserted s) (ran s).

Inductive step : state -> state -> Prop :=
  | step_call f s : step s (set_producers (producers s ++ [PInsert f]) s)
  | step_insert f l1 l2 s : producers s = l1 ++ PInsert f :: l2 ->
      step s (set_producers (l1 ++ option_list (insert f s).2 ++ l2) (insert f s).1)
  | step_ping l1 l2 s : producers s = l1 ++ PPing :: l2 -> step s (set_producers (l1 ++ l2) (ping s))
  | step_wake s : emitter s = CWait -> step s (set_emitter (CDrain false) s)
  | step_read read s : emitter s = CDrain read -> step s (read_pipe read s)
  | step_take s : emitter s = CTake -> step s (take_queue s)
  | step_run l s : emitter s = CRun l -> step s (run_next l s).

Inductive reachable : state -> Prop :=
  | reach_start : reachable (State [] 0 [] CWait [] [])
  | reach_step s s' : reachable s -> step s s' -> reachable s'.

(** ** Proofs *)

Definition running (c : consumer) : list Z := match c with CRun l => l | _ => [] end.

(** Somebody will come: the pipe can be read, a thread is going to write to it, or
    the emitter is on its way to the queue. *)
Definition attended (s : state) : Prop :=
  0 < pipe s \/ PPing ∈ producers s \/ emitter s = CDrain true \/ emitter s = CTake.

Record invariant (s : state) : Prop := {
  in_pipe : 0 <= pipe s;
  in_order : inserted s = ran s ++ running (emitter s) ++ queue s;
  in_attended : queue s <> [] -> attended s;
}.

Context (Hcap : 0 < capacity).

Lemma read_pipe_invariant read s : emitter s = CDrain read -> invariant s -> invariant (read_pipe read s).
Proof.
  intros Ec [Hp Ho Ha]. rewrite Ec in Ho. unfold read_pipe. split; unfold attended in *; cbn.
  - lia.
  - by repeat case_bool.
  - intros Hq. specialize (Ha Hq). repeat case_bool; zbool; try (by auto). destruct Ha as [?|[?|[?|?]]]; [lia|tauto|congruence|congruence].
Qed.

Lemma step_invariant s s' : step s s' -> invariant s -> invariant s'.
Proof.
  intros Hs Hi. destruct Hs as [f s|f l1 l2 s El|l1 l2 s El|s Ec|read s Ec|s Ec|l s Ec]; [..|by apply read_pipe_invariant| |];
    destruct Hi as [Hp Ho Ha]; split; unfold attended in *; cbn; auto.
  - intros Hq. specialize (Ha Hq). rewrite elem_of_app. tauto.
  - by rewrite Ho, !app_assoc.
  - intros _. case_bool_decide as Hq; cbn; [right; left; set_solver|]. specialize (Ha Hq). rewrite El in Ha. set_solver.
  - case_bool; zbool; lia.
  - intros Hq. left. case_bool; zbool; lia.
  - by rewrite Ec in Ho.
  - intros Hq. specialize (Ha Hq). rewrite Ec in Ha. set_solver.
  - rewrite Ec in Ho. by rewrite app_nil_r.
  - done.
  - by destruct l.
  - rewrite Ec in Ho. cbn in Ho. destruct l as [|f l]; cbn; [done|]. by rewrite <- app_assoc.
  - intros Hq. destruct l as [|f l]; cbn in *; specialize (Ha Hq); rewrite Ec in Ha; set_solver.
Qed.

Lemma reachable_affine s : reachable s -> invariant s.
Proof. induction 1 as [|s s' _ IH Hs]; [by split|]. by apply (step_invariant s). Qed.

(** C8. In every interleaving of threads that queue functions to an emitter and the
    emitter, while the queue is not empty the pipe can be read, a thread is
    about to write to it, or the emitter is about to take the queue. *)
Theorem affine_wakeup_not_lost s : reachable s -> queue s <> [] -> attended s.
Proof. intros H. apply (reachable_affine s H). Qed.

(** C9. In every interleaving the functions queued are those that were run, those
    the emitter has taken and those in the queue, in this order: each is run
    once, in the order of the insertions. *)
Theorem affine_runs_in_order s : reachable s -> inserted s = ran s ++ running (emitter s) ++ queue s.
Proof. intros H. apply (reachable_affine s H). Qed.

(** When nothing is going on, every function that was queued has been run. *)
Theorem affine_quiescent s : reachable s -> producers s = [] -> emitter s = CWait -> pipe s = 0 -> ran s = inserted s.
Proof.
  intros [_ Ho Ha]%reachable_affine Hp Hc H0. rewrite Hc in Ho. destruct (queue s) as [|f l] eqn:Eq; [by rewrite !app_nil_r in Ho|].
  destruct Ha as [?|[?|[?|?]]]; [done|lia| |congruence|congruence]. rewrite Hp in *. set_solver.
Qed.

End affine.

(** Two threads queue a function each; the second finds the queue not empty. *)
Definition two_queued : state := State [1; 2] 0 [PPing] CWait [1; 2] [].

Lemma two_queued_reachable : reachable 65536 two_queued.
Proof.
  eapply reach_step; [|eapply (step_insert _ 2 [PPing] [] (State [1] 0 [PPing; PInsert 2] CWait [1] [])); reflexivity].
  eapply reach_step; [|eapply (step_insert _ 1 [] [PInsert 2] (State [] 0 [PInsert 1; PInsert 2] CWait [] [])); reflexivity].
  eapply reach_step; [|eapply (step_call _ 2 (State [] 0 [PInsert 1] CWait [] []))].
  eapply reach_step; [|eapply (step_call _ 1 (State [] 0 [] CWait [] []))]. constructor.
Qed.

Lemma affine_wakeup_not_lost_witness : attended two_queued.
Proof. apply (affine_wakeup_not_lost 65536); [lia|exact two_queued_reachable|done]. Defined.

Lemma affine_runs_in_order_witness : [1; 2] = [] ++ running CWait ++ [1; 2].
Proof. apply (affine_runs_in_order 65536 ltac:(lia) two_queued). exact two_queued_reachable. Defined.

End AffineQueue.
