(* ===== verification/Connect.v ===== *)
(** * Connecting sockets (net/socket.c)

    [ph_sock_resolve_and_connect] resolves a name, connects and calls the function
    it was given; in between it waits for the resolver and for the socket.  What the
    system answers (memory, the resolver, [socket], [connect], [SO_ERROR]) are
    arguments; what is done is a log: calls of the user's function, descriptors
    opened and closed, memory of the request and of jobs released. *)

From Stdlib Require Import ZArith Lia.
From stdpp Require Import base numbers list.
From S2P Require Import Prelude.

Module Connect.

Definition ENOMEM : Z := 12.
Definition ETIMEDOUT : Z := 110.
Definition EAI_NONAME : Z := -2.

Inductive status := PH_SOCK_CONNECT_SUCCESS | PH_SOCK_CONNECT_GAI_ERR | PH_SOCK_CONNECT_ERRNO.

(** [Call] is a call of the user's function: with a sock for a descriptor or without
    one.  [DeferClose] is the close of a descriptor in the destructor of a sock, which
    runs later. *)
Inductive event :=
  | Call (sock : option Z) (s : status) (errcode : Z)
  | Open (fd : Z)
  | Close (fd : Z)
  | DeferClose (fd : Z)
  | FreeRac
  | FreeJob.

(** What is waited for: the resolver, or a socket that is being connected. *)
Inductive waiting := Resolving | Connecting (s : Z).

Record world := World { log : list event; wait : option waiting }.
Abbreviation CM := (M world).
Definition emit (e : event) : CM unit := modify (fun w => World (log w ++ [e]) (wait w)).
Definition set_wait (x : option waiting) : CM unit := modify (fun w => World (log w) x).

(** [ph_sock_new_from_socket]: [allocs] of its five allocations succeed: the job, two
    queues, the stream of the descriptor, the stream of the sock.  The failed sock is
    released by its destructor, which closes the descriptor when its stream exists. *)
Definition ph_sock_new_from_socket (allocs : nat) (s : Z) : CM bool :=
  match allocs with
  | O => ret false
  | 1 | 2 | 3 => emit FreeJob ;;; ret false
  | 4 => emit FreeJob ;;; emit (DeferClose s) ;;; ret false
  | _ => ret true
  end%nat.

Definition connected_sock (allocs : nat) (rac_s s st : Z) : CM unit :=
  sock <-- (if st =? 0 then ph_sock_new_from_socket allocs s else ret false) ;;
  let st := if (st =? 0) && negb sock then ENOMEM else st in
  (if negb (st =? 0) && negb (rac_s =? -1) then emit (Close rac_s) else ret tt) ;;;
  (if (sock : bool) then emit (Call (Some s) PH_SOCK_CONNECT_SUCCESS 0) else emit (Call None PH_SOCK_CONNECT_ERRNO st)) ;;;
  emit FreeRac.

(** The result of [connect]: 0 or an error, or that it is in progress. *)
Inductive connect_result := Immediate (errno : Z) | InProgress.

Definition ph_socket_connect (job_ok : bool) (allocs : nat) (s : Z) (res : connect_result) : CM unit :=
  if negb job_ok then connected_sock allocs s s ENOMEM
  else
    match res with
    | InProgress => set_wait (Some (Connecting s))
    | Immediate errno => connected_sock allocs s s errno ;;; emit FreeJob
    end.

(** Why the job of a socket in progress is dispatched: a timeout, or an event and the
    error of the socket. *)
Inductive why_t := WhyTime | WhyEvent (so_error : Z).

Definition connect_complete (allocs : nat) (why : why_t) (s : Z) : CM unit :=
  set_wait None ;;;
  let st := match why with WhyTime => ETIMEDOUT | WhyEvent so_error => so_error end in
  emit FreeJob ;;;
  connected_sock allocs s s st.

(** [socket] is the descriptor, or the error. *)
Definition attempt_connect (socket : Z + Z) (job_ok : bool) (allocs : nat) (res : connect_result) : CM unit :=
  match socket with
  | inr errno => emit (Call None PH_SOCK_CONNECT_ERRNO errno) ;;; emit FreeRac
  | inl s => emit (Open s) ;;; ph_socket_connect job_ok allocs s res
  end.

(** The answers of the system to one request. *)
Record answers := Answers {
  a_socket : Z + Z;
  a_job_ok : bool;
  a_allocs : nat;
  a_connect : connect_result;
  a_why : why_t;
  a_resolved : Z;
}.
Definition attempt (a : answers) : CM unit := attempt_connect (a_socket a) (a_job_ok a) (a_allocs a) (a_connect a).

(** [info_result] is the result of the resolver. *)
Definition did_sys_resolve (a : answers) : CM unit :=
  set_wait None ;;;
  if a_resolved a =? 0 then attempt a
  else emit (Call None PH_SOCK_CONNECT_GAI_ERR (a_resolved a)) ;;; emit FreeRac.

(** [literal] says whether the name is an address; [dns] is the error when the
    resolver cannot be started. *)
Definition ph_sock_resolve_and_connect (system_resolver alloc_ok literal : bool) (dns : option Z) (a : answers) : CM unit :=
  if negb system_resolver then emit (Call None PH_SOCK_CONNECT_GAI_ERR EAI_NONAME)
  else if negb alloc_ok then emit (Call None PH_SOCK_CONNECT_ERRNO ENOMEM)
  else if literal then attempt a
  else match dns with
       | None => set_wait (Some Resolving)
       | Some errno => emit (Call None PH_SOCK_CONNECT_ERRNO errno) ;;; emit FreeRac
       end.

(** What is waited for happens. *)
Definition continue (a : answers) : CM unit :=
  w <-- get ;;
  match wait w with
  | None => ret tt
  | Some Resolving => did_sys_resolve a
  | Some (Connecting s) => connect_complete (a_allocs a) (a_why a) s
  end.

(** A request from its start to its end. *)
Definition request (system_resolver alloc_ok literal : bool) (dns : option Z) (a : answers) : CM unit :=
  ph_sock_resolve_and_connect system_resolver alloc_ok literal dns a ;;; continue a ;;; continue a.

(** ** Proofs *)

Definition is_call (e : event) : bool := match e with Call _ _ _ => true | _ => false end.
Definition calls (l : list event) : list event := filter (fun e => is_call e = true) l.
Definition count (e : event -> bool) (l : list event) : nat := length (filter (fun x => e x = true) l).
Definition closes (s : Z) (l : list event) : nat := count (fun e => match e with Close fd | DeferClose fd => fd =? s | _ => false end) l.
Definition handed (s : Z) (l : list event) : nat := count (fun e => match e with Call (Some fd) _ _ => fd =? s | _ => false end) l.
Definition is_free_rac (e : event) : bool := match e with FreeRac => true | _ => false end.

(** Every way through the functions. *)
Ltac runs a :=
  destruct a as [[sk|er] job_ok allocs [er2|] why resolved];
  repeat match goal with b : bool |- _ => destruct b | d : option Z |- _ => destruct d end;
  unfold request, ph_sock_resolve_and_connect, continue, did_sys_resolve, attempt, attempt_connect, ph_socket_connect, connect_complete, connected_sock, ph_sock_new_from_socket;
  destruct why as [|so];
  repeat (first
    [ progress (unfold bind, emit, set_wait, modify, ret, get; cbn)
    | case_bool
    | match goal with |- context [match ?n with O => _ | S _ => _ end] => is_var n; destruct n end ]).

(** C22. Whatever memory, the resolver, socket, connect and the socket error answer,
    a request to connect ends with exactly one call of the function it was
    given, and its memory is released exactly once if it was allocated. *)
Theorem connect_answers_once system_resolver alloc_ok literal dns a :
  exists w, request system_resolver alloc_ok literal dns a (World [] None) = Ret (tt, w) /\ wait w = None /\
    length (calls (log w)) = 1%nat /\
    count is_free_rac (log w) = (if system_resolver && alloc_ok then 1 else 0)%nat.
Proof. runs a; eexists; (split; [reflexivity|]); by split_and!. Qed.

Definition opens (s : Z) (l : list event) : nat := count (fun e => match e with Open fd => fd =? s | _ => false end) l.

(** C23. A descriptor that a request opened is either handed to the user in a sock or
    closed, and only once, unless the last allocation of a new sock fails. *)
Theorem connect_closes_once system_resolver alloc_ok literal dns a s : a_socket a = inl s -> 0 <= s -> a_allocs a <> 4%nat ->
  exists w, request system_resolver alloc_ok literal dns a (World [] None) = Ret (tt, w) /\
    opens s (log w) = (handed s (log w) + closes s (log w))%nat.
Proof.
  intros Hs H0 H4. assert ((s =? -1) = false) as Hn by (apply Z.eqb_neq; lia). pose proof (Z.eqb_refl s) as Hr.
  runs a; cbn in Hs, H4; simplify_eq; eexists; (split; [reflexivity|]); unfold opens, handed, closes, count; cbn; rewrite ?Hr; cbn; try done.
  all: first [rewrite ?Hr; done | exfalso; zbool; lia].
Qed.

(** When the last allocation of a new sock fails, the descriptor is closed
    twice: at once, and by the destructor. *)
Theorem connect_double_close s : 0 <= s ->
  exists w, request true true true None (Answers (inl s) true 4 (Immediate 0) WhyTime 0) (World [] None) = Ret (tt, w) /\
    opens s (log w) = 1%nat /\ closes s (log w) = 2%nat.
Proof.
  intros H0. assert ((s =? -1) = false) as Hn by (apply Z.eqb_neq; lia). eexists. split.
  - unfold request, ph_sock_resolve_and_connect, continue, attempt, attempt_connect, ph_socket_connect, connected_sock, ph_sock_new_from_socket.
    unfold bind, emit, set_wait, modify, ret, get. cbn. rewrite Hn. cbn. reflexivity.
  - unfold opens, closes, count. cbn. by rewrite !Z.eqb_refl.
Qed.

Lemma connect_closes_once_witness :
  exists w, request true true false None (Answers (inl 5) true 5 InProgress (WhyEvent 111) 0) (World [] None) = Ret (tt, w) /\
    opens 5 (log w) = (handed 5 (log w) + closes 5 (log w))%nat.
Proof.
  apply (connect_closes_once true true false None (Answers (inl 5) true 5 InProgress (WhyEvent 111) 0) 5); [reflexivity|lia|done].
Defined.

End Connect.
