(* ===== verification/FdStream.v ===== *)
(** * Streams on descriptors and on OpenSSL

    corelib/streams/fd.c, corelib/openssl/{ssl_stream,bio_stream,bio_bufq}.c.  The system calls on
    a descriptor and the functions of OpenSSL are interfaces; [need_mask] of a stream
    is kept with its cookie. *)

From Stdlib Require Import ZArith Lia.
From stdpp Require Import base numbers list.
From S2P Require Import Prelude SysUtil BufStream Stream TimerWheel Pool Nbio.

Module FdStream.
Import Stream BufqApi.

Definition EIO : Z := 5.
Definition EBADF : Z := 9.
Definition EAGAIN : Z := 11.
Definition ENOMEM : Z := 12.
Definition ESPIPE : Z := 29.
Definition ENOSYS : Z := 38.
Definition EINPROGRESS : Z := 115.

(** The system calls on a descriptor in a state [K]: what they return, or the error. *)
Class sys_io := {
  K : Type;
  sys_close : K -> (unit + Z) * K;
  sys_readv : list Z -> K -> (list Z + Z) * K;
  sys_writev : list (list Z) -> K -> (Z + Z) * K;
  sys_lseek : Z -> Z -> K -> (Z + Z) * K;
}.

Section fd.
Context `{SYS : sys_io}.

(** ** fd.c *)

Record fd_cookie := Fd { need_mask : Z; kern : K }.

Definition should_retry (err : Z) : bool := (err =? EAGAIN) || (err =? EINTR) || (err =? EINPROGRESS).

Definition fd_close (c : fd_cookie) : outcome (io unit * fd_cookie) :=
  let '(r, k) := sys_close (kern c) in Ret (r, Fd (need_mask c) k).
Definition fd_readv (lens : list Z) (c : fd_cookie) : outcome (io (list Z) * fd_cookie) :=
  let '(r, k) := sys_readv lens (kern c) in
  match r with
  | inl bs => Ret (inl bs, Fd (need_mask c) k)
  | inr err => Ret (inr err, Fd (if should_retry err then Z.lor (need_mask c) Nbio.PH_IOMASK_READ else need_mask c) k)
  end.
Definition fd_writev (iov : list (list Z)) (c : fd_cookie) : outcome (io Z * fd_cookie) :=
  let '(r, k) := sys_writev iov (kern c) in
  match r with
  | inl n => Ret (inl n, Fd (need_mask c) k)
  | inr err => Ret (inr err, Fd (if should_retry err then Z.lor (need_mask c) Nbio.PH_IOMASK_WRITE else need_mask c) k)
  end.
Definition fd_seek (delta whence : Z) (c : fd_cookie) : outcome (io Z * fd_cookie) :=
  let '(r, k) := sys_lseek delta whence (kern c) in Ret (r, Fd (need_mask c) k).

Definition ph_stm_funcs_fd : ph_stream_funcs fd_cookie := Funcs _ fd_close fd_readv fd_writev fd_seek.

(** [mem] and [err] are those of [ph_stm_make]. *)
Definition ph_stm_fd_open (k : K) (sflags bufsize : Z) (mem : option (list Z)) (err : Z) : option (ph_stream fd_cookie) :=
  ph_stm_make (Fd 0 k) sflags bufsize mem err.

(** [opened] is the result of [open].  The stream, or the error and the descriptor after
    it was closed. *)
Definition ph_stm_file_open (opened : K + Z) (mem : option (list Z)) (err : Z) : ph_stream fd_cookie + (Z * option K) :=
  match opened with
  | inr errno => inr (errno, None)
  | inl k =>
      match ph_stm_fd_open k 0 PH_STM_BUFSIZE mem err with
      | Some stm => inl stm
      | None => inr (ENOMEM, Some (sys_close k).2)
      end
  end.

(** ** bio_stream.c

    A BIO has the stream, null when it was freed, and retry flags. *)

Definition BIO_FLAGS_READ : Z := 1.
Definition BIO_FLAGS_WRITE : Z := 2.
Definition BIO_FLAGS_IO_SPECIAL : Z := 4.
Definition BIO_FLAGS_SHOULD_RETRY : Z := 8.
Definition BIO_clear_retry_flags (flags : Z) : Z := Z.land flags (Z.lnot 15).
Definition BIO_set_retry_read (flags : Z) : Z := Z.lor flags (Z.lor BIO_FLAGS_READ BIO_FLAGS_SHOULD_RETRY).
Definition BIO_set_retry_write (flags : Z) : Z := Z.lor flags (Z.lor BIO_FLAGS_WRITE BIO_FLAGS_SHOULD_RETRY).

Record bio (P : Type) := Bio { ptr : option P; init : Z; bio_flags : Z }.
#[global] Arguments Bio {P}.
#[global] Arguments ptr {P}.
#[global] Arguments init {P}.
#[global] Arguments bio_flags {P}.

Abbreviation conn_t := (ph_stream fd_cookie).

(** Run an operation of the stream and set the flags from its result. *)
Definition bio_call {T} (stm : conn_t) (c : M conn_t (option T)) (set_retry : Z -> Z) : M (bio conn_t) (option T) := fun h =>
  match c stm with
  | Ret (Some x, stm) => Ret (Some x, Bio (Some stm) (init h) (BIO_clear_retry_flags (bio_flags h)))
  | Ret (None, stm) =>
      let fl := BIO_clear_retry_flags (bio_flags h) in
      Ret (None, Bio (Some stm) (init h) (if should_retry (last_err stm) then set_retry fl else fl))
  | Panic => Panic
  | Fault => Fault
  end.

Definition bio_stm_write (fuel : nat) (buf : list Z) : M (bio conn_t) Z :=
  h <-- get ;;
  match ptr h with
  | None => ret 0
  | Some stm =>
      if zlen buf =? 0 then ret 0
      else
        r <-- bio_call stm (let* (ok, n) := ph_stm_write ph_stm_funcs_fd fuel buf in
                            ret (if (ok : bool) then Some (default 0 n) else None)) BIO_set_retry_write ;;
        ret (match r with Some n => s32 n | None => -1 end)
  end.
Definition bio_stm_puts (fuel : nat) (str : list Z) : M (bio conn_t) Z := bio_stm_write fuel str.

(** The result and the bytes read. *)
Definition bio_stm_read (fuel : nat) (size : Z) : M (bio conn_t) (Z * list Z) :=
  h <-- get ;;
  match ptr h with
  | None => ret (0, [])
  | Some stm =>
      if size =? 0 then ret (0, [])
      else
        r <-- bio_call stm (ph_stm_read ph_stm_funcs_fd fuel size) BIO_set_retry_read ;;
        ret (match r with Some bs => (s32 (zlen bs), bs) | None => (-1, []) end)
  end.

(** [flush]: the command is BIO_CTRL_FLUSH. *)
Definition bio_stm_ctrl (fuel : nat) (flush : bool) : M (bio conn_t) Z :=
  if flush then
    h <-- get ;;
    stm <-- of_option (ptr h) ;;
    (fun h => match ph_stm_flush ph_stm_funcs_fd fuel stm with
              | Ret (_, stm) => Ret (tt, Bio (Some stm) (init h) (bio_flags h))
              | Panic => Panic
              | Fault => Fault
              end) ;;;
    ret 1
  else ret 1.

Definition bio_stm_new {P} : bio P := Bio None 0 0.
Definition bio_stm_free {P} (h : option (bio P)) : Z * option (bio P) :=
  match h with None => (0, None) | Some _ => (1, Some (Bio None 0 0)) end.

(** [alloc]: [BIO_new] succeeds. *)
Definition ph_openssl_bio_wrap_stream (alloc : bool) (stm : conn_t) : option (bio conn_t) :=
  if alloc then Some (Bio (Some stm) 1 0) else None.

(** ** bio_bufq.c *)

Section bufq.
Context `{BQ : bufq_api}.

(** The result and [errno], when it is set. *)
Definition bio_bufq_write (buf : list Z) : M (bio bq) (Z * option Z) :=
  h <-- get ;;
  q <-- of_option (ptr h) ;;
  fun h =>
    let fl := BIO_clear_retry_flags (bio_flags h) in
    match bq_append buf q with
    | Ret ((r, n), q) =>
        if bool_decide (r = PH_OK) then Ret ((s32 n, None), Bio (Some q) (init h) fl)
        else Ret ((-1, Some EAGAIN), Bio (Some q) (init h) (BIO_set_retry_write fl))
    | Panic => Panic
    | Fault => Fault
    end.
Definition bio_bufq_puts (str : list Z) : M (bio bq) (Z * option Z) := bio_bufq_write str.
Definition bio_bufq_read : M (bio bq) (Z * option Z) := ret (-1, Some ENOSYS).
Definition bio_bufq_ctrl : M (bio bq) Z := ret 1.
Definition bio_bufq_new : bio bq := Bio None 0 0.
Definition bio_bufq_free (h : option (bio bq)) : Z * option (bio bq) :=
  match h with None => (0, None) | Some _ => (1, Some (Bio None 0 0)) end.
Definition ph_openssl_bio_wrap_bufq (alloc : bool) (q : bq) : option (bio bq) :=
  if alloc then Some (Bio (Some q) 1 0) else None.

End bufq.
End fd.
#[global] Arguments Fd {SYS}.

(** ** ssl_stream.c

    An SSL object reads from the connection and writes to the queue its BIOs were made
    of, so its functions act on all three. *)

Class openssl_api `{SYS : sys_io} `{BQ : bufq_api} := {
  SSL : Type;
  SSL_read : Z -> M (SSL * (ph_stream fd_cookie * bq)) (Z * list Z);
  SSL_write : list Z -> M (SSL * (ph_stream fd_cookie * bq)) Z;
  SSL_do_handshake : M (SSL * (ph_stream fd_cookie * bq)) Z;
  SSL_get_error : SSL -> Z -> Z;
  SSL_in_init : SSL -> bool;
  SSL_total_renegotiations : SSL -> Z;
}.

Definition SSL_ERROR_NONE : Z := 0.
Definition SSL_ERROR_WANT_READ : Z := 2.
Definition SSL_ERROR_WANT_WRITE : Z := 3.

Section ssl.
Context `{SYS : sys_io} `{BQ : bufq_api} {SA : openssl_api}.

Record ssl_cookie := SslCookie { sc_ssl : option SSL; sc_need_mask : Z; sc_env : ph_stream fd_cookie * bq }.
Definition sc_or_mask (m : Z) (c : ssl_cookie) : ssl_cookie := SslCookie (sc_ssl c) (Z.lor (sc_need_mask c) m) (sc_env c).

(** [SSL_free] releases the object. *)
Definition ssl_stm_close (c : ssl_cookie) : outcome (io unit * ssl_cookie) :=
  Ret (inl tt, SslCookie None (sc_need_mask c) (sc_env c)).

(** A function of OpenSSL on the cookie. *)
Definition on_ssl {T} (f : M (SSL * (ph_stream fd_cookie * bq)) T) : M ssl_cookie T := fun c =>
  match sc_ssl c with
  | None => Fault
  | Some s =>
      match f (s, sc_env c) with
      | Ret (x, (s, env)) => Ret (x, SslCookie (Some s) (sc_need_mask c) env)
      | Panic => Panic
      | Fault => Fault
      end
  end.

(** The loop of [do_ssl_read_or_write] over the vectors, of the lengths [len]: the number of
    bytes, those read, and the error that ended it or 0. *)
Fixpoint ssl_loop {V} (op : V -> M (SSL * (ph_stream fd_cookie * bq)) (Z * list Z)) (len : V -> Z) (iov : list V)
    (total : Z) (acc : list Z) : M ssl_cookie (Z * list Z * Z) :=
  match iov with
  | [] => ret (total, acc, 0)
  | v :: iov =>
      if len v =? 0 then ssl_loop op len iov total acc
      else
        let* (res, bs) := on_ssl (op v) in
        if 0 <? res then ssl_loop op len iov (total + res) (acc ++ bs)
        else
          c <-- get ;;
          s <-- of_option (sc_ssl c) ;;
          let err := SSL_get_error s res in
          if err =? SSL_ERROR_WANT_READ then modify (sc_or_mask Nbio.PH_IOMASK_READ) ;;; ret (total, acc, EAGAIN)
          else if err =? SSL_ERROR_WANT_WRITE then modify (sc_or_mask Nbio.PH_IOMASK_WRITE) ;;; ret (total, acc, EAGAIN)
          else ret (total, acc, EIO)
  end.

(** The number of bytes and the bytes, or the error.  An error that comes after some
    bytes is dropped: the result is true. *)
Definition do_ssl_read_or_write {V} (op : V -> M (SSL * (ph_stream fd_cookie * bq)) (Z * list Z)) (len : V -> Z) (iov : list V) :
    M ssl_cookie (io (Z * list Z)) :=
  c <-- get ;;
  match sc_ssl c with
  | None => ret (inr EBADF)
  | Some _ =>
      modify (fun c => SslCookie (sc_ssl c) 0 (sc_env c)) ;;;
      let* (total, acc, err) := ssl_loop op len iov 0 [] in
      ret (if 0 <? total then inl (total, acc) else inr err)
  end.

Definition ssl_stm_readv (lens : list Z) : M ssl_cookie (io (list Z)) :=
  r <-- do_ssl_read_or_write SSL_read (fun n => n) lens ;;
  ret (match r with inl (_, bs) => inl bs | inr e => inr e end).
Definition ssl_stm_writev (iov : list (list Z)) : M ssl_cookie (io Z) :=
  r <-- do_ssl_read_or_write (fun bs => n <-- SSL_write bs ;; ret (n, [])) (fun bs => zlen bs) iov ;;
  ret (match r with inl (n, _) => inl n | inr e => inr e end).
Definition ssl_stm_seek (delta whence : Z) : M ssl_cookie (io Z) := ret (inr ESPIPE).

Definition ssl_stm_funcs : ph_stream_funcs ssl_cookie := Funcs _ ssl_stm_close ssl_stm_readv ssl_stm_writev ssl_stm_seek.
Definition ph_stm_ssl_open (c : ssl_cookie) (mem : option (list Z)) (err : Z) : option (ph_stream ssl_cookie) :=
  ph_stm_make c 0 0 mem err.

End ssl.
End FdStream.
