(* ===== verification/Sock.v ===== *)
(** * Sockets that are connected: the second half of net/socket.c

    A sock has a queue of bytes to send, a queue of bytes received, a stream on the
    descriptor and, after the switch to SSL, an SSL object with a stream and a queue.
    It is a job of Nbio.  The callback of its user acts on the whole state, in which
    [app] is the user's own; [calls] logs the masks the callback is called with. *)

From Stdlib Require Import ZArith Lia.
From stdpp Require Import base numbers list gmap.
From S2P Require Import Prelude SysUtil BufStream Stream TimerWheel Pool Nbio FdStream.

Module Sock.
Import Stream BufqApi FdStream.
Import Nbio.

Section sock.
Context `{SYS : sys_io} `{BQ : bufq_api} {SA : openssl_api} `{EP : epoll_api} `{CR : Pool.ck_ring} {A : Type}.

(** [struct ph_sock]; null pointers are [None].  Of [stream], the stream the user writes
    to, only the error is kept, it has no buffer; of [ssl_stream] the stream without its
    cookie, which is made of the other fields, and its [need_mask]. *)
Record ph_sock := MkSock {
  job : positive;
  wbuf : option bq;
  rbuf : option bq;
  timeout_duration : TimerWheel.timeval;
  conn : option (ph_stream fd_cookie);
  stream : option Z;
  enabled : bool;
  ssl : option SSL;
  ssl_stream : option (ph_stream Z);
  sslwbuf : option bq;
  free_ssl_ctx : bool;
}.
Definition set_wbuf x s := MkSock (job s) x (rbuf s) (timeout_duration s) (conn s) (stream s) (enabled s) (ssl s) (ssl_stream s) (sslwbuf s) (free_ssl_ctx s).
Definition set_rbuf x s := MkSock (job s) (wbuf s) x (timeout_duration s) (conn s) (stream s) (enabled s) (ssl s) (ssl_stream s) (sslwbuf s) (free_ssl_ctx s).
Definition set_conn x s := MkSock (job s) (wbuf s) (rbuf s) (timeout_duration s) x (stream s) (enabled s) (ssl s) (ssl_stream s) (sslwbuf s) (free_ssl_ctx s).
Definition set_stream x s := MkSock (job s) (wbuf s) (rbuf s) (timeout_duration s) (conn s) x (enabled s) (ssl s) (ssl_stream s) (sslwbuf s) (free_ssl_ctx s).
Definition set_enabled x s := MkSock (job s) (wbuf s) (rbuf s) (timeout_duration s) (conn s) (stream s) x (ssl s) (ssl_stream s) (sslwbuf s) (free_ssl_ctx s).
Definition set_ssl x y z s := MkSock (job s) (wbuf s) (rbuf s) (timeout_duration s) (conn s) (stream s) (enabled s) x y z (free_ssl_ctx s).

Record sworld := SWorld { sk : ph_sock; nb : nbio; app : A; calls : list Z }.
Definition set_sk f (w : sworld) := SWorld (f (sk w)) (nb w) (app w) (calls w).
Abbreviation SM := (M sworld).

Definition on_nbio {T} (c : M nbio T) : SM T := fun w =>
  match c (nb w) with Ret (x, n) => Ret (x, SWorld (sk w) n (app w) (calls w)) | Panic => Panic | Fault => Fault end.

(** A field that is not null. *)
Definition field {T} (f : ph_sock -> option T) : SM T := w <-- get ;; of_option (f (sk w)).

(** The stream of the connection, and the SSL stream with its cookie. *)
Definition on_conn_q {T} (q : ph_sock -> option bq) (set_q : option bq -> ph_sock -> ph_sock) (c : M (bq * ph_stream fd_cookie) T) : SM T :=
  b <-- field q ;;
  s <-- field conn ;;
  match c (b, s) with
  | Ret (x, (b, s)) => modify (set_sk (fun k => set_q (Some b) (set_conn (Some s) k))) ;;; ret x
  | Panic => panic
  | Fault => fault
  end.

Definition with_cookie {B C} (c : C) (s : ph_stream B) : ph_stream C :=
  Stm c (flags s) (rpos s) (rend s) (wpos s) (wend s) (wbase s) (buf s) (bufsize s) (last_err s) (locked s).

Definition on_ssl_q {T} (q : ph_sock -> option bq) (set_q : option bq -> ph_sock -> ph_sock) (c : M (bq * ph_stream ssl_cookie) T) : SM T :=
  b <-- field q ;;
  s <-- field ssl_stream ;;
  o <-- field conn ;;
  wb <-- field wbuf ;;
  w <-- get ;;
  match c (b, with_cookie (SslCookie (ssl (sk w)) (cookie s) (o, wb)) s) with
  | Ret (x, (b, s)) =>
      let c := cookie s in
      modify (set_sk (fun k => set_ssl (sc_ssl c) (Some (with_cookie (sc_need_mask c) s)) (sslwbuf k)
        (set_wbuf (Some (sc_env c).2) (set_conn (Some (sc_env c).1) k)))) ;;;
      modify (set_sk (set_q (Some b))) ;;;
      ret x
  | Panic => panic
  | Fault => fault
  end.

(** [ph_stm_writev] and [ph_stm_read] as the queues call them. *)
Definition stm_writev {B} (f : ph_stream_funcs B) (fuel : nat) (iov : list (list Z)) : M (ph_stream B) (bool * Z) :=
  let* (ok, n) := ph_stm_writev f fuel iov in ret (ok, default 0 n).

(** ** Moving bytes *)

(** [fuel] bounds the number of calls of [writev]. *)
Fixpoint try_send_loop (sf fuel : nat) : SM bool :=
  match fuel with
  | O => fault
  | S fuel =>
      b <-- field wbuf ;;
      if bq_len b =? 0 then ret true
      else
        ok <-- on_conn_q wbuf set_wbuf (bq_stm_write (stm_writev ph_stm_funcs_fd sf)) ;;
        if (ok : bool) then try_send_loop sf fuel
        else s <-- field conn ;; ret (last_err s =? EAGAIN)
  end.
Definition try_send (sf fuel : nat) : SM bool := try_send_loop sf fuel.

Fixpoint ssl_shunt_loop (sf fuel : nat) : SM bool :=
  match fuel with
  | O => fault
  | S fuel =>
      b <-- field sslwbuf ;;
      if bq_len b =? 0 then ret true
      else
        ok <-- on_ssl_q sslwbuf (fun x k => set_ssl (ssl k) (ssl_stream k) x k) (bq_stm_write (stm_writev ssl_stm_funcs sf)) ;;
        if (ok : bool) then ssl_shunt_loop sf fuel
        else s <-- field conn ;; ret (last_err s =? EAGAIN)
  end.
Definition try_ssl_shunt (sf fuel : nat) : SM bool :=
  w <-- get ;;
  match sslwbuf (sk w) with None => ret true | Some _ => ssl_shunt_loop sf fuel end.

Definition try_read (sf : nat) : SM bool :=
  w <-- get ;;
  match ssl_stream (sk w) with
  | Some _ =>
      ok <-- on_ssl_q rbuf set_rbuf (bq_stm_read (ph_stm_read ssl_stm_funcs sf)) ;;
      s <-- field ssl_stream ;;
      ret (ok || (last_err s =? EAGAIN))
  | None =>
      ok <-- on_conn_q rbuf set_rbuf (bq_stm_read (ph_stm_read ph_stm_funcs_fd sf)) ;;
      s <-- field conn ;;
      ret (ok || (last_err s =? EAGAIN))
  end.

(** ** Dispatch *)

Definition has (m bit : Z) : bool := negb (Z.land m bit =? 0).

Section dispatch.
Context (callback : Z -> SM unit) (sf fuel : nat).

Definition call_user (why : Z) : SM unit :=
  modify (fun w => SWorld (sk w) (nb w) (app w) (calls w ++ [why])) ;;; callback why.

Definition set_nbio_in (m : Z) : SM unit :=
  w <-- get ;; on_nbio (ph_job_set_nbio_timeout_in (job (sk w)) m (timeout_duration (sk w))) ;;; ret tt.

(** The handshake: whether the dispatch is over, and the mask. *)
Definition handshake (why : Z) : SM (bool * Z) :=
  w <-- get ;;
  match ssl (sk w) with
  | Some s =>
      if SSL_in_init s && (SSL_total_renegotiations s =? 0) then
        c <-- field conn ;;
        b <-- field wbuf ;;
        match SSL_do_handshake (s, (c, b)) with
        | Ret (r, (s, (c, b))) =>
            modify (set_sk (fun k => set_ssl (Some s) (ssl_stream k) (sslwbuf k) (set_wbuf (Some b) (set_conn (Some c) k)))) ;;;
            let err := SSL_get_error s r in
            if err =? SSL_ERROR_NONE then ret (false, why)
            else if (err =? SSL_ERROR_WANT_READ) || (err =? SSL_ERROR_WANT_WRITE) then
              ok <-- try_send sf fuel ;;
              if (ok : bool) then
                set_nbio_in (if err =? SSL_ERROR_WANT_READ then PH_IOMASK_READ else PH_IOMASK_WRITE) ;;; ret (true, why)
              else ret (false, Z.lor why PH_IOMASK_ERR)
            else ret (false, Z.lor why PH_IOMASK_ERR)
        | Panic => panic
        | Fault => fault
        end
      else ret (false, why)
  | None => ret (false, why)
  end.

(** What is done before the callback of an enabled sock. *)
Definition before_callback (why : Z) : SM (bool * Z) :=
  c <-- field conn ;;
  modify (set_sk (set_conn (Some (set_cookie (Fd 0 (kern (cookie c))) c)))) ;;;
  w <-- get ;;
  why <-- (match sslwbuf (sk w) with
           | Some _ => ok <-- try_ssl_shunt sf fuel ;; ret (Z.lor why (if (ok : bool) then PH_IOMASK_WRITE else PH_IOMASK_ERR))
           | None => ret why
           end) ;;
  ok <-- try_send sf fuel ;;
  let why := if (ok : bool) then why else Z.lor why PH_IOMASK_ERR in
  why <-- (if has why PH_IOMASK_ERR then ret why
           else ok <-- try_read sf ;; ret (if (ok : bool) then why else Z.lor why PH_IOMASK_ERR)) ;;
  handshake why.

(** The end: what the descriptor is waited for. *)
Definition rearm : SM unit :=
  c <-- field conn ;;
  w <-- get ;;
  let m := Z.lor (need_mask (cookie c)) PH_IOMASK_READ in
  let m := match ssl_stream (sk w) with Some s => Z.lor m (cookie s) | None => m end in
  b <-- field wbuf ;;
  let pending := negb (bq_len b =? 0) || match sslwbuf (sk w) with Some q => negb (bq_len q =? 0) | None => false end in
  set_nbio_in (if pending then Z.lor m PH_IOMASK_WRITE else m).

(** From the label [dispatch_again]; [again] bounds the jumps back to it. *)
Fixpoint dispatch_again (again : nat) (why : Z) (had_err : bool) : SM unit :=
  match again with
  | O => fault
  | S again =>
      let had_err := had_err || has why PH_IOMASK_ERR in
      w <-- get ;;
      (if enabled (sk w) || has why PH_IOMASK_WAKEUP || has why PH_IOMASK_ERR then call_user why else ret tt) ;;;
      w <-- get ;;
      if negb (enabled (sk w)) then ret tt
      else if had_err then rearm
      else
        r <-- field rbuf ;;
        let rbufsize := bq_len r in
        ok <-- try_ssl_shunt sf fuel ;;
        if negb ok then dispatch_again again PH_IOMASK_ERR had_err
        else
          ok <-- try_send sf fuel ;;
          if negb ok then dispatch_again again PH_IOMASK_ERR had_err
          else
            w <-- get ;;
            match ssl_stream (sk w) with
            | None => rearm
            | Some _ =>
                ok <-- try_read sf ;;
                if negb ok then dispatch_again again PH_IOMASK_ERR had_err
                else
                  r <-- field rbuf ;;
                  if rbufsize <? bq_len r then dispatch_again again PH_IOMASK_READ had_err else rearm
            end
  end.

Definition sock_dispatch (again : nat) (why : Z) : SM unit :=
  w <-- get ;;
  j <-- on_nbio (load_job (job (sk w))) ;;
  if freed j then ret tt
  else
    let had_err := has why PH_IOMASK_ERR in
    let* (over, why) := (if enabled (sk w) then before_callback why else ret (false, why)) in
    if (over : bool) then ret tt else dispatch_again again why had_err.

End dispatch.

(** ** The stream of the sock *)

Definition sock_stm_close : SM bool := ret true.

Fixpoint readv_loop (lens : list Z) (tot : list Z) : SM (list Z * bool) :=
  match lens with
  | [] => ret (tot, true)
  | n :: lens =>
      b <-- field rbuf ;;
      let avail := MIN (bq_len b) n in
      if avail =? 0 then readv_loop lens tot
      else
        match bq_copy_out avail b with
        | Ret (None, b) =>
            modify (set_sk (fun k => set_stream (Some ENOMEM) (set_rbuf (Some b) k))) ;;; ret (tot, false)
        | Ret (Some bs, b) => modify (set_sk (set_rbuf (Some b))) ;;; readv_loop lens (tot ++ bs)
        | Panic => panic
        | Fault => fault
        end
  end.

(** The bytes read, and the result. *)
Definition sock_stm_readv (lens : list Z) : SM (list Z * bool) :=
  let* (tot, res) := readv_loop lens [] in
  ret (tot, (0 <? zlen tot) || res).

(** The queue that is written to. *)
Definition append_out (bs : list Z) : SM (ph_result_t * Z) :=
  w <-- get ;;
  let '(q, set_q) := match sslwbuf (sk w) with
                     | Some q => (Some q, fun x k => set_ssl (ssl k) (ssl_stream k) x k)
                     | None => (wbuf (sk w), set_wbuf)
                     end in
  q <-- of_option q ;;
  match bq_append bs q with
  | Ret (r, q) => modify (set_sk (set_q (Some q))) ;;; ret r
  | Panic => panic
  | Fault => fault
  end.

Fixpoint sock_writev_loop (iov : list (list Z)) (total : Z) : SM Z :=
  match iov with
  | [] => ret total
  | v :: iov =>
      if zlen v =? 0 then sock_writev_loop iov total
      else
        let* (r, n) := append_out v in
        if bool_decide (r = PH_OK) then sock_writev_loop iov (total + n)
        else modify (set_sk (set_stream (Some EAGAIN))) ;;; ret total
  end.

(** The result and the number of bytes. *)
Definition sock_stm_writev (iov : list (list Z)) : SM (bool * Z) :=
  total <-- sock_writev_loop iov 0 ;; ret (negb (total =? 0), total).

Definition sock_stm_seek : SM bool := modify (set_sk (set_stream (Some ESPIPE))) ;;; ret false.

(** ** Reading from the queue *)

Definition on_rbuf {T} (c : M bq T) : SM T :=
  b <-- field rbuf ;;
  match c b with Ret (x, b) => modify (set_sk (set_rbuf (Some b))) ;;; ret x | Panic => panic | Fault => fault end.

Definition ph_sock_read_bytes_exact (len : Z) : SM (option positive) := on_rbuf (bq_consume_bytes len).
Definition ph_sock_read_record (delim : list Z) : SM (option positive) := on_rbuf (bq_consume_record delim).
Definition ph_sock_read_line : SM (option positive) := on_rbuf (bq_consume_record [13; 10]).

(** ** Life cycle *)

(** [alloc] is the memory for the job; the others are what the functions that make the
    queues and streams return.  The sock, or the part of it that its destructor will
    release. *)
Definition ph_sock_new_from_socket (alloc : option positive) (wb rb : option bq) (cn : option (ph_stream fd_cookie)) (stm : option Z) (s : Z) :
    M nbio (ph_sock + option ph_sock) :=
  match alloc with
  | None => ret (inr None)
  | Some j =>
      ph_job_init j ;;;
      let tv := TimerWheel.Timeval in
      let fail k := ph_job_free j ;;; ret (inr (Some k)) in
      let k := MkSock j wb None (tv 0 0) None None false None None None true in
      match wb with
      | None => fail k
      | Some _ =>
          let k := set_rbuf rb k in
          match rb with
          | None => fail k
          | Some _ =>
              let k := set_conn cn k in
              match cn with
              | None => fail k
              | Some _ =>
                  let k := set_stream stm k in
                  match stm with
                  | None => fail k
                  | Some _ =>
                      alter_job j (fun x => Job (in_apply x) (mask x) (kmask x) (emitter_affinity x) s (n_wakeups_pending x) (freed x) (job_pool x)) ;;;
                      ret (inl (MkSock j wb rb (tv 60 0) cn stm false None None None true))
                  end
              end
          end
      end
  end.

Definition ph_sock_free : SM unit :=
  modify (set_sk (set_enabled false)) ;;; w <-- get ;; on_nbio (ph_job_free (job (sk w))).

Definition ph_sock_wakeup (alloc_ok : bool) : SM ph_result_t := w <-- get ;; on_nbio (ph_job_wakeup alloc_ok (job (sk w))).

Definition ph_sock_enable (enable : bool) : SM unit :=
  w <-- get ;;
  if Bool.eqb (enabled (sk w)) enable then ret tt
  else
    modify (set_sk (set_enabled enable)) ;;;
    if enable then set_nbio_in (Z.lor PH_IOMASK_READ PH_IOMASK_WRITE)
    else on_nbio (ph_job_set_nbio (job (sk w)) 0 None) ;;; ret tt.

(** What [sock_dtor] releases, in order. *)
Inductive release := RelSslwbuf | RelSslStream | RelSsl | RelSslCtx | RelWbuf | RelRbuf | RelConn | RelStream.
Definition rel {T} (x : option T) (r : release) : list release := match x with Some _ => [r] | None => [] end.

Definition sock_dtor (s : ph_sock) : list release * ph_sock :=
  (rel (sslwbuf s) RelSslwbuf ++
   (match ssl s with
    | Some _ => (match ssl_stream s with Some _ => [RelSslStream] | None => [RelSsl] end) ++ (if free_ssl_ctx s then [RelSslCtx] else [])
    | None => []
    end) ++
   rel (wbuf s) RelWbuf ++ rel (rbuf s) RelRbuf ++ rel (conn s) RelConn ++ rel (stream s) RelStream,
   MkSock (job s) None None (timeout_duration s) None None (enabled s) None
     (match ssl s with Some _ => None | None => ssl_stream s end) None (free_ssl_ctx s)).

(** [s] is the object with its BIOs, its mode and its callback set; [stm] and [q] are what
    [ph_stm_ssl_open] and [ph_bufq_new] return. *)
Definition ph_sock_openssl_enable (s : SSL) (stm : option (ph_stream Z)) (q : option bq) : SM unit :=
  w <-- get ;;
  match ssl (sk w) with
  | Some _ => ret tt
  | None => modify (set_sk (set_ssl (Some s) stm q))
  end.

End sock.
End Sock.
