(* ===== verification/SockProofs.v ===== *)
(** * A sock moves bytes and is waited for

    A sock without SSL, on the thread of its emitter.  What its user wrote is what the
    kernel took followed by what is queued; what the kernel gave is what the user
    consumed followed by what is queued; a dispatch keeps both, ends, and leaves the
    descriptor registered with the kernel for reading, and for writing when there is
    something to send. *)

From Stdlib Require Import ZArith Lia.
From stdpp Require Import base numbers list gmap.
From S2P Require Import Prelude SysUtil BufStream Stream TimerWheel Pool PoolProofs Nbio NbioProofs FdStream Sock.

Module SockProofs.
Import TimerWheel Stream BufqApi FdStream Nbio NbioProofs Sock.

(** What is relied on of [readv] and [writev] on a connection: the bytes the kernel took
    and gave so far, and that a successful write of something takes something. *)
Class sys_laws (SYS : sys_io) := {
  k_sent : K -> list Z;
  k_got : K -> list Z;
  writev_law iov k : let '(r, k') := sys_writev iov k in
    k_got k' = k_got k /\
    match r with
    | inl n => 0 <= n <= zlen (mjoin iov) /\ (mjoin iov <> [] -> 0 < n) /\ k_sent k' = k_sent k ++ take (Z.to_nat n) (mjoin iov)
    | inr _ => k_sent k' = k_sent k
    end;
  readv_law lens k : let '(r, k') := sys_readv lens k in
    k_sent k' = k_sent k /\
    match r with
    | inl bs => zlen bs <= foldr Z.add 0 lens /\ k_got k' = k_got k ++ bs
    | inr _ => k_got k' = k_got k
    end;
}.

Section conn.
Context {SYS : sys_io} {SL : sys_laws SYS}.
Implicit Types s : ph_stream fd_cookie.

(** ** The stream on the connection *)

(** It has no buffer. *)
Record conn_ok s : Prop := {
  co_bufsize : bufsize s = 0;
  co_unlocked : locked s = false;
  co_write : wpos s = None /\ wbase s = None;
  co_read : rpos s = None /\ rend s = None;
}.
Definition sent_of s : list Z := k_sent (kern (cookie s)).
Definition got_of s : list Z := k_got (kern (cookie s)).

Lemma call_writev_ok iov s : exists r c, call (fd_writev iov) s = Ret (match r with inl n => Some n | inr _ => None end,
      match r with inl _ => set_cookie c s | inr e => set_err e (set_cookie c s) end) /\
    k_got (kern c) = got_of s /\
    match r with
    | inl n => 0 <= n <= zlen (mjoin iov) /\ (mjoin iov <> [] -> 0 < n) /\ k_sent (kern c) = sent_of s ++ take (Z.to_nat n) (mjoin iov)
    | inr _ => k_sent (kern c) = sent_of s
    end.
Proof.
  unfold call, fd_writev. pose proof (writev_law iov (kern (cookie s))) as H. destruct (sys_writev iov _) as [[n|e] k].
  - by exists (inl n), (Fd (need_mask (cookie s)) k).
  - by exists (inr e), (Fd (if should_retry e then Z.lor (need_mask (cookie s)) PH_IOMASK_WRITE else need_mask (cookie s)) k).
Qed.

Lemma conn_writev_ok fuel iov s : conn_ok s -> mjoin iov <> [] ->
  exists (res : bool) n s', stm_writev ph_stm_funcs_fd fuel iov s = Ret ((res, n), s') /\ conn_ok s' /\ 0 <= n <= zlen (mjoin iov) /\
    (res = true -> 0 < n) /\ got_of s' = got_of s /\ sent_of s' = sent_of s ++ (if res then take (Z.to_nat n) (mjoin iov) else []).
Proof.
  intros [Hb Hl Hw Hr] Hne. unfold stm_writev.
  assert (ph_stm_lock s = Ret (tt, set_locked true s)) as Hlock by (unfold ph_stm_lock; by rewrite Hl).
  set (s0 := set_err 0 (set_locked true s)).
  destruct (call_writev_ok iov s0) as (r & c & Hc & Hg & Hk).
  assert (ph_stm_writev ph_stm_funcs_fd fuel iov s = Ret (match r with inl n => (true, Some n) | inr _ => (false, None) end,
    set_locked false (match r with inl _ => set_cookie c s0 | inr e => set_err e (set_cookie c s0) end))) as Hwv.
  { unfold ph_stm_writev. step_with Hlock. step. rewrite (bind_ret get _ _ _ _ eq_refl).
    change (bufsize (set_err 0 (set_locked true s))) with (bufsize s). rewrite Hb. cbn [Z.eqb].
    erewrite bind_ret by (change (f_writev ph_stm_funcs_fd) with fd_writev; rewrite (bind_ret _ _ _ _ _ Hc); reflexivity).
    destruct r; reflexivity. }
  step_with Hwv.
  destruct r as [n|e].
  - destruct Hk as (Hn & Hpos & Hs). exists true, n. eexists. split; [reflexivity|]. split; [by split|]. split; [done|].
    split; [intros _; by apply Hpos|]. by split.
  - exists false, 0. eexists. split; [reflexivity|]. split; [by split|]. split; [lia|]. split; [done|]. split; [done|].
    rewrite app_nil_r. done.
Qed.

Lemma call_readv_ok lens s : exists r c, call (fd_readv lens) s = Ret (match r with inl bs => Some bs | inr _ => None end,
      match r with inl _ => set_cookie c s | inr e => set_err e (set_cookie c s) end) /\
    k_sent (kern c) = sent_of s /\
    match r with
    | inl bs => zlen bs <= foldr Z.add 0 lens /\ k_got (kern c) = got_of s ++ bs
    | inr _ => k_got (kern c) = got_of s
    end.
Proof.
  unfold call, fd_readv. pose proof (readv_law lens (kern (cookie s))) as H. destruct (sys_readv lens _) as [[bs|e] k].
  - by exists (inl bs), (Fd (need_mask (cookie s)) k).
  - by exists (inr e), (Fd (if should_retry e then Z.lor (need_mask (cookie s)) PH_IOMASK_READ else need_mask (cookie s)) k).
Qed.

(** Apart from the lock. *)
Definition conn_idle s : Prop := bufsize s = 0 /\ wpos s = None /\ wbase s = None /\ rpos s = None /\ rend s = None.

(** The loop reads until there is enough, or nothing more. *)
Lemma conn_read_loop_ok fuel : forall count acc s, conn_idle s -> 0 <= count < Z.of_nat fuel -> (count = 0 -> acc <> []) ->
  exists bs s', read_loop ph_stm_funcs_fd fuel count acc s = Ret (match acc ++ bs with [] => None | _ => Some (acc ++ bs) end, s') /\
    conn_idle s' /\ locked s' = locked s /\ zlen bs <= count /\ got_of s' = got_of s ++ bs /\ sent_of s' = sent_of s.
Proof.
  induction fuel as [|fuel IH]; intros count acc s Hs Hc Hne; [lia|]. pose proof Hs as (Hb & Hw1 & Hw2 & Hr1 & Hr2).
  cbn [read_loop]. destruct (count =? 0) eqn:E; zbool.
  { exists [], s. rewrite !app_nil_r. split_and!; try done; [|simpl; lia]. specialize (Hne E). by destruct acc. }
  rewrite (bind_ret get _ _ _ _ eq_refl), Hb. cbn [Z.eqb]. rewrite Z.sub_0_r.
  destruct (call_readv_ok [count; 0] s) as (r & c & Hcall & Hs' & Hk). change (f_readv ph_stm_funcs_fd) with fd_readv.
  rewrite (bind_ret _ _ _ _ _ Hcall). destruct r as [[|x bs]|e].
  1,3: exists []; eexists; rewrite app_nil_r; (split; [step; reflexivity|]); split_and!; try done; [simpl; lia|..];
    rewrite ?app_nil_r in *; unfold got_of in *; cbn; rewrite ?app_nil_r; tauto.
  destruct Hk as [Hlen Hg]. cbn [foldr] in Hlen.
  rewrite (proj2 (Z.ltb_ge _ _)), (proj2 (Z.ltb_ge _ _)) by lia.
  destruct (IH (count - zlen (x :: bs)) (acc ++ x :: bs) (set_cookie c s)) as (bs2 & s2 & Hl & Hi2 & Hlk & Hlen2 & Hg2 & Hs2).
  { done. } { simpl in *; lia. } { intros _ H. by apply app_nil in H as [_ H]. }
  exists (x :: bs ++ bs2), s2. rewrite Hl, <- app_assoc. split; [done|]. split; [done|]. split; [done|].
  split; [simpl in *; rewrite length_app; lia|]. rewrite Hg2, Hs2. unfold got_of, sent_of in *. cbn. rewrite Hg, Hs'. by rewrite <- app_assoc.
Qed.

Lemma conn_read_ok fuel count s : conn_ok s -> 0 < count ->
  exists x s', ph_stm_read ph_stm_funcs_fd fuel count s = Ret (x, s') /\ conn_ok s' /\
    (forall bs, x = Some bs -> bs <> [] /\ zlen bs <= count) /\ got_of s' = got_of s ++ default [] x /\ sent_of s' = sent_of s.
Proof.
  intros [Hb Hl [Hw1 Hw2] [Hr1 Hr2]] Hc.
  assert (ph_stm_lock s = Ret (tt, set_locked true s)) as Hlock by (unfold ph_stm_lock; by rewrite Hl).
  assert (set_locked false (set_locked true s) = s) as Hid by (destruct s; cbn in *; by subst).
  assert (ph_stm_flush ph_stm_funcs_fd fuel s = Ret (true, s)) as Hf.
  { unfold ph_stm_flush. step_with Hlock. rewrite (bind_ret get _ _ _ _ eq_refl). cbn [wpos wbase set_locked].
    rewrite Hw1, Hw2. cbn [ptr_gt]. step. unfold ph_stm_unlock, bind. cbn [locked set_locked]. by rewrite Hid. }
  set (s0 := set_err 0 (set_locked true s)).
  destruct (conn_read_loop_ok (S (Z.to_nat count)) count [] s0) as (bs & s1 & Hrl & (Hi1 & Hi2 & Hi3 & Hi4 & Hi5) & Hlk & Hlen & Hg & Hs);
    [done|lia|lia|].
  exists (match bs with [] => None | _ => Some bs end), (set_locked false s1). split.
  { unfold ph_stm_read. step_with Hf. cbn [negb]. step_with Hlock. step. rewrite (proj2 (Z.eqb_neq _ _)) by lia.
    rewrite (bind_ret get _ _ _ _ eq_refl). cbn [rend rpos set_err set_locked]. rewrite Hr1, Hr2. cbn [ptr_diff]. step. cbn [Z.ltb Z.compare].
    step. cbn [length]. rewrite Z.sub_0_r. rewrite (bind_ret _ _ _ _ _ Hrl). unfold ph_stm_unlock, bind. rewrite Hlk. cbn. by destruct bs. }
  split; [by split|]. split; [intros l Hx; destruct bs; simplify_eq; done|]. split; [|exact Hs].
  change (got_of (set_locked false s1)) with (got_of s1). rewrite Hg. by destruct bs.
Qed.
End conn.

Section sock.
Context {SYS : sys_io} {SL : sys_laws SYS} {BQ : bufq_api} {BL : bufq_laws BQ} {SA : openssl_api}
  {EP : epoll_api} {EL : epoll_laws EP} {CR : Pool.ck_ring} {A : Type}.
Abbreviation sworld := (sworld (A := A)).
Implicit Types (s : ph_sock) (w : sworld).

(** ** Socks without SSL *)

Record plain s : Prop := {
  pl_wbuf : exists q, wbuf s = Some q /\ bq_wf q /\ zlen (bq_bytes q) < 2 ^ 64;
  pl_rbuf : exists q, rbuf s = Some q /\ bq_wf q;
  pl_conn : exists c, conn s = Some c /\ conn_ok c;
  pl_ssl : ssl_stream s = None /\ sslwbuf s = None /\ ssl s = None;
}.

(** The bytes to send and those received, and what the kernel took and gave. *)
Definition out_bytes s : list Z := match wbuf s with Some q => bq_bytes q | None => [] end.
Definition in_bytes s : list Z := match rbuf s with Some q => bq_bytes q | None => [] end.
Definition sent s : list Z := match conn s with Some c => sent_of c | None => [] end.
Definition got s : list Z := match conn s with Some c => got_of c | None => [] end.
Definition conn_err s : Z := match conn s with Some c => last_err c | None => 0 end.

(** From [s] to [s'] bytes went to the kernel or came from it, in order. *)
Definition moved s s' : Prop :=
  sent s' ++ out_bytes s' = sent s ++ out_bytes s /\ (length (out_bytes s') <= length (out_bytes s))%nat /\
  (exists new, got s' = got s ++ new /\ in_bytes s' = in_bytes s ++ new) /\
  job s' = job s /\ enabled s' = enabled s /\ timeout_duration s' = timeout_duration s.

Lemma moved_refl s : moved s s.
Proof. split_and!; try done. exists []. by rewrite !app_nil_r. Qed.
Lemma sock_moved_trans s1 s2 s3 : moved s1 s2 -> moved s2 s3 -> moved s1 s3.
Proof.
  intros (H1 & H2 & (n1 & H3 & H4) & H5 & H6 & H7) (G1 & G2 & (n2 & G3 & G4) & G5 & G6 & G7).
  split_and!; try congruence; [lia|]. exists (n1 ++ n2). by rewrite G3, G4, H3, H4, <- !app_assoc.
Qed.

Definition put_sk s w : sworld := set_sk (fun _ => s) w.
Lemma field_ok {T} (f : ph_sock -> option T) x w : f (sk w) = Some x -> field f w = Ret (x, w).
Proof. intros H. unfold field. rewrite (bind_ret get _ _ _ _ eq_refl). by rewrite H. Qed.

(** One write of the queue to the connection. *)
Lemma send_once sf w : plain (sk w) -> out_bytes (sk w) <> [] ->
  exists (ok : bool) s', on_conn_q wbuf set_wbuf (bq_stm_write (stm_writev ph_stm_funcs_fd sf)) w = Ret (ok, put_sk s' w) /\
    plain s' /\ moved (sk w) s' /\ (ok = true -> (length (out_bytes s') < length (out_bytes (sk w)))%nat).
Proof.
  intros [(q & Hq & Hwf & Hb) (r & Hr & Hrwf) (c & Hc & Hok) (Hs1 & Hs2 & Hs3)] Hne.
  assert (out_bytes (sk w) = bq_bytes q) as Ho by (unfold out_bytes; by rewrite Hq). rewrite Ho in *.
  destruct (bq_stm_write_law (stm_writev ph_stm_funcs_fd sf) q c Hwf Hne) as (iov & Hi1 & Hi2 & Hpre & Hk).
  assert (mjoin iov <> []) as Hj by (destruct iov as [|v iov]; [done|]; inversion Hi2; by destruct v).
  destruct (conn_writev_ok sf iov c Hok Hj) as (ok & n & c' & Hw & Hok' & Hn & Hpos & Hg & Hsent).
  destruct (Hk ok n c' Hw Hn) as (q' & Hsw & Hwf' & Hqb).
  exists ok, (set_wbuf (Some q') (set_conn (Some c') (sk w))). split.
  { unfold on_conn_q. rewrite (bind_ret _ _ _ _ _ (field_ok wbuf q w Hq)), (bind_ret _ _ _ _ _ (field_ok conn c w Hc)), Hsw. done. }
  destruct Hpre as [rest Hrest].
  assert (sent_of c' ++ bq_bytes q' = sent_of c ++ bq_bytes q) as Hcons.
  { rewrite Hsent, Hqb. destruct ok; [|by rewrite app_nil_r]. rewrite Hrest, <- app_assoc. f_equal.
    rewrite drop_app_le by lia. by rewrite app_assoc, take_drop. }
  assert ((length (bq_bytes q') <= length (bq_bytes q))%nat) as Hle by (rewrite Hqb; destruct ok; rewrite ?length_drop; lia).
  split; [|split].
  - split; cbn; eauto. exists q'. split_and!; try done. lia.
  - unfold moved, sent, got, out_bytes, in_bytes. cbn. rewrite Hq, Hc. split_and!; try done. exists []. by rewrite !app_nil_r.
  - intros ->. unfold out_bytes. cbn. rewrite Hqb, length_drop. specialize (Hpos eq_refl).
    assert (0 < length (bq_bytes q))%nat by (destruct (bq_bytes q); [done|simpl; lia]). lia.
Qed.

(** Sending ends when everything is sent, or the kernel has no room, or with an error. *)
Lemma try_send_ok sf fuel : forall w, plain (sk w) -> (length (out_bytes (sk w)) < fuel)%nat ->
  exists (ok : bool) s', try_send sf fuel w = Ret (ok, put_sk s' w) /\ plain s' /\ moved (sk w) s' /\
    (ok = true -> out_bytes s' = [] \/ conn_err s' = EAGAIN).
Proof.
  unfold try_send. induction fuel as [|fuel IH]; intros w Hp Hf; [lia|]. cbn [try_send_loop].
  pose proof Hp as [(q & Hq & Hwf & Hb) _ _ _]. rewrite (bind_ret _ _ _ _ _ (field_ok wbuf q w Hq)), (bq_len_law q Hwf Hb).
  assert (out_bytes (sk w) = bq_bytes q) as Ho by (unfold out_bytes; by rewrite Hq).
  destruct (zlen (bq_bytes q) =? 0) eqn:E; zbool.
  { exists true, (sk w). split_and!; [by destruct w|done|apply moved_refl|]. intros _. left. rewrite Ho. apply length_zero_iff_nil. lia. }
  destruct (send_once sf w Hp) as (ok & s' & Hs & Hp' & Hm & Hless); [rewrite Ho; by destruct (bq_bytes q)|].
  rewrite (bind_ret _ _ _ _ _ Hs). destruct ok.
  - specialize (Hless eq_refl). destruct (IH (put_sk s' w) Hp') as (ok & s2 & Hl & Hp2 & Hm2 & Hok); [cbn; lia|].
    exists ok, s2. split; [exact Hl|]. split; [done|]. split; [by eapply sock_moved_trans|done].
  - pose proof Hp' as [_ _ (c & Hc & _) _]. rewrite (bind_ret _ _ _ _ _ (field_ok conn c (put_sk s' w) Hc)).
    eexists _, s'. split; [reflexivity|]. split_and!; try done. intros H. zbool. right. unfold conn_err. by rewrite Hc.
Qed.

Lemma try_read_ok sf w : plain (sk w) ->
  exists (ok : bool) s', try_read sf w = Ret (ok, put_sk s' w) /\ plain s' /\ moved (sk w) s' /\ out_bytes s' = out_bytes (sk w).
Proof.
  intros [(q & Hq & Hwf & Hb) (r & Hr & Hrwf) (c & Hc & Hok) (Hs1 & Hs2 & Hs3)].
  assert (exists (ok : bool) c' r', bq_stm_read (ph_stm_read ph_stm_funcs_fd sf) (r, c) = Ret (ok, (r', c')) /\ conn_ok c' /\ bq_wf r' /\
    exists new, bq_bytes r' = bq_bytes r ++ new /\ got_of c' = got_of c ++ new /\ sent_of c' = sent_of c)
    as (ok & c' & r' & Hrd & Hok' & Hrwf' & new & Hrb & Hg & Hs).
  { destruct (bq_stm_read_law (ph_stm_read ph_stm_funcs_fd sf) r c Hrwf) as [(r' & H1 & H2 & H3)|(avail & Hav & Hk)].
    - exists false, c, r'. split_and!; try done. exists []. by rewrite !app_nil_r.
    - destruct (conn_read_ok sf avail c Hok ltac:(lia)) as (x & c' & Hx & Hok' & Hbs & Hg & Hs).
      destruct (Hk x c' Hx Hbs) as (r' & H1 & H2 & H3). eexists _, c', r'. split; [exact H1|]. split; [done|]. split; [done|].
      by exists (default [] x). }
  eexists _, (set_rbuf (Some r') (set_conn (Some c') (sk w))). split.
  { unfold try_read. rewrite (bind_ret get _ _ _ _ eq_refl), Hs1. erewrite bind_ret.
    2:{ unfold on_conn_q. rewrite (bind_ret _ _ _ _ _ (field_ok rbuf r w Hr)), (bind_ret _ _ _ _ _ (field_ok conn c w Hc)), Hrd. reflexivity. }
    erewrite bind_ret by (apply field_ok; reflexivity). reflexivity. }
  split; [split; cbn; eauto|]. split; [|unfold out_bytes; by cbn].
  unfold moved, sent, got, out_bytes, in_bytes. cbn. rewrite Hr, Hc, Hs. split_and!; try done. by exists new.
Qed.

(** ** Waiting for the descriptor *)

(** The job, of descriptor [d], can be scheduled on this thread, its emitter's. *)
Definition ready (d : Z) (n : nbio) (jb : positive) : Prop :=
  exists i e j, schedulable n i e jb j /\ fd j = d /\ is_emitter (me n) = Some i /\ pollable (io_fd e) d /\ timer_quiet (job_timers n !!! jb).

(** The kernel is asked for the events of [m] on the descriptor. *)
Definition waits (d : Z) (n : nbio) (jb : positive) (m : Z) : Prop :=
  exists i e j, has_emitter n i e /\ jobs n !! jb = Some j /\ kmask j = want_mask m /\
    interest (io_fd e) d = (if want_mask m =? 0 then None else Some (want_mask m, jb)).

Lemma ready_me d n jb t : ready d n jb -> is_emitter t = is_emitter (me n) -> ready d (set_me t n) jb.
Proof.
  intros (i & e & j & [H1 (es & Hes & Hi) H3 H4] & Hfd & Hme & Hp & Hq) Ht. exists i, e, j. split.
  - split; auto; [by exists es|]. eapply (emitter_for_job_ok jb j i e es n); eauto.
  - split_and!; auto. cbn. congruence.
Qed.

Lemma set_nbio_in_ok d m w : d <> -1 -> ready d (nb w) (job (sk w)) ->
  exists n', set_nbio_in m w = Ret (tt, SWorld (sk w) n' (app w) (calls w)) /\ waits d n' (job (sk w)) m.
Proof.
  intros Hd Hr. destruct (time_now_ok (nb w)) as (tv & t & Ht & _ & He).
  destruct (ready_me d _ _ t Hr He) as (i & e & j & Hsc & Hfd & Hme & Hp & Hq). rewrite <- Hfd in Hp, Hd.
  destruct (set_nbio_spec i e _ j m (Some (TimerWheel.timeradd tv (timeout_duration (sk w)))) _ Hsc Hd (or_intror Hme) Hp Hq)
    as (n' & e' & j' & Hs & He' & Hj' & Hint & _ & Hk & _).
  exists n'. split.
  - unfold set_nbio_in. rewrite (bind_ret get _ _ _ _ eq_refl). erewrite bind_ret; [reflexivity|].
    unfold on_nbio, ph_job_set_nbio_timeout_in. rewrite (bind_ret _ _ _ _ _ Ht). rewrite Hs. reflexivity.
  - rewrite Hfd in Hint. by exists i, e', j'.
Qed.

(** The mask a plain sock waits with. *)
Definition wait_mask s (m : Z) : Prop := has m PH_IOMASK_READ = true /\ (out_bytes s <> [] -> has m PH_IOMASK_WRITE = true).

Lemma has_lor_r m b : b <> 0 -> has (Z.lor m b) b = true.
Proof. intros Hb. unfold has. rewrite Z.land_comm, Z.land_lor_distr_r, Z.land_diag.
  apply negb_true_iff, Z.eqb_neq. intros H. apply Hb, (Z.lor_eq_0_iff (Z.land b m) b), H. Qed.
Lemma has_lor_l m b b' : has m b = true -> has (Z.lor m b') b = true.
Proof.
  unfold has. rewrite !negb_true_iff, !Z.eqb_neq, Z.land_lor_distr_l, Z.lor_eq_0_iff. tauto.
Qed.

Lemma rearm_ok d w : d <> -1 -> plain (sk w) -> ready d (nb w) (job (sk w)) ->
  exists n' m, rearm w = Ret (tt, SWorld (sk w) n' (app w) (calls w)) /\ waits d n' (job (sk w)) m /\ wait_mask (sk w) m.
Proof.
  intros Hd Hp Hr. pose proof Hp as [(q & Hq & Hwf & Hb) _ (c & Hc & _) (Hs1 & Hs2 & Hs3)].
  set (m := Z.lor (need_mask (cookie c)) PH_IOMASK_READ).
  assert (has m PH_IOMASK_READ = true) as Hm by (by apply has_lor_r).
  set (m' := if negb (zlen (bq_bytes q) =? 0) || false then Z.lor m PH_IOMASK_WRITE else m).
  destruct (set_nbio_in_ok d m' w Hd Hr) as (n' & Hs & Hw). exists n', m'. split; [|split; [done|split]].
  - unfold rearm. rewrite (bind_ret _ _ _ _ _ (field_ok conn c w Hc)), (bind_ret get _ _ _ _ eq_refl).
    rewrite (bind_ret _ _ _ _ _ (field_ok wbuf q w Hq)), Hs1, Hs2, (bq_len_law q Hwf Hb). exact Hs.
  - unfold m'. destruct (negb _ || _); [by apply has_lor_l|done].
  - unfold out_bytes. rewrite Hq. intros Hne. unfold m'. rewrite (proj2 (Z.eqb_neq _ _)) by (destruct (bq_bytes q); [done|simpl; lia]).
    by apply has_lor_r.
Qed.

(** ** Dispatch *)

Section dispatch.
Context (callback : Z -> M sworld unit) (written consumed : A -> list Z) (d : Z) (sf fuel : nat).

(** What the user wrote was taken by the kernel or is queued; what the kernel gave was
    consumed or is queued. *)
Definition conserved w : Prop :=
  sent (sk w) ++ out_bytes (sk w) = written (app w) /\ consumed (app w) ++ in_bytes (sk w) = got (sk w).

Record good w : Prop := {
  g_plain : plain (sk w);
  g_ready : ready d (nb w) (job (sk w));
  g_conserved : conserved w;
  g_room : (length (out_bytes (sk w)) < fuel)%nat;
}.

(** What is asked of a user: to account for what it writes and consumes, to leave the sock
    in order unless it disables it, and not to leave more to send than [fuel] allows. *)
Definition well_behaved : Prop := forall why w, good w ->
  exists w', callback why w = Ret (tt, w') /\ calls w' = calls w /\ conserved w' /\ (enabled (sk w') = true -> good w').

(** The kernel waits for the descriptor, for writing too if there is something to send. *)
Definition rearmed w : Prop := exists m, waits d (nb w) (job (sk w)) m /\ wait_mask (sk w) m.
Definition reported (l : list Z) : Prop := exists why, why ∈ l /\ has why PH_IOMASK_ERR = true.

Lemma good_moved w s' : good w -> plain s' -> moved (sk w) s' -> good (put_sk s' w).
Proof.
  intros [Hp Hr [Hc1 Hc2] Hl] Hp' (H1 & H2 & (new & H3 & H4) & H5 & H6 & H7). split; cbn; try done.
  - by rewrite H5.
  - split; cbn; [by rewrite H1|]. by rewrite H3, H4, app_assoc, Hc2.
  - lia.
Qed.

Lemma send_good w : good w -> exists (ok : bool) s', try_send sf fuel w = Ret (ok, put_sk s' w) /\ good (put_sk s' w) /\
  enabled s' = enabled (sk w) /\ (ok = true -> out_bytes s' = [] \/ conn_err s' = EAGAIN).
Proof.
  intros Hg. destruct (try_send_ok sf fuel w (g_plain _ Hg) (g_room _ Hg)) as (ok & s' & Ht & Hp & Hm & Ho).
  exists ok, s'. split; [done|]. split; [by apply good_moved|]. split; [apply Hm|done].
Qed.

Lemma reset_good w c : good w -> conn (sk w) = Some c ->
  good (put_sk (set_conn (Some (set_cookie (Fd 0 (kern (cookie c))) c)) (sk w)) w).
Proof.
  intros Hg Hc. apply good_moved; [done|..].
  - destruct (g_plain _ Hg) as [H1 H2 (c0 & Hc0 & Hok) H4]. simplify_eq. split; cbn; try done.
    eexists. split; [reflexivity|]. by destruct Hok.
  - unfold moved, sent, got, out_bytes, in_bytes. cbn. rewrite Hc. split_and!; try done. exists []. by rewrite !app_nil_r.
Qed.

Lemma before_callback_ok why w : good w -> exists why' s', before_callback sf fuel why w = Ret ((false, why'), put_sk s' w) /\
  good (put_sk s' w) /\ enabled s' = enabled (sk w) /\ (has why PH_IOMASK_ERR = true -> has why' PH_IOMASK_ERR = true).
Proof.
  intros Hg. destruct (pl_conn _ (g_plain _ Hg)) as (c & Hc & _). destruct (pl_ssl _ (g_plain _ Hg)) as (Hs1 & Hs2 & Hs3).
  unfold before_callback. rewrite (bind_ret _ _ _ _ _ (field_ok conn c w Hc)). step. rewrite (bind_ret get _ _ _ _ eq_refl).
  cbn [sk set_sk sslwbuf set_conn]. rewrite Hs2. step.
  destruct (send_good _ (reset_good w c Hg Hc)) as (ok & s1 & Ht & Hg1 & He1 & _). rewrite (bind_ret _ _ _ _ _ Ht). cbn zeta.
  set (why1 := if ok then why else Z.lor why PH_IOMASK_ERR).
  assert (has why PH_IOMASK_ERR = true -> has why1 PH_IOMASK_ERR = true) as Hw1 by (unfold why1; destruct ok; [done|by apply has_lor_l]).
  change (put_sk s1 (put_sk _ w)) with (put_sk s1 w) in *.
  assert (exists why2 s2, (if has why1 PH_IOMASK_ERR then ret why1
      else ok0 <-- try_read sf ;; ret (if (ok0 : bool) then why1 else Z.lor why1 PH_IOMASK_ERR)) (put_sk s1 w) = Ret (why2, put_sk s2 w) /\
      good (put_sk s2 w) /\ enabled s2 = enabled (sk w) /\ (has why PH_IOMASK_ERR = true -> has why2 PH_IOMASK_ERR = true))
    as (why2 & s2 & Hr & Hg2 & He2 & Hw2).
  { destruct (has why1 PH_IOMASK_ERR) eqn:E; [by exists why1, s1|].
    destruct (try_read_ok sf (put_sk s1 w) (g_plain _ Hg1)) as (ok2 & s2 & Hrd & Hp2 & Hm2 & _). step_with Hrd.
    eexists _, s2. split; [reflexivity|]. split; [exact (good_moved _ _ Hg1 Hp2 Hm2)|].
    split; [destruct Hm2 as (_ & _ & _ & _ & -> & _); exact He1|]. intros H. by specialize (Hw1 H). }
  rewrite (bind_ret _ _ _ _ _ Hr). exists why2, s2. split; [|done]. unfold handshake. rewrite (bind_ret get _ _ _ _ eq_refl).
  cbn [sk put_sk set_sk]. destruct (pl_ssl _ (g_plain _ Hg2)) as (_ & _ & H3). cbn in H3. by rewrite H3.
Qed.

Lemma rearm_good w : d <> -1 -> good w -> exists w', rearm w = Ret (tt, w') /\ calls w' = calls w /\ conserved w' /\ sk w' = sk w /\ rearmed w'.
Proof.
  intros Hd [Hp Hr Hc _]. destruct (rearm_ok d w Hd Hp Hr) as (n' & m & Ha & Hw & Hm).
  eexists. split; [exact Ha|]. split; [done|]. split; [exact Hc|]. split; [done|]. by exists m.
Qed.

Section user.
Context (Hcb : well_behaved) (Hd : d <> -1).

Lemma call_user_ok why w : good w -> exists w', call_user callback why w = Ret (tt, w') /\ calls w' = calls w ++ [why] /\
  conserved w' /\ (enabled (sk w') = true -> good w').
Proof.
  intros [H1 H2 H3 H4]. unfold call_user. step. set (w1 := SWorld (sk w) (nb w) (app w) (calls w ++ [why])).
  destruct (Hcb why w1) as (w' & Hc & Hl & Hcs & Hg); [by split|]. exists w'. by rewrite Hl.
Qed.

(** With an error there is one call. *)
Lemma again_err again why had_err w : good w -> had_err || has why PH_IOMASK_ERR = true -> enabled (sk w) = true \/ has why PH_IOMASK_ERR = true ->
  exists w', dispatch_again callback sf fuel (S again) why had_err w = Ret (tt, w') /\ calls w' = calls w ++ [why] /\
    conserved w' /\ (enabled (sk w') = true -> rearmed w').
Proof.
  intros Hg Herr Hen. cbn [dispatch_again]. rewrite (bind_ret get _ _ _ _ eq_refl).
  assert (enabled (sk w) || has why PH_IOMASK_WAKEUP || has why PH_IOMASK_ERR = true) as ->
    by (destruct Hen as [-> | ->]; rewrite ?orb_true_r; done).
  destruct (call_user_ok why w Hg) as (w1 & Hc & Hl & Hcs & Hg1). rewrite (bind_ret _ _ _ _ _ Hc), (bind_ret get _ _ _ _ eq_refl), Herr.
  destruct (enabled (sk w1)) eqn:E; cbn [negb]; [|by exists w1; rewrite E].
  destruct (rearm_good w1 Hd (Hg1 eq_refl)) as (w2 & Hr & Hl2 & Hc2 & Hs2 & Ha). exists w2. rewrite Hl2. by split_and!.
Qed.

(** Without one, a second call says that sending failed. *)
Lemma again_ok again why w : good w -> enabled (sk w) = true -> has why PH_IOMASK_ERR = false ->
  exists new w', dispatch_again callback sf fuel (S (S again)) why false w = Ret (tt, w') /\ calls w' = calls w ++ new /\
    (new = [why] \/ new = [why; PH_IOMASK_ERR]) /\ conserved w' /\
    (enabled (sk w') = true -> rearmed w' /\ (reported new \/ out_bytes (sk w') = [] \/ conn_err (sk w') = EAGAIN)).
Proof.
  intros Hg Hen Hne. cbn [dispatch_again]. rewrite (bind_ret get _ _ _ _ eq_refl), Hen, Hne. cbn [orb].
  destruct (call_user_ok why w Hg) as (w1 & Hc & Hl & Hcs & Hg1). rewrite (bind_ret _ _ _ _ _ Hc), (bind_ret get _ _ _ _ eq_refl).
  destruct (enabled (sk w1)) eqn:E; cbn [negb].
  2:{ exists [why], w1. rewrite E. split_and!; try done. by left. }
  specialize (Hg1 eq_refl). destruct (pl_rbuf _ (g_plain _ Hg1)) as (r & Hr & _). destruct (pl_ssl _ (g_plain _ Hg1)) as (Hs1 & Hs2 & _).
  rewrite (bind_ret _ _ _ _ _ (field_ok rbuf r w1 Hr)). cbn zeta.
  assert (try_ssl_shunt sf fuel w1 = Ret (true, w1)) as Hsh by (unfold try_ssl_shunt; rewrite (bind_ret get _ _ _ _ eq_refl), Hs2; done).
  rewrite (bind_ret _ _ _ _ _ Hsh). cbn [negb]. destruct (send_good w1 Hg1) as (ok & s2 & Ht & Hg2 & He2 & Ho). rewrite (bind_ret _ _ _ _ _ Ht).
  destruct ok; cbn [negb].
  - rewrite (bind_ret get _ _ _ _ eq_refl). destruct (pl_ssl _ (g_plain _ Hg2)) as (Hs3 & _). cbn [sk put_sk set_sk] in *. rewrite Hs3.
    destruct (rearm_good (put_sk s2 w1) Hd Hg2) as (w3 & Hr3 & Hl3 & Hc3 & Hs4 & Ha). exists [why], w3.
    split; [exact Hr3|]. split; [by rewrite Hl3|]. split; [by left|]. split; [done|]. intros _. split; [done|]. right. rewrite Hs4. by apply Ho.
  - destruct (again_err again PH_IOMASK_ERR false (put_sk s2 w1) Hg2 eq_refl (or_intror eq_refl)) as (w3 & Ha & Hl3 & Hc3 & Hr3).
    exists [why; PH_IOMASK_ERR], w3. split; [exact Ha|]. split; [rewrite Hl3; cbn; by rewrite Hl, <- app_assoc|]. split; [by right|].
    split; [done|]. intros He3. split; [by apply Hr3|]. left. exists PH_IOMASK_ERR. split; [set_solver|done].
Qed.

(** C21. A dispatch of an enabled sock without SSL ends, whatever the kernel and
    memory do: the user is called once, or a second time with an error; what the
    user wrote is what the kernel took followed by what is queued, and what the
    kernel gave is what the user consumed followed by what is queued; and unless
    the user disabled the sock, the kernel waits for its descriptor, for writing
    too when something is left to send, which is only when the kernel had no
    room or an error was reported. *)
Theorem sock_dispatch_moves again why w : good w -> enabled (sk w) = true ->
  exists why' new w', sock_dispatch callback sf fuel (S (S again)) why w = Ret (tt, w') /\ calls w' = calls w ++ new /\
    (new = [why'] \/ new = [why'; PH_IOMASK_ERR]) /\ conserved w' /\
    (enabled (sk w') = true -> rearmed w' /\ (reported new \/ out_bytes (sk w') = [] \/ conn_err (sk w') = EAGAIN)).
Proof.
  intros Hg Hen. destruct (g_ready _ Hg) as (i & e & j & [Hj _ _ Hf] & _).
  unfold sock_dispatch. rewrite (bind_ret get _ _ _ _ eq_refl).
  assert (on_nbio (load_job (job (sk w))) w = Ret (j, w)) as Hload by (unfold on_nbio; rewrite (load_job_ok _ _ _ Hj); by destruct w).
  rewrite (bind_ret _ _ _ _ _ Hload), Hf, Hen. cbn zeta.
  destruct (before_callback_ok why w Hg) as (why' & s' & Hb & Hg' & He' & Hw). rewrite (bind_ret _ _ _ _ _ Hb).
  destruct (has why' PH_IOMASK_ERR) eqn:E.
  - destruct (again_err (S again) why' (has why PH_IOMASK_ERR) (put_sk s' w) Hg') as (w' & Ha & Hl & Hc & Hr); [by rewrite E, orb_true_r|by right|].
    exists why', [why'], w'. split; [exact Ha|]. split; [done|]. split; [by left|]. split; [done|]. intros H. split; [by apply Hr|].
    left. exists why'. split; [set_solver|done].
  - destruct (has why PH_IOMASK_ERR) eqn:E2; [by specialize (Hw eq_refl)|].
    destruct (again_ok again why' (put_sk s' w) Hg') as (new & w' & H); [by cbn; rewrite He'|done|]. by exists why', new, w'.
Qed.
End user.
End dispatch.

(** ** A user that says hello *)

Definition hello_bytes : list Z := [104; 105].
End sock.

(** A connection with the bytes taken and given so far, those that wait to be read, and
    the room for those to be sent. *)
Record pipe := Pipe { p_sent : list Z; p_got : list Z; p_waiting : list Z; p_room : Z }.
#[export] Instance pipe_sys : sys_io := {
  K := pipe;
  sys_close k := (inl tt, k);
  sys_readv lens k :=
    let n := foldr Z.add 0 lens in
    if (n <=? 0) || bool_decide (p_waiting k = []) then (inr EAGAIN, k)
    else (inl (take (Z.to_nat n) (p_waiting k)),
          Pipe (p_sent k) (p_got k ++ take (Z.to_nat n) (p_waiting k)) (drop (Z.to_nat n) (p_waiting k)) (p_room k));
  sys_writev iov k :=
    let n := Z.min (zlen (mjoin iov)) (p_room k) in
    if n <=? 0 then (inr EAGAIN, k)
    else (inl n, Pipe (p_sent k ++ take (Z.to_nat n) (mjoin iov)) (p_got k) (p_waiting k) (p_room k - n));
  sys_lseek _ _ k := (inr ESPIPE, k);
}.
#[refine, export] Instance pipe_laws : sys_laws pipe_sys := { k_sent := p_sent; k_got := p_got }.
Proof.
  - intros iov k. cbn. case_bool; [done|]. zbool. split; [done|]. cbn. split; [lia|]. by split; [intros; lia|].
  - intros lens k. cbn. case_bool; [done|]. apply orb_false_iff in E as [E _]. zbool. cbn. split; [done|]. split; [rewrite length_take; lia|done].
Defined.

(** OpenSSL is not used. *)
#[export] Instance no_ssl `{BQ : bufq_api} : openssl_api := {
  SSL := Empty_set;
  SSL_read _ := fault;
  SSL_write _ := fault;
  SSL_do_handshake := fault;
  SSL_get_error s _ := match s with end;
  SSL_in_init s := match s with end;
  SSL_total_renegotiations s := match s with end;
}.

(** The user writes two bytes at every call while less than 100 are queued; what it wrote is its state. *)
Section hello.
Context `{BL : bufq_laws} `{EL : epoll_laws} {CR : Pool.ck_ring}.
Abbreviation hworld := (sworld (SYS := pipe_sys) (BQ := BQ) (SA := no_ssl) (EP := EP) (CR := CR) (A := list Z)).

Definition hello (why : Z) : M hworld unit :=
  q <-- field wbuf ;;
  if bq_len q <? 100 then
    let* (_, n) := append_out hello_bytes in
    modify (fun w => SWorld (sk w) (nb w) (app w ++ take (Z.to_nat n) hello_bytes) (calls w))
  else ret tt.

Lemma hello_behaves d : well_behaved hello (fun a => a) (fun _ => []) d 200.
Proof.
  intros why w [Hp Hr [Hc1 Hc2] Hl]. pose proof Hp as [(q & Hq & Hwf & Hb) Hrb Hcn Hs]. pose proof Hs as (_ & Hs2 & _).
  unfold hello. rewrite (bind_ret _ _ _ _ _ (field_ok wbuf q w Hq)), (bq_len_law q Hwf Hb).
  assert (out_bytes (sk w) = bq_bytes q) as Ho by (unfold out_bytes; by rewrite Hq).
  destruct (zlen (bq_bytes q) <? 100) eqn:E; [|by exists w].
  zbool. destruct (bq_append_law q hello_bytes Hwf ltac:(simpl; lia)) as (r & n & q' & Ha & Hwf' & Hn & Hqb & _).
  assert (append_out hello_bytes w = Ret ((r, n), put_sk (set_wbuf (Some q') (sk w)) w)) as Hao.
  { unfold append_out. rewrite (bind_ret get _ _ _ _ eq_refl), Hs2, Hq. step. by rewrite Ha. }
  rewrite (bind_ret _ _ _ _ _ Hao). eexists. split; [reflexivity|]. split; [done|].
  set (w' := SWorld _ _ _ _). assert (out_bytes (sk w') = out_bytes (sk w) ++ take (Z.to_nat n) hello_bytes) as Ho'
    by (rewrite Ho; unfold out_bytes; cbn; exact Hqb).
  assert (conserved (fun a => a) (fun _ => []) w') as Hcs.
  { split; [|exact Hc2]. rewrite Ho', app_assoc. unfold w' at 2. cbn. by rewrite <- Hc1. }
  assert (length (take (Z.to_nat n) hello_bytes) <= 2)%nat as Htl by (rewrite length_take; simpl; lia).
  split; [done|]. intros _. split; [|done|done|rewrite Ho', Ho, length_app; lia].
  split; [exists q'; split_and!; [done..|]; rewrite Hqb, length_app; lia|done|done|done].
Qed.
End hello.

(** ** A sock on a connection

    Five bytes are queued, the kernel takes four and has three to give. *)

#[local] Existing Instance BufStream.bufq_laws_bufq.
Abbreviation dq := (BufStream.bufq_bufq BufQueueProofs.BufQueueProofs.no_junk).
Abbreviation dworld := (sworld (SYS := pipe_sys) (BQ := dq)
  (SA := no_ssl) (EP := gmap_epoll) (CR := PoolProofs.PoolProofs.list_ring) (A := list Z)).
Definition demo_conn : ph_stream fd_cookie := Stm (Fd 0 (Pipe [] [] [7; 8; 9] 4)) 0 None None None None None [] 0 0 false.
Definition empty_bufq : BufQueue.BufQueue.ph_bufq := BufQueue.BufQueue.Bufq [] 0 0 false 0 None [] 0.
Definition demo_sock : ph_sock (SYS := pipe_sys) (BQ := dq) (SA := no_ssl) :=
  MkSock (SYS := pipe_sys) (BQ := dq) (SA := no_ssl) 1 (Some (BufQueueProofs.BufQueueProofs.demo_w, BufQueueProofs.BufQueueProofs.demo_q))
    (Some (Buffer.Buffer.BWorld ∅ ∅ 1 [], empty_bufq)) (Timeval 60 0) (Some demo_conn) (Some 0) true None None None true.
Definition demo_sworld : dworld :=
  SWorld demo_sock (demo_state (Thread 2 1 (Some 1%nat) (Timeval 1000 0) false [] [])) [2; 3; 4; 5; 6] [].

Lemma demo_good : good (fun a => a) (fun _ => []) 5 200 demo_sworld.
Proof.
  split.
  - split; [|eexists; split; [reflexivity|]|eexists; split; [reflexivity|by split]|done].
    + eexists. split; [reflexivity|]. split; [apply BufQueueProofs.BufQueueProofs.demo_queue_wf|vm_compute; reflexivity].
    + split; split; cbn; [by intros e ?%elem_of_nil|constructor|by intros e e' b b' ?%elem_of_nil|..]; by intros p [x ?%lookup_empty_Some].
  - exists 1%nat, demo_emitter, demo_job. split; [apply demo_schedulable|]. split_and!; try done; split; by vm_compute.
  - split; reflexivity.
  - vm_compute. lia.
Qed.

Lemma sock_dispatch_moves_witness : exists why' new w',
  sock_dispatch hello 1 200 2 PH_IOMASK_READ demo_sworld = Ret (tt, w') /\ calls w' = [] ++ new /\
    (new = [why'] \/ new = [why'; PH_IOMASK_ERR]) /\ conserved (fun a => a) (fun _ => []) w' /\
    (enabled (sk w') = true -> rearmed 5 w' /\ (reported new \/ out_bytes (sk w') = [] \/ conn_err (sk w') = EAGAIN)).
Proof.
  apply (sock_dispatch_moves hello (fun a => a) (fun _ => []) 5 1 200 (hello_behaves 5) ltac:(lia) 0 PH_IOMASK_READ demo_sworld);
    [apply demo_good|reflexivity].
Defined.

(** The kernel has four bytes, the user was called once and wrote two, and three bytes
    can be read. *)
Example dispatch_runs :
  match sock_dispatch hello 1 200 2 PH_IOMASK_READ demo_sworld with
  | Ret (_, w) => sent (sk w) = [2; 3; 4; 5] /\ out_bytes (sk w) = [6; 104; 105] /\ in_bytes (sk w) = [7; 8; 9] /\ calls w = [PH_IOMASK_READ] /\
      (jobs (nb w) !! 1%positive) = Some (Job false 3 (want_mask 3) 1 5 0 false None)
  | _ => False
  end.
Proof. vm_compute. auto. Qed.

(** ** Writing when memory runs out *)

(** One allocation fails. *)
Definition tight_sworld : dworld :=
  put_sk (set_wbuf (SYS := pipe_sys) (BQ := dq) (SA := no_ssl) (Some (Buffer.Buffer.set_oracle [false] BufQueueProofs.BufQueueProofs.demo_w, BufQueueProofs.BufQueueProofs.demo_q)) demo_sock) demo_sworld.

(** An allocation that fails in the middle of a write to a sock leaves a hole:
    the write is said to have taken three bytes, and the queue has the first two
    and the fourth. *)
Theorem sock_writev_hole :
  match sock_stm_writev [[10; 11; 12]; [20]] tight_sworld with
  | Ret ((ok, n), w) => ok = true /\ n = 3 /\ out_bytes (sk w) = [2; 3; 4; 5; 6; 10; 11; 20]
  | _ => False
  end.
Proof. vm_compute. auto. Qed.

(** ** SSL that has to wait *)

(** Every write wants to read first. *)
#[local] Instance busy_ssl : openssl_api (SYS := pipe_sys) (BQ := dq) := {
  SSL := unit;
  SSL_read _ := ret (-1, []);
  SSL_write _ := ret (-1);
  SSL_do_handshake := ret (-1);
  SSL_get_error _ _ := SSL_ERROR_WANT_READ;
  SSL_in_init _ := false;
  SSL_total_renegotiations _ := 0;
}.
Definition ssl_sworld : sworld (SYS := pipe_sys) (BQ := dq) (SA := busy_ssl) (EP := gmap_epoll) (CR := PoolProofs.PoolProofs.list_ring) (A := list Z) :=
  SWorld (MkSock (SYS := pipe_sys) (BQ := dq) (SA := busy_ssl) 1 (wbuf demo_sock) (rbuf demo_sock) (Timeval 60 0) (conn demo_sock) (Some 0) true
    (Some tt) (Some (Stm 0 0 None None None None None [] 0 0 false)) (wbuf demo_sock) true) (nb demo_sworld) [] [].

(** SSL that has to read first makes the shunt fail although its stream says
    EAGAIN: the error looked at is that of the connection. *)
Theorem ssl_shunt_wrong_error :
  match try_ssl_shunt 1 10 ssl_sworld with
  | Ret (ok, w) => ok = false /\ option_map last_err (ssl_stream (sk w)) = Some EAGAIN
  | _ => False
  end.
Proof. vm_compute. auto. Qed.
End SockProofs.
