(* ===== verification/TempFile.v ===== *)
(** * Temporary files (streams/temp.c)

    The random numbers, which the code makes of the clock and of addresses on the
    stack, and what [open] answers are functions of the number of attempts that are
    left; a name is the bytes before the terminating 0. *)

From Stdlib Require Import ZArith Lia.
From stdpp Require Import base numbers list.
From S2P Require Import Prelude.

Module TempFile.

Definition EEXIST : Z := 17.
Definition EINVAL : Z := 22.

(** The characters that [make_name] writes for the number [r]. *)
Fixpoint make_name (r : Z) (len : nat) : list Z :=
  match len with
  | O => []
  | S len => (65 + Z.land r 15 + Z.land r 16 * 2) :: make_name (Z.shiftr r 5) len
  end.

(** The loop that counts X from [base] down; the first byte of the name is not counted. *)
Fixpoint x_run (name : list Z) (base : nat) : nat :=
  match base with
  | O => 0%nat
  | S b => if bool_decide (name !! base = Some 88) then S (x_run name b) else 0%nat
  end.

Section mkostemps.
Context (noddy_rando : nat -> Z) (open : nat -> list Z -> Z + Z).

(** [retries] attempts: the descriptor or the error, and the name.  The error after the
    last attempt is that of [open]. *)
Fixpoint open_loop (retries : nat) (name : list Z) (start tlen : nat) : (Z + Z) * list Z :=
  match retries with
  | O => (inr EEXIST, name)
  | S retries =>
      let name := splice start (make_name (noddy_rando retries) tlen) name in
      match open retries name with
      | inl fd => (inl fd, name)
      | inr err => if err =? EEXIST then open_loop retries name start tlen else (inr err, name)
      end
  end.

(** [None] when the suffix is longer than the name: the pointer is in front of it. *)
Definition ph_mkostemps (name : list Z) (suffixlen : Z) : option ((Z + Z) * list Z) :=
  let base := zlen name - suffixlen - 1 in
  if (base <? 0) || (zlen name <? base) then None
  else
    let tlen := x_run name (Z.to_nat base) in
    Some (if (tlen =? 0)%nat then (inr EINVAL, name)
          else open_loop 100 name (S (Z.to_nat base) - tlen) tlen).
Definition ph_mkostemp (name : list Z) : option ((Z + Z) * list Z) := ph_mkostemps name 0.

(** ** Proofs *)

Definition letter (c : Z) : Prop := 65 <= c <= 80 \/ 97 <= c <= 112.

Lemma make_name_letters len : forall r, Forall letter (make_name r len) /\ length (make_name r len) = len.
Proof.
  induction len as [|len IH]; intros r; [by split; [constructor|]|]. cbn [make_name length]. destruct (IH (Z.shiftr r 5)) as [H1 H2].
  split; [|by rewrite H2]. constructor; [|done]. unfold letter.
  assert (0 <= Z.land r 15 < 16) as Ha by (change 15 with (Z.ones 4); rewrite Z.land_ones by lia; apply Z.mod_pos_bound; lia).
  assert (Z.land r 16 = 0 \/ Z.land r 16 = 16) as [-> | ->]; [|lia..].
  destruct (Z.testbit r 4) eqn:E; [right|left]; apply Z.bits_inj'; intros n Hn; rewrite Z.land_spec.
  all: change 16 with (2 ^ 4); rewrite Z.pow2_bits_eqb, ?Z.bits_0 by lia; destruct (4 =? n) eqn:En; zbool; [subst n; by rewrite E|by rewrite andb_false_r].
Qed.

Lemma x_run_ok name base : (base < length name)%nat \/ x_run name base = 0%nat -> (x_run name base <= base)%nat /\
  forall i, (base - x_run name base < i <= base)%nat -> name !! i = Some 88.
Proof.
  induction base as [|b IH]; intros Hb; [split; cbn; lia|]. cbn [x_run] in *. case_bool_decide as E; [|split; [lia|lia]].
  destruct IH as [H1 H2]; [left; apply lookup_lt_Some in E; lia|]. split; [lia|]. intros i Hi.
  destruct (decide (i = S b)) as [->|]; [done|]. apply H2. lia.
Qed.

(** [name'] is [name] with [tlen] letters at [start]. *)
Definition filled (name name' : list Z) (start tlen : nat) : Prop :=
  exists l, name' = splice start l name /\ length l = tlen /\ Forall letter l.

Lemma splice_twice {A} n (l l' m : list A) : length l' = length l -> (n + length l <= length m)%nat -> splice n l' (splice n l m) = splice n l' m.
Proof.
  intros Hl Hm. unfold splice. rewrite Hl. assert (length (take n m) = n) as Ht by (rewrite length_take; lia). f_equal; [|f_equal].
  - rewrite take_app_le by lia. apply firstn_all2. lia.
  - rewrite drop_app_ge by lia. rewrite Ht, drop_app_ge by lia. by replace (n + length l - n - length l)%nat with 0%nat by lia.
Qed.

Lemma open_loop_ok retries : forall name start tlen, (start + tlen <= length name)%nat -> retries <> O ->
  let '(r, name') := open_loop retries name start tlen in
  filled name name' start tlen /\ match r with inl fd => exists k, open k name' = inl fd | inr err => exists k, open k name' = inr err end.
Proof.
  induction retries as [|n IH]; intros name start tlen Hlen Hn; [done|]. cbn [open_loop].
  destruct (make_name_letters tlen (noddy_rando n)) as [Hl1 Hl2]. set (l := make_name (noddy_rando n) tlen) in *. clearbody l.
  assert (filled name (splice start l name) start tlen) as Hf by (by exists l).
  destruct (open n (splice start l name)) as [fd|err] eqn:Eo; [split; [done|eauto]|]. destruct (err =? EEXIST) eqn:Ee; zbool; [|split; [done|eauto]].
  destruct n as [|n]; [split; [done|]; exists O; subst; exact Eo|].
  specialize (IH (splice start l name) start tlen). destruct (open_loop (S n) _ _ _) as [r name'].
  destruct IH as [(l' & -> & H1 & H2) H3]; [rewrite length_splice; lia|done|]. split; [|done]. exists l'. split; [|done].
  apply splice_twice; lia.
Qed.

(** The name of a temporary file is the template with letters in place of the
    last run of X before the suffix, and the answer is that of open for this
    name; without an X it is EINVAL. *)
Theorem mkostemps_name name suffixlen r name' : 0 <= suffixlen ->
  ph_mkostemps name suffixlen = Some (r, name') ->
  (r = inr EINVAL /\ name' = name) \/
  exists start tlen, (0 < tlen)%nat /\ (Z.of_nat start + Z.of_nat tlen = zlen name - suffixlen) /\
    (forall i, (start <= i < start + tlen)%nat -> name !! i = Some 88) /\ filled name name' start tlen /\
    match r with inl fd => exists k, open k name' = inl fd | inr err => exists k, open k name' = inr err end.
Proof.
  intros Hs. unfold ph_mkostemps. case_bool; [done|]. apply orb_false_iff in E as [E1 E2]. zbool. intros H%(inj Some).
  set (base := Z.to_nat (zlen name - suffixlen - 1)) in *. destruct (x_run_ok name base) as [Hx1 Hx2]; [left; lia|].
  destruct (x_run name base =? 0)%nat eqn:Ex; [left; by simplify_eq|]. apply Nat.eqb_neq in Ex. right.
  pose proof (open_loop_ok 100 name (S base - x_run name base) (x_run name base) ltac:(lia) ltac:(lia)) as Ho. rewrite H in Ho.
  exists (S base - x_run name base)%nat, (x_run name base). split; [lia|]. split; [lia|]. split; [intros i Hi; apply Hx2; lia|done].
Qed.
End mkostemps.

(** A second attempt succeeds; the suffix [.c] is kept. *)
Definition demo_open (k : nat) (_ : list Z) : Z + Z := if (k =? 98)%nat then inl 7 else inr EEXIST.

Lemma mkostemps_name_witness :
  let name' := [116; 77; 66; 66; 46; 99] in
  (inl 7 = inr EINVAL /\ name' = [116; 88; 88; 88; 46; 99]) \/
  exists start tlen, (0 < tlen)%nat /\ (Z.of_nat start + Z.of_nat tlen = 6 - 2) /\
    (forall i, (start <= i < start + tlen)%nat -> [116; 88; 88; 88; 46; 99] !! i = Some 88) /\ filled [116; 88; 88; 88; 46; 99] name' start tlen /\
    exists k, demo_open k name' = inl 7.
Proof.
  apply (mkostemps_name (fun k => if (k =? 98)%nat then 1068 else 5) demo_open [116; 88; 88; 88; 46; 99] 2 (inl 7)); [lia|vm_compute; reflexivity].
Defined.
End TempFile.
