(* ===== verification/SockAddr.v ===== *)
(** * Addresses of sockets (net/sockaddr.c)

    The union of the address structures is its bytes, with the layout of Linux on a
    little-endian machine: the family in the first two, then the port in network
    order or the path.  What the library functions that convert addresses return are
    arguments. *)

From Stdlib Require Import ZArith Lia.
From stdpp Require Import base numbers list.
From S2P Require Import Prelude.

Module SockAddr.

Definition AF_UNIX : Z := 1.
Definition AF_INET : Z := 2.
Definition AF_INET6 : Z := 10.

(** The sizes of the union, of the structures and of [sun_path]. *)
Definition sizeof_union : nat := 112.
Definition sizeof_sa : Z := 16.
Definition sizeof_nix : Z := 110.
Definition sizeof_v4 : Z := 16.
Definition sizeof_v6 : Z := 28.
Definition sizeof_sun_path : Z := 108.

Record phenom_sockaddr := Sockaddr { family : Z; sa : list Z }.

Definition zeroed : phenom_sockaddr := Sockaddr 0 (replicate sizeof_union 0).
Definition put (off : nat) (bs : list Z) (a : phenom_sockaddr) : phenom_sockaddr := Sockaddr (family a) (splice off bs (sa a)).
Definition set_family (f : Z) (a : phenom_sockaddr) : phenom_sockaddr := Sockaddr f (sa a).

(** A 16-bit number as it is stored, and in network order. *)
Definition le16 (n : Z) : list Z := [n mod 256; n / 256].
Definition htons (n : Z) : list Z := [n / 256; n mod 256].

Definition ph_sockaddr_socklen (a : phenom_sockaddr) : Z :=
  if family a =? AF_UNIX then sizeof_nix
  else if family a =? AF_INET then sizeof_v4
  else if family a =? AF_INET6 then sizeof_v6
  else sizeof_sa.

(** [addr] is null, or what [inet_pton] makes of it: the four bytes, or nothing. *)
Definition ph_sockaddr_set_v4 (addr : option (option (list Z))) (port : Z) : ph_result_t * phenom_sockaddr :=
  match addr with
  | Some None => (PH_ERR, zeroed)
  | _ =>
      let a := match addr with Some (Some bs) => put 4 bs zeroed | _ => zeroed end in
      (PH_OK, put 2 (htons port) (put 0 (le16 AF_INET) (set_family AF_INET a)))
  end.

Definition ph_sockaddr_set_port (a : phenom_sockaddr) (port : Z) : phenom_sockaddr :=
  if (family a =? AF_INET6) || (family a =? AF_INET) then put 2 (htons port) a else a.

(** The first [n] bytes of an address that is given as bytes. *)
Definition copy_sa (n : Z) (ai_addr : list Z) (a : phenom_sockaddr) : phenom_sockaddr := put 0 (take (Z.to_nat n) ai_addr) a.

(** [addr] is null, or what [getaddrinfo] returns for it: a family and an address. *)
Definition ph_sockaddr_set_v6 (addr : option (option (Z * list Z))) (port : Z) : ph_result_t * phenom_sockaddr :=
  match addr with
  | None => (PH_OK, put 2 (htons port) (put 0 (le16 AF_INET6) (set_family AF_INET6 zeroed)))
  | Some None => (PH_ERR, zeroed)
  | Some (Some (ai_family, ai_addr)) =>
      let a := set_family ai_family zeroed in
      if ai_family =? AF_INET6 then (PH_OK, put 2 (htons port) (copy_sa sizeof_v6 ai_addr a))
      else if ai_family =? AF_INET then (PH_OK, put 2 (htons port) (copy_sa sizeof_v4 ai_addr a))
      else (PH_ERR, a)
  end.

(** The bytes of a C string. *)
Fixpoint cstr (bs : list Z) : list Z :=
  match bs with [] => [] | c :: bs => if c =? 0 then [] else c :: cstr bs end.

(** [path] is null or the bytes in memory from there; a length of 0 stands for the
    length of the string.  Copying more than there is, or than there is room for, is a
    fault. *)
Definition ph_sockaddr_set_unix (a : phenom_sockaddr) (path : option (list Z)) (pathlen : Z) : outcome (ph_result_t * phenom_sockaddr) :=
  match path with
  | None => Ret (PH_ERR, a)
  | Some path =>
      if bool_decide (cstr path = []) then Ret (PH_ERR, a)
      else
        let pathlen := if pathlen =? 0 then zlen (cstr path) else pathlen in
        if sizeof_sun_path <=? u32 (pathlen + 1) then Ret (PH_ERR, a)
        else if (zlen path <? pathlen) || (sizeof_sun_path <? pathlen) then Fault
        else Ret (PH_OK, put 2 (take (Z.to_nat pathlen) path) (put 0 (le16 AF_UNIX) (set_family AF_UNIX zeroed)))
  end.

(** The text that is appended; [nameinfo] is the host and the port that [getnameinfo]
    returns. *)
Definition ph_sockaddr_print (a : phenom_sockaddr) (nameinfo : option (list Z * list Z)) (want_port : bool) : option (list Z) :=
  if family a =? AF_UNIX then Some (cstr (drop 2 (sa a)))
  else if (family a =? AF_INET) || (family a =? AF_INET6) then
    match nameinfo with
    | None => None
    | Some (host, port) => Some (if want_port then [91] ++ host ++ [93; 58] ++ port else host)
    end
  else None.

Definition ph_sockaddr_set_from_addrinfo (ai_family : Z) (ai_addr : list Z) : ph_result_t * phenom_sockaddr :=
  let a := set_family ai_family zeroed in
  if ai_family =? AF_INET6 then (PH_OK, copy_sa sizeof_v6 ai_addr a)
  else if ai_family =? AF_INET then (PH_OK, copy_sa sizeof_v4 ai_addr a)
  else (PH_ERR, a).

(** [h_addr] is the first address of the host entry. *)
Definition ph_sockaddr_set_from_hostent (h_addrtype : Z) (h_addr : list Z) : ph_result_t * phenom_sockaddr :=
  let a := set_family h_addrtype zeroed in
  if h_addrtype =? AF_INET6 then (PH_OK, put 8 (take 16 h_addr) (put 0 (le16 h_addrtype) a))
  else if h_addrtype =? AF_INET then (PH_OK, put 4 (take 4 h_addr) (put 0 (le16 h_addrtype) a))
  else (PH_ERR, a).

(** ** Proofs *)

(** An address the system accepts: the structure has the family of the address. *)
Definition addr_wf (a : phenom_sockaddr) : Prop :=
  length (sa a) = sizeof_union /\ take 2 (sa a) = le16 (family a) /\ (family a = AF_UNIX \/ family a = AF_INET \/ family a = AF_INET6).

Lemma take_splice_after {T} n k (l m : list T) : (k <= n)%nat -> (n <= length m)%nat -> take k (splice n l m) = take k m.
Proof. intros Hk Hn. unfold splice. rewrite take_app_le by (rewrite length_take; lia). rewrite take_take. f_equal. lia. Qed.

Lemma put_wf off bs a : (2 <= off)%nat -> (off + length bs <= sizeof_union)%nat -> addr_wf a -> addr_wf (put off bs a).
Proof.
  intros Ho Hl (H1 & H2 & H3). split_and!; cbn; [rewrite length_splice; lia| |done]. rewrite take_splice_after by lia. done.
Qed.

Lemma family_wf f a : length (sa a) = sizeof_union -> f = AF_UNIX \/ f = AF_INET \/ f = AF_INET6 ->
  addr_wf (put 0 (le16 f) (set_family f a)).
Proof.
  intros Hl Hf. split_and!; [|done|done]. cbn [put sa set_family]. rewrite length_splice; cbn; unfold sizeof_union in *; lia.
Qed.

Lemma copy_wf f n ai_addr : 2 <= n <= 28 -> zlen ai_addr = n -> take 2 ai_addr = le16 f -> f = AF_UNIX \/ f = AF_INET \/ f = AF_INET6 ->
  addr_wf (copy_sa n ai_addr (set_family f zeroed)).
Proof.
  intros Hn Hl Ht Hf. unfold copy_sa. rewrite (firstn_all2 ai_addr) by lia. split_and!; [| |done]; cbn [put sa set_family zeroed].
  - rewrite length_splice; rewrite length_replicate; unfold sizeof_union; lia.
  - unfold splice. rewrite firstn_O, app_nil_l, take_app_le by lia. done.
Qed.

(** What the library functions promise of the addresses they return. *)
Definition pton_ok (addr : option (option (list Z))) : Prop := forall bs, addr = Some (Some bs) -> length bs = 4%nat.
Definition info_ok (f : Z) (ai : list Z) : Prop :=
  (f = AF_INET6 -> zlen ai = sizeof_v6 /\ take 2 ai = le16 f) /\ (f = AF_INET -> zlen ai = sizeof_v4 /\ take 2 ai = le16 f).

(** C24. Every function that sets an internet address and returns PH_OK leaves a
    well-formed address, of the size of the union and with the family in the
    structure that the system reads equal to the family of the address, and
    setting the port keeps it so. *)
Theorem sockaddr_set_wf addr4 addr6 f ai ht ha port :
  pton_ok addr4 -> (forall f ai, addr6 = Some (Some (f, ai)) -> info_ok f ai) -> info_ok f ai ->
  ((ph_sockaddr_set_v4 addr4 port).1 = PH_OK -> addr_wf (ph_sockaddr_set_v4 addr4 port).2) /\
  ((ph_sockaddr_set_v6 addr6 port).1 = PH_OK -> addr_wf (ph_sockaddr_set_v6 addr6 port).2) /\
  ((ph_sockaddr_set_from_addrinfo f ai).1 = PH_OK -> addr_wf (ph_sockaddr_set_from_addrinfo f ai).2) /\
  ((ph_sockaddr_set_from_hostent ht ha).1 = PH_OK -> addr_wf (ph_sockaddr_set_from_hostent ht ha).2) /\
  (forall a, addr_wf a -> addr_wf (ph_sockaddr_set_port a port)).
Proof.
  intros H4 H6 Hi. assert (forall a, addr_wf a -> addr_wf (put 2 (htons port) a)) as Hp by (intros; apply put_wf; cbn; unfold sizeof_union; (done || lia)).
  split_and!.
  - unfold ph_sockaddr_set_v4. destruct addr4 as [[bs|]|]; cbn [fst snd]; [intros _|done|intros _]; apply Hp, family_wf; auto.
    cbn [put sa set_family zeroed]. rewrite length_splice; rewrite length_replicate; [done|]. rewrite (H4 bs eq_refl). unfold sizeof_union. lia.
  - unfold ph_sockaddr_set_v6. destruct addr6 as [[[f6 ai6]|]|]; [|done|intros _; apply Hp, family_wf; auto].
    destruct (H6 f6 ai6 eq_refl) as [Ha Hb]. repeat case_bool; zbool; cbn [fst snd]; try done; intros _; apply Hp;
      [destruct (Ha E)|destruct (Hb E0)]; apply copy_wf; unfold sizeof_v6, sizeof_v4 in *; auto; lia.
  - unfold ph_sockaddr_set_from_addrinfo. destruct Hi as [Ha Hb]. repeat case_bool; zbool; cbn [fst snd]; try done; intros _;
      [destruct (Ha E)|destruct (Hb E0)]; apply copy_wf; unfold sizeof_v6, sizeof_v4 in *; auto; lia.
  - unfold ph_sockaddr_set_from_hostent. repeat case_bool; zbool; cbn [fst snd]; try done; intros _; subst;
      (apply put_wf; [lia|rewrite length_take; unfold sizeof_union; lia|apply family_wf; auto]).
  - intros a Ha. unfold ph_sockaddr_set_port. case_bool; auto.
Qed.

Lemma cstr_app l k m : Forall (fun c => c <> 0) l -> cstr (l ++ replicate (S k) 0 ++ m) = l.
Proof. induction 1 as [|c l Hc _ IH]; [done|]. cbn. rewrite (proj2 (Z.eqb_neq _ _)) by done. by f_equal. Qed.
Lemma cstr_prefix bs : exists rest, bs = cstr bs ++ rest /\ Forall (fun c => c <> 0) (cstr bs).
Proof.
  induction bs as [|c bs (rest & H1 & H2)]; [by exists []|]. cbn. case_bool; zbool; [by exists (c :: bs)|].
  exists rest. split; [cbn; by f_equal|by constructor].
Qed.

(** The address made of a path of 1 to 106 bytes has the family and the size of
    local addresses and is printed as the path. *)
Theorem unix_roundtrip a path : cstr path <> [] -> zlen (cstr path) < 107 ->
  exists a', ph_sockaddr_set_unix a (Some path) 0 = Ret (PH_OK, a') /\ addr_wf a' /\ ph_sockaddr_socklen a' = sizeof_nix /\
    forall nameinfo want_port, ph_sockaddr_print a' nameinfo want_port = Some (cstr path).
Proof.
  intros Hne Hlen. destruct (cstr_prefix path) as (rest & Hp & Hnz). unfold ph_sockaddr_set_unix.
  rewrite bool_decide_eq_false_2 by done. cbn [Z.eqb]. rewrite (wrapU_small 32) by lia. unfold sizeof_sun_path.
  assert (zlen (cstr path) <= zlen path) as Hle by (rewrite Hp at 2; rewrite length_app; lia).
  rewrite (proj2 (Z.leb_gt _ _)), (proj2 (Z.ltb_ge _ _)), (proj2 (Z.ltb_ge _ _)) by lia. cbn [orb]. rewrite Nat2Z.id.
  assert (take (length (cstr path)) path = cstr path) as -> by (rewrite Hp at 2; by rewrite take_app_length).
  set (l := cstr path) in *. eexists. split; [reflexivity|]. split; [|split; [done|intros nameinfo want_port]].
  - apply put_wf; [lia|unfold sizeof_union; lia|apply family_wf; auto].
  - unfold ph_sockaddr_print. cbn [family put set_family]. cbn [Z.eqb]. change (AF_UNIX =? AF_UNIX) with true. f_equal.
    cbn [sa put set_family zeroed]. set (m := splice 0 (le16 AF_UNIX) (replicate sizeof_union 0)).
    assert (length m = 112%nat) as Hm by reflexivity. assert (drop 2 m = replicate 110 0) as Hd by reflexivity.
    unfold splice.
    rewrite drop_app_ge by (rewrite length_take; lia). rewrite length_take, Hm.
    change (2 - 2 `min` 112)%nat with 0%nat. rewrite drop_0, <- drop_drop, Hd, drop_replicate.
    replace (110 - length l)%nat with (S (109 - length l)) by lia. rewrite <- (app_nil_r (replicate _ _)). by apply cstr_app.
Qed.

Lemma unix_roundtrip_witness :
  exists a', ph_sockaddr_set_unix zeroed (Some [47; 115; 0; 9]) 0 = Ret (PH_OK, a') /\ addr_wf a' /\ ph_sockaddr_socklen a' = sizeof_nix /\
    forall nameinfo want_port, ph_sockaddr_print a' nameinfo want_port = Some [47; 115].
Proof. apply (unix_roundtrip zeroed [47; 115; 0; 9]); cbn; [done|lia]. Defined.

Lemma sockaddr_set_wf_witness :
  let ai := le16 AF_INET ++ replicate 14 0 in
  ((ph_sockaddr_set_v4 (Some (Some [10; 11; 12; 13])) 80).1 = PH_OK -> addr_wf (ph_sockaddr_set_v4 (Some (Some [10; 11; 12; 13])) 80).2) /\
  ((ph_sockaddr_set_v6 None 80).1 = PH_OK -> addr_wf (ph_sockaddr_set_v6 None 80).2) /\
  ((ph_sockaddr_set_from_addrinfo AF_INET ai).1 = PH_OK -> addr_wf (ph_sockaddr_set_from_addrinfo AF_INET ai).2) /\
  ((ph_sockaddr_set_from_hostent AF_INET [1; 2; 3; 4]).1 = PH_OK -> addr_wf (ph_sockaddr_set_from_hostent AF_INET [1; 2; 3; 4]).2) /\
  (forall a, addr_wf a -> addr_wf (ph_sockaddr_set_port a 80)).
Proof.
  apply (sockaddr_set_wf (Some (Some [10; 11; 12; 13])) None AF_INET (le16 AF_INET ++ replicate 14 0) AF_INET [1; 2; 3; 4] 80);
    [by intros bs [= <-]|done|by split].
Defined.

(** The largest length of a path passes the check of its size and makes the copy
    leave the address. *)
Theorem unix_length_wraps path : cstr path <> [] -> ph_sockaddr_set_unix zeroed (Some path) (2 ^ 32 - 1) = Fault.
Proof.
  intros Hne. unfold ph_sockaddr_set_unix. rewrite bool_decide_eq_false_2 by done.
  change (2 ^ 32 - 1 =? 0) with false. cbn match. change (sizeof_sun_path <=? u32 (2 ^ 32 - 1 + 1)) with false. cbn match.
  change (sizeof_sun_path <? 2 ^ 32 - 1) with true. by rewrite orb_true_r.
Qed.
End SockAddr.
