(* ===== verification/Listener.v ===== *)
(** * Listeners (net/listener.c)

    A listener is a job of Nbio that accepts connections and hands a sock for each to
    its acceptor, a parameter.  What the system and memory answer are arguments; the
    log has what happened to the descriptors that were accepted, and the paths that
    were removed. *)

From Stdlib Require Import ZArith Lia.
From stdpp Require Import base numbers list gmap.
From S2P Require Import Prelude SysUtil BufStream Stream TimerWheel Pool PoolProofs Nbio NbioProofs FdStream Sock SockProofs SockAddr.

Module Listener.
Import TimerWheel Stream BufqApi FdStream Nbio NbioProofs Sock SockProofs SockAddr.

Definition PH_SOCK_CLOEXEC : Z := 1.
Definition PH_SOCK_NONBLOCK : Z := 2.
Definition EADDRINUSE : Z := 98.
Definition SOMAXCONN : Z := 4096.

Section listener.
Context {SYS : sys_io} {BQ : bufq_api} {SA : openssl_api} {EP : epoll_api} {CR : Pool.ck_ring}.

(** [addr] is the local address; the acceptor is a parameter. *)
Record ph_listener := Lstn {
  ljob : positive;
  lstn_affinity : Z;
  laddr : phenom_sockaddr;
  lflags : Z;
  lenabled : bool;
  listening : bool;
  backlog : Z;
  lname : list Z;
  acceptor_data : Z;
}.
Definition set_affinity x l := Lstn (ljob l) x (laddr l) (lflags l) (lenabled l) (listening l) (backlog l) (lname l) (acceptor_data l).
Definition set_lenabled x l := Lstn (ljob l) (lstn_affinity l) (laddr l) (lflags l) x (listening l) (backlog l) (lname l) (acceptor_data l).
Definition set_listening x l := Lstn (ljob l) (lstn_affinity l) (laddr l) (lflags l) (lenabled l) x (backlog l) (lname l) (acceptor_data l).
Definition set_backlog x l := Lstn (ljob l) (lstn_affinity l) (laddr l) (lflags l) (lenabled l) (listening l) x (lname l) (acceptor_data l).
Definition set_data x l := Lstn (ljob l) (lstn_affinity l) (laddr l) (lflags l) (lenabled l) (listening l) (backlog l) (lname l) x.

(** [Handed fd sockname] is a call of the acceptor with a sock for [fd]. *)
Inductive event := Handed (fd : Z) (sockname : phenom_sockaddr) | Closed (fd : Z) | Unlinked (path : list Z).

Record lworld := LWorld { lst : ph_listener; lnb : nbio; llog : list event }.
Abbreviation LM := (M lworld).
Definition lput f : LM unit := modify (fun w => LWorld (f (lst w)) (lnb w) (llog w)).
Definition lemit e : LM unit := modify (fun w => LWorld (lst w) (lnb w) (llog w ++ [e])).
Definition lnbio {T} (c : M nbio T) : LM T := fun w =>
  match c (lnb w) with Ret (x, n) => Ret (x, LWorld (lst w) n (llog w)) | Panic => Panic | Fault => Fault end.

(** What memory answers while a sock is made. *)
Record sock_mem := SockMem {
  m_job : option positive;
  m_wbuf : option bq;
  m_rbuf : option bq;
  m_conn : option (ph_stream fd_cookie);
  m_stream : option Z;
}.

Definition set_job_affinity n (j : ph_job) : ph_job := Job (in_apply j) (mask j) (kmask j) n (fd j) (n_wakeups_pending j) (freed j) (job_pool j).
Definition set_job_fd n (j : ph_job) : ph_job := Job (in_apply j) (mask j) (kmask j) (emitter_affinity j) n (n_wakeups_pending j) (freed j) (job_pool j).

Section accept.
Context (acceptor : ph_sock -> LM unit).

Definition rearm_listener : LM unit :=
  w <-- get ;;
  if lenabled (lst w) then lnbio (ph_job_set_nbio (ljob (lst w)) PH_IOMASK_READ None) ;;; ret tt else ret tt.

(** [accepted] is the descriptor, or nothing for -1. *)
Definition accept_dispatch (accepted : option Z) (m : sock_mem) : LM unit :=
  match accepted with
  | None => rearm_listener
  | Some fd =>
      r <-- lnbio (ph_sock_new_from_socket (m_job m) (m_wbuf m) (m_rbuf m) (m_conn m) (m_stream m) fd) ;;
      match r with
      | inr _ => lemit (Closed fd) ;;; rearm_listener
      | inl sock =>
          w <-- get ;;
          lnbio (alter_job (job sock) (set_job_affinity (lstn_affinity (lst w)))) ;;;
          lput (fun l => set_affinity (u32 (lstn_affinity l + 1)) l) ;;;
          lemit (Handed fd (laddr (lst w))) ;;;
          acceptor sock ;;;
          rearm_listener
      end
  end.
End accept.

(** [somaxconn] is the number read from /proc, when it can be read. *)
Definition ph_listener_set_backlog (n : Z) (somaxconn : option Z) (l : ph_listener) : ph_listener :=
  if 0 <? n then set_backlog n l else set_backlog (default SOMAXCONN somaxconn) l.

(** The name is cut to 63 bytes. *)
Definition ph_listener_new (alloc : option positive) (name : list Z) (somaxconn : option Z) : M nbio (option ph_listener) :=
  match alloc with
  | None => ret None
  | Some j =>
      ph_job_init j ;;;
      alter_job j (set_job_fd (-1)) ;;;
      ret (Some (ph_listener_set_backlog 0 somaxconn
        (Lstn j 0 zeroed (Z.lor PH_SOCK_CLOEXEC PH_SOCK_NONBLOCK) false false 0 (take 63 name) 0)))
  end.

Definition ph_listener_get_fd : LM Z := w <-- get ;; j <-- lnbio (load_job (ljob (lst w))) ;; ret (fd j).

(** [socket] is the result of [ph_socket_for_addr]; [bind] is 0 or the error, for the first and the
    second call. *)
Definition ph_listener_bind (addr : phenom_sockaddr) (socket : Z) (bind1 bind2 : Z) : LM ph_result_t :=
  w <-- get ;;
  j <-- lnbio (load_job (ljob (lst w))) ;;
  (if fd j =? -1 then lnbio (alter_job (ljob (lst w)) (set_job_fd socket)) else ret tt) ;;;
  if (fd j =? -1) && (socket =? -1) then ret PH_ERR
  else if bind1 =? 0 then ret PH_OK
  else if (bind1 =? EADDRINUSE) && (family addr =? AF_UNIX) then
    lemit (Unlinked (cstr (drop 2 (sa addr)))) ;;;
    ret (if bind2 =? 0 then PH_OK else PH_ERR)
  else ret PH_ERR.

(** [listen_ok]: [listen] succeeds. *)
Definition ph_listener_enable (enable listen_ok : bool) : LM unit :=
  w <-- get ;;
  let l := lst w in
  if Bool.eqb (lenabled l) enable then ret tt
  else if negb enable then
    lnbio (ph_job_set_nbio (ljob l) 0 None) ;;; lput (set_lenabled false)
  else
    (if negb (listening l) then if listen_ok then lput (set_listening true) else panic else ret tt) ;;;
    lput (set_lenabled true) ;;;
    lnbio (ph_job_set_nbio (ljob l) PH_IOMASK_READ None) ;;; ret tt.

Definition ph_listener_set_acceptor_data (data : Z) : LM unit := lput (set_data data).
Definition ph_listener_get_acceptor_data : LM Z := w <-- get ;; ret (acceptor_data (lst w)).

(** ** Proofs *)

Context {EL : epoll_laws EP}.

(** What is the same for a job that is not [j]. *)
Definition keeps (j : positive) (n n' : nbio) : Prop :=
  emitters n' = emitters n /\ me n' = me n /\ (forall k, k <> j -> jobs n' !! k = jobs n !! k) /\ (forall k, k <> j -> job_timers n' !! k = job_timers n !! k).

Lemma keeps_trans j n1 n2 n3 : keeps j n1 n2 -> keeps j n2 n3 -> keeps j n1 n3.
Proof. intros (H1 & H2 & H3 & H4) (G1 & G2 & G3 & G4). split_and!; try congruence; intros k Hk; [rewrite G3, H3|rewrite G4, H4]; done. Qed.

Lemma ready_keeps d j n n' jb : keeps j n n' -> jb <> j -> ready d n jb -> ready d n' jb.
Proof.
  intros (H1 & H2 & H3 & H4) Hne (i & e & x & [S1 (es & S2 & S3) S4 S5] & Hfd & Hme & Hp & Hq). exists i, e, x. split; [split|].
  - by rewrite H3.
  - exists es. by rewrite H1.
  - eapply (emitter_for_job_ok jb x i e es n); eauto; [rewrite H1; eauto|]. exists x. by rewrite H3.
  - done.
  - split_and!; try done; [congruence|]. rewrite lookup_total_alt, H4, <- lookup_total_alt by done. exact Hq.
Qed.

Lemma alter_keeps j f x n : jobs n !! j = Some x -> exists n', alter_job j f n = Ret (tt, n') /\ keeps j n n' /\ jobs n' !! j = Some (f x).
Proof.
  intros H. eexists. split; [by apply alter_job_ok|]. split; [|cbn; by rewrite lookup_insert_eq].
  split_and!; try done. intros k Hk. cbn. by rewrite lookup_insert_ne.
Qed.

Definition new_job : ph_job := Job false 0 0 0 (-1) 0 false None.
Definition new_timer : ph_timerwheel_timer := Timer None (Timeval 0 0) PH_TIMER_DISABLED.

Lemma init_keeps j n : exists n', ph_job_init j n = Ret (PH_OK, n') /\ keeps j n n' /\ jobs n' !! j = Some new_job /\ job_timers n' !! j = Some new_timer.
Proof.
  eexists. split; [reflexivity|]. cbn. rewrite !lookup_insert_eq. split_and!; try done.
  split_and!; try done; intros k Hk; cbn; by rewrite lookup_insert_ne.
Qed.

(** A job that was never scheduled is released without a trace in its emitter. *)
Lemma free_keeps j n e es : jobs n !! j = Some new_job -> job_timers n !! j = Some new_timer -> emitters n = Some (e :: es) ->
  exists n', ph_job_free j n = Ret (tt, n') /\ keeps j n n'.
Proof.
  intros Hj Ht He. assert (has_emitter n 0 e) as Hem by (by exists (e :: es)).
  assert (emitter_for_job j n = Ret (0%nat, n)) as Hf.
  { unfold emitter_for_job, emitter_for_affinity. rewrite (bind_ret _ _ _ _ _ (load_job_ok _ _ _ Hj)), (bind_ret get _ _ _ _ eq_refl), He. cbn [emitter_affinity new_job].
    by rewrite Z.mod_0_l by (cbn; lia). }
  assert (ph_nbio_emitter_for_job j n = Ret (Some 0%nat, n)) as Hfj.
  { unfold ph_nbio_emitter_for_job. rewrite (bind_ret get _ _ _ _ eq_refl), He. by rewrite (bind_ret _ _ _ _ _ Hf). }
  unfold ph_job_free. rewrite (bind_ret _ _ _ _ _ Hfj), (bind_ret _ _ _ _ _ (load_job_ok _ _ _ Hj)). cbn [freed new_job].
  assert (job_timers n !!! j = new_timer) as Htt by (by rewrite lookup_total_alt, Ht).
  assert ((on_wheel 0 (ph_timerwheel_remove j) ;;; ret tt) n = Ret (tt, n)) as Hw.
  { rewrite (bind_ret _ _ _ _ _ (on_wheel_ok 0 (ph_timerwheel_remove j) e n Hem)). unfold ph_timerwheel_remove. cbn [timers]. rewrite Htt. cbn [list_of new_timer fst snd timers wheel].
    unfold ret. do 2 f_equal. replace (set_em_wheel (em_wheel e) e) with e by (by destruct e). rewrite (put_emitter_same 0 e n Hem). by destruct n. }
  rewrite (bind_ret _ _ _ _ _ Hw).
  assert (ph_nbio_emitter_apply_io_mask (Some 0%nat) j 0 n = Ret (PH_OK, n)) as Ha.
  { unfold ph_nbio_emitter_apply_io_mask. by rewrite (bind_ret _ _ _ _ _ (load_job_ok _ _ _ Hj)). }
  rewrite (bind_ret _ _ _ _ _ Ha). destruct (alter_keeps j (set_freed true) new_job n Hj) as (n' & H1 & H2 & _). eauto.
Qed.

(** Making a sock changes nothing for other jobs, whatever memory answers. *)
Lemma new_sock_keeps j wb rb cn stm s n e es : emitters n = Some (e :: es) ->
  exists r n', ph_sock_new_from_socket (Some j) wb rb cn stm s n = Ret (r, n') /\ keeps j n n' /\
    match r with inl k => job k = j /\ is_Some (jobs n' !! j) | inr _ => True end.
Proof.
  intros He. unfold ph_sock_new_from_socket. destruct (init_keeps j n) as (n1 & Hi & Hk1 & Hj & Ht). rewrite (bind_ret _ _ _ _ _ Hi). cbv zeta.
  assert (emitters n1 = Some (e :: es)) as He1 by (destruct Hk1 as [-> _]; done).
  destruct (free_keeps j n1 e es Hj Ht He1) as (n2 & Hf & Hk2). pose proof (keeps_trans _ _ _ _ Hk1 Hk2) as Hk.
  destruct wb as [wb|]; [|by eexists _, n2; rewrite (bind_ret _ _ _ _ _ Hf)].
  destruct rb as [rb|]; [|by eexists _, n2; rewrite (bind_ret _ _ _ _ _ Hf)].
  destruct cn as [cn|]; [|by eexists _, n2; rewrite (bind_ret _ _ _ _ _ Hf)].
  destruct stm as [stm|]; [|by eexists _, n2; rewrite (bind_ret _ _ _ _ _ Hf)].
  match goal with |- context [alter_job j ?f] => destruct (alter_keeps j f new_job n1 Hj) as (n3 & Ha & Hk3 & Hj3) end.
  eexists _, n3. rewrite (bind_ret _ _ _ _ _ Ha). split; [reflexivity|]. split; [exact (keeps_trans _ _ _ _ Hk1 Hk3)|]. split; [done|]. eauto.
Qed.

(** ** Accepting *)

Section accepting.
Context (acceptor : ph_sock -> LM unit) (d : Z).

(** The listener's job can be scheduled, on its emitter's thread. *)
Definition listens (w : lworld) : Prop := ready d (lnb w) (ljob (lst w)).

(** What is asked of an acceptor: it may do what it likes with the sock, and disable the listener. *)
Definition acceptor_ok : Prop := forall k w, listens w -> exists w', acceptor k w = Ret (tt, w') /\ llog w' = llog w /\ listens w'.

Lemma rearm_listener_ok w : d <> -1 -> listens w -> exists w', rearm_listener w = Ret (tt, w') /\ lst w' = lst w /\ llog w' = llog w /\
  (lenabled (lst w) = true -> waits d (lnb w') (ljob (lst w')) PH_IOMASK_READ).
Proof.
  intros Hd (i & e & j & Hsc & Hfd & Hme & Hp & Hq). unfold rearm_listener. rewrite (bind_ret get _ _ _ _ eq_refl).
  destruct (lenabled (lst w)) eqn:E; [|by exists w]. rewrite <- Hfd in Hp, Hd.
  destruct (set_nbio_spec i e _ j PH_IOMASK_READ None _ Hsc Hd (or_intror Hme) Hp Hq) as (n' & e' & j' & Hs & He' & Hj' & Hint & _ & Hk & _).
  eexists. split; [erewrite bind_ret; [reflexivity|]; unfold lnbio; rewrite Hs; reflexivity|]. split; [done|]. split; [done|].
  intros _. rewrite Hfd in Hint. by exists i, e', j'.
Qed.

(** Whatever accept and memory answer, a dispatch of a listener ends: a
    descriptor that was accepted is handed to the acceptor once or closed once,
    and a listener that is still enabled is waited for again. *)
Theorem accept_hands_over accepted m w : acceptor_ok -> d <> -1 -> listens w -> m_job m <> Some (ljob (lst w)) ->
  exists w', accept_dispatch acceptor accepted m w = Ret (tt, w') /\
    (lenabled (lst w') = true -> waits d (lnb w') (ljob (lst w')) PH_IOMASK_READ) /\
    match accepted with
    | None => llog w' = llog w
    | Some fd => llog w' = llog w ++ [Handed fd (laddr (lst w))] \/ llog w' = llog w ++ [Closed fd]
    end.
Proof.
  intros Hacc Hd Hl Hne. unfold accept_dispatch. destruct accepted as [c|].
  2:{ destruct (rearm_listener_ok w Hd Hl) as (w' & H1 & H2 & H3 & H4). exists w'. rewrite H2 in *. by split_and!. }
  assert (exists r n', ph_sock_new_from_socket (m_job m) (m_wbuf m) (m_rbuf m) (m_conn m) (m_stream m) c (lnb w) = Ret (r, n') /\
    ready d n' (ljob (lst w)) /\ match r with inl k => job k <> ljob (lst w) /\ is_Some (jobs n' !! job k) | inr _ => True end)
    as (r & n' & Hn & Hr & Hk).
  { destruct (m_job m) as [j|]; [|by exists (inr None), (lnb w)].
    pose proof Hl as (i & e & x & [_ (es & He & Hi) _ _] & _). destruct es as [|e0 es]; [done|].
    destruct (new_sock_keeps j (m_wbuf m) (m_rbuf m) (m_conn m) (m_stream m) c (lnb w) e0 es He) as (r & n' & H1 & H2 & H3).
    exists r, n'. split; [done|]. split; [eapply ready_keeps; [done|congruence|done]|]. destruct r; [|done]. destruct H3 as [-> H3]. split; [congruence|done]. }
  erewrite bind_ret by (unfold lnbio; rewrite Hn; reflexivity). destruct r as [k|k].
  - destruct Hk as [Hkj [x Hx]]. rewrite (bind_ret get _ _ _ _ eq_refl). cbn [lst].
    destruct (alter_keeps (job k) (set_job_affinity (lstn_affinity (lst w))) x n' Hx) as (n2 & Ha & Hk2 & _).
    erewrite bind_ret by (unfold lnbio; cbn [lnb]; rewrite Ha; reflexivity). step. step.
    match goal with |- context [(acceptor k ;;; _) ?w1] => destruct (Hacc k w1) as (w3 & Hc & Hlog & Hl3) end.
    { exact (ready_keeps d (job k) n' n2 _ Hk2 (not_eq_sym Hkj) Hr). }
    rewrite (bind_ret _ _ _ _ _ Hc). destruct (rearm_listener_ok w3 Hd Hl3) as (w' & H1 & H2 & H3 & H4).
    exists w'. split; [done|]. rewrite H2 in *. split; [done|]. left. by rewrite H3, Hlog.
  - step. match goal with |- context [rearm_listener ?w1] => destruct (rearm_listener_ok w1 Hd Hr) as (w' & H1 & H2 & H3 & H4) end.
    exists w'. split; [done|]. rewrite H2 in *. split; [done|]. right. by rewrite H3.
Qed.
End accepting.

(** Binding a listener does not change the local address it keeps. *)
Theorem bind_forgets_address addr socket bind1 bind2 w r w' :
  ph_listener_bind addr socket bind1 bind2 w = Ret (r, w') -> laddr (lst w') = laddr (lst w).
Proof.
  unfold ph_listener_bind. rewrite (bind_ret get _ _ _ _ eq_refl). intros H. binv H.
  assert (lst s = lst w) as Hs by (revert E; unfold lnbio; destruct (load_job _ _) as [[]| |]; by intros [= <- <-] || done).
  binv H. assert (lst s0 = lst s) as Hs0.
  { revert E0. destruct (fd a =? -1); [|by intros [= <- <-]]. unfold lnbio. destruct (alter_job _ _ _) as [[]| |]; [|done..]. by intros [= <- <-]. }
  rewrite <- Hs, <- Hs0. repeat case_bool; try (by injection H as <- <-).
Qed.
End listener.

(** A listener on descriptor 5 that accepts descriptor 9. *)
Definition demo_listener : ph_listener := Lstn 1 0 zeroed 3 true true 128 [] 0.
Definition demo_lworld : lworld (EP := gmap_epoll) (CR := PoolProofs.PoolProofs.list_ring) :=
  LWorld demo_listener (demo_state (Thread 2 1 (Some 1%nat) (Timeval 1000 0) false [] [])) [].

Lemma accept_hands_over_witness :
  exists w', accept_dispatch (SYS := pipe_sys) (BQ := dq) (SA := no_ssl) (fun _ => ret tt) (Some 9) (SockMem (Some 20%positive) (wbuf demo_sock) None None None) demo_lworld = Ret (tt, w') /\
    (lenabled (lst w') = true -> waits 5 (lnb w') (ljob (lst w')) PH_IOMASK_READ) /\
    (llog w' = [] ++ [Handed 9 zeroed] \/ llog w' = [] ++ [Closed 9]).
Proof.
  apply (accept_hands_over (SYS := pipe_sys) (BQ := dq) (SA := no_ssl) (fun _ => ret tt) 5 (Some 9) (SockMem (Some 20%positive) (wbuf demo_sock) None None None) demo_lworld).
  - intros k w Hw. by exists w.
  - lia.
  - exact (g_ready _ _ _ _ _ demo_good).
  - done.
Defined.
End Listener.
